(* ===== verification/_CoqProject ===== *)
-Q . S2P
Prelude.v
JsString.v
JsValue.v
JsJson.v
JsNumber.v
JsRegex.v
HttpStatusRules.v
AuthStore.v
AuthSession.v
ChatMessage.v
ChatStream.v
ChatHandler.v
ChatStorage.v
AdvancedCustom.v
ModelMapping.v
Flow.v
BillingRules.v
RuleRoundtrip.v
TierExpr.v
TierRoundtrip.v
TierPrices.v
TierEditor.v
RatioSync.v
TableUrl.v
OAuthBind.v
JsonPrint.v
ModelPricing.v
ParamOverride.v
ParamEditor.v
NavSettings.v
Permissions.v
ChannelForm.v
ChannelSave.v
Navigation.v
Redirects.v
