(* ===== verification/Prelude.v ===== *)
(** * Verification of the web client of the API gateway

    The repository is a gateway for language-model services.  Its server is
    written in Go; this library is about the TypeScript client under src/web/src,
    a React application whose logic lives in plain modules, hooks and one store.
    Paths below are relative to src/web/src.

    ** How the library is laid out

    The language and its standard library:
    - [Prelude]: automation, the stable sort of arrays by a comparator, the
      insertion-ordered maps and sets of the language ([mget], [mset], [sadd],
      [uniq]), integer sums, and executions of a step relation.
    - [JsString], [JsValue], [JsJson]: strings as lists of UTF-16 code units with
      the operations the sources use ([trim], [split], [indexOf], [startsWith],
      [slice], decimal numerals), values of type [unknown] with truthiness,
      [typeof] and property lookup, and an executable JSON parser.
    - [JsNumber]: numbers as exact decimals, [Number(s)] and [String(x)] and that
      one inverts the other.
    - [JsRegex]: the regular expressions of the sources, as a matcher that
      backtracks in the order of the language.
    - [JsonPrint]: [JSON.stringify] with and without indentation, and that
      [JSON.parse] reads back what it prints.

    The program:
    - [HttpStatusRules]: lib/http-status-code-rules.ts.
    - [AuthStore], [AuthSession]: stores/auth-store.ts, lib/auth-session.ts and
      lib/auth-session-sync.ts.
    - [ChatMessage]: the message modules of features/playground/lib/message, its
      types and the request payload builder.
    - [ChatStream]: features/playground/hooks/use-stream-request.ts with the
      decoding of stream events.
    - [ChatHandler]: features/playground/hooks/use-chat-handler.ts, over
      [ChatStream] and [ChatMessage].
    - [ChatStorage]: features/playground/lib/storage, over [ChatMessage].
    - [AdvancedCustom], [ModelMapping]: features/channels/lib/advanced-custom.ts
      and model-mapping-validation.ts.
    - [Flow]: features/dashboard/lib/flow.ts.
    - [BillingRules], [RuleRoundtrip]: the request rules of
      features/pricing/lib/billing-expr.ts, their printer and parser.
    - [TierExpr], [TierRoundtrip], [TierPrices]: the price tiers of the same file
      and of features/pricing/lib/tier-expr.ts, over [BillingRules].
    - [TierEditor]: features/system-settings/models/tiered-pricing-editor.tsx, over
      [TierExpr] and [BillingRules].
    - [RatioSync]: the pages that compare and take over upstream prices
      (features/system-settings/models/upstream-ratio-sync*.ts and .tsx).
    - [ModelPricing]: the page that edits the prices of models
      (model-pricing-core.ts, -sheet.tsx, -snapshots.ts, pricing-format.ts and
      model-ratio-visual-editor.tsx of the same directory), over [BillingRules].
    - [ParamOverride], [ParamEditor]: the dialog that edits the parameter overrides
      of a channel (features/channels/components/dialogs/
      param-override-editor-dialog.tsx), its texts and its handlers.
    - [Permissions]: lib/admin-permissions.ts.
    - [ChannelForm], [ChannelSave]: the form of a channel
      (features/channels/lib/channel-form.ts and channel-form-errors.ts,
      features/channels/hooks/use-channel-mutate-form.ts, and the JSON of
      advanced-custom.ts), over [AdvancedCustom] and [Permissions].
    - [NavSettings], [Navigation]: the settings of header and sidebar
      (features/system-settings/maintenance) and the code that obeys them
      (lib/nav-modules.ts, hooks/use-sidebar-config.ts, use-sidebar-view.ts,
      use-sidebar-data.ts and use-top-nav-links.ts).
    - [Redirects]: features/auth/lib/auth-redirect.ts and lib/legacy-route.ts.
    - [TableUrl]: hooks/use-table-url-state.ts, with the transformers of the tables of
      usage logs and channels.
    - [OAuthBind]: binding an account of another service in a popup
      (features/auth/lib/oauth-callback-mode.ts and oauth-bind-window.ts,
      routes/oauth/$provider.tsx and the account tab of the profile).

    Each file of the program has one module with the name of the file.  Data types
    are records and inductive types with the fields and cases of the TypeScript
    types; a function of the source is a definition of the same name; anything the
    source mutates is passed along explicitly.  Loop bodies and callbacks that a
    source function contains are definitions of their own when lemmas speak of
    them.  The state of a hook or a component is a record, its handlers are
    functions on it, and what users, servers, timers and React do to it is a step
    relation.

    ** How the parts interact

    The store keeps the access token, its expiry, the session and the user.
    lib/auth-session.ts is the only code that changes them: it installs bundles,
    applies rotations, signs out, and refreshes the token, alone or behind a
    browser lock.  A refresh is suspended at every [await]; between two of its
    steps any other operation of the page may run.  In [AuthSession] each
    suspension is a state of the refresh and each event (an answer, a timer, a
    lock grant, a page operation) an [Action], so that the theorems quantify over
    all interleavings.  Tabs tell each other of changes by events.

    The playground keeps a conversation, a list of messages.  A send appends a
    user message and a loading reply; [ChatStream] opens a source and calls back
    with updates, one completion or one error; [ChatHandler] buffers the updates,
    flushes them on animation frames through updaters that React runs now or
    later, and guards every updater by a generation counter; [ChatMessage] says
    what a chunk, a completion, an error, an edit and a regeneration do to the
    list; [ChatStorage] saves and loads it.

    Prices are kept by the server as JSON texts, one for each kind of price, and as
    expressions that combine price tiers with rules on requests.  The tier editor
    reads an expression into tables and prints it again; the pricing page shows the
    texts as rows, edits one model at a time and writes all texts back; the sync
    page compares them with upstream values and sends the choices of the user to
    the server.  All three rest on the parser and printer of expressions and on the
    JSON of the language.

    Binding an account involves two windows: the profile page opens a popup, stamps
    its storage, sends it to the service and waits; the callback page in the popup
    recognises the stamp and posts the code to its opener, which exchanges it with
    the server and posts the outcome back.  In [OAuthBind] both windows and the
    messages between them are one state, and messages may be delayed, repeated or
    sent by strangers.

    The override editor of a channel keeps a list of operations whose identifiers
    come from a counter, and shows it as forms or as JSON text; every handler is a
    function on its state that may draw identifiers or throw.

    A channel is a row of the server with two JSON texts of settings.  Its form reads
    the row, is checked by a schema, and is sent back as a whole; what a user without
    the right to edit sensitive fields may send is decided when the request is built.
    The navigation is switched by two more JSON texts: pages of the system settings
    write them, and the header, the sidebar and the guards of pages read them from
    the status of the server or from its copy in the browser.

    Channel validation, the dashboard, redirects and the table state are pure: forms are
    normalised, validated and printed, usage rows are turned into a graph, and the
    filters and pages of tables are written to and read from the address.

    ** What the theorems show

    - Authentication (C1 to C3): token, expiry and session are together present
      or absent in every reachable state, and valid as long as the bundles that
      logins install are; a sign-out is never undone by a refresh in flight; and a
      refresh ends after at most eight requests whatever the server answers.
    - Status code rules (C4): printing and parsing round-trip on the canonical form
      of a set of codes.
    - Messages (C5 to C7): an invariant of conversations under all operations with
      fresh keys and no send while a reply is pending, the reading of reasoning tags
      against a declarative grammar that reads every text in one way, and streaming.
    - Streams and chat (C8 to C11): one outcome for each request, no callback after
      a cancellation, the invariant of the handler, and that a stop is final.
    - Advanced routes (C12): validation agrees with a declarative definition and
      names the first error.
    - Storage (C13): what a load keeps, within which limits, and what it writes.
    - Flow (C14, C15): the graph conserves flow, and masking hides every sensitive
      label.
    - Billing expressions (C16 to C19): rules and tiers whose texts are plain are read
      back as printed, opening the editor on them settles with the printed expression,
      and its tables stay well formed from the default or an opened expression on.
    - Upstream prices (C20, C21): an invariant of the choices under all operations,
      and, for local settings without a fixed price beside a ratio, exactly what is
      sent to the server and when the user is asked.
    - Tables (C22): column filters survive the address as far as the transformers of
      their columns undo each other, for any transformers.
    - Binding (C23): the two windows refine the life of a binding in which each is
      exchanged and answered at most once.
    - Model prices (C24, C25): saving writes exactly the draft and touches no other
      model when the settings hold objects, and what it does when they hold anything
      else; and ratios and prices, where they are exact, stay in step while the user
      types.
    - Parameter overrides (C26 to C30): what is saved opens again as it was, the
      checks report exactly the first incomplete operation, the dialog keeps its
      identifiers, texts and selection in order under all its handlers, both
      editors save the same text when it is complete and the JSON editor also one
      that is not, and the rule buttons of an object pruning only print it again.
    - Channel form (C31 to C35): a form that the schema accepts is saved without an
      exception, and the row that a server leaves which stores what has a value and
      skips null opens with what was entered; saving keeps the settings that the form
      does not own and drops those of other channel types, but not those on upstream
      models; opening what was saved and saving again changes no text; an update sends
      a key and the fields that the client counts as sensitive only with the right to
      edit them; and the policies that every update holds make the server, which
      counts more fields, refuse a user without it.
    - Navigation (C36 to C38): the saved switches mean the same to the settings
      page, the guard of pages and the sidebar; the sidebar shows exactly what roles
      and switches allow; and the header settings are read back and obeyed.
    - Redirects (C39, C40): a login sends the browser only to a path of this site,
      and a former web address is replaced at most once.

    Further theorems of the same files settle smaller questions: what a message
    shows, delivery of events between tabs, sanitising on load, the invariant of the
    stream controller, round trips of model lists, categories of models, limits,
    highlighting and filters of the graph, the bound of its sums, selections of the
    sync page, two behaviours of streaming and storage that lose text, every
    refusal of a refresh, the inputs that the status rules refuse, the name sets of
    a model mapping, the totals of each stage of the graph, prices that two pages
    compute alike, the fallback of the tier editor and its switching between modes,
    pages in the address, overtaken refreshes, what a popup reports and which timers
    and windows a binding holds, the rows of the pricing table and what they show
    after saving, a fixed price that overrides the mode, overrides that are saved
    again unchanged, dragging in their list, and what creating a channel sends.

    ** Bounds and fuel

    Every definition is total.  The loop over reasoning tags takes one more than
    the length of the text as fuel and drops at least one character at each round
    ([ChatMessage.parse_think_tags_spec] shows that it ends with the result of the
    grammar).  The JSON parser takes one more than twice the length of its input,
    and every two nested calls consume at least one character; [JsonPrint] proves
    that it suffices for every text that [JSON.stringify] prints.  The matcher of
    regular expressions, the splitting at separators and the removal of outer
    parentheses take the length of the text, of which every round consumes a part;
    the round trips of rules and tiers show that it suffices for printed
    expressions.  A refresh needs no fuel: each of its states is a step, and C3
    bounds their number.  Times are integers in milliseconds; numbers that may be
    fractional or not finite are [JsValue.num], and the arithmetic of prices is
    exact, so the rounding of floating-point numbers is outside the model.  Sums of
    the flow graph are exact integers, bounded by the total of the rows.

    ** What is not modelled

    The Go server and everything that only calls it; React components, routes,
    translations, styles and charts; colours and number formats; the validation
    schemas of the zod library, except for the form of a channel, whose schema is
    written out.  Platform services are parameters or inputs: clocks, key
    generators, the HTTP client, lock managers, collation, local storage, the parser
    of addresses.  Objects have the members that were given to them; inherited ones
    are modelled only where an address can name them ([Redirects]).  Of the modelled files, the listener registration and the storage
    fallback of lib/auth-session-sync.ts, the unmount effect and the debounced save
    of the playground state, the configuration entries of its storage, the chart
    specification of the flow graph, what a login callback does after its exchange,
    the cost estimator of the tier editor, the requests that open the sync page,
    the summaries in the cells of the pricing table, the labels, the search and the
    counts of the override editor, the reading of messages from failed requests of
    the channel form, and the nested view of the sidebar are left out.

    ** What could follow

    The start of a login (features/auth/lib), the storage fallback of the tab events,
    the helpers of the channel list (features/channels/lib), the prices of the public
    pages (features/pricing/lib) and the display of currencies (lib). *)

From stdpp Require Export base numbers list option sets strings gmap.
From Stdlib Require Export Permutation Sorted.

Set Default Proof Using "Type".

(** ** Automation *)

Create HintDb jsdb.

(** Case analysis on every [match] and [if] scrutinee of the goal, then of the
    hypotheses, keeping the equations. *)
Ltac case_all :=
  repeat (first
    [ progress simplify_eq/=
    | match goal with
      | |- context [if ?b then _ else _] => destruct b eqn:?
      | |- context [match ?x with _ => _ end] => destruct x eqn:?
      end ]).

Ltac case_all_in H :=
  repeat (first
    [ progress simplify_eq/=
    | match type of H with
      | context [if ?b then _ else _] => destruct b eqn:?
      | context [match ?x with _ => _ end] => destruct x eqn:?
      end ]).

(** One case analysis on the first [if] of hypothesis [H]. *)
Ltac case_if_in H :=
  match type of H with context [if ?b then _ else _] => destruct b eqn:? end.

(** Turns boolean connectives and comparisons of hypotheses into propositions. *)
Ltac bsplit :=
  repeat match goal with
  | H : _ && _ = true |- _ => apply andb_true_iff in H; destruct H
  | H : _ || _ = false |- _ => apply orb_false_iff in H; destruct H
  | H : _ || _ = true |- _ => apply orb_true_iff in H
  | H : _ && _ = false |- _ => apply andb_false_iff in H
  | H : negb _ = true |- _ => apply negb_true_iff in H
  | H : negb _ = false |- _ => apply negb_false_iff in H
  | H : bool_decide _ = true |- _ => apply bool_decide_eq_true in H
  | H : bool_decide _ = false |- _ => apply bool_decide_eq_false in H
  | H : (_ =? _)%Z = true |- _ => apply Z.eqb_eq in H
  | H : (_ =? _)%Z = false |- _ => apply Z.eqb_neq in H
  | H : (_ <? _)%Z = true |- _ => apply Z.ltb_lt in H
  | H : (_ <? _)%Z = false |- _ => apply Z.ltb_ge in H
  | H : (_ <=? _)%Z = true |- _ => apply Z.leb_le in H
  | H : (_ <=? _)%Z = false |- _ => apply Z.leb_gt in H
  end.

(** Decides a closed goal. *)
Ltac decided := refine (bool_decide_unpack _ _); by vm_compute.

(** ** [Array.prototype.sort]: a stable sort by a comparator

    The comparators of the program return numbers; a negative result puts the
    first argument before the second.  The language fixes the result of a sort
    by a consistent comparator to be the stable one, which is insertion sort. *)
Section Sorting.
Context {A : Type} (cmp : A → A → Z).

Fixpoint insert_by (x : A) (l : list A) : list A :=
  match l with
  | [] => [x]
  | y :: l' => if (cmp x y <? 0)%Z then x :: y :: l' else y :: insert_by x l'
  end.

Definition sort_by (l : list A) : list A :=
  foldl (fun acc x => insert_by x acc) [] l.

(** [a] may stand before [b]. *)
Definition cmp_le (a b : A) : Prop := (0 <= cmp b a)%Z.

Lemma insert_by_perm x l : Permutation (insert_by x l) (x :: l).
Proof.
  induction l as [|y l IH]; simpl; [done|].
  destruct (_ <? _)%Z; [done|]. rewrite IH. constructor.
Qed.

Lemma foldl_insert_perm l acc :
  Permutation (foldl (fun acc x => insert_by x acc) acc l) (acc ++ l).
Proof.
  revert acc. induction l as [|x l IH]; intros acc; simpl.
  - by rewrite app_nil_r.
  - rewrite IH, insert_by_perm. by rewrite <- Permutation_middle.
Qed.

Lemma sort_by_perm l : Permutation (sort_by l) l.
Proof. unfold sort_by. by rewrite foldl_insert_perm. Qed.

Lemma sort_by_length l : length (sort_by l) = length l.
Proof. apply Permutation_length, sort_by_perm. Qed.

Lemma elem_of_sort_by x l : x ∈ sort_by l ↔ x ∈ l.
Proof. by rewrite (sort_by_perm l). Qed.

Lemma sort_by_NoDup l : NoDup (sort_by l) ↔ NoDup l.
Proof. by rewrite (sort_by_perm l). Qed.

Lemma Forall_sort_by (P : A → Prop) l : Forall P (sort_by l) ↔ Forall P l.
Proof. by rewrite (sort_by_perm l). Qed.

(** A consistent comparator: never negative both ways, and "may stand before"
    is transitive. *)
Class Comparator : Prop := {
  cmp_asym : ∀ a b, (cmp a b < 0 → 0 <= cmp b a)%Z;
  cmp_trans : ∀ a b c, cmp_le a b → cmp_le b c → cmp_le a c
}.

Lemma insert_by_sorted `{!Comparator} x l :
  StronglySorted cmp_le l → StronglySorted cmp_le (insert_by x l).
Proof.
  induction 1 as [|y l Hs IH Hall]; simpl; [repeat constructor|].
  destruct (_ <? _)%Z eqn:E; bsplit.
  - assert (cmp_le x y) by (by apply cmp_asym).
    repeat constructor; auto.
    eapply Forall_impl; [exact Hall|]. intros z Hz. by eapply cmp_trans.
  - constructor; [done|]. rewrite insert_by_perm. by constructor.
Qed.

Lemma sort_by_sorted `{!Comparator} l : StronglySorted cmp_le (sort_by l).
Proof.
  unfold sort_by. assert (StronglySorted cmp_le []) as Hs by constructor.
  revert Hs. generalize (@nil A). induction l as [|x l IH]; intros acc Hs; simpl; auto.
  apply IH. by apply insert_by_sorted.
Qed.

(** A comparator that compares a key first ([b.key - a.key || ...]) sorts by
    that key, whatever it does with equal keys. *)
Definition descending (f : A → Z) (a b : A) : Prop := (f b <= f a)%Z.

Lemma insert_by_key (f : A → Z) x l :
  (∀ a b, f a ≠ f b → cmp a b = f b - f a)%Z →
  StronglySorted (descending f) l → StronglySorted (descending f) (insert_by x l).
Proof.
  intros Hf. unfold descending. induction 1 as [|y l Hs IH Hall]; simpl; [repeat constructor|].
  assert (cmp x y < 0 → f y <= f x)%Z as H1
    by (destruct (decide (f x = f y)) as [|Hne]; [lia|rewrite (Hf x y Hne); lia]).
  assert (0 <= cmp x y → f x <= f y)%Z as H2
    by (destruct (decide (f x = f y)) as [|Hne]; [lia|rewrite (Hf x y Hne); lia]).
  destruct (_ <? _)%Z eqn:E; bsplit.
  - constructor; [by constructor|]. constructor; [by apply H1|].
    eapply Forall_impl; [exact Hall|]. intros z Hz. simpl in *. lia.
  - constructor; [done|]. rewrite insert_by_perm. constructor; [by apply H2|done].
Qed.

Lemma sort_by_key (f : A → Z) l :
  (∀ a b, f a ≠ f b → cmp a b = f b - f a)%Z → StronglySorted (descending f) (sort_by l).
Proof.
  intros Hf. unfold sort_by. assert (StronglySorted (descending f) []) as Hs by constructor.
  revert Hs. generalize (@nil A). induction l as [|x l IH]; intros acc Hs; simpl; auto.
  apply IH. by apply insert_by_key.
Qed.

Lemma insert_by_last x l :
  Forall (fun y => cmp_le y x) l → insert_by x l = l ++ [x].
Proof.
  induction 1 as [|y l Hy _ IH]; simpl; [done|].
  unfold cmp_le in Hy. destruct (_ <? _)%Z eqn:E; bsplit; [lia|]. by rewrite IH.
Qed.

(** Sorting a sorted array does nothing. *)
Lemma sort_by_id l : StronglySorted cmp_le l → sort_by l = l.
Proof.
  unfold sort_by. intros H.
  enough (∀ acc, StronglySorted cmp_le (acc ++ l) →
    foldl (fun acc x => insert_by x acc) acc l = acc ++ l) as E by (by apply (E [])).
  clear H. induction l as [|x l IH]; intros acc H; simpl; [by rewrite app_nil_r|].
  rewrite insert_by_last.
  - rewrite IH; rewrite <- (assoc (++)); done.
  - clear IH. induction acc as [|a acc IHacc]; [constructor|].
    inversion_clear H as [|?? H1 H2]. constructor; [|auto].
    by rewrite Forall_app, Forall_cons in H2; destruct_and!.
Qed.
End Sorting.

Arguments Comparator {A} cmp.

(** [c1 || c2] on comparator results. *)
Definition cmp_or (c1 c2 : Z) : Z := if (c1 =? 0)%Z then c2 else c1.

(** ** Insertion-ordered maps: the [Map] of the language

    Entries in insertion order; setting a present key keeps its position. *)
Section OMap.
Context {K V : Type} `{EqDecision K}.

Fixpoint mget (k : K) (m : list (K * V)) : option V :=
  match m with
  | [] => None
  | (k', v) :: m' => if decide (k = k') then Some v else mget k m'
  end.

Fixpoint mset (k : K) (v : V) (m : list (K * V)) : list (K * V) :=
  match m with
  | [] => [(k, v)]
  | (k', v') :: m' => if decide (k = k') then (k', v) :: m' else (k', v') :: mset k v m'
  end.

Definition mkeys (m : list (K * V)) : list K := m.*1.
Definition mvalues (m : list (K * V)) : list V := m.*2.

Lemma mget_mset k k' v m :
  mget k' (mset k v m) = if decide (k = k') then Some v else mget k' m.
Proof.
  induction m as [|[j w] m IH]; simpl.
  - by repeat case_decide; subst.
  - repeat (case_decide; subst; simpl); try done; by rewrite ?IH, ?decide_True.
Qed.

Lemma mget_mset_eq k v m : mget k (mset k v m) = Some v.
Proof. by rewrite mget_mset, decide_True. Qed.

Lemma mget_mset_ne k k' v m : k ≠ k' → mget k' (mset k v m) = mget k' m.
Proof. intros. by rewrite mget_mset, decide_False. Qed.

Lemma mget_None k m : mget k m = None ↔ k ∉ mkeys m.
Proof.
  induction m as [|[j w] m IH]; simpl; [split; [intros _; apply not_elem_of_nil|done]|].
  rewrite not_elem_of_cons. case_decide; subst; [naive_solver|]. rewrite IH. naive_solver.
Qed.

Lemma mkeys_mset k v m :
  mkeys (mset k v m) = if decide (k ∈ mkeys m) then mkeys m else mkeys m ++ [k].
Proof.
  induction m as [|[j w] m IH]; [done|]. simpl.
  destruct (decide (k = j)) as [->|Hne]; simpl.
  - rewrite decide_True; [done|]. constructor.
  - unfold mkeys in *. rewrite IH. destruct (decide (k ∈ m.*1)) as [Hin|Hin].
    + rewrite decide_True; [done|]. by constructor.
    + rewrite decide_False; [done|]. rewrite not_elem_of_cons. naive_solver.
Qed.

Lemma mkeys_mset_NoDup k v m : NoDup (mkeys m) → NoDup (mkeys (mset k v m)).
Proof.
  rewrite mkeys_mset. case_decide; [done|]. intros.
  apply NoDup_app; repeat split; [done| |apply NoDup_singleton]. set_solver.
Qed.

Lemma elem_of_mkeys_mset k k' v m : k' ∈ mkeys (mset k v m) ↔ k' = k ∨ k' ∈ mkeys m.
Proof. rewrite mkeys_mset. case_decide; set_solver. Qed.

Lemma mget_Some_elem k v m : mget k m = Some v → (k, v) ∈ m.
Proof.
  induction m as [|[j w] m IH]; simpl; [done|].
  case_decide; intros; simplify_eq; [by constructor|]. constructor. auto.
Qed.

Lemma elem_of_mvalues v m : v ∈ mvalues m ↔ ∃ k, (k, v) ∈ m.
Proof. unfold mvalues. rewrite list_elem_of_fmap. split; [intros ([k w] & -> & H); by exists k|intros [k H]; by exists (k, v)]. Qed.

Lemma elem_mget k v m : NoDup (mkeys m) → (k, v) ∈ m → mget k m = Some v.
Proof.
  induction m as [|[j w] m IH]; simpl; [set_solver|].
  intros [Hj Hnd]%NoDup_cons Hin. apply elem_of_cons in Hin as [?|Hin]; simplify_eq.
  - by rewrite decide_True.
  - case_decide; subst; [|auto]. destruct Hj. by apply (list_elem_of_fmap_2 fst) in Hin.
Qed.

(** [delete m[k]] *)
Definition mdel (k : K) (m : list (K * V)) : list (K * V) := filter (fun e => e.1 ≠ k) m.

Lemma mget_filter (P : K → Prop) `{∀ k, Decision (P k)} k m :
  mget k (filter (fun e => P e.1) m) = if decide (P k) then mget k m else None.
Proof.
  induction m as [|[j w] m IH]; [by case_decide|]. rewrite filter_cons. cbn [fst].
  destruct (decide (P j)), (decide (P k)); cbn [mget]; repeat case_decide; subst; done.
Qed.

Lemma mget_mdel k k' m : mget k' (mdel k m) = if decide (k' = k) then None else mget k' m.
Proof. etrans; [exact (mget_filter (fun j => j ≠ k) k' m)|]. by do 2 case_decide. Qed.

Lemma mset_comm k j v w m : k ≠ j → k ∈ mkeys m → mset k v (mset j w m) = mset j w (mset k v m).
Proof.
  intros Hne. induction m as [|[i x] m IH]; [set_solver|]. unfold mkeys in *. cbn [fmap list_fmap fst mset].
  intros [->|Hin]%elem_of_cons; repeat (case_decide; subst; cbn [mset]); try done; by rewrite IH.
Qed.

Lemma mset_mset k v w m : mset k v (mset k w m) = mset k v m.
Proof. induction m as [|[i x] m IH]; cbn [mset]; repeat (case_decide; subst; cbn [mset]); try done; by rewrite IH. Qed.

Lemma mkeys_filter (P : K → Prop) `{∀ k, Decision (P k)} m : mkeys (filter (fun e => P e.1) m) = filter P (mkeys m).
Proof.
  induction m as [|[j w] m IH]; [done|]. unfold mkeys in *. rewrite filter_cons, fmap_cons, filter_cons. cbn [fst].
  case_decide; [|done]. by rewrite fmap_cons, IH.
Qed.

Lemma mkeys_mdel k m : mkeys (mdel k m) = filter (fun j => j ≠ k) (mkeys m).
Proof. exact (mkeys_filter (fun j => j ≠ k) m). Qed.

Lemma mkeys_mdel_NoDup k m : NoDup (mkeys m) → NoDup (mkeys (mdel k m)).
Proof. rewrite mkeys_mdel. apply NoDup_filter. Qed.

Lemma mset_value k v m e : e ∈ mset k v m → e.2 = v ∨ e ∈ m.
Proof.
  induction m as [|[j w] m IH]; cbn [mset]; [intros ->%list_elem_of_singleton; by left|].
  case_decide; intros [->|Hin]%elem_of_cons; [by left|right; by constructor|right; by constructor|].
  destruct (IH Hin); [by left|right; by constructor].
Qed.

Lemma mget_is_Some k m : is_Some (mget k m) ↔ k ∈ mkeys m.
Proof. rewrite <- not_eq_None_Some, mget_None. destruct (decide (k ∈ mkeys m)); naive_solver. Qed.
End OMap.

#[export] Hint Resolve mkeys_mset_NoDup : jsdb.

(** ** Insertion-ordered sets: the [Set] of the language *)
Section OSet.
Context {A : Type} `{EqDecision A}.

Definition sadd (x : A) (s : list A) : list A := if decide (x ∈ s) then s else s ++ [x].

(** [[...new Set(l)]]. *)
Definition uniq (l : list A) : list A := foldl (fun s x => sadd x s) [] l.

Lemma elem_of_sadd x y s : y ∈ sadd x s ↔ y = x ∨ y ∈ s.
Proof. unfold sadd. case_decide; set_solver. Qed.

Lemma sadd_NoDup x s : NoDup s → NoDup (sadd x s).
Proof.
  unfold sadd. case_decide; [done|]. intros.
  apply NoDup_app; repeat split; [done| |apply NoDup_singleton]. set_solver.
Qed.

Lemma elem_of_foldl_sadd x l s : x ∈ foldl (fun s x => sadd x s) s l ↔ x ∈ s ∨ x ∈ l.
Proof.
  revert s. induction l as [|y l IH]; intros s; simpl; [set_solver|].
  rewrite IH, elem_of_sadd. set_solver.
Qed.

Lemma elem_of_uniq x l : x ∈ uniq l ↔ x ∈ l.
Proof. unfold uniq. rewrite elem_of_foldl_sadd. set_solver. Qed.

Lemma uniq_NoDup l : NoDup (uniq l).
Proof.
  unfold uniq. assert (NoDup (@nil A)) as H by constructor. revert H.
  generalize (@nil A). induction l; intros s H; simpl; auto using sadd_NoDup.
Qed.

Lemma uniq_id l : NoDup l → uniq l = l.
Proof.
  unfold uniq. intros H.
  enough (∀ s, NoDup (s ++ l) → foldl (fun s x => sadd x s) s l = s ++ l) as E
    by (by apply (E [])).
  clear H. induction l as [|x l IH]; intros s H; simpl; [by rewrite app_nil_r|].
  assert (sadd x s = s ++ [x]) as ->.
  { unfold sadd. rewrite decide_False; [done|]. intros Hx.
    apply NoDup_app in H as (_ & H & _). by apply (H x Hx); constructor. }
  rewrite IH; by rewrite <- (assoc (++)).
Qed.

Lemma uniq_idemp l : uniq (uniq l) = uniq l.
Proof. apply uniq_id, uniq_NoDup. Qed.
End OSet.

#[export] Hint Resolve uniq_NoDup sadd_NoDup : jsdb.

(** ** Filtering *)

Lemma forallb_Forall {A} (f : A → bool) (P : A → Prop) l : (∀ x, f x = true → P x) → forallb f l = true → Forall P l.
Proof. intros H Hl. apply Forall_forall. intros x Hx. apply H. rewrite forallb_forall in Hl. apply Hl. by apply list_elem_of_In. Qed.

Lemma forallb_Forall_true {A} (f : A → bool) l : forallb f l = true → Forall (fun x => f x = true) l.
Proof. by apply forallb_Forall. Qed.

Lemma filter_all {A} (P : A → Prop) `{∀ x, Decision (P x)} l : Forall P l → filter P l = l.
Proof. induction 1 as [|x l Hx _ IH]; [done|]. by rewrite filter_cons_True, IH. Qed.

(** ** Integer sums over lists and maps *)
Definition zsum {A} (f : A → Z) (l : list A) : Z := foldr (fun x s => f x + s)%Z 0%Z l.

Lemma zsum_app {A} (f : A → Z) l l' : zsum f (l ++ l') = (zsum f l + zsum f l')%Z.
Proof. induction l as [|x l IH]; simpl; [done|]. unfold zsum in *. simpl. lia. Qed.

Lemma zsum_perm {A} (f : A → Z) l l' : Permutation l l' → zsum f l = zsum f l'.
Proof. induction 1; unfold zsum in *; simpl in *; lia. Qed.

Lemma zsum_fmap {A B} (f : B → Z) (g : A → B) l : zsum f (g <$> l) = zsum (fun x => f (g x)) l.
Proof. induction l as [|x l IH]; [done|]. rewrite fmap_cons. unfold zsum in *. cbn [foldr]. by rewrite IH. Qed.

Lemma zsum_ext {A} (f g : A → Z) l : (∀ x, x ∈ l → f x = g x) → zsum f l = zsum g l.
Proof.
  induction l as [|x l IH]; intros H; [done|]. unfold zsum in *. simpl.
  rewrite (H x), IH; [done| |constructor]. intros y Hy. apply H. by constructor.
Qed.

Lemma zsum_foldl {A} (f : A → Z) l a : foldl (fun s x => s + f x)%Z a l = (a + zsum f l)%Z.
Proof. revert a. induction l as [|x l IH]; intros a; simpl; [lia|]. rewrite IH. unfold zsum. lia. Qed.

(** Replacing the entry of a key changes a sum by the difference. *)
Lemma zsum_mset {K V} `{EqDecision K} (f : V → Z) k v (m : list (K * V)) :
  zsum f (mvalues (mset k v m)) = (zsum f (mvalues m) + f v - from_option f 0 (mget k m))%Z.
Proof.
  unfold mvalues, zsum in *. induction m as [|[k' v'] m IH]; [simpl; lia|].
  cbn [mset mget]. case_decide; rewrite !fmap_cons; cbn [foldr snd from_option]; [lia|].
  rewrite IH. lia.
Qed.

(** ** Finite executions of a step relation *)
Section Steps.
Context {S : Type} (step : S → S → Prop).

Inductive steps : S → S → Prop :=
| steps_refl s : steps s s
| steps_snoc s1 s2 s3 : steps s1 s2 → step s2 s3 → steps s1 s3.

(** A property that holds at the start and is preserved by every step holds at
    every reachable state. *)
Lemma steps_invariant (P : S → Prop) s0 s :
  (∀ s1 s2, P s1 → step s1 s2 → P s2) → P s0 → steps s0 s → P s.
Proof. intros Hstep H0. induction 1; eauto. Qed.
End Steps.
