(* ===== verification/JsString.v ===== *)
(** * Strings of the language

    A string is the list of its UTF-16 code units, each a number below 2^16, so
    that [length], [slice], [trim] and the comparison of the program read on the
    model as they do in the source.  [js] turns a literal (UTF-8 bytes) into its
    code units.  The operations are the ones the modelled files call, with the
    lemmas that the components share. *)

From S2P Require Import Prelude.
From Stdlib Require Import Ascii NArith DecimalN DecimalPos DecimalFacts.

Notation jsstr := (list N).

(** ** Literals *)

Definition utf16_of_code_point (c : N) : list N :=
  if (c <? 0x10000)%N then [c]
  else let d := (c - 0x10000)%N in
       [(0xD800 + N.shiftr d 10)%N; (0xDC00 + N.land d 0x3FF)%N].

Fixpoint utf16_of_utf8 (bs : list N) : list N :=
  match bs with
  | [] => []
  | b0 :: r0 =>
      if (b0 <? 0x80)%N then b0 :: utf16_of_utf8 r0
      else match r0 with
      | [] => [b0]
      | b1 :: r1 =>
        if (b0 <? 0xE0)%N
        then utf16_of_code_point (N.lor (N.shiftl (N.land b0 0x1F) 6) (N.land b1 0x3F))
             ++ utf16_of_utf8 r1
        else match r1 with
        | [] => [b0; b1]
        | b2 :: r2 =>
          if (b0 <? 0xF0)%N
          then utf16_of_code_point
                 (N.lor (N.shiftl (N.land b0 0x0F) 12)
                    (N.lor (N.shiftl (N.land b1 0x3F) 6) (N.land b2 0x3F)))
               ++ utf16_of_utf8 r2
          else match r2 with
          | [] => [b0; b1; b2]
          | b3 :: r3 =>
            utf16_of_code_point
              (N.lor (N.shiftl (N.land b0 0x07) 18)
                 (N.lor (N.shiftl (N.land b1 0x3F) 12)
                    (N.lor (N.shiftl (N.land b2 0x3F) 6) (N.land b3 0x3F))))
            ++ utf16_of_utf8 r3
          end
        end
      end
  end.

Definition js (s : string) : jsstr := utf16_of_utf8 (N_of_ascii <$> String.list_ascii_of_string s).
Arguments js : simpl never.

(** A one-unit literal. *)
Definition ch (s : string) : N := hd 0%N (js s).
Arguments ch : simpl never.

(** Literals compute under [vm_compute] and stay folded everywhere else. *)
#[global] Opaque js ch.

(** ** Truthiness of a string: only the empty one is false. *)
Definition str_true (s : jsstr) : bool := match s with [] => false | _ => true end.

(** [s || d] *)
Definition str_or (s d : jsstr) : jsstr := if str_true s then s else d.

(** [s?.trim() || '']-style reading of an optional string. *)
Definition ostr (s : option jsstr) : jsstr := default [] s.

(** ** White space: the characters [trim] strips and [\s] matches. *)
Definition is_ws (c : N) : bool :=
  ((9 <=? c) && (c <=? 13) || (c =? 32) || (c =? 160) || (c =? 0x1680)
   || (0x2000 <=? c) && (c <=? 0x200A) || (c =? 0x2028) || (c =? 0x2029)
   || (c =? 0x202F) || (c =? 0x205F) || (c =? 0x3000) || (c =? 0xFEFF))%N.

Fixpoint trim_start (s : jsstr) : jsstr :=
  match s with
  | [] => []
  | c :: s' => if is_ws c then trim_start s' else s
  end.

Definition trim_end (s : jsstr) : jsstr := reverse (trim_start (reverse s)).

Definition trim (s : jsstr) : jsstr := trim_end (trim_start s).

(** [s.replace(/\s/g, '')] *)
Definition remove_ws (s : jsstr) : jsstr := filter (fun c => is_ws c = false) s.

(** [s.replace(/[a]/g, b)] for one-unit [a] and [b] *)
Definition replace_char (a b : N) (s : jsstr) : jsstr :=
  (fun c => if decide (c = a) then b else c) <$> s.

(** ** Splitting and joining *)
Fixpoint split_on (sep : N) (s : jsstr) : list jsstr :=
  match s with
  | [] => [[]]
  | c :: s' =>
      if decide (c = sep) then [] :: split_on sep s'
      else match split_on sep s' with
           | [] => [[c]]
           | w :: ws => (c :: w) :: ws
           end
  end.

Fixpoint str_join (sep : jsstr) (l : list jsstr) : jsstr :=
  match l with
  | [] => []
  | [w] => w
  | w :: ws => w ++ sep ++ str_join sep ws
  end.

(** ** Searching *)
Fixpoint starts_with (p s : jsstr) : bool :=
  match p, s with
  | [], _ => true
  | a :: p', b :: s' => bool_decide (a = b) && starts_with p' s'
  | _, [] => false
  end.

Definition ends_with (p s : jsstr) : bool := starts_with (reverse p) (reverse s).

(** [s.indexOf(p)], [None] for -1. *)
Fixpoint index_of (p s : jsstr) : option nat :=
  if starts_with p s then Some 0
  else match s with [] => None | _ :: s' => S <$> index_of p s' end.

(** [s.indexOf(p, from)] *)
Definition index_from (p s : jsstr) (from : nat) : option nat :=
  (fun i => from + i) <$> index_of p (drop from s).

Definition includes (p s : jsstr) : bool :=
  match index_of p s with Some _ => true | None => false end.

(** [s.slice(i, j)] for [i <= j]. *)
Definition slice (i j : nat) (s : jsstr) : jsstr := take (j - i) (drop i s).

(** ** Decimal numerals *)
Definition is_digit (c : N) : bool := ((48 <=? c) && (c <=? 57))%N.

Fixpoint codes_of_uint (d : Decimal.uint) : jsstr :=
  match d with
  | Decimal.Nil => []
  | Decimal.D0 d => 48%N :: codes_of_uint d
  | Decimal.D1 d => 49%N :: codes_of_uint d
  | Decimal.D2 d => 50%N :: codes_of_uint d
  | Decimal.D3 d => 51%N :: codes_of_uint d
  | Decimal.D4 d => 52%N :: codes_of_uint d
  | Decimal.D5 d => 53%N :: codes_of_uint d
  | Decimal.D6 d => 54%N :: codes_of_uint d
  | Decimal.D7 d => 55%N :: codes_of_uint d
  | Decimal.D8 d => 56%N :: codes_of_uint d
  | Decimal.D9 d => 57%N :: codes_of_uint d
  end.

Definition cons_digit (c : N) (d : Decimal.uint) : option Decimal.uint :=
  match c with
  | 48%N => Some (Decimal.D0 d) | 49%N => Some (Decimal.D1 d)
  | 50%N => Some (Decimal.D2 d) | 51%N => Some (Decimal.D3 d)
  | 52%N => Some (Decimal.D4 d) | 53%N => Some (Decimal.D5 d)
  | 54%N => Some (Decimal.D6 d) | 55%N => Some (Decimal.D7 d)
  | 56%N => Some (Decimal.D8 d) | 57%N => Some (Decimal.D9 d)
  | _ => None
  end.

Fixpoint uint_of_codes (s : jsstr) : option Decimal.uint :=
  match s with
  | [] => Some Decimal.Nil
  | c :: s' => d ← uint_of_codes s'; cons_digit c d
  end.

(** The text of a non-negative integer, and of an integer. *)
Definition str_of_N (n : N) : jsstr := codes_of_uint (N.to_uint n).

Definition str_of_Z (z : Z) : jsstr :=
  match z with
  | Zneg p => ch "-" :: str_of_N (Npos p)
  | _ => str_of_N (Z.to_N z)
  end.

(** [Number.parseInt(s, 10)] on a string of decimal digits. *)
Definition parse_digits (s : jsstr) : option N := N.of_uint <$> uint_of_codes s.

(** ** Lemmas *)

Lemma str_true_spec s : str_true s = true ↔ s ≠ [].
Proof. destruct s; naive_solver. Qed.

Lemma str_true_false s : str_true s = false ↔ s = [].
Proof. destruct s; naive_solver. Qed.

Lemma str_or_nonempty s d : d ≠ [] → str_or s d ≠ [].
Proof. intros Hd. unfold str_or. destruct (str_true s) eqn:E; [by apply str_true_spec|done]. Qed.

Lemma str_or_id s d : s ≠ [] → str_or s d = s.
Proof. intros Hs. unfold str_or. by rewrite (proj2 (str_true_spec s)). Qed.

Lemma trim_start_id s : (∀ c s', s = c :: s' → is_ws c = false) → trim_start s = s.
Proof. destruct s as [|c s]; simpl; intros H; [done|]. by rewrite (H c s). Qed.

Lemma trim_start_head s c s' : trim_start s = c :: s' → is_ws c = false.
Proof. induction s as [|a s IH]; simpl; [done|]. case_all; naive_solver. Qed.

Lemma trim_start_idemp s : trim_start (trim_start s) = trim_start s.
Proof. apply trim_start_id. intros c s' H. by eapply trim_start_head. Qed.

Lemma trim_start_suffix s : ∃ w, s = w ++ trim_start s ∧ Forall (fun c => is_ws c = true) w.
Proof.
  induction s as [|a s (w & IH & Hw)]; [by exists []|]. simpl.
  destruct (is_ws a) eqn:E; [|by exists []].
  exists (a :: w). simpl. rewrite <- IH. auto.
Qed.

Lemma trim_id s : Forall (fun c => is_ws c = false) s → trim s = s.
Proof.
  intros H. unfold trim, trim_end. rewrite (trim_start_id s).
  - rewrite trim_start_id; [apply reverse_involutive|].
    intros c s' E. apply (f_equal reverse) in E. rewrite reverse_involutive in E.
    rewrite E, reverse_cons, Forall_app, Forall_singleton in H. tauto.
  - intros c s' ->. by inversion H.
Qed.

Lemma trim_end_prefix s : ∃ w, s = trim_end s ++ w ∧ Forall (fun c => is_ws c = true) w.
Proof.
  destruct (trim_start_suffix (reverse s)) as (w & E & Hw).
  exists (reverse w). split.
  - unfold trim_end. rewrite <- reverse_app, <- E. by rewrite reverse_involutive.
  - by rewrite Forall_reverse.
Qed.

Lemma trim_end_start s : trim_start (trim_end (trim_start s)) = trim_end (trim_start s).
Proof.
  destruct (trim_end_prefix (trim_start s)) as (w & E & _).
  apply trim_start_id. intros c s' Ht. rewrite Ht in E. simpl in E.
  by eapply trim_start_head.
Qed.

(** Trimming twice is trimming once. *)
Lemma trim_idemp s : trim (trim s) = trim s.
Proof.
  unfold trim at 1. rewrite <- (trim_end_start s) at 2. unfold trim.
  rewrite !trim_end_start. unfold trim_end. by rewrite reverse_involutive, trim_start_idemp.
Qed.

Lemma trim_nil : trim [] = [].
Proof. done. Qed.

Lemma trim_elem c s : c ∈ trim s → c ∈ s.
Proof.
  unfold trim. destruct (trim_start_suffix s) as (w & E & _).
  destruct (trim_end_prefix (trim_start s)) as (w' & E' & _).
  intros Hc. rewrite E, E'. set_solver.
Qed.

Lemma trim_length s : length (trim s) ≤ length s.
Proof.
  unfold trim. destruct (trim_end_prefix (trim_start s)) as (w & E & _).
  destruct (trim_start_suffix s) as (w' & E' & _).
  apply (f_equal length) in E, E'. rewrite length_app in E, E'. lia.
Qed.

Lemma trim_nil_ws s : trim s = [] ↔ Forall (fun c => is_ws c = true) s.
Proof.
  split.
  - unfold trim. destruct (trim_start_suffix s) as (w & E & Hw).
    destruct (trim_end_prefix (trim_start s)) as (w' & E' & Hw').
    intros H. rewrite H in E'. rewrite E, E'. simpl. by apply Forall_app.
  - intros H. unfold trim. assert (trim_start s = []) as ->; [|done].
    induction H as [|c s Hc _ IH]; simpl; [done|]. by rewrite Hc.
Qed.

Lemma remove_ws_id s : Forall (fun c => is_ws c = false) s → remove_ws s = s.
Proof. unfold remove_ws. induction 1; [done|]. by rewrite filter_cons_True; f_equal. Qed.

Lemma replace_char_id a b s : a ∉ s → replace_char a b s = s.
Proof.
  unfold replace_char. induction s as [|c s IH]; [done|].
  rewrite not_elem_of_cons, fmap_cons. intros [Hne Hn].
  by rewrite decide_False, IH.
Qed.

Lemma split_on_nonempty sep s : split_on sep s ≠ [].
Proof. destruct s; simpl; [done|]. case_decide; [done|]. by destruct (split_on sep s). Qed.

Lemma split_on_word sep w : sep ∉ w → split_on sep w = [w].
Proof.
  induction w as [|c w IH]; simpl; [done|].
  rewrite not_elem_of_cons. intros [??]. by rewrite decide_False, IH.
Qed.

Lemma split_on_app sep w s : sep ∉ w → split_on sep (w ++ sep :: s) = w :: split_on sep s.
Proof.
  induction w as [|c w IH]; simpl; [by rewrite decide_True|].
  rewrite not_elem_of_cons. intros [??]. by rewrite decide_False, IH.
Qed.

(** Splitting what was joined gives the words back. *)
Lemma split_on_join sep l :
  l ≠ [] → Forall (fun w => sep ∉ w) l → split_on sep (str_join [sep] l) = l.
Proof.
  intros Hne H. induction H as [|w l Hw Hl IH]; [done|].
  destruct l as [|w' l]; [by apply split_on_word|].
  change (str_join [sep] (w :: w' :: l)) with (w ++ sep :: str_join [sep] (w' :: l)).
  rewrite split_on_app, IH; done.
Qed.

Lemma split_on_no_sep sep s w : w ∈ split_on sep s → sep ∉ w.
Proof.
  revert w. induction s as [|c s IH]; simpl; intros w.
  - intros ->%list_elem_of_singleton. apply not_elem_of_nil.
  - case_decide; subst.
    + intros [->|Hw]%elem_of_cons; [apply not_elem_of_nil|auto].
    + destruct (split_on sep s) as [|v vs] eqn:E.
      * by apply split_on_nonempty in E.
      * intros [->|Hw]%elem_of_cons; [|apply IH; by constructor].
        rewrite not_elem_of_cons. split; [done|]. apply IH. constructor.
Qed.

Lemma starts_with_spec p s : starts_with p s = true ↔ ∃ r, s = p ++ r.
Proof.
  revert s. induction p as [|a p IH]; intros s; simpl; [naive_solver|].
  destruct s as [|b s]; [naive_solver|].
  rewrite andb_true_iff, bool_decide_eq_true, IH. naive_solver.
Qed.

Lemma starts_with_app p s : starts_with p (p ++ s) = true.
Proof. apply starts_with_spec. eauto. Qed.

Lemma index_of_Some p s i :
  index_of p s = Some i → ∃ l r, s = l ++ p ++ r ∧ length l = i.
Proof.
  revert i. induction s as [|c s IH]; intros i; simpl.
  - destruct (starts_with p []) eqn:E; intros; simplify_eq.
    apply starts_with_spec in E as [r E]. exists [], r. done.
  - destruct (starts_with p (c :: s)) eqn:E; intros H; simplify_eq.
    + apply starts_with_spec in E as [r E]. by exists [], r.
    + apply fmap_Some in H as (j & Hj & ->).
      destruct (IH j Hj) as (l & r & -> & <-). by exists (c :: l), r.
Qed.

Lemma index_of_None p s : index_of p s = None → ∀ l r, s ≠ l ++ p ++ r.
Proof.
  induction s as [|c s IH]; simpl.
  - destruct (starts_with p []) eqn:E; [done|]. intros _ l r H.
    symmetry in H. apply app_nil in H as [-> H]. symmetry in H.
    enough (starts_with p [] = true) by congruence. apply starts_with_spec. eauto.
  - destruct (starts_with p (c :: s)) eqn:E; [done|].
    intros H%fmap_None l r Hs. destruct l as [|a l]; simplify_eq/=.
    + rewrite Hs, starts_with_app in E. done.
    + by apply (IH H l r).
Qed.

Lemma includes_spec p s : includes p s = true ↔ ∃ l r, s = l ++ p ++ r.
Proof.
  unfold includes. destruct (index_of p s) eqn:E.
  - apply index_of_Some in E as (l & r & ? & _). naive_solver.
  - split; [done|]. intros (l & r & H). by apply index_of_None with (l := l) (r := r) in E.
Qed.

Lemma includes_false p s : includes p s = false ↔ ∀ l r, s ≠ l ++ p ++ r.
Proof.
  destruct (includes p s) eqn:E; [apply includes_spec in E as (l & r & ->); naive_solver|].
  split; [|done]. intros _ l r ->. enough (includes p (l ++ p ++ r) = true) by congruence.
  apply includes_spec. eauto.
Qed.

Lemma includes_cons_false c s p : includes p (c :: s) = false → includes p s = false.
Proof. rewrite !includes_false. intros H l r ->. by apply (H (c :: l) r). Qed.

(** The first occurrence leaves none before it. *)
Lemma index_of_first p s i :
  p ≠ [] → index_of p s = Some i →
  ∃ l r, s = l ++ p ++ r ∧ length l = i ∧ includes p l = false.
Proof.
  intros Hp. revert i. induction s as [|c s IH]; intros i; simpl.
  - destruct (starts_with p []) eqn:E; intros; simplify_eq.
    apply starts_with_spec in E as [r E]. by destruct p.
  - destruct (starts_with p (c :: s)) eqn:E; intros H; simplify_eq.
    + apply starts_with_spec in E as [r E]. exists [], r. split_and!; [done..|].
      apply includes_false. intros [|??] ? H; by destruct p.
    + apply fmap_Some in H as (j & Hj & ->).
      destruct (IH j Hj) as (l & r & -> & <- & Hl). exists (c :: l), r. split_and!; [done..|].
      apply includes_false. intros [|a l'] r' H; simplify_eq/=.
      * enough (starts_with p (c :: l ++ p ++ r) = true) by congruence.
        apply starts_with_spec. exists (r' ++ p ++ r).
        change (c :: l ++ p ++ r) with ((c :: l) ++ p ++ r). rewrite H. by rewrite <- (assoc_L app).
      * by apply (proj1 (includes_false p (l' ++ p ++ r')) Hl l' r').
Qed.

(** A pattern whose first unit does not recur in it cannot straddle the end of
    a text it does not occur in. *)
Lemma index_of_app c p v r :
  c ∉ p → includes (c :: p) v = false → index_of (c :: p) (v ++ (c :: p) ++ r) = Some (length v).
Proof.
  intros Hc. induction v as [|x v IH]; intros Hv.
  - pose proof (starts_with_app (c :: p) r) as E. simpl in *. by rewrite E.
  - assert (starts_with (c :: p) ((x :: v) ++ (c :: p) ++ r) = false) as E.
    { apply not_true_iff_false. intros [r' H]%starts_with_spec. simpl in H.
      injection H as -> H. apply app_eq_inv in H as [(k & -> & H)|(k & -> & H)].
      - by apply (proj1 (includes_false _ _) Hv [] k).
      - destruct k as [|y k]; simplify_eq/=.
        + apply (proj1 (includes_false _ _) Hv [] []). by rewrite !(right_id_L [] (++)).
        + apply Hc. set_solver. }
    change ((x :: v) ++ (c :: p) ++ r) with (x :: (v ++ (c :: p) ++ r)) in *.
    cbn [index_of]. rewrite E, IH; [done|]. by apply includes_cons_false in Hv.
Qed.

Lemma index_from_ge p s from i : index_from p s from = Some i → from ≤ i.
Proof. unfold index_from. intros (j & _ & ->)%fmap_Some. lia. Qed.

Lemma index_from_bound p s from i :
  index_from p s from = Some i → from ≤ length s → i + length p ≤ length s.
Proof.
  unfold index_from. intros (j & Hj & ->)%fmap_Some Hf.
  apply index_of_Some in Hj as (l & r & E & <-).
  apply (f_equal length) in E. rewrite length_drop, !length_app in E. lia.
Qed.

Lemma uint_of_codes_of_uint d : uint_of_codes (codes_of_uint d) = Some d.
Proof. induction d; simpl; try done; by rewrite IHd. Qed.

Lemma parse_str_of_N n : parse_digits (str_of_N n) = Some n.
Proof.
  unfold parse_digits, str_of_N. rewrite uint_of_codes_of_uint. simpl.
  by rewrite DecimalN.Unsigned.of_to.
Qed.

Lemma codes_of_uint_digits d : Forall (fun c => is_digit c = true) (codes_of_uint d).
Proof. induction d; simpl; auto. Qed.

Lemma str_of_N_digits n : Forall (fun c => is_digit c = true) (str_of_N n).
Proof. apply codes_of_uint_digits. Qed.

Lemma str_of_N_nonempty n : str_of_N n ≠ [].
Proof.
  unfold str_of_N. destruct n as [|p]; [done|]. simpl. unfold Pos.to_uint.
  pose proof (DecimalPos.Unsigned.to_uint_nonnil p) as H. unfold Pos.to_uint in H.
  by destruct (Decimal.rev _).
Qed.

Lemma digit_not_ws c : is_digit c = true → is_ws c = false.
Proof.
  unfold is_digit, is_ws. intros [H1%N.leb_le H2%N.leb_le]%andb_true_iff.
  repeat match goal with
  | |- context [(?a <=? ?b)%N] => destruct (N.leb_spec a b); try lia
  | |- context [(?a =? ?b)%N] => destruct (N.eqb_spec a b); try lia
  end; done.
Qed.

Lemma digits_no_ws s :
  Forall (fun c => is_digit c = true) s → Forall (fun c => is_ws c = false) s.
Proof. intros H. eapply Forall_impl; [exact H|]. apply digit_not_ws. Qed.

Lemma digits_no_char c s :
  Forall (fun c => is_digit c = true) s → is_digit c = false → c ∉ s.
Proof. rewrite Forall_forall. intros H Hc Hin. rewrite (H c Hin) in Hc. done. Qed.

#[export] Hint Resolve str_of_N_digits str_of_N_nonempty digits_no_ws digit_not_ws : jsdb.
