(* ===== verification/JsValue.v ===== *)
(** * Values of the language

    The [unknown] values the program receives (parsed JSON, structured clones,
    caught errors), their truthiness, [typeof] tests and property reads.  A
    number is a rational, an infinity or NaN; comparisons and integrality tests
    on it are exact. *)

From S2P Require Import Prelude JsString.
From Stdlib Require Import QArith.
Local Close Scope Q_scope.

Inductive num :=
| NaN
| Inf (neg : bool)
| Fin (q : Q).

Definition num_of_Z (z : Z) : num := Fin (inject_Z z).
Arguments num_of_Z : simpl never.

(** [x < y] and [x <= y]; false when one side is NaN. *)
Definition num_ltb (x y : num) : bool :=
  match x, y with
  | NaN, _ | _, NaN => false
  | Inf neg, Inf neg' => neg && negb neg'
  | Inf neg, Fin _ => neg
  | Fin _, Inf neg => negb neg
  | Fin p, Fin q => (Qnum p * Zpos (Qden q) <? Qnum q * Zpos (Qden p))%Z
  end.

Definition num_eqb (x y : num) : bool :=
  match x, y with
  | NaN, _ | _, NaN => false
  | Inf neg, Inf neg' => Bool.eqb neg neg'
  | Fin p, Fin q => (Qnum p * Zpos (Qden q) =? Qnum q * Zpos (Qden p))%Z
  | _, _ => false
  end.

Definition num_leb (x y : num) : bool := num_ltb x y || num_eqb x y.

Definition num_isFinite (x : num) : bool := match x with Fin _ => true | _ => false end.

(** [Number.isInteger] *)
Definition num_isInteger (x : num) : bool :=
  match x with Fin q => (Qnum q mod Zpos (Qden q) =? 0)%Z | _ => false end.

(** Truthiness of a number: false for zero and NaN. *)
Definition num_true (x : num) : bool :=
  match x with NaN => false | Inf _ => true | Fin q => negb (Qnum q =? 0)%Z end.

Inductive jsval :=
| JUndef
| JNull
| JBool (b : bool)
| JNum (n : num)
| JStr (s : jsstr)
| JArr (l : list jsval)
| JObj (fields : list (jsstr * jsval)).

(** [Boolean(v)] *)
Definition truthy (v : jsval) : bool :=
  match v with
  | JUndef | JNull => false
  | JBool b => b
  | JNum n => num_true n
  | JStr s => str_true s
  | JArr _ | JObj _ => true
  end.

Definition is_string (v : jsval) : bool := match v with JStr _ => true | _ => false end.
Definition is_number (v : jsval) : bool := match v with JNum _ => true | _ => false end.
Definition is_boolean (v : jsval) : bool := match v with JBool _ => true | _ => false end.
(** [typeof v === 'object'], which holds of null. *)
Definition is_object (v : jsval) : bool :=
  match v with JNull | JArr _ | JObj _ => true | _ => false end.
Definition is_array (v : jsval) : bool := match v with JArr _ => true | _ => false end.

(** [v === s] for a string [s] *)
Definition is_str (s : jsstr) (v : jsval) : bool :=
  match v with JStr t => bool_decide (t = s) | _ => false end.

(** [v === true] *)
Definition is_true (v : jsval) : bool := match v with JBool b => b | _ => false end.

(** Reading property [k] of [v]; only objects have properties besides the length
    and the indices of arrays and strings, which the program reads otherwise. *)
Definition prop (k : string) (v : jsval) : jsval :=
  match v with
  | JObj fs => default JUndef (mget (js k) fs)
  | _ => JUndef
  end.

(** The values of fields whose type was tested. *)
Definition str_field (k : string) (v : jsval) : jsstr :=
  match prop k v with JStr s => s | _ => [] end.
Definition num_field (k : string) (v : jsval) : num :=
  match prop k v with JNum n => n | _ => NaN end.
Definition bool_field (k : string) (v : jsval) : bool :=
  match prop k v with JBool b => b | _ => false end.

(** ** Own properties in the order of [Object.keys]

    An object is the list of its own properties in the order they were added.
    Keys that are array indices are enumerated first in numeric order, the others
    in the order they were added. *)
Definition array_index (k : jsstr) : option N :=
  match parse_digits k with
  | Some n => if bool_decide (str_of_N n = k) && (n <? 4294967295)%N then Some n else None
  | None => None
  end.

Section Own.
Context {V : Type}.

Definition index_cmp (a b : jsstr * V) : Z :=
  (Z.of_N (default 0%N (array_index a.1)) - Z.of_N (default 0%N (array_index b.1)))%Z.

Definition own_fields (fs : list (jsstr * V)) : list (jsstr * V) :=
  sort_by index_cmp (filter (fun f => is_Some (array_index f.1)) fs)
  ++ filter (fun f => ¬ is_Some (array_index f.1)) fs.

Definition Object_keys (fs : list (jsstr * V)) : list jsstr := fst <$> own_fields fs.
Definition Object_values (fs : list (jsstr * V)) : list V := snd <$> own_fields fs.

Lemma own_fields_perm fs : Permutation (own_fields fs) fs.
Proof.
  unfold own_fields. rewrite sort_by_perm.
  induction fs as [|f fs IH]; [done|]. rewrite !filter_cons.
  destruct (decide (is_Some (array_index f.1))) as [H|H].
  - rewrite decide_False by (by intros ?). cbn [app]. by rewrite IH.
  - rewrite decide_True by done. by rewrite <- Permutation_middle, IH.
Qed.

Lemma elem_of_own_fields f fs : f ∈ own_fields fs ↔ f ∈ fs.
Proof. by rewrite own_fields_perm. Qed.

Lemma elem_of_Object_keys k fs : k ∈ Object_keys fs ↔ k ∈ mkeys fs.
Proof. unfold Object_keys, mkeys. by rewrite own_fields_perm. Qed.
End Own.

Lemma num_ltb_Z a b : num_ltb (num_of_Z a) (num_of_Z b) = (a <? b)%Z.
Proof. unfold num_of_Z. simpl. f_equal; lia. Qed.

Lemma num_ltb_irrefl x : num_ltb x x = false.
Proof. destruct x as [|[]|q]; simpl; try done. apply Z.ltb_irrefl. Qed.

Lemma num_ltb_trans x y z : num_ltb x y = true → num_ltb y z = true → num_ltb x z = true.
Proof.
  destruct x as [|[]|p], y as [|[]|q], z as [|[]|r]; simpl; try done.
  rewrite !Z.ltb_lt. intros. nia.
Qed.

(** [x <= y] is the negation of [y < x] away from NaN. *)
Lemma num_leb_ltb x y : x ≠ NaN → y ≠ NaN → num_leb x y = negb (num_ltb y x).
Proof.
  destruct x as [|[]|p], y as [|[]|q]; intros; simpl; try done.
  unfold num_leb. simpl.
  destruct (Z.ltb_spec (Qnum p * Zpos (Qden q)) (Qnum q * Zpos (Qden p))),
    (Z.eqb_spec (Qnum p * Zpos (Qden q)) (Qnum q * Zpos (Qden p))),
    (Z.ltb_spec (Qnum q * Zpos (Qden p)) (Qnum p * Zpos (Qden q))); simpl; try done; lia.
Qed.
