(* ===== verification/JsJson.v ===== *)
(** * [JSON.parse]

    The grammar of JSON on code-unit strings.  A value consumes at least one
    unit, so recursion with the length of the text as fuel never runs dry; a
    numeral denotes its exact rational value.  A repeated key keeps its first
    position and its last value. *)

From Stdlib Require Import QArith Qpower.
From S2P Require Import Prelude JsString JsValue.
Local Close Scope Q_scope.

(** ** Lexical parts *)

Definition is_json_ws (c : N) : bool :=
  ((c =? 32) || (c =? 9) || (c =? 10) || (c =? 13))%N.

Fixpoint skip_ws (s : jsstr) : jsstr :=
  match s with
  | c :: s' => if is_json_ws c then skip_ws s' else s
  | [] => []
  end.

Definition hex_digit (c : N) : option N :=
  if is_digit c then Some (c - 48)%N
  else if ((97 <=? c) && (c <=? 102))%N then Some (c - 87)%N
  else if ((65 <=? c) && (c <=? 70))%N then Some (c - 55)%N
  else None.

Definition hex4 (a b c d : N) : option N :=
  a' ← hex_digit a; b' ← hex_digit b; c' ← hex_digit c; d' ← hex_digit d;
  Some (((a' * 16 + b') * 16 + c') * 16 + d')%N.

(** The unit a one-letter escape stands for. *)
Definition simple_escape (c : N) : option N :=
  match c with
  | 34%N => Some 34%N (* quotation mark *)
  | 92%N => Some 92%N (* reverse solidus *)
  | 47%N => Some 47%N (* solidus *)
  | 98%N => Some 8%N
  | 102%N => Some 12%N
  | 110%N => Some 10%N
  | 114%N => Some 13%N
  | 116%N => Some 9%N
  | _ => None
  end.

(** The rest of a string literal after its opening quotation mark. *)
Fixpoint parse_string (s : jsstr) : option (jsstr * jsstr) :=
  match s with
  | [] => None
  | c :: s1 =>
      if (c =? 34)%N then Some ([], s1)
      else if (c =? 92)%N then
        match s1 with
        | [] => None
        | e :: s2 =>
            if (e =? 117)%N then
              match s2 with
              | h1 :: h2 :: h3 :: h4 :: s3 =>
                  u ← hex4 h1 h2 h3 h4; '(t, r) ← parse_string s3; Some (u :: t, r)
              | _ => None
              end
            else u ← simple_escape e; '(t, r) ← parse_string s2; Some (u :: t, r)
        end
      else if (c <? 32)%N then None
      else '(t, r) ← parse_string s1; Some (c :: t, r)
  end.

(** The longest run of digits. *)
Fixpoint take_digits (s : jsstr) : jsstr * jsstr :=
  match s with
  | c :: s' => if is_digit c then let '(d, r) := take_digits s' in (c :: d, r) else ([], s)
  | [] => ([], [])
  end.

Definition digits_value (s : jsstr) : Z :=
  foldl (fun acc c => 10 * acc + (Z.of_N c - 48))%Z 0%Z s.

(** [10 ^ e] for an integer exponent *)
Definition pow10 (e : Z) : Q := Qpower 10 e.

(** An unsigned exponent part, if there is one. *)
Definition parse_exponent (s : jsstr) : option (Z * jsstr) :=
  match s with
  | c :: s1 =>
      if ((c =? 101) || (c =? 69))%N then
        let '(neg, s2) :=
          match s1 with
          | 45%N :: r => (true, r)
          | 43%N :: r => (false, r)
          | _ => (false, s1)
          end in
        let '(d, r) := take_digits s2 in
        match d with
        | [] => None
        | _ => Some (if neg then (- digits_value d)%Z else digits_value d, r)
        end
      else Some (0%Z, s)
  | [] => Some (0%Z, s)
  end.

(** A numeral without its sign. *)
Definition parse_unsigned (s : jsstr) : option (Q * jsstr) :=
  let '(int, s1) := take_digits s in
  match int with
  | [] => None
  | 48%N :: _ :: _ => None
  | _ =>
      let '(frac, s2, fracOk) :=
        match s1 with
        | 46%N :: r => let '(f, r') := take_digits r in (f, r', str_true f)
        | _ => ([], s1, true)
        end in
      if fracOk : bool then
        '(e, r) ← parse_exponent s2;
        Some (Qred (inject_Z (digits_value (int ++ frac))
                    * pow10 (e - Z.of_nat (length frac)))%Q, r)
      else None
  end.

Definition parse_number (s : jsstr) : option (num * jsstr) :=
  match s with
  | 45%N :: r => '(q, r') ← parse_unsigned r; Some (Fin (- q)%Q, r')
  | _ => '(q, r') ← parse_unsigned s; Some (Fin q, r')
  end.

(** The text after an expected literal. *)
Definition expect (lit : jsstr) (v : jsval) (s : jsstr) : option (jsval * jsstr) :=
  if starts_with lit s then Some (v, drop (length lit) s) else None.

(** ** Values *)

Fixpoint parse_value (fuel : nat) (s : jsstr) : option (jsval * jsstr) :=
  match fuel with
  | 0 => None
  | S fuel' =>
      match skip_ws s with
      | [] => None
      | c :: r =>
          if (c =? 123)%N then
            match skip_ws r with
            | 125%N :: r' => Some (JObj [], r')
            | r' => parse_members fuel' r' []
            end
          else if (c =? 91)%N then
            match skip_ws r with
            | 93%N :: r' => Some (JArr [], r')
            | r' => parse_elements fuel' r' []
            end
          else if (c =? 34)%N then '(t, r') ← parse_string r; Some (JStr t, r')
          else if (c =? 116)%N then expect (js "true") (JBool true) (c :: r)
          else if (c =? 102)%N then expect (js "false") (JBool false) (c :: r)
          else if (c =? 110)%N then expect (js "null") JNull (c :: r)
          else '(n, r') ← parse_number (c :: r); Some (JNum n, r')
      end
  end
with parse_elements (fuel : nat) (s : jsstr) (acc : list jsval) : option (jsval * jsstr) :=
  match fuel with
  | 0 => None
  | S fuel' =>
      '(v, r) ← parse_value fuel' s;
      match skip_ws r with
      | 44%N :: r' => parse_elements fuel' r' (acc ++ [v])
      | 93%N :: r' => Some (JArr (acc ++ [v]), r')
      | _ => None
      end
  end
with parse_members (fuel : nat) (s : jsstr) (acc : list (jsstr * jsval)) :
    option (jsval * jsstr) :=
  match fuel with
  | 0 => None
  | S fuel' =>
      match skip_ws s with
      | 34%N :: r =>
          '(k, r1) ← parse_string r;
          match skip_ws r1 with
          | 58%N :: r2 =>
              '(v, r3) ← parse_value fuel' r2;
              match skip_ws r3 with
              | 44%N :: r4 => parse_members fuel' r4 (mset k v acc)
              | 125%N :: r4 => Some (JObj (mset k v acc), r4)
              | _ => None
              end
          | _ => None
          end
      | _ => None
      end
  end.

(** [JSON.parse(s)]; [None] when it throws. *)
Definition JSON_parse (s : jsstr) : option jsval :=
  match parse_value (S (2 * length s)) s with
  | Some (v, r) => match skip_ws r with [] => Some v | _ => None end
  | None => None
  end.

(** ** [JSON.stringify] of a string *)

Definition hex_char (d : N) : N := if (d <? 10)%N then (48 + d)%N else (87 + d)%N.

Definition unicode_escape (c : N) : jsstr :=
  [92; 117; hex_char (c / 4096); hex_char (c / 256 mod 16); hex_char (c / 16 mod 16); hex_char (c mod 16)]%N.

Definition is_high_surrogate (c : N) : bool := ((0xD800 <=? c) && (c <=? 0xDBFF))%N.
Definition is_low_surrogate (c : N) : bool := ((0xDC00 <=? c) && (c <=? 0xDFFF))%N.

(** The text of one unit that is no half of a surrogate pair *)
Definition escape_unit (c : N) : jsstr :=
  match c with
  | 8%N => [92; 98]%N
  | 9%N => [92; 116]%N
  | 10%N => [92; 110]%N
  | 12%N => [92; 102]%N
  | 13%N => [92; 114]%N
  | 34%N => [92; 34]%N
  | 92%N => [92; 92]%N
  | _ =>
      if (c <? 32)%N || is_high_surrogate c || is_low_surrogate c then unicode_escape c else [c]
  end.

Fixpoint json_escape (s : jsstr) : jsstr :=
  match s with
  | [] => []
  | c :: s1 =>
      match s1 with
      | d :: s2 =>
          if is_high_surrogate c && is_low_surrogate d then c :: d :: json_escape s2
          else escape_unit c ++ json_escape s1
      | [] => escape_unit c
      end
  end.

Definition JSON_stringify_str (s : jsstr) : jsstr := 34%N :: json_escape s ++ [34%N].

(** Code units *)
Definition units (s : jsstr) : Prop := Forall (fun c => c < 65536)%N s.

Lemma hex_digit_char d : (d < 16)%N → hex_digit (hex_char d) = Some d.
Proof.
  intros H. assert (d ∈ (N.of_nat <$> seq 0 16)) as Hin.
  { apply list_elem_of_fmap. exists (N.to_nat d). split; [lia|]. apply elem_of_seq. lia. }
  assert (Forall (fun d => hex_digit (hex_char d) = Some d) (N.of_nat <$> seq 0 16)) as Hall by (by repeat constructor).
  rewrite Forall_forall in Hall. by apply Hall.
Qed.

Lemma hex4_escape c r : (c < 65536)%N →
  parse_string (unicode_escape c ++ r) = '(t, r') ← parse_string r; Some (c :: t, r').
Proof.
  intros Hc. unfold unicode_escape. cbn [app parse_string]. change (92 =? 34)%N with false.
  change (92 =? 92)%N with true. change (117 =? 117)%N with true. cbn iota. unfold hex4.
  rewrite !hex_digit_char by (first [apply N.mod_lt; lia|apply N.Div0.div_lt_upper_bound; lia]).
  cbn [mbind option_bind].
  assert (((c / 4096 * 16 + c / 256 mod 16) * 16 + c / 16 mod 16) * 16 + c mod 16 = c)%N as ->; [|done].
  change 4096%N with (16 * 16 * 16)%N. change 256%N with (16 * 16)%N.
  rewrite <- !N.Div0.div_div.
  pose proof (N.div_mod c 16). pose proof (N.div_mod (c / 16) 16). pose proof (N.div_mod (c / 16 / 16) 16). lia.
Qed.

Lemma parse_escape_unit c r : (c < 65536)%N →
  parse_string (escape_unit c ++ r) = '(t, r') ← parse_string r; Some (c :: t, r').
Proof.
  intros Hc. unfold escape_unit.
  destruct (decide (c ∈ [8; 9; 10; 12; 13; 34; 92]%N)) as [Hin|Hn].
  { repeat (apply elem_of_cons in Hin as [->|Hin]; [done|]). by apply not_elem_of_nil in Hin. }
  rewrite !not_elem_of_cons in Hn. destruct Hn as (N8 & N9 & N10 & N12 & N13 & N34 & N92 & _).
  assert (escape_unit c = if (c <? 32)%N || is_high_surrogate c || is_low_surrogate c then unicode_escape c else [c]) as E.
  { unfold escape_unit. repeat case_match; congruence. }
  unfold escape_unit in E. rewrite E. destruct (_ || _) eqn:Es; [by apply hex4_escape|].
  cbn [app parse_string]. apply orb_false_iff in Es as [Es _]. apply orb_false_iff in Es as [Es _].
  by rewrite (proj2 (N.eqb_neq c 34)), (proj2 (N.eqb_neq c 92)), Es by done.
Qed.

Lemma parse_surrogate c r : (0xD800 <= c)%N →
  parse_string (c :: r) = '(t, r') ← parse_string r; Some (c :: t, r').
Proof.
  intros Hc. cbn [parse_string].
  by rewrite (proj2 (N.eqb_neq c 34)), (proj2 (N.eqb_neq c 92)), (proj2 (N.ltb_ge c 32)) by lia.
Qed.

(** A printed string reads back as itself. *)
Lemma parse_json_escape s r : units s → parse_string (json_escape s ++ 34%N :: r) = Some (s, r).
Proof.
  remember (length s) as n eqn:Hn. revert s Hn. induction n as [n IH] using lt_wf_ind. intros s -> Hu.
  destruct s as [|c s1]; [done|]. apply Forall_cons in Hu as [Hc Hu]. destruct s1 as [|d s2].
  - cbn [json_escape]. by rewrite parse_escape_unit.
  - assert (parse_string (json_escape (d :: s2) ++ 34%N :: r) = Some (d :: s2, r)) as E
      by (apply (IH (length (d :: s2))); [simpl; lia|done|done]).
    cbn [json_escape] in *. destruct (is_high_surrogate c && is_low_surrogate d) eqn:Es.
    + apply andb_true_iff in Es as [H1 H2]. unfold is_high_surrogate, is_low_surrogate in *.
      apply andb_true_iff in H1 as [H1 _], H2 as [H2 _]. rewrite N.leb_le in H1, H2.
      apply Forall_cons in Hu as [_ Hu].
      rewrite <- !app_comm_cons, parse_surrogate by lia. rewrite parse_surrogate by lia.
      rewrite (IH (length s2)); [done|simpl; lia|done|done].
    + by rewrite <- app_assoc, parse_escape_unit, E.
Qed.

Lemma JSON_parse_stringify s : units s → JSON_parse (JSON_stringify_str s) = Some (JStr s).
Proof.
  intros Hu. unfold JSON_parse, JSON_stringify_str.
  cbn [parse_value skip_ws is_json_ws]. change (is_json_ws 34) with false. cbn iota.
  change (34 =? 123)%N with false. change (34 =? 91)%N with false. change (34 =? 34)%N with true. cbn iota.
  by rewrite (parse_json_escape s [] Hu).
Qed.

Definition quote : jsstr := [34%N].

Example JSON_parse_sample :
  JSON_parse (js "{" ++ quote ++ js "a" ++ quote ++ js ": [1, -2.50e1, true], "
              ++ quote ++ js "b" ++ quote ++ js ":null}") =
  Some (JObj [(js "a", JArr [JNum (num_of_Z 1); JNum (num_of_Z (-25)); JBool true]);
              (js "b", JNull)]).
Proof. by vm_compute. Qed.

Example JSON_parse_refuses :
  JSON_parse (js "01") = None ∧ JSON_parse (js "[1,]") = None ∧ JSON_parse (js "") = None ∧
  JSON_parse (js "tru") = None ∧ JSON_parse (js "1 2") = None.
Proof. by vm_compute. Qed.
