(* ===== verification/JsNumber.v ===== *)
(** * Numbers as text

    [String(x)] and [Number(s)].  A number of the model is a rational; a double
    is represented by the shortest decimal that denotes it, which is the value
    its literal shows, so printing follows the algorithm of the language on that
    decimal: the digits [s], their number [k], and the position [n] of the point. *)

From Stdlib Require Import QArith Qpower Qabs ZifyBool ZifyN.
From S2P Require Import Prelude JsString JsValue JsJson.
Local Close Scope Q_scope.

(** ** The decimal of a rational *)

(** The number of decimal places of a fraction with denominator [d], at most [fuel] *)
Fixpoint decimal_places (fuel : nat) (d : Z) : nat :=
  match fuel with
  | 0 => 0
  | S fuel' => if (d =? 1)%Z then 0 else S (decimal_places fuel' (d / Z.gcd d 10))
  end.

(** Trailing zeros: [(s, z)] with [v = s * 10 ^ z] *)
Fixpoint strip_zeros (fuel : nat) (v : Z) : Z * nat :=
  match fuel with
  | 0 => (v, 0)
  | S fuel' =>
      if (v mod 10 =? 0)%Z then let '(s, z) := strip_zeros fuel' (v / 10) in (s, S z) else (v, 0)
  end.

Definition zeros (n : nat) : jsstr := replicate n 48%N.

(** The layout of the digits [ds] with the point after position [n] *)
Definition layout (ds : jsstr) (n : Z) : jsstr :=
  let k := Z.of_nat (length ds) in
  if ((k <=? n) && (n <=? 21))%Z then ds ++ zeros (Z.to_nat (n - k))
  else if ((0 <? n) && (n <=? 21))%Z then take (Z.to_nat n) ds ++ [46%N] ++ drop (Z.to_nat n) ds
  else if ((-6 <? n) && (n <=? 0))%Z then js "0." ++ zeros (Z.to_nat (- n)) ++ ds
  else
    let e := (n - 1)%Z in
    take 1 ds ++ (match drop 1 ds with [] => [] | r => 46%N :: r end)
      ++ [101%N] ++ (if (e <? 0)%Z then [45%N] else [43%N]) ++ str_of_N (Z.abs_N e).

(** The digits of a positive rational and the position of its point *)
Definition decimal_of (q : Q) : jsstr * Z :=
  let q := Qred q in
  let places := decimal_places (Pos.size_nat (Qden q)) (Zpos (Qden q)) in
  let v := (Qnum q * 10 ^ Z.of_nat places / Zpos (Qden q))%Z in
  let '(s, z) := strip_zeros (Z.to_nat (Z.log2 v)) v in
  let ds := str_of_N (Z.to_N s) in
  (ds, Z.of_nat (length ds) + Z.of_nat z - Z.of_nat places)%Z.

(** [String(x)] *)
Definition num_str (x : num) : jsstr :=
  match x with
  | NaN => js "NaN"
  | Inf neg => if neg then js "-Infinity" else js "Infinity"
  | Fin q =>
      if (Qnum q =? 0)%Z then js "0"
      else
        let '(ds, n) := decimal_of (Qabs q) in
        (if (Qnum q <? 0)%Z then [45%N] else []) ++ layout ds n
  end.

(** [String(v)]; in an array null and undefined are empty. *)
Fixpoint js_String (v : jsval) : jsstr :=
  match v with
  | JUndef => js "undefined"
  | JNull => js "null"
  | JBool b => if b then js "true" else js "false"
  | JNum x => num_str x
  | JStr s => s
  | JArr l =>
      str_join [44%N] ((fun w => match w with JUndef | JNull => [] | _ => js_String w end) <$> l)
  | JObj _ => js "[object Object]"
  end.

(** ** [Number(s)] *)

(** A decimal literal with an optional sign, digits on at least one side of the
    point and an optional exponent *)
Definition parse_decimal (s : jsstr) : option Q :=
  let '(int, s1) := take_digits s in
  let '(frac, s2) := match s1 with 46%N :: r => take_digits r | _ => ([], s1) end in
  match int ++ frac with
  | [] => None
  | ds =>
      match parse_exponent s2 with
      | Some (e, []) => Some (Qred (inject_Z (digits_value ds) * pow10 (e - Z.of_nat (length frac))))%Q
      | _ => None
      end
  end.

(** [Number(s)] for text in decimal notation; what only other notations
    (hexadecimal, octal, binary) would accept is not a number here. *)
Definition Number_str (s : jsstr) : num :=
  match trim s with
  | [] => num_of_Z 0
  | 45%N :: r =>
      if bool_decide (r = js "Infinity") then Inf true
      else match parse_decimal r with Some q => Fin (- q) | None => NaN end
  | 43%N :: r =>
      if bool_decide (r = js "Infinity") then Inf false
      else match parse_decimal r with Some q => Fin q | None => NaN end
  | t =>
      if bool_decide (t = js "Infinity") then Inf false
      else match parse_decimal t with Some q => Fin q | None => NaN end
  end.

Definition q10 (m e : Z) : num := Fin (Qred (inject_Z m * pow10 e)%Q).

Example num_str_samples :
  (num_str <$> [q10 25 (-1); q10 (-125) 0; q10 1 21; q10 1 (-6); q10 1 (-7); q10 12345 (-12); q10 15 20; q10 300 0; Fin 0%Q])
  = [js "2.5"; js "-125"; js "1e+21"; js "0.000001"; js "1e-7"; js "1.2345e-8"; js "1.5e+21"; js "300"; js "0"].
Proof. vm_compute. reflexivity. Qed.

Example Number_samples :
  ((fun s => num_str (Number_str (js s))) <$> ["2.50"; "-.5e1"; "1e"; ""; "1.2.3"; "1e+21"; "7."; " 12 "; "+"])%string
  = [js "2.5"; js "-5"; js "NaN"; js "0"; js "NaN"; js "1e+21"; js "7"; js "12"; js "NaN"].
Proof. vm_compute. reflexivity. Qed.

(** ** Reading back a printed number *)

Lemma digits_value_acc d acc :
  foldl (fun a c => 10 * a + (Z.of_N c - 48))%Z (Zpos acc) (codes_of_uint d) = Zpos (Pos.of_uint_acc d acc).
Proof.
  revert acc. induction d as [|d IH|d IH|d IH|d IH|d IH|d IH|d IH|d IH|d IH|d IH]; intros acc;
    cbn [codes_of_uint foldl Pos.of_uint_acc]; [done|..]; rewrite <- IH; f_equal; lia.
Qed.

Lemma digits_value_uint d : digits_value (codes_of_uint d) = Z.of_N (N.of_uint d).
Proof.
  unfold digits_value, N.of_uint. induction d as [|d IH|d IH|d IH|d IH|d IH|d IH|d IH|d IH|d IH|d IH];
    cbn [codes_of_uint foldl Pos.of_uint]; [done|exact IH|..]; exact (digits_value_acc d _).
Qed.

Lemma digits_value_str n : digits_value (str_of_N n) = Z.of_N n.
Proof. unfold str_of_N. by rewrite digits_value_uint, DecimalN.Unsigned.of_to. Qed.

Lemma digits_value_app a b : digits_value (a ++ b) = (digits_value a * 10 ^ Z.of_nat (length b) + digits_value b)%Z.
Proof.
  unfold digits_value. rewrite foldl_app. generalize (foldl (fun a c => 10 * a + (Z.of_N c - 48))%Z 0%Z a) as x. intros x.
  revert x. induction b as [|c b IH]; intros x; cbn [foldl length]; [lia|].
  rewrite (IH (10 * x + _)%Z), (IH (10 * 0 + _)%Z), Nat2Z.inj_succ, Z.pow_succ_r by lia. lia.
Qed.

Lemma digits_value_zeros n : digits_value (zeros n) = 0%Z.
Proof. induction n as [|n IH]; [done|]. change (zeros (S n)) with ([48%N] ++ zeros n). rewrite digits_value_app, IH. done. Qed.

Lemma take_digits_run ds t : Forall (fun c => is_digit c = true) ds → (∀ c t', t = c :: t' → is_digit c = false) →
  take_digits (ds ++ t) = (ds, t).
Proof.
  intros Hd Ht. induction Hd as [|c ds Hc _ IH]; simpl.
  - destruct t as [|c t]; [done|]. simpl. by rewrite (Ht c t eq_refl).
  - by rewrite Hc, IH.
Qed.

Lemma zeros_digits n : Forall (fun c => is_digit c = true) (zeros n).
Proof. apply Forall_replicate. done. Qed.

Lemma pow10_Z n : (0 <= n)%Z → (pow10 n == inject_Z (10 ^ n))%Q.
Proof. intros Hn. unfold pow10. change 10%Q with (inject_Z 10). symmetry. by apply Zpower_Qpower. Qed.

(** The text of an exponent part that is read to the end *)
Definition exponent_text (t : jsstr) (e : Z) : Prop :=
  parse_exponent t = Some (e, []) ∧ (∀ c t', t = c :: t' → is_digit c = false ∧ c ≠ 46%N).

Lemma no_exponent : exponent_text [] 0.
Proof. done. Qed.

Lemma some_exponent e : exponent_text ([101%N] ++ (if (e <? 0)%Z then [45%N] else [43%N]) ++ str_of_N (Z.abs_N e)) e.
Proof.
  split; [|by intros c t' [= <- _]]. pose proof (digits_value_str (Z.abs_N e)) as Hv.
  pose proof (str_of_N_nonempty (Z.abs_N e)) as Hne.
  pose proof (take_digits_run (str_of_N (Z.abs_N e)) [] (str_of_N_digits _) ltac:(done)) as Hr. rewrite app_nil_r in Hr.
  destruct (e <? 0)%Z eqn:E; cbn [app parse_exponent]; rewrite Hr; destruct (str_of_N _); try done; rewrite Hv;
    do 2 f_equal; lia.
Qed.

Lemma parse_decimal_int int t e : int ≠ [] → Forall (fun c => is_digit c = true) int → exponent_text t e →
  parse_decimal (int ++ t) = Some (Qred (inject_Z (digits_value int) * pow10 e))%Q.
Proof.
  intros Hne Hd [Ht Hh]. unfold parse_decimal. rewrite take_digits_run; [|done|by intros c t' ->; apply (Hh c t')].
  assert (match t with 46%N :: r => take_digits r | _ => ([], t) end = ([], t)) as ->.
  { destruct t as [|c t']; [done|]. destruct (Hh c t' eq_refl) as [_ H]. repeat (case_match; try done); by exfalso. }
  rewrite app_nil_r. destruct int as [|c int]; [done|]. rewrite Ht. cbn [length Z.of_nat]. by rewrite Z.sub_0_r.
Qed.

Lemma parse_decimal_frac int frac t e : int ≠ [] → Forall (fun c => is_digit c = true) int →
  Forall (fun c => is_digit c = true) frac → exponent_text t e →
  parse_decimal (int ++ [46%N] ++ frac ++ t)
  = Some (Qred (inject_Z (digits_value (int ++ frac)) * pow10 (e - Z.of_nat (length frac))))%Q.
Proof.
  intros Hne Hd Hf [Ht Hh]. unfold parse_decimal. rewrite take_digits_run; [|done|by intros c t' [= <- _]].
  cbn [app]. rewrite take_digits_run; [|done|by intros c t' ->; apply (Hh c t')].
  destruct int as [|c int]; [done|]. cbn [app]. by rewrite Ht.
Qed.

(** Whatever the layout, the digits and the position of the point are read back. *)
Lemma parse_layout ds n : ds ≠ [] → Forall (fun c => is_digit c = true) ds →
  parse_decimal (layout ds n) = Some (Qred (inject_Z (digits_value ds) * pow10 (n - Z.of_nat (length ds))))%Q.
Proof.
  intros Hne Hd. unfold layout. set (k := Z.of_nat (length ds)).
  assert (0 < k)%Z as Hk by (unfold k; destruct ds; [done|simpl; lia]).
  assert (∀ i, Forall (fun c => is_digit c = true) (take i ds) ∧ Forall (fun c => is_digit c = true) (drop i ds)) as Hsplit.
  { intros i. split; [by apply Forall_take|by apply Forall_drop]. }
  destruct ((k <=? n) && (n <=? 21))%Z eqn:E1; [|destruct ((0 <? n) && (n <=? 21))%Z eqn:E2;
    [|destruct ((-6 <? n) && (n <=? 0))%Z eqn:E3]].
  - rewrite <- (app_nil_r (ds ++ _)), (parse_decimal_int _ [] 0); [|by intros [? _]%app_eq_nil|by apply Forall_app; auto using zeros_digits|done].
    f_equal. apply Qred_complete. rewrite digits_value_app, digits_value_zeros, Z.add_0_r.
    unfold zeros. rewrite length_replicate, (pow10_Z (n - k)), inject_Z_mult, Z2Nat.id by lia.
    change (pow10 0) with 1%Q. ring.
  - rewrite <- (app_nil_r (drop _ _)), (parse_decimal_frac _ _ [] 0); [|..|by apply Hsplit|by apply Hsplit|done].
    + rewrite take_drop, length_drop. do 3 f_equal. unfold pow10. f_equal. lia.
    + destruct ds as [|d ds]; [done|]. destruct (Z.to_nat n) eqn:En; [lia|done].
  - change (js "0." ++ ?t) with ([48%N] ++ [46%N] ++ t). rewrite <- (app_nil_r (_ ++ ds)), (parse_decimal_frac _ _ [] 0);
      [|done|by repeat constructor|by apply Forall_app; auto using zeros_digits|done].
    rewrite !digits_value_app, digits_value_zeros, !length_app. unfold zeros at 2. rewrite length_replicate.
    change (digits_value [48%N]) with 0%Z. rewrite !Z.mul_0_l, !Z.add_0_l.
    by replace (0 - Z.of_nat (Z.to_nat (- n) + length ds))%Z with (n - k)%Z by lia.
  - pose proof (some_exponent (n - 1)) as He. set (t := [101%N] ++ _ ++ str_of_N _) in *. clearbody t.
    destruct ds as [|d [|d' ds]]; [done|..]; cbn [take drop].
    + exact (parse_decimal_int [d] t (n - 1) ltac:(done) Hd He).
    + replace (n - k)%Z with (n - 1 - Z.of_nat (length (d' :: ds)))%Z by (unfold k; cbn [length]; lia).
      exact (parse_decimal_frac [d] (d' :: ds) t (n - 1) ltac:(done) (proj1 (Hsplit 1)) (proj2 (Hsplit 1)) He).
Qed.

(** ** The decimal of a terminating fraction *)

Lemma decimal_places_spec fuel d k : (0 < d)%Z → (d < 2 ^ Z.of_nat fuel)%Z → (d | 10 ^ Z.of_nat k)%Z →
  (d | 10 ^ Z.of_nat (decimal_places fuel d))%Z.
Proof.
  revert d. induction fuel as [|fuel IH]; intros d Hd Hb Hk; [simpl in Hb; lia|]. cbn [decimal_places].
  destruct (Z.eqb_spec d 1) as [->|H1]; [apply Z.divide_1_l|].
  set (g := Z.gcd d 10). pose proof (Z.gcd_divide_l d 10) as [d' Hd']. pose proof (Z.gcd_divide_r d 10) as [e He]. fold g in Hd', He.
  pose proof (Z.gcd_nonneg d 10) as Hg0. fold g in Hg0.
  assert (g ≠ 1)%Z as Hg.
  { intros Hg. apply H1. enough (d | 1)%Z as H by (apply Z.divide_1_r_nonneg in H; lia).
    clear -Hk Hg. induction k as [|k IHk]; [done|]. apply IHk.
    rewrite Nat2Z.inj_succ, Z.pow_succ_r in Hk by lia. by apply Z.gauss in Hk. }
  clearbody g. assert (0 < d')%Z by nia. subst d. rewrite Z.div_mul by lia.
  destruct (IH d') as [q Hq]; [done| |by apply (Z.divide_trans _ (d' * g)); [exists g; lia|]|].
  { rewrite Nat2Z.inj_succ, Z.pow_succ_r in Hb by lia. nia. }
  rewrite Nat2Z.inj_succ, Z.pow_succ_r, Hq by lia. exists (e * q)%Z. rewrite He at 1. ring.
Qed.

Lemma strip_zeros_spec fuel v : let '(s, z) := strip_zeros fuel v in v = (s * 10 ^ Z.of_nat z)%Z.
Proof.
  revert v. induction fuel as [|fuel IH]; intros v; cbn [strip_zeros]; [lia|].
  destruct (Z.eqb_spec (v mod 10) 0) as [H|H]; [|lia]. specialize (IH (v / 10)%Z).
  destruct (strip_zeros fuel (v / 10)) as [s z]. rewrite Nat2Z.inj_succ, Z.pow_succ_r by lia.
  pose proof (Z.div_mod v 10). lia.
Qed.

(** A fraction with finitely many decimal places *)
Definition is_decimal (q : Q) : Prop := ∃ k, (Zpos (Qden (Qred q)) | 10 ^ Z.of_nat k)%Z.

Lemma size_nat_bound p : (Zpos p < 2 ^ Z.of_nat (Pos.size_nat p))%Z.
Proof.
  induction p as [p IH|p IH|]; cbn [Pos.size_nat]; rewrite ?Nat2Z.inj_succ, ?Z.pow_succ_r by lia; lia.
Qed.

Lemma decimal_of_spec q : (0 < q)%Q → is_decimal q →
  let '(ds, n) := decimal_of q in
  ds ≠ [] ∧ Forall (fun c => is_digit c = true) ds ∧ (inject_Z (digits_value ds) * pow10 (n - Z.of_nat (length ds)) == q)%Q.
Proof.
  intros Hq [k Hk]. unfold decimal_of. set (p := Qred q) in *. pose proof (Qred_correct q) as Hpq. fold p in Hpq.
  set (places := decimal_places _ _).
  assert (Zpos (Qden p) | 10 ^ Z.of_nat places)%Z as [m Hm].
  { apply (decimal_places_spec _ _ k); [done| |done]. apply size_nat_bound. }
  assert (Qnum p * 10 ^ Z.of_nat places / Zpos (Qden p) = Qnum p * m)%Z as ->.
  { rewrite Hm, Z.mul_assoc. by apply Z.div_mul. }
  pose proof (strip_zeros_spec (Z.to_nat (Z.log2 (Qnum p * m))) (Qnum p * m)) as Hs.
  destruct (strip_zeros _ _) as [s z].
  split_and!; [apply str_of_N_nonempty|apply str_of_N_digits|].
  assert (0 < Qnum p)%Z as Hn by (rewrite <- Hpq in Hq; unfold Qlt in Hq; simpl in Hq; lia).
  assert (0 < m)%Z as Hm0 by (pose proof (Z.pow_pos_nonneg 10 (Z.of_nat places)); nia).
  assert (0 < s)%Z as Hs0 by (pose proof (Z.pow_pos_nonneg 10 (Z.of_nat z)); nia).
  rewrite digits_value_str, Z2N.id by lia.
  replace (_ + _ - _ - _)%Z with (Z.of_nat z - Z.of_nat places)%Z by lia.
  unfold pow10. rewrite Qpower_minus by done. fold (pow10 (Z.of_nat z)) (pow10 (Z.of_nat places)).
  rewrite !pow10_Z, Hm by lia. unfold Qdiv. rewrite Qmult_assoc, <- inject_Z_mult, <- Hs, <- Hpq, !inject_Z_mult.
  destruct p as [a d]. cbn [Qnum Qden] in *. rewrite (Qmake_Qdiv a d). field.
  split; intros H; unfold Qeq in H; simpl in H; lia.
Qed.

(** The units of a numeral *)
Definition numeral_unit (c : N) : bool := (is_digit c || (c =? 46) || (c =? 101) || (c =? 43) || (c =? 45))%N.

Lemma digits_numeral ds : Forall (fun c => is_digit c = true) ds → Forall (fun c => numeral_unit c = true) ds.
Proof. intros H. eapply Forall_impl; [exact H|]. intros c Hc. unfold numeral_unit. by rewrite Hc. Qed.

Lemma layout_units ds n : Forall (fun c => is_digit c = true) ds → Forall (fun c => numeral_unit c = true) (layout ds n).
Proof.
  intros Hd. pose proof (digits_numeral _ Hd) as Hn. unfold layout. repeat case_match;
    repeat first [apply Forall_app; split | apply Forall_cons; split | apply Forall_nil];
    first [done|by apply digits_numeral, zeros_digits|by apply Forall_take|by apply Forall_drop
          |by apply digits_numeral, str_of_N_digits|idtac].
  1: refine (bool_decide_unpack _ _); by vm_compute.
  all: match goal with H : drop 1 _ = _ |- _ => pose proof (Forall_drop _ 1 _ Hn) as Hdr; rewrite H in Hdr end;
    by apply Forall_cons in Hdr as [? ?].
Qed.

Lemma layout_head ds n : ds ≠ [] → Forall (fun c => is_digit c = true) ds → ∃ c t, layout ds n = c :: t ∧ is_digit c = true.
Proof.
  intros Hne Hd. destruct ds as [|d ds]; [done|]. apply Forall_cons in Hd as [Hd _]. unfold layout.
  destruct (_ && _)%Z; [by eexists _, _|]. destruct ((0 <? n) && _)%Z eqn:E.
  - destruct (Z.to_nat n) eqn:En; [lia|]. by eexists _, _.
  - clear E. destruct (_ && _)%Z; [change (js "0." ++ ?t) with ([48%N] ++ [46%N] ++ t)|]; cbn [take app]; (eexists _, _; split; [reflexivity|done]).
Qed.

Lemma numeral_not_ws c : numeral_unit c = true → is_ws c = false.
Proof. unfold numeral_unit, is_digit, is_ws. lia. Qed.

(** [Number(String(x)) === x] for the decimals that represent numbers *)
Definition is_canonical (x : num) : Prop := match x with Fin q => Qred q = q ∧ is_decimal q | _ => False end.

Lemma positive_text q : (0 < q)%Q → is_decimal q →
  let '(ds, n) := decimal_of q in
  Forall (fun c => numeral_unit c = true) (layout ds n) ∧ (∃ c t, layout ds n = c :: t ∧ is_digit c = true)
  ∧ parse_decimal (layout ds n) = Some (Qred q).
Proof.
  intros Hq Hd. pose proof (decimal_of_spec q Hq Hd) as H. destruct (decimal_of q) as [ds n]. destruct H as (Hne & Hds & Hv).
  split_and!; [by apply layout_units|by apply layout_head|]. rewrite parse_layout by done. f_equal. by apply Qred_complete.
Qed.

Lemma Number_unsigned s c t : trim s = c :: t → is_digit c = true →
  Number_str s = match parse_decimal (c :: t) with Some q => Fin q | None => NaN end.
Proof.
  intros E Hc. unfold Number_str. rewrite E.
  assert (c = 48 ∨ c = 49 ∨ c = 50 ∨ c = 51 ∨ c = 52 ∨ c = 53 ∨ c = 54 ∨ c = 55 ∨ c = 56 ∨ c = 57)%N as H
    by (unfold is_digit in Hc; lia).
  destruct_or! H; subst c; by rewrite bool_decide_false by (by intros [= ?]).
Qed.

Lemma Number_num_str x : is_canonical x → Number_str (num_str x) = x.
Proof.
  destruct x as [| |q]; [done|done|]. intros [Hr Hd]. unfold num_str. destruct (Z.eqb_spec (Qnum q) 0) as [H0|H0].
  - assert (q = 0%Q) as ->; [|by vm_compute]. rewrite <- Hr. apply (Qred_complete q 0). unfold Qeq. simpl. lia.
  - assert (0 < Qabs q)%Q as Hpos.
    { destruct q as [a d]. unfold Qabs, Qlt. simpl in *. lia. }
    assert (Qred (Qabs q) = Qabs q ∧ is_decimal (Qabs q)) as [Hra Hda].
    { destruct q as [[|a|a] d]; [done|done|]. change (Qabs (Zneg a # d)) with (- (Zneg a # d))%Q.
      split; [by rewrite Qred_opp, Hr|]. destruct Hd as [k Hk]. exists k. by rewrite Qred_opp. }
    pose proof (positive_text _ Hpos Hda) as H. destruct (decimal_of (Qabs q)) as [ds n].
    destruct H as (Hu & (c & t & E & Hc) & Hp). rewrite Hra in Hp.
    assert (trim (layout ds n) = layout ds n) as Ht.
    { apply trim_id. eapply Forall_impl; [exact Hu|]. apply numeral_not_ws. }
    destruct (Z.ltb_spec (Qnum q) 0) as [Hneg|Hneg].
    + unfold Number_str. rewrite trim_id.
      2: { constructor; [done|]. eapply Forall_impl; [exact Hu|]. apply numeral_not_ws. }
      cbn [app]. rewrite bool_decide_false by (rewrite E; intros [= Ec _]; rewrite Ec in Hc; by vm_compute in Hc). rewrite Hp. f_equal.
      destruct q as [[|a|a] d]; done.
    + cbn [app]. rewrite (Number_unsigned _ c t) by (by rewrite ?Ht). rewrite <- E, Hp. f_equal.
      by destruct q as [[|a|a] d].
Qed.

(** A check that a number with at most [k] decimal places is one of them *)
Definition canonical_check (k : nat) (x : num) : bool :=
  match x with
  | Fin q => bool_decide (Qnum (Qred q) = Qnum q) && bool_decide (Qden (Qred q) = Qden q)
             && (10 ^ Z.of_nat k mod Zpos (Qden q) =? 0)%Z
  | _ => false
  end.

Lemma canonical_check_sound k x : canonical_check k x = true → is_canonical x.
Proof.
  destruct x as [| |q]; [done|done|]. simpl. intros H. bsplit.
  split; [destruct (Qred q), q; simpl in *; congruence|]. exists k.
  replace (Qden (Qred q)) with (Qden q) by done. apply Z.mod_divide; [done|]. done.
Qed.

(** ** Every number that is read is one of them *)

Lemma Qred_den a b : (Zpos (Qden (Qred (a # b))) | Zpos b)%Z.
Proof.
  unfold Qred. pose proof (Z.ggcd_correct_divisors a (Zpos b)) as H. pose proof (Z.ggcd_gcd a (Zpos b)) as Hg.
  destruct (Z.ggcd a (Zpos b)) as [g [aa bb]]. destruct H as [_ Hb]. simpl in *.
  pose proof (Z.gcd_nonneg a (Zpos b)). assert (0 < bb)%Z by nia. rewrite Z2Pos.id by done. exists g. lia.
Qed.

Lemma Qred_involutive q : Qred (Qred q) = Qred q.
Proof. apply Qred_complete, Qred_correct. Qed.

Lemma decimal_canonical z e : is_canonical (Fin (Qred (inject_Z z * pow10 e)%Q)).
Proof.
  split; [apply Qred_involutive|]. exists (Z.to_nat (- e)). rewrite Qred_involutive.
  destruct (Z.leb_spec 0 e) as [He|He].
  - assert (Qred (inject_Z z * pow10 e) = Qred (z * 10 ^ e # 1))%Q as ->.
    { apply Qred_complete. rewrite pow10_Z, <- inject_Z_mult by done. done. }
    etransitivity; [apply Qred_den|apply Z.divide_1_l].
  - set (k := Z.to_nat (- e)).
    assert (Qred (inject_Z z * pow10 e) = Qred (z # Z.to_pos (10 ^ Z.of_nat k)))%Q as ->.
    { apply Qred_complete. replace e with (- Z.of_nat k)%Z by lia. unfold pow10. rewrite Qpower_opp. fold (pow10 (Z.of_nat k)).
      rewrite pow10_Z, Qmake_Qdiv, Z2Pos.id by lia. reflexivity. }
    etransitivity; [apply Qred_den|]. rewrite Z2Pos.id by (apply Z.pow_pos_nonneg; lia). done.
Qed.

Lemma parse_decimal_canonical s q : parse_decimal s = Some q → is_canonical (Fin q).
Proof.
  unfold parse_decimal. destruct (take_digits s) as [int s1]. destruct (match s1 with 46%N :: r => _ | _ => _ end) as [frac s2].
  destruct (int ++ frac) as [|d ds]; [done|]. destruct (parse_exponent s2) as [[e [|? ?]]|]; [|done|done].
  intros [= <-]. apply decimal_canonical.
Qed.

Lemma canonical_opp q : is_canonical (Fin q) → is_canonical (Fin (- q)).
Proof. intros [Hr [k Hk]]. split; [by rewrite Qred_opp, Hr|]. exists k. by rewrite Qred_opp. Qed.

Lemma Number_canonical s q : Number_str s = Fin q → is_canonical (Fin q).
Proof.
  unfold Number_str. intros H.
  repeat (case_match; try done); simplify_eq; try (by eapply parse_decimal_canonical); try (by eapply canonical_opp, parse_decimal_canonical).
  unfold num_of_Z in *. simplify_eq. split; [done|]. by exists 0.
Qed.

(** ** The text of a whole number *)

Lemma to_uint_head n u : N.to_uint n = Decimal.D0 u → n = 0%N.
Proof.
  intros E. pose proof (DecimalN.Unsigned.to_of (N.to_uint n)) as H. rewrite DecimalN.Unsigned.of_to, E in H.
  unfold Decimal.unorm in H. cbn [Decimal.nzhead] in H. pose proof (DecimalFacts.nzhead_nonzero u) as Hn.
  rewrite <- (DecimalN.Unsigned.of_to n), E. destruct (Decimal.nzhead u) eqn:Eu; try discriminate; [|by destruct (Hn u0)].
  injection H as ->. done.
Qed.

Lemma digits_value_nonneg ds : Forall (fun c => is_digit c = true) ds → (0 <= digits_value ds)%Z.
Proof.
  intros H. induction ds as [|c ds IH] using rev_ind; [done|]. apply Forall_app in H as [H Hc]. rewrite Forall_singleton in Hc.
  rewrite digits_value_app. specialize (IH H). unfold is_digit in Hc. cbn. lia.
Qed.

(** A numeral has no more digits than its value needs. *)
Lemma str_of_N_length n k : (0 < n)%N → (Z.of_N n < 10 ^ Z.of_nat k)%Z → length (str_of_N n) ≤ k.
Proof.
  intros Hn Hk. pose proof (digits_value_str n) as Hv. pose proof (str_of_N_digits n) as Hd. unfold str_of_N in *.
  destruct (le_lt_dec (length (codes_of_uint (N.to_uint n))) k) as [|Hl]; [done|]. exfalso.
  destruct (codes_of_uint (N.to_uint n)) as [|c ds] eqn:E; [cbn in Hl; lia|].
  assert (c ≠ 48%N) as Hc.
  { intros ->. destruct (N.to_uint n) as [|u|u|u|u|u|u|u|u|u|u] eqn:Eu; try discriminate E. apply to_uint_head in Eu. lia. }
  apply Forall_cons in Hd as [Hcd Hd]. change (c :: ds) with ([c] ++ ds) in Hv. rewrite digits_value_app in Hv.
  pose proof (digits_value_nonneg ds Hd). cbn [length] in Hl. unfold is_digit in Hcd.
  assert (10 ^ Z.of_nat k <= 10 ^ Z.of_nat (length ds))%Z by (apply Z.pow_le_mono_r; lia).
  assert (1 <= digits_value [c])%Z by (unfold digits_value; cbn; lia). nia.
Qed.

Lemma Qred_inject n : Qred (inject_Z n) = inject_Z n.
Proof.
  unfold inject_Z, Qred. pose proof (Z.ggcd_correct_divisors n 1) as Hg. pose proof (Z.ggcd_gcd n 1) as Hgg.
  destruct (Z.ggcd n 1) as (g & a & b). cbn [fst snd] in *. rewrite Z.gcd_1_r in Hgg. subst g. destruct Hg as [E1 E2].
  assert (b = 1)%Z as -> by lia. cbn. f_equal. lia.
Qed.

(** [String(n)] of a positive whole number below 10^21 is a run of digits. *)
Lemma integer_text n : (0 < n < 10 ^ 21)%Z →
  num_str (num_of_Z n) ≠ [] ∧ Forall (fun c => is_digit c = true) (num_str (num_of_Z n)) ∧ digits_value (num_str (num_of_Z n)) = n.
Proof.
  intros Hn. unfold num_of_Z, num_str. rewrite (proj2 (Z.eqb_neq _ _)) by (cbn; lia). rewrite (proj2 (Z.ltb_ge _ _)) by (cbn; lia).
  unfold decimal_of. replace (Qabs (inject_Z n)) with (inject_Z n) by (unfold inject_Z, Qabs; f_equal; lia). rewrite Qred_inject.
  cbn [Qnum Qden inject_Z Pos.size_nat decimal_places Z.eqb Pos.eqb Z.of_nat]. rewrite Z.pow_0_r, Z.mul_1_r, Z.div_1_r.
  pose proof (strip_zeros_spec (Z.to_nat (Z.log2 n)) n) as Hs. destruct (strip_zeros _ _) as [s z]. cbn [app].
  assert (0 < 10 ^ Z.of_nat z)%Z by (apply Z.pow_pos_nonneg; lia). assert (0 < s)%Z by nia.
  assert (z <= 21) as Hz.
  { destruct (le_lt_dec z 21); [done|]. assert (10 ^ 21 <= 10 ^ Z.of_nat z)%Z by (apply Z.pow_le_mono_r; lia). nia. }
  assert (length (str_of_N (Z.to_N s)) ≤ 21 - z) as Hlen.
  { apply str_of_N_length; [lia|]. rewrite Z2N.id by lia. rewrite Nat2Z.inj_sub by done.
    apply (Z.mul_lt_mono_pos_r (10 ^ Z.of_nat z)); [done|]. rewrite <- Z.pow_add_r by lia.
    replace (Z.of_nat 21 - Z.of_nat z + Z.of_nat z)%Z with 21%Z by lia. lia. }
  unfold layout. rewrite (proj2 (Z.leb_le _ _)), (proj2 (Z.leb_le _ 21)) by lia. cbn [andb].
  replace (Z.to_nat _) with z by lia. split_and!.
  - intros E. apply app_eq_nil in E as [E _]. by apply str_of_N_nonempty in E.
  - apply Forall_app. split; [apply str_of_N_digits|apply zeros_digits].
  - rewrite digits_value_app, digits_value_zeros, digits_value_str, Z2N.id by lia. unfold zeros. rewrite length_replicate. lia.
Qed.
