(* ===== verification/JsRegex.v ===== *)
(** * Regular expressions of the language

    The backtracking matcher the language prescribes, for the constructs the
    modelled files use: character classes, sequence, ordered choice, greedy
    repetition, capturing groups, back references, anchors and word boundaries.
    A matcher takes a continuation, which decides whether the attempt so far can
    be completed; the first completed attempt is the match, in the order in which
    the language tries them. *)

From S2P Require Import Prelude JsString.

(** ** Syntax *)

Inductive regex :=
| REps
| RChar (p : N → bool)
| RSeq (r1 r2 : regex)
| RAlt (r1 r2 : regex)
| RStar (r : regex)
| RGroup (n : nat) (r : regex)
| RBackref (n : nat)
| RStart
| REnd
| RWordBoundary.

(** [r+] *)
Definition RPlus (r : regex) : regex := RSeq r (RStar r).

(** [r?] for an [r] that does not match the empty text *)
Definition ROpt (r : regex) : regex := RAlt r REps.

(** The unit [c] *)
Definition RUnit (c : N) : regex := RChar (fun d => (d =? c)%N).

Fixpoint RLit (s : jsstr) : regex :=
  match s with [] => REps | c :: s' => RSeq (RUnit c) (RLit s') end.

(** One of several texts, in order *)
Fixpoint RAny (l : list jsstr) : regex :=
  match l with
  | [] => RChar (fun _ => false)
  | [s] => RLit s
  | s :: l' => RAlt (RLit s) (RAny l')
  end.

Fixpoint RCat (l : list regex) : regex :=
  match l with [] => REps | [r] => r | r :: l' => RSeq r (RCat l') end.

(** ** Classes *)

Definition is_line_terminator (c : N) : bool :=
  ((c =? 10) || (c =? 13) || (c =? 0x2028) || (c =? 0x2029))%N.

(** [\w] *)
Definition is_word (c : N) : bool :=
  (is_digit c || ((65 <=? c) && (c <=? 90)) || ((97 <=? c) && (c <=? 122)) || (c =? 95))%N.

Definition one_of (l : jsstr) (c : N) : bool := bool_decide (c ∈ l).

(** [.] and [.] under the flag [s] *)
Definition RDot : regex := RChar (fun c => negb (is_line_terminator c)).
Definition RAnyUnit : regex := RChar (fun _ => true).

(** ** Matching *)

(** The text before the position, reversed, the text after it, and the captures *)
Record mstate := mkM { before : jsstr; rest : jsstr; caps : list (option jsstr) }.

Definition advance (c : N) (t : jsstr) (st : mstate) : mstate := mkM (c :: before st) t (caps st).
Arguments advance / c t st.

(** The groups of an expression, which every iteration of a repetition clears *)
Fixpoint groups (r : regex) : list nat :=
  match r with
  | RSeq r1 r2 | RAlt r1 r2 => groups r1 ++ groups r2
  | RStar r1 => groups r1
  | RGroup n r1 => n :: groups r1
  | _ => []
  end.

Definition clear_groups (ns : list nat) (st : mstate) : mstate :=
  mkM (before st) (rest st) (foldr (fun n cs => <[n := None]> cs) (caps st) ns).

Definition at_boundary (st : mstate) : bool :=
  negb (Bool.eqb (match before st with c :: _ => is_word c | [] => false end)
                 (match rest st with c :: _ => is_word c | [] => false end)).

Fixpoint rmatch {X} (r : regex) (st : mstate) (k : mstate → option X) : option X :=
  match r with
  | REps => k st
  | RChar p => match rest st with c :: t => if p c then k (advance c t st) else None | [] => None end
  | RSeq r1 r2 => rmatch r1 st (fun st' => rmatch r2 st' k)
  | RAlt r1 r2 => match rmatch r1 st k with Some x => Some x | None => rmatch r2 st k end
  | RStar r1 =>
      (fix loop (n : nat) (st : mstate) : option X :=
         match n with
         | 0 => k st
         | S n' =>
             match rmatch r1 (clear_groups (groups r1) st)
                     (fun st' => if length (rest st') <? length (rest st) then loop n' st' else None) with
             | Some x => Some x
             | None => k st
             end
         end) (length (rest st)) st
  | RGroup n r1 =>
      rmatch r1 st (fun st' =>
        k (mkM (before st') (rest st')
             (<[n := Some (take (length (rest st) - length (rest st')) (rest st))]> (caps st'))))
  | RBackref n =>
      let s := default [] (default None (caps st !! n)) in
      if starts_with s (rest st)
      then k (mkM (reverse s ++ before st) (drop (length s) (rest st)) (caps st))
      else None
  | RStart => match before st with [] => k st | _ => None end
  | REnd => match rest st with [] => k st | _ => None end
  | RWordBoundary => if at_boundary st then k st else None
  end.

(** [re.exec(s)] for an expression anchored at the start: the captures, the whole
    match being the first *)
Definition exec_at (ngroups : nat) (r : regex) (b s : jsstr) : option mstate :=
  rmatch (RGroup 0 r) (mkM b s (replicate (S ngroups) None)) Some.

(** The first match at or after a position *)
Fixpoint exec_from (ngroups : nat) (r : regex) (b s : jsstr) : option mstate :=
  match exec_at ngroups r b s with
  | Some st => Some st
  | None => match s with [] => None | c :: s' => exec_from ngroups r (c :: b) s' end
  end.

(** [s.match(re)] and [re.test(s)] *)
Definition str_match (ngroups : nat) (r : regex) (s : jsstr) : option (list (option jsstr)) :=
  caps <$> exec_from ngroups r [] s.

Definition str_test (r : regex) (s : jsstr) : bool :=
  match exec_from 0 r [] s with Some _ => true | None => false end.

(** Capture [n] of a match; the empty text when the group did not take part *)
Definition cap (n : nat) (cs : list (option jsstr)) : jsstr := default [] (default None (cs !! n)).

(** The matches of a global expression, in order.  No expression of the program
    matches the empty text; such a match would end the list. *)
Fixpoint exec_all (fuel : nat) (ngroups : nat) (r : regex) (b s : jsstr) : list (list (option jsstr)) :=
  match fuel with
  | 0 => []
  | S fuel' =>
      match exec_from ngroups r b s with
      | Some st =>
          caps st :: (if length (rest st) <? length s then exec_all fuel' ngroups r (before st) (rest st) else [])
      | None => []
      end
  end.

Definition match_all (ngroups : nat) (r : regex) (s : jsstr) : list (list (option jsstr)) :=
  exec_all (S (length s)) ngroups r [] s.

(** [s.split(re)] for a non-empty [s] and an expression without groups; [cur] is
    the part since the last separator, reversed. *)
Fixpoint split_re_go (fuel : nat) (r : regex) (b s cur : jsstr) : list jsstr :=
  match fuel, s with
  | S fuel', c :: s' =>
      match exec_at 0 r b s with
      | Some st =>
          if negb (str_true cur) && (length (rest st) =? length s) then split_re_go fuel' r (c :: b) s' [c]
          else reverse cur :: split_re_go fuel' r (before st) (rest st) []
      | None => split_re_go fuel' r (c :: b) s' (c :: cur)
      end
  | _, _ => [reverse cur]
  end.

Definition split_re (r : regex) (s : jsstr) : list jsstr := split_re_go (2 * length s) r [] s [].

Example regex_sample :
  str_match 2 (RCat [RStart; RGroup 1 (RAny [js "ab"; js "a"]); RGroup 2 (RStar (RUnit 98%N)); RBackref 1; REnd]) (js "abba")
  = Some [Some (js "abba"); Some (js "a"); Some (js "bb")].
Proof. vm_compute. reflexivity. Qed.

Example regex_all :
  match_all 1 (RSeq RWordBoundary (RGroup 1 (RPlus (RChar is_digit)))) (js "a1 22-333")
  = [[Some (js "22"); Some (js "22")]; [Some (js "333"); Some (js "333")]].
Proof. vm_compute. reflexivity. Qed.

Example split_re_sample :
  split_re (RCat [RStar (RChar is_ws); RLit (js "&&"); RStar (RChar is_ws)]) (js "a <  1 && b&&c ") = [js "a <  1"; js "b"; js "c "].
Proof. vm_compute. reflexivity. Qed.

(** ** Lemmas *)

Lemma clear_nil st : clear_groups [] st = st.
Proof. by destruct st. Qed.

(** Only the results of the continuation matter. *)
Lemma rmatch_ext {X} r st (k k' : mstate → option X) :
  (∀ st', k st' = k' st') → rmatch r st k = rmatch r st k'.
Proof.
  revert st k k'. induction r as [|p|r1 IH1 r2 IH2|r1 IH1 r2 IH2|r1 IH1|n r1 IH1|n| | |]; intros st k k' Hk; simpl.
  - apply Hk.
  - destruct (rest st) as [|c t]; [done|]. by destruct (p c).
  - apply IH1. intros st'. by apply IH2.
  - by rewrite (IH1 st k k' Hk), (IH2 st k k' Hk).
  - generalize (length (rest st)) as n. intros n. revert st. induction n as [|n IHn]; intros st; [apply Hk|].
    rewrite (IH1 _ _ _ (fun st' => match length (rest st') <? length (rest st) as b
      return (if b then _ else None) = (if b then _ else None) with true => IHn st' | false => eq_refl end)), Hk.
    done.
  - apply IH1. intros st'. apply Hk.
  - by destruct (starts_with _ _).
  - by destruct (before st).
  - by destruct (rest st).
  - by destruct (at_boundary st).
Qed.

(** [s] read at the front of the text *)
Definition skip (s t : jsstr) (st : mstate) : mstate := mkM (reverse s ++ before st) t (caps st).

Lemma rmatch_lit {X} s t b c (k : mstate → option X) :
  rmatch (RLit s) (mkM b (s ++ t) c) k = k (mkM (reverse s ++ b) t c).
Proof.
  revert b. induction s as [|x s IH]; intros b; simpl; [done|]. rewrite N.eqb_refl. unfold advance. simpl.
  rewrite IH. by rewrite reverse_cons, <- app_assoc.
Qed.

Lemma rmatch_lit_fail {X} s st (k : mstate → option X) :
  starts_with s (rest st) = false → rmatch (RLit s) st k = None.
Proof.
  revert st. induction s as [|x s IH]; intros st; simpl; [done|].
  destruct (rest st) as [|y t] eqn:E; [done|]. intros H. destruct (N.eqb_spec y x) as [->|Hne]; [|done].
  rewrite bool_decide_true in H by done. by apply IH.
Qed.

(** Greedy repetition of a class: the longest run first *)
Fixpoint greedy {X} (p : N → bool) (b s : jsstr) (c : list (option jsstr)) (k : mstate → option X) : option X :=
  match s with
  | x :: s' =>
      if p x then match greedy p (x :: b) s' c k with Some y => Some y | None => k (mkM b s c) end
      else k (mkM b s c)
  | [] => k (mkM b [] c)
  end.

Lemma rmatch_class_star {X} p st (k : mstate → option X) :
  rmatch (RStar (RChar p)) st k = greedy p (before st) (rest st) (caps st) k.
Proof.
  destruct st as [b s c]. cbn [before rest caps rmatch groups].
  remember (length s) as n eqn:Hn. revert b s Hn. induction n as [|n IH]; intros b s Hn.
  - by destruct s.
  - destruct s as [|x s]; [done|]. injection Hn as Hn. rewrite clear_nil. cbn [rest greedy].
    destruct (p x) eqn:Ep; [|done]. unfold advance. cbn [rest before caps length].
    rewrite (proj2 (Nat.ltb_lt _ _)) by lia. by rewrite IH.
Qed.

Lemma greedy_run {X} p w t b c (k : mstate → option X) x :
  Forall (fun y => p y = true) w → (∀ y t', t = y :: t' → p y = false) →
  k (mkM (reverse w ++ b) t c) = Some x → greedy p b (w ++ t) c k = Some x.
Proof.
  intros Hw Ht. revert b. induction Hw as [|y w Hy _ IH]; intros b Hk.
  - destruct t as [|y t]; simpl in *; [done|]. by rewrite (Ht y t eq_refl).
  - simpl. rewrite Hy. rewrite reverse_cons, <- app_assoc in Hk. by rewrite IH.
Qed.

(** Backtracking to the last position from which the rest matches *)
Lemma greedy_last {X} p w v t b c (k : mstate → option X) x :
  Forall (fun y => p y = true) (w ++ v) → (∀ y t', t = y :: t' → p y = false) →
  (∀ v1 v2, v = v1 ++ v2 → v1 ≠ [] → k (mkM (reverse (w ++ v1) ++ b) (v2 ++ t) c) = None) →
  k (mkM (reverse w ++ b) (v ++ t) c) = Some x → greedy p b (w ++ v ++ t) c k = Some x.
Proof.
  intros Hw Ht Hv Hk. revert b Hv Hk. induction w as [|y w IH]; intros b Hv Hk.
  - simpl in *. revert b Hv Hk. induction v as [|z v IH]; intros b Hv Hk; simpl in *.
    + destruct t as [|y t]; simpl; [done|]. by rewrite (Ht y t eq_refl).
    + apply Forall_cons in Hw as [Hz Hw]. rewrite Hz.
      assert (greedy p (z :: b) (v ++ t) c k = None) as ->; [|done].
      assert (∀ v1 v2, v = v1 ++ v2 → k (mkM (reverse v1 ++ z :: b) (v2 ++ t) c) = None) as Hn.
      { intros v1 v2 ->. specialize (Hv (z :: v1) v2 eq_refl ltac:(done)).
        by rewrite reverse_cons, <- app_assoc in Hv. }
      clear -Hn Hw Ht. revert b z Hn. induction v as [|y v IH]; intros b z Hn; simpl.
      * specialize (Hn [] [] eq_refl). simpl in Hn. destruct t as [|y t]; simpl; [done|]. by rewrite (Ht y t eq_refl).
      * apply Forall_cons in Hw as [Hy Hw]. rewrite Hy, IH; [exact (Hn [] (y :: v) eq_refl)|done|].
        intros v1 v2 ->. specialize (Hn (y :: v1) v2 eq_refl). by rewrite reverse_cons, <- app_assoc in Hn.
  - apply Forall_cons in Hw as [Hy Hw]. simpl. rewrite Hy, (IH Hw); [done| |].
    + intros v1 v2 Ev Hne. specialize (Hv v1 v2 Ev Hne). simpl in Hv. by rewrite reverse_cons, <- app_assoc in Hv.
    + by rewrite reverse_cons, <- app_assoc in Hk.
Qed.

(** A match of the class run exists only if the rest matches after some prefix. *)
Lemma greedy_None {X} p s b c (k : mstate → option X) :
  (∀ w t, s = w ++ t → Forall (fun y => p y = true) w → k (mkM (reverse w ++ b) t c) = None) →
  greedy p b s c k = None.
Proof.
  revert b. induction s as [|x s IH]; intros b H; simpl; [exact (H [] [] eq_refl (Forall_nil_2 _))|].
  destruct (p x) eqn:Ep; [|exact (H [] (x :: s) eq_refl (Forall_nil_2 _))].
  rewrite IH; [exact (H [] (x :: s) eq_refl (Forall_nil_2 _))|].
  intros w t -> Hw. specialize (H (x :: w) t eq_refl ltac:(by constructor)).
  by rewrite reverse_cons, <- app_assoc in H.
Qed.

(** What a completed match consumed: units of the classes of the expression *)
Fixpoint units_in (p : N → bool) (r : regex) : Prop :=
  match r with
  | RChar q => ∀ c, q c = true → p c = true
  | RSeq r1 r2 | RAlt r1 r2 => units_in p r1 ∧ units_in p r2
  | RStar r1 | RGroup _ r1 => units_in p r1
  | RBackref _ => False
  | _ => True
  end.

(** An expression whose matches end with the text *)
Fixpoint ends (r : regex) : Prop :=
  match r with
  | RSeq _ r2 => ends r2
  | RAlt r1 r2 => ends r1 ∧ ends r2
  | RGroup _ r1 => ends r1
  | REnd => True
  | _ => False
  end.

Lemma rmatch_consumes {X} p r st (k : mstate → option X) x :
  units_in p r → rmatch r st k = Some x →
  ∃ w st', rest st = w ++ rest st' ∧ Forall (fun c => p c = true) w ∧ (ends r → rest st' = []) ∧ k st' = Some x.
Proof.
  revert st k. induction r as [|q|r1 IH1 r2 IH2|r1 IH1 r2 IH2|r1 IH1|n r1 IH1|n| | |]; intros st k Hp; simpl in *.
  - intros H. by exists [], st.
  - destruct (rest st) as [|c t] eqn:E; [done|]. destruct (q c) eqn:Eq; [|done]. intros H.
    exists [c], (advance c t st). split_and!; auto. done.
  - destruct Hp as [Hp1 Hp2]. intros H. destruct (IH1 _ _ Hp1 H) as (w1 & s1 & E1 & F1 & _ & H1).
    destruct (IH2 _ _ Hp2 H1) as (w2 & s2 & E2 & F2 & N2 & H2). exists (w1 ++ w2), s2.
    split_and!; [by rewrite E1, E2, app_assoc|by apply Forall_app|done|done].
  - destruct Hp as [Hp1 Hp2]. destruct (rmatch r1 st k) eqn:E.
    + intros [= <-]. destruct (IH1 _ _ Hp1 E) as (w & s & ? & ? & ? & ?). exists w, s. naive_solver.
    + intros H. destruct (IH2 _ _ Hp2 H) as (w & s & ? & ? & ? & ?). exists w, s. naive_solver.
  - generalize (length (rest st)) as n. intros n. revert st. induction n as [|n IHn]; intros st H.
    { by exists [], st. }
    destruct (rmatch r1 (clear_groups (groups r1) st) _) eqn:E; [|by exists [], st]. injection H as ->.
    destruct (IH1 _ _ Hp E) as (w1 & s1 & E1 & F1 & _ & H1). simpl in E1.
    destruct (length (rest s1) <? length (rest st)); [|done].
    destruct (IHn _ H1) as (w2 & s2 & E2 & F2 & _ & H2). exists (w1 ++ w2), s2.
    split_and!; [by rewrite E1, E2, app_assoc|by apply Forall_app|done|done].
  - intros H. destruct (IH1 _ _ Hp H) as (w1 & s1 & E1 & F1 & N1 & H1). eexists w1, _. split_and!; [| | |exact H1]; done.
  - done.
  - destruct (before st) eqn:E; [|done]. intros H. by exists [], st.
  - destruct (rest st) eqn:E; [|done]. intros H. exists [], st. by rewrite E.
  - destruct (at_boundary st); [|done]. intros H. by exists [], st.
Qed.

(** A run of a class that only the rest of the text can end: what follows refuses
    to begin with a unit of the class. *)
Definition refuses {X} (p : N → bool) (k : mstate → option X) : Prop :=
  ∀ b y t c, p y = true → k (mkM b (y :: t) c) = None.

Lemma greedy_det {X} p w t b c (k : mstate → option X) :
  Forall (fun y => p y = true) w → (∀ y t', t = y :: t' → p y = false) → refuses p k →
  greedy p b (w ++ t) c k = k (mkM (reverse w ++ b) t c).
Proof.
  intros Hw Ht Hk. revert b. induction Hw as [|y w Hy Hw IH]; intros b; simpl.
  - destruct t as [|y t]; simpl; [done|]. by rewrite (Ht y t eq_refl).
  - rewrite Hy, IH, (Hk b y (w ++ t) c Hy), reverse_cons, <- app_assoc. by destruct (k _).
Qed.

Lemma rmatch_run {X} p w t b c (k : mstate → option X) :
  w ≠ [] → Forall (fun y => p y = true) w → (∀ y t', t = y :: t' → p y = false) → refuses p k →
  rmatch (RPlus (RChar p)) (mkM b (w ++ t) c) k = k (mkM (reverse w ++ b) t c).
Proof.
  intros Hne Hw Ht Hk. destruct w as [|y w]; [done|]. apply Forall_cons in Hw as [Hy Hw].
  unfold RPlus.
  change (rmatch (RChar p) (mkM b ((y :: w) ++ t) c) (fun st => rmatch (RStar (RChar p)) st k)
    = k (mkM (reverse (y :: w) ++ b) t c)).
  cbn [rmatch app rest]. rewrite Hy.
  change (rmatch (RStar (RChar p)) (advance y (w ++ t) (mkM b (y :: w ++ t) c)) k = k (mkM (reverse (y :: w) ++ b) t c)).
  rewrite rmatch_class_star.
  unfold advance. cbn [before rest caps]. rewrite greedy_det by done.
  by rewrite reverse_cons, <- app_assoc.
Qed.

Lemma refuses_lit {X} p c s r (k : mstate → option X) :
  p c = false → refuses p (fun st => rmatch (RSeq (RLit (c :: s)) r) st k).
Proof.
  intros Hp b y t cs Hy. cbn [rmatch RLit RUnit rest]. destruct (N.eqb_spec y c) as [->|]; [congruence|done].
Qed.

Lemma take_run (w t : jsstr) : take (length (w ++ t) - length t) (w ++ t) = w.
Proof. rewrite length_app, Nat.add_sub. apply take_app_length. Qed.

(** Nothing completes when the continuation never does. *)
Lemma rmatch_None {X} r st (k : mstate → option X) : (∀ st', k st' = None) → rmatch r st k = None.
Proof.
  revert st k. induction r as [|p|r1 IH1 r2 IH2|r1 IH1 r2 IH2|r1 IH1|n r1 IH1|n| | |]; intros st k Hk; simpl; auto.
  - destruct (rest st) as [|c t]; [done|]. by destruct (p c).
  - by rewrite IH1, IH2.
  - generalize (length (rest st)) as n. intros n. revert st. induction n as [|n IHn]; intros st; [apply Hk|].
    rewrite IH1; [apply Hk|]. intros st'. by destruct (_ <? _).
  - by destruct (starts_with _ _).
  - by destruct (before st).
  - by destruct (rest st).
  - by destruct (at_boundary st).
Qed.

(** A repetition: one more round, or what follows *)
Lemma rmatch_star {X} r st (k : mstate → option X) :
  rmatch (RStar r) st k =
  match rmatch r (clear_groups (groups r) st)
          (fun st' => if length (rest st') <? length (rest st) then rmatch (RStar r) st' k else None) with
  | Some x => Some x
  | None => k st
  end.
Proof.
  cbn [rmatch].
  set (loop := fix loop (n : nat) (st : mstate) {struct n} : option X := _).
  assert (∀ n m st, length (rest st) ≤ n → length (rest st) ≤ m → loop n st = loop m st) as Hloop.
  { clear st. intros n. induction n as [|n IH]; intros m st Hn Hm.
    - destruct m as [|m]; [done|]. simpl. rewrite rmatch_None; [done|]. intros st'.
      destruct (Nat.ltb_spec (length (rest st')) (length (rest st))); [lia|done].
    - destruct m as [|m]; simpl.
      + rewrite rmatch_None; [done|]. intros st'.
        destruct (Nat.ltb_spec (length (rest st')) (length (rest st))); [lia|done].
      + erewrite rmatch_ext; [reflexivity|]. intros st'. simpl.
        destruct (Nat.ltb_spec (length (rest st')) (length (rest st))); [apply IH; lia|done]. }
  destruct (length (rest st)) as [|n] eqn:El.
  - simpl. rewrite rmatch_None; [done|]. intros st'. by destruct (length (rest st')).
  - change (match rmatch r (clear_groups (groups r) st)
        (fun st' => if length (rest st') <? length (rest st) then loop n st' else None) with
      | Some x => Some x | None => k st end = match rmatch r (clear_groups (groups r) st)
        (fun st' => if length (rest st') <? S n then loop (length (rest st')) st' else None) with
      | Some x => Some x | None => k st end).
    rewrite El.
    rewrite (rmatch_ext r _ _ (fun st' => if length (rest st') <? S n then loop (length (rest st')) st' else None));
      [done|]. intros st'.
    destruct (Nat.ltb_spec (length (rest st')) (S n)); [apply Hloop; lia|done].
Qed.

(** An expression that must read the unit [c] *)
Fixpoint reads (c : N) (r : regex) : Prop :=
  match r with
  | RChar p => ∀ d, p d = true → d = c
  | RSeq r1 r2 => reads c r1 ∨ reads c r2
  | RAlt r1 r2 => reads c r1 ∧ reads c r2
  | RGroup _ r1 => reads c r1
  | _ => False
  end.

(** The unread text after a match is a suffix of the text. *)
Lemma rmatch_suffix {X} r st (k : mstate → option X) x :
  rmatch r st k = Some x → ∃ w st', rest st = w ++ rest st' ∧ (∀ c, reads c r → c ∈ w) ∧ k st' = Some x.
Proof.
  revert st k. induction r as [|q|r1 IH1 r2 IH2|r1 IH1 r2 IH2|r1 IH1|n r1 IH1|n| | |]; intros st k; simpl.
  - intros H. by exists [], st.
  - destruct (rest st) as [|d t] eqn:E; [done|]. destruct (q d) eqn:Eq; [|done]. intros H.
    exists [d], (advance d t st). split_and!; [done| |done]. intros c Hc. apply Hc in Eq as ->. constructor.
  - intros H. destruct (IH1 _ _ H) as (w1 & s1 & E1 & R1 & H1). destruct (IH2 _ _ H1) as (w2 & s2 & E2 & R2 & H2).
    exists (w1 ++ w2), s2. split_and!; [by rewrite E1, E2, app_assoc| |done]. intros c Hc. apply elem_of_app. naive_solver.
  - destruct (rmatch r1 st k) eqn:E.
    + intros [= <-]. destruct (IH1 _ _ E) as (w & s & ? & R & ?). exists w, s. naive_solver.
    + intros H. destruct (IH2 _ _ H) as (w & s & ? & R & ?). exists w, s. naive_solver.
  - generalize (length (rest st)) as n. intros n. revert st. induction n as [|n IHn]; intros st H.
    { by exists [], st. }
    destruct (rmatch r1 (clear_groups (groups r1) st) _) eqn:E; [|by exists [], st]. injection H as ->.
    destruct (IH1 _ _ E) as (w1 & s1 & E1 & _ & H1). simpl in E1.
    destruct (length (rest s1) <? length (rest st)); [|done].
    destruct (IHn _ H1) as (w2 & s2 & E2 & _ & H2). exists (w1 ++ w2), s2. by rewrite E1, E2, app_assoc.
  - intros H. destruct (IH1 _ _ H) as (w1 & s1 & E1 & R1 & H1). eexists w1, _. split_and!; [| |exact H1]; done.
  - destruct (starts_with _ _) eqn:E; [|done]. intros H. apply starts_with_spec in E as [t Et].
    eexists _, _. split_and!; [|done|exact H]. simpl. by rewrite Et, drop_app_length.
  - destruct (before st) eqn:E; [|done]. intros H. by exists [], st.
  - destruct (rest st) eqn:E; [|done]. intros H. exists [], st. by rewrite E.
  - destruct (at_boundary st); [|done]. intros H. by exists [], st.
Qed.

(** A choice of literals reads one of them. *)
Lemma rmatch_any {X} l st (k : mstate → option X) x : rmatch (RAny l) st k = Some x →
  ∃ v t, v ∈ l ∧ rest st = v ++ t ∧ k (mkM (reverse v ++ before st) t (caps st)) = Some x.
Proof.
  destruct st as [b s c]. cbn [before rest caps].
  assert (∀ v, rmatch (RLit v) (mkM b s c) k = Some x → ∃ t, s = v ++ t ∧ k (mkM (reverse v ++ b) t c) = Some x) as Hlit.
  { intros v H. destruct (starts_with v s) eqn:E; [|by rewrite rmatch_lit_fail in H].
    apply starts_with_spec in E as [t ->]. rewrite rmatch_lit in H. eauto. }
  induction l as [|v l IH]; [by destruct s|]. destruct l as [|v' l].
  - intros H. destruct (Hlit v H) as (t & ? & ?). exists v, t. split; [constructor|done].
  - intros H. change (match rmatch (RLit v) (mkM b s c) k with Some y => Some y | None => rmatch (RAny (v' :: l)) (mkM b s c) k end = Some x) in H.
    destruct (rmatch (RLit v) _ k) eqn:E.
    + injection H as ->. destruct (Hlit v E) as (t & ? & ?). exists v, t. split; [constructor|done].
    + destruct (IH H) as (w & t & Hw & ? & ?). exists w, t. split; [by constructor|done].
Qed.

(** A match leaves the captures of other groups alone. *)
Lemma rmatch_caps {X} r st (k : mstate → option X) x n : rmatch r st k = Some x → n ∉ groups r →
  ∃ st', k st' = Some x ∧ caps st' !! n = caps st !! n.
Proof.
  revert st k. induction r as [|q|r1 IH1 r2 IH2|r1 IH1 r2 IH2|r1 IH1|m r1 IH1|m| | |]; intros st k H Hn; simpl in *.
  - by exists st.
  - destruct (rest st) as [|d t]; [done|]. destruct (q d); [|done]. by eexists.
  - apply not_elem_of_app in Hn as [Hn1 Hn2]. apply IH1 in H as (st1 & H & E1); [|done].
    apply IH2 in H as (st2 & H & E2); [|done]. exists st2. by rewrite E2.
  - apply not_elem_of_app in Hn as [Hn1 Hn2]. destruct (rmatch r1 st k) eqn:E; [injection H as ->; by apply IH1|by apply IH2].
  - revert H. generalize (length (rest st)) as fuel. intros fuel. revert st. induction fuel as [|fuel IHf]; intros st H; [by exists st|].
    destruct (rmatch r1 (clear_groups (groups r1) st) _) eqn:E; [|by exists st]. injection H as ->.
    apply IH1 in E as (st1 & H & E1); [|done]. destruct (_ <? _); [|done].
    apply IHf in H as (st2 & H & E2). exists st2. split; [done|]. rewrite E2, E1. simpl.
    clear -Hn. induction (groups r1) as [|g gs IH]; [done|]. simpl. apply not_elem_of_cons in Hn as [Hg Hn].
    by rewrite list_lookup_insert_ne, IH.
  - apply not_elem_of_cons in Hn as [Hm Hn]. apply IH1 in H as (st1 & H & E1); [|done]. eexists. split; [exact H|]. simpl.
    by rewrite list_lookup_insert_ne.
  - destruct (starts_with _ _); [|done]. by eexists.
  - destruct (before st); [|done]. by exists st.
  - destruct (rest st); [|done]. by exists st.
  - destruct (at_boundary st); [|done]. by exists st.
Qed.

(** An expression that ends with a literal at the end of the text *)
Inductive closes (s : jsstr) : regex → Prop :=
| closes_lit : closes s (RSeq (RLit s) REnd)
| closes_seq r1 r2 : closes s r2 → closes s (RSeq r1 r2)
| closes_group n r : closes s r → closes s (RGroup n r).

Lemma rmatch_closes {X} s r st (k : mstate → option X) x :
  closes s r → rmatch r st k = Some x → ∃ u, rest st = u ++ s.
Proof.
  intros Hc. revert st k. induction Hc as [|r1 r2 _ IH|n r _ IH]; intros st k H.
  - destruct (starts_with s (rest st)) eqn:E.
    + apply starts_with_spec in E as [t E]. destruct st as [b w c]. simpl in E. subst w. cbn [rmatch] in H. rewrite rmatch_lit in H.
      cbn [rest] in *. destruct t; [|done]. exists []. by rewrite app_nil_r.
    + cbn [rmatch] in H. by rewrite rmatch_lit_fail in H.
  - cbn [rmatch] in H. apply rmatch_suffix in H as (w & st' & E & _ & H). apply IH in H as [u Hu].
    exists (w ++ u). by rewrite E, Hu, app_assoc.
  - cbn [rmatch] in H. by apply IH in H.
Qed.

(** ** Expressions that begin with an anchor *)

Lemma exec_at_anchored n r b s : b ≠ [] → exec_at n (RSeq RStart r) b s = None.
Proof. intros Hb. unfold exec_at. simpl. by destruct b. Qed.

Lemma exec_from_anchored n r s : exec_from n (RSeq RStart r) [] s = exec_at n (RSeq RStart r) [] s.
Proof.
  assert (∀ s b, b ≠ [] → exec_from n (RSeq RStart r) b s = None) as H.
  { clear s. intros s. induction s as [|c s IH]; intros b Hb; cbn [exec_from]; rewrite exec_at_anchored by done; [done|].
    by apply IH. }
  destruct s as [|c s]; cbn [exec_from]; destruct (exec_at _ _ [] _); try done. by apply H.
Qed.

Lemma str_match_anchored n r s : str_match n (RSeq RStart r) s = caps <$> exec_at n (RSeq RStart r) [] s.
Proof. unfold str_match. by rewrite exec_from_anchored. Qed.

(** No match without the unit it must read *)
Lemma str_match_reads n c r s : reads c r → c ∉ s → str_match n (RSeq RStart r) s = None.
Proof.
  intros Hr Hc. rewrite str_match_anchored. destruct (exec_at _ _ _ _) eqn:E; [|done]. exfalso. apply Hc.
  unfold exec_at in E. apply rmatch_suffix in E as (w & st & Hw & Hreads & _). simpl in *. rewrite Hw.
  apply elem_of_app. left. apply Hreads. by right.
Qed.

(** ** A calculus of successful matches

    [eats r w c c' t]: at the front of [w ++ t] the first attempt of [r] to which
    nothing that follows objects reads [w] and turns the captures [c] into [c'].
    [stuck r t]: no attempt of [r] at the front of [t] completes. *)

Definition eats (r : regex) (w : jsstr) (c c' : list (option jsstr)) (t : jsstr) : Prop :=
  ∀ X (k : mstate → option X) b x, k (mkM (reverse w ++ b) t c') = Some x → rmatch r (mkM b (w ++ t) c) k = Some x.

Definition stuck (r : regex) (t : jsstr) : Prop :=
  ∀ X (k : mstate → option X) b c, rmatch r (mkM b t c) k = None.

Lemma eats_eps c t : eats REps [] c c t.
Proof. intros X k b x H. exact H. Qed.

Lemma eats_seq r1 r2 w1 w2 c c1 c2 t :
  eats r1 w1 c c1 (w2 ++ t) → eats r2 w2 c1 c2 t → eats (RSeq r1 r2) (w1 ++ w2) c c2 t.
Proof.
  intros H1 H2 X k b x Hk. cbn [rmatch]. rewrite <- app_assoc. apply H1. apply H2.
  by rewrite reverse_app, <- app_assoc in Hk.
Qed.

Lemma eats_lit s c t : eats (RLit s) s c c t.
Proof. intros X k b x H. by rewrite rmatch_lit. Qed.

Lemma eats_unit d c t : eats (RUnit d) [d] c c t.
Proof. intros X k b x H. cbn. by rewrite N.eqb_refl. Qed.

Lemma eats_run p w c t : Forall (fun y => p y = true) w → (∀ y t', t = y :: t' → p y = false) →
  eats (RStar (RChar p)) w c c t.
Proof. intros Hw Ht X k b x Hk. rewrite rmatch_class_star. by apply greedy_run. Qed.

Lemma eats_run1 p w c t : w ≠ [] → Forall (fun y => p y = true) w → (∀ y t', t = y :: t' → p y = false) →
  eats (RPlus (RChar p)) w c c t.
Proof.
  intros Hne Hw Ht X k b x Hk. destruct w as [|y w]; [done|]. apply Forall_cons in Hw as [Hy Hw].
  change (rmatch (RChar p) (mkM b (y :: w ++ t) c) (fun st => rmatch (RStar (RChar p)) st k) = Some x).
  cbn [rmatch rest]. rewrite Hy. apply (eats_run p w c t Hw Ht).
  by rewrite reverse_cons, <- app_assoc in Hk.
Qed.

Lemma eats_group n r w c c' t : eats r w c c' t → eats (RGroup n r) w c (<[n := Some w]> c') t.
Proof. intros H X k b x Hk. cbn [rmatch]. apply H. cbn [before rest caps]. by rewrite take_run. Qed.

Lemma eats_alt_l r1 r2 w c c' t : eats r1 w c c' t → eats (RAlt r1 r2) w c c' t.
Proof. intros H X k b x Hk. cbn [rmatch]. by rewrite (H X k b x Hk). Qed.

Lemma eats_alt_r r1 r2 w c c' t : stuck r1 (w ++ t) → eats r2 w c c' t → eats (RAlt r1 r2) w c c' t.
Proof. intros H1 H2 X k b x Hk. cbn [rmatch]. rewrite H1. by apply H2. Qed.

Lemma eats_opt_none r c t : stuck r t → eats (ROpt r) [] c c t.
Proof. intros H. apply eats_alt_r; [done|apply eats_eps]. Qed.

Lemma eats_star_end r c t : stuck r t → eats (RStar r) [] c c t.
Proof. intros H X k b x Hk. rewrite rmatch_star. unfold clear_groups. cbn [before rest]. by rewrite H. Qed.

Lemma eats_star_more r w1 w2 c c1 c2 t : groups r = [] → w1 ≠ [] →
  eats r w1 c c1 (w2 ++ t) → eats (RStar r) w2 c1 c2 t → eats (RStar r) (w1 ++ w2) c c2 t.
Proof.
  intros Hg Hne H1 H2 X k b x Hk. rewrite rmatch_star, Hg, clear_nil, <- app_assoc. cbn [rest].
  rewrite (H1 X _ b x); [done|]. cbn [rest].
  rewrite (proj2 (Nat.ltb_lt _ _)) by (rewrite !length_app; destruct w1; [done|simpl; lia]).
  apply H2. by rewrite reverse_app, <- app_assoc in Hk.
Qed.

Lemma stuck_seq r1 r2 t : stuck r1 t → stuck (RSeq r1 r2) t.
Proof. intros H X k b c. cbn [rmatch]. apply H. Qed.

Lemma stuck_group n r t : stuck r t → stuck (RGroup n r) t.
Proof. intros H X k b c. cbn [rmatch]. apply H. Qed.

Lemma stuck_alt r1 r2 t : stuck r1 t → stuck r2 t → stuck (RAlt r1 r2) t.
Proof. intros H1 H2 X k b c. cbn [rmatch]. by rewrite H1, H2. Qed.

Lemma stuck_opt_seq r1 r2 t : stuck r1 t → stuck r2 t → stuck (RSeq (ROpt r1) r2) t.
Proof. intros H1 H2 X k b c. cbn [rmatch ROpt]. by rewrite H1, H2. Qed.

Lemma stuck_lit s t : starts_with s t = false → stuck (RLit s) t.
Proof. intros H X k b c. by apply rmatch_lit_fail. Qed.

(** A literal that is read, with what follows stuck *)
Lemma stuck_after s r t : stuck r t → stuck (RSeq (RLit s) r) (s ++ t).
Proof. intros H X k b c. cbn [rmatch]. rewrite rmatch_lit. apply H. Qed.

(** A run of a class with what follows stuck wherever it stops *)
Lemma stuck_run p r w t : (∀ w1 w2, w = w1 ++ w2 → stuck r (w2 ++ t)) → (∀ y t', t = y :: t' → p y = false) →
  stuck (RSeq (RStar (RChar p)) r) (w ++ t).
Proof.
  intros H Ht X k b c. change (rmatch (RStar (RChar p)) (mkM b (w ++ t) c) (fun st => rmatch r st k) = None).
  rewrite rmatch_class_star. cbn [before rest caps]. apply greedy_None. intros w1 t1 E Hw1.
  assert (∃ w2, w = w1 ++ w2 ∧ t1 = w2 ++ t) as (w2 & -> & ->); [|by apply (H w1)].
  clear -E Hw1 Ht. revert w E. induction w1 as [|y w1 IH]; intros w E; [by exists w|]. apply Forall_cons in Hw1 as [Hy Hw1].
  destruct w as [|z w]; simpl in E.
  - rewrite (Ht y (w1 ++ t1) E) in Hy. done.
  - injection E as <- E. destruct (IH Hw1 w E) as (w2 & -> & ->). by exists w2.
Qed.

Lemma stuck_run_none p r t : stuck r t → (∀ y t', t = y :: t' → p y = false) → stuck (RSeq (RStar (RChar p)) r) t.
Proof. intros H Ht. apply (stuck_run p r []); [|done]. intros w1 w2 E. by destruct w1, w2. Qed.

Lemma stuck_run_one p r y t : stuck r (y :: t) → stuck r t → (∀ y t', t = y :: t' → p y = false) →
  stuck (RSeq (RStar (RChar p)) r) (y :: t).
Proof.
  intros H1 H2 Ht. apply (stuck_run p r [y]); [|done]. intros w1 w2 E.
  destruct w2 as [|z w2]; [done|]. destruct w1 as [|z' w1]; simplify_eq/=; [done|]. by destruct w1.
Qed.

Lemma stuck_unit_after d r t : stuck r t → stuck (RSeq (RUnit d) r) (d :: t).
Proof. intros H X k b c. cbn. rewrite N.eqb_refl. apply H. Qed.

Lemma stuck_unit d t : (∀ t', t ≠ d :: t') → stuck (RUnit d) t.
Proof.
  intros H X k b c. cbn. destruct t as [|y t]; [done|]. destruct (N.eqb_spec y d) as [->|]; [|done]. by destruct (H t).
Qed.

Lemma exec_at_eats n r w c t b : eats r w (replicate (S n) None) c t →
  exec_at n r b (w ++ t) = Some (mkM (reverse w ++ b) t (<[0 := Some w]> c)).
Proof. intros H. unfold exec_at. by apply (eats_group 0 r w _ c t H). Qed.

Lemma exec_from_eats n r w c t b : eats r w (replicate (S n) None) c t →
  exec_from n r b (w ++ t) = Some (mkM (reverse w ++ b) t (<[0 := Some w]> c)).
Proof. intros H. pose proof (exec_at_eats n r w c t b H) as E. destruct (w ++ t); cbn [exec_from]; by rewrite E. Qed.

Lemma exec_from_stuck n r d t b : stuck r (d :: t) → exec_from n r b (d :: t) = exec_from n r (d :: b) t.
Proof. intros H. cbn [exec_from]. unfold exec_at. by rewrite (stuck_group 0 r _ H). Qed.

Lemma exec_from_reads n r c s b : reads c r → c ∉ s → exec_from n r b s = None.
Proof.
  intros Hr. revert b. induction s as [|d s IH]; intros b Hc; cbn [exec_from];
    (destruct (exec_at _ _ _ _) eqn:E; [exfalso|]).
  - unfold exec_at in E. apply rmatch_suffix in E as (w & st & Hw & Hreads & _). simpl in *.
    specialize (Hreads c Hr). destruct w; [set_solver|done].
  - done.
  - unfold exec_at in E. apply rmatch_suffix in E as (w & st & Hw & Hreads & _). simpl in *.
    specialize (Hreads c Hr). apply Hc. rewrite Hw. set_solver.
  - apply IH. set_solver.
Qed.

Lemma eats_end c : eats REnd [] c c [].
Proof. intros X k b x H. exact H. Qed.

Lemma str_match_eats n r w c : eats r w (replicate (S n) None) c [] →
  str_match n (RSeq RStart r) w = Some (<[0 := Some w]> c).
Proof.
  intros H. rewrite str_match_anchored.
  assert (exec_at n r [] w = Some (mkM (reverse w ++ []) [] (<[0 := Some w]> c))) as E.
  { rewrite <- (app_nil_r w) at 1. by apply exec_at_eats. }
  unfold exec_at in *. cbn [rmatch before] in *. by rewrite E.
Qed.

(** ** A global expression over pieces joined by a separator

    Each piece is one match, wherever it stands after a space or at the front, and
    no match begins within a separator. *)
Section Pieces.
Context {A : Type} (n : nat) (r : regex) (sep tl : jsstr).
Context (text : A → jsstr) (captures : A → list (option jsstr)) (ok : A → Prop).

Definition after_space (b : jsstr) : Prop := ∀ c b', b = c :: b' → c = 32%N.

Hypothesis text_nonempty : ∀ a, text a ≠ [].
Hypothesis sep_space : ∀ b, after_space (reverse sep ++ b).
Hypothesis piece_match : ∀ a t b, ok a → after_space b → t = tl ∨ (∃ t', t = sep ++ t') →
  exec_from n r b (text a ++ t) = Some (mkM (reverse (text a) ++ b) t (captures a)).
Hypothesis sep_skip : ∀ s b, exec_from n r b (sep ++ s) = exec_from n r (reverse sep ++ b) s.
Hypothesis tail_none : ∀ b, exec_from n r b tl = None.

Lemma exec_all_pieces l pre b fuel :
  Forall ok l → l ≠ [] → length l < fuel → pre = [] ∨ pre = sep → after_space (reverse pre ++ b) →
  exec_all fuel n r b (pre ++ str_join sep (text <$> l) ++ tl) = captures <$> l.
Proof.
  intros Hl Hne Hf Hpre Hb. destruct l as [|a l]; [done|]. clear Hne. revert a b pre fuel Hl Hf Hpre Hb.
  assert (∀ pre s b, pre = [] ∨ pre = sep → exec_from n r b (pre ++ s) = exec_from n r (reverse pre ++ b) s) as Hskip.
  { intros pre s b [-> | ->]; [done|apply sep_skip]. }
  induction l as [|a' l IH]; intros a b pre fuel Hl Hf Hpre Hb; apply Forall_cons in Hl as [Ha Hl];
    (destruct fuel as [|fuel]; [simpl in Hf; lia|]); cbn [exec_all].
  - cbn [fmap list_fmap str_join]. rewrite Hskip, piece_match by eauto. cbn [caps rest before]. f_equal.
    destruct (_ <? _); [|done]. destruct fuel as [|fuel]; [done|]. cbn [exec_all]. by rewrite tail_none.
  - rewrite !fmap_cons. cbn [str_join]. rewrite <- !app_assoc, Hskip, piece_match by eauto. cbn [caps rest before]. f_equal.
    rewrite (proj2 (Nat.ltb_lt _ _)).
    2: { rewrite !length_app. pose proof (text_nonempty a). destruct (text a); [done|simpl; lia]. }
    apply (IH a' _ sep); [done|simpl in *; lia|by right|apply sep_space].
Qed.

Lemma match_all_pieces l : Forall ok l → l ≠ [] →
  match_all n r (str_join sep (text <$> l) ++ tl) = captures <$> l.
Proof.
  intros Hl Hne. unfold match_all. apply (exec_all_pieces l []); [done|done| |by left|done].
  rewrite length_app. enough (length l ≤ length (str_join sep (text <$> l))) by lia. clear Hl Hne.
  induction l as [|a l IH]; [done|]. rewrite fmap_cons. pose proof (text_nonempty a) as Ha. destruct l as [|a' l].
  - simpl. destruct (text a); [done|simpl; lia].
  - change (str_join sep (text a :: (text <$> a' :: l))) with (text a ++ sep ++ str_join sep (text <$> a' :: l)).
    rewrite !length_app. destruct (text a); [done|]. cbn [length] in *. lia.
Qed.
End Pieces.
