(* ===== verification/HttpStatusRules.v ===== *)
(** * HTTP status code rules (src/web/src/lib/http-status-code-rules.ts)

    A comma-separated list of codes and code ranges is parsed, validated,
    merged into disjoint ranges and printed back.  The denotation of a rule list
    is the set of codes it covers; the theorems say that merging keeps it, that
    the printed form is canonical, and that it parses back to itself.

    Codes are integers: [parseInt] of a digit string too long for an exact double
    is far above 599 and refused either way. *)

From S2P Require Import Prelude JsString.

Module HttpStatusRules.

Record StatusCodeRange := mkRange { rstart : Z; rend : Z }.

Record ParsedHttpStatusCodeRules := mkParsed {
  ok : bool;
  ranges : list StatusCodeRange;
  tokens : list jsstr;
  normalized : jsstr;
  invalidTokens : list jsstr
}.

Definition isNumber (s : jsstr) : bool := str_true s && forallb is_digit s.

Definition parseInt (s : jsstr) : Z := Z.of_N (default 0%N (parse_digits s)).

Definition isValidCode (code : Z) : bool := ((100 <=? code) && (code <=? 599))%Z.

Definition parseToken (token : jsstr) : option StatusCodeRange :=
  let cleaned := remove_ws (trim token) in
  if str_true cleaned then
    if includes (js "-") cleaned then
      match split_on (ch "-") cleaned with
      | a :: b :: _ =>
          if isNumber a && isNumber b then
            let start := parseInt a in
            let end_ := parseInt b in
            if isValidCode start && isValidCode end_ && (start <=? end_)%Z
            then Some (mkRange start end_) else None
          else None
      | _ => None
      end
    else if isNumber cleaned then
      let code := parseInt cleaned in
      if isValidCode code then Some (mkRange code code) else None
    else None
  else None.

(** The comparator of the sort: by start, then by end. *)
Definition range_cmp (a b : StatusCodeRange) : Z :=
  if (rstart a =? rstart b)%Z then (rend a - rend b)%Z else (rstart a - rstart b)%Z.

(** One round of the reduction: push the range or extend the last one. *)
Definition merge_step (merged : list StatusCodeRange) (current : StatusCodeRange) :
    list StatusCodeRange :=
  match last merged with
  | None => merged ++ [current]
  | Some l =>
      if (rend l + 1 <? rstart current)%Z then merged ++ [current]
      else removelast merged ++ [mkRange (rstart l) (Z.max (rend l) (rend current))]
  end.

Definition mergeRanges (rs : list StatusCodeRange) : list StatusCodeRange :=
  match rs with
  | [] => []
  | _ => foldl merge_step [] (sort_by range_cmp rs)
  end.

Definition range_token (r : StatusCodeRange) : jsstr :=
  if (rstart r =? rend r)%Z then str_of_Z (rstart r)
  else str_of_Z (rstart r) ++ js "-" ++ str_of_Z (rend r).

(** The segments of a trimmed input: full-width commas read as commas. *)
Definition segments (raw : jsstr) : list jsstr :=
  filter (fun s => str_true s = true)
    (trim <$> split_on (ch ",") (replace_char (ch "，") (ch ",") raw)).

(** The loop over the segments: the parsed ranges and the refused segments. *)
Fixpoint parse_segments (segs : list jsstr) : list StatusCodeRange * list jsstr :=
  match segs with
  | [] => ([], [])
  | s :: segs' =>
      let '(rs, bad) := parse_segments segs' in
      match parseToken s with
      | Some r => (r :: rs, bad)
      | None => (rs, s :: bad)
      end
  end.

(** The argument is the text of [(input ?? '').toString()]: [None] for a nullish
    input. *)
Definition parseHttpStatusCodeRules (input : option jsstr) : ParsedHttpStatusCodeRules :=
  let raw := trim (default [] input) in
  match raw with
  | [] => mkParsed true [] [] [] []
  | _ =>
      let '(rs, invalid) := parse_segments (segments raw) in
      match invalid with
      | _ :: _ => mkParsed false [] [] raw invalid
      | [] =>
          let merged := mergeRanges rs in
          let toks := range_token <$> merged in
          mkParsed true merged toks (str_join (js ",") toks) []
      end
  end.

(** ** Specification *)

(** The codes a list of ranges covers. *)
Definition covers (rs : list StatusCodeRange) (c : Z) : Prop :=
  Exists (fun r => (rstart r <= c <= rend r)%Z) rs.

(** A canonical list: non-empty ranges in increasing order, with at least one
    uncovered code between neighbours. *)
Definition valid_range (r : StatusCodeRange) : Prop :=
  (100 <= rstart r /\ rstart r <= rend r /\ rend r <= 599)%Z.

Definition apart (a b : StatusCodeRange) : Prop := (rend a + 1 < rstart b)%Z.

Definition canonical (rs : list StatusCodeRange) : Prop :=
  Forall valid_range rs ∧ StronglySorted apart rs.

(** The codes an input means: those of the ranges of its segments. *)
Definition denotes (input : option jsstr) (c : Z) : Prop :=
  ∃ s r, s ∈ segments (trim (default [] input)) ∧ parseToken s = Some r
         ∧ (rstart r <= c <= rend r)%Z.

(** ** Merging *)

#[global] Instance range_comparator : Comparator range_cmp.
Proof.
  split; unfold cmp_le, range_cmp.
  - intros a b. destruct (Z.eqb_spec (rstart a) (rstart b)),
      (Z.eqb_spec (rstart b) (rstart a)); lia.
  - intros a b c. destruct (Z.eqb_spec (rstart b) (rstart a)),
      (Z.eqb_spec (rstart c) (rstart b)), (Z.eqb_spec (rstart c) (rstart a)); lia.
Qed.

Fixpoint merge_from (cur : StatusCodeRange) (l : list StatusCodeRange) : list StatusCodeRange :=
  match l with
  | [] => [cur]
  | r :: l' =>
      if (rend cur + 1 <? rstart r)%Z then cur :: merge_from r l'
      else merge_from (mkRange (rstart cur) (Z.max (rend cur) (rend r))) l'
  end.

Lemma foldl_merge_from pre cur l :
  foldl merge_step (pre ++ [cur]) l = pre ++ merge_from cur l.
Proof.
  revert pre cur. induction l as [|r l IH]; intros pre cur; simpl; [done|].
  unfold merge_step at 2. rewrite last_snoc.
  destruct (_ <? _)%Z.
  - by rewrite IH, <- (assoc (++)).
  - by rewrite removelast_last, IH.
Qed.

Lemma mergeRanges_from r rs :
  ∃ cur l, sort_by range_cmp (r :: rs) = cur :: l ∧ mergeRanges (r :: rs) = merge_from cur l.
Proof.
  unfold mergeRanges. destruct (sort_by range_cmp (r :: rs)) as [|cur l] eqn:E.
  - pose proof (sort_by_length range_cmp (r :: rs)) as Hl. by rewrite E in Hl.
  - exists cur, l. split; [done|]. apply (foldl_merge_from [] cur l).
Qed.

Lemma range_cmp_le_start a b : cmp_le range_cmp a b → (rstart a <= rstart b)%Z.
Proof. unfold cmp_le, range_cmp. destruct (Z.eqb_spec (rstart b) (rstart a)); lia. Qed.

Lemma merge_from_covers cur l c :
  Forall (fun r => (rstart cur <= rstart r)%Z) l →
  StronglySorted (fun a b => (rstart a <= rstart b)%Z) l →
  covers (merge_from cur l) c ↔ covers (cur :: l) c.
Proof.
  unfold covers. revert cur. induction l as [|r l IH]; intros cur Hcur Hs; simpl; [done|].
  inversion_clear Hs as [|?? Hs' Hr]. inversion_clear Hcur as [|?? Hcr Hcur'].
  destruct (Z.ltb_spec (rend cur + 1) (rstart r)) as [H|H].
  - rewrite !Exists_cons, IH, Exists_cons by done. done.
  - rewrite IH, !Exists_cons by done. simpl.
    split; [intros [?|?]|intros [?|[?|?]]]; auto; try (left; lia).
    destruct (decide (c <= rend cur)%Z); [left|right; left]; lia.
Qed.

Lemma mergeRanges_covers rs c : covers (mergeRanges rs) c ↔ covers rs c.
Proof.
  destruct rs as [|r rs]; [done|].
  destruct (mergeRanges_from r rs) as (cur & l & Hsort & ->).
  pose proof (sort_by_sorted range_cmp (r :: rs)) as Hs. rewrite Hsort in Hs.
  inversion_clear Hs as [|?? Hs' Hcur].
  rewrite merge_from_covers.
  - unfold covers. rewrite <- Hsort. by rewrite (sort_by_perm range_cmp (r :: rs)).
  - eapply Forall_impl; [exact Hcur|]. apply range_cmp_le_start.
  - clear -Hs'. induction Hs' as [|a l Hs' IH Ha]; constructor; [done|].
    eapply Forall_impl; [exact Ha|]. apply range_cmp_le_start.
Qed.

Lemma merge_from_start cur l :
  Forall (fun r => (rstart cur <= rstart r)%Z) l →
  ∃ r' l', merge_from cur l = r' :: l' ∧ rstart r' = rstart cur.
Proof.
  revert cur. induction l as [|r l IH]; intros cur H; simpl; [eauto|].
  inversion_clear H. destruct (_ <? _)%Z; [eauto|].
  destruct (IH (mkRange (rstart cur) (Z.max (rend cur) (rend r)))) as (r' & l' & ? & ?); eauto.
Qed.

Lemma merge_from_lower k cur l :
  (k < rstart cur)%Z → Forall (fun r => (k < rstart r)%Z) l →
  Forall (fun r => (k < rstart r)%Z) (merge_from cur l).
Proof.
  revert cur. induction l as [|r l IH]; intros cur Hc H; simpl; [auto|].
  inversion_clear H. destruct (_ <? _)%Z; [constructor; auto|auto].
Qed.

Lemma merge_from_canonical cur l :
  valid_range cur → Forall valid_range l →
  Forall (fun r => (rstart cur <= rstart r)%Z) l →
  StronglySorted (fun a b => (rstart a <= rstart b)%Z) l →
  canonical (merge_from cur l).
Proof.
  revert cur. induction l as [|r l IH]; intros cur Hc Hv Hcur Hs; simpl.
  { repeat constructor; apply Hc. }
  inversion_clear Hs as [|?? Hs' Hr]. inversion_clear Hcur as [|?? Hcr Hcur'].
  inversion_clear Hv as [|?? Hvr Hv'].
  destruct (Z.ltb_spec (rend cur + 1) (rstart r)) as [H|H].
  - destruct (IH r) as [H1 H2]; auto. split; constructor; auto.
    apply (merge_from_lower (rend cur + 1)); [done|].
    eapply Forall_impl; [exact Hr|]. simpl. lia.
  - apply IH; auto. unfold valid_range in *. simpl. lia.
Qed.

Lemma mergeRanges_canonical rs : Forall valid_range rs → canonical (mergeRanges rs).
Proof.
  destruct rs as [|r rs]; [intros _; split; constructor|]. intros Hv.
  destruct (mergeRanges_from r rs) as (cur & l & Hsort & ->).
  pose proof (sort_by_sorted range_cmp (r :: rs)) as Hs. rewrite Hsort in Hs.
  rewrite <- (Forall_sort_by range_cmp), Hsort in Hv.
  inversion_clear Hs as [|?? Hs' Hcur]. inversion_clear Hv as [|?? Hv1 Hv2].
  apply merge_from_canonical; auto.
  - eapply Forall_impl; [exact Hcur|]. apply range_cmp_le_start.
  - clear -Hs'. induction Hs' as [|a l Hs' IH Ha]; constructor; [done|].
    eapply Forall_impl; [exact Ha|]. apply range_cmp_le_start.
Qed.

(** ** Canonical lists are determined by the codes they cover *)

Lemma canonical_tail r l c :
  canonical (r :: l) → covers l c ↔ covers (r :: l) c ∧ (rend r < c)%Z.
Proof.
  intros [Hv Hs]. inversion_clear Hs as [|?? _ Hr]. unfold covers. rewrite Exists_cons.
  split.
  - intros H. split; [by right|]. rewrite Exists_exists in H. destruct H as (x & Hx & ?).
    rewrite Forall_forall in Hr. specialize (Hr x Hx). unfold apart in Hr. lia.
  - intros [[?|?] ?]; [lia|done].
Qed.

Lemma canonical_cons_inv r l : canonical (r :: l) → valid_range r ∧ canonical l.
Proof. intros [Hv Hs]. inversion_clear Hv. inversion_clear Hs. by split; [|split]. Qed.

Lemma canonical_head r l c :
  canonical (r :: l) → covers (r :: l) c →
  (rstart r <= c)%Z ∧ (c ≠ rend r + 1)%Z.
Proof.
  intros Hc. destruct (canonical_cons_inv _ _ Hc) as [Hr _]. unfold valid_range in Hr.
  intros H. unfold covers in H. rewrite Exists_cons in H. destruct H as [?|H]; [lia|].
  destruct Hc as [_ Hs]. inversion_clear Hs as [|?? _ Hall].
  rewrite Exists_exists in H. destruct H as (x & Hx & ?).
  rewrite Forall_forall in Hall. specialize (Hall x Hx). unfold apart in Hall. lia.
Qed.

Lemma canonical_first_range r1 l1 r2 l2 :
  canonical (r1 :: l1) → canonical (r2 :: l2) →
  (∀ c, covers (r1 :: l1) c ↔ covers (r2 :: l2) c) → r1 = r2.
Proof.
  intros H1 H2 H.
  destruct (canonical_cons_inv _ _ H1) as [V1 _], (canonical_cons_inv _ _ H2) as [V2 _].
  assert (∀ r l c, (rstart r <= c <= rend r)%Z → covers (r :: l) c) as Hhd by (by left).
  unfold valid_range in *.
  destruct (canonical_head _ _ (rstart r2) H1) as [A1 _]; [apply H, Hhd; lia|].
  destruct (canonical_head _ _ (rstart r1) H2) as [A2 _]; [apply H, Hhd; lia|].
  destruct (Z.lt_trichotomy (rend r1) (rend r2)) as [Hlt|[Heq|Hlt]].
  - destruct (canonical_head _ _ (rend r1 + 1) H1) as [_ []]; [apply H, Hhd; lia|done].
  - destruct r1, r2; simpl in *. f_equal; lia.
  - destruct (canonical_head _ _ (rend r2 + 1) H2) as [_ []]; [apply H, Hhd; lia|done].
Qed.

Lemma canonical_unique l1 l2 :
  canonical l1 → canonical l2 → (∀ c, covers l1 c ↔ covers l2 c) → l1 = l2.
Proof.
  assert (∀ r l, canonical (r :: l) → ¬ ∀ c, covers [] c ↔ covers (r :: l) c) as Hnil.
  { intros r l Hc H. apply canonical_cons_inv in Hc as [V _].
    assert (covers [] (rstart r)) as F by (apply H; left; unfold valid_range in V; lia).
    inversion F. }
  revert l2. induction l1 as [|r1 l1 IH]; intros [|r2 l2] H1 H2 H; [done| | |].
  - by apply Hnil in H.
  - destruct (Hnil r1 l1); [done|]. intros c. by rewrite H.
  - assert (r1 = r2) as -> by by eapply canonical_first_range.
    f_equal. apply IH; [by eapply canonical_cons_inv..|].
    intros c. rewrite (canonical_tail r2 l1), (canonical_tail r2 l2) by done.
    by rewrite H.
Qed.

(** ** Tokens *)

Lemma parseToken_valid s r : parseToken s = Some r → valid_range r.
Proof.
  unfold parseToken, isValidCode, valid_range. intros H. case_all_in H; bsplit; simpl; lia.
Qed.

Lemma parse_segments_spec segs rs bad :
  parse_segments segs = (rs, bad) →
  Forall valid_range rs ∧
  (∀ r, r ∈ rs ↔ ∃ s, s ∈ segs ∧ parseToken s = Some r) ∧
  bad = filter (fun s => parseToken s = None) segs.
Proof.
  revert rs bad. induction segs as [|s segs IH]; intros rs bad; simpl.
  { intros ?; simplify_eq. repeat split; [constructor| |]; set_solver. }
  destruct (parse_segments segs) as [rs' bad'] eqn:E.
  destruct (IH _ _ eq_refl) as (Hv & Hin & ->).
  destruct (parseToken s) eqn:Es; intros; simplify_eq.
  - repeat split.
    + constructor; [by eapply parseToken_valid|done].
    + rewrite elem_of_cons, Hin. intros [->|(s' & ? & ?)]; set_solver.
    + rewrite elem_of_cons, Hin. intros (s' & [->|?]%elem_of_cons & ?); [left; congruence|eauto].
    + by rewrite filter_cons_False by congruence.
  - repeat split; [done| | |].
    + rewrite Hin. set_solver.
    + intros (s' & [->|?]%elem_of_cons & ?); [congruence|]. apply Hin. eauto.
    + by rewrite filter_cons_True.
Qed.

Lemma str_of_Z_nonneg z : (0 <= z)%Z → str_of_Z z = str_of_N (Z.to_N z).
Proof. by destruct z; intros; [..|lia]. Qed.

Lemma parseInt_str_of_Z z : (0 <= z)%Z → parseInt (str_of_Z z) = z.
Proof.
  intros H. unfold parseInt. rewrite str_of_Z_nonneg, parse_str_of_N by done. simpl. lia.
Qed.

Lemma isNumber_str_of_Z z : (0 <= z)%Z → isNumber (str_of_Z z) = true.
Proof.
  intros H. unfold isNumber. rewrite str_of_Z_nonneg by done. apply andb_true_iff. split.
  - apply str_true_spec, str_of_N_nonempty.
  - apply forallb_forall. intros c Hc%list_elem_of_In.
    by eapply Forall_forall in Hc; [|apply str_of_N_digits].
Qed.

Lemma str_of_Z_digits z : (0 <= z)%Z → Forall (fun c => is_digit c = true) (str_of_Z z).
Proof. intros. rewrite str_of_Z_nonneg by done. apply str_of_N_digits. Qed.

Lemma js_dash : js "-" = [ch "-"].
Proof. by vm_compute. Qed.

Lemma includes_dash_digits s :
  Forall (fun c => is_digit c = true) s → includes (js "-") s = false.
Proof.
  intros H. destruct (includes (js "-") s) eqn:E; [|done].
  apply includes_spec in E as (l & r & ->).
  assert (ch "-" ∉ l ++ js "-" ++ r) as []; [by apply digits_no_char; vm_compute|].
  rewrite js_dash. set_solver.
Qed.

Lemma range_token_chars r :
  valid_range r → Forall (fun c => is_ws c = false ∧ c ≠ ch "," ∧ c ≠ ch "，") (range_token r).
Proof.
  intros V. unfold valid_range in V.
  assert (∀ z, (0 <= z)%Z →
    Forall (fun c => is_ws c = false ∧ c ≠ ch "," ∧ c ≠ ch "，") (str_of_Z z)) as Hd.
  { intros z Hz. eapply Forall_impl; [by apply str_of_Z_digits|]. intros c Hc.
    split; [by apply digit_not_ws|]. split; intros ->; by vm_compute in Hc. }
  unfold range_token. case_all; [apply Hd; lia|].
  rewrite !Forall_app. repeat split; try (apply Hd; lia).
  rewrite js_dash, Forall_singleton. by vm_compute.
Qed.

Lemma range_token_nonempty r : valid_range r → range_token r ≠ [].
Proof.
  intros V. unfold valid_range in V. unfold range_token. rewrite str_of_Z_nonneg by lia.
  pose proof (str_of_N_nonempty (Z.to_N (rstart r))).
  destruct (str_of_N (Z.to_N (rstart r))); [done|]. by case_all.
Qed.

Lemma parseToken_range_token r : valid_range r → parseToken (range_token r) = Some r.
Proof.
  intros V. pose proof (range_token_chars r V) as Hch.
  assert (Forall (fun c => is_ws c = false) (range_token r)) as Hws
    by (eapply Forall_impl; [exact Hch|]; naive_solver).
  unfold parseToken. rewrite trim_id, remove_ws_id by done.
  rewrite (proj2 (str_true_spec _)) by (by apply range_token_nonempty).
  unfold valid_range in V. unfold range_token, isValidCode.
  destruct (Z.eqb_spec (rstart r) (rend r)) as [E|E].
  - rewrite includes_dash_digits, isNumber_str_of_Z, parseInt_str_of_Z by
      first [lia | apply str_of_Z_digits; lia].
    destruct r as [a b]; simpl in *. by case_all; bsplit; subst; [|lia..].
  - assert (includes (js "-") (str_of_Z (rstart r) ++ js "-" ++ str_of_Z (rend r)) = true)
      as -> by (apply includes_spec; eauto).
    rewrite js_dash. simpl app. rewrite split_on_app, split_on_word.
    + rewrite !isNumber_str_of_Z, !parseInt_str_of_Z by lia. simpl.
      destruct r as [a b]; simpl in *. case_all; [done|]. bsplit. naive_solver lia.
    + apply digits_no_char; [apply str_of_Z_digits; lia|by vm_compute].
    + apply digits_no_char; [apply str_of_Z_digits; lia|by vm_compute].
Qed.

(** ** The whole parser *)

Lemma parse_inv input :
  let raw := trim (default [] input) in
  let p := parseHttpStatusCodeRules input in
  (∃ rs, parse_segments (segments raw) = (rs, []) ∧
     p = mkParsed true (mergeRanges rs) (range_token <$> mergeRanges rs)
           (str_join (js ",") (range_token <$> mergeRanges rs)) []) ∨
  (∃ rs s bad, parse_segments (segments raw) = (rs, s :: bad) ∧
     p = mkParsed false [] [] raw (s :: bad)).
Proof.
  intros raw p. subst p. unfold parseHttpStatusCodeRules. fold raw.
  destruct raw as [|c raw'] eqn:E; [left; exists []; by vm_compute|].
  destruct (parse_segments (segments (c :: raw'))) as [rs bad].
  destruct bad; [left|right]; eauto 10.
Qed.

Lemma parse_denotes input rs :
  parse_segments (segments (trim (default [] input))) = (rs, []) →
  ∀ c, covers rs c ↔ denotes input c.
Proof.
  intros (_ & Hin & _)%parse_segments_spec c. unfold covers, denotes.
  rewrite Exists_exists. split.
  - intros (r & (s & ? & ?)%Hin & ?). eauto.
  - intros (s & r & ? & ? & ?). exists r. split; [apply Hin; eauto|done].
Qed.

Lemma segments_join toks :
  toks ≠ [] →
  Forall (fun w => w ≠ [] ∧ Forall (fun c => is_ws c = false ∧ c ≠ ch "," ∧ c ≠ ch "，") w) toks →
  segments (str_join (js ",") toks) = toks ∧
  trim (str_join (js ",") toks) = str_join (js ",") toks.
Proof.
  intros Hne H. assert (js "," = [ch ","]) as -> by by vm_compute.
  assert (Forall (fun c => is_ws c = false ∧ c ≠ ch "，") (str_join [ch ","] toks)) as Hj.
  { clear Hne. induction H as [|w l [_ Hw] Hl IH]; [constructor|].
    assert (Forall (fun c => is_ws c = false ∧ c ≠ ch "，") w) as Hw'
      by (eapply Forall_impl; [exact Hw|naive_solver]).
    destruct l as [|w' l]; [done|]. change (str_join [ch ","] (w :: w' :: l)) with
      (w ++ ch "," :: str_join [ch ","] (w' :: l)).
    rewrite Forall_app, Forall_cons. repeat split; auto; by vm_compute. }
  split; [|apply trim_id; eapply Forall_impl; [exact Hj|naive_solver]].
  unfold segments. rewrite replace_char_id.
  2:{ intros Hin. rewrite Forall_forall in Hj. by destruct (Hj _ Hin). }
  rewrite split_on_join; [|done|].
  - clear Hne Hj. induction H as [|w l [Hw1 Hw] _ IH]; [done|].
    rewrite fmap_cons, trim_id by (eapply Forall_impl; [exact Hw|naive_solver]).
    rewrite filter_cons_True by (by apply str_true_spec). by rewrite IH.
  - eapply Forall_impl; [exact H|]. intros w [_ Hw] Hin. rewrite Forall_forall in Hw.
    naive_solver.
Qed.

Lemma parse_segments_tokens rs :
  Forall valid_range rs → parse_segments (range_token <$> rs) = (rs, []).
Proof.
  induction 1 as [|r rs Hr _ IH]; [done|]. rewrite fmap_cons. simpl.
  by rewrite IH, parseToken_range_token.
Qed.

Lemma mergeRanges_id rs : canonical rs → mergeRanges rs = rs.
Proof.
  intros Hc. apply canonical_unique; [|done|by apply mergeRanges_covers].
  apply mergeRanges_canonical, Hc.
Qed.

Lemma parse_ok_canonical input :
  ok (parseHttpStatusCodeRules input) = true →
  canonical (ranges (parseHttpStatusCodeRules input)) ∧
  ∀ c, covers (ranges (parseHttpStatusCodeRules input)) c ↔ denotes input c.
Proof.
  intros Hok. destruct (parse_inv input) as [(rs & Hs & E)|(rs & s & bad & _ & E)];
    cbv zeta in *; rewrite E in *; [|done]. simpl.
  split; [by apply mergeRanges_canonical, (parse_segments_spec _ _ _ Hs)|].
  intros c. rewrite mergeRanges_covers. by apply parse_denotes.
Qed.

(** Merging parsed ranges keeps exactly the codes they cover, and leaves
    valid ranges in increasing order with an uncovered code between any two:
    overlapping and adjacent ranges are fused. *)
Theorem merge_ranges_spec rs :
  Forall valid_range rs →
  canonical (mergeRanges rs) ∧ ∀ c, covers (mergeRanges rs) c ↔ covers rs c.
Proof. split; [by apply mergeRanges_canonical|]. intros c. apply mergeRanges_covers. Qed.

Lemma merge_ranges_spec_witness :
  mergeRanges [mkRange 500 504; mkRange 429 429; mkRange 430 499] = [mkRange 429 504] ∧
  (canonical (mergeRanges [mkRange 500 504; mkRange 429 429; mkRange 430 499]) ∧
   ∀ c, covers (mergeRanges [mkRange 500 504; mkRange 429 429; mkRange 430 499]) c ↔
        covers [mkRange 500 504; mkRange 429 429; mkRange 430 499] c).
Proof.
  split; [by vm_compute|]. apply (merge_ranges_spec _).
  repeat constructor; unfold valid_range; simpl; lia.
Defined.

(** The parser accepts an input exactly when every non-blank segment is a code or
    a range between 100 and 599; otherwise it returns no range, the trimmed input
    unchanged, and exactly the refused segments in their order. *)
Theorem parse_rejects_exactly input :
  let raw := trim (default [] input) in
  let bad := filter (fun s => parseToken s = None) (segments raw) in
  let p := parseHttpStatusCodeRules input in
  invalidTokens p = bad ∧
  (ok p = true ↔ bad = []) ∧
  (bad ≠ [] → ranges p = [] ∧ tokens p = [] ∧ normalized p = raw).
Proof.
  intros raw bad p. subst raw bad p.
  destruct (parse_inv input) as [(rs & Hs & ->)|(rs & s & bad & Hs & ->)]; cbv zeta in *;
    apply parse_segments_spec in Hs as (_ & _ & <-); simpl; naive_solver.
Qed.

(** Two accepted inputs that mean the same set of codes give the same result: the
    same ranges, tokens and normalised text, whatever the order, spacing,
    duplication or comma style of the inputs. *)
Theorem parse_canonical i1 i2 :
  ok (parseHttpStatusCodeRules i1) = true → ok (parseHttpStatusCodeRules i2) = true →
  (∀ c, denotes i1 c ↔ denotes i2 c) →
  parseHttpStatusCodeRules i1 = parseHttpStatusCodeRules i2.
Proof.
  intros H1 H2 H.
  destruct (parse_ok_canonical i1 H1) as [C1 D1], (parse_ok_canonical i2 H2) as [C2 D2].
  assert (ranges (parseHttpStatusCodeRules i1) = ranges (parseHttpStatusCodeRules i2)) as Hr.
  { apply canonical_unique; [done..|]. intros c. by rewrite D1, D2, H. }
  destruct (parse_inv i1) as [(rs & _ & E1)|(? & ? & ? & _ & E1)],
    (parse_inv i2) as [(rs' & _ & E2)|(? & ? & ? & _ & E2)];
    cbv zeta in *; rewrite E1, E2 in *; simpl in *; congruence.
Qed.

Lemma parse_canonical_witness :
  parseHttpStatusCodeRules (Some (js " 500-503，401 ,401")) =
  parseHttpStatusCodeRules (Some (js "401,500-501,502-503")).
Proof.
  apply (parse_canonical (Some (js " 500-503，401 ,401")) (Some (js "401,500-501,502-503")));
    [by vm_compute..|].
  intros c.
  rewrite <- (parse_denotes _ [mkRange 500 503; mkRange 401 401; mkRange 401 401])
    by by vm_compute.
  rewrite <- (parse_denotes _ [mkRange 401 401; mkRange 500 501; mkRange 502 503])
    by by vm_compute.
  unfold covers. rewrite !Exists_cons, !Exists_nil. simpl. lia.
Defined.

(** C4. Round trip: the normalised text of an accepted input is accepted again and
    gives the same result, so normalising twice changes nothing. *)
Theorem parse_normalized_roundtrip input :
  ok (parseHttpStatusCodeRules input) = true →
  parseHttpStatusCodeRules (Some (normalized (parseHttpStatusCodeRules input))) =
  parseHttpStatusCodeRules input.
Proof.
  intros Hok. destruct (parse_ok_canonical input Hok) as [Hc _].
  destruct (parse_inv input) as [(rs & Hs & E)|(rs & s & bad & _ & E)];
    cbv zeta in *; rewrite E in *; [|done]. simpl in *. clear Hok Hs E.
  revert Hc. generalize (mergeRanges rs). clear rs. intros m Hc.
  destruct m as [|r m]; [by vm_compute|].
  destruct (segments_join (range_token <$> r :: m)) as [Hseg Htrim]; [done| |].
  { apply Forall_fmap. eapply Forall_impl; [apply Hc|]. intros r' V; simpl.
    split; [by apply range_token_nonempty|by apply range_token_chars]. }
  pose proof (parse_segments_tokens (r :: m) (proj1 Hc)) as Hps.
  destruct (parse_inv (Some (str_join (js ",") (range_token <$> r :: m))))
    as [(rs & Hs & ->)|(rs & s & bad & Hs & _)]; cbv zeta in Hs;
    change (trim (default [] (Some ?j))) with (trim j) in Hs;
    rewrite Htrim, Hseg, Hps in Hs; [|done].
  injection Hs as <-. by rewrite mergeRanges_id.
Qed.

Lemma parse_normalized_roundtrip_witness :
  normalized (parseHttpStatusCodeRules (Some (js "429, 500-502,503"))) = js "429,500-503" ∧
  parseHttpStatusCodeRules (Some (normalized (parseHttpStatusCodeRules (Some (js "429, 500-502,503"))))) =
  parseHttpStatusCodeRules (Some (js "429, 500-502,503")).
Proof. split; [by vm_compute|]. apply parse_normalized_roundtrip. by vm_compute. Defined.

End HttpStatusRules.
