(* ===== verification/AuthStore.v ===== *)
(** * The authentication store and cross-tab events
    (src/web/src/stores/auth-store.ts, src/web/src/lib/auth-session-sync.ts)

    The store keeps the signed-in user, the access token with its expiry, the
    login session and the bootstrap phase.  A session event tells the other tabs
    that this tab signed in or out; a tab delivers an event to its listener only
    when it is well formed, recent and from another tab. *)

From Stdlib Require Import QArith Qabs.
From S2P Require Import Prelude JsString JsValue.
Local Close Scope Q_scope.

Module AuthStore.

(** A user as the server sent it; [u_object] is the whole object, with the
    optional fields the session logic does not read. *)
Record AuthUser := mkUser {
  u_id : num;
  u_username : jsstr;
  u_role : num;
  u_object : jsval
}.

Record LoginSession := mkSession {
  sid : jsstr;
  current : bool;
  login_method : jsstr;
  ip : jsstr;
  user_agent : jsstr;
  created_at : num;
  last_active_at : num;
  expires_at : num
}.

Record AuthBundle := mkBundle {
  access_token : jsstr;
  token_type : jsstr;
  access_expires_at : num;
  b_user : AuthUser;
  b_session : LoginSession
}.

Inductive AuthBootstrapState := Idle | Checking | Complete.

#[global] Instance AuthBootstrapState_eq_dec : EqDecision AuthBootstrapState.
Proof. solve_decision. Defined.

Record AuthState := mkAuth {
  user : option AuthUser;
  accessToken : option jsstr;
  accessExpiresAt : option num;
  session : option LoginSession;
  pending2FAFlowToken : option jsstr;
  bootstrapState : AuthBootstrapState
}.

Definition initialAuth : AuthState := mkAuth None None None None None Idle.

Definition setBundle (b : AuthBundle) (a : AuthState) : AuthState :=
  mkAuth (Some (b_user b)) (Some (access_token b)) (Some (access_expires_at b))
    (Some (b_session b)) None Complete.

Definition setUser (u : option AuthUser) (a : AuthState) : AuthState :=
  mkAuth u (accessToken a) (accessExpiresAt a) (session a) (pending2FAFlowToken a)
    (bootstrapState a).

Definition setPending2FAFlowToken (t : option jsstr) (a : AuthState) : AuthState :=
  mkAuth (user a) (accessToken a) (accessExpiresAt a) (session a) t (bootstrapState a).

Definition setBootstrapState (s : AuthBootstrapState) (a : AuthState) : AuthState :=
  mkAuth (user a) (accessToken a) (accessExpiresAt a) (session a) (pending2FAFlowToken a) s.

Definition reset (s : option AuthBootstrapState) (a : AuthState) : AuthState :=
  mkAuth None None None None None (default Complete s).

(** ** Validation of what the server sends *)

Definition isRecord (v : jsval) : bool := truthy v && is_object v.

Definition isAuthUser (v : jsval) : bool :=
  isRecord v && num_isInteger (num_field "id" v) && num_ltb (num_of_Z 0) (num_field "id" v)
  && is_string (prop "username" v) && is_number (prop "role" v).

Definition isLoginSession (v : jsval) : bool :=
  isRecord v && is_string (prop "sid" v) && str_true (str_field "sid" v)
  && is_boolean (prop "current" v) && is_string (prop "login_method" v)
  && is_string (prop "ip" v) && is_string (prop "user_agent" v)
  && is_number (prop "created_at" v) && is_number (prop "last_active_at" v)
  && is_number (prop "expires_at" v).

Definition hasValidTokenFields (v : jsval) : bool :=
  is_string (prop "access_token" v) && str_true (str_field "access_token" v)
  && is_string (prop "token_type" v) && str_true (str_field "token_type" v)
  && is_number (prop "access_expires_at" v)
  && num_isFinite (num_field "access_expires_at" v)
  && num_ltb (num_of_Z 0) (num_field "access_expires_at" v).

Definition isAuthBundle (v : jsval) : bool :=
  isRecord v && hasValidTokenFields v && isAuthUser (prop "user" v)
  && isLoginSession (prop "session" v).

(** The fields of a value that passed the test, read where the program reads
    them. *)
Definition user_of (v : jsval) : AuthUser :=
  mkUser (num_field "id" v) (str_field "username" v) (num_field "role" v) v.

Definition session_of (v : jsval) : LoginSession :=
  mkSession (str_field "sid" v) (bool_field "current" v) (str_field "login_method" v)
    (str_field "ip" v) (str_field "user_agent" v) (num_field "created_at" v)
    (num_field "last_active_at" v) (num_field "expires_at" v).

Definition bundle_of (v : jsval) : AuthBundle :=
  mkBundle (str_field "access_token" v) (str_field "token_type" v)
    (num_field "access_expires_at" v) (user_of (prop "user" v)) (session_of (prop "session" v)).

Definition parseBundle (v : jsval) : option AuthBundle :=
  if isAuthBundle v then Some (bundle_of v) else None.

(** What the tests guarantee of a bundle. *)
Definition valid_token (t : jsstr) (e : num) : Prop :=
  t ≠ [] ∧ num_isFinite e = true ∧ num_ltb (num_of_Z 0) e = true.

Definition valid_bundle (b : AuthBundle) : Prop :=
  valid_token (access_token b) (access_expires_at b) ∧ sid (b_session b) ≠ [].

Lemma parseBundle_valid v b : parseBundle v = Some b → valid_bundle b.
Proof.
  unfold parseBundle. destruct (isAuthBundle v) eqn:E; [|done]. intros [= <-].
  unfold isAuthBundle, hasValidTokenFields, isLoginSession in E. bsplit.
  repeat split; simpl; try done; by apply str_true_spec.
Qed.

(** ** Store invariant: token, expiry and session come and go together *)

Definition auth_wf (a : AuthState) : Prop :=
  match accessToken a, accessExpiresAt a, session a with
  | Some t, Some e, Some s => valid_token t e ∧ sid s ≠ []
  | None, None, None => True
  | _, _, _ => False
  end.

(** Token, expiry and session are all present or all absent. *)
Definition auth_together (a : AuthState) : Prop :=
  match accessToken a, accessExpiresAt a, session a with
  | Some _, Some _, Some _ | None, None, None => True
  | _, _, _ => False
  end.

(** What the store keeps: its parts together and, where the bundles that were
    installed are known to be [checked], well formed. *)
Definition auth_ok (checked : Prop) (a : AuthState) : Prop :=
  auth_together a ∧ (checked → auth_wf a).

Lemma initialAuth_ok c : auth_ok c initialAuth.
Proof. done. Qed.

Lemma setBundle_ok (c : Prop) b a : (c → valid_bundle b) → auth_ok c (setBundle b a).
Proof. intros H. split; [done|]. intros Hc. by destruct (H Hc). Qed.

Lemma store_reset_ok c s a : auth_ok c (reset s a).
Proof. done. Qed.

Lemma setUser_ok c u a : auth_ok c a → auth_ok c (setUser u a).
Proof. done. Qed.

Lemma setPending2FA_ok c t a : auth_ok c a → auth_ok c (setPending2FAFlowToken t a).
Proof. done. Qed.

Lemma setBootstrapState_ok c s a : auth_ok c a → auth_ok c (setBootstrapState s a).
Proof. done. Qed.

#[export] Hint Resolve parseBundle_valid setBundle_ok store_reset_ok setUser_ok setPending2FA_ok
  setBootstrapState_ok : jsdb.

(** ** Cross-tab events *)

Inductive EventKind := Authenticated | SignedOut.

#[global] Instance EventKind_eq_dec : EqDecision EventKind.
Proof. solve_decision. Defined.

Record AuthSessionSyncEvent := mkEvent {
  e_kind : EventKind;
  e_sid : jsstr;
  e_source : jsstr;
  e_nonce : jsstr;
  e_timestamp : Z
}.

Definition kind_text (k : EventKind) : jsstr :=
  match k with Authenticated => js "authenticated" | SignedOut => js "signed_out" end.

(** The structured clone another tab receives. *)
Definition event_value (e : AuthSessionSyncEvent) : jsval :=
  JObj [(js "kind", JStr (kind_text (e_kind e))); (js "sid", JStr (e_sid e));
        (js "source", JStr (e_source e)); (js "nonce", JStr (e_nonce e));
        (js "timestamp", JNum (num_of_Z (e_timestamp e)))].

Definition isAuthSessionSyncEvent (v : jsval) : bool :=
  isRecord v
  && (is_str (js "authenticated") (prop "kind" v) || is_str (js "signed_out") (prop "kind" v))
  && is_string (prop "sid" v) && str_true (str_field "sid" v)
  && is_string (prop "source" v) && is_string (prop "nonce" v)
  && is_number (prop "timestamp" v).

(** [publishAuthSessionEvent] in a page with [BroadcastChannel]: the posted
    event, none for an empty session identifier. *)
Definition publishAuthSessionEvent (source nonce : jsstr) (now : Z) (k : EventKind) (s : jsstr) :
    option AuthSessionSyncEvent :=
  if str_true s then Some (mkEvent k s source nonce now) else None.

(** [Math.abs(Date.now() - value.timestamp) < 60_000] *)
Definition recent (now : Z) (t : num) : bool :=
  match t with
  | Fin q => num_ltb (Fin (Qabs (inject_Z now - q)%Q)) (num_of_Z 60000)
  | _ => false
  end.

(** [deliver]: whether the listener is called on a received value. *)
Definition deliver (own_source : jsstr) (now : Z) (v : jsval) : bool :=
  isAuthSessionSyncEvent v
  && negb (is_str own_source (prop "source" v))
  && recent now (num_field "timestamp" v).

End AuthStore.
