(* ===== verification/AuthSession.v ===== *)
(** * The authentication session (src/web/src/lib/auth-session.ts)

    [applyAuthBundle], [applyAuthRotation] and [clearAuthentication] change the
    store and advance the authentication epoch.  A refresh is an asynchronous
    conversation with the server: it asks for a new bundle, waits and retries on
    a refresh race, retries once without a session on a session mismatch, and is
    abandoned when the epoch moved under it.

    The runner is written against the interface of its runtime ([Runtime]), as
    in the source.  Each [await] is a state of [Thread]; [resume] runs from one
    await to the next, so that any other operation of the page may happen in
    between.  [System] composes the page with the one refresh in flight. *)

From S2P Require Import Prelude JsString JsValue AuthStore.

Module AuthSession.
Import AuthStore.

(** ** The refresh runner *)

Inductive TransientError :=
| Superseded
| Cause (v : jsval).

Inductive RefreshOutcome :=
| OAuthenticated (b : AuthBundle)
| OAnonymous
| OTransientError (e : TransientError)
| OOutOfSync (code : option jsstr).

Record AuthRefreshHTTPResponse := mkResponse {
  status : Z;
  data : jsval;
  error : jsval
}.

(** What the runner asks of its environment, over a state of type [W]. *)
Record Runtime (W : Type) := mkRuntime {
  getExpectedSID : W → option jsstr;
  rt_parseBundle : jsval → option AuthBundle;
  acceptBundle : AuthBundle → W → W;
  clear : bool → option AuthBootstrapState → W → W;
  markTransient : W → W;
  isCurrent : option (W → bool)
}.
Arguments getExpectedSID {W}.
Arguments rt_parseBundle {W}.
Arguments acceptBundle {W}.
Arguments clear {W}.
Arguments markTransient {W}.
Arguments isCurrent {W}.

(** What the HTTP client reports of the refresh request. *)
Inductive ClientResult :=
| Answered (httpStatus : Z) (body : jsval)
| ClientError (answer : option (Z * jsval)) (e : jsval)
| OtherError (e : jsval).

(** [requestRefresh]: the response the runner sees. *)
Definition requestRefresh (c : ClientResult) : AuthRefreshHTTPResponse :=
  match c with
  | Answered st body => mkResponse st body JUndef
  | OtherError e => mkResponse 0 JUndef e
  | ClientError (Some (st, body)) e => mkResponse st body e
  | ClientError None e => mkResponse 0 JUndef e
  end.

(** The header that names the expected session. *)
Definition requestHeaders (expectedSID : option jsstr) : list (jsstr * jsstr) :=
  match expectedSID with
  | Some i => if str_true i then [(js "X-Auth-Session", i)] else []
  | None => []
  end.

Definition refreshRaceDelays : list Z := [80; 200; 500]%Z.

(** Where a refresh waits: for the browser lock, for the response to the request
    of attempt [race], for the delay before the next attempt, or done. *)
Inductive Thread :=
| TLock
| TRequest (race : nat) (allowMismatchRetry : bool) (expectedSID : option jsstr)
| TWait (delay : Z) (race : nat) (allowMismatchRetry : bool)
| TDone (o : RefreshOutcome).

Inductive Event :=
| ELockGranted
| EResponse (r : AuthRefreshHTTPResponse)
| ETimer.

Section Runner.
Context {W : Type} (rt : Runtime W).

Definition stillCurrent (w : W) : bool :=
  match isCurrent rt with Some f => f w | None => true end.

Definition superseded : RefreshOutcome := OTransientError Superseded.

(** [run] up to its request. *)
Definition run (race : nat) (allow : bool) (w : W) : Thread :=
  if stillCurrent w then TRequest race allow (getExpectedSID rt w) else TDone superseded.

Definition responseCode (r : AuthRefreshHTTPResponse) : option jsstr :=
  match prop "code" (data r) with JStr c => Some c | _ => None end.

(** [response.error ?? response.data] *)
Definition errorValue (r : AuthRefreshHTTPResponse) : jsval :=
  match error r with JUndef | JNull => data r | e => e end.

(** [run] after a response that carries no bundle. *)
Definition afterRefusal (race : nat) (allow : bool) (r : AuthRefreshHTTPResponse) (w : W) :
    Thread * W :=
  let code := responseCode r in
  if (status r =? 409)%Z && bool_decide (code = Some (js "AUTH_REFRESH_RACE")) then
    match refreshRaceDelays !! race with
    | Some delay => (TWait delay race allow, w)
    | None => (TDone (OOutOfSync code), clear rt false None w)
    end
  else if (status r =? 409)%Z && bool_decide (code = Some (js "AUTH_SESSION_MISMATCH")) then
    if allow then
      let w' := clear rt false (Some Idle) w in (run 0 false w', w')
    else (TDone (OOutOfSync code), clear rt false None w)
  else if (status r =? 401)%Z then (TDone OAnonymous, clear rt true None w)
  else if (status r =? 0)%Z || (500 <=? status r)%Z || (status r =? 429)%Z then
    (TDone (OTransientError (Cause (errorValue r))), markTransient rt w)
  else
    (TDone (OOutOfSync (Some (default (js "AUTH_INVALID_REFRESH_RESPONSE") code))),
     clear rt false None w).

(** The bundle of a successful response. *)
Definition responseBundle (r : AuthRefreshHTTPResponse) : option AuthBundle :=
  if is_true (prop "success" (data r)) then rt_parseBundle rt (prop "data" (data r)) else None.

(** [run] from the response on: the next await and the changed state. *)
Definition afterResponse (race : nat) (allow : bool) (r : AuthRefreshHTTPResponse) (w : W) :
    Thread * W :=
  if stillCurrent w then
    match responseBundle r with
    | Some b => (TDone (OAuthenticated b), acceptBundle rt b w)
    | None => afterRefusal race allow r w
    end
  else (TDone superseded, w).

(** The continuation of an await; an event the refresh does not wait for changes
    nothing. *)
Definition resume (e : Event) (t : Thread) (w : W) : Thread * W :=
  match t, e with
  | TLock, ELockGranted => (run 0 true w, w)
  | TRequest race allow _, EResponse r => afterResponse race allow r w
  | TWait _ race allow, ETimer => (run (S race) allow w, w)
  | _, _ => (t, w)
  end.

(** The event the refresh waits for. *)
Definition expected (e : Event) (t : Thread) : bool :=
  match t, e with
  | TLock, ELockGranted | TRequest _ _ _, EResponse _ | TWait _ _ _, ETimer => true
  | _, _ => false
  end.

(** A conversation: events of this refresh, and changes other parts of the page
    make to the state between them. *)
Inductive Turn :=
| Mine (e : Event)
| Others (f : W → W).

Definition turn (x : Turn) (tw : Thread * W) : Thread * W :=
  match x with
  | Mine e => resume e tw.1 tw.2
  | Others f => (tw.1, f tw.2)
  end.

Definition conversation (xs : list Turn) (tw : Thread * W) : Thread * W :=
  foldl (fun tw x => turn x tw) tw xs.

(** The requests sent along a conversation: turns after which the refresh waits
    for a response it did not wait for before. *)
Definition sends (x : Turn) (tw : Thread * W) : nat :=
  match x with
  | Mine e => if expected e tw.1
              then match (resume e tw.1 tw.2).1 with TRequest _ _ _ => 1 | _ => 0 end
              else 0
  | Others _ => 0
  end.

Fixpoint requests (xs : list Turn) (tw : Thread * W) : nat :=
  match xs with
  | [] => 0
  | x :: xs' => sends x tw + requests xs' (turn x tw)
  end.

(** How many requests a refresh may still send. *)
Definition budget (t : Thread) : nat :=
  match t with
  | TLock => 8
  | TRequest race allow _ => (3 - race) + (if allow then 4 else 0)
  | TWait _ race allow => (3 - race) + (if allow then 4 else 0)
  | TDone _ => 0
  end.

(** How many of its own events it may still consume. *)
Definition rounds (t : Thread) : nat :=
  match t with
  | TLock => 16
  | TRequest race allow _ => 2 * (3 - race) + 1 + (if allow then 8 else 0)
  | TWait _ race allow => 2 * (3 - race) + (if allow then 8 else 0)
  | TDone _ => 0
  end.

(** A wait is only entered when another attempt is left. *)
Definition thread_ok (t : Thread) : Prop :=
  match t with TWait _ race _ => race < 3 | _ => True end.

Lemma run_cases race allow w :
  run race allow w = TDone superseded ∨
  run race allow w = TRequest race allow (getExpectedSID rt w) ∧ stillCurrent w = true.
Proof. unfold run. destruct (stillCurrent w); auto. Qed.

Lemma refreshRaceDelays_lt race d : refreshRaceDelays !! race = Some d → race < 3.
Proof. intros H%lookup_lt_Some. done. Qed.

(** The shape of every answer to a response. *)
Lemma afterResponse_cases race allow r w t w' :
  afterResponse race allow r w = (t, w') →
  (∃ o, t = TDone o) ∨
  (∃ d, t = TWait d race allow ∧ race < 3 ∧ w' = w) ∨
  (allow = true ∧ w' = clear rt false (Some Idle) w ∧ t = run 0 false w').
Proof.
  unfold afterResponse, afterRefusal. intros H.
  destruct (stillCurrent w); [|simplify_eq; eauto].
  destruct (responseBundle r); [simplify_eq; eauto|].
  case_if_in H; [destruct (_ !! _) eqn:E; simplify_eq; [|by eauto]; right; left; by eauto using refreshRaceDelays_lt|].
  case_if_in H; [destruct allow; simplify_eq; [by right; right|by eauto]|].
  case_if_in H; [simplify_eq; by eauto|].
  case_if_in H; simplify_eq; by eauto.
Qed.

Ltac resume_cases H :=
  simpl in H; first [injection H as <- <- | idtac];
  repeat match goal with
  | H : afterResponse _ _ _ _ = _ |- _ =>
      apply afterResponse_cases in H as [[? ->]|[(? & -> & ? & ->)|(-> & -> & ->)]]
  | |- context [run ?r ?a ?w] =>
      destruct (run_cases r a w) as [-> | [-> ?]]
  end; simpl; try done; try lia.

Lemma resume_ok e t w t' w' :
  thread_ok t → resume e t w = (t', w') → thread_ok t'.
Proof. intros Hok H. destruct t, e; resume_cases H. Qed.

Lemma resume_rounds e t w t' w' :
  thread_ok t → expected e t = true → resume e t w = (t', w') →
  rounds t' < rounds t ∧ budget t' + sends (Mine e) (t, w) <= budget t.
Proof.
  intros Hok He H. unfold sends. cbn [fst snd]. rewrite He, H. cbn [fst].
  destruct t, e; simpl in He; try done; resume_cases H;
    destruct allowMismatchRetry; simpl in *; lia.
Qed.

Lemma resume_unexpected e t w : expected e t = false → resume e t w = (t, w).
Proof. by destruct t, e. Qed.

Lemma turn_budget x t w :
  thread_ok t →
  thread_ok (turn x (t, w)).1 ∧ budget (turn x (t, w)).1 + sends x (t, w) <= budget t.
Proof.
  intros Hok. destruct x as [e|f]; [|simpl; split; [done|lia]].
  unfold turn. cbn [fst snd]. destruct (resume e t w) as [t' w'] eqn:E. cbn [fst].
  split; [by eapply resume_ok|].
  destruct (expected e t) eqn:He; [by eapply resume_rounds|].
  rewrite (resume_unexpected e t w He) in E. simplify_eq. simpl. rewrite He. lia.
Qed.

Lemma requests_budget xs t w : thread_ok t → requests xs (t, w) <= budget t.
Proof.
  revert t w. induction xs as [|x xs IH]; intros t w Hok; simpl; [lia|].
  destruct (turn_budget x t w Hok) as [Hok' Hb].
  destruct (turn x (t, w)) as [t' w'] eqn:E. specialize (IH t' w' Hok'). simpl in *. lia.
Qed.
End Runner.

(** ** The page: store, epoch, posted events *)

Record World := mkWorld {
  auth : AuthState;
  authEpoch : Z;
  published : list (EventKind * jsstr);
  queryClears : nat
}.

Definition initialWorld : World := mkWorld initialAuth 0 [] 0.

Definition set_auth (f : AuthState → AuthState) (w : World) : World :=
  mkWorld (f (auth w)) (authEpoch w) (published w) (queryClears w).

Definition bump (w : World) : World :=
  mkWorld (auth w) (authEpoch w + 1) (published w) (queryClears w).

(** [publishAuthSessionEvent]: nothing is posted for an empty identifier. *)
Definition publish (k : EventKind) (s : jsstr) (w : World) : World :=
  if str_true s
  then mkWorld (auth w) (authEpoch w) (published w ++ [(k, s)]) (queryClears w)
  else w.

Definition currentSID (w : World) : option jsstr := sid <$> session (auth w).

Definition applyAuthBundle (b : AuthBundle) (synchronizeTabs : bool) (w : World) : World :=
  let previousSID := currentSID w in
  let w' := set_auth (setBundle b) (bump w) in
  if synchronizeTabs && negb (bool_decide (previousSID = Some (sid (b_session b))))
  then publish Authenticated (sid (b_session b)) w'
  else w'.

Definition clearAuthentication (synchronizeTabs : bool) (s : option AuthBootstrapState) (w : World) :
    World :=
  let w' := set_auth (reset s) (bump w) in
  match currentSID w with
  | Some i => if synchronizeTabs && str_true i then publish SignedOut i w' else w'
  | None => w'
  end.

Arguments applyAuthBundle : simpl never.
Arguments clearAuthentication : simpl never.

Definition clearAuthenticatedClientState (synchronizeTabs : bool) (w : World) : World :=
  clearAuthentication synchronizeTabs None
    (mkWorld (auth w) (authEpoch w) (published w) (S (queryClears w))).

Inductive AuthRotationError := InvalidRotationResponse | NoActiveSession | SessionMismatch.

Definition isAuthTokenRotation (v : jsval) : bool :=
  isRecord v && hasValidTokenFields v && is_str (js "Bearer") (prop "token_type" v)
  && isLoginSession (prop "session" v) && bool_field "current" (prop "session" v).

(** The new world, or the exception thrown. *)
Definition applyAuthRotation (v : jsval) (w : World) : AuthRotationError + World :=
  if isAuthTokenRotation v then
    match user (auth w), session (auth w) with
    | Some u, Some s =>
        if bool_decide (sid (session_of (prop "session" v)) = sid s)
        then inr (applyAuthBundle
                    (mkBundle (str_field "access_token" v) (str_field "token_type" v)
                       (num_field "access_expires_at" v) u (session_of (prop "session" v)))
                    false w)
        else inl SessionMismatch
    | _, _ => inl NoActiveSession
    end
  else inl InvalidRotationResponse.

(** The runtime [runRefresh] gives the runner, for a refresh started at [epoch]. *)
Definition runRefresh (epoch : Z) : Runtime World := {|
  getExpectedSID := currentSID;
  rt_parseBundle := parseBundle;
  acceptBundle := fun b => applyAuthBundle b false;
  clear := fun synchronizeTabs s w =>
    if negb synchronizeTabs && bool_decide (s = Some Idle)
    then set_auth (reset (Some Idle)) w
    else clearAuthentication synchronizeTabs s w;
  markTransient := set_auth (setBootstrapState Idle);
  isCurrent := Some (fun w => (authEpoch w =? epoch)%Z)
|}.

(** The page with the refresh in flight, tagged with its epoch. *)
Record System := mkSystem {
  world : World;
  refreshPromise : option (Z * Thread)
}.

(** [navigator.locks]: absent, present, or throwing when asked for the lock. *)
Inductive LockManager := LocksAbsent | LocksPresent | LocksThrow (e : jsval).

(** Up to the first await of the refresh. *)
Definition performRefreshWithBrowserLock (locks : LockManager) (epoch : Z) (w : World) :
    Thread * World :=
  match locks with
  | LocksAbsent => (run (runRefresh epoch) 0 true w, w)
  | LocksPresent => (TLock, w)
  | LocksThrow e => (TDone (OTransientError (Cause e)), set_auth (setBootstrapState Idle) w)
  end.

(** [refreshAuthentication]: one refresh at a time. *)
Definition refreshAuthentication (locks : LockManager) (s : System) : System :=
  match refreshPromise s with
  | Some _ => s
  | None =>
      let epoch := authEpoch (world s) in
      let '(t, w) := performRefreshWithBrowserLock locks epoch (world s) in
      mkSystem w (Some (epoch, t))
  end.

(** An event for the refresh in flight. *)
Definition refreshEvent (e : Event) (s : System) : System :=
  match refreshPromise s with
  | Some (epoch, t) =>
      let '(t', w') := resume (runRefresh epoch) e t (world s) in
      mkSystem w' (Some (epoch, t'))
  | None => s
  end.

(** [.finally(() => { refreshPromise = null })] *)
Definition refreshSettled (s : System) : System :=
  match refreshPromise s with
  | Some (_, TDone _) => mkSystem (world s) None
  | _ => s
  end.

(** [Math.floor(Date.now() / 1000)] *)
Definition nowSeconds (now : Z) : Z := (now / 1000)%Z.

Definition currentValidAuthBundle (now : Z) (w : World) : option AuthBundle :=
  match user (auth w), accessToken (auth w), accessExpiresAt (auth w), session (auth w) with
  | Some u, Some t, Some e, Some s =>
      if str_true t && num_true e && negb (num_leb e (num_of_Z (nowSeconds now)))
      then Some (mkBundle t (js "Bearer") e u s) else None
  | _, _, _, _ => None
  end.

(** The immediate outcome of [bootstrapAuthentication]; [None] when the outcome
    is that of the refresh it joins or starts. *)
Definition bootstrapAuthentication (locks : LockManager) (now : Z) (s : System) :
    option RefreshOutcome * System :=
  let a := auth (world s) in
  match currentValidAuthBundle now (world s) with
  | Some b =>
      (Some (OAuthenticated b),
       mkSystem (set_auth (setBootstrapState Complete) (world s)) (refreshPromise s))
  | None =>
      let hasStaleSession := match user a, session a with Some _, Some _ => true | _, _ => false end in
      if bool_decide (bootstrapState a = Complete) && negb hasStaleSession
      then (Some OAnonymous, s)
      else (None, refreshAuthentication locks
                    (mkSystem (set_auth (setBootstrapState Checking) (world s)) (refreshPromise s)))
  end.

Definition getCommonHeaders (w : World) : list (jsstr * jsstr) :=
  (js "Content-Type", js "application/json") ::
  match accessToken (auth w) with
  | Some t => if str_true t then [(js "Authorization", js "Bearer " ++ t)] else []
  | None => []
  end.

(** The stored token is present and expires after [limit]. *)
Definition tokenOutlives (limit : Z) (w : World) : bool :=
  match accessToken (auth w), accessExpiresAt (auth w) with
  | Some t, Some e => str_true t && num_true e && num_ltb (num_of_Z limit) e
  | _, _ => false
  end.

Inductive FreshHeadersError := RequestFailed (cause : TransientError) | SessionExpired.

(** [getFreshAuthHeaders] before its await: the headers, or [None] when it has
    to refresh first. *)
Definition getFreshAuthHeaders (now : Z) (w : World) : option (list (jsstr * jsstr)) :=
  if tokenOutlives (nowSeconds now + 60) w then Some (getCommonHeaders w) else None.

(** [getFreshAuthHeaders] after the refresh settled with [o]. *)
Definition freshHeadersAfter (o : RefreshOutcome) (now : Z) (w : World) :
    FreshHeadersError + list (jsstr * jsstr) :=
  match o with
  | OAuthenticated _ => inr (getCommonHeaders w)
  | _ =>
      if tokenOutlives (nowSeconds now) w then inr (getCommonHeaders w)
      else match o with
           | OTransientError e => inl (RequestFailed e)
           | _ => inl SessionExpired
           end
  end.

(** Everything that can happen to the page. A login installs the bundle its form
    was answered with, as [applyAuthBundle] takes it: unchecked. *)
Inductive Action :=
| ALogin (b : AuthBundle) (synchronizeTabs : bool)
| ARotate (v : jsval)
| AClear (synchronizeTabs : bool) (s : option AuthBootstrapState)
| AClearClient (synchronizeTabs : bool)
| ASetUser (u : option AuthUser)
| APending2FA (t : option jsstr)
| ABootstrap (locks : LockManager) (now : Z)
| ARefresh (locks : LockManager)
| AEvent (e : Event)
| ASettled.

Definition on_world (f : World → World) (s : System) : System :=
  mkSystem (f (world s)) (refreshPromise s).

Definition act (a : Action) (s : System) : System :=
  match a with
  | ALogin b sync => on_world (applyAuthBundle b sync) s
  | ARotate v =>
      match applyAuthRotation v (world s) with
      | inr w => mkSystem w (refreshPromise s) | inl _ => s end
  | AClear sync st => on_world (clearAuthentication sync st) s
  | AClearClient sync => on_world (clearAuthenticatedClientState sync) s
  | ASetUser u => on_world (set_auth (setUser u)) s
  | APending2FA t => on_world (set_auth (setPending2FAFlowToken t)) s
  | ABootstrap locks now => (bootstrapAuthentication locks now s).2
  | ARefresh locks => refreshAuthentication locks s
  | AEvent e => refreshEvent e s
  | ASettled => refreshSettled s
  end.

Definition initialSystem : System := mkSystem initialWorld None.

Definition acts (l : list Action) (s : System) : System := foldl (fun s a => act a s) s l.

(** ** What the runner keeps, proved against its interface *)

(** A property of the state that every operation of the runtime preserves. *)
Class RuntimeKeeps {W} (rt : Runtime W) (P : W → Prop) : Prop := {
  keeps_accept : ∀ v b w, rt_parseBundle rt v = Some b → P w → P (acceptBundle rt b w);
  keeps_clear : ∀ sync s w, P w → P (clear rt sync s w);
  keeps_transient : ∀ w, P w → P (markTransient rt w)
}.

Lemma responseBundle_parsed {W} (rt : Runtime W) r b :
  responseBundle rt r = Some b → rt_parseBundle rt (prop "data" (data r)) = Some b.
Proof. unfold responseBundle. by destruct (is_true _). Qed.

Lemma resume_keeps {W} (rt : Runtime W) P `{!RuntimeKeeps rt P} e t w t' w' :
  P w → resume rt e t w = (t', w') → P w'.
Proof.
  intros HP H. destruct t, e; simpl in H; try by simplify_eq.
  unfold afterResponse, afterRefusal in H.
  destruct (stillCurrent rt w); [|by simplify_eq].
  destruct (responseBundle rt r) eqn:Eb.
  { simplify_eq. eapply keeps_accept; [by apply responseBundle_parsed|done]. }
  case_if_in H; [by destruct (_ !! _); simplify_eq; [|apply keeps_clear]|].
  case_if_in H; [by destruct allowMismatchRetry; simplify_eq; apply keeps_clear|].
  case_if_in H; [by simplify_eq; apply keeps_clear|].
  case_if_in H; simplify_eq; [by apply keeps_transient|by apply keeps_clear].
Qed.

(** A stale refresh does nothing more. *)
Lemma resume_stale {W} (rt : Runtime W) e t w :
  stillCurrent rt w = false →
  resume rt e t w = (if expected e t then TDone superseded else t, w).
Proof. intros H. destruct t, e; simpl; unfold run, afterResponse; by rewrite ?H. Qed.

(** ** The page keeps the store well formed *)

Lemma publish_auth k s w : auth (publish k s w) = auth w ∧ authEpoch (publish k s w) = authEpoch w.
Proof. unfold publish. by destruct (str_true s). Qed.

Lemma applyAuthBundle_auth b sync w :
  auth (applyAuthBundle b sync w) = setBundle b (auth w) ∧
  authEpoch (applyAuthBundle b sync w) = (authEpoch w + 1)%Z.
Proof.
  unfold applyAuthBundle. destruct (_ && _); [|done].
  by destruct (publish_auth Authenticated (sid (b_session b)) (set_auth (setBundle b) (bump w)))
    as [-> ->].
Qed.

Lemma clearAuthentication_auth sync s w :
  auth (clearAuthentication sync s w) = reset s (auth w) ∧
  authEpoch (clearAuthentication sync s w) = (authEpoch w + 1)%Z.
Proof.
  unfold clearAuthentication. destruct (currentSID w) as [i|]; [|done].
  destruct (_ && _); [|done].
  by destruct (publish_auth SignedOut i (set_auth (reset s) (bump w))) as [-> ->].
Qed.

Lemma applyAuthRotation_inv v w w' :
  applyAuthRotation v w = inr w' →
  ∃ u s, user (auth w) = Some u ∧ session (auth w) = Some s ∧
    isAuthTokenRotation v = true ∧
    sid (session_of (prop "session" v)) = sid s ∧
    w' = applyAuthBundle (mkBundle (str_field "access_token" v) (str_field "token_type" v)
           (num_field "access_expires_at" v) u (session_of (prop "session" v))) false w.
Proof.
  unfold applyAuthRotation. destruct (isAuthTokenRotation v); [|done].
  destruct (user (auth w)) as [u|]; [|done]. destruct (session (auth w)) as [s|]; [|done].
  case_bool_decide; [|done]. intros; simplify_eq. eauto 8.
Qed.

Lemma isAuthTokenRotation_valid v u :
  isAuthTokenRotation v = true →
  valid_bundle (mkBundle (str_field "access_token" v) (str_field "token_type" v)
    (num_field "access_expires_at" v) u (session_of (prop "session" v))).
Proof.
  unfold isAuthTokenRotation, hasValidTokenFields, isLoginSession. intros H. bsplit.
  repeat split; simpl; try done; by apply str_true_spec.
Qed.

#[global] Instance runRefresh_keeps_ok epoch c :
  RuntimeKeeps (runRefresh epoch) (fun w => auth_ok c (auth w)).
Proof.
  split; cbn [acceptBundle rt_parseBundle clear markTransient runRefresh].
  - intros v b w Hb _. destruct (applyAuthBundle_auth b false w) as [-> _]. eauto with jsdb.
  - intros sync s w _. destruct (_ && _); [apply store_reset_ok|].
    destruct (clearAuthentication_auth sync s w) as [-> _]. apply store_reset_ok.
  - intros w H. by apply setBootstrapState_ok.
Qed.

(** A login with a bundle that [isAuthBundle] would accept. *)
Definition login_valid (a : Action) : Prop :=
  match a with ALogin b _ => valid_bundle b | _ => True end.

(** The page's store stays whole, and well formed as long as the logins are
    [checked]; a refresh in flight was started at an epoch that is not ahead of
    the page's. *)
Definition system_ok (c : Prop) (s : System) : Prop :=
  auth_ok c (auth (world s)) ∧
  match refreshPromise s with
  | Some (epoch, t) => (epoch <= authEpoch (world s))%Z ∧ thread_ok t
  | None => True
  end.

#[global] Instance runRefresh_keeps_epoch epoch e0 :
  RuntimeKeeps (runRefresh epoch) (fun w => (e0 <= authEpoch w)%Z).
Proof.
  split; cbn [acceptBundle rt_parseBundle clear markTransient runRefresh].
  - intros v b w _ H. destruct (applyAuthBundle_auth b false w) as [_ ->]. lia.
  - intros sync s w H. destruct (_ && _); [done|].
    destruct (clearAuthentication_auth sync s w) as [_ ->]. lia.
  - done.
Qed.

Lemma on_world_ok c f s :
  system_ok c s → auth_ok c (auth (f (world s))) →
  (authEpoch (world s) <= authEpoch (f (world s)))%Z → system_ok c (on_world f s).
Proof.
  intros [_ H2] Hwf He. split; [done|]. simpl.
  destruct (refreshPromise s) as [[epoch t]|]; [|done]. split; [lia|apply H2].
Qed.

Lemma run_ok {W} (rt : Runtime W) race allow w : thread_ok (run rt race allow w).
Proof. unfold run. by destruct (stillCurrent rt w). Qed.

Lemma refreshAuthentication_ok c locks s : system_ok c s → system_ok c (refreshAuthentication locks s).
Proof.
  intros H. unfold refreshAuthentication. destruct (refreshPromise s) eqn:E; [done|].
  destruct locks; (split; [apply H|]); simpl; (split; [lia|]); [apply run_ok|done|done].
Qed.

Lemma refreshEvent_ok c e s : system_ok c s → system_ok c (refreshEvent e s).
Proof.
  intros H. unfold refreshEvent. destruct (refreshPromise s) as [[epoch t]|] eqn:E; [|done].
  destruct H as [Hwf H]. rewrite E in H. destruct H as [He Ht].
  destruct (resume (runRefresh epoch) e t (world s)) as [t' w'] eqn:Er.
  split; [|split]; simpl.
  - by apply (resume_keeps (runRefresh epoch) (fun w => auth_ok c (auth w)) _ _ _ _ _ Hwf Er).
  - by apply (resume_keeps (runRefresh epoch) (fun w => epoch <= authEpoch w)%Z _ _ _ _ _ He Er).
  - by eapply resume_ok.
Qed.

Lemma bootstrap_ok c locks now s : system_ok c s → system_ok c (bootstrapAuthentication locks now s).2.
Proof.
  intros H. unfold bootstrapAuthentication.
  destruct (currentValidAuthBundle now (world s)).
  { by apply (on_world_ok c (set_auth (setBootstrapState Complete))); [| |simpl; lia]; apply H. }
  case_all; [done|]. apply refreshAuthentication_ok.
  by apply (on_world_ok c (set_auth (setBootstrapState Checking))); [| |simpl; lia]; apply H.
Qed.

Lemma act_ok (c : Prop) a s : (c → login_valid a) → system_ok c s → system_ok c (act a s).
Proof.
  intros Hl H. destruct a; simpl;
    eauto using refreshAuthentication_ok, refreshEvent_ok, bootstrap_ok.
  - destruct (applyAuthBundle_auth b synchronizeTabs (world s)) as [Ea Ee].
    apply on_world_ok; rewrite ?Ea, ?Ee; eauto with jsdb; lia.
  - destruct (applyAuthRotation v (world s)) as [|w] eqn:Er; [done|].
    apply applyAuthRotation_inv in Er as (u & ss & _ & _ & Hv & _ & ->).
    destruct (applyAuthBundle_auth (mkBundle (str_field "access_token" v)
      (str_field "token_type" v) (num_field "access_expires_at" v) u
      (session_of (prop "session" v))) false (world s)) as [Ea Ee].
    apply (on_world_ok c (applyAuthBundle _ _)); rewrite ?Ea, ?Ee; [done| |lia].
    apply setBundle_ok. intros _. by apply isAuthTokenRotation_valid.
  - destruct (clearAuthentication_auth synchronizeTabs s0 (world s)) as [Ea Ee].
    apply on_world_ok; rewrite ?Ea, ?Ee; [done|apply store_reset_ok|lia].
  - unfold clearAuthenticatedClientState.
    destruct (clearAuthentication_auth synchronizeTabs None
      (mkWorld (auth (world s)) (authEpoch (world s)) (published (world s))
         (S (queryClears (world s))))) as [Ea Ee].
    apply on_world_ok; rewrite ?Ea, ?Ee; [done|apply store_reset_ok|simpl; lia].
  - unfold refreshSettled. destruct (refreshPromise s) as [[? []]|] eqn:E; try done.
    split; [apply H|done].
Qed.

Lemma acts_ok (c : Prop) l s :
  (c → Forall login_valid l) → system_ok c s → system_ok c (acts l s).
Proof.
  unfold acts. revert s. induction l as [|a l IH]; intros s Hl H; simpl; [done|].
  apply IH; [intros Hc; by destruct (Forall_cons_1 _ _ _ (Hl Hc))|].
  apply act_ok; [intros Hc; by destruct (Forall_cons_1 _ _ _ (Hl Hc))|done].
Qed.

Lemma initialSystem_ok c : system_ok c initialSystem.
Proof. done. Qed.

Lemma clear_silent s w : published (clearAuthentication false s w) = published w.
Proof. unfold clearAuthentication. by destruct (currentSID w). Qed.

(** The only event a refused refresh posts is the sign-out of its session. *)
Lemma afterRefusal_published epoch race allow r w t' w' :
  afterRefusal (runRefresh epoch) race allow r w = (t', w') →
  published w' = published w ∨
  ∃ i, currentSID w = Some i ∧ published w' = published w ++ [(SignedOut, i)] ∧
       t' = TDone OAnonymous ∧ currentSID w' = None.
Proof.
  unfold afterRefusal. intros H.
  case_if_in H; [destruct (_ !! _); simplify_eq; left; [done|apply clear_silent]|].
  case_if_in H; [destruct allow; simplify_eq; left; [done|apply clear_silent]|].
  case_if_in H; [|case_if_in H; simplify_eq; left; [done|apply clear_silent]].
  simplify_eq. simpl. unfold clearAuthentication.
  destruct (currentSID w) as [i|] eqn:Ei; [|by left]. simpl.
  destruct (str_true i) eqn:Et; [|by left]. right. exists i.
  unfold publish. rewrite Et. done.
Qed.

(** ** Properties *)

(** C1. Store invariant. Whatever sequence of logins, rotations, sign-outs, user
    updates, bootstraps, refreshes and server answers happens, the access token,
    its expiry and the session are all present or all absent, also when a login
    installs a bundle (of the declared type) that nothing checked. When every
    login's bundle is one that [isAuthBundle] accepts, the token and the session
    identifier are moreover non-empty and the expiry finite and positive;
    rotations and refreshes check theirs and need no assumption. *)
Theorem auth_store_invariant l :
  let a := auth (world (acts l initialSystem)) in
  auth_together a ∧ (Forall login_valid l → auth_wf a).
Proof. apply (acts_ok (Forall login_valid l) l); [done|apply initialSystem_ok]. Qed.

(** A refresh whose epoch was left behind is inert: no answer, timer or lock
    grant it receives changes the page, and the event it was waiting for ends it
    as superseded. *)
Theorem stale_refresh_inert s epoch t e :
  refreshPromise s = Some (epoch, t) →
  authEpoch (world s) ≠ epoch →
  refreshEvent e s =
    mkSystem (world s) (Some (epoch, if expected e t then TDone superseded else t)).
Proof.
  intros Hp He. unfold refreshEvent. rewrite Hp, resume_stale; [done|].
  unfold stillCurrent. simpl. by apply Z.eqb_neq.
Qed.

Definition sample_session : jsval :=
  JObj [(js "sid", JStr (js "s1")); (js "current", JBool true);
        (js "login_method", JStr (js "password")); (js "ip", JStr (js "::1"));
        (js "user_agent", JStr (js "ua")); (js "created_at", JNum (num_of_Z 1));
        (js "last_active_at", JNum (num_of_Z 1)); (js "expires_at", JNum (num_of_Z 9000))].

Definition sample_bundle : jsval :=
  JObj [(js "access_token", JStr (js "tok")); (js "token_type", JStr (js "Bearer"));
        (js "access_expires_at", JNum (num_of_Z 5000));
        (js "user", JObj [(js "id", JNum (num_of_Z 7)); (js "username", JStr (js "ann"));
                          (js "role", JNum (num_of_Z 1))]);
        (js "session", sample_session)].

Definition sample_ok : AuthRefreshHTTPResponse :=
  mkResponse 200 (JObj [(js "success", JBool true); (js "data", sample_bundle)]) JUndef.

Definition sample_conflict (c : string) : AuthRefreshHTTPResponse :=
  mkResponse 409 (JObj [(js "success", JBool false); (js "code", JStr (js c))]) JUndef.

Lemma auth_store_invariant_witness :
  auth_wf (auth (world (acts [ALogin (bundle_of sample_bundle) true; ARefresh LocksAbsent;
    AEvent (EResponse sample_ok); ASettled] initialSystem))).
Proof.
  apply (auth_store_invariant [ALogin (bundle_of sample_bundle) true; ARefresh LocksAbsent;
    AEvent (EResponse sample_ok); ASettled]).
  repeat constructor; apply (parseBundle_valid sample_bundle); by vm_compute.
Defined.

(** Signing in while a refresh waits for its answer. *)
Definition sample_overtaken : System :=
  acts [ARefresh LocksAbsent; ALogin (bundle_of sample_bundle) true] initialSystem.

Lemma stale_refresh_inert_witness :
  refreshEvent (EResponse sample_ok) sample_overtaken =
  mkSystem (world sample_overtaken) (Some (0%Z, TDone superseded)).
Proof.
  apply (stale_refresh_inert sample_overtaken 0 (TRequest 0 true None)); by vm_compute.
Defined.

(** The actions of a page that is left alone: the server and the timers speak,
    nobody signs in or starts a refresh. *)
Definition quiet (a : Action) : bool :=
  match a with AEvent _ | ASettled | ASetUser _ | APending2FA _ => true | _ => false end.

Definition signed_out (s : System) : Prop :=
  accessToken (auth (world s)) = None ∧ session (auth (world s)) = None ∧
  match refreshPromise s with
  | Some (epoch, _) => authEpoch (world s) ≠ epoch | None => True end.

Lemma quiet_signed_out a s : quiet a = true → signed_out s → signed_out (act a s).
Proof.
  intros Hq (Ht & Hs & Hp). destruct a; try done; simpl.
  - destruct (refreshPromise s) as [[epoch t]|] eqn:E.
    + unfold refreshEvent. rewrite E, resume_stale; [done|]. by apply Z.eqb_neq.
    + unfold refreshEvent. rewrite E. unfold signed_out. by rewrite E.
  - unfold refreshSettled, signed_out.
    destruct (refreshPromise s) as [[epoch []]|] eqn:E; simpl; rewrite ?E; done.
Qed.

(** C2. A sign-out is not undone by a refresh that was in flight: from any
    reachable page, after [clearAuthentication] the token and the session stay
    absent through every later answer, timer and lock grant of that refresh. *)
Theorem sign_out_not_undone before sync st l :
  forallb quiet l = true →
  let s := acts l (act (AClear sync st) (acts before initialSystem)) in
  accessToken (auth (world s)) = None ∧ session (auth (world s)) = None.
Proof.
  intros Hl s. enough (signed_out s) as (? & ? & _) by done. subst s.
  assert (signed_out (act (AClear sync st) (acts before initialSystem))) as H0.
  { destruct (acts_ok False before initialSystem) as [_ Hp]; [done|apply initialSystem_ok|].
    destruct (clearAuthentication_auth sync st (world (acts before initialSystem))) as [Ea Ee].
    unfold signed_out. simpl. rewrite Ea, Ee. split; [done|]. split; [done|].
    destruct (refreshPromise _) as [[epoch t]|]; [|done]. destruct Hp. lia. }
  revert Hl H0. generalize (act (AClear sync st) (acts before initialSystem)).
  unfold acts. induction l as [|a l IH]; intros s Hl H0; simpl in *; [done|].
  apply andb_true_iff in Hl as [Ha Hl]. apply IH; [done|]. by apply quiet_signed_out.
Qed.

Lemma sign_out_not_undone_witness :
  refreshPromise (acts [ALogin (bundle_of sample_bundle) true; ARefresh LocksAbsent] initialSystem)
    = Some (1%Z, TRequest 0 true (Some (js "s1"))) ∧
  accessToken (auth (world
    (acts [AEvent (EResponse sample_ok); ASettled]
       (act (AClear true None) (acts [ALogin (bundle_of sample_bundle) true; ARefresh LocksAbsent] initialSystem)))))
    = None.
Proof.
  split; [by vm_compute|].
  apply (sign_out_not_undone [ALogin (bundle_of sample_bundle) true; ARefresh LocksAbsent] true None
           [AEvent (EResponse sample_ok); ASettled]). by vm_compute.
Defined.

(** The events of its own a refresh consumes along a conversation. *)
Fixpoint consumed {W} (rt : Runtime W) (xs : list (Turn (W := W))) (tw : Thread * W) : nat :=
  match xs with
  | [] => 0
  | x :: xs' =>
      match x with Mine e => if expected e tw.1 then 1 else 0 | Others _ => 0 end
      + consumed rt xs' (turn rt x tw)
  end.

Lemma consumed_rounds {W} (rt : Runtime W) xs t w :
  thread_ok t → consumed rt xs (t, w) <= rounds t.
Proof.
  revert t w. induction xs as [|x xs IH]; intros t w Hok; [simpl; lia|].
  destruct x as [e|f]; [|simpl; by apply IH].
  cbn [consumed turn fst snd]. destruct (resume rt e t w) as [t' w'] eqn:E.
  specialize (IH t' w' (resume_ok _ _ _ _ _ _ Hok E)).
  destruct (expected e t) eqn:He.
  - destruct (resume_rounds _ _ _ _ _ _ Hok He E) as [Hr _]. lia.
  - rewrite (resume_unexpected _ _ _ _ He) in E. by simplify_eq.
Qed.

(** C3. A refresh ends: over any runtime, whatever the server answers and whatever
    the page does meanwhile, it sends at most eight requests and consumes at most
    sixteen of its own events (four race attempts before a session mismatch and
    four after it, with a wait between attempts). *)
Theorem refresh_bounded {W} (rt : Runtime W) xs w :
  requests rt xs (TLock, w) <= 8 ∧ consumed rt xs (TLock, w) <= 16.
Proof. split; [by apply (requests_budget rt xs TLock)|by apply (consumed_rounds rt xs TLock)]. Qed.

(** The bounds are reached. *)
Example refresh_bound_reached :
  let race := Mine (EResponse (sample_conflict "AUTH_REFRESH_RACE")) in
  let xs := [Mine ELockGranted; race; Mine ETimer; race; Mine ETimer; race; Mine ETimer;
             Mine (EResponse (sample_conflict "AUTH_SESSION_MISMATCH"));
             race; Mine ETimer; race; Mine ETimer; race; Mine ETimer; race] in
  requests (runRefresh 0) xs (TLock, initialWorld) = 8 ∧
  (conversation (runRefresh 0) xs (TLock, initialWorld)).1
    = TDone (OOutOfSync (Some (js "AUTH_REFRESH_RACE"))).
Proof. by vm_compute. Qed.

(** A successful refresh of the current epoch installs the bundle it received:
    user, token, expiry and session are those of the response, the pending
    two-factor flow is dropped, the epoch advances and no tab is notified. *)
Theorem refresh_success epoch race allow r b w :
  authEpoch w = epoch →
  responseBundle (runRefresh epoch) r = Some b →
  afterResponse (runRefresh epoch) race allow r w =
    (TDone (OAuthenticated b),
     mkWorld (mkAuth (Some (b_user b)) (Some (access_token b)) (Some (access_expires_at b))
                (Some (b_session b)) None Complete)
       (epoch + 1) (published w) (queryClears w)) ∧ valid_bundle b.
Proof.
  intros <- Hb. unfold afterResponse, stillCurrent. simpl. rewrite Z.eqb_refl, Hb.
  split; [done|].
  by apply (parseBundle_valid (prop "data" (data r))), (responseBundle_parsed (runRefresh (authEpoch w))).
Qed.

Lemma refresh_success_witness :
  (afterResponse (runRefresh 0) 0 true sample_ok initialWorld).1
    = TDone (OAuthenticated (bundle_of sample_bundle)).
Proof.
  destruct (refresh_success 0 0 true sample_ok (bundle_of sample_bundle) initialWorld)
    as [-> _]; [by vm_compute..|done].
Defined.

(** What a refused refresh of the current epoch does to the page: a race with
    an attempt left waits and touches nothing; the first session mismatch forgets
    the session but keeps the epoch, so that its retry goes out without an
    expected session; 401 signs out and tells the other tabs; an unreachable or
    overloaded server (no status, 429, 5xx) keeps token and session; anything else
    signs this tab out silently. *)
Theorem refresh_refused race allow r w :
  let epoch := authEpoch w in
  let code := responseCode r in
  let '(t', w') := afterRefusal (runRefresh epoch) race allow r w in
  if (status r =? 409)%Z && bool_decide (code = Some (js "AUTH_REFRESH_RACE")) && bool_decide (race < 3)
  then w' = w ∧ ∃ d, t' = TWait d race allow
  else if (status r =? 409)%Z && bool_decide (code = Some (js "AUTH_SESSION_MISMATCH")) && allow
  then t' = TRequest 0 false None ∧ authEpoch w' = epoch ∧ published w' = published w
       ∧ auth w' = reset (Some Idle) (auth w)
  else if (status r =? 401)%Z
  then t' = TDone OAnonymous ∧ auth w' = reset None (auth w)
       ∧ published w' = published w ++
           match currentSID w with
           | Some i => if str_true i then [(SignedOut, i)] else [] | None => [] end
  else if (status r =? 0)%Z || (500 <=? status r)%Z || (status r =? 429)%Z
  then w' = set_auth (setBootstrapState Idle) w
       ∧ t' = TDone (OTransientError (Cause (errorValue r)))
  else auth w' = reset None (auth w) ∧ published w' = published w
       ∧ authEpoch w' = (epoch + 1)%Z ∧ ∃ c, t' = TDone (OOutOfSync (Some c)).
Proof.
  intros epoch code. unfold afterRefusal. fold code.
  assert (∀ sync s, auth (clearAuthentication sync s w) = reset s (auth w) ∧
      authEpoch (clearAuthentication sync s w) = (epoch + 1)%Z) as Hc.
  { intros. by destruct (clearAuthentication_auth sync s w) as [-> ->]. }
  assert (∀ s, published (clearAuthentication false s w) = published w) as Hp.
  { intros. unfold clearAuthentication. by destruct (currentSID w). }
  destruct (Z.eqb_spec (status r) 409) as [E409|N409]; simpl.
  - rewrite E409. change (409 =? 401)%Z with false. change ((409 =? 0) || (500 <=? 409) || (409 =? 429))%Z with false.
    destruct (decide (code = Some (js "AUTH_REFRESH_RACE"))) as [Er|Nr].
    + rewrite (bool_decide_true _ Er). simpl.
      rewrite Er. rewrite (bool_decide_false (_ = Some (js "AUTH_SESSION_MISMATCH")))
        by (intros E; by vm_compute in E). simpl.
      destruct race as [|[|[|race]]]; simpl; [by eauto..|].
      destruct (Hc false None) as [-> ->]. rewrite Hp. eauto 6.
    + rewrite (bool_decide_false _ Nr). simpl.
      case_bool_decide as Em; simpl.
      * destruct allow; simpl.
        { unfold run, stillCurrent. simpl. subst epoch. by rewrite Z.eqb_refl. }
        destruct (Hc false None) as [-> ->]. rewrite Hp, Em. eauto 6.
      * destruct (Hc false None) as [-> ->]. rewrite Hp. eauto 6.
  - destruct (Z.eqb_spec (status r) 401) as [E401|N401]; simpl.
    + destruct (Hc true None) as [-> _]. split; [done|]. split; [done|].
      unfold clearAuthentication. destruct (currentSID w) as [i|]; simpl; [|by rewrite app_nil_r].
      unfold publish. destruct (str_true i); simpl; [done|by rewrite app_nil_r].
    + destruct (_ || _); [done|]. simpl.
      destruct (Hc false None) as [-> ->]. rewrite Hp. eauto 6.
Qed.

(** Token rotation: a rotation is applied exactly when the response is a valid
    current Bearer rotation for the signed-in session; it then replaces token,
    expiry and session, keeps the user and the session identifier and notifies no
    tab.  Each refusal names its reason and changes nothing. *)
Theorem rotation_spec v w :
  match applyAuthRotation v w with
  | inr w' =>
      isAuthTokenRotation v = true ∧ user (auth w') = user (auth w) ∧ user (auth w) ≠ None
      ∧ currentSID w' = currentSID w ∧ currentSID w ≠ None
      ∧ accessToken (auth w') = Some (str_field "access_token" v)
      ∧ accessExpiresAt (auth w') = Some (num_field "access_expires_at" v)
      ∧ published w' = published w ∧ authEpoch w' = (authEpoch w + 1)%Z
  | inl InvalidRotationResponse => isAuthTokenRotation v = false
  | inl NoActiveSession => user (auth w) = None ∨ session (auth w) = None
  | inl SessionMismatch => currentSID w ≠ Some (sid (session_of (prop "session" v)))
  end.
Proof.
  destruct (applyAuthRotation v w) as [[]|w'] eqn:E.
  - unfold applyAuthRotation in E. by case_all_in E.
  - unfold applyAuthRotation in E. case_all_in E; auto.
  - unfold applyAuthRotation in E. case_all_in E. bsplit.
    unfold currentSID. rewrite Heqo0. naive_solver.
  - apply applyAuthRotation_inv in E as (u & s & Hu & Hs & Hv & Hsid & ->).
    unfold currentSID. rewrite Hu, Hs. unfold applyAuthBundle. simpl in *.
    rewrite Hsid. by repeat split.
Qed.

(** Who is told what: signing in posts one authenticated event exactly when
    tabs are synchronised and the session is a new, non-empty one; no event of a
    refresh posts anything except the sign-out of the session it found, and then
    it ends as anonymous with the session gone. *)
Theorem tab_notifications b sync w e s :
  published (applyAuthBundle b sync w) =
    published w ++
      (if sync && negb (bool_decide (currentSID w = Some (sid (b_session b))))
          && str_true (sid (b_session b))
       then [(Authenticated, sid (b_session b))] else []) ∧
  (published (world (refreshEvent e s)) = published (world s) ∨
   ∃ i epoch, currentSID (world s) = Some i
     ∧ published (world (refreshEvent e s)) = published (world s) ++ [(SignedOut, i)]
     ∧ refreshPromise (refreshEvent e s) = Some (epoch, TDone OAnonymous)
     ∧ currentSID (world (refreshEvent e s)) = None).
Proof.
  split.
  { unfold applyAuthBundle, publish. destruct (_ && _); simpl; [|by rewrite app_nil_r].
    destruct (str_true _); simpl; [done|by rewrite app_nil_r]. }
  unfold refreshEvent. destruct (refreshPromise s) as [[epoch t]|]; [|by left].
  destruct t; destruct e; try by left.
  destruct (afterResponse (runRefresh epoch) race allowMismatchRetry r (world s))
    as [t' w'] eqn:E. simpl. rewrite E. simpl.
  unfold afterResponse, stillCurrent in E. simpl in E.
  destruct (Z.eqb_spec (authEpoch (world s)) epoch) as [<-|]; [|simplify_eq; by left].
  destruct (responseBundle _ r) eqn:Eb; [simplify_eq; by left|].
  apply afterRefusal_published in E as [?|(i & ? & ? & -> & ?)]; [by left|right; eauto 8].
Qed.

(** A posted event reaches another tab exactly when it is recent: the receiving
    tab delivers it to its listener when the event comes from a different tab and
    the clocks differ by less than a minute, and drops it otherwise. *)
Theorem published_event_delivery source nonce t k i e own now :
  publishAuthSessionEvent source nonce t k i = Some e →
  deliver own now (event_value e) =
    negb (bool_decide (source = own)) && (Z.abs (now - t) <? 60000)%Z.
Proof.
  unfold publishAuthSessionEvent. destruct (str_true i) eqn:Ei; [|done]. intros [= <-].
  assert (recent now (num_of_Z t) = (Z.abs (now - t) <? 60000)%Z) as Hr.
  { unfold recent, num_of_Z, num_ltb. simpl. f_equal. lia. }
  unfold deliver, isAuthSessionSyncEvent.
  assert (prop "source" (event_value (mkEvent k i source nonce t)) = JStr source) as ->
    by by vm_compute.
  assert (num_field "timestamp" (event_value (mkEvent k i source nonce t)) = num_of_Z t) as ->
    by by vm_compute.
  rewrite Hr. unfold is_str at 3. f_equal.
  destruct (bool_decide_reflect (source = own)); simpl; rewrite ?andb_false_r, ?andb_true_r; [done|].
  assert (str_field "sid" (event_value (mkEvent k i source nonce t)) = i) as -> by by vm_compute.
  rewrite Ei. destruct k; by vm_compute.
Qed.

Lemma published_event_delivery_witness :
  deliver (js "tab-b") 1030 (event_value (mkEvent SignedOut (js "s1") (js "tab-a") (js "n") 1000))
    = true.
Proof.
  rewrite (published_event_delivery (js "tab-a") (js "n") 1000 SignedOut (js "s1")); by vm_compute.
Defined.

(** Fresh headers carry a live token: before refreshing, headers are returned
    only with a stored token that outlives the next minute; after a refresh that
    did not authenticate, only with a token that has not expired, and otherwise
    the call fails with the outcome's reason. *)
Theorem fresh_headers_spec now w o :
  (∀ h, getFreshAuthHeaders now w = Some h →
     ∃ t e, accessToken (auth w) = Some t ∧ t ≠ [] ∧ accessExpiresAt (auth w) = Some e ∧
       num_ltb (num_of_Z (nowSeconds now + 60)) e = true ∧
       h = [(js "Content-Type", js "application/json"); (js "Authorization", js "Bearer " ++ t)]) ∧
  match freshHeadersAfter o now w with
  | inr h => h = getCommonHeaders w ∧
      ((∃ b, o = OAuthenticated b) ∨ tokenOutlives (nowSeconds now) w = true)
  | inl (RequestFailed c) => o = OTransientError c ∧ tokenOutlives (nowSeconds now) w = false
  | inl SessionExpired => (o = OAnonymous ∨ ∃ c, o = OOutOfSync c) ∧
      tokenOutlives (nowSeconds now) w = false
  end.
Proof.
  split.
  - intros h. unfold getFreshAuthHeaders, tokenOutlives, getCommonHeaders.
    destruct (accessToken (auth w)) as [t|], (accessExpiresAt (auth w)) as [e|]; try done.
    destruct (str_true t) eqn:Et; [|done]. destruct (num_true e); [|done]. cbn [andb].
    destruct (num_ltb (num_of_Z (nowSeconds now + 60)) e) eqn:El; [|done]. intros [= <-].
    exists t, e. rewrite <- str_true_spec. by eauto 8.
  - unfold freshHeadersAfter. destruct o; [by eauto|..];
      destruct (tokenOutlives (nowSeconds now) w) eqn:E; eauto.
Qed.

(** Bootstrapping asks the server only when it has to: an unexpired stored
    session is reported at once; a completed bootstrap without a stale session is
    anonymous at once and changes nothing; in every other case the page is marked
    as checking and exactly one refresh is in flight, the running one if there is
    one, unless the lock manager throws, which leaves the page idle. *)
Theorem bootstrap_spec locks now s :
  match bootstrapAuthentication locks now s with
  | (Some (OAuthenticated b), s') =>
      currentValidAuthBundle now (world s) = Some b ∧
      num_ltb (num_of_Z (nowSeconds now)) (access_expires_at b) = true ∧
      s' = on_world (set_auth (setBootstrapState Complete)) s
  | (Some OAnonymous, s') =>
      s' = s ∧ bootstrapState (auth (world s)) = Complete ∧
      (user (auth (world s)) = None ∨ session (auth (world s)) = None)
  | (Some _, _) => False
  | (None, s') =>
      match refreshPromise s, locks with
      | Some p, _ => refreshPromise s' = Some p ∧ bootstrapState (auth (world s')) = Checking
      | None, LocksPresent =>
          refreshPromise s' = Some (authEpoch (world s), TLock) ∧
          bootstrapState (auth (world s')) = Checking
      | None, LocksAbsent =>
          refreshPromise s' =
            Some (authEpoch (world s), TRequest 0 true (currentSID (world s))) ∧
          bootstrapState (auth (world s')) = Checking
      | None, LocksThrow e =>
          refreshPromise s' = Some (authEpoch (world s), TDone (OTransientError (Cause e))) ∧
          bootstrapState (auth (world s')) = Idle
      end
  end.
Proof.
  unfold bootstrapAuthentication.
  destruct (currentValidAuthBundle now (world s)) as [b|] eqn:Eb.
  - split; [done|]. split; [|done]. unfold currentValidAuthBundle in Eb.
    destruct (user (auth (world s))) as [u|], (accessToken (auth (world s))) as [t|],
      (accessExpiresAt (auth (world s))) as [e|], (session (auth (world s))) as [ss|]; try done.
    case_if_in Eb; [|done]. simplify_eq. bsplit. simpl.
    assert (e ≠ NaN) as He by (by intros ->).
    rewrite num_leb_ltb in * by done. by bsplit.
  - destruct (bool_decide (bootstrapState (auth (world s)) = Complete)
      && negb match user (auth (world s)), session (auth (world s)) with
              | Some _, Some _ => true | _, _ => false end) eqn:E.
    + bsplit. split; [done|]. split; [done|].
      by destruct (user (auth (world s))), (session (auth (world s))); auto.
    + unfold refreshAuthentication. simpl. destruct (refreshPromise s); simpl; [done|].
      destruct locks; simpl; [|done..].
      unfold run, stillCurrent. simpl. by rewrite Z.eqb_refl.
Qed.
End AuthSession.
