(* ===== verification/ChatMessage.v ===== *)
(** * Playground messages (src/web/src/features/playground/types.ts, constants.ts,
    lib/message/*.ts, lib/streaming/payload-builder.ts)

    A conversation is a list of messages.  The files modelled here create
    messages, split reasoning from visible text, apply streamed chunks, finish or
    fail a message, edit and regenerate, and build the request payload.

    Times are integral milliseconds; [Date.now()] and [nanoid()] are arguments
    ([now], [id]). *)

From S2P Require Import Prelude JsString JsValue.

Module ChatMessage.

Inductive MessageRole := RUser | RAssistant | RSystem.
Inductive MessageStatus := SLoading | SStreaming | SComplete | SError.
Inductive PlaygroundMessageLayoutMode := LAlternating | LLeft.

#[global] Instance MessageRole_eq_dec : EqDecision MessageRole.
Proof. solve_decision. Defined.
#[global] Instance MessageStatus_eq_dec : EqDecision MessageStatus.
Proof. solve_decision. Defined.

Record MessageVersion := mkVersion { v_id : jsstr; v_content : jsstr }.

Record Reasoning := mkReasoning {
  r_content : jsstr;
  r_duration : Z;
  r_startedAt : option Z;
  r_completedAt : option Z;
  r_durationMs : option Z
}.

Record Message := mkMessage {
  key : jsstr;
  from : MessageRole;
  versions : list MessageVersion;
  createdAt : option Z;
  startedAt : option Z;
  completedAt : option Z;
  durationMs : option Z;
  sources : option (list (jsstr * jsstr));
  reasoning : option Reasoning;
  isReasoningStreaming : option bool;
  isReasoningComplete : option bool;
  isContentComplete : option bool;
  status : option MessageStatus;
  errorCode : option (option jsstr)
}.

(** Object spreads that replace one or two fields. *)
Definition with_versions (vs : list MessageVersion) (m : Message) : Message :=
  mkMessage (key m) (from m) vs (createdAt m) (startedAt m) (completedAt m) (durationMs m)
    (sources m) (reasoning m) (isReasoningStreaming m) (isReasoningComplete m)
    (isContentComplete m) (status m) (errorCode m).

Definition with_reasoning (r : option Reasoning) (m : Message) : Message :=
  mkMessage (key m) (from m) (versions m) (createdAt m) (startedAt m) (completedAt m)
    (durationMs m) (sources m) r (isReasoningStreaming m) (isReasoningComplete m)
    (isContentComplete m) (status m) (errorCode m).

Definition with_reasoningStreaming (b : bool) (m : Message) : Message :=
  mkMessage (key m) (from m) (versions m) (createdAt m) (startedAt m) (completedAt m)
    (durationMs m) (sources m) (reasoning m) (Some b) (isReasoningComplete m)
    (isContentComplete m) (status m) (errorCode m).

Definition with_status (s : MessageStatus) (m : Message) : Message :=
  mkMessage (key m) (from m) (versions m) (createdAt m) (startedAt m) (completedAt m)
    (durationMs m) (sources m) (reasoning m) (isReasoningStreaming m) (isReasoningComplete m)
    (isContentComplete m) (Some s) (errorCode m).

Definition with_errorCode (c : option jsstr) (m : Message) : Message :=
  mkMessage (key m) (from m) (versions m) (createdAt m) (startedAt m) (completedAt m)
    (durationMs m) (sources m) (reasoning m) (isReasoningStreaming m) (isReasoningComplete m)
    (isContentComplete m) (status m) (Some c).

Definition with_createdAt (t : option Z) (m : Message) : Message :=
  mkMessage (key m) (from m) (versions m) t (startedAt m) (completedAt m)
    (durationMs m) (sources m) (reasoning m) (isReasoningStreaming m) (isReasoningComplete m)
    (isContentComplete m) (status m) (errorCode m).

Definition with_timing (st ct d : Z) (m : Message) : Message :=
  mkMessage (key m) (from m) (versions m) (createdAt m) (Some st) (Some ct)
    (Some d) (sources m) (reasoning m) (isReasoningStreaming m) (isReasoningComplete m)
    (isContentComplete m) (status m) (errorCode m).

(** [a ?? b] on optional values *)
Definition orElse {A} (a b : option A) : option A :=
  match a with Some _ => a | None => b end.

Definition is_assistant (m : Message) : bool := bool_decide (from m = RAssistant).
Definition is_user (m : Message) : bool := bool_decide (from m = RUser).
Definition has_status (s : MessageStatus) (m : Message) : bool :=
  bool_decide (status m = Some s).

(** ** message-utils.ts *)

Definition createMessageVersion (id content : jsstr) : MessageVersion := mkVersion id content.

Definition getCurrentVersion (m : Message) : MessageVersion :=
  match versions m with v :: _ => v | [] => mkVersion (js "default") [] end.

Definition getMessageContent (m : Message) : jsstr := v_content (getCurrentVersion m).

Definition hasMessageContent (m : Message) : bool := str_true (trim (getMessageContent m)).

Definition updateCurrentVersionContent (m : Message) (content : jsstr) : Message :=
  with_versions [mkVersion (v_id (getCurrentVersion m)) content] m.

Definition createUserMessage (keyId versionId content : jsstr) (created : Z) : Message :=
  mkMessage keyId RUser [createMessageVersion versionId content] (Some created)
    None None None None None None None None None None.

Definition createLoadingAssistantMessage (keyId versionId : jsstr) (started : Z) : Message :=
  mkMessage keyId RAssistant [createMessageVersion versionId []] (Some started) (Some started)
    None None None None (Some false) (Some false) (Some false) (Some SLoading) None.

Inductive ContentPart :=
| PText (text : jsstr)
| PImage (url : jsstr).

Inductive MessageContent :=
| CText (s : jsstr)
| CParts (ps : list ContentPart).

Definition buildMessageContent (text : jsstr) (imageUrls : list jsstr) : MessageContent :=
  let validImages := filter (fun url => str_true (trim url) = true) imageUrls in
  match validImages with
  | [] => CText text
  | _ => CParts (PText text :: ((fun url => PImage (trim url)) <$> validImages))
  end.

Fixpoint findText (ps : list ContentPart) : jsstr :=
  match ps with
  | [] => []
  | PText t :: _ => t
  | PImage _ :: ps' => findText ps'
  end.

Definition getTextContent (c : MessageContent) : jsstr :=
  match c with CText s => s | CParts ps => findText ps end.

Record ChatCompletionMessage := mkApiMessage { role : MessageRole; content : jsstr }.

Definition formatMessageForAPI (m : Message) : ChatCompletionMessage :=
  mkApiMessage (from m) (v_content (getCurrentVersion m)).

Definition isValidMessage (m : Message) : bool :=
  match versions m with
  | [] => false
  | _ => negb (is_assistant m && negb (hasMessageContent m))
  end.

(** ** message-timing-utils.ts *)

Definition completeAssistantTiming (m : Message) (completed : Z) : Message :=
  if is_assistant m then
    let st := default completed (orElse (startedAt m) (createdAt m)) in
    with_timing st completed (Z.max 0 (completed - st)) m
  else m.

Definition startReasoningTiming (m : Message) (started : Z) : Reasoning :=
  match reasoning m with
  | Some r => mkReasoning (r_content r) (r_duration r) (orElse (r_startedAt r) (Some started))
                (r_completedAt r) (r_durationMs r)
  | None => mkReasoning [] 0 (Some started) None None
  end.

(** [Math.ceil(ms / 1000)] *)
Definition ceil_seconds (ms : Z) : Z := (- ((- ms) / 1000))%Z.

Definition completeReasoningTiming (m : Message) (completed : Z) : Message :=
  match reasoning m with
  | Some r =>
      match r_durationMs r with
      | Some _ => m
      | None =>
          let st := default completed (orElse (r_startedAt r) (startedAt m)) in
          let d := Z.max 0 (completed - st) in
          with_reasoning
            (Some (mkReasoning (r_content r) (ceil_seconds d) (Some st) (Some completed) (Some d))) m
      end
  | None => m
  end.

(** ** message-reasoning-utils.ts *)

Record ParsedThinkTags := mkParsedThink {
  visibleContent : jsstr;
  p_reasoning : jsstr;
  hasUnclosedTag : bool
}.

Definition open_tag : jsstr := js "<think>".
Definition close_tag : jsstr := js "</think>".

(** The loop from [currentPos]: the visible parts, the reasoning parts and
    whether the last tag is unclosed; [None] when the fuel runs out. *)
Fixpoint think_loop (fuel : nat) (content : jsstr) (currentPos : nat) :
    option (list jsstr * list jsstr * bool) :=
  match fuel with
  | 0 => None
  | S fuel' =>
      match index_from open_tag content currentPos with
      | None =>
          Some (if bool_decide (currentPos < length content) then [drop currentPos content] else [],
                [], false)
      | Some openPos =>
          let before :=
            if bool_decide (currentPos < openPos) then [slice currentPos openPos content] else [] in
          match index_from close_tag content (openPos + 7) with
          | None => Some (before, [drop (openPos + 7) content], true)
          | Some closePos =>
              '(vs, rs, u) ← think_loop fuel' content (closePos + 8);
              Some (before ++ vs, slice (openPos + 7) closePos content :: rs, u)
          end
      end
  end.

Definition parseThinkTags (content : jsstr) : option ParsedThinkTags :=
  if includes open_tag content then
    '(vs, rs, u) ← think_loop (S (length content)) content 0;
    Some (mkParsedThink (trim (concat vs)) (trim (str_join (js "

") rs)) u)
  else Some (mkParsedThink content [] false).

(** The result, known to exist ([parseThinkTags_total]). *)
Definition parsedThinkTags (content : jsstr) : ParsedThinkTags :=
  default (mkParsedThink content [] false) (parseThinkTags content).

(** ** message-streaming-utils.ts *)

Definition processStreamingContent (m : Message) (contentChunk : jsstr) (now : Z) : Message :=
  let fullContent := v_content (getCurrentVersion m) ++ contentChunk in
  if negb (match reasoning m with Some _ => true | None => false end)
     && negb (includes open_tag fullContent) then
    with_reasoningStreaming false (updateCurrentVersionContent m fullContent)
  else
    let p := parsedThinkTags fullContent in
    let finalReasoning :=
      if str_true (p_reasoning p) then
        let r := startReasoningTiming m now in
        Some (mkReasoning (p_reasoning p) (r_duration r) (r_startedAt r) (r_completedAt r)
                (r_durationMs r))
      else reasoning m in
    with_reasoningStreaming (hasUnclosedTag p)
      (with_reasoning finalReasoning (updateCurrentVersionContent m fullContent)).

Inductive StreamChunkType := KReasoning | KContent.

#[global] Instance StreamChunkType_eq_dec : EqDecision StreamChunkType.
Proof. solve_decision. Defined.

Definition getAppendableChunk (currentContent chunk : jsstr) : jsstr :=
  if negb (str_true currentContent) || negb (starts_with currentContent chunk) then chunk
  else drop (length currentContent) chunk.

Definition applyStreamingChunk (m : Message) (type : StreamChunkType) (chunk : jsstr) (now : Z) :
    Message :=
  if has_status SError m then m
  else match type with
  | KReasoning =>
      let r := startReasoningTiming m now in
      let appendable := getAppendableChunk (r_content r) chunk in
      with_status SStreaming (with_reasoningStreaming true
        (with_reasoning
           (Some (mkReasoning (r_content r ++ appendable) (r_duration r) (r_startedAt r)
                    (r_completedAt r) (r_durationMs r))) m))
  | KContent =>
      let appendable := getAppendableChunk (v_content (getCurrentVersion m)) chunk in
      let cm := processStreamingContent m appendable now in
      with_status SStreaming
        (match isReasoningStreaming cm with
         | Some true => cm
         | _ => completeReasoningTiming cm now
         end)
  end.

Definition finalizeMessage (m : Message) (apiReasoningContent : option jsstr) (now : Z) : Message :=
  let cur := v_content (getCurrentVersion m) in
  let parsed := if includes open_tag cur then Some (parsedThinkTags cur) else None in
  let visible := match parsed with Some p => visibleContent p | None => cur end in
  let finalReasoning :=
    str_or (ostr apiReasoningContent)
      (str_or (ostr (r_content <$> reasoning m)) (ostr (p_reasoning <$> parsed))) in
  let r := startReasoningTiming m now in
  completeReasoningTiming
    (with_reasoningStreaming false
       (with_reasoning
          (if str_true finalReasoning
           then Some (mkReasoning finalReasoning (r_duration r) (r_startedAt r) (r_completedAt r)
                        (r_durationMs r))
           else None)
          (updateCurrentVersionContent m visible))) now.

Definition completeAssistantMessage (m : Message) (now : Z) : Message :=
  completeAssistantTiming (with_status SComplete (finalizeMessage m None now)) now.

Definition isAssistantMessageFinal (m : Message) : bool :=
  has_status SComplete m || has_status SError m.

Definition isAssistantMessagePending (m : Message) : bool :=
  has_status SLoading m || has_status SStreaming m.

Definition isPendingAssistantMessage (m : Message) : bool :=
  is_assistant m && isAssistantMessagePending m.

Record ChatCompletionChoice := mkChoice {
  choice_content : option jsstr;
  choice_reasoning : option jsstr
}.

Definition hasChatCompletionChoice (choices : list ChatCompletionChoice) : bool :=
  match choices with [] => false | _ => true end.

Definition applyChatCompletionChoice (m : Message) (c : ChatCompletionChoice) (now : Z) : Message :=
  completeAssistantTiming
    (with_status SComplete
       (finalizeMessage (updateCurrentVersionContent m (ostr (choice_content c)))
          (choice_reasoning c) now)) now.

Definition applyChatCompletionResponse (m : Message) (choices : list ChatCompletionChoice)
    (now : Z) : option Message :=
  match choices with
  | [] => None
  | c :: _ => Some (applyChatCompletionChoice m c now)
  end.

(** The last index whose message is a pending assistant message. *)
Fixpoint last_pending (ms : list Message) : option nat :=
  match ms with
  | [] => None
  | m :: ms' =>
      match last_pending ms' with
      | Some i => Some (S i)
      | None => if isPendingAssistantMessage m then Some 0 else None
      end
  end.

Definition API_REQUEST_ERROR : jsstr := js "Request error occurred".
Definition INTERRUPTED : jsstr := js "Generation was interrupted".
Definition CONNECTION_CLOSED : jsstr := js "Connection closed".

(** The stable form of a message found pending; [t] translates a message key. *)
Definition sanitizeMessage (t : jsstr → jsstr) (m : Message) (now : Z) : Message :=
  let finalized := finalizeMessage m None now in
  let hasReasoning := str_true (trim (ostr (r_content <$> reasoning finalized))) in
  if hasMessageContent finalized || hasReasoning then
    completeAssistantTiming (with_reasoningStreaming false (with_status SComplete finalized)) now
  else
    completeAssistantTiming
      (with_reasoningStreaming false
         (with_status SError
            (updateCurrentVersionContent finalized
               (t API_REQUEST_ERROR ++ js ": " ++ t INTERRUPTED)))) now.

Definition sanitizeMessagesOnLoad (t : jsstr → jsstr) (ms : list Message) (now : Z) : list Message :=
  match last_pending ms with
  | None => ms
  | Some i =>
      match ms !! i with
      | Some m => <[i := sanitizeMessage t m now]> ms
      | None => ms
      end
  end.

(** ** message-update-utils.ts *)

Definition updateLastAssistantMessage (ms : list Message) (updater : Message → Message) :
    list Message :=
  match last ms with
  | None => ms
  | Some l => if is_assistant l then <[length ms - 1 := updater l]> ms else ms
  end.

Definition updateAssistantMessageWithError (ms : list Message) (errorMessage : jsstr)
    (code : option jsstr) (title : jsstr) (now : Z) : list Message :=
  updateLastAssistantMessage ms (fun m =>
    completeAssistantTiming
      (with_errorCode (if str_true (ostr code) then code else None)
         (with_reasoningStreaming false
            (with_status SError
               (updateCurrentVersionContent m (title ++ js ": " ++ errorMessage))))) now).

(** ** conversation-message-utils.ts *)

(** [nanoid()] results: the keys and version ids of the messages created. *)
Record Ids := mkIds { u_key : jsstr; u_version : jsstr; a_key : jsstr; a_version : jsstr }.

Definition appendUserMessagePair (ids : Ids) (ms : list Message) (content : jsstr) (now : Z) :
    list Message :=
  ms ++ [createUserMessage (u_key ids) (u_version ids) content now;
         createLoadingAssistantMessage (a_key ids) (a_version ids) now].

Definition has_key (k : jsstr) (m : Message) : bool := bool_decide (key m = k).

(** [findIndex] *)
Fixpoint findIndex {A} (f : A → bool) (l : list A) : option nat :=
  match l with
  | [] => None
  | x :: l' => if f x then Some 0 else S <$> findIndex f l'
  end.

Definition createRegeneratedMessages (ids : Ids) (ms : list Message) (messageKey : jsstr)
    (now : Z) : option (list Message) :=
  i ← findIndex (has_key messageKey) ms;
  m ← ms !! i;
  let a := createLoadingAssistantMessage (a_key ids) (a_version ids) now in
  Some (if is_user m then take (i + 1) ms ++ [a] else take i ms ++ [a]).

Definition removeMessageByKey (ms : list Message) (messageKey : jsstr) : list Message :=
  filter (fun m => has_key messageKey m = false) ms.

(** The loop runs down from [beforeIndex - 1]. *)
Fixpoint getPreviousUserMessage (ms : list Message) (beforeIndex : nat) : option Message :=
  match beforeIndex with
  | 0 => None
  | S i =>
      match ms !! i with
      | Some m => if is_user m then Some m else getPreviousUserMessage ms i
      | None => None
      end
  end.

Record ApplyMessageEditResult := mkEdit { edit_messages : list Message; shouldSend : bool }.

Definition editMessage (messageKey content : jsstr) (shouldSubmit : bool) (now : Z) (m : Message) :
    Message :=
  if has_key messageKey m then
    with_createdAt (if shouldSubmit then Some now else createdAt m)
      (updateCurrentVersionContent m content)
  else m.

Definition applyMessageEdit (ids : Ids) (ms : list Message) (messageKey content : jsstr)
    (shouldSubmit : bool) (now : Z) : option ApplyMessageEditResult :=
  i ← findIndex (has_key messageKey) ms;
  let updated := editMessage messageKey content shouldSubmit now <$> ms in
  m ← updated !! i;
  if negb shouldSubmit || negb (is_user m) then Some (mkEdit updated false)
  else Some (mkEdit (take (i + 1) updated
                       ++ [createLoadingAssistantMessage (a_key ids) (a_version ids) now]) true).

Definition getEditingMessageContent (ms : list Message) (editingKey : option jsstr) : jsstr :=
  if str_true (ostr editingKey) then
    match list_find (fun m => has_key (ostr editingKey) m = true) ms with
    | Some (_, m) => getMessageContent m
    | None => []
    end
  else [].

Record ChatMessageRenderState := mkRender {
  alwaysShowActions : bool; render_content : jsstr; isEditing : bool
}.

Definition getChatMessageRenderState (ms : list Message) (m : Message) (messageIndex : nat)
    (editingKey : option jsstr) : ChatMessageRenderState :=
  mkRender (bool_decide (Z.of_nat messageIndex = Z.of_nat (length ms) - 1)%Z && is_assistant m)
    (getMessageContent m) (bool_decide (editingKey = Some (key m))).

(** ** message-content-utils.ts *)

(** A missing flag is falsy. *)
Definition flag (b : option bool) : bool := default false b.

Record MessageContentState := mkContentState {
  displayContent : jsstr;
  hasSources : bool;
  cs_isAssistant : bool;
  showLoader : bool;
  showMessageContent : bool;
  cs_sources : list (jsstr * jsstr);
  reasoningContent : option jsstr   (** [hasReasoning] is [Some] *)
}.

Definition shouldShowMessageLoader (m : Message) (isAssistant : bool) (versionContent : jsstr) : bool :=
  isAssistant && negb (flag (isReasoningStreaming m))
  && (has_status SLoading m || (has_status SStreaming m && negb (str_true versionContent))).

Definition shouldShowMessageContent (m : Message) (versionContent : jsstr) : bool :=
  (is_user m || negb (flag (isReasoningStreaming m))) && bool_decide (0 < length versionContent).

Definition getDisplayContent (m : Message) (versionContent : jsstr) : jsstr :=
  if negb (is_assistant m) then versionContent
  else if negb (includes open_tag versionContent) then versionContent
  else visibleContent (parsedThinkTags versionContent).

Definition getMessageContentState (m : Message) (versionContent : jsstr) : MessageContentState :=
  let isAssistant := is_assistant m in
  let srcs := default [] (sources m) in
  let rc := if isAssistant then r_content <$> reasoning m else None in
  mkContentState (getDisplayContent m versionContent) (bool_decide (0 < length srcs)) isAssistant
    (shouldShowMessageLoader m isAssistant versionContent)
    (shouldShowMessageContent m versionContent) srcs
    (if str_true (ostr rc) then rc else None).

(** ** message-action-utils.ts, message-editor-utils.ts *)

Record MessageActionState := mkActionState {
  as_content : jsstr; as_hasContent : bool; as_isAssistant : bool; as_isLoading : bool;
  as_isUser : bool
}.

Definition getMessageActionState (m : Message) : MessageActionState :=
  mkActionState (getMessageContent m) (hasMessageContent m) (is_assistant m)
    (has_status SLoading m || has_status SStreaming m) (is_user m).

Record MessageEditorState := mkEditorState {
  canSave : bool; hasChanged : bool; showSaveAndSubmit : bool
}.

Definition getMessageEditorState (m : Message) (editText originalText : jsstr) : MessageEditorState :=
  let hasText := bool_decide (0 < length (trim editText)) in
  let changed := negb (bool_decide (editText = originalText)) in
  mkEditorState (hasText && changed) changed (is_user m).

(** ** message-error-utils.ts, message-layout-utils.ts *)

Definition MODEL_PRICE_ERROR_CODE : jsstr := js "model_price_error".
Definition FALLBACK_ERROR_CONTENT : jsstr := js "An unknown error occurred".

Inductive ErrorKind := EGeneric | EModelPrice.

Record MessageErrorState := mkErrorState {
  err_content : jsstr; err_kind : ErrorKind; showSettingsLink : bool
}.

Definition isAdminRole (role : option Z) : bool :=
  match role with Some r => (10 <=? r)%Z | None => false end.

Definition isErrorMessage (m : Message) : bool := has_status SError m.

Definition getMessageErrorState (m : Message) (isAdmin : bool) : option MessageErrorState :=
  if negb (isErrorMessage m) then None
  else
    let c := str_or (getMessageContent m) FALLBACK_ERROR_CONTENT in
    let isModelPriceError := bool_decide (errorCode m = Some (Some MODEL_PRICE_ERROR_CODE)) in
    Some (mkErrorState c (if isModelPriceError then EModelPrice else EGeneric)
            (isModelPriceError && isAdmin)).

Inductive MessageAlignment := ALeft | ARight.

Definition getMessageAlignment (m : Message) (layoutMode : PlaygroundMessageLayoutMode) :
    MessageAlignment :=
  match layoutMode with
  | LLeft => ALeft
  | LAlternating => if is_user m then ARight else ALeft
  end.

(** ** payload-builder.ts *)

Record PlaygroundConfig := mkConfig {
  cfg_model : jsstr;
  cfg_group : jsstr;
  cfg_temperature : num;
  cfg_top_p : num;
  cfg_max_tokens : num;
  cfg_frequency_penalty : num;
  cfg_presence_penalty : num;
  cfg_seed : option num;
  cfg_stream : bool
}.

Record ParameterEnabled := mkEnabled {
  en_temperature : bool;
  en_top_p : bool;
  en_max_tokens : bool;
  en_frequency_penalty : bool;
  en_presence_penalty : bool;
  en_seed : bool
}.

Record ChatCompletionRequest := mkRequest {
  req_model : jsstr;
  req_group : option jsstr;
  req_messages : list ChatCompletionMessage;
  req_stream : bool;
  req_temperature : option num;
  req_top_p : option num;
  req_max_tokens : option num;
  req_frequency_penalty : option num;
  req_presence_penalty : option num;
  req_seed : option num
}.

Definition when {A} (b : bool) (x : A) : option A := if b then Some x else None.

Definition buildChatCompletionPayload (ms : list Message) (config : PlaygroundConfig)
    (enabled : ParameterEnabled) : ChatCompletionRequest :=
  let processedMessages := formatMessageForAPI <$> filter (fun m => isValidMessage m = true) ms in
  mkRequest (cfg_model config) (Some (cfg_group config)) processedMessages (cfg_stream config)
    (when (en_temperature enabled) (cfg_temperature config))
    (when (en_top_p enabled) (cfg_top_p config))
    (when (en_max_tokens enabled) (cfg_max_tokens config))
    (when (en_frequency_penalty enabled) (cfg_frequency_penalty config))
    (when (en_presence_penalty enabled) (cfg_presence_penalty config))
    (if en_seed enabled then cfg_seed config else None).

(** ** Reasoning tags: every text reads in exactly one way *)

(** A text as the parser reads it: closed [visible<think>reasoning</think>]
    pieces, then a visible rest or an unclosed tag. *)
Inductive ThinkTail :=
| TVisible (v : jsstr)
| TOpen (v r : jsstr).

Definition render_tail (tl : ThinkTail) : jsstr :=
  match tl with TVisible v => v | TOpen v r => v ++ open_tag ++ r end.

Fixpoint render_think (segs : list (jsstr * jsstr)) (tl : ThinkTail) : jsstr :=
  match segs with
  | [] => render_tail tl
  | (v, r) :: segs' => v ++ open_tag ++ r ++ close_tag ++ render_think segs' tl
  end.

Definition wf_tail (tl : ThinkTail) : Prop :=
  match tl with
  | TVisible v => includes open_tag v = false
  | TOpen v r => includes open_tag v = false ∧ includes close_tag r = false
  end.

Definition wf_seg (s : jsstr * jsstr) : Prop :=
  includes open_tag s.1 = false ∧ includes close_tag s.2 = false.

Definition tail_visible (tl : ThinkTail) : jsstr :=
  match tl with TVisible v => v | TOpen v _ => v end.

Definition tail_reasoning (tl : ThinkTail) : list jsstr :=
  match tl with TVisible _ => [] | TOpen _ r => [r] end.

Definition tail_open (tl : ThinkTail) : bool :=
  match tl with TVisible _ => false | TOpen _ _ => true end.

Lemma open_tag_units : open_tag = (60 :: [116; 104; 105; 110; 107; 62])%N.
Proof. vm_compute. done. Qed.

Lemma close_tag_units : close_tag = (60 :: [47; 116; 104; 105; 110; 107; 62])%N.
Proof. vm_compute. done. Qed.

Lemma open_tag_length : length open_tag = 7.
Proof. by rewrite open_tag_units. Qed.

Lemma close_tag_length : length close_tag = 8.
Proof. by rewrite close_tag_units. Qed.

Lemma open_tag_index v r :
  includes open_tag v = false → index_of open_tag (v ++ open_tag ++ r) = Some (length v).
Proof. rewrite open_tag_units. apply index_of_app. set_solver. Qed.

Lemma close_tag_index v r :
  includes close_tag v = false → index_of close_tag (v ++ close_tag ++ r) = Some (length v).
Proof. rewrite close_tag_units. apply index_of_app. set_solver. Qed.

Lemma index_of_absent p s : includes p s = false → index_of p s = None.
Proof. unfold includes. by destruct (index_of p s). Qed.

Lemma slice_app (pre v r : jsstr) i j :
  i = length pre → j = length pre + length v → slice i j (pre ++ v ++ r) = v.
Proof.
  intros -> ->. unfold slice. rewrite drop_app_length.
  replace (length pre + length v - length pre) with (length v) by lia. apply take_app_length.
Qed.

Lemma concat_nonempty (v : jsstr) n k vs :
  k = n + length v →
  concat ((if bool_decide (n < k) then [v] else []) ++ vs) = v ++ concat vs.
Proof.
  intros ->. destruct v as [|x v]; case_bool_decide; simpl in *; try done; lia.
Qed.

Lemma concat_nonempty1 (v : jsstr) n k :
  k = n + length v → concat (if bool_decide (n < k) then [v] else []) = v.
Proof.
  intros H. pose proof (concat_nonempty v n k [] H) as E.
  simpl in E. by rewrite !(right_id_L [] (++)) in E.
Qed.

Lemma think_loop_open pre v r fuel :
  includes open_tag v = false → includes close_tag r = false →
  ∃ vs, think_loop (S fuel) (pre ++ v ++ open_tag ++ r) (length pre) = Some (vs, [r], true)
        ∧ concat vs = v.
Proof.
  intros Hv Hr. cbn [think_loop]. unfold index_from. rewrite drop_app_length, open_tag_index by done.
  cbn [fmap option_fmap option_map].
  rewrite (slice_app pre v) by done.
  replace (drop (length pre + length v + 7) (pre ++ v ++ open_tag ++ r)) with r.
  2:{ rewrite !(assoc_L app), drop_app_length'; [done|]. by rewrite !length_app, open_tag_length. }
  rewrite index_of_absent by done. cbn [fmap option_fmap option_map].
  eexists. split; [done|].
  by apply concat_nonempty1.
Qed.

Lemma think_loop_render segs tl pre fuel :
  Forall wf_seg segs → wf_tail tl → length segs < fuel →
  ∃ vs, think_loop fuel (pre ++ render_think segs tl) (length pre)
        = Some (vs, segs.*2 ++ tail_reasoning tl, tail_open tl)
        ∧ concat vs = concat segs.*1 ++ tail_visible tl.
Proof.
  intros Hs Ht. revert pre fuel. induction Hs as [|[v r] segs [Hv Hr] _ IH]; intros pre fuel Hf;
    (destruct fuel as [|fuel]; [simpl in Hf; lia|]).
  - destruct tl as [v|v r]; simpl render_think.
    + cbn [think_loop]. unfold index_from. rewrite drop_app_length.
      simpl in Ht. rewrite index_of_absent by done. cbn [fmap option_fmap option_map].
      eexists. split; [done|]. rewrite length_app.
      simpl. by apply concat_nonempty1.
    + destruct Ht as [Hv Hr]. by apply think_loop_open.
  - cbn [render_think think_loop]. simpl in Hv, Hr. unfold index_from.
    set (rest := render_think segs tl).
    rewrite drop_app_length, (open_tag_index v (r ++ close_tag ++ rest)) by done.
    cbn [fmap option_fmap option_map]. rewrite (slice_app pre v) by done.
    replace (drop (length pre + length v + 7) (pre ++ v ++ open_tag ++ r ++ close_tag ++ rest))
      with (r ++ close_tag ++ rest).
    2:{ rewrite (assoc_L app v), (assoc_L app pre), drop_app_length'; [done|]. rewrite !length_app, open_tag_length. lia. }
    rewrite close_tag_index by done. cbn [fmap option_fmap option_map].
    destruct (IH (pre ++ v ++ open_tag ++ r ++ close_tag) fuel) as (vs & E & Hvs); [simpl in Hf; lia|].
    rewrite <- !(assoc_L app) in E.
    replace (length (pre ++ v ++ open_tag ++ r ++ close_tag))
      with (length pre + length v + 7 + length r + 8) in E.
    2:{ rewrite !length_app, open_tag_length, close_tag_length. lia. }
    fold rest in E. rewrite E. cbn [mbind option_bind].
    eexists. split.
    + do 2 f_equal. simpl. do 2 f_equal. rewrite (assoc_L app v), (assoc_L app pre).
      apply (slice_app (pre ++ v ++ open_tag) r (close_tag ++ rest));
        rewrite !length_app, open_tag_length; lia.
    + rewrite concat_nonempty, Hvs by done. simpl. by rewrite (assoc_L app).
Qed.

Lemma think_segments n content :
  length content < n →
  ∃ segs tl, Forall wf_seg segs ∧ wf_tail tl ∧ content = render_think segs tl.
Proof.
  revert content. induction n as [|n IH]; intros content Hn; [lia|].
  destruct (index_of open_tag content) as [i|] eqn:Eo.
  2:{ exists [], (TVisible content). split_and!; [constructor| |done].
      simpl. unfold includes. by rewrite Eo. }
  apply index_of_first in Eo as (v & s & -> & _ & Hv); [|by rewrite open_tag_units].
  destruct (index_of close_tag s) as [j|] eqn:Ec.
  2:{ exists [], (TOpen v s). split_and!; [constructor| |done].
      simpl. unfold includes at 2. by rewrite Ec. }
  apply index_of_first in Ec as (r & s' & -> & _ & Hr); [|by rewrite close_tag_units].
  rewrite !length_app, close_tag_length in Hn.
  destruct (IH s') as (segs & tl & Hs & Ht & ->); [lia|].
  exists ((v, r) :: segs), tl. split_and!; [by constructor|done..].
Qed.

Lemma render_includes segs tl :
  wf_tail tl → includes open_tag (render_think segs tl)
               = negb (match segs, tl with [], TVisible _ => true | _, _ => false end).
Proof.
  intros Ht. destruct segs as [|[v r] segs]; simpl.
  - destruct tl as [v|v r]; simpl; [done|]. apply includes_spec. eauto.
  - apply includes_spec. eauto.
Qed.

Lemma render_length segs tl : length segs ≤ length (render_think segs tl).
Proof.
  induction segs as [|[v r] segs IH]; simpl; [lia|].
  rewrite !length_app, open_tag_length. lia.
Qed.

(** What the parser answers for a text with the given reading. *)
Definition think_answer (segs : list (jsstr * jsstr)) (tl : ThinkTail) : ParsedThinkTags :=
  match segs, tl with
  | [], TVisible v => mkParsedThink v [] false
  | _, _ =>
      mkParsedThink (trim (concat segs.*1 ++ tail_visible tl))
        (trim (str_join (js "

") (segs.*2 ++ tail_reasoning tl))) (tail_open tl)
  end.

Lemma parseThinkTags_render segs tl :
  Forall wf_seg segs → wf_tail tl →
  parseThinkTags (render_think segs tl) = Some (think_answer segs tl).
Proof.
  intros Hs Ht. unfold parseThinkTags. rewrite render_includes by done.
  destruct (think_loop_render segs tl [] (S (length (render_think segs tl))) Hs Ht) as (vs & E & Hvs).
  { pose proof (render_length segs tl). lia. }
  simpl app in E. simpl length in E at 2.
  unfold think_answer. destruct segs as [|s segs]; [destruct tl as [v|v r]; [done|]|];
    cbn [negb]; rewrite E; cbn [mbind option_bind]; by rewrite Hvs.
Qed.

Lemma parseThinkTags_total content : parseThinkTags content = Some (parsedThinkTags content).
Proof.
  unfold parsedThinkTags.
  destruct (think_segments (S (length content)) content) as (segs & tl & Hs & Ht & ->); [lia|].
  by rewrite parseThinkTags_render.
Qed.

(** The text before the first tag and the text behind it are determined. *)
Lemma first_tag_unique tag v v' r r' :
  index_of tag (v ++ tag ++ r) = Some (length v) →
  index_of tag (v' ++ tag ++ r') = Some (length v') →
  v ++ tag ++ r = v' ++ tag ++ r' → v = v' ∧ r = r'.
Proof.
  intros H H' E. rewrite E, H' in H. simplify_eq.
  apply app_inj_1 in E as [-> E]; [|done]. by apply (inj (app tag)) in E.
Qed.

Lemma absent_tag tag v v' r : v' = v ++ tag ++ r → includes tag v' = false → False.
Proof.
  intros -> H. apply not_true_iff_false in H. apply H, includes_spec. eauto.
Qed.

Lemma render_tail_inj tl tl' :
  wf_tail tl → wf_tail tl' → render_tail tl = render_tail tl' → tl = tl'.
Proof.
  destruct tl as [v|v r], tl' as [v'|v' r']; simpl; intros H H' E; [by subst| | |].
  - destruct (absent_tag _ _ _ _ E H).
  - destruct (absent_tag _ _ _ _ (eq_sym E) H').
  - destruct H, H'. apply first_tag_unique in E as [-> ->]; [done|by apply open_tag_index..].
Qed.

(** A closed piece is no tail: the tail would have a closing tag too many. *)
Lemma piece_not_tail v r rest tl :
  includes open_tag v = false → wf_tail tl →
  v ++ open_tag ++ r ++ close_tag ++ rest = render_tail tl → False.
Proof.
  intros Hv Ht E. destruct tl as [v'|v' r']; simpl in *.
  - by destruct (absent_tag _ _ _ _ (eq_sym E) Ht).
  - destruct Ht as [Hv' Hr'].
    apply first_tag_unique in E as [_ E]; [|by apply open_tag_index..].
    by destruct (absent_tag _ _ _ _ (eq_sym E) Hr').
Qed.

Lemma render_think_inj segs tl segs' tl' :
  Forall wf_seg segs → wf_tail tl → Forall wf_seg segs' → wf_tail tl' →
  render_think segs tl = render_think segs' tl' → segs = segs' ∧ tl = tl'.
Proof.
  intros Hs Ht. revert segs'. induction Hs as [|[v r] segs [Hv Hr] _ IH]; intros segs' Hs' Ht' E;
    destruct Hs' as [|[v' r'] segs' [Hv' Hr'] Hs']; simpl in *.
  - split; [done|]. by apply render_tail_inj.
  - by destruct (piece_not_tail _ _ _ _ Hv' Ht (eq_sym E)).
  - by destruct (piece_not_tail _ _ _ _ Hv Ht' E).
  - apply first_tag_unique in E as [-> E]; [|by apply open_tag_index..].
    apply first_tag_unique in E as [-> E]; [|by apply close_tag_index..].
    by destruct (IH segs' Hs' Ht' E) as [-> ->].
Qed.

(** C6. Reading reasoning tags: every text is, in exactly one way, a sequence of
    closed [visible<think>reasoning</think>] pieces followed by a visible rest or
    one unclosed tag, with no opening tag in a visible part and no closing tag in
    a reasoning part; and for that sequence the loop ends and returns the visible
    parts joined, the reasoning parts joined by a blank line, and whether the
    last tag is unclosed. *)
Theorem parse_think_tags_spec content :
  ∃ segs tl,
    Forall wf_seg segs ∧ wf_tail tl ∧ content = render_think segs tl
    ∧ (∀ segs' tl', Forall wf_seg segs' → wf_tail tl' →
         content = render_think segs' tl' → segs' = segs ∧ tl' = tl)
    ∧ parseThinkTags content = Some (think_answer segs tl).
Proof.
  destruct (think_segments (S (length content)) content) as (segs & tl & Hs & Ht & ->); [lia|].
  exists segs, tl. split_and!; [done..| |by apply parseThinkTags_render].
  intros segs' tl' Hs' Ht' E. by apply render_think_inj.
Qed.

(** ** Streaming *)

(** A chunk that repeats everything received so far replaces it; any other
    chunk is appended. *)
Definition merge_text (cur chunk : jsstr) : jsstr :=
  if str_true cur && starts_with cur chunk then chunk else cur ++ chunk.

Lemma merge_appendable cur chunk : cur ++ getAppendableChunk cur chunk = merge_text cur chunk.
Proof.
  unfold getAppendableChunk, merge_text.
  destruct (str_true cur) eqn:E1, (starts_with cur chunk) eqn:E2; simpl; try done.
  apply starts_with_spec in E2 as [r ->]. by rewrite drop_app_length.
Qed.

Lemma merge_text_prefix cur chunk : cur `prefix_of` merge_text cur chunk.
Proof.
  unfold merge_text. destruct (str_true cur && starts_with cur chunk) eqn:E; [|by apply prefix_app_r].
  apply andb_true_iff in E as [_ [r ->]%starts_with_spec]. by apply prefix_app_r.
Qed.

Lemma foldl_merge_prefix cs cur : cur `prefix_of` foldl merge_text cur cs.
Proof.
  revert cur. induction cs as [|c cs IH]; intros cur; simpl; [done|].
  etrans; [apply merge_text_prefix|apply IH].
Qed.

Lemma includes_prefix p a b : a `prefix_of` b → includes p b = false → includes p a = false.
Proof.
  rewrite !includes_false. intros [k ->] H l r ->. apply (H l (r ++ k)). by rewrite <- !(assoc_L app).
Qed.

Definition reasoning_text (m : Message) : jsstr := ostr (r_content <$> reasoning m).

(** The parts of a message that streaming and completion never touch. *)
Definition identity (m : Message) : jsstr * MessageRole * option Z * option (list (jsstr * jsstr)) :=
  (key m, from m, createdAt m, sources m).

Lemma completeReasoning_frame m now :
  versions (completeReasoningTiming m now) = versions m
  ∧ identity (completeReasoningTiming m now) = identity m
  ∧ status (completeReasoningTiming m now) = status m
  ∧ isReasoningStreaming (completeReasoningTiming m now) = isReasoningStreaming m
  ∧ reasoning_text (completeReasoningTiming m now) = reasoning_text m.
Proof.
  unfold completeReasoningTiming, reasoning_text.
  destruct (reasoning m) as [r|] eqn:E; [destruct (r_durationMs r) eqn:E'|];
    simpl; rewrite ?E; done.
Qed.

Lemma processStreaming_frame m chunk now :
  getMessageContent (processStreamingContent m chunk now) = getMessageContent m ++ chunk
  ∧ identity (processStreamingContent m chunk now) = identity m.
Proof. unfold processStreamingContent. by destruct (_ && _). Qed.

(** Content without an opening tag leaves the reasoning alone. *)
Lemma processStreaming_plain m chunk now :
  includes open_tag (getMessageContent m ++ chunk) = false →
  reasoning (processStreamingContent m chunk now) = reasoning m
  ∧ isReasoningStreaming (processStreamingContent m chunk now) = Some false.
Proof.
  intros H. unfold processStreamingContent. fold (getMessageContent m). rewrite H.
  destruct (reasoning m) eqn:E; cbn [negb andb]; [|by simpl].
  unfold parsedThinkTags, parseThinkTags. rewrite H. simpl. done.
Qed.

Lemma applyStreamingChunk_content m type chunk now :
  has_status SError m = false →
  getMessageContent (applyStreamingChunk m type chunk now)
    = (match type with KContent => merge_text (getMessageContent m) chunk
                     | KReasoning => getMessageContent m end)
  ∧ identity (applyStreamingChunk m type chunk now) = identity m
  ∧ status (applyStreamingChunk m type chunk now) = Some SStreaming.
Proof.
  intros Hs. unfold applyStreamingChunk. rewrite Hs. destruct type; [done|].
  fold (getMessageContent m).
  set (cm := processStreamingContent m _ now).
  destruct (processStreaming_frame m (getAppendableChunk (getMessageContent m) chunk) now) as [Hc Hi].
  fold cm in Hc, Hi. rewrite merge_appendable in Hc.
  destruct (completeReasoning_frame cm now) as (Hv & Hi' & _).
  destruct (isReasoningStreaming cm) as [[]|];
    unfold getMessageContent, getCurrentVersion, identity in *; simpl; rewrite ?Hv; split_and!; congruence.
Qed.

Lemma applyStreamingChunk_reasoning m type chunk now :
  has_status SError m = false →
  includes open_tag (getMessageContent (applyStreamingChunk m type chunk now)) = false →
  reasoning_text (applyStreamingChunk m type chunk now)
    = match type with KReasoning => merge_text (reasoning_text m) chunk
                    | KContent => reasoning_text m end.
Proof.
  intros Hs. destruct (applyStreamingChunk_content m type chunk now Hs) as (-> & _).
  unfold applyStreamingChunk. rewrite Hs. destruct type; intros Ht.
  - unfold reasoning_text, startReasoningTiming. destruct (reasoning m); simpl.
    + apply merge_appendable.
    + apply (merge_appendable []).
  - rewrite <- merge_appendable in Ht. apply (processStreaming_plain _ _ now) in Ht as [Hr Hf].
    fold (getMessageContent m). rewrite Hf.
    set (cm := processStreamingContent m _ now) in *.
    destruct (completeReasoning_frame cm now) as (_ & _ & _ & _ & E).
    unfold reasoning_text in *. simpl. by rewrite E, Hr.
Qed.

Definition chunk_texts (k : StreamChunkType) (cs : list (StreamChunkType * jsstr * Z)) : list jsstr :=
  (fun c => c.1.2) <$> filter (fun c => c.1.1 = k) cs.

Definition applyChunks (m : Message) (cs : list (StreamChunkType * jsstr * Z)) : Message :=
  foldl (fun m c => applyStreamingChunk m c.1.1 c.1.2 c.2) m cs.

Lemma applyChunks_content m cs :
  has_status SError m = false →
  getMessageContent (applyChunks m cs) = foldl merge_text (getMessageContent m) (chunk_texts KContent cs)
  ∧ identity (applyChunks m cs) = identity m
  ∧ has_status SError (applyChunks m cs) = false.
Proof.
  unfold applyChunks, chunk_texts. revert m. induction cs as [|[[ty c] now] cs IH]; intros m Hs; [done|].
  cbn [foldl fst snd]. destruct (applyStreamingChunk_content m ty c now Hs) as (Hc & Hi & Hst).
  destruct (IH (applyStreamingChunk m ty c now)) as (Hc' & Hi' & Hs').
  { unfold has_status. rewrite Hst. by case_bool_decide. }
  split_and!; [|congruence|done]. rewrite Hc', Hc. rewrite filter_cons. by destruct ty.
Qed.

Lemma applyChunks_reasoning m cs :
  has_status SError m = false →
  includes open_tag (getMessageContent (applyChunks m cs)) = false →
  reasoning_text (applyChunks m cs) = foldl merge_text (reasoning_text m) (chunk_texts KReasoning cs).
Proof.
  intros Hs. rewrite (proj1 (applyChunks_content m cs Hs)).
  revert m Hs. unfold applyChunks, chunk_texts. induction cs as [|[[ty c] now] cs IH]; intros m Hs; [done|].
  cbn [foldl fst snd]. destruct (applyStreamingChunk_content m ty c now Hs) as (Hc & _ & Hst).
  assert (has_status SError (applyStreamingChunk m ty c now) = false) as Hs'.
  { unfold has_status. rewrite Hst. by case_bool_decide. }
  intros Ht.
  assert (includes open_tag (foldl merge_text (getMessageContent (applyStreamingChunk m ty c now))
    ((λ c0, c0.1.2) <$> filter (λ c0 : StreamChunkType * jsstr * Z, c0.1.1 = KContent) cs)) = false) as Ht'.
  { rewrite Hc. revert Ht. rewrite filter_cons. by destruct ty. }
  rewrite (IH _ Hs' Ht'), applyStreamingChunk_reasoning; [|done|].
  - rewrite filter_cons. by destruct ty.
  - eapply includes_prefix; [apply foldl_merge_prefix|apply Ht'].
Qed.

(** C7. Streaming a reply into a message that has not failed: over any sequence
    of content and reasoning chunks the shown text is the content chunks merged
    in order (a chunk that repeats all of the text so far replaces it, any other
    is appended), the reasoning is the reasoning chunks merged in order as long
    as the content carries no reasoning tag, key, role and creation time never
    change, and a message that has failed is never written again. *)
Theorem streaming_spec m cs :
  (has_status SError m = false →
   getMessageContent (applyChunks m cs)
     = foldl merge_text (getMessageContent m) (chunk_texts KContent cs)
   ∧ identity (applyChunks m cs) = identity m
   ∧ has_status SError (applyChunks m cs) = false
   ∧ (includes open_tag (getMessageContent (applyChunks m cs)) = false →
      reasoning_text (applyChunks m cs)
        = foldl merge_text (reasoning_text m) (chunk_texts KReasoning cs)))
  ∧ (has_status SError m = true → applyChunks m cs = m).
Proof.
  split.
  - intros Hs. destruct (applyChunks_content m cs Hs) as (? & ? & ?).
    split_and!; [done..|]. by apply applyChunks_reasoning.
  - intros Hs. unfold applyChunks. induction cs as [|c cs IH]; simpl; [done|].
    unfold applyStreamingChunk at 2. by rewrite Hs.
Qed.

(** ** Completion and loading *)

Lemma completeAssistantTiming_frame m now :
  versions (completeAssistantTiming m now) = versions m
  ∧ identity (completeAssistantTiming m now) = identity m
  ∧ status (completeAssistantTiming m now) = status m
  ∧ reasoning (completeAssistantTiming m now) = reasoning m
  ∧ isReasoningStreaming (completeAssistantTiming m now) = isReasoningStreaming m.
Proof. unfold completeAssistantTiming. by destruct (is_assistant m). Qed.

(** What finishing a message leaves of its text and reasoning. *)
Definition final_content (m : Message) : jsstr :=
  if includes open_tag (getMessageContent m)
  then visibleContent (parsedThinkTags (getMessageContent m)) else getMessageContent m.

Definition final_reasoning (m : Message) (api : option jsstr) : jsstr :=
  str_or (ostr api)
    (str_or (reasoning_text m)
       (if includes open_tag (getMessageContent m)
        then p_reasoning (parsedThinkTags (getMessageContent m)) else [])).

Lemma finalizeMessage_frame m api now :
  getMessageContent (finalizeMessage m api now) = final_content m
  ∧ identity (finalizeMessage m api now) = identity m
  ∧ reasoning_text (finalizeMessage m api now) = final_reasoning m api
  ∧ isReasoningStreaming (finalizeMessage m api now) = Some false
  ∧ startedAt (finalizeMessage m api now) = startedAt m.
Proof.
  unfold finalizeMessage. fold (getMessageContent m).
  set (x := with_reasoningStreaming _ _).
  destruct (completeReasoning_frame x now) as (Hv & Hi & Hs & Hr & Ht).
  unfold getMessageContent at 1, getCurrentVersion. rewrite Hv, Hi, Hr, Ht.
  assert (startedAt (completeReasoningTiming x now) = startedAt m) as Hst.
  { unfold completeReasoningTiming. by destruct (reasoning x) as [r|]; [destruct (r_durationMs r)|]. }
  rewrite Hst. unfold final_content, final_reasoning, reasoning_text, x. clear.
  destruct (includes open_tag (getMessageContent m)); simpl; split_and!; try done;
    case_match eqn:E; simpl; try done; by apply str_true_false in E.
Qed.

(** Finished reasoning: a duration that agrees with its stamps. *)
Definition reasoning_timed (m : Message) : Prop :=
  match reasoning m with
  | Some r => is_Some (r_durationMs r)
  | None => True
  end.

Lemma completeReasoning_timed m now : reasoning_timed (completeReasoningTiming m now).
Proof.
  unfold reasoning_timed, completeReasoningTiming.
  destruct (reasoning m) as [r|] eqn:E; [destruct (r_durationMs r) eqn:E'|]; simpl; rewrite ?E; eauto.
Qed.

(** Completing an assistant message leaves the visible text (reasoning tags
    stripped), keeps the reasoning already streamed or else the tagged one, stops
    the reasoning indicator, and stamps a completion time and a duration that is
    never negative, even when the clock has gone backwards; completing the
    reasoning a second time changes nothing. *)
Theorem complete_message_spec m now :
  let m' := completeAssistantMessage m now in
  is_assistant m = true →
  getMessageContent m' = final_content m
  ∧ reasoning_text m' = final_reasoning m None
  ∧ identity m' = identity m
  ∧ status m' = Some SComplete ∧ isAssistantMessageFinal m' = true
  ∧ isReasoningStreaming m' = Some false
  ∧ completedAt m' = Some now
  ∧ (∃ d st, durationMs m' = Some d ∧ startedAt m' = Some st ∧ (0 ≤ d)%Z ∧ (now ≤ st + d)%Z)
  ∧ (∀ later, completeReasoningTiming m' later = m').
Proof.
  intros m' Ha. unfold m', completeAssistantMessage.
  set (f := finalizeMessage m None now).
  destruct (finalizeMessage_frame m None now) as (Hc & Hi & Hr & Hrs & _). fold f in Hc, Hi, Hr, Hrs.
  destruct (completeAssistantTiming_frame (with_status SComplete f) now) as (Hv & Hi' & Hs & Hr' & Hrs').
  assert (is_assistant (with_status SComplete f) = true) as Ha'.
  { unfold is_assistant in *. simpl. unfold identity in Hi. by replace (from f) with (from m) by congruence. }
  assert (reasoning_timed f) as Hd by apply completeReasoning_timed.
  unfold getMessageContent, getCurrentVersion, reasoning_text, isAssistantMessageFinal, has_status.
  rewrite Hv, Hi', Hs, Hr', Hrs'. simpl. split_and!; try done.
  - unfold completeAssistantTiming. by rewrite Ha'.
  - unfold completeAssistantTiming. rewrite Ha'. simpl. do 2 eexists. split_and!; [done..|lia|lia].
  - intros later. unfold completeReasoningTiming at 1. rewrite Hr'. simpl.
    unfold reasoning_timed in Hd. destruct (reasoning f) as [r|]; [|done].
    by destruct Hd as [d ->].
Qed.

Lemma complete_message_spec_witness :
  let m := createLoadingAssistantMessage [1%N] [2%N] 5%Z in
  status (completeAssistantMessage m 3%Z) = Some SComplete.
Proof. simpl. eapply complete_message_spec. reflexivity. Defined.

Lemma last_pending_Some ms i :
  last_pending ms = Some i →
  ∃ m, ms !! i = Some m ∧ isPendingAssistantMessage m = true
       ∧ ∀ j m', i < j → ms !! j = Some m' → isPendingAssistantMessage m' = false.
Proof.
  revert i. induction ms as [|m ms IH]; intros i; simpl; [done|].
  destruct (last_pending ms) as [k|] eqn:E.
  - intros [= <-]. destruct (IH k eq_refl) as (m' & ? & ? & Hj). exists m'. split_and!; [done..|].
    intros [|j] ? ?; [lia|]. simpl. apply Hj. lia.
  - destruct (isPendingAssistantMessage m) eqn:Em; [|done]. intros [= <-].
    exists m. split_and!; [done..|]. intros [|j] m' Hj Hm'; [lia|]. simpl in Hm'. clear IH.
    revert E j Hj Hm'. induction ms as [|x ms IH]; simpl; [done|].
    destruct (last_pending ms); [done|]. destruct (isPendingAssistantMessage x) eqn:Ex; [done|].
    intros _ [|j] ? ?; simplify_eq/=; [done|]. apply (IH eq_refl (j)); [lia|done].
Qed.

Lemma last_pending_None ms :
  last_pending ms = None → ∀ j m, ms !! j = Some m → isPendingAssistantMessage m = false.
Proof.
  induction ms as [|x ms IH]; simpl; [done|].
  destruct (last_pending ms); [done|]. destruct (isPendingAssistantMessage x) eqn:Ex; [done|].
  intros _ [|j] m ?; simplify_eq/=; [done|]. by apply (IH eq_refl j).
Qed.

Lemma completeAssistantTiming_final m now s :
  status m = Some s → isPendingAssistantMessage (completeAssistantTiming m now)
  = is_assistant m && bool_decide (s = SLoading ∨ s = SStreaming).
Proof.
  intros Hs. destruct (completeAssistantTiming_frame m now) as (_ & Hi & Hst & _).
  unfold isPendingAssistantMessage, is_assistant, isAssistantMessagePending, has_status.
  unfold identity in Hi. replace (from (completeAssistantTiming m now)) with (from m) by congruence.
  rewrite Hst, Hs. f_equal. by destruct s.
Qed.

Lemma sanitizeMessage_spec t m now :
  isPendingAssistantMessage (sanitizeMessage t m now) = false
  ∧ identity (sanitizeMessage t m now) = identity m
  ∧ isReasoningStreaming (sanitizeMessage t m now) = Some false
  ∧ status (sanitizeMessage t m now)
    = Some (if str_true (trim (final_content m)) || str_true (trim (final_reasoning m None))
            then SComplete else SError).
Proof.
  unfold sanitizeMessage. destruct (finalizeMessage_frame m None now) as (Hc & Hi & Hr & _).
  set (f := finalizeMessage m None now) in *. unfold hasMessageContent.
  fold (reasoning_text f). rewrite Hc, Hr.
  destruct (_ || _); cbv zeta;
    (erewrite completeAssistantTiming_final by done; rewrite andb_false_r;
     match goal with |- context [completeAssistantTiming ?x now] =>
       destruct (completeAssistantTiming_frame x now) as (_ & Hi' & Hs & _ & Hrs) end;
     split_and!; [done|rewrite Hi'; apply Hi|done|done]).
Qed.

(** Loading a stored conversation changes nothing but its last pending
    assistant message; that one keeps its key, role and creation time, is no
    longer pending, and becomes an error exactly when it has neither visible
    text nor reasoning.  A conversation without one is returned as it is. *)
Theorem sanitize_on_load_spec t ms now :
  let ms' := sanitizeMessagesOnLoad t ms now in
  length ms' = length ms
  ∧ match last_pending ms with
    | None => ms' = ms ∧ ∀ j m, ms !! j = Some m → isPendingAssistantMessage m = false
    | Some i =>
        ∃ m m', ms !! i = Some m ∧ ms' !! i = Some m'
          ∧ isPendingAssistantMessage m = true ∧ isPendingAssistantMessage m' = false
          ∧ identity m' = identity m
          ∧ (status m' = Some SError ↔ trim (final_content m) = [] ∧ trim (final_reasoning m None) = [])
          ∧ (∀ j, j ≠ i → ms' !! j = ms !! j)
          ∧ (∀ j x, i ≤ j → ms' !! j = Some x → isPendingAssistantMessage x = false)
    end.
Proof.
  unfold sanitizeMessagesOnLoad. destruct (last_pending ms) as [i|] eqn:E; cbv zeta.
  2:{ split; [done|]. split; [done|]. by apply last_pending_None. }
  destruct (last_pending_Some ms i E) as (m & Hm & Hp & Hj). rewrite Hm.
  destruct (sanitizeMessage_spec t m now) as (Hf & Hi & _ & Hs).
  split; [apply length_insert|].
  assert (<[i:=sanitizeMessage t m now]> ms !! i = Some (sanitizeMessage t m now)) as Hins.
  { apply list_lookup_insert_eq. by eapply lookup_lt_Some. }
  exists m, (sanitizeMessage t m now). split_and!; try done.
  - rewrite Hs. rewrite <- !str_true_false.
    destruct (str_true (trim (final_content m))), (str_true (trim (final_reasoning m None))); naive_solver.
  - intros j Hne. by rewrite list_lookup_insert_ne.
  - intros j x Hle Hx. destruct (decide (j = i)) as [->|Hne]; [congruence|].
    rewrite list_lookup_insert_ne in Hx by done. apply (Hj j); [lia|done].
Qed.

(** ** Editing the conversation *)

Lemma findIndex_Some {A} (f : A → bool) l i :
  findIndex f l = Some i →
  ∃ pre x post, l = pre ++ x :: post ∧ length pre = i ∧ f x = true
                ∧ Forall (fun y => f y = false) pre.
Proof.
  revert i. induction l as [|x l IH]; intros i; simpl; [done|].
  destruct (f x) eqn:E.
  - intros [= <-]. exists [], x, l. eauto.
  - intros (j & Hj & ->)%fmap_Some. destruct (IH j Hj) as (pre & y & post & -> & <- & Hy & Hf).
    exists (x :: pre), y, post. split_and!; [done..|]. by constructor.
Qed.

Lemma findIndex_None {A} (f : A → bool) l :
  findIndex f l = None ↔ Forall (fun y => f y = false) l.
Proof.
  induction l as [|x l IH]; simpl; [naive_solver|].
  destruct (f x) eqn:E; [split; [done|]; inversion 1; congruence|].
  rewrite fmap_None, IH, Forall_cons. naive_solver.
Qed.

Lemma regenerate_cases ids ms k now :
  let a := createLoadingAssistantMessage (a_key ids) (a_version ids) now in
  match createRegeneratedMessages ids ms k now with
  | None => ∀ m, m ∈ ms → key m ≠ k
  | Some ms' =>
      ∃ pre m post, ms = pre ++ m :: post ∧ key m = k ∧ (∀ x, x ∈ pre → key x ≠ k)
        ∧ ms' = pre ++ (if is_user m then [m] else []) ++ [a]
  end.
Proof.
  unfold createRegeneratedMessages.
  destruct (findIndex (has_key k) ms) as [i|] eqn:E; cbn [mbind option_bind].
  2:{ apply findIndex_None in E. rewrite Forall_forall in E. intros m Hm Hk.
      specialize (E m Hm). unfold has_key in E. by rewrite bool_decide_eq_false in E. }
  apply findIndex_Some in E as (pre & m & post & -> & <- & Hk & Hpre).
  rewrite list_lookup_middle by done. cbn [mbind option_bind].
  unfold has_key in Hk. apply bool_decide_eq_true in Hk.
  exists pre, m, post. split_and!; [done..| |].
  - rewrite Forall_forall in Hpre. intros x Hx. specialize (Hpre x Hx).
    by apply bool_decide_eq_false in Hpre.
  - destruct (is_user m); simpl.
    + rewrite (cons_middle m), (assoc_L app), take_app_length'; [by rewrite <- (assoc_L app)|].
      rewrite length_app. simpl. lia.
    + by rewrite take_app_length.
Qed.

(** Regenerating: an unknown key is refused; otherwise the conversation is
    cut at the first message with that key, which is kept when it is the user's,
    and one new loading assistant message follows. *)
Theorem regenerate_spec ids ms k now :
  let a := createLoadingAssistantMessage (a_key ids) (a_version ids) now in
  match createRegeneratedMessages ids ms k now with
  | None => ∀ m, m ∈ ms → key m ≠ k
  | Some ms' =>
      ∃ pre m post, ms = pre ++ m :: post ∧ key m = k ∧ (∀ x, x ∈ pre → key x ≠ k)
        ∧ ms' = pre ++ (if is_user m then [m] else []) ++ [a]
  end.
Proof. apply regenerate_cases. Qed.

Lemma editMessage_frame k c b now m :
  key (editMessage k c b now m) = key m ∧ from (editMessage k c b now m) = from m
  ∧ isPendingAssistantMessage (editMessage k c b now m) = isPendingAssistantMessage m
  ∧ (key m = k → getMessageContent (editMessage k c b now m) = c).
Proof.
  unfold editMessage, has_key. case_bool_decide; split_and!; try done.
Qed.

Lemma edit_cases ids ms k c b now :
  match applyMessageEdit ids ms k c b now with
  | None => ∀ m, m ∈ ms → key m ≠ k
  | Some r =>
      ∃ pre m post, ms = pre ++ m :: post ∧ key m = k ∧ (∀ x, x ∈ pre → key x ≠ k)
        ∧ shouldSend r = b && is_user m
        ∧ edit_messages r =
            pre ++ editMessage k c b now m ::
              (if shouldSend r
               then [createLoadingAssistantMessage (a_key ids) (a_version ids) now]
               else editMessage k c b now <$> post)
        ∧ getMessageContent (editMessage k c b now m) = c
  end.
Proof.
  unfold applyMessageEdit.
  destruct (findIndex (has_key k) ms) as [i|] eqn:E; cbn [mbind option_bind].
  2:{ apply findIndex_None in E. rewrite Forall_forall in E. intros m Hm Hk.
      specialize (E m Hm). unfold has_key in E. by rewrite bool_decide_eq_false in E. }
  apply findIndex_Some in E as (pre & m & post & -> & <- & Hk & Hpre).
  unfold has_key in Hk. apply bool_decide_eq_true in Hk.
  destruct (editMessage_frame k c b now m) as (_ & Hf & _ & Hc).
  assert (editMessage k c b now <$> pre = pre) as Hid.
  { clear -Hpre. induction Hpre as [|x pre Hx _ IH]; [done|]. rewrite fmap_cons, IH.
    unfold editMessage. by rewrite Hx. }
  rewrite fmap_app, fmap_cons, Hid, list_lookup_middle by done. cbn [mbind option_bind].
  replace (is_user (editMessage k c b now m)) with (is_user m) by (unfold is_user; by rewrite Hf).
  assert (∀ x, x ∈ pre → key x ≠ k) as Hpre'.
  { rewrite Forall_forall in Hpre. intros x Hx. specialize (Hpre x Hx).
    by apply bool_decide_eq_false in Hpre. }
  destruct b, (is_user m) eqn:Eu; simpl; exists pre, m, post; split_and!; auto; simpl.
  rewrite (cons_middle (editMessage k c true now m)), (assoc_L app), take_app_length';
    [by rewrite <- (assoc_L app)|]. rewrite length_app. simpl. lia.
Qed.

(** Editing: an unknown key is refused; otherwise every message with that
    key gets the new text and no other message changes.  The reply is requested
    exactly when the edit is submitted and the first such message is the user's;
    then everything after it is dropped and one loading assistant message
    follows, otherwise the conversation keeps its length. *)
Theorem edit_spec ids ms k c b now :
  match applyMessageEdit ids ms k c b now with
  | None => ∀ m, m ∈ ms → key m ≠ k
  | Some r =>
      ∃ pre m post, ms = pre ++ m :: post ∧ key m = k ∧ (∀ x, x ∈ pre → key x ≠ k)
        ∧ shouldSend r = b && is_user m
        ∧ edit_messages r =
            pre ++ editMessage k c b now m ::
              (if shouldSend r
               then [createLoadingAssistantMessage (a_key ids) (a_version ids) now]
               else editMessage k c b now <$> post)
        ∧ getMessageContent (editMessage k c b now m) = c
  end.
Proof. apply edit_cases. Qed.

(** A conversation in good order: distinct keys, and only the last message can
    be an assistant message still being generated. *)
Record conversation_ok (ms : list Message) : Prop := {
  keys_distinct : NoDup (key <$> ms);
  pending_last : ∀ i m, ms !! i = Some m → isPendingAssistantMessage m = true → S i = length ms
}.

(** The operations of the chat page on its message list. *)
Inductive ConvOp :=
| OSend (ids : Ids) (content : jsstr) (now : Z)
| ORegenerate (ids : Ids) (k : jsstr) (now : Z)
| OEdit (ids : Ids) (k content : jsstr) (submit : bool) (now : Z)
| ORemove (k : jsstr)
| OChunk (type : StreamChunkType) (chunk : jsstr) (now : Z)
| OComplete (now : Z)
| OFail (message : jsstr) (code : option jsstr) (title : jsstr) (now : Z)
| OLoad (t : jsstr → jsstr) (now : Z).

Definition conv_step (o : ConvOp) (ms : list Message) : list Message :=
  match o with
  | OSend ids c now => appendUserMessagePair ids ms c now
  | ORegenerate ids k now => default ms (createRegeneratedMessages ids ms k now)
  | OEdit ids k c b now => from_option edit_messages ms (applyMessageEdit ids ms k c b now)
  | ORemove k => removeMessageByKey ms k
  | OChunk ty c now => updateLastAssistantMessage ms (fun m => applyStreamingChunk m ty c now)
  | OComplete now => updateLastAssistantMessage ms (fun m => completeAssistantMessage m now)
  | OFail msg code title now => updateAssistantMessageWithError ms msg code title now
  | OLoad t now => sanitizeMessagesOnLoad t ms now
  end.

(** New keys are fresh, and a message is sent only when none is being generated. *)
Definition conv_guard (o : ConvOp) (ms : list Message) : Prop :=
  match o with
  | OSend ids _ _ =>
      last_pending ms = None ∧ u_key ids ∉ key <$> ms ∧ a_key ids ∉ key <$> ms
      ∧ u_key ids ≠ a_key ids
  | ORegenerate ids _ _ | OEdit ids _ _ _ _ => a_key ids ∉ key <$> ms
  | _ => True
  end.

Lemma conversation_ok_keys ms ms' :
  key <$> ms' = key <$> ms →
  (∀ i m', ms' !! i = Some m' → isPendingAssistantMessage m' = true → S i = length ms) →
  conversation_ok ms → conversation_ok ms'.
Proof.
  intros Hk Hp [Hd _]. split; [by rewrite Hk|].
  intros i m' Hm Hpm. rewrite (Hp i m' Hm Hpm).
  apply (f_equal length) in Hk. by rewrite !length_fmap in Hk.
Qed.

Lemma conversation_ok_prefix pre rest :
  conversation_ok (pre ++ rest) → rest ≠ [] →
  NoDup (key <$> pre) ∧ ∀ i m, pre !! i = Some m → isPendingAssistantMessage m = false.
Proof.
  intros [Hd Hp] Hr. rewrite fmap_app in Hd. apply NoDup_app in Hd as (Hd & _ & _).
  split; [done|]. intros i m Hm. apply not_true_iff_false. intros Hpm.
  assert (i < length pre) by (by eapply lookup_lt_Some).
  rewrite <- (lookup_app_l pre rest) in Hm by done. apply Hp in Hm; [|done].
  rewrite length_app in Hm. destruct rest; [done|]. simpl in Hm. lia.
Qed.

Lemma conversation_ok_extend pre xs y :
  NoDup (key <$> pre ++ xs) → (∀ i m, pre !! i = Some m → isPendingAssistantMessage m = false) →
  Forall (fun x => isPendingAssistantMessage x = false) xs →
  key y ∉ key <$> pre ++ xs → conversation_ok (pre ++ xs ++ [y]).
Proof.
  intros Hd Hp Hx Hy. rewrite (assoc_L app). split.
  - rewrite fmap_app. apply NoDup_app. split_and!; [done| |by apply NoDup_singleton].
    intros k Hk. simpl. set_solver.
  - intros i m Hm Hpm. rewrite length_app. simpl.
    apply lookup_app_Some in Hm as [Hm|[Hle Hm]].
    + apply lookup_app_Some in Hm as [Hm|[_ Hm]]; [by rewrite (Hp i m Hm) in Hpm|].
      rewrite Forall_lookup in Hx. by rewrite (Hx _ _ Hm) in Hpm.
    + apply list_lookup_singleton_Some in Hm as [? _]. lia.
Qed.

Lemma updateLast_keys ms f :
  (∀ m, identity (f m) = identity m) →
  key <$> updateLastAssistantMessage ms f = key <$> ms.
Proof.
  intros Hf. unfold updateLastAssistantMessage. destruct (last ms) as [l|] eqn:E; [|done].
  destruct (is_assistant l); [|done].
  apply last_Some in E as [pre ->]. rewrite length_app. simpl.
  rewrite Nat.add_sub, insert_app_r_alt, Nat.sub_diag by lia. simpl.
  rewrite !fmap_app. simpl. specialize (Hf l). unfold identity in Hf. do 2 f_equal. congruence.
Qed.

Lemma updateLast_ok ms f :
  (∀ m, identity (f m) = identity m) → conversation_ok ms →
  conversation_ok (updateLastAssistantMessage ms f).
Proof.
  intros Hf Hok. apply (conversation_ok_keys ms); [by apply updateLast_keys| |done].
  unfold updateLastAssistantMessage. intros i m' Hm Hp.
  destruct (last ms) as [l|] eqn:E; [|by apply (pending_last _ Hok i m')].
  destruct (is_assistant l); [|by apply (pending_last _ Hok i m')].
  destruct (decide (i = length ms - 1)) as [->|Hne].
  - apply last_Some in E as [pre ->]. rewrite length_app. simpl. lia.
  - rewrite list_lookup_insert_ne in Hm by done. by apply (pending_last _ Hok i m').
Qed.

Lemma applyStreamingChunk_identity m ty c now :
  identity (applyStreamingChunk m ty c now) = identity m.
Proof.
  destruct (has_status SError m) eqn:E; [unfold applyStreamingChunk; by rewrite E|].
  by apply applyStreamingChunk_content.
Qed.

Lemma completeAssistantMessage_identity m now :
  identity (completeAssistantMessage m now) = identity m.
Proof.
  unfold completeAssistantMessage.
  rewrite (proj1 (proj2 (completeAssistantTiming_frame _ now))).
  apply (proj1 (proj2 (finalizeMessage_frame m None now))).
Qed.

Lemma regenerate_ok ids ms k now :
  conversation_ok ms → a_key ids ∉ key <$> ms →
  conversation_ok (default ms (createRegeneratedMessages ids ms k now)).
Proof.
  intros Hok Ha. pose proof (regenerate_cases ids ms k now) as H.
  destruct (createRegeneratedMessages ids ms k now) as [ms'|]; simpl; [|done].
  destruct H as (pre & m & post & -> & _ & _ & ->).
  destruct (conversation_ok_prefix pre (m :: post) Hok) as [_ Hp]; [done|].
  destruct Hok as [Hd _]. rewrite fmap_app, fmap_cons in Hd, Ha.
  apply NoDup_app in Hd as (Hd & Hdis & _).
  apply conversation_ok_extend; [|done| |].
  - rewrite fmap_app. apply NoDup_app. split_and!; [done| |].
    + intros x Hx. specialize (Hdis x Hx). destruct (is_user m); set_solver.
    + destruct (is_user m); [apply NoDup_singleton|apply NoDup_nil_2].
  - destruct (is_user m) eqn:Eu; [|done]. constructor; [|done].
    unfold isPendingAssistantMessage, is_assistant, is_user in *.
    apply bool_decide_eq_true in Eu. by rewrite Eu.
  - rewrite fmap_app. simpl. destruct (is_user m); set_solver.
Qed.

Lemma edit_ok ids ms k c b now :
  conversation_ok ms → a_key ids ∉ key <$> ms →
  conversation_ok (from_option edit_messages ms (applyMessageEdit ids ms k c b now)).
Proof.
  intros Hok Ha. pose proof (edit_cases ids ms k c b now) as H.
  destruct (applyMessageEdit ids ms k c b now) as [r|]; simpl; [|done].
  destruct H as (pre & m & post & -> & Hk & Hpre & Hs & Hr & _).
  destruct (editMessage_frame k c b now m) as (Ek & Ef & Ep & _).
  destruct (shouldSend r); rewrite Hr.
  - destruct (conversation_ok_prefix pre (m :: post) Hok) as [_ Hp]; [done|].
    destruct Hok as [Hd _]. rewrite fmap_app, fmap_cons in Hd, Ha.
    apply NoDup_app in Hd as (Hd & Hdis & _).
    rewrite (cons_middle _ pre).
    apply (conversation_ok_extend pre [editMessage k c b now m]); [|done| |].
    + rewrite fmap_app. simpl. rewrite Ek. apply NoDup_app. split_and!; [done| |apply NoDup_singleton].
      intros x Hx. specialize (Hdis x Hx). set_solver.
    + constructor; [|done]. rewrite Ep. symmetry in Hs. apply andb_true_iff in Hs as [_ Hu].
      unfold isPendingAssistantMessage, is_assistant, is_user in *.
      apply bool_decide_eq_true in Hu. by rewrite Hu.
    + rewrite fmap_app. simpl. rewrite Ek. set_solver.
  - apply (conversation_ok_keys (pre ++ m :: post)); [| |done].
    + rewrite !fmap_app, !fmap_cons, Ek. do 2 f_equal. rewrite <- list_fmap_compose.
      apply list_fmap_ext. intros i x _. simpl. apply editMessage_frame.
    + intros i x Hx Hpx.
      assert (∃ y, (pre ++ m :: post) !! i = Some y ∧ isPendingAssistantMessage y = true) as (y & Hy & Hpy).
      { apply lookup_app_Some in Hx as [Hx|[Hle Hx]].
        - exists x. split; [by apply lookup_app_l_Some|done].
        - rewrite lookup_app_r by done. destruct (i - length pre) as [|j]; simpl in *.
          + exists m. split; [done|]. simplify_eq. by rewrite <- Ep.
          + apply list_lookup_fmap_Some in Hx as (y & -> & Hy). exists y. split; [done|].
            by rewrite (proj1 (proj2 (proj2 (editMessage_frame k c b now y)))) in Hpx. }
      by apply (pending_last _ Hok i y).
Qed.

Lemma filter_pending_last (f : Message → bool) ms :
  (∀ i m, ms !! i = Some m → isPendingAssistantMessage m = true → S i = length ms) →
  let ms' := filter (fun m => f m = true) ms in
  ∀ i m, ms' !! i = Some m → isPendingAssistantMessage m = true → S i = length ms'.
Proof.
  induction ms as [|x ms IH] using rev_ind; intros Hp; cbv zeta; [done|].
  rewrite filter_app. intros i m Hm Hpm.
  assert (∀ i m, ms !! i = Some m → isPendingAssistantMessage m = false) as Hp'.
  { intros j y Hy. apply not_true_iff_false. intros Hpy.
    assert (j < length ms) by (by eapply lookup_lt_Some).
    rewrite <- (lookup_app_l ms [x]) in Hy by done. apply Hp in Hy; [|done].
    rewrite length_app in Hy. simpl in Hy. lia. }
  apply lookup_app_Some in Hm as [Hm|[Hle Hm]].
  - apply list_elem_of_lookup_2, list_elem_of_filter in Hm as [_ Hm].
    apply list_elem_of_lookup in Hm as [j Hj]. by rewrite (Hp' j m Hj) in Hpm.
  - rewrite filter_cons in *. rewrite length_app. destruct (decide (f x = true)); simpl in *.
    + apply list_lookup_singleton_Some in Hm as [? _]. lia.
    + by rewrite filter_nil in Hm.
Qed.

Lemma remove_ok k ms : conversation_ok ms → conversation_ok (removeMessageByKey ms k).
Proof.
  intros [Hd Hp]. split.
  - eapply sublist_NoDup; [exact Hd|]. apply fmap_sublist, sublist_filter.
  - unfold removeMessageByKey.
    assert (filter (fun m => has_key k m = false) ms
            = filter (fun m => negb (has_key k m) = true) ms) as ->.
    { apply list_filter_iff. intros x. by destruct (has_key k x). }
    by apply filter_pending_last.
Qed.

Lemma load_ok t ms now : conversation_ok ms → conversation_ok (sanitizeMessagesOnLoad t ms now).
Proof.
  intros Hok. unfold sanitizeMessagesOnLoad. destruct (last_pending ms) as [i|] eqn:E; [|done].
  destruct (last_pending_Some ms i E) as (m & Hm & Hp & _). rewrite Hm.
  destruct (sanitizeMessage_spec t m now) as (Hf & Hi & _).
  apply (conversation_ok_keys ms); [| |done].
  - rewrite list_fmap_insert. apply list_insert_id. rewrite list_lookup_fmap, Hm. simpl.
    unfold identity in Hi. congruence.
  - intros j x Hx Hpx. destruct (decide (j = i)) as [->|Hne].
    + rewrite list_lookup_insert_eq in Hx by (by eapply lookup_lt_Some). congruence.
    + rewrite list_lookup_insert_ne in Hx by done. by apply (pending_last _ Hok j x).
Qed.

Lemma send_ok ids ms c now :
  conversation_ok ms → conv_guard (OSend ids c now) ms →
  conversation_ok (appendUserMessagePair ids ms c now).
Proof.
  intros [Hd _] (Hn & Hu & Ha & Hne).
  apply (conversation_ok_extend ms [_]).
  - rewrite fmap_app. apply NoDup_app. split_and!; [done| |apply NoDup_singleton].
    intros x Hx. simpl. set_solver.
  - by apply last_pending_None.
  - constructor; done.
  - rewrite fmap_app. simpl. set_solver.
Qed.

Lemma conv_step_ok o ms : conversation_ok ms → conv_guard o ms → conversation_ok (conv_step o ms).
Proof.
  intros Hok Hg. destruct o; simpl in *.
  - by apply send_ok.
  - by apply regenerate_ok.
  - by apply edit_ok.
  - by apply remove_ok.
  - apply updateLast_ok; [|done]. intros m. apply applyStreamingChunk_identity.
  - apply updateLast_ok; [|done]. intros m. apply completeAssistantMessage_identity.
  - apply updateLast_ok; [|done]. intros m.
    by rewrite (proj1 (proj2 (completeAssistantTiming_frame _ now))).
  - by apply load_ok.
Qed.

Inductive conv_run : list Message → list ConvOp → list Message → Prop :=
| run_nil ms : conv_run ms [] ms
| run_cons ms o os ms' :
    conv_guard o ms → conv_run (conv_step o ms) os ms' → conv_run ms (o :: os) ms'.

(** C5. Any sequence of sends, regenerations, edits, removals, streamed chunks,
    completions, failures and reloads, with fresh keys and a send only when
    nothing is being generated, keeps a conversation in good order: its keys stay
    distinct and only its last message can be still generating. *)
Theorem conversation_invariant ms os ms' :
  conversation_ok ms → conv_run ms os ms' → conversation_ok ms'.
Proof.
  intros Hok Hr. induction Hr as [|ms o os ms' Hg _ IH]; [done|].
  apply IH. by apply conv_step_ok.
Qed.

Lemma conversation_invariant_witness :
  let ids := mkIds [1%N] [2%N] [3%N] [4%N] in
  let ids' := mkIds [5%N] [6%N] [7%N] [8%N] in
  conversation_ok
    (conv_step (ORegenerate ids' [1%N] 4) (conv_step (OComplete 3)
       (conv_step (OChunk KContent (js "hi") 2) (conv_step (OSend ids (js "hello") 1) [])))).
Proof.
  intros ids ids'.
  apply (conversation_invariant [] [OSend ids (js "hello") 1%Z; OChunk KContent (js "hi") 2%Z;
           OComplete 3%Z; ORegenerate ids' [1%N] 4%Z]).
  - split; [constructor|]. intros i m H. by rewrite lookup_nil in H.
  - constructor; [simpl; set_solver|]. do 2 (constructor; [exact I|]).
    constructor; [|constructor]. vm_compute. set_solver.
Defined.

(** ** Requests and views *)

Lemma isValidMessage_spec m :
  isValidMessage m = true ↔
  versions m ≠ [] ∧ ¬ (from m = RAssistant ∧ trim (getMessageContent m) = []).
Proof.
  unfold isValidMessage, is_assistant, hasMessageContent. rewrite <- str_true_false.
  destruct (versions m); [naive_solver|].
  rewrite negb_true_iff, andb_false_iff, negb_false_iff, bool_decide_eq_false.
  destruct (str_true _); naive_solver.
Qed.

(** The request sends, in order, exactly the messages that have a version
    and are not blank assistant messages, each with its role and current text;
    each sampling parameter is present exactly when it is enabled, with the
    configured value, and the seed only if it is also set. *)
Theorem payload_spec ms cfg en :
  let r := buildChatCompletionPayload ms cfg en in
  (∃ kept, kept `sublist_of` ms
     ∧ req_messages r = (fun m => mkApiMessage (from m) (getMessageContent m)) <$> kept
     ∧ ∀ m, m ∈ kept ↔ m ∈ ms ∧ versions m ≠ []
                       ∧ ¬ (from m = RAssistant ∧ trim (getMessageContent m) = []))
  ∧ req_model r = cfg_model cfg ∧ req_group r = Some (cfg_group cfg) ∧ req_stream r = cfg_stream cfg
  ∧ req_temperature r = (if en_temperature en then Some (cfg_temperature cfg) else None)
  ∧ req_top_p r = (if en_top_p en then Some (cfg_top_p cfg) else None)
  ∧ req_max_tokens r = (if en_max_tokens en then Some (cfg_max_tokens cfg) else None)
  ∧ req_frequency_penalty r
    = (if en_frequency_penalty en then Some (cfg_frequency_penalty cfg) else None)
  ∧ req_presence_penalty r
    = (if en_presence_penalty en then Some (cfg_presence_penalty cfg) else None)
  ∧ (∀ s, req_seed r = Some s ↔ en_seed en = true ∧ cfg_seed cfg = Some s).
Proof.
  intros r. split_and!; try done.
  - exists (filter (fun m => isValidMessage m = true) ms). split_and!; [apply sublist_filter|done|].
    intros m. rewrite list_elem_of_filter, isValidMessage_spec. tauto.
  - intros s. unfold r. simpl. destruct (en_seed en); naive_solver.
Qed.

(** What the page shows of a message: the loader only for an assistant
    message being generated whose reasoning is not streaming; an error box
    exactly for a failed message, never blank, with the settings link exactly for
    a price error seen by an administrator; an edit can be saved exactly when it
    is not blank and differs; user text is shown unparsed. *)
Theorem message_view_spec m text original admin :
  let c := getMessageContentState m text in
  (showLoader c = true → isPendingAssistantMessage m = true ∧ flag (isReasoningStreaming m) = false)
  ∧ (is_assistant m = false → displayContent c = text ∧ reasoningContent c = None)
  ∧ (∀ rc, reasoningContent c = Some rc → rc ≠ [] ∧ reasoning_text m = rc)
  ∧ (is_Some (getMessageErrorState m admin) ↔ status m = Some SError)
  ∧ (∀ e, getMessageErrorState m admin = Some e →
       err_content e ≠ []
       ∧ (showSettingsLink e = true ↔
          errorCode m = Some (Some MODEL_PRICE_ERROR_CODE) ∧ admin = true))
  ∧ (canSave (getMessageEditorState m text original) = true ↔ trim text ≠ [] ∧ text ≠ original).
Proof.
  intros c. split_and!.
  - unfold c. simpl. unfold shouldShowMessageLoader, isPendingAssistantMessage, isAssistantMessagePending.
    destruct (is_assistant m), (flag (isReasoningStreaming m)), (has_status SLoading m),
      (has_status SStreaming m); done.
  - intros H. unfold c, getMessageContentState, getDisplayContent. by rewrite H.
  - intros rc. unfold c. simpl. unfold reasoning_text.
    destruct (is_assistant m); simpl; [|done].
    destruct (reasoning m) as [r|]; simpl; [|done].
    destruct (r_content r) eqn:E; simpl; naive_solver.
  - unfold getMessageErrorState, isErrorMessage, has_status. case_bool_decide; simpl; [by split|].
    split; [by intros [? ?]|done].
  - unfold getMessageErrorState. destruct (negb _); [done|]. intros e [= <-]. simpl. split.
    + unfold str_or. destruct (getMessageContent m); simpl; [by vm_compute|done].
    + rewrite andb_true_iff, bool_decide_eq_true. done.
  - unfold getMessageEditorState. simpl. rewrite andb_true_iff, negb_true_iff, bool_decide_eq_true, bool_decide_eq_false.
    destruct (trim text); simpl; naive_solver lia.
Qed.

(** Two equal first deltas of a reply leave one: a chunk that repeats the
    whole text so far is taken for a snapshot of it. *)
Theorem repeated_first_delta_lost keyId versionId started c now now' :
  c ≠ [] →
  let m := createLoadingAssistantMessage keyId versionId started in
  getMessageContent (applyChunks m [(KContent, c, now); (KContent, c, now')]) = c.
Proof.
  intros Hc m. rewrite (proj1 (applyChunks_content m _ eq_refl)).
  cbn. unfold merge_text. simpl. destruct c as [|x c]; [done|].
  by rewrite (proj2 (starts_with_spec (x :: c) (x :: c))) by (exists []; by rewrite (right_id_L [] (++))).
Qed.

Lemma repeated_first_delta_lost_witness :
  let m := createLoadingAssistantMessage [1%N] [2%N] 0%Z in
  getMessageContent (applyChunks m [(KContent, js "ha", 1%Z); (KContent, js "ha", 2%Z)]) = js "ha".
Proof. apply repeated_first_delta_lost. vm_compute. discriminate. Defined.

End ChatMessage.
