(* ===== verification/ChatStream.v ===== *)
(** * Streaming requests of the playground
    (src/web/src/features/playground/hooks/use-stream-request.ts,
    lib/streaming/stream-utils.ts, lib/streaming/request-error-utils.ts)

    The controller of event-source requests as a state machine.  A request is
    identified by its position among the calls of [send], and so is the event
    source it opens.  Its [await] and the three listeners are events of the
    environment, which may come in any order and at any time; the callbacks it
    makes are the outputs of a step.  [requests] keeps the closure of each call:
    its generation, how far it got and its [completed] flag. *)

From S2P Require Import Prelude JsString JsValue JsJson ChatMessage.
Import ChatMessage.

Module ChatStream.

(** ** stream-utils.ts *)

Definition STREAM_DONE_MESSAGE : jsstr := js "[DONE]".
Definition STREAM_CLOSED_READY_STATE : Z := 2.
Definition PARSE_ERROR : jsstr := js "Error parsing response data".
Definition STREAM_START_ERROR : jsstr := js "Error establishing connection".

(** [a || b] on values *)
Definition or_val (a b : jsval) : jsval := if truthy a then a else b.

(** [v?.[0]] *)
Definition index0 (v : jsval) : jsval :=
  match v with
  | JArr (x :: _) => x
  | JStr (c :: _) => JStr [c]
  | JObj fs => default JUndef (mget (js "0") fs)
  | _ => JUndef
  end.

Record StreamErrorDetails := mkDetails { d_errorCode : jsval; d_errorMessage : jsval }.

Definition parseStreamErrorDetails (data : option jsstr) : StreamErrorDetails :=
  let fallbackMessage := JStr (str_or (ostr data) API_REQUEST_ERROR) in
  if negb (str_true (ostr data)) then mkDetails JUndef fallbackMessage
  else match JSON_parse (ostr data) with
       | None => mkDetails JUndef fallbackMessage
       | Some parsed =>
           let e := JsValue.prop "error" parsed in
           if negb (truthy e) then mkDetails JUndef fallbackMessage
           else mkDetails (or_val (JsValue.prop "code" e) JUndef)
                  (or_val (JsValue.prop "message" e) fallbackMessage)
       end.

Definition StreamMessageUpdate : Type := StreamChunkType * jsval.

(** [None] when it throws: on a text that is no JSON, and on null, which has no
    properties. *)
Definition parseStreamMessageUpdates (data : jsstr) : option (list StreamMessageUpdate) :=
  match JSON_parse data with
  | None | Some JNull => None
  | Some chunk =>
      let delta := JsValue.prop "delta" (index0 (JsValue.prop "choices" chunk)) in
      if negb (truthy delta) then Some []
      else
        let r := JsValue.prop "reasoning_content" delta in
        let c := JsValue.prop "content" delta in
        Some ((if truthy r then [(KReasoning, r)] else []) ++ (if truthy c then [(KContent, c)] else []))
  end.

Definition isStreamDoneMessage (data : jsstr) : bool := bool_decide (data = STREAM_DONE_MESSAGE).

Definition isStreamClosedReadyState (readyState : option Z) : bool :=
  bool_decide (readyState = Some STREAM_CLOSED_READY_STATE).

Definition getStreamReadyStateError (eventReadyState status : option Z) : option jsstr :=
  match eventReadyState, status with
  | Some rs, Some st =>
      if (STREAM_CLOSED_READY_STATE <=? rs)%Z && negb (st =? 200)%Z
      then Some (js "HTTP " ++ str_of_Z st ++ js ": " ++ CONNECTION_CLOSED) else None
  | _, _ => None
  end.

(** request-error-utils.ts *)
Definition parseRequestErrorDetails (error : jsval) : StreamErrorDetails :=
  let data := JsValue.prop "data" (JsValue.prop "response" error) in
  mkDetails (or_val (JsValue.prop "code" (JsValue.prop "error" data)) JUndef)
    (or_val (JsValue.prop "message" data)
       (or_val (JsValue.prop "message" error) (JStr API_REQUEST_ERROR))).

(** ** The controller *)

Inductive Phase :=
| PWaiting                    (** awaiting the headers *)
| POpen (completed : bool)    (** its source is created *)
| PReturned.                  (** [send] returned before creating a source *)

Record Request := mkReq { requestGeneration : nat; phase : Phase }.

Record Controller := mkCtl {
  source : option nat;
  generation : nat;
  streaming : bool;           (** the last [runtime.setStreaming] *)
  closed : list nat;          (** the sources whose [close] was called *)
  requests : list Request
}.

Definition createStreamRequestController : Controller := mkCtl None 0 false [] [].

(** The calls of [StreamRequestCallbacks], tagged with their request. *)
Inductive Callback :=
| OnUpdate (type : StreamChunkType) (chunk : jsval)
| OnComplete
| OnError (error errorCode : jsval).

Definition Output : Type := nat * Callback.

Definition setPhase (r : nat) (p : Phase) (c : Controller) : Controller :=
  mkCtl (source c) (generation c) (streaming c) (closed c)
    (alter (fun q => mkReq (requestGeneration q) p) r (requests c)).

Definition closeActiveSource (target : nat) (c : Controller) : Controller :=
  if bool_decide (source c = Some target)
  then mkCtl None (generation c) false (closed c ++ [target]) (requests c)
  else mkCtl (source c) (generation c) (streaming c) (closed c ++ [target]) (requests c).

(** [activeSource?.close()] *)
Definition closeSource (s : option nat) (closed : list nat) : list nat :=
  match s with Some r => closed ++ [r] | None => closed end.

(** [send] up to its [await] *)
Definition send (c : Controller) : Controller :=
  mkCtl None (S (generation c)) false (closeSource (source c) (closed c))
    (requests c ++ [mkReq (S (generation c)) PWaiting]).

Definition cancel (notify : bool) (c : Controller) : Controller :=
  mkCtl None (S (generation c)) (if notify then false else streaming c)
    (closeSource (source c) (closed c)) (requests c).

Definition stop : Controller → Controller := cancel true.
Definition dispose : Controller → Controller := cancel false.

Definition isCurrent (r : nat) (q : Request) (c : Controller) : bool :=
  bool_decide (generation c = requestGeneration q) && bool_decide (source c = Some r).

(** The guard [!isCurrent() || completed] of the listeners. *)
Definition isLive (r : nat) (c : Controller) : bool :=
  match requests c !! r with
  | Some q => match phase q with
              | POpen completed => isCurrent r q c && negb completed
              | _ => false
              end
  | None => false
  end.

Definition handleError (r : nat) (errorMessage errorCode : jsval) (c : Controller) :
    Controller * list Output :=
  if isLive r c
  then (closeActiveSource r (setPhase r (POpen true) c), [(r, OnError errorMessage errorCode)])
  else (c, []).

(** [send] when the headers arrive; [startFails]: [stream()] throws. *)
Definition headersReady (r : nat) (startFails : bool) (c : Controller) : Controller * list Output :=
  match requests c !! r with
  | Some q =>
      match phase q with
      | PWaiting =>
          if bool_decide (generation c = requestGeneration q) then
            let c' := setPhase r (POpen false)
                        (mkCtl (Some r) (generation c) true (closed c) (requests c)) in
            if startFails then handleError r (JStr STREAM_START_ERROR) JUndef c' else (c', [])
          else (setPhase r PReturned c, [])
      | _ => (c, [])
      end
  | None => (c, [])
  end.

(** [send] when [getHeaders] rejects; [message] is that of an [Error]. *)
Definition headersFailed (r : nat) (message : option jsstr) (c : Controller) :
    Controller * list Output :=
  match requests c !! r with
  | Some q =>
      match phase q with
      | PWaiting =>
          (setPhase r PReturned c,
           if bool_decide (generation c = requestGeneration q)
           then [(r, OnError (JStr (default STREAM_START_ERROR message)) JUndef)] else [])
      | _ => (c, [])
      end
  | None => (c, [])
  end.

(** The 'message' listener; [throws] is the number of updates delivered before
    one of the callbacks throws. *)
Definition onMessage (r : nat) (data : option jsstr) (throws : option nat) (c : Controller) :
    Controller * list Output :=
  if negb (isLive r c) then (c, [])
  else if isStreamDoneMessage (ostr data)
  then (closeActiveSource r (setPhase r (POpen true) c), [(r, OnComplete)])
  else match parseStreamMessageUpdates (ostr data) with
       | None => handleError r (JStr PARSE_ERROR) JUndef c
       | Some updates =>
           let outs := (fun u : StreamMessageUpdate => (r, OnUpdate u.1 u.2)) <$> updates in
           match throws with
           | Some k =>
               if bool_decide (k < length updates) then
                 let '(c', e) := handleError r (JStr PARSE_ERROR) JUndef c in
                 (c', take (S k) outs ++ e)
               else (c, outs)
           | None => (c, outs)
           end
       end.

(** The 'error' listener; [readyState] is the source's. *)
Definition onErrorEvent (r : nat) (readyState : option Z) (data : option jsstr) (c : Controller) :
    Controller * list Output :=
  if negb (isLive r c) || isStreamClosedReadyState readyState then (c, [])
  else let d := parseStreamErrorDetails data in
       handleError r (d_errorMessage d) (d_errorCode d) c.

(** The 'readystatechange' listener *)
Definition onReadyState (r : nat) (eventReadyState status : option Z) (c : Controller) :
    Controller * list Output :=
  if negb (isLive r c) then (c, [])
  else match getStreamReadyStateError eventReadyState status with
       | Some e => handleError r (JStr e) JUndef c
       | None => (c, [])
       end.

(** Everything that can happen to a controller. *)
Inductive Event :=
| ESend
| EStop
| EDispose
| EHeaders (r : nat) (startFails : bool)
| EHeadersFailed (r : nat) (message : option jsstr)
| EMessage (r : nat) (data : option jsstr) (throws : option nat)
| EError (r : nat) (readyState : option Z) (data : option jsstr)
| EReadyState (r : nat) (eventReadyState status : option Z).

Definition ctl_step (e : Event) (c : Controller) : Controller * list Output :=
  match e with
  | ESend => (send c, [])
  | EStop => (stop c, [])
  | EDispose => (dispose c, [])
  | EHeaders r f => headersReady r f c
  | EHeadersFailed r m => headersFailed r m c
  | EMessage r d t => onMessage r d t c
  | EError r s d => onErrorEvent r s d c
  | EReadyState r s st => onReadyState r s st c
  end.

Fixpoint ctl_run (es : list Event) (c : Controller) : Controller * list Output :=
  match es with
  | [] => (c, [])
  | e :: es' =>
      let '(c1, o1) := ctl_step e c in
      let '(c2, o2) := ctl_run es' c1 in
      (c2, o1 ++ o2)
  end.

(** ** The transitions *)

Definition opened (r : nat) (c : Controller) : Controller :=
  setPhase r (POpen false) (mkCtl (Some r) (generation c) true (closed c) (requests c)).

Definition finished (r : nat) (c : Controller) : Controller :=
  closeActiveSource r (setPhase r (POpen true) c).

Definition is_update (cb : Callback) : bool :=
  match cb with OnUpdate _ _ => true | _ => false end.

Definition waiting (r : nat) (q : Request) (c : Controller) : Prop :=
  requests c !! r = Some q ∧ phase q = PWaiting.

Definition is_dispose (e : Event) : bool := match e with EDispose => true | _ => false end.

(** Events of a request, as opposed to calls of the controller *)
Definition own_event (e : Event) : bool :=
  match e with ESend | EStop | EDispose => false | _ => true end.

(** The shapes a step can take. *)
Inductive ctl_shape (e : Event) (c : Controller) : Controller → list Output → Prop :=
| sh_idle : ctl_shape e c c []
| sh_updates r cbs :
    isLive r c = true → Forall (fun cb => is_update cb = true) cbs →
    ctl_shape e c c ((fun cb => (r, cb)) <$> cbs)
| sh_finish r cbs last :
    isLive r c = true → Forall (fun cb => is_update cb = true) cbs → is_update last = false →
    ctl_shape e c (finished r c) ((fun cb => (r, cb)) <$> (cbs ++ [last]))
| sh_open r q :
    waiting r q c → generation c = requestGeneration q → ctl_shape e c (opened r c) []
| sh_open_fail r q last :
    waiting r q c → generation c = requestGeneration q → is_update last = false →
    ctl_shape e c (finished r (opened r c)) [(r, last)]
| sh_stale r q :
    waiting r q c → generation c ≠ requestGeneration q → ctl_shape e c (setPhase r PReturned c) []
| sh_fail r q last :
    waiting r q c → generation c = requestGeneration q → is_update last = false →
    ctl_shape e c (setPhase r PReturned c) [(r, last)]
| sh_send : e = ESend → ctl_shape e c (send c) []
| sh_cancel b : b = true ∧ e = EStop ∨ b = false ∧ e = EDispose → ctl_shape e c (cancel b c) [].

Lemma isLive_opened r q c :
  waiting r q c → generation c = requestGeneration q → isLive r (opened r c) = true.
Proof.
  intros [Hq Hp] Hg. unfold isLive, opened, setPhase. simpl.
  rewrite list_lookup_alter_eq, Hq. simpl. unfold isCurrent. simpl. rewrite Hg.
  by rewrite !bool_decide_eq_true_2.
Qed.

Lemma handleError_shape e r m k c : ctl_shape e c (handleError r m k c).1 (handleError r m k c).2.
Proof.
  unfold handleError. destruct (isLive r c) eqn:E; simpl; [|constructor].
  by apply (sh_finish _ c r [] (OnError m k)).
Qed.

Lemma onMessage_shape e r d t c : ctl_shape e c (onMessage r d t c).1 (onMessage r d t c).2.
Proof.
  unfold onMessage. destruct (isLive r c) eqn:E; simpl; [|constructor].
  destruct (isStreamDoneMessage _); [by apply (sh_finish _ c r [] OnComplete)|].
  destruct (parseStreamMessageUpdates _) as [us|]; [|apply handleError_shape].
  set (cbs := (fun u : StreamMessageUpdate => OnUpdate u.1 u.2) <$> us).
  assert ((λ u : StreamMessageUpdate, (r, OnUpdate u.1 u.2)) <$> us = (fun cb => (r, cb)) <$> cbs) as ->.
  { unfold cbs. by rewrite <- list_fmap_compose. }
  assert (Forall (fun cb => is_update cb = true) cbs) as Hc by (apply Forall_fmap, Forall_true; done).
  destruct t as [k|]; [case_bool_decide|]; try by apply sh_updates.
  unfold handleError. rewrite E. cbv zeta.
  rewrite <- fmap_take.
  change [(r, OnError (JStr PARSE_ERROR) JUndef)]
    with ((fun cb => (r, cb)) <$> [OnError (JStr PARSE_ERROR) JUndef]).
  cbn [fst snd]. rewrite <- fmap_app. apply sh_finish; [done| |done]. by apply Forall_take.
Qed.

Lemma ctl_step_shape e c : ctl_shape e c (ctl_step e c).1 (ctl_step e c).2.
Proof.
  destruct e as [| | |r f|r m|r d t|r s d|r s st]; simpl;
    try (by constructor); try (by apply sh_cancel; naive_solver).
  - unfold headersReady. destruct (requests c !! r) as [q|] eqn:Eq; [|constructor].
    destruct (phase q) eqn:Ep; try constructor.
    case_bool_decide; [|by apply (sh_stale _ c r q)].
    destruct f; [|by apply (sh_open _ c r q)].
    fold (opened r c). unfold handleError. rewrite (isLive_opened r q) by done.
    by apply (sh_open_fail _ c r q).
  - unfold headersFailed. destruct (requests c !! r) as [q|] eqn:Eq; [|constructor].
    destruct (phase q) eqn:Ep; try constructor.
    case_bool_decide; [by apply (sh_fail _ c r q)|by apply (sh_stale _ c r q)].
  - apply onMessage_shape.
  - unfold onErrorEvent. destruct (_ || _); [constructor|apply handleError_shape].
  - unfold onReadyState. destruct (negb _); [constructor|].
    destruct (getStreamReadyStateError _ _); [apply handleError_shape|constructor].
Qed.

(** ** The invariant *)

Record ctl_ok (c : Controller) : Prop := {
  ok_generation : ∀ r q, requests c !! r = Some q → requestGeneration q ≤ generation c;
  ok_distinct : ∀ r r' q q', requests c !! r = Some q → requests c !! r' = Some q' →
    requestGeneration q = requestGeneration q' → r = r';
  ok_source : ∀ r, source c = Some r →
    ∃ q, requests c !! r = Some q ∧ phase q = POpen false
         ∧ requestGeneration q = generation c ∧ streaming c = true ∧ r ∉ closed c;
  ok_closed : ∀ r q b, requests c !! r = Some q → phase q = POpen b →
    source c ≠ Some r → r ∈ closed c;
  ok_created : ∀ r, r ∈ closed c → ∃ q b, requests c !! r = Some q ∧ phase q = POpen b;
  ok_current_waits : ∀ r q, waiting r q c → requestGeneration q = generation c → source c = None
}.

Lemma isLive_spec r c :
  isLive r c = true ↔
  ∃ q, requests c !! r = Some q ∧ phase q = POpen false
       ∧ generation c = requestGeneration q ∧ source c = Some r.
Proof.
  unfold isLive, isCurrent. destruct (requests c !! r) as [q|]; [|split; [done|by intros (? & ? & _)]].
  split.
  - destruct (phase q) as [|[]|] eqn:E; rewrite ?andb_false_r; try done.
    intros H. bsplit. eauto 6.
  - intros (q' & [= <-] & -> & ? & ?). simpl. by rewrite !bool_decide_eq_true_2.
Qed.

Lemma lookup_setPhase r p c i q :
  requests (setPhase r p c) !! i = Some q ↔
  (i = r ∧ ∃ q0, requests c !! r = Some q0 ∧ q = mkReq (requestGeneration q0) p)
  ∨ (i ≠ r ∧ requests c !! i = Some q).
Proof.
  simpl. destruct (decide (i = r)) as [->|Hne].
  - rewrite list_lookup_alter_eq. destruct (requests c !! r); simpl; naive_solver.
  - rewrite list_lookup_alter_ne by done. naive_solver.
Qed.

(** The generations of the requests do not depend on the phases. *)
Lemma setPhase_generation r p c i q :
  requests (setPhase r p c) !! i = Some q →
  ∃ q', requests c !! i = Some q' ∧ requestGeneration q' = requestGeneration q.
Proof. rewrite lookup_setPhase. intros [(-> & q0 & ? & ->)|[? ?]]; eauto. Qed.

Lemma ok_returned r q c : ctl_ok c → waiting r q c → ctl_ok (setPhase r PReturned c).
Proof.
  intros Hok [Hq Hp]. split.
  - intros i q' (q0 & H0 & <-)%setPhase_generation. by apply (ok_generation c Hok i).
  - intros i i' q1 q2 (q1' & H1 & <-)%setPhase_generation (q2' & H2 & <-)%setPhase_generation.
    by apply (ok_distinct c Hok).
  - intros i Hs. destruct (ok_source c Hok i Hs) as (q0 & H0 & Hp0 & ?). exists q0.
    rewrite lookup_setPhase. split; [|done]. right. split; [|done]. intros ->. congruence.
  - intros i q0 b H0 Hb. rewrite lookup_setPhase in H0.
    destruct H0 as [(-> & q1 & _ & ->)|[_ H0]]; [done|]. by apply (ok_closed c Hok i q0 b).
  - intros i Hi. destruct (ok_created c Hok i Hi) as (q0 & b & H0 & Hb).
    exists q0, b. rewrite lookup_setPhase. split; [|done]. right. split; [|done]. intros ->. congruence.
  - intros i q0 [H0 Hw]. rewrite lookup_setPhase in H0.
    destruct H0 as [(-> & q1 & _ & ->)|[_ H0]]; [done|]. by apply (ok_current_waits c Hok i q0).
Qed.

Lemma ok_opened r q c :
  ctl_ok c → waiting r q c → generation c = requestGeneration q → ctl_ok (opened r c).
Proof.
  intros Hok [Hq Hp] Hg. unfold opened.
  set (c1 := mkCtl (Some r) (generation c) true (closed c) (requests c)). split.
  - intros i q' (q0 & H0 & <-)%setPhase_generation. by apply (ok_generation c Hok i).
  - intros i i' q1 q2 (q1' & H1 & <-)%setPhase_generation (q2' & H2 & <-)%setPhase_generation.
    by apply (ok_distinct c Hok).
  - intros i [= <-]. exists (mkReq (requestGeneration q) (POpen false)). rewrite lookup_setPhase.
    split_and!; [left; eauto|done|done|done|].
    intros Hc. destruct (ok_created c Hok r Hc) as (? & ? & ? & ?). congruence.
  - intros i q0 b H0 Hb Hne. rewrite lookup_setPhase in H0.
    destruct H0 as [(-> & _)|[_ H0]]; [done|]. apply (ok_closed c Hok i q0 b); [done..|].
    by rewrite (ok_current_waits c Hok r q).
  - intros i Hi. destruct (ok_created c Hok i Hi) as (q0 & b & H0 & Hb).
    exists q0, b. rewrite lookup_setPhase. split; [|done]. right. split; [|done]. intros ->. congruence.
  - intros i q0 [H0 Hw] Hgi. rewrite lookup_setPhase in H0.
    destruct H0 as [(-> & q1 & _ & ->)|[Hne H0]]; [done|]. destruct Hne.
    apply (ok_distinct c Hok i r q0 q); [done..|]. simpl in Hgi. congruence.
Qed.

Lemma ok_finished r c : ctl_ok c → isLive r c = true → ctl_ok (finished r c).
Proof.
  intros Hok (q & Hq & Hp & Hg & Hs)%isLive_spec. unfold finished, closeActiveSource.
  rewrite bool_decide_eq_true_2 by done.
  set (c1 := setPhase r (POpen true) c). split; cbn [requests source generation streaming closed].
  - intros i q' (q0 & H0 & <-)%setPhase_generation. by apply (ok_generation c Hok i).
  - intros i i' q1 q2 (q1' & H1 & <-)%setPhase_generation (q2' & H2 & <-)%setPhase_generation.
    by apply (ok_distinct c Hok).
  - done.
  - intros i q0 b H0 Hb _. rewrite elem_of_app. unfold c1 in H0. rewrite lookup_setPhase in H0.
    destruct H0 as [(-> & _)|[Hne H0]]; [right; by constructor|].
    left. apply (ok_closed c Hok i q0 b); [done..|]. congruence.
  - intros i [Hi|Hi%list_elem_of_singleton]%elem_of_app; [|subst i].
    + destruct (ok_created c Hok i Hi) as (q0 & b & H0 & Hb).
      destruct (decide (i = r)) as [->|Hne]; [exists (mkReq (requestGeneration q) (POpen true)), true|exists q0, b];
        unfold c1; rewrite lookup_setPhase; naive_solver.
    + exists (mkReq (requestGeneration q) (POpen true)), true. unfold c1. rewrite lookup_setPhase. naive_solver.
  - done.
Qed.

Lemma ok_close_all c cl :
  ctl_ok c → cl = closeSource (source c) (closed c) →
  (∀ r q b, requests c !! r = Some q → phase q = POpen b → r ∈ cl)
  ∧ (∀ r, r ∈ cl → ∃ q b, requests c !! r = Some q ∧ phase q = POpen b).
Proof.
  intros Hok ->. split.
  - intros r q b Hq Hb. destruct (decide (source c = Some r)) as [Hs|Hs].
    + rewrite Hs. simpl. set_solver.
    + pose proof (ok_closed c Hok r q b Hq Hb Hs). destruct (source c); simpl; set_solver.
  - intros r Hr. destruct (source c) as [s|] eqn:Es; simpl in Hr.
    + apply elem_of_app in Hr as [Hr|Hr%list_elem_of_singleton]; [by apply (ok_created c Hok)|subst r].
      destruct (ok_source c Hok s Es) as (q & ? & ? & _). eauto.
    + by apply (ok_created c Hok).
Qed.

Lemma ok_cancel b c : ctl_ok c → ctl_ok (cancel b c).
Proof.
  intros Hok. destruct (ok_close_all c _ Hok eq_refl) as [Hc1 Hc2].
  split; cbn [cancel requests source generation streaming closed]; try done.
  - intros r q Hq. pose proof (ok_generation c Hok r q Hq). lia.
  - apply (ok_distinct c Hok).
  - intros r q b' Hq Hb _. by apply (Hc1 r q b').
Qed.

Lemma ok_send c : ctl_ok c → ctl_ok (send c).
Proof.
  intros Hok. destruct (ok_close_all c _ Hok eq_refl) as [Hc1 Hc2].
  assert (∀ r q, requests (send c) !! r = Some q →
    (requests c !! r = Some q ∧ requestGeneration q ≤ generation c)
    ∨ (r = length (requests c) ∧ q = mkReq (S (generation c)) PWaiting)) as Hl.
  { simpl. intros r q [Hq|[Hle Hq]]%lookup_app_Some.
    - left. split; [done|]. by apply (ok_generation c Hok r).
    - right. apply list_lookup_singleton_Some in Hq as [? <-]. split; [lia|done]. }
  split; cbn [generation source streaming closed]; try done.
  - intros r q [[_ ?]|[_ ->]]%Hl; simpl; lia.
  - intros r r' q q' [[Hq ?]|[-> ->]]%Hl [[Hq' ?]|[-> ->]]%Hl; simpl; try lia.
    by apply (ok_distinct c Hok).
  - intros r q b [[Hq _]|[_ ->]]%Hl Hb _; [by apply (Hc1 r q b)|done].
  - intros r Hr. destruct (Hc2 r Hr) as (q & b & Hq & Hb). exists q, b. simpl.
    split; [by apply lookup_app_l_Some|done].
Qed.

Lemma ok_step e c : ctl_ok c → ctl_ok (ctl_step e c).1.
Proof.
  intros Hok. destruct (ctl_step_shape e c) as [|r cbs|r cbs l Hl|r q Hw Hg|r q l Hw Hg|r q Hw|r q l Hw| |b];
    [done|done|by apply ok_finished|by eapply ok_opened| |by eapply ok_returned|by eapply ok_returned
    |by apply ok_send|by apply ok_cancel].
  apply ok_finished; [by eapply ok_opened|by eapply isLive_opened].
Qed.

Lemma ctl_run_snd e es c :
  (ctl_run (e :: es) c).2 = (ctl_step e c).2 ++ (ctl_run es (ctl_step e c).1).2
  ∧ (ctl_run (e :: es) c).1 = (ctl_run es (ctl_step e c).1).1.
Proof. simpl. destruct (ctl_step e c) as [c1 o1]. simpl. by destruct (ctl_run es c1). Qed.

Lemma ok_run es c : ctl_ok c → ctl_ok (ctl_run es c).1.
Proof.
  revert c. induction es as [|e es IH]; intros c Hok; [done|].
  rewrite (proj2 (ctl_run_snd e es c)). by apply IH, ok_step.
Qed.

Lemma ok_init : ctl_ok createStreamRequestController.
Proof.
  split; cbn [createStreamRequestController requests source closed]; intros *;
    rewrite ?lookup_nil; try done. intros H. by apply not_elem_of_nil in H.
Qed.

(** ** What the callers observe *)

(** A request that can never call back again: it is neither waiting with the
    current generation nor the owner of the active source. *)
Definition dead (r : nat) (c : Controller) : Prop :=
  r < length (requests c) ∧ source c ≠ Some r
  ∧ ∀ q, waiting r q c → requestGeneration q ≠ generation c.

(** A request that can still call back *)
Definition alive (r : nat) (c : Controller) : Prop :=
  source c = Some r ∨ ∃ q, waiting r q c ∧ requestGeneration q = generation c.

Lemma length_setPhase r p c : length (requests (setPhase r p c)) = length (requests c).
Proof. simpl. apply length_alter. Qed.

Lemma waiting_setPhase r p c i q :
  p ≠ PWaiting → waiting i q (setPhase r p c) → i ≠ r ∧ waiting i q c.
Proof.
  intros Hp [Hq Hw]. rewrite lookup_setPhase in Hq.
  destruct Hq as [(-> & q0 & _ & ->)|[? ?]]; [done|]. by split.
Qed.

Lemma finished_eq r c :
  finished r c = mkCtl (if decide (source c = Some r) then None else source c) (generation c)
    (if decide (source c = Some r) then false else streaming c) (closed c ++ [r])
    (requests (setPhase r (POpen true) c)).
Proof. unfold finished, closeActiveSource. cbn [setPhase source]. case_bool_decide; by case_decide. Qed.

Lemma dead_finished i r c : dead i c → dead i (finished r c).
Proof.
  rewrite finished_eq. intros (Hlt & Hs & Hw). split_and!; cbn [requests source generation].
  - by rewrite length_setPhase.
  - by case_decide.
  - intros q Hq. by apply (waiting_setPhase r (POpen true)) in Hq as [_ Hq%Hw].
Qed.

Lemma finished_dead r c : r < length (requests c) → dead r (finished r c).
Proof.
  rewrite finished_eq. intros Hlt. split_and!; cbn [requests source generation].
  - by rewrite length_setPhase.
  - by case_decide.
  - intros q Hq. by apply (waiting_setPhase r (POpen true)) in Hq as [? _].
Qed.

Lemma dead_opened i r q c :
  waiting r q c → generation c = requestGeneration q → dead i c → dead i (opened r c).
Proof.
  intros Hr Hg (Hlt & Hs & Hw). unfold opened. split_and!.
  - by rewrite length_setPhase.
  - simpl. intros [= ->]. by apply (Hw q).
  - intros q' Hq'. by apply waiting_setPhase in Hq' as [_ ?%Hw].
Qed.

(** Stopping, disposing and sending again silence every earlier request. *)
Lemma cancel_dead i b c : ctl_ok c → i < length (requests c) → dead i (cancel b c).
Proof.
  intros Hok Hlt. split_and!; [done|done|]. intros q [Hq _]. simpl.
  pose proof (ok_generation c Hok i q Hq). lia.
Qed.

Lemma send_dead i c : ctl_ok c → i < length (requests c) → dead i (send c).
Proof.
  intros Hok Hlt. split_and!; [simpl; rewrite length_app; lia|done|]. intros q [Hq _]. simpl in *.
  rewrite lookup_app_l in Hq by done. pose proof (ok_generation c Hok i q Hq). lia.
Qed.

Lemma dead_returned i r c : dead i c → dead i (setPhase r PReturned c).
Proof.
  intros (Hlt & Hs & Hw). split_and!; [by rewrite length_setPhase|done|].
  intros q' Hq'. by apply waiting_setPhase in Hq' as [_ ?%Hw].
Qed.

Lemma dead_step i e c :
  ctl_ok c → dead i c → dead i (ctl_step e c).1 ∧ Forall (fun o => o.1 ≠ i) (ctl_step e c).2.
Proof.
  intros Hok Hd. pose proof Hd as (Hlt & Hs & Hw).
  assert (∀ r cbs, isLive r c = true → Forall (fun o : Output => o.1 ≠ i) ((fun cb => (r, cb)) <$> cbs)) as Hl.
  { intros r cbs (q & _ & _ & _ & Hr)%isLive_spec. apply Forall_fmap, Forall_true. simpl. congruence. }
  assert (∀ r q, waiting r q c → generation c = requestGeneration q → r ≠ i) as Hne.
  { intros r q Hr Hg ->. by apply (Hw q). }
  destruct (ctl_step_shape e c) as [|r cbs|r cbs l Hlv|r q Hr Hg|r q l Hr Hg|r q Hr|r q l Hr| |b].
  - done.
  - split; [done|]. by apply Hl.
  - split; [by apply dead_finished|by apply Hl].
  - split; [by eapply dead_opened|done].
  - split; [by eapply dead_finished, dead_opened|]. constructor; [|done]. by eapply Hne.
  - split; [by apply dead_returned|done].
  - split; [by apply dead_returned|]. constructor; [by eapply Hne|done].
  - split; [by apply send_dead|done].
  - split; [by apply cancel_dead|done].
Qed.

Lemma alive_or_dead r c : r < length (requests c) → alive r c ∨ dead r c.
Proof.
  intros Hr. destruct (decide (source c = Some r)) as [|Hs]; [by left; left|].
  destruct (lookup_lt_is_Some_2 _ _ Hr) as [q Hq].
  destruct (phase q) eqn:Ep.
  1:destruct (decide (requestGeneration q = generation c)); [left; right; by exists q|].
  all: right; split_and!; [done..|]; intros q' [Hq' Hw]; congruence.
Qed.

Lemma alive_not_dead r c : alive r c → dead r c → False.
Proof. intros [Hs|(q & Hw & Hg)] (_ & Hs' & Hw'); [done|by apply (Hw' q)]. Qed.

Lemma alive_lt r c : ctl_ok c → alive r c → r < length (requests c).
Proof.
  intros Hok [Hs|(q & [Hq _] & _)]; [|by eapply lookup_lt_Some].
  destruct (ok_source c Hok r Hs) as (q & Hq & _). by eapply lookup_lt_Some.
Qed.

Lemma cancel_alive r b c : ctl_ok c → ¬ alive r (cancel b c).
Proof.
  intros Hok Ha. pose proof (alive_lt r _ (ok_cancel b c Hok) Ha) as Hr. simpl in Hr.
  by eapply alive_not_dead, cancel_dead.
Qed.

(** After a send, the new request is the only one that can call back. *)
Lemma send_alive r c : ctl_ok c → alive r (send c) ↔ r = length (requests c).
Proof.
  intros Hok. split.
  - intros Ha. destruct (decide (r = length (requests c))) as [|Hne]; [done|].
    pose proof (alive_lt r _ (ok_send c Hok) Ha) as Hr. simpl in Hr. rewrite length_app in Hr. simpl in Hr.
    destruct (alive_not_dead r (send c) Ha). apply send_dead; [done|lia].
  - intros ->. right. exists (mkReq (S (generation c)) PWaiting). split; [|done].
    split; [|done]. simpl. by rewrite list_lookup_middle.
Qed.

(** An event of a request leaves a live request alive or ends it with its final
    callback. *)
Lemma alive_step r e c :
  ctl_ok c → own_event e = true → alive r c →
  alive r (ctl_step e c).1 ∨ ∃ cb, (r, cb) ∈ (ctl_step e c).2 ∧ is_update cb = false.
Proof.
  intros Hok He Ha.
  assert (∀ r' q, waiting r' q c → generation c = requestGeneration q → r' = r) as Hcur.
  { intros r' q Hw Hg. pose proof (ok_current_waits c Hok r' q Hw (eq_sym Hg)) as Hn.
    destruct Ha as [Hs|(q' & Hw' & Hg')]; [congruence|].
    destruct Hw, Hw'. apply (ok_distinct c Hok r' r q q'); [done..|congruence]. }
  destruct (ctl_step_shape e c) as [|r' cbs Hl Hu|r' cbs l Hl Hu Hlu|r' q Hw Hg|r' q l Hw Hg Hlu
      |r' q Hw Hg|r' q l Hw Hg Hlu|Hs|b [[_ Hb]|[_ Hb]]]; try (by left); try (by subst e).
  - right. exists l. split; [|done]. apply isLive_spec in Hl as (q & _ & _ & _ & Hs).
    assert (r' = r) as ->; [|rewrite fmap_app; set_solver].
    destruct Ha as [Hs'|(q' & Hw' & Hg')]; [congruence|].
    by rewrite (ok_current_waits c Hok r q') in Hs.
  - left. rewrite <- (Hcur r' q Hw Hg). by left.
  - right. exists l. rewrite (Hcur r' q Hw Hg). split; [by constructor|done].
  - left. destruct Ha as [Hs|(q' & [Hq' Hw'] & Hg')]; [by left|]. right. exists q'. split; [|done].
    split; [|done]. rewrite lookup_setPhase. right. split; [|done]. intros ->. destruct Hw. congruence.
  - right. exists l. rewrite (Hcur r' q Hw Hg). split; [by constructor|done].
Qed.

(** Only live requests call back. *)
Lemma output_alive r cb e c : (r, cb) ∈ (ctl_step e c).2 → alive r c.
Proof.
  assert (∀ r' (cbs : list Callback), isLive r' c = true → (r, cb) ∈ (fun cb : Callback => (r', cb)) <$> cbs → alive r c) as Hl.
  { intros r' cbs (q & _ & _ & _ & Hs)%isLive_spec (cb' & [= <- <-] & _)%list_elem_of_fmap. by left. }
  assert (∀ r' q (l : Callback), waiting r' q c → generation c = requestGeneration q → (r, cb) ∈ [(r', l)] → alive r c) as Hw.
  { intros r' q l Hq Hg [= -> ->]%list_elem_of_singleton. right. by exists q. }
  destruct (ctl_step_shape e c) as [|r' cbs L|r' cbs l L|r' q|r' q l W G|r' q|r' q l W G| |];
    try (by intros ?%not_elem_of_nil).
  - by apply (Hl r' cbs L).
  - by apply (Hl r' (cbs ++ [l]) L).
  - by apply (Hw r' q l W G).
  - by apply (Hw r' q l W G).
Qed.

Lemma step_length e c :
  own_event e = true → length (requests (ctl_step e c).1) = length (requests c).
Proof.
  intros He. destruct (ctl_step_shape e c) as [|?|?|?|?|?|?|Hs|b [[_ Hb]|[_ Hb]]];
    try done; try (by subst e); rewrite ?finished_eq; unfold opened; cbn [requests];
    by rewrite ?length_setPhase.
Qed.

Lemma dead_run i es c :
  ctl_ok c → dead i c → Forall (fun o => o.1 ≠ i) (ctl_run es c).2.
Proof.
  revert c. induction es as [|e es IH]; intros c Hok Hd; [constructor|].
  rewrite (proj1 (ctl_run_snd e es c)). destruct (dead_step i e c Hok Hd) as [Hd' Ho].
  apply Forall_app. split; [done|]. apply IH; [by apply ok_step|done].
Qed.

(** The callbacks of one request *)
Definition callbacks (r : nat) (os : list Output) : list Callback :=
  snd <$> filter (fun o : Output => o.1 = r) os.

(** Any number of updates, then at most one of completion and error. *)
Definition well_ended (cbs : list Callback) : Prop :=
  ∃ us tl, cbs = us ++ tl ∧ Forall (fun cb => is_update cb = true) us
           ∧ length tl ≤ 1 ∧ Forall (fun cb => is_update cb = false) tl.

Lemma callbacks_app r os os' : callbacks r (os ++ os') = callbacks r os ++ callbacks r os'.
Proof. unfold callbacks. by rewrite filter_app, fmap_app. Qed.

Lemma callbacks_same r cbs : callbacks r ((fun cb => (r, cb)) <$> cbs) = cbs.
Proof.
  unfold callbacks. induction cbs as [|cb cbs IH]; [done|].
  rewrite fmap_cons, filter_cons_True by done. by rewrite fmap_cons, IH.
Qed.

Lemma callbacks_other r os : Forall (fun o => o.1 ≠ r) os → callbacks r os = [].
Proof.
  unfold callbacks. induction 1 as [|o os Ho _ IH]; [done|]. by rewrite filter_cons_False.
Qed.

(** A step makes for request [r] either updates only, or a final callback after
    which [r] is dead. *)
Lemma step_callbacks r e c :
  ctl_ok c →
  Forall (fun cb => is_update cb = true) (callbacks r (ctl_step e c).2)
  ∨ (dead r (ctl_step e c).1 ∧ well_ended (callbacks r (ctl_step e c).2)).
Proof.
  intros Hok.
  assert (∀ r' cbs, r' ≠ r → callbacks r ((fun cb => (r', cb)) <$> cbs) = []) as Hother.
  { intros r' cbs Hne. apply callbacks_other, Forall_fmap, Forall_true. done. }
  assert (∀ r' last, is_update last = false →
    (∀ c', dead r' c' → callbacks r [(r', last)] = [] ∨
           (dead r c' ∧ well_ended (callbacks r [(r', last)])))) as Hlast.
  { intros r' last Hl c' Hd. destruct (decide (r' = r)) as [->|Hne]; [right|left; by apply (Hother r' [last])].
    split; [done|]. exists [], [last]. split_and!; [|done|simpl; lia|by constructor].
    apply (callbacks_same r [last]). }
  destruct (ctl_step_shape e c) as [|r' cbs Hl Hu|r' cbs l Hl Hu Hlu|r' q Hw Hg|r' q l Hw Hg Hlu|r' q Hw|r' q l Hw Hg Hlu| |b];
    try (left; constructor).
  - left. destruct (decide (r' = r)) as [->|Hne]; [by rewrite callbacks_same|by rewrite Hother].
  - destruct (decide (r' = r)) as [->|Hne]; [right|left; by rewrite Hother].
    rewrite callbacks_same. split.
    + apply finished_dead. apply isLive_spec in Hl as (q & Hq & _). by eapply lookup_lt_Some.
    + exists cbs, [l]. split_and!; [done|done|simpl; lia|by constructor].
  - destruct (Hlast r' l Hlu (finished r' (opened r' c))) as [->|?]; [|left; constructor|by right].
    apply finished_dead. unfold opened. rewrite length_setPhase. destruct Hw. by eapply lookup_lt_Some.
  - destruct (Hlast r' l Hlu (setPhase r' PReturned c)) as [->|?]; [|left; constructor|by right].
    destruct Hw as [Hq Hp]. split_and!.
    + rewrite length_setPhase. by eapply lookup_lt_Some.
    + simpl. by rewrite (ok_current_waits c Hok r' q).
    + intros q' Hq'. by apply waiting_setPhase in Hq' as [? _].
Qed.

Lemma run_callbacks r es c : ctl_ok c → well_ended (callbacks r (ctl_run es c).2).
Proof.
  revert c. induction es as [|e es IH]; intros c Hok.
  { exists [], []. split_and!; [done|constructor|simpl; lia|constructor]. }
  rewrite (proj1 (ctl_run_snd e es c)), callbacks_app.
  destruct (step_callbacks r e c Hok) as [Hu|[Hd Hw]].
  - destruct (IH _ (ok_step e c Hok)) as (us & tl & -> & Hus & Htl).
    exists (callbacks r (ctl_step e c).2 ++ us), tl. rewrite <- (assoc_L app).
    split_and!; [done|by apply Forall_app|apply Htl|apply Htl].
  - by rewrite (callbacks_other r (ctl_run es _).2), (right_id_L [] (++))
      by (apply dead_run; [by apply ok_step|done]).
Qed.

(** C8. Whatever the order of headers, messages, errors, stops and further
    requests, the callbacks of each request are any number of updates followed by
    at most one of completion and error: never both, never twice, and nothing
    after it. *)
Theorem one_outcome_per_request es r :
  well_ended (callbacks r (ctl_run es createStreamRequestController).2).
Proof. apply run_callbacks, ok_init. Qed.

(** C9. After a stop, a disposal or a new send, no earlier request ever calls
    back again, whatever its source or its pending headers still deliver. *)
Theorem no_callback_after_cancel es e es' r :
  e = EStop ∨ e = EDispose ∨ e = ESend →
  let c := (ctl_run es createStreamRequestController).1 in
  r < length (requests c) →
  callbacks r (ctl_run (e :: es') c).2 = [].
Proof.
  intros He c Hr. assert (ctl_ok c) as Hok by apply ok_run, ok_init.
  rewrite (proj1 (ctl_run_snd e es' c)), callbacks_app.
  assert (dead r (ctl_step e c).1 ∧ (ctl_step e c).2 = []) as [Hd ->].
  { destruct He as [->|[->| ->]]; simpl; split; try done;
      [by apply cancel_dead|by apply cancel_dead|by apply send_dead]. }
  apply callbacks_other, dead_run; [by apply ok_step|done].
Qed.

Lemma no_callback_after_cancel_witness :
  let c := (ctl_run [ESend; EHeaders 0 false] createStreamRequestController).1 in
  callbacks 0 (ctl_run [EStop; EMessage 0 (Some (js "[DONE]")) None] c).2 = [].
Proof.
  apply (no_callback_after_cancel [ESend; EHeaders 0 false] EStop
           [EMessage 0 (Some (js "[DONE]")) None] 0); [by left|simpl; lia].
Defined.

Lemma streaming_step e c :
  ctl_ok c → is_dispose e = false → streaming c = bool_decide (is_Some (source c)) →
  streaming (ctl_step e c).1 = bool_decide (is_Some (source (ctl_step e c).1)).
Proof.
  intros Hok He Hs.
  destruct (ctl_step_shape e c) as [|r cbs|r cbs l Hlv|r q Hr Hg|r q l Hr Hg|r q Hr|r q l Hr| |[] [[??]|[??]]];
    rewrite ?finished_eq; cbn [streaming source opened setPhase]; try done; try by case_decide.
  by subst e.
Qed.

(** In every reachable state the active source belongs to the last request,
    is open and not completed, and every other source ever created has been
    closed; while no disposal has happened the streaming flag is on exactly when
    there is an active source. *)
Theorem controller_invariant es :
  let c := (ctl_run es createStreamRequestController).1 in
  (∀ r, source c = Some r →
     ∃ q, requests c !! r = Some q ∧ phase q = POpen false
          ∧ requestGeneration q = generation c ∧ streaming c = true ∧ r ∉ closed c)
  ∧ (∀ r q b, requests c !! r = Some q → phase q = POpen b → source c ≠ Some r → r ∈ closed c)
  ∧ (Forall (fun e => is_dispose e = false) es →
     streaming c = bool_decide (is_Some (source c))).
Proof.
  intros c. assert (ctl_ok c) as Hok by apply ok_run, ok_init.
  split_and!; [apply (ok_source c Hok)|apply (ok_closed c Hok)|].
  intros Hes. unfold c. clear c Hok.
  assert (∀ c, ctl_ok c → streaming c = bool_decide (is_Some (source c)) →
    streaming (ctl_run es c).1 = bool_decide (is_Some (source (ctl_run es c).1))) as H.
  { induction Hes as [|e es He _ IH]; intros c Hok Hs; [done|].
    rewrite (proj2 (ctl_run_snd e es c)). apply IH; [by apply ok_step|by apply streaming_step]. }
  apply H; [apply ok_init|done].
Qed.

(** For the active request, every event has its outcome: the done marker
    completes it and closes its source, a chunk that parses is delivered in the
    order reasoning, content and leaves it active, and a chunk that does not
    parse, an error event of an open source or a closed connection with a bad
    status each report one error and close the source. *)
Theorem live_event_outcomes r c :
  isLive r c = true →
  (onMessage r (Some STREAM_DONE_MESSAGE) None c = (finished r c, [(r, OnComplete)]))
  ∧ (∀ data us, data ≠ STREAM_DONE_MESSAGE → parseStreamMessageUpdates data = Some us →
       onMessage r (Some data) None c = (c, (fun u : StreamMessageUpdate => (r, OnUpdate u.1 u.2)) <$> us))
  ∧ (∀ data, data ≠ STREAM_DONE_MESSAGE → parseStreamMessageUpdates data = None →
       onMessage r (Some data) None c = (finished r c, [(r, OnError (JStr PARSE_ERROR) JUndef)]))
  ∧ (∀ rs data, rs ≠ Some 2%Z →
       let d := parseStreamErrorDetails data in
       onErrorEvent r rs data c = (finished r c, [(r, OnError (d_errorMessage d) (d_errorCode d))]))
  ∧ (∀ rs st e, getStreamReadyStateError rs st = Some e →
       onReadyState r rs st c = (finished r c, [(r, OnError (JStr e) JUndef)]))
  ∧ source (finished r c) = None ∧ streaming (finished r c) = false ∧ r ∈ closed (finished r c)
  ∧ isLive r (finished r c) = false.
Proof.
  intros Hl. split_and!.
  - unfold onMessage. rewrite Hl. simpl. unfold isStreamDoneMessage.
    by rewrite bool_decide_eq_true_2.
  - intros data us Hd Hp. unfold onMessage. rewrite Hl. simpl. unfold isStreamDoneMessage.
    by rewrite bool_decide_eq_false_2, Hp.
  - intros data Hd Hp. unfold onMessage. rewrite Hl. simpl. unfold isStreamDoneMessage.
    rewrite bool_decide_eq_false_2, Hp by done. unfold handleError. by rewrite Hl.
  - intros rs data Hrs d. unfold onErrorEvent, isStreamClosedReadyState, handleError.
    by rewrite Hl, bool_decide_eq_false_2.
  - intros rs st e He. unfold onReadyState, handleError. by rewrite Hl, He.
  - apply isLive_spec in Hl as (q & _ & _ & _ & Hs). rewrite finished_eq. simpl. by case_decide.
  - apply isLive_spec in Hl as (q & _ & _ & _ & Hs). rewrite finished_eq. simpl. by case_decide.
  - rewrite finished_eq. simpl. set_solver.
  - apply not_true_iff_false. intros (q & _ & _ & _ & Hs)%isLive_spec. revert Hs.
    rewrite finished_eq. simpl. by case_decide.
Qed.

Lemma live_event_outcomes_witness :
  let c := (ctl_run [ESend; EHeaders 0 false] createStreamRequestController).1 in
  onMessage 0 (Some STREAM_DONE_MESSAGE) None c = (finished 0 c, [(0, OnComplete)]).
Proof. apply (live_event_outcomes 0). reflexivity. Defined.

End ChatStream.
