(* ===== verification/ChatHandler.v ===== *)
(** * The chat page's request handler
    (src/web/src/features/playground/hooks/use-chat-handler.ts, over
    use-stream-request.ts; lib/state/playground-state-utils.ts)

    The refs and state of the hook as one record, its callbacks as functions on
    it.  [onMessageUpdate] hands React an updater; React may run it at once when
    no other is queued ([eager]) or later, in order, and the updater compares its
    generation with the generation at the time it runs.  Updaters are therefore
    data ([Updater]) in a queue.  [t] translates a message key. *)

From S2P Require Import Prelude JsString JsValue JsJson ChatMessage ChatStream.
Import ChatMessage ChatStream.

Module ChatHandler.

Definition NETWORK_ERROR : jsstr := js "Network connection failed or server not responding".

Definition KNOWN_ERROR_MESSAGES : list jsstr :=
  [API_REQUEST_ERROR; NETWORK_ERROR; PARSE_ERROR; STREAM_START_ERROR; CONNECTION_CLOSED; INTERRUPTED].

Record PendingStreamChunks := mkPending {
  p_generation : nat; p_content : jsstr; p_reasoning : jsstr
}.

Definition mergePendingStreamChunk (currentChunk nextChunk : jsstr) : jsstr :=
  if negb (str_true currentChunk) || negb (starts_with currentChunk nextChunk)
  then currentChunk ++ nextChunk else nextChunk.

(** The updaters the page hands to React. *)
Inductive Updater :=
| UFlush (g : nat) (reasoning content : jsstr)
| UComplete (g : nat)
| UError (g : nat) (displayError : jsstr) (errorCode : option jsstr) (title : jsstr)
| UResponse (g : nat) (choices : list ChatCompletionChoice)
| UStopped (g : nat)
| USet (ms : list Message)
| URemove (k : jsstr).

Definition flushMessage (reasoning content : jsstr) (now : Z) (m : Message) : Message :=
  let m1 := if str_true reasoning then applyStreamingChunk m KReasoning reasoning now else m in
  if str_true content then applyStreamingChunk m1 KContent content now else m1.

(** Running an updater when the generation is [gen] *)
Definition runUpdater (gen : nat) (now : Z) (u : Updater) (prev : list Message) : list Message :=
  match u with
  | UFlush g r c =>
      if bool_decide (g ≠ gen) then prev
      else updateLastAssistantMessage prev (flushMessage r c now)
  | UComplete g =>
      if bool_decide (g ≠ gen) then prev
      else updateLastAssistantMessage prev (fun m =>
             if isAssistantMessageFinal m then m else completeAssistantMessage m now)
  | UError g e code title =>
      if bool_decide (g ≠ gen) then prev
      else updateAssistantMessageWithError prev e code title now
  | UResponse g choices =>
      if bool_decide (g ≠ gen) then prev
      else updateLastAssistantMessage prev (fun m =>
             default m (applyChatCompletionResponse m choices now))
  | UStopped g =>
      if bool_decide (g ≠ gen) then prev
      else updateLastAssistantMessage prev (fun m =>
             if isAssistantMessagePending m then completeAssistantMessage m now else m)
  | USet ms => ms
  | URemove k => removeMessageByKey prev k
  end.

Record Chat := mkChat {
  gen : nat;                        (** requestGenerationRef *)
  isRequesting : bool;
  abortController : option nat;     (** named by the generation of its call *)
  abortedCalls : list nat;
  pending : PendingStreamChunks;
  flushTimer : option nat;          (** the generation its callback flushes *)
  stream : Controller;
  streamGenerations : list nat;     (** the generation each [send] closed over *)
  calls : list nat;                 (** non-streaming calls not yet answered *)
  sent : list ChatCompletionRequest;
  queue : list Updater;
  messages : list Message
}.

Definition initialChat (ms : list Message) : Chat :=
  mkChat 0 false None [] (mkPending 0 [] []) None createStreamRequestController [] [] [] [] ms.

Definition set_gen g s := mkChat g (isRequesting s) (abortController s) (abortedCalls s) (pending s)
  (flushTimer s) (stream s) (streamGenerations s) (calls s) (sent s) (queue s) (messages s).
Definition set_isRequesting b s := mkChat (gen s) b (abortController s) (abortedCalls s) (pending s)
  (flushTimer s) (stream s) (streamGenerations s) (calls s) (sent s) (queue s) (messages s).
Definition set_pending p tm s := mkChat (gen s) (isRequesting s) (abortController s) (abortedCalls s) p
  tm (stream s) (streamGenerations s) (calls s) (sent s) (queue s) (messages s).
Definition set_stream c gs s := mkChat (gen s) (isRequesting s) (abortController s) (abortedCalls s)
  (pending s) (flushTimer s) c gs (calls s) (sent s) (queue s) (messages s).
Definition set_calls a cs s := mkChat (gen s) (isRequesting s) a (abortedCalls s)
  (pending s) (flushTimer s) (stream s) (streamGenerations s) cs (sent s) (queue s) (messages s).
Definition set_messages q ms s := mkChat (gen s) (isRequesting s) (abortController s) (abortedCalls s)
  (pending s) (flushTimer s) (stream s) (streamGenerations s) (calls s) (sent s) q ms.
Definition add_sent p s := mkChat (gen s) (isRequesting s) (abortController s) (abortedCalls s)
  (pending s) (flushTimer s) (stream s) (streamGenerations s) (calls s) (sent s ++ [p]) (queue s)
  (messages s).

(** [abortControllerRef.current?.abort(); abortControllerRef.current = null] *)
Definition abortCurrent (s : Chat) : Chat :=
  mkChat (gen s) (isRequesting s) None
    (match abortController s with Some a => abortedCalls s ++ [a] | None => abortedCalls s end)
    (pending s) (flushTimer s) (stream s) (streamGenerations s) (calls s) (sent s) (queue s)
    (messages s).

(** [onMessageUpdate] at time [now]; [eager]: React runs the updater at once,
    which it may do only when no other is queued. *)
Definition onMessageUpdate (eager : bool) (now : Z) (u : Updater) (s : Chat) : Chat :=
  match queue s with
  | [] => if eager then set_messages [] (runUpdater (gen s) now u (messages s)) s
          else set_messages [u] (messages s) s
  | q => set_messages (q ++ [u]) (messages s) s
  end.

(** React runs the oldest queued updater. *)
Definition commit (now : Z) (s : Chat) : Chat :=
  match queue s with
  | [] => s
  | u :: q => set_messages q (runUpdater (gen s) now u (messages s)) s
  end.

Definition discardPendingStreamUpdates (g : nat) (s : Chat) : Chat :=
  set_pending (mkPending g [] []) None s.

Section Handler.
Context (t : jsstr → jsstr).

Definition getDisplayError (error : jsstr) : jsstr :=
  if bool_decide (error ∈ KNOWN_ERROR_MESSAGES) then t error
  else if ends_with (js ": " ++ CONNECTION_CLOSED) error
  then take (length error - length CONNECTION_CLOSED) error ++ t CONNECTION_CLOSED
  else error.

Definition flushStreamUpdates (eager : bool) (now : Z) (g : nat) (s : Chat) : Chat :=
  if bool_decide (g ≠ gen s) then s
  else
    let s1 := set_pending (pending s) None s in
    let p := pending s in
    if bool_decide (p_generation p ≠ g) then s1
    else if negb (str_true (p_reasoning p)) && negb (str_true (p_content p)) then s1
    else onMessageUpdate eager now (UFlush g (p_reasoning p) (p_content p))
           (set_pending (mkPending g [] []) None s1).

Definition scheduleStreamFlush (g : nat) (s : Chat) : Chat :=
  if bool_decide (g ≠ gen s) then s
  else match flushTimer s with
       | Some _ => s
       | None => set_pending (pending s) (Some g) s
       end.

Definition handleStreamUpdate (g : nat) (type : StreamChunkType) (chunk : jsstr) (s : Chat) : Chat :=
  let p := pending s in
  if bool_decide (g ≠ gen s) then s
  else if bool_decide (p_generation p ≠ g) then s
  else
    scheduleStreamFlush g
      (set_pending
         (match type with
          | KContent => mkPending (p_generation p) (mergePendingStreamChunk (p_content p) chunk) (p_reasoning p)
          | KReasoning => mkPending (p_generation p) (p_content p) (mergePendingStreamChunk (p_reasoning p) chunk)
          end) (flushTimer s) s).

Definition handleStreamComplete (eager : bool) (now : Z) (g : nat) (s : Chat) : Chat :=
  if bool_decide (g ≠ gen s) then s
  else onMessageUpdate eager now (UComplete g)
         (set_isRequesting false (flushStreamUpdates eager now g s)).

Definition handleStreamError (eager : bool) (now : Z) (g : nat) (error : jsstr)
    (errorCode : option jsstr) (s : Chat) : Chat :=
  if bool_decide (g ≠ gen s) then s
  else onMessageUpdate eager now
         (UError g (getDisplayError error) errorCode (t API_REQUEST_ERROR))
         (set_isRequesting false (flushStreamUpdates eager now g s)).

Definition sendStreamingChat (config : PlaygroundConfig) (enabled : ParameterEnabled)
    (ms : list Message) (s : Chat) : Chat :=
  let g := S (gen s) in
  let s1 := set_isRequesting true (discardPendingStreamUpdates g (abortCurrent (set_gen g s))) in
  let s2 := add_sent (buildChatCompletionPayload ms config enabled) s1 in
  set_stream (send (stream s2)) (streamGenerations s2 ++ [g]) s2.

(** [sendNonStreamingChat] up to its [await] *)
Definition sendNonStreamingChat (config : PlaygroundConfig) (enabled : ParameterEnabled)
    (ms : list Message) (s : Chat) : Chat :=
  let payload := buildChatCompletionPayload ms config enabled in
  let g := S (gen s) in
  let s1 := set_gen g s in
  let s2 := discardPendingStreamUpdates g (set_stream (stop (stream s1)) (streamGenerations s1) s1) in
  let s3 := abortCurrent s2 in
  add_sent payload (set_isRequesting true (set_calls (Some g) (calls s3 ++ [g]) s3)).

Definition sendChat (config : PlaygroundConfig) (enabled : ParameterEnabled) (ms : list Message)
    (s : Chat) : Chat :=
  if cfg_stream config then sendStreamingChat config enabled ms s
  else sendNonStreamingChat config enabled ms s.

Definition stopGeneration (eager : bool) (now : Z) (s : Chat) : Chat :=
  let s1 := flushStreamUpdates eager now (gen s) s in
  let idle := S (gen s) in
  let s2 := discardPendingStreamUpdates idle (set_gen idle s1) in
  let s3 := set_stream (stop (stream s2)) (streamGenerations s2) s2 in
  onMessageUpdate eager now (UStopped idle) (set_isRequesting false (abortCurrent s3)).

(** How a non-streaming call ends *)
Inductive CallResult :=
| CallResponse (choices : list ChatCompletionChoice)
| CallFailed (errorMessage : jsstr) (errorCode : option jsstr).

(** [sendNonStreamingChat] after its [await], with its [finally] *)
Definition finishCall (eager : bool) (now : Z) (g : nat) (res : CallResult) (s : Chat) : Chat :=
  let s0 := set_calls (abortController s) (filter (fun x => x ≠ g) (calls s)) s in
  let s1 :=
    if bool_decide (g ∈ abortedCalls s0) || bool_decide (gen s0 ≠ g) then s0
    else match res with
         | CallResponse choices =>
             if negb (hasChatCompletionChoice choices)
             then handleStreamError eager now g API_REQUEST_ERROR None s0
             else onMessageUpdate eager now (UResponse g choices) s0
         | CallFailed message code => handleStreamError eager now g message code s0
         end in
  if bool_decide (gen s1 = g) then set_isRequesting false (set_calls None (calls s1) s1) else s1.

(** ** The page as a transition system *)

(** A callback of the stream controller whose values have their declared types. *)
Definition runCallback (eager : bool) (now : Z) (o : Output) (s : Chat) : option Chat :=
  g ← streamGenerations s !! o.1;
  match o.2 with
  | OnUpdate type (JStr chunk) => Some (handleStreamUpdate g type chunk s)
  | OnComplete => Some (handleStreamComplete eager now g s)
  | OnError (JStr error) (JStr code) => Some (handleStreamError eager now g error (Some code) s)
  | OnError (JStr error) JUndef => Some (handleStreamError eager now g error None s)
  | _ => None
  end.

Fixpoint runCallbacks (eager : bool) (now : Z) (os : list Output) (s : Chat) : option Chat :=
  match os with
  | [] => Some s
  | o :: os' => s1 ← runCallback eager now o s; runCallbacks eager now os' s1
  end.

(** What happens to the page: a send, a stop, the flush timer, a result of a
    non-streaming call, an event of the stream, React running an updater, another
    update of the messages, or leaving the page. *)
Inductive ChatEvent :=
| CSend (config : PlaygroundConfig) (enabled : ParameterEnabled) (ms : list Message)
| CStop (eager : bool) (now : Z)
| CTimer (eager : bool) (now : Z)
| CResult (eager : bool) (now : Z) (g : nat) (res : CallResult)
| CStream (eager : bool) (now : Z) (e : Event)
| CCommit (now : Z)
| CUpdate (eager : bool) (now : Z) (u : Updater).

Definition page_update (u : Updater) : bool :=
  match u with USet _ | URemove _ => true | _ => false end.

Definition chat_step (e : ChatEvent) (s : Chat) : option Chat :=
  match e with
  | CSend config enabled ms => Some (sendChat config enabled ms s)
  | CStop eager now => Some (stopGeneration eager now s)
  | CTimer eager now =>
      match flushTimer s with
      | Some g => Some (flushStreamUpdates eager now g s)
      | None => None
      end
  | CResult eager now g res =>
      if bool_decide (g ∈ calls s) then Some (finishCall eager now g res s) else None
  | CStream eager now e =>
      if own_event e then
        let '(c, os) := ctl_step e (stream s) in
        runCallbacks eager now os (set_stream c (streamGenerations s) s)
      else None
  | CCommit now => Some (commit now s)
  | CUpdate eager now u => if page_update u then Some (onMessageUpdate eager now u s) else None
  end.

Fixpoint chat_run (es : list ChatEvent) (s : Chat) : option Chat :=
  match es with
  | [] => Some s
  | e :: es' => s1 ← chat_step e s; chat_run es' s1
  end.

(** ** The invariant *)

(** The part of the state the message updates do not touch. *)
Definition core (s : Chat) : nat * option nat * list nat * Controller * list nat * list nat :=
  (gen s, abortController s, abortedCalls s, stream s, streamGenerations s, calls s).

Definition pending_empty (p : PendingStreamChunks) : Prop := p_content p = [] ∧ p_reasoning p = [].

Record pending_ok (s : Chat) : Prop := {
  po_generation : p_generation (pending s) = gen s;
  po_timer : ∀ g, flushTimer s = Some g → g = gen s;
  po_scheduled : pending_empty (pending s) ∨ flushTimer s = Some (gen s)
}.

(** A handler that only touches messages, pending text and the request flag,
    which it may only clear. *)
Definition local_step (s s' : Chat) : Prop :=
  core s' = core s ∧ (pending_ok s → pending_ok s') ∧ (isRequesting s' = true → isRequesting s = true).

Lemma local_refl s : local_step s s.
Proof. done. Qed.

Lemma local_trans s1 s2 s3 : local_step s1 s2 → local_step s2 s3 → local_step s1 s3.
Proof. intros (E1 & P1 & R1) (E2 & P2 & R2). split_and!; [congruence|auto|auto]. Qed.

Lemma onMessageUpdate_frame eager now u s :
  let s' := onMessageUpdate eager now u s in
  core s' = core s ∧ pending s' = pending s ∧ flushTimer s' = flushTimer s
  ∧ isRequesting s' = isRequesting s ∧ sent s' = sent s.
Proof. unfold onMessageUpdate. destruct (queue s); [by destruct eager|done]. Qed.

Lemma pending_ok_ext s s' :
  gen s' = gen s → pending s' = pending s → flushTimer s' = flushTimer s →
  pending_ok s → pending_ok s'.
Proof. intros Hg Hp Ht [? ? ?]. split; rewrite ?Hg, ?Hp, ?Ht; auto. Qed.

Lemma onMessageUpdate_local eager now u s : local_step s (onMessageUpdate eager now u s).
Proof.
  destruct (onMessageUpdate_frame eager now u s) as (Hc & Hp & Ht & Hr & _).
  split_and!; [done| |by rewrite Hr].
  apply pending_ok_ext; [|done..]. unfold core in Hc. congruence.
Qed.

Lemma flush_local eager now g s : local_step s (flushStreamUpdates eager now g s).
Proof.
  unfold flushStreamUpdates. case_bool_decide as Hg; [apply local_refl|].
  assert (g = gen s) as -> by (by destruct (decide (g = gen s))). cbn [set_pending pending].
  case_bool_decide as Hp; [|destruct (_ && _) eqn:Ee].
  - split_and!; [done| |done]. intros [? ? ?]. by destruct Hp.
  - split_and!; [done| |done]. intros [? ? ?]. split; [done|done|]. left.
    bsplit. rewrite str_true_false in *. done.
  - eapply local_trans; [|apply onMessageUpdate_local].
    split_and!; [done| |done]. intros _. split; [done|done|by left].
Qed.

Lemma set_isRequesting_local s : local_step s (set_isRequesting false s).
Proof. split_and!; [done| |done]. by apply pending_ok_ext. Qed.

Lemma handleStreamUpdate_local g type chunk s : local_step s (handleStreamUpdate g type chunk s).
Proof.
  unfold handleStreamUpdate. case_bool_decide as Hg; [apply local_refl|].
  assert (g = gen s) as -> by (by destruct (decide (g = gen s))).
  case_bool_decide as Hp; [apply local_refl|].
  assert (p_generation (pending s) = gen s) as Ep by (by destruct (decide (p_generation (pending s) = gen s))).
  unfold scheduleStreamFlush. cbn [gen set_pending flushTimer].
  rewrite bool_decide_eq_false_2 by auto.
  destruct (flushTimer s) as [g'|] eqn:Et.
  - split_and!; [done| |done]. intros [_ Hti _]. rewrite (Hti g' Et) in *.
    split; cbn [set_pending pending flushTimer gen]; [by destruct type|by intros ? [= <-]|by right].
  - split_and!; [done| |done]. intros _.
    split; cbn [set_pending pending flushTimer gen]; [by destruct type|by intros ? [= <-]|by right].
Qed.

Lemma handleStreamComplete_local eager now g s : local_step s (handleStreamComplete eager now g s).
Proof.
  unfold handleStreamComplete. case_bool_decide; [apply local_refl|].
  eapply local_trans; [|apply onMessageUpdate_local].
  eapply local_trans; [apply flush_local|apply set_isRequesting_local].
Qed.

Lemma handleStreamError_local eager now g e code s :
  local_step s (handleStreamError eager now g e code s).
Proof.
  unfold handleStreamError. case_bool_decide; [apply local_refl|].
  eapply local_trans; [|apply onMessageUpdate_local].
  eapply local_trans; [apply flush_local|apply set_isRequesting_local].
Qed.

Lemma handleStreamComplete_idle eager now s :
  isRequesting (handleStreamComplete eager now (gen s) s) = false.
Proof.
  unfold handleStreamComplete. rewrite bool_decide_eq_false_2 by auto.
  by rewrite (proj1 (proj2 (proj2 (proj2 (onMessageUpdate_frame eager now _ _))))).
Qed.

Lemma handleStreamError_idle eager now e code s :
  isRequesting (handleStreamError eager now (gen s) e code s) = false.
Proof.
  unfold handleStreamError. rewrite bool_decide_eq_false_2 by auto.
  by rewrite (proj1 (proj2 (proj2 (proj2 (onMessageUpdate_frame eager now _ _))))).
Qed.

Lemma runCallback_local eager now o s s' : runCallback eager now o s = Some s' → local_step s s'.
Proof.
  unfold runCallback. destruct (streamGenerations s !! o.1) as [g|]; [|done]. cbn [mbind option_bind].
  destruct (o.2) as [ty [| | | |c| |]| |[| | | |e| |] [| | | |k| |]]; intros [= <-];
    first [apply handleStreamUpdate_local|apply handleStreamComplete_local|apply handleStreamError_local].
Qed.

Lemma runCallbacks_local eager now os s s' :
  runCallbacks eager now os s = Some s' → local_step s s'.
Proof.
  revert s. induction os as [|o os IH]; intros s; simpl; [intros [= <-]; apply local_refl|].
  intros (s1 & H1 & H2)%bind_Some. eapply local_trans; [by eapply runCallback_local|by apply IH].
Qed.

(** A final callback of the current generation ends the request. *)
Lemma runCallbacks_idle eager now os s s' r cb :
  runCallbacks eager now os s = Some s' → (r, cb) ∈ os → is_update cb = false →
  streamGenerations s !! r = Some (gen s) → isRequesting s' = false.
Proof.
  revert s. induction os as [|o os IH]; intros s H Hin Hcb Hr; [by apply not_elem_of_nil in Hin|].
  cbn [runCallbacks] in H. apply bind_Some in H as (s1 & H1 & H2).
  pose proof (runCallback_local _ _ _ _ _ H1) as (Hc & _ & _).
  apply elem_of_cons in Hin as [<-|Hin].
  - pose proof (runCallbacks_local _ _ _ _ _ H2) as (_ & _ & Hq).
    apply not_true_iff_false. intros Ht. apply Hq in Ht.
    unfold runCallback in H1. cbn [fst snd] in H1. rewrite Hr in H1. cbn [mbind option_bind] in H1.
    destruct cb as [ty v| |[| | | |e| |] [| | | |k| |]]; simplify_eq;
      rewrite ?handleStreamComplete_idle, ?handleStreamError_idle in Ht; done.
  - apply (IH s1); [done..|]. unfold core in Hc. by simplify_eq; congruence.
Qed.

Record chat_ok (s : Chat) : Prop := {
  co_pending : pending_ok s;
  co_stream : ctl_ok (stream s);
  co_length : length (streamGenerations s) = length (requests (stream s));
  co_alive : ∀ r, alive r (stream s) → streamGenerations s !! r = Some (gen s);
  co_requesting : isRequesting s = true → (∃ r, alive r (stream s)) ∨ gen s ∈ calls s;
  co_abort : ∀ a, abortController s = Some a → a = gen s;
  co_aborted : Forall (fun a => a < gen s) (abortedCalls s);
  co_calls : Forall (fun g => g ≤ gen s) (calls s)
}.

Lemma chat_ok_local s s' : local_step s s' → chat_ok s → chat_ok s'.
Proof.
  intros (Hc & Hp & Hr) [? ? ? ? Hq ? ? ?]. unfold core in Hc. injection Hc as Eg Ea Eb Es Esg Ec.
  split; rewrite ?Eg, ?Ea, ?Eb, ?Es, ?Esg, ?Ec; auto.
Qed.

Lemma chat_ok_stream eager now e s s' :
  own_event e = true → chat_ok s →
  runCallbacks eager now (ctl_step e (stream s)).2
    (set_stream (ctl_step e (stream s)).1 (streamGenerations s) s) = Some s' →
  chat_ok s'.
Proof.
  intros He [Hp Hs Hl Ha Hr Hab Habd Hca] Hrun.
  set (s0 := set_stream _ _ _) in Hrun. pose proof (runCallbacks_local _ _ _ _ _ Hrun) as (Hc & Hp' & Hq).
  unfold core in Hc. injection Hc as Eg Ea Eb Es Esg Ec.
  split; rewrite ?Eg, ?Ea, ?Eb, ?Es, ?Esg, ?Ec; cbn [s0 set_stream stream streamGenerations gen calls].
  - by apply Hp', (pending_ok_ext s).
  - by apply ok_step.
  - by rewrite step_length.
  - intros r Har. apply Ha.
    pose proof (alive_lt r _ (ok_step e _ Hs) Har) as Hlt. rewrite step_length in Hlt by done.
    destruct (alive_or_dead r (stream s) Hlt) as [|Hd]; [done|].
    exfalso. eapply alive_not_dead; [exact Har|]. by apply dead_step.
  - intros Ht. destruct (Hr (Hq Ht)) as [[r Har]|Hcall]; [|by right].
    destruct (alive_step r e (stream s) Hs He Har) as [|(cb & Hin & Hcb)]; [left; by exists r|].
    rewrite (runCallbacks_idle _ _ _ s0 s' r cb Hrun Hin Hcb) in Ht; [done|].
    by apply Ha.
  - done.
  - done.
  - done.
Qed.

Lemma aborted_app a (l : list nat) g :
  Forall (fun a => a < S g) (match a with Some a => l ++ [a] | None => l end) ↔
  (∀ x, a = Some x → x < S g) ∧ Forall (fun a => a < S g) l.
Proof.
  destruct a as [a|]; [rewrite Forall_app, Forall_singleton|]; naive_solver.
Qed.

Lemma chat_ok_aborted s g :
  chat_ok s → g = S (gen s) →
  Forall (fun a => a < g) (match abortController s with Some a => abortedCalls s ++ [a] | None => abortedCalls s end).
Proof.
  intros [_ _ _ _ _ Hab Habd _] ->. apply aborted_app. split.
  - intros x Hx. rewrite (Hab x Hx). lia.
  - eapply Forall_impl; [exact Habd|]. simpl. lia.
Qed.

Lemma chat_ok_send config enabled ms s : chat_ok s → chat_ok (sendChat config enabled ms s).
Proof.
  intros Hok. pose proof (chat_ok_aborted s _ Hok eq_refl) as Habd. pose proof (co_stream s Hok) as Hs.
  pose proof (co_length s Hok) as Hl.
  assert (Forall (fun g => g ≤ S (gen s)) (calls s)) as Hca
    by (eapply Forall_impl; [apply (co_calls s Hok)|simpl; lia]).
  unfold sendChat. destruct (cfg_stream config).
  - split; cbn; try done.
    + split; cbn; [done|done|by left].
    + by apply ok_send.
    + rewrite !length_app. simpl. lia.
    + intros r Hr. apply send_alive in Hr; [|done]. subst r. rewrite <- Hl. by apply list_lookup_middle.
    + intros _. left. exists (length (requests (stream s))). by apply send_alive.
  - split; cbn; try done.
    + split; cbn; [done|done|by left].
    + by apply ok_cancel.
    + intros r Hr. by apply cancel_alive in Hr.
    + intros _. right. set_solver.
    + by intros a [= <-].
    + apply Forall_app. split; [done|]. by constructor.
Qed.

Lemma chat_ok_stop eager now s : chat_ok s → chat_ok (stopGeneration eager now s).
Proof.
  intros Hok. unfold stopGeneration.
  eapply chat_ok_local; [apply onMessageUpdate_local|].
  pose proof (chat_ok_local _ _ (flush_local eager now (gen s) s) Hok) as Hok1.
  pose proof (flush_local eager now (gen s) s) as (Hc & _ & _).
  set (s1 := flushStreamUpdates eager now (gen s) s) in *.
  assert (gen s1 = gen s) as Eg by (unfold core in Hc; congruence).
  pose proof (chat_ok_aborted s1 _ Hok1 eq_refl) as Habd. rewrite Eg in Habd.
  pose proof (co_stream s1 Hok1). pose proof (co_length s1 Hok1).
  assert (Forall (fun g => g ≤ S (gen s)) (calls s1))
    by (eapply Forall_impl; [apply (co_calls s1 Hok1)|simpl; rewrite Eg; lia]).
  split; cbn; try done.
  - split; cbn; [done|done|by left].
  - by apply ok_cancel.
  - intros r Hr. by apply cancel_alive in Hr.
Qed.

Lemma chat_ok_calls s cs :
  chat_ok s → (gen s ∈ calls s → gen s ∈ cs ∨ isRequesting s = false) → cs ⊆ calls s →
  ∀ a, (a = None ∨ a = abortController s) → chat_ok (set_calls a cs s).
Proof.
  intros [Hp Hs Hl Ha Hr Hab Habd Hca] Hcs Hsub a Hor. split; cbn; try done.
  - by apply (pending_ok_ext s).
  - intros Ht. destruct (Hr Ht) as [|Hc]; [by left|]. right. destruct (Hcs Hc); [done|congruence].
  - destruct Hor as [->| ->]; [done|apply Hab].
  - rewrite Forall_forall in Hca |- *. intros x Hx. by apply Hca, Hsub.
Qed.

Lemma chat_ok_finish eager now g res s : chat_ok s → chat_ok (finishCall eager now g res s).
Proof.
  intros Hok. unfold finishCall.
  set (s0 := set_calls _ _ s).
  set (s1 := if _ || _ then s0 else _).
  assert (local_step s0 s1) as Hl1.
  { unfold s1. destruct (_ || _); [apply local_refl|]. destruct res as [cs|e k]; [destruct (negb _)|];
      first [apply handleStreamError_local|apply onMessageUpdate_local]. }
  pose proof Hl1 as (Hc & _ & _). assert (gen s1 = gen s) as Eg by (unfold core in Hc; cbn in Hc; congruence).
  destruct (decide (gen s = g)) as [<-|Hne].
  - rewrite bool_decide_eq_true_2 by done.
    assert (chat_ok (set_isRequesting false s0)) as Hok0.
    { eapply (chat_ok_local s) in Hok; [|apply set_isRequesting_local].
      destruct Hok as [Hp Hs Hl Ha Hr Hab Habd Hca]. split; cbn; try done; [by apply (pending_ok_ext (set_isRequesting false s))|].
      rewrite Forall_forall in Hca |- *. intros x [_ Hx]%list_elem_of_filter. by apply Hca. }
    assert (local_step (set_isRequesting false s0) (set_isRequesting false s1)) as Hl2.
    { destruct Hl1 as (E & P & R). split_and!; [exact E| |done].
      intros Hp. apply (pending_ok_ext s1); [done..|]. apply P. by apply (pending_ok_ext (set_isRequesting false s0)). }
    pose proof (chat_ok_local _ _ Hl2 Hok0) as Hok1.
    apply (chat_ok_calls (set_isRequesting false s1) (calls s1) Hok1); [by right|done|by left].
  - rewrite bool_decide_eq_false_2 by congruence. eapply chat_ok_local; [exact Hl1|].
    apply chat_ok_calls; [done| | |by right].
    + intros Hin. left. apply list_elem_of_filter. done.
    + intros x [_ Hx]%list_elem_of_filter. done.
Qed.

Lemma chat_ok_step e s s' : chat_ok s → chat_step e s = Some s' → chat_ok s'.
Proof.
  intros Hok. destruct e as [config enabled ms|eager now|eager now|eager now g res|eager now e|now|eager now u]; simpl.
  - intros [= <-]. by apply chat_ok_send.
  - intros [= <-]. by apply chat_ok_stop.
  - destruct (flushTimer s) as [g|]; intros [= <-]. eapply chat_ok_local; [apply flush_local|done].
  - case_bool_decide; intros [= <-]. by apply chat_ok_finish.
  - destruct (own_event e) eqn:He; [|done].
    destruct (ctl_step e (stream s)) as [c os] eqn:E. intros Hrun.
    apply (chat_ok_stream eager now e s s'); [done..|]. by rewrite E.
  - intros [= <-]. unfold commit. destruct (queue s); [done|].
    apply (chat_ok_local s); [|done]. split_and!; [done| |done]. by apply pending_ok_ext.
  - destruct (page_update u); intros [= <-]. eapply chat_ok_local; [apply onMessageUpdate_local|done].
Qed.

Lemma chat_ok_run es s s' : chat_ok s → chat_run es s = Some s' → chat_ok s'.
Proof.
  revert s. induction es as [|e es IH]; intros s Hok; simpl; [by intros [= <-]|].
  intros (s1 & H1 & H2)%bind_Some. eapply IH; [by eapply chat_ok_step|done].
Qed.

Lemma chat_ok_init ms : chat_ok (initialChat ms).
Proof.
  split; cbn; try done; [|apply ok_init|].
  - split; cbn; [done|done|by left].
  - intros r [|(q & [Hq _] & _)]; [done|]. by destruct r.
Qed.

(** C10. In every reachable state of the page: while a request is shown as
    running there is a stream request or an unanswered call of the current
    generation that will still end it; every stream request that can still call
    back is of the current generation; and received text that is not yet handed
    to React has a flush scheduled for the current generation. *)
Theorem chat_invariant ms es s :
  chat_run es (initialChat ms) = Some s →
  (isRequesting s = true → (∃ r, alive r (stream s)) ∨ gen s ∈ calls s)
  ∧ (∀ r, alive r (stream s) → streamGenerations s !! r = Some (gen s))
  ∧ (pending_empty (pending s)
     ∨ p_generation (pending s) = gen s ∧ flushTimer s = Some (gen s)).
Proof.
  intros H. pose proof (chat_ok_run es _ s (chat_ok_init ms) H) as [[Hg _ Hp] _ _ Ha Hr _ _ _].
  split_and!; [done|done|]. destruct Hp; [by left|by right].
Qed.

(** A page on which nothing can be received any more *)
Record quiet (s : Chat) : Prop := {
  qu_requesting : isRequesting s = false;
  qu_alive : ∀ r, ¬ alive r (stream s);
  qu_stream : ctl_ok (stream s);
  qu_calls : gen s ∉ calls s;
  qu_timer : flushTimer s = None
}.

(** Everything but a new send, another stop or an edit of the conversation *)
Definition background (e : ChatEvent) : bool :=
  match e with CSend _ _ _ | CStop _ _ | CUpdate _ _ _ => false | _ => true end.

Definition runQueue (g : nat) (us : list (Z * Updater)) (ms : list Message) : list Message :=
  foldl (fun ms u => runUpdater g u.1 u.2 ms) ms us.

Lemma finishCall_stale eager now g res s :
  gen s ≠ g →
  finishCall eager now g res s = set_calls (abortController s) (filter (fun x => x ≠ g) (calls s)) s.
Proof.
  intros Hg. unfold finishCall. cbn [gen set_calls].
  rewrite (bool_decide_eq_true_2 (gen s ≠ g)), orb_true_r by done. cbn [gen set_calls].
  by rewrite bool_decide_eq_false_2.
Qed.

Lemma quiet_step e s s' :
  background e = true → quiet s → chat_step e s = Some s' →
  quiet s' ∧ gen s' = gen s
  ∧ ∃ us, queue s = us.*2 ++ queue s' ∧ messages s' = runQueue (gen s) us (messages s).
Proof.
  intros Hb [Hr Ha Hs Hc Ht] Hst.
  destruct e as [| |eager now|eager now g res|eager now e|now|]; simpl in Hb, Hst; try done.
  - by rewrite Ht in Hst.
  - case_bool_decide as Hin; [|done]. injection Hst as <-.
    rewrite finishCall_stale by (intros <-; done). split; [|split; [done|by exists []]].
    split; cbn; try done. intros [_ ?]%list_elem_of_filter. done.
  - destruct (own_event e) eqn:He; [|done].
    destruct (ctl_step e (stream s)) as [c os] eqn:E.
    assert (os = []) as ->.
    { destruct os as [|[r cb] os]; [done|]. destruct (Ha r). apply (output_alive r cb e). rewrite E. constructor. }
    injection Hst as <-. assert (c = (ctl_step e (stream s)).1) as -> by (by rewrite E).
    split; [|split; [done|by exists []]]. split; cbn; try done; [|by apply ok_step].
    intros r Har. pose proof (alive_lt r _ (ok_step e _ Hs) Har) as Hlt. rewrite step_length in Hlt by done.
    destruct (alive_or_dead r (stream s) Hlt) as [|Hd]; [by eapply Ha|].
    eapply alive_not_dead; [exact Har|]. by apply dead_step.
  - injection Hst as <-. unfold commit. destruct (queue s) as [|u q] eqn:Eq.
    + split; [by split|]. split; [done|]. exists []. by rewrite Eq.
    + split; [by split|]. split; [done|]. by exists [(now, u)].
Qed.

Lemma quiet_run es s s' :
  Forall (fun e => background e = true) es → quiet s → chat_run es s = Some s' →
  quiet s' ∧ ∃ us, queue s = us.*2 ++ queue s' ∧ messages s' = runQueue (gen s) us (messages s).
Proof.
  intros Hb. revert s. induction Hb as [|e es He _ IH]; intros s Hq; simpl.
  - intros [= <-]. split; [done|]. by exists [].
  - intros (s1 & H1 & H2)%bind_Some.
    destruct (quiet_step e s s1 He Hq H1) as (Hq1 & Hg & us1 & E1 & M1).
    destruct (IH s1 Hq1 H2) as (Hq2 & us2 & E2 & M2). split; [done|]. exists (us1 ++ us2).
    rewrite fmap_app, <- (assoc_L app), <- E2, <- E1. split; [done|].
    rewrite M2, M1, Hg. unfold runQueue. by rewrite foldl_app.
Qed.

Lemma quiet_stop eager now s : chat_ok s → quiet (stopGeneration eager now s).
Proof.
  intros Hok. pose proof (chat_ok_stop eager now s Hok) as Hok'.
  unfold stopGeneration in *.
  pose proof (flush_local eager now (gen s) s) as Hfl.
  pose proof (chat_ok_local _ _ Hfl Hok) as Hok1. destruct Hfl as (Hc & _ & _).
  set (s1 := flushStreamUpdates eager now (gen s) s) in *.
  set (s2 := set_isRequesting false _) in *.
  destruct (onMessageUpdate_frame eager now (UStopped (S (gen s))) s2) as (Hcore & Hp & Ht & Hr & _).
  unfold core in Hcore, Hc. injection Hcore as Eg Ea Eb Es Esg Ec. injection Hc as Eg1 _ _ _ _ _.
  split; rewrite ?Hr, ?Ht, ?Es, ?Ec, ?Eg; cbn; try done.
  - intros r. apply cancel_alive, (co_stream s1 Hok1).
  - apply ok_cancel, (co_stream s1 Hok1).
  - intros Hin. pose proof (co_calls s1 Hok1) as Hca. rewrite Forall_forall in Hca.
    specialize (Hca _ Hin). lia.
Qed.

(** C11. Stopping is final: from any reachable state, after the stop no late
    stream event, answer of a call or timer changes the conversation or marks a
    request as running; the only changes still to come are those of updaters that
    were already queued, and of them those of earlier generations do nothing. *)
Theorem stop_is_final ms es0 s eager now es s' :
  chat_run es0 (initialChat ms) = Some s →
  Forall (fun e => background e = true) es →
  let s1 := stopGeneration eager now s in
  chat_run es s1 = Some s' →
  isRequesting s' = false
  ∧ ∃ us, queue s1 = us.*2 ++ queue s' ∧ messages s' = runQueue (gen s1) us (messages s1).
Proof.
  intros H0 Hb s1 H1. pose proof (chat_ok_run es0 _ s (chat_ok_init ms) H0) as Hok.
  destruct (quiet_run es s1 s' Hb (quiet_stop eager now s Hok) H1) as [[Hr _ _ _ _] Hus]. done.
Qed.

(** The text received since the last flush is lost when the page stops a
    reply and React does not run the flush at once: the flush is dropped as
    belonging to an earlier generation, and the reply is completed without it. *)
Theorem stop_drops_unflushed_text s now now1 now2 :
  chat_ok s → queue s = [] → ¬ pending_empty (pending s) →
  let s' := commit now2 (commit now1 (stopGeneration false now s)) in
  queue s' = [] ∧ messages s' = runUpdater (S (gen s)) now2 (UStopped (S (gen s))) (messages s).
Proof.
  intros [[Hg _ _] _ _ _ _ _ _ _] Hq Hp. unfold stopGeneration, flushStreamUpdates.
  rewrite bool_decide_eq_false_2 by auto. cbn [set_pending pending].
  rewrite bool_decide_eq_false_2 by auto.
  destruct (_ && _) eqn:E; [bsplit; rewrite str_true_false in *; by destruct Hp|].
  unfold onMessageUpdate. cbn. rewrite Hq. cbn.
  assert (bool_decide (gen s ≠ S (gen s)) = true) as -> by (apply bool_decide_eq_true_2; lia).
  done.
Qed.
End Handler.


(** A page that has received the start of a reply and not flushed it *)
Definition sample_config : PlaygroundConfig :=
  mkConfig (js "m") (js "default") (num_of_Z 1) (num_of_Z 1) (num_of_Z 1) (num_of_Z 0) (num_of_Z 0)
    None true.
Definition sample_enabled : ParameterEnabled := mkEnabled true true false true true false.
Definition sample_messages : list Message :=
  appendUserMessagePair (mkIds [1%N] [2%N] [3%N] [4%N]) [] (js "hello") 0%Z.

Definition sample_chunk : jsstr :=
  js "{" ++ quote ++ js "choices" ++ quote ++ js ":[{" ++ quote ++ js "delta" ++ quote ++ js ":{"
  ++ quote ++ js "content" ++ quote ++ js ":" ++ quote ++ js "hi" ++ quote ++ js "}}]}".

Definition sample_events : list ChatEvent :=
  [CSend sample_config sample_enabled sample_messages;
   CStream true 1%Z (EHeaders 0 false);
   CStream true 2%Z (EMessage 0 (Some sample_chunk) None)].

Definition sample_chat : Chat :=
  default (initialChat []) (chat_run id sample_events (initialChat sample_messages)).

Lemma chat_invariant_witness :
  isRequesting sample_chat = true ∧
  ((∃ r, alive r (stream sample_chat)) ∨ gen sample_chat ∈ calls sample_chat).
Proof.
  split; [vm_compute; reflexivity|].
  apply (chat_invariant id sample_messages sample_events); vm_compute; reflexivity.
Defined.

Lemma stop_is_final_witness :
  let s1 := stopGeneration false 3%Z sample_chat in
  ∃ us, queue s1 = us.*2 ++ queue (commit 4%Z s1)
        ∧ messages (commit 4%Z s1) = runQueue (gen s1) us (messages s1).
Proof.
  apply (stop_is_final id sample_messages sample_events sample_chat false 3%Z [CCommit 4%Z]).
  - vm_compute; reflexivity.
  - constructor; [reflexivity|constructor].
  - reflexivity.
Defined.

Lemma stop_drops_unflushed_text_witness :
  p_content (pending sample_chat) = js "hi"
  ∧ queue (commit 5%Z (commit 4%Z (stopGeneration false 3%Z sample_chat))) = [].
Proof.
  split; [vm_compute; reflexivity|].
  apply (stop_drops_unflushed_text sample_chat 3%Z 4%Z 5%Z).
  - apply (chat_ok_run id sample_events (initialChat sample_messages)); [apply chat_ok_init|].
    vm_compute; reflexivity.
  - vm_compute; reflexivity.
  - vm_compute. intros [[=] _].
Defined.

End ChatHandler.
