(* ===== verification/ChatStorage.v ===== *)
(** * Stored conversations
    (src/web/src/features/playground/lib/storage/storage.ts and storage-schema.ts)

    What a conversation goes through between the page and the browser's storage:
    limits on the number and size of messages, the collapsing of repeated
    sections, the settling of messages found unfinished, and when the result is
    written back.

    [decode] stands for reading a text back ([JSON.parse], the unwrapping of the
    versioned envelope and the schema of the validation library; [None] when it
    throws or the value is empty) and [encode] for writing one (schema,
    [JSON.stringify] and [setItem]; [None] when one of them throws). *)

From S2P Require Import Prelude JsString JsValue ChatMessage.
Import ChatMessage.

Module ChatStorage.

Definition MAX_STORED_MESSAGES : nat := 100.
Definition MAX_STORED_MESSAGES_BYTES : Z := 1024 * 1024.
Definition MAX_LOADED_MESSAGES_CHARS : Z := 120000.
Definition MAX_LOADED_MESSAGE_CHARS : Z := 40000.
Definition TRUNCATED_CONTENT_SUFFIX : jsstr := js "

[...]".
Definition MIN_PREFIX_COLLAPSE_LENGTH : Z := 2000.
Definition MIN_REPEATED_SECTION_COUNT : nat := 3.

(** [s.length] *)
Definition len (s : jsstr) : Z := Z.of_nat (length s).

(** [messages.slice(-MAX_STORED_MESSAGES)] when there are more *)
Definition trimMessages (ms : list Message) : list Message :=
  if bool_decide (length ms ≤ MAX_STORED_MESSAGES) then ms
  else drop (length ms - MAX_STORED_MESSAGES) ms.

Definition getMessageSize (m : Message) : Z :=
  let versionsSize := foldl (fun total v => total + len (v_content v))%Z 0%Z (versions m) in
  let reasoningSize := match reasoning m with Some r => len (r_content r) | None => 0%Z end in
  (versionsSize + reasoningSize)%Z.

Definition truncateText (text : jsstr) (maxLength : Z) : jsstr :=
  if (len text <=? maxLength)%Z then text
  else if (maxLength <=? len TRUNCATED_CONTENT_SUFFIX)%Z then take (Z.to_nat maxLength) text
  else take (Z.to_nat (maxLength - len TRUNCATED_CONTENT_SUFFIX)) text ++ TRUNCATED_CONTENT_SUFFIX.

(** ** Numbered headings: [/^#{2,6}\s+\d+\.\s+.+$/gm] *)

Definition is_terminator (c : N) : bool :=
  ((c =? 10) || (c =? 13) || (c =? 8232) || (c =? 8233))%N.

(** The longest prefix of units satisfying [f] *)
Fixpoint span (f : N → bool) (s : jsstr) : jsstr * jsstr :=
  match s with
  | [] => ([], [])
  | c :: s' => if f c then let '(a, b) := span f s' in (c :: a, b) else ([], s)
  end.

(** The last position, from [j] down to 1, of a unit that ends no line *)
Fixpoint last_text (ws : jsstr) (j : nat) : option nat :=
  match j with
  | 0 => None
  | S j' =>
      match ws !! j with
      | Some c => if is_terminator c then last_text ws j' else Some j
      | None => last_text ws j'
      end
  end.

(** [\s+] taking [ws], the whole run of spaces, before [.+]: when something
    follows the run, all of it; at the end of the text it gives back units until
    [.+] finds one that ends no line.  The number of units it keeps. *)
Definition spaces_before_text (ws rest : jsstr) : option nat :=
  match rest, ws with
  | _ :: _, _ :: _ => Some (length ws)
  | [], _ => last_text ws (length ws - 1)
  | _, [] => None
  end.

(** The length of the heading at the start of [s], which starts a line *)
Definition match_heading (s : jsstr) : option nat :=
  let '(hashes, s1) := span (fun c => (c =? 35)%N) s in
  if bool_decide (2 ≤ length hashes ≤ 6) then
    let '(ws1, s2) := span is_ws s1 in
    let '(digits, s3) := span is_digit s2 in
    match ws1, digits, s3 with
    | _ :: _, _ :: _, 46%N :: s4 =>
        let '(ws2, s5) := span is_ws s4 in
        match spaces_before_text ws2 s5 with
        | Some k =>
            let '(line, _) := span (fun c => negb (is_terminator c)) (drop k s4) in
            Some (length hashes + length ws1 + length digits + 1 + k + length line)
        | None => None
        end
    | _, _, _ => None
    end
  else None.

Record SectionOccurrence := mkOccurrence { heading : jsstr; index : nat }.

(** The successive matches; [skip] units of the last match remain, [lineStart]
    says whether a line starts here. *)
Fixpoint scanHeadings (s : jsstr) (skip : nat) (lineStart : bool) (i : nat) : list SectionOccurrence :=
  match s with
  | [] => []
  | c :: s' =>
      match skip with
      | S k => scanHeadings s' k (is_terminator c) (S i)
      | 0 =>
          match (if lineStart then match_heading s else None) with
          | Some n => mkOccurrence (take n s) i :: scanHeadings s' (n - 1) (is_terminator c) (S i)
          | None => scanHeadings s' 0 (is_terminator c) (S i)
          end
      end
  end.

Definition getSectionOccurrences (text : jsstr) : list SectionOccurrence := scanHeadings text 0 true 0.

Definition getHeadingCounts (occurrences : list SectionOccurrence) : list (jsstr * nat) :=
  foldl (fun counts o => mset (heading o) (S (default 0 (mget (heading o) counts))) counts) [] occurrences.

(** The loop from the last occurrence down: the indexes pushed *)
Fixpoint lastRepeatedIndexes (counts : list (jsstr * nat)) (rev_occurrences : list SectionOccurrence)
    (seenHeadings : list jsstr) : list nat :=
  match rev_occurrences with
  | [] => []
  | o :: os =>
      if bool_decide (default 0 (mget (heading o) counts) < MIN_REPEATED_SECTION_COUNT)
         || bool_decide (heading o ∈ seenHeadings)
      then lastRepeatedIndexes counts os seenHeadings
      else index o :: lastRepeatedIndexes counts os (sadd (heading o) seenHeadings)
  end.

(** [None] for -1 *)
Definition findLastRepeatedSectionRunStart (text : jsstr) : option nat :=
  let occurrences := getSectionOccurrences text in
  match lastRepeatedIndexes (getHeadingCounts occurrences) (reverse occurrences) [] with
  | [] => None
  | i :: more => Some (foldl Nat.min i more)
  end.

Definition collapseRepeatedSectionSnapshots (text : jsstr) : jsstr :=
  if (len text <? MIN_PREFIX_COLLAPSE_LENGTH)%Z then text
  else match findLastRepeatedSectionRunStart text with
       | None => text
       | Some i => drop i text
       end.

(** ** Loading and saving *)

Definition normalizeVersion (v : MessageVersion) : MessageVersion :=
  mkVersion (v_id v) (truncateText (collapseRepeatedSectionSnapshots (v_content v)) MAX_LOADED_MESSAGE_CHARS).

(** The test under which a version is returned as it is *)
Definition versionKept (v : MessageVersion) : bool :=
  let collapsed := collapseRepeatedSectionSnapshots (v_content v) in
  bool_decide (truncateText collapsed MAX_LOADED_MESSAGE_CHARS = v_content v)
  && bool_decide (collapsed = v_content v).

Definition truncateReasoning (r : Reasoning) : Reasoning :=
  mkReasoning (truncateText (r_content r) MAX_LOADED_MESSAGE_CHARS) (r_duration r) (r_startedAt r)
    (r_completedAt r) (r_durationMs r).

Definition normalizeStoredMessageForLoad (m : Message) (now : Z) : Message :=
  let newVersions := (fun v => if versionKept v then v else normalizeVersion v) <$> versions m in
  let newReasoning := truncateReasoning <$> reasoning m in
  let changed := existsb (fun v => negb (versionKept v)) (versions m)
                 || negb (bool_decide (r_content <$> newReasoning = r_content <$> reasoning m)) in
  let normalized := if changed then with_reasoning newReasoning (with_versions newVersions m) else m in
  if negb (isAssistantMessagePending normalized) then normalized
  else
    let hasContent := hasMessageContent normalized in
    let hasReasoning := str_true (trim (ostr (r_content <$> reasoning normalized))) in
    if negb hasContent && negb hasReasoning then normalized
    else
      let completed :=
        default now (orElse (completedAt normalized)
          (orElse (reasoning normalized ≫= r_completedAt)
             (orElse (startedAt normalized) (createdAt normalized)))) in
      completeAssistantTiming
        (with_reasoningStreaming false (with_status SComplete (finalizeMessage normalized None now)))
        completed.

(** The loop from the last message down; [result] is in order. *)
Fixpoint trimLoop (rev_messages : list Message) (totalSize : Z) (result : list Message) : list Message :=
  match rev_messages with
  | [] => result
  | m :: ms =>
      if bool_decide (0 < length result)
         && (MAX_LOADED_MESSAGES_CHARS <? totalSize + getMessageSize m)%Z
      then result
      else trimLoop ms (totalSize + getMessageSize m) (m :: result)
  end.

Definition trimMessagesByContentSize (ms : list Message) : list Message := trimLoop (reverse ms) 0 [].

Section Storage.
Context (decode : jsstr → option (list Message)).
Context (encode : list Message → option jsstr).
Context (t : jsstr → jsstr).

(** The stored text of the conversation, absent or present *)
Definition Store : Type := option jsstr.

(** A failed write leaves what was stored. *)
Definition saveMessages (ms : list Message) (st : Store) : Store :=
  match encode (trimMessages ms) with Some s => Some s | None => st end.

Definition readStoredMessagesValue (st : Store) : Store * option (list Message) :=
  match st with
  | None => (st, None)
  | Some saved =>
      if negb (str_true saved) then (st, None)
      else if (MAX_STORED_MESSAGES_BYTES <? len saved)%Z then (None, None)
      else (st, decode saved)
  end.

(** The messages as they are after the limits, before unfinished ones are settled *)
Definition limitMessages (parsed : list Message) (now : Z) : list Message :=
  trimMessagesByContentSize
    (trimMessages ((fun m => normalizeStoredMessageForLoad m now) <$> parsed)).

(** [trimMessagesByContentSize] returns a fresh array, so the test that decides
    whether to write back, which compares arrays by identity, always succeeds. *)
Definition loadMessages (now : Z) (st : Store) : Store * option (list Message) :=
  match readStoredMessagesValue st with
  | (st', None) => (st', None)
  | (st', Some parsed) =>
      let sanitized := sanitizeMessagesOnLoad t (limitMessages parsed now) now in
      (saveMessages sanitized st', Some sanitized)
  end.
End Storage.


(** ** Texts *)

Lemma len_nonneg s : (0 ≤ len s)%Z.
Proof. unfold len. lia. Qed.

Lemma truncate_bound s n : (0 ≤ n)%Z → (len (truncateText s n) ≤ n)%Z.
Proof.
  intros Hn. unfold truncateText. destruct (Z.leb_spec (len s) n); [done|].
  destruct (Z.leb_spec n (len TRUNCATED_CONTENT_SUFFIX)); unfold len in *.
  - rewrite length_take. lia.
  - rewrite length_app, length_take. lia.
Qed.

Lemma truncate_id s n : (len s ≤ n)%Z → truncateText s n = s.
Proof. intros H. unfold truncateText. by rewrite (proj2 (Z.leb_le _ _) H). Qed.

(** What is kept of a truncated text is a prefix of it. *)
Lemma truncate_prefix s n :
  ∃ p, p `prefix_of` s ∧ (truncateText s n = p ∨ truncateText s n = p ++ TRUNCATED_CONTENT_SUFFIX).
Proof.
  unfold truncateText. destruct (_ <=? _)%Z; [exists s; auto|].
  destruct (_ <=? _)%Z; eexists; (split; [apply prefix_take|]); auto.
Qed.

Lemma collapse_suffix s : collapseRepeatedSectionSnapshots s `suffix_of` s.
Proof.
  unfold collapseRepeatedSectionSnapshots. destruct (_ <? _)%Z; [done|].
  destruct (findLastRepeatedSectionRunStart s) as [i|]; [|done].
  exists (take i s). by rewrite take_drop.
Qed.

Lemma join_length sep l : length (str_join sep l) ≤ sum_list (length <$> l) + length sep * length l.
Proof.
  induction l as [|w l IH]; simpl; [lia|]. destruct l as [|w' l]; simpl in *; [lia|].
  rewrite !length_app. lia.
Qed.

Lemma render_bound segs tl :
  length (concat segs.*1 ++ tail_visible tl) ≤ length (render_think segs tl)
  ∧ sum_list (length <$> segs.*2 ++ tail_reasoning tl) + 2 * length (segs.*2 ++ tail_reasoning tl)
    ≤ length (render_think segs tl).
Proof.
  induction segs as [|[v r] segs [IH1 IH2]].
  - destruct tl as [v|v r]; simpl; rewrite ?length_app, ?open_tag_length; lia.
  - cbn [render_think]. rewrite !fmap_cons, <- app_comm_cons, fmap_cons. cbn [concat fst snd sum_list].
    rewrite !length_app in *. cbn [length] in *.
    rewrite open_tag_length, close_tag_length in *. rewrite length_app in *. unfold id in *. lia.
Qed.

Lemma parsed_bound s :
  length (visibleContent (parsedThinkTags s)) ≤ length s
  ∧ length (p_reasoning (parsedThinkTags s)) ≤ length s.
Proof.
  destruct (think_segments (S (length s)) s) as (segs & tl & Hs & Ht & ->); [lia|].
  unfold parsedThinkTags. rewrite parseThinkTags_render by done. cbn [default from_option].
  destruct (render_bound segs tl) as [Hv Hr].
  assert (length (trim (str_join (js "

") (segs.*2 ++ tail_reasoning tl))) ≤ length (render_think segs tl)) as Hj.
  { etrans; [apply trim_length|]. etrans; [apply join_length|].
    assert (length (js "

") = 2) as -> by (vm_compute; reflexivity). lia. }
  unfold think_answer. destruct segs as [|sg segs]; [destruct tl as [v|v r]|]; cbn [visibleContent p_reasoning id];
    try (simpl; lia); (split; [etrans; [apply trim_length|done]|done]).
Qed.

(** ** Sizes after loading *)

Definition message_bounded (m : Message) : Prop :=
  Forall (fun v => len (v_content v) ≤ MAX_LOADED_MESSAGE_CHARS)%Z (versions m)
  ∧ (len (reasoning_text m) ≤ MAX_LOADED_MESSAGE_CHARS)%Z.

Lemma getMessageContent_bounded m :
  message_bounded m → (len (getMessageContent m) ≤ MAX_LOADED_MESSAGE_CHARS)%Z.
Proof.
  intros [Hv _]. unfold getMessageContent, getCurrentVersion. destruct (versions m) as [|v vs].
  - unfold len, MAX_LOADED_MESSAGE_CHARS. simpl. lia.
  - by inversion Hv.
Qed.

Lemma finalize_bounded m now : message_bounded m → message_bounded (finalizeMessage m None now).
Proof.
  intros Hb. pose proof (getMessageContent_bounded m Hb) as Hc. destruct Hb as [_ Hr].
  destruct (finalizeMessage_frame m None now) as (Hcont & _ & Hreas & _).
  assert (∃ id, versions (finalizeMessage m None now) = [mkVersion id (final_content m)]) as [id Hv].
  { exists (v_id (getCurrentVersion m)). unfold finalizeMessage.
    rewrite (proj1 (completeReasoning_frame _ now)). simpl. f_equal. f_equal.
    unfold final_content, getMessageContent. by destruct (includes _ _). }
  destruct (parsed_bound (getMessageContent m)) as [Hpv Hpr].
  split.
  - rewrite Hv. constructor; [|constructor]. simpl. unfold final_content, len in *.
    destruct (includes _ _); lia.
  - rewrite Hreas. unfold final_reasoning, str_or, len in *. cbn [ostr default from_option str_true].
    destruct (str_true (reasoning_text m)); [done|]. destruct (includes _ _); [lia|].
    unfold MAX_LOADED_MESSAGE_CHARS in *. simpl. lia.
Qed.

Lemma normalizeVersion_bounded v :
  (len (v_content (if versionKept v then v else normalizeVersion v)) ≤ MAX_LOADED_MESSAGE_CHARS)%Z.
Proof.
  assert (0 ≤ MAX_LOADED_MESSAGE_CHARS)%Z as H0 by (unfold MAX_LOADED_MESSAGE_CHARS; lia).
  destruct (versionKept v) eqn:E; [|by apply truncate_bound].
  unfold versionKept in E. apply andb_true_iff in E as [E _]. apply bool_decide_eq_true in E.
  rewrite <- E. by apply truncate_bound.
Qed.

Lemma normalize_bounded m now : message_bounded (normalizeStoredMessageForLoad m now).
Proof.
  unfold normalizeStoredMessageForLoad.
  set (vs := (fun v => if versionKept v then v else normalizeVersion v) <$> versions m).
  set (n := if _ || _ then _ else m).
  assert (0 ≤ MAX_LOADED_MESSAGE_CHARS)%Z as H0 by (unfold MAX_LOADED_MESSAGE_CHARS; lia).
  assert (message_bounded n) as Hn.
  { assert (Forall (fun v => len (v_content v) ≤ MAX_LOADED_MESSAGE_CHARS)%Z vs) as Hvs.
    { apply Forall_fmap, Forall_true. intros v. apply normalizeVersion_bounded. }
    unfold n. destruct (existsb _ _ || _) eqn:E.
    - split; [done|]. unfold reasoning_text. simpl. destruct (reasoning m); simpl; [by apply truncate_bound|].
      unfold len. simpl. done.
    - apply orb_false_iff in E as [E1 E2]. split.
      + replace (versions m) with vs; [done|]. unfold vs.
        apply negb_false_iff, bool_decide_eq_true in E2. clear -E1.
        induction (versions m) as [|v l IH]; [done|]. simpl in E1. apply orb_false_iff in E1 as [Ev El].
        rewrite fmap_cons, IH by done. apply negb_false_iff in Ev. by rewrite Ev.
      + apply negb_false_iff, bool_decide_eq_true in E2. unfold reasoning_text. rewrite <- E2.
        destruct (reasoning m); simpl; [by apply truncate_bound|]. unfold len. simpl. done. }
  clearbody n. clear vs.
  destruct (negb (isAssistantMessagePending n)); [done|]. destruct (_ && _); [done|].
  set (f := finalizeMessage n None now). pose proof (finalize_bounded n now Hn) as [Hf1 Hf2]. fold f in Hf1, Hf2.
  match goal with |- message_bounded (completeAssistantTiming ?x ?y) =>
    destruct (completeAssistantTiming_frame x y) as (Ev & _ & _ & Er & _) end.
  split; [by rewrite Ev|]. unfold reasoning_text. by rewrite Er.
Qed.

(** The total size of messages *)
Definition total_size (ms : list Message) : Z := foldr (fun m n => getMessageSize m + n)%Z 0%Z ms.

(** The loop keeps the longest run of last messages within the limit, and at
    least one message. *)
Lemma trimLoop_spec rev_ms result :
  let r := trimLoop rev_ms (total_size result) result in
  ∃ pre, reverse rev_ms ++ result = pre ++ r
    ∧ (length r ≤ 1 ∨ (total_size r ≤ MAX_LOADED_MESSAGES_CHARS)%Z
       ∨ (1 < length result ∧ r = result))
    ∧ (rev_ms ++ result ≠ [] → r ≠ [])
    ∧ (∀ pre' m, pre = pre' ++ [m] → r ≠ [] ∧ (MAX_LOADED_MESSAGES_CHARS < getMessageSize m + total_size r)%Z).
Proof.
  revert result. induction rev_ms as [|m ms IH]; intros result; cbv zeta.
  - exists []. simpl. split_and!; [done| |done|by intros [|??] ?].
    destruct (decide (length result ≤ 1)); [by left|]. right. right. split; [lia|done].
  - cbn [trimLoop]. destruct (bool_decide (0 < length result)) eqn:E1; cbn [andb].
    + apply bool_decide_eq_true in E1.
      destruct (Z.ltb_spec MAX_LOADED_MESSAGES_CHARS (total_size result + getMessageSize m)) as [Hlt|Hge].
      * exists (reverse (m :: ms)). split_and!; [done| | |].
        -- destruct (decide (length result ≤ 1)); [by left|]. right. right. split; [lia|done].
        -- intros _ ->. simpl in E1. lia.
        -- intros pre' m' E. rewrite reverse_cons in E. apply app_inj_tail in E as [_ <-].
           split; [intros ->; simpl in E1; lia|lia].
      * replace (total_size result + getMessageSize m)%Z with (total_size (m :: result)) by (simpl; lia).
        destruct (IH (m :: result)) as (pre & E & Hb & Hne & Hmax). exists pre.
        rewrite reverse_cons, <- (assoc_L app). split_and!; [done| | |done].
        -- destruct Hb as [?|[?|[_ Hr]]]; [by left|by right; left|]. right. left. rewrite Hr. simpl. lia.
        -- intros _. apply Hne. by destruct ms.
    + apply bool_decide_eq_false in E1. assert (result = []) as -> by (destruct result; [done|simpl in E1; lia]).
      replace (total_size [] + getMessageSize m)%Z with (total_size [m]) by (simpl; lia).
      destruct (IH [m]) as (pre & E & Hb & Hne & Hmax). exists pre.
      rewrite reverse_cons, (right_id_L [] (++)). split_and!; [done| | |done].
      * destruct Hb as [?|[?|[Hl _]]]; [by left|by right; left|]. simpl in Hl. lia.
      * intros _. apply Hne. by destruct ms.
Qed.

Lemma trimBySize_spec ms :
  let r := trimMessagesByContentSize ms in
  ∃ pre, ms = pre ++ r
    ∧ (length r ≤ 1 ∨ (total_size r ≤ MAX_LOADED_MESSAGES_CHARS)%Z)
    ∧ (ms ≠ [] → r ≠ [])
    ∧ (∀ pre' m, pre = pre' ++ [m] → (MAX_LOADED_MESSAGES_CHARS < getMessageSize m + total_size r)%Z).
Proof.
  destruct (trimLoop_spec (reverse ms) []) as (pre & E & Hb & Hne & Hmax).
  rewrite reverse_involutive, (right_id_L [] (++)) in E. exists pre. split_and!; [done| | |].
  - destruct Hb as [?|[?|[Hl _]]]; [by left|by right|]. simpl in Hl. lia.
  - intros Hm. apply Hne. rewrite (right_id_L [] (++)). intros Hr. apply Hm.
    rewrite <- (reverse_involutive ms), Hr. done.
  - intros pre' m Hp. by apply (Hmax pre' m).
Qed.

Lemma trimMessages_suffix ms :
  ∃ pre, ms = pre ++ trimMessages ms ∧ length (trimMessages ms) = length ms `min` MAX_STORED_MESSAGES.
Proof.
  unfold trimMessages. case_bool_decide as H.
  - exists []. split; [done|]. lia.
  - exists (take (length ms - MAX_STORED_MESSAGES) ms). rewrite take_drop, length_drop. split; [done|]. lia.
Qed.

Section Load.
Context (decode : jsstr → option (list Message)).
Context (encode : list Message → option jsstr).
Context (t : jsstr → jsstr).

(** C13. Loading a stored conversation: a text over one mebibyte is removed and
    nothing is loaded; otherwise the loaded messages are the last ones of the
    stored conversation, at most a hundred, each with its texts cut to forty
    thousand units, together within the limit of a hundred and twenty thousand
    unless a single message is larger, and no further earlier message would have
    fitted; then a message found unfinished is settled.  The result is always
    written back, also when nothing changed. *)
Theorem load_messages_spec now saved :
  saved ≠ [] →
  let '(st', r) := loadMessages decode encode t now (Some saved) in
  ((MAX_STORED_MESSAGES_BYTES < len saved)%Z → st' = None ∧ r = None)
  ∧ ((len saved ≤ MAX_STORED_MESSAGES_BYTES)%Z → decode saved = None → st' = Some saved ∧ r = None)
  ∧ (∀ parsed, (len saved ≤ MAX_STORED_MESSAGES_BYTES)%Z → decode saved = Some parsed →
     ∃ lim pre,
       r = Some (sanitizeMessagesOnLoad t lim now)
       ∧ st' = saveMessages encode (sanitizeMessagesOnLoad t lim now) (Some saved)
       ∧ (fun m => normalizeStoredMessageForLoad m now) <$> parsed = pre ++ lim
       ∧ length lim ≤ MAX_STORED_MESSAGES
       ∧ Forall message_bounded lim
       ∧ (parsed ≠ [] → lim ≠ [])
       ∧ (length lim ≤ 1 ∨ (total_size lim ≤ MAX_LOADED_MESSAGES_CHARS)%Z)
       ∧ (∀ pre' m, pre = pre' ++ [m] →
            length lim = MAX_STORED_MESSAGES
            ∨ (MAX_LOADED_MESSAGES_CHARS < getMessageSize m + total_size lim)%Z)).
Proof.
  intros Hs. unfold loadMessages, readStoredMessagesValue.
  rewrite (proj2 (str_true_spec saved) Hs). cbn [negb].
  destruct (Z.ltb_spec MAX_STORED_MESSAGES_BYTES (len saved)) as [Hlt|Hge].
  { split_and!; [done|lia|intros ??; lia]. }
  destruct (decode saved) as [parsed|]; [|split_and!; [lia|done|done]].
  split_and!; [lia|done|]. intros ? _ [= <-]. unfold limitMessages.
  set (ns := (fun m => normalizeStoredMessageForLoad m now) <$> parsed).
  destruct (trimMessages_suffix ns) as (p1 & E1 & L1).
  destruct (trimBySize_spec (trimMessages ns)) as (p2 & E2 & Hb & Hne & Hmax).
  set (lim := trimMessagesByContentSize (trimMessages ns)) in *.
  assert (Forall message_bounded ns) as Hall
    by (apply Forall_fmap, Forall_true; intros m; apply normalize_bounded).
  assert (length (trimMessages ns) = length p2 + length lim) as L2 by (by rewrite E2 at 1; rewrite length_app).
  exists lim, (p1 ++ p2). split_and!; [done|done|by rewrite <- (assoc_L app), <- E2| | | |done|].
  - lia.
  - rewrite E1, E2 in Hall. apply Forall_app in Hall as [_ Hall]. by apply Forall_app in Hall as [_ ?].
  - intros Hp. apply Hne. intros Ht. rewrite Ht in L1. unfold ns in L1. rewrite length_fmap in L1.
    destruct parsed; [done|]. unfold MAX_STORED_MESSAGES in L1. simpl in L1. lia.
  - intros pre' m Hpre. destruct p2 as [|x p2 _] using rev_ind.
    + left. rewrite (right_id_L [] (++)) in Hpre. apply (f_equal length) in E1. subst p1.
      rewrite !length_app in E1. simpl in *. unfold MAX_STORED_MESSAGES in *. lia.
    + right. rewrite (assoc_L app) in Hpre. apply app_inj_tail in Hpre as [_ <-]. by apply (Hmax p2).
Qed.
End Load.

Lemma load_messages_spec_witness :
  let m := createLoadingAssistantMessage [1%N] [2%N] 3%Z in
  ∃ lim pre, [m] = pre ++ lim ∧ length lim ≤ MAX_STORED_MESSAGES ∧ lim ≠ []
    ∧ (loadMessages (fun _ => Some [m]) (fun _ => None) id 5%Z (Some (js "saved"))).2
      = Some (sanitizeMessagesOnLoad id lim 5%Z).
Proof.
  intros m.
  pose proof (load_messages_spec (fun _ => Some [m]) (fun _ => None) id 5%Z (js "saved")) as H.
  destruct (loadMessages (fun _ => Some [m]) (fun _ => None) id 5%Z (Some (js "saved"))) as [st r].
  destruct H as (_ & _ & H); [vm_compute; discriminate|].
  destruct (H [m]) as (lim & pre & -> & _ & E & Hl & _ & Hne & _); [vm_compute; discriminate|reflexivity|].
  exists lim, pre. split_and!; [exact E|exact Hl|apply Hne; discriminate|reflexivity].
Defined.

(** A reply with two numbered sections, each heading repeated three times *)
Definition repeated_sections : jsstr :=
  js "## 1. A
## 1. A
## 1. A
" ++ js "## 2. B
## 2. B
## 2. B
" ++ replicate 2000 (ch "x").

(** Collapsing repeated sections is not stable: a stored reply can lose one
    section at the first load and another at the next, so reloading the page
    twice shows less than reloading it once. *)
Theorem collapse_not_stable :
  let once := collapseRepeatedSectionSnapshots repeated_sections in
  includes (js "## 1. A") once = true
  ∧ includes (js "## 1. A") (collapseRepeatedSectionSnapshots once) = false.
Proof. vm_compute. split; reflexivity. Qed.

End ChatStorage.
