(* ===== verification/AdvancedCustom.v ===== *)
(** * Advanced custom channel routes
    (src/web/src/features/channels/lib/advanced-custom.ts)

    A channel of this kind lists routes: an incoming path, an upstream path, a
    converter, the client models it serves and how to authenticate.  The file
    holds the tables of paths, converters and templates, normalises and validates
    a configuration and computes defaults.

    A converter or authentication type is a string, since a configuration read
    from JSON may hold any; [parseURL] stands for the platform's [new URL],
    answering the protocol and host of a valid URL. *)

From S2P Require Import Prelude JsString.

Module AdvancedCustom.

Record AdvancedCustomRouteAuth := mkAuth {
  auth_type : option jsstr;
  auth_name : option jsstr;
  auth_value : option jsstr
}.

Record AdvancedCustomRoute := mkRoute {
  incoming_path : option jsstr;
  upstream_path : option jsstr;
  converter : option jsstr;
  models : option (list jsstr);
  auth : option AdvancedCustomRouteAuth
}.

Record AdvancedCustomConfig := mkConfig { advanced_routes : option (list AdvancedCustomRoute) }.

Definition ADVANCED_CUSTOM_MODEL_LIST_PATH : jsstr := js "/v1/models".
Definition ADVANCED_CUSTOM_MODEL_LIST_LABEL : jsstr := js "OpenAI Models".

Definition c_none : jsstr := js "none".
Definition c_anthropic_to_chat : jsstr := js "anthropic_messages_to_openai_chat_completions".
Definition c_chat_to_anthropic : jsstr := js "openai_chat_completions_to_anthropic_messages".
Definition c_chat_to_responses : jsstr := js "openai_chat_completions_to_openai_responses".
Definition c_responses_to_chat : jsstr := js "openai_responses_to_openai_chat_completions".
Definition c_responses_to_gemini : jsstr := js "openai_responses_to_gemini_generate_content".
Definition c_gemini_to_chat : jsstr := js "gemini_generate_content_to_openai_chat_completions".
Definition c_chat_to_gemini : jsstr := js "openai_chat_completions_to_gemini_generate_content".

(** value, label, label of the trigger *)
Record ConverterOption := mkConverterOption {
  co_value : jsstr; co_label : jsstr; co_triggerLabel : jsstr
}.

Definition ADVANCED_CUSTOM_CONVERTER_OPTIONS : list ConverterOption :=
  [ mkConverterOption c_none (js "Native forwarding") (js "Native forwarding");
    mkConverterOption c_anthropic_to_chat (js "Anthropic Messages to OpenAI Chat") (js "To OpenAI Chat");
    mkConverterOption c_chat_to_anthropic (js "OpenAI Chat to Anthropic Messages") (js "To Anthropic Messages");
    mkConverterOption c_chat_to_responses (js "OpenAI Chat to OpenAI Responses") (js "To OpenAI Responses");
    mkConverterOption c_responses_to_chat (js "OpenAI Responses to OpenAI Chat") (js "To OpenAI Chat");
    mkConverterOption c_responses_to_gemini (js "OpenAI Responses to Gemini Generate Content")
      (js "To Gemini Generate Content");
    mkConverterOption c_gemini_to_chat (js "Gemini Generate Content to OpenAI Chat") (js "To OpenAI Chat");
    mkConverterOption c_chat_to_gemini (js "OpenAI Chat to Gemini Generate Content")
      (js "To Gemini Generate Content") ].

Inductive AdvancedCustomAuthMode := MDefault | MNone | MHeader | MQuery | MOther (type : jsstr).

Record AdvancedCustomIncomingPathOption := mkPathOption { po_value : jsstr; po_label : jsstr }.

Definition ADVANCED_CUSTOM_INCOMING_PATH_OPTIONS : list AdvancedCustomIncomingPathOption :=
  [ mkPathOption (js "/v1/chat/completions") (js "OpenAI Chat");
    mkPathOption (js "/v1/responses") (js "OpenAI Responses");
    mkPathOption (js "/v1/responses/compact") (js "OpenAI Responses Compact");
    mkPathOption (js "/v1/alpha/search") (js "OpenAI Alpha Search");
    mkPathOption ADVANCED_CUSTOM_MODEL_LIST_PATH ADVANCED_CUSTOM_MODEL_LIST_LABEL;
    mkPathOption (js "/v1/embeddings") (js "OpenAI Embeddings");
    mkPathOption (js "/v1/images/generations") (js "OpenAI Image Generations");
    mkPathOption (js "/v1/images/edits") (js "OpenAI Image Edits");
    mkPathOption (js "/v1/completions") (js "OpenAI Completions");
    mkPathOption (js "/v1/audio/speech") (js "OpenAI Audio Speech");
    mkPathOption (js "/v1/audio/transcriptions") (js "OpenAI Audio Transcriptions");
    mkPathOption (js "/v1/audio/translations") (js "OpenAI Audio Translations");
    mkPathOption (js "/v1/rerank") (js "OpenAI Rerank");
    mkPathOption (js "/v1/realtime") (js "OpenAI Realtime");
    mkPathOption (js "/v1/messages") (js "Claude Messages");
    mkPathOption (js "/v1beta/models/{model}:generateContent") (js "Gemini Generate Content");
    mkPathOption (js "/v1beta/models/{model}:embedContent") (js "Gemini Embed Content");
    mkPathOption (js "/v1beta/models/{model}:batchEmbedContents") (js "Gemini Batch Embed Contents") ].

Definition ADVANCED_CUSTOM_ROUTE_SUMMARY_LABELS : list (jsstr * jsstr) :=
  [ (js "/v1/chat/completions", js "OpenAI Chat");
    (ADVANCED_CUSTOM_MODEL_LIST_PATH, ADVANCED_CUSTOM_MODEL_LIST_LABEL) ].

Record AdvancedCustomValidationError := mkError { message : jsstr; routeIndex : option nat }.

Record AdvancedCustomConverterDefaults := mkDefaults {
  d_upstream_path : jsstr; d_auth : option AdvancedCustomRouteAuth
}.

Definition ADVANCED_CUSTOM_MODEL_REGEX_PREFIX : jsstr := js "re:".

Inductive AdvancedCustomModelRuleKind := RuleExact | RuleRegex.

#[global] Instance RuleKind_eq_dec : EqDecision AdvancedCustomModelRuleKind.
Proof. solve_decision. Defined.

Definition openAIChatPath : jsstr := js "/v1/chat/completions".
Definition openAIResponsesPath : jsstr := js "/v1/responses".
Definition claudeMessagesPath : jsstr := js "/v1/messages".
Definition geminiGenerateContentPath : jsstr := js "/v1beta/models/{model}:generateContent".

Definition bearerHeaderAuth : AdvancedCustomRouteAuth :=
  mkAuth (Some (js "header")) (Some (js "Authorization")) (Some (js "Bearer {api_key}")).
Definition apiKeyHeaderAuth : AdvancedCustomRouteAuth :=
  mkAuth (Some (js "header")) (Some (js "x-api-key")) (Some (js "{api_key}")).
Definition geminiQueryAuth : AdvancedCustomRouteAuth :=
  mkAuth (Some (js "query")) (Some (js "key")) (Some (js "{api_key}")).

Record AdvancedCustomTemplateOption := mkTemplate {
  tpl_value : jsstr; tpl_label : jsstr; tpl_config : AdvancedCustomConfig
}.

(** A route of a template *)
Definition tpl_route (inc up conv : jsstr) (a : AdvancedCustomRouteAuth) : AdvancedCustomRoute :=
  mkRoute (Some inc) (Some up) (Some conv) None (Some a).

Definition ADVANCED_CUSTOM_TEMPLATE_OPTIONS : list AdvancedCustomTemplateOption :=
  [ mkTemplate (js "official_openai_chat") (js "Official OpenAI Chat")
      (mkConfig (Some [tpl_route (js "/v1/chat/completions") (js "/v1/chat/completions") c_none bearerHeaderAuth]));
    mkTemplate (js "official_openai_responses") (js "Official OpenAI Responses")
      (mkConfig (Some [tpl_route (js "/v1/responses") (js "/v1/responses") c_none bearerHeaderAuth]));
    mkTemplate (js "official_openai_embeddings") (js "Official OpenAI Embeddings")
      (mkConfig (Some [tpl_route (js "/v1/embeddings") (js "/v1/embeddings") c_none bearerHeaderAuth]));
    mkTemplate (js "official_openai_images") (js "Official OpenAI Images")
      (mkConfig (Some
         [tpl_route (js "/v1/images/generations") (js "/v1/images/generations") c_none bearerHeaderAuth;
          tpl_route (js "/v1/images/edits") (js "/v1/images/edits") c_none bearerHeaderAuth]));
    mkTemplate (js "official_claude_messages") (js "Official Claude Messages")
      (mkConfig (Some [tpl_route (js "/v1/messages") (js "/v1/messages") c_none apiKeyHeaderAuth]));
    mkTemplate (js "official_gemini_native") (js "Official Gemini Native")
      (mkConfig (Some
         [tpl_route (js "/v1beta/models/{model}:generateContent")
            (js "/v1beta/models/{model}:generateContent") c_none geminiQueryAuth;
          tpl_route (js "/v1beta/models/{model}:embedContent")
            (js "/v1beta/models/{model}:embedContent") c_none geminiQueryAuth;
          tpl_route (js "/v1beta/models/{model}:batchEmbedContents")
            (js "/v1beta/models/{model}:batchEmbedContents") c_none geminiQueryAuth]));
    mkTemplate (js "official_gemini_from_openai_chat") (js "Official Gemini from OpenAI Chat")
      (mkConfig (Some
         [tpl_route (js "/v1/chat/completions") (js "/v1beta/models/{model}:generateContent")
            c_chat_to_gemini geminiQueryAuth])) ].

(** [JSON.parse(JSON.stringify(config))]: an equal value that shares nothing. *)
Definition cloneAdvancedCustomConfig (config : AdvancedCustomConfig) : AdvancedCustomConfig := config.

Definition getAdvancedCustomTemplateConfig (templateKey : jsstr) : AdvancedCustomConfig :=
  match list_find (fun o => tpl_value o = templateKey) ADVANCED_CUSTOM_TEMPLATE_OPTIONS with
  | Some (_, o) => cloneAdvancedCustomConfig (tpl_config o)
  | None =>
      match ADVANCED_CUSTOM_TEMPLATE_OPTIONS with
      | o :: _ => cloneAdvancedCustomConfig (tpl_config o)
      | [] => mkConfig None
      end
  end.

Definition createAdvancedCustomRoute : AdvancedCustomRoute :=
  mkRoute (Some openAIChatPath) (Some openAIChatPath) (Some c_none) None None.

Definition createAdvancedCustomConfig : AdvancedCustomConfig :=
  mkConfig (Some [createAdvancedCustomRoute]).

Definition isConverterPathAllowed (incomingPath conv : jsstr) : bool :=
  if bool_decide (conv = c_none) then true
  else if bool_decide (incomingPath = js "/v1/alpha/search") then false
  else if bool_decide (conv = c_anthropic_to_chat) then bool_decide (incomingPath = js "/v1/messages")
  else if bool_decide (conv = c_chat_to_anthropic) || bool_decide (conv = c_chat_to_responses)
          || bool_decide (conv = c_chat_to_gemini)
  then bool_decide (incomingPath = js "/v1/chat/completions")
  else if bool_decide (conv = c_responses_to_chat) then bool_decide (incomingPath = js "/v1/responses")
  else if bool_decide (conv = c_responses_to_gemini) then bool_decide (incomingPath = js "/v1/responses")
  else includes (js ":generateContent") incomingPath
       || includes (js ":streamGenerateContent") incomingPath.

Definition getAdvancedCustomIncomingPathOptions (conv : jsstr) : list AdvancedCustomIncomingPathOption :=
  filter (fun o => isConverterPathAllowed (po_value o) conv = true) ADVANCED_CUSTOM_INCOMING_PATH_OPTIONS.

Definition getDefaultAdvancedCustomIncomingPath (conv : jsstr) : jsstr :=
  str_or (match getAdvancedCustomIncomingPathOptions conv with o :: _ => po_value o | [] => [] end)
    (js "/v1/chat/completions").

Definition isAdvancedCustomIncomingPathAllowed (incomingPath conv : jsstr) : bool :=
  isConverterPathAllowed incomingPath conv.

Definition getAdvancedCustomConverterOptions (incomingPath : jsstr) : list ConverterOption :=
  let normalizedIncomingPath := trim incomingPath in
  filter (fun o => co_value o = c_none ∨ isConverterPathAllowed normalizedIncomingPath (co_value o) = true)
    ADVANCED_CUSTOM_CONVERTER_OPTIONS.

Definition getAdvancedCustomIncomingPathLabel (value : jsstr) : jsstr :=
  str_or (match list_find (fun o => po_value o = value) ADVANCED_CUSTOM_INCOMING_PATH_OPTIONS with
          | Some (_, o) => po_label o
          | None => []
          end) value.

Definition getAdvancedCustomNativeAuth (incomingPath : jsstr) : AdvancedCustomRouteAuth :=
  if bool_decide (incomingPath = claudeMessagesPath) then apiKeyHeaderAuth
  else if includes (js ":generateContent") incomingPath
          || includes (js ":streamGenerateContent") incomingPath
          || includes (js ":embedContent") incomingPath
          || includes (js ":batchEmbedContents") incomingPath
  then geminiQueryAuth
  else bearerHeaderAuth.

Definition getAdvancedCustomConverterDefaults (conv incomingPath : jsstr) :
    AdvancedCustomConverterDefaults :=
  let normalizedIncomingPath := str_or (trim incomingPath) (getDefaultAdvancedCustomIncomingPath conv) in
  if bool_decide (conv = c_none) then
    mkDefaults normalizedIncomingPath (Some (getAdvancedCustomNativeAuth normalizedIncomingPath))
  else if bool_decide (conv = c_anthropic_to_chat) || bool_decide (conv = c_gemini_to_chat)
          || bool_decide (conv = c_responses_to_chat)
  then mkDefaults openAIChatPath (Some bearerHeaderAuth)
  else if bool_decide (conv = c_chat_to_responses)
  then mkDefaults openAIResponsesPath (Some bearerHeaderAuth)
  else if bool_decide (conv = c_chat_to_anthropic)
  then mkDefaults claudeMessagesPath (Some apiKeyHeaderAuth)
  else if bool_decide (conv = c_chat_to_gemini) || bool_decide (conv = c_responses_to_gemini)
  then mkDefaults geminiGenerateContentPath (Some geminiQueryAuth)
  else mkDefaults (str_or normalizedIncomingPath openAIChatPath)
         (Some (getAdvancedCustomNativeAuth normalizedIncomingPath)).

Definition getAdvancedCustomUpstreamPathPlaceholder (conv : jsstr) (incomingPath : option jsstr) : jsstr :=
  d_upstream_path (getAdvancedCustomConverterDefaults conv
    (default (getDefaultAdvancedCustomIncomingPath conv) incomingPath)).

(** ** Normalisation *)

Definition getAdvancedCustomRouteUpstreamPath (route : AdvancedCustomRoute) : jsstr :=
  trim (ostr (upstream_path route)).

Definition normalizeAdvancedCustomRouteModels (ms : option (list jsstr)) : list jsstr :=
  match ms with
  | None => []
  | Some l => filter (fun m => str_true m = true) (trim <$> l)
  end.

Definition normalizeAuth (a : AdvancedCustomRouteAuth) : AdvancedCustomRouteAuth :=
  mkAuth (auth_type a) (Some (ostr (auth_name a))) (Some (ostr (auth_value a))).

Definition normalizeAdvancedCustomRoute (route : AdvancedCustomRoute) : AdvancedCustomRoute :=
  let ms := normalizeAdvancedCustomRouteModels (models route) in
  mkRoute (Some (ostr (incoming_path route)))
    (Some (getAdvancedCustomRouteUpstreamPath route))
    (Some (str_or (ostr (converter route)) c_none))
    (match ms with [] => None | _ => Some ms end)
    (normalizeAuth <$> auth route).

Definition normalizeAdvancedCustomConfig (config : AdvancedCustomConfig) : AdvancedCustomConfig :=
  mkConfig (Some (normalizeAdvancedCustomRoute <$> default [] (advanced_routes config))).

Definition parseAdvancedCustomRouteModels (value : jsstr) : list jsstr :=
  uniq (filter (fun m => str_true m = true) (trim <$> split_on (ch ",") value)).

Definition getAdvancedCustomModelRuleKind (modelRule : jsstr) : AdvancedCustomModelRuleKind :=
  if starts_with ADVANCED_CUSTOM_MODEL_REGEX_PREFIX modelRule then RuleRegex else RuleExact.

Definition getAdvancedCustomRegexModelPattern (modelRule : jsstr) : jsstr :=
  drop (length ADVANCED_CUSTOM_MODEL_REGEX_PREFIX) modelRule.

(** ** Authentication *)

Definition getAdvancedCustomAuthMode (route : AdvancedCustomRoute) : AdvancedCustomAuthMode :=
  let ty := match auth route with Some a => ostr (auth_type a) | None => [] end in
  if negb (str_true ty) then MDefault
  else if bool_decide (ty = js "none") then MNone
  else if bool_decide (ty = js "header") then MHeader
  else if bool_decide (ty = js "query") then MQuery
  else if bool_decide (ty = js "default") then MDefault
  else MOther ty.

Definition buildAdvancedCustomAuth (mode : AdvancedCustomAuthMode)
    (previousAuth : option AdvancedCustomRouteAuth) : option AdvancedCustomRouteAuth :=
  let prev_name := match previousAuth with Some a => ostr (auth_name a) | None => [] end in
  let prev_value := match previousAuth with Some a => ostr (auth_value a) | None => [] end in
  match mode with
  | MDefault => None
  | MNone => Some (mkAuth (Some (js "none")) None None)
  | MHeader =>
      Some (mkAuth (Some (js "header")) (Some (str_or prev_name (js "Authorization")))
              (Some (str_or prev_value (js "Bearer {api_key}"))))
  | MQuery | MOther _ =>
      Some (mkAuth (Some (js "query")) (Some (str_or prev_name (js "api_key")))
              (Some (str_or prev_value (js "{api_key}"))))
  end.

Definition validateRouteAuth (a : option AdvancedCustomRouteAuth) : option jsstr :=
  match a with
  | None => None
  | Some a =>
      if bool_decide (auth_type a = Some (js "none")) then None
      else if negb (bool_decide (auth_type a = Some (js "header")))
              && negb (bool_decide (auth_type a = Some (js "query")))
      then Some (js "Auth type is invalid")
      else if negb (str_true (trim (ostr (auth_name a)))) then Some (js "Auth name is required")
      else if negb (str_true (trim (ostr (auth_value a)))) then Some (js "Auth value is required")
      else None
  end.

(** ** Validation *)

Record PathState := mkPathState { catchAllIndex : option nat; path_models : list (jsstr * nat) }.

Definition PathMap : Type := list (jsstr * PathState).

Fixpoint validateModels (index : nat) (ms : list jsstr) (seenInRoute : list jsstr)
    (known : list (jsstr * nat)) : AdvancedCustomValidationError + list (jsstr * nat) :=
  match ms with
  | [] => inr known
  | m :: ms' =>
      if bool_decide (getAdvancedCustomModelRuleKind m = RuleRegex)
         && bool_decide (getAdvancedCustomRegexModelPattern m = [])
      then inl (mkError (js "Model regex cannot be empty") (Some index))
      else if bool_decide (m ∈ seenInRoute)
      then inl (mkError (js "Duplicate model in route models") (Some index))
      else if bool_decide (m ∈ mkeys known)
      then inl (mkError (js "Route models must be unique for the same incoming path") (Some index))
      else validateModels index ms' (sadd m seenInRoute) (mset m index known)
  end.

(** The error, or the updated map *)
Definition validateAdvancedCustomRouteModels (index : nat) (incomingPath : jsstr) (ms : list jsstr)
    (byPath : PathMap) : AdvancedCustomValidationError + PathMap :=
  let state := default (mkPathState None []) (mget incomingPath byPath) in
  match ms with
  | [] =>
      match catchAllIndex state with
      | Some _ =>
          inl (mkError (js "Only one catch-all route is allowed for the same incoming path") (Some index))
      | None => inr (mset incomingPath (mkPathState (Some index) (path_models state)) byPath)
      end
  | _ =>
      match catchAllIndex state with
      | Some _ =>
          inl (mkError (js "Catch-all route must be last for the same incoming path") (Some index))
      | None =>
          match validateModels index ms [] (path_models state) with
          | inl e => inl e
          | inr known => inr (mset incomingPath (mkPathState None known) byPath)
          end
      end
  end.

Section Validate.
(** [new URL(value)]: protocol and host; [None] when it throws *)
Context (parseURL : jsstr → option (jsstr * jsstr)).

Definition isFullHttpURLOrAbsolutePath (value : jsstr) : bool :=
  if starts_with (js "/") value then negb (starts_with (js "//") value)
  else match parseURL value with
       | Some (protocol, host) =>
           str_true host && (bool_decide (protocol = js "http:") || bool_decide (protocol = js "https:"))
       | None => false
       end.

Definition isAdvancedCustomConverter (value : jsstr) : bool :=
  existsb (fun o => bool_decide (co_value o = value)) ADVANCED_CUSTOM_CONVERTER_OPTIONS.

Definition err (index : nat) (m : jsstr) : AdvancedCustomValidationError := mkError m (Some index).

(** The block for the model list route: the error, or the index remembered *)
Definition checkModelListRoute (index : nat) (incomingPath upstreamPath conv : jsstr) (ms : list jsstr)
    (modelListRouteIndex : option nat) : AdvancedCustomValidationError + option nat :=
  if bool_decide (incomingPath = ADVANCED_CUSTOM_MODEL_LIST_PATH) then
    match modelListRouteIndex with
    | Some _ => inl (err index (js "Only one OpenAI Models route is allowed"))
    | None =>
        if bool_decide (0 < length ms)
        then inl (err index (js "OpenAI Models route does not support client model rules"))
        else if negb (bool_decide (conv = c_none))
        then inl (err index (js "OpenAI Models route must use native forwarding"))
        else if includes (js "{model}") upstreamPath
        then inl (err index (js "OpenAI Models upstream path must not contain {model}"))
        else inr (Some index)
    end
  else inr modelListRouteIndex.

(** One turn of the loop *)
Definition validateRoute (index : nat) (route : AdvancedCustomRoute) (byPath : PathMap)
    (modelListRouteIndex : option nat) :
    AdvancedCustomValidationError + (PathMap * option nat) :=
  let incomingPath := trim (ostr (incoming_path route)) in
  let upstreamPath := getAdvancedCustomRouteUpstreamPath route in
  let conv := str_or (ostr (converter route)) c_none in
  let routeModels := normalizeAdvancedCustomRouteModels (models route) in
  if negb (str_true incomingPath) then inl (err index (js "Incoming path is required"))
  else if negb (starts_with (js "/") incomingPath)
  then inl (err index (js "Incoming path must start with /"))
  else if includes (js "?") incomingPath
  then inl (err index (js "Incoming path must not include query"))
  else match checkModelListRoute index incomingPath upstreamPath conv routeModels modelListRouteIndex with
  | inl e => inl e
  | inr listIndex =>
      match validateAdvancedCustomRouteModels index incomingPath routeModels byPath with
      | inl e => inl e
      | inr byPath' =>
          if negb (str_true upstreamPath) then inl (err index (js "Upstream path is required"))
          else if negb (isFullHttpURLOrAbsolutePath upstreamPath)
          then inl (err index (js "Upstream path must be a full URL or a path starting with /"))
          else if negb (isAdvancedCustomConverter conv)
          then inl (err index (js "Converter is not registered"))
          else if negb (isConverterPathAllowed incomingPath conv)
          then inl (err index (js "Converter does not match incoming path"))
          else match validateRouteAuth (auth route) with
               | Some e => inl (err index e)
               | None => inr (byPath', listIndex)
               end
      end
  end.

Fixpoint validateRoutes (index : nat) (routes : list AdvancedCustomRoute) (byPath : PathMap)
    (listIndex : option nat) : option AdvancedCustomValidationError :=
  match routes with
  | [] => None
  | route :: routes' =>
      match validateRoute index route byPath listIndex with
      | inl e => Some e
      | inr (byPath', listIndex') => validateRoutes (S index) routes' byPath' listIndex'
      end
  end.

Definition validateAdvancedCustomConfig (config : option AdvancedCustomConfig) :
    option AdvancedCustomValidationError :=
  match config with
  | None => Some (mkError (js "Advanced custom configuration is required") None)
  | Some config =>
      let routes := default [] (advanced_routes (normalizeAdvancedCustomConfig config)) in
      if bool_decide (length routes = 0)
      then Some (mkError (js "Advanced custom configuration requires at least one route") None)
      else validateRoutes 0 routes [] None
  end.

Definition hasValidAdvancedCustomModelListRoute (config : option AdvancedCustomConfig) : bool :=
  match config, validateAdvancedCustomConfig config with
  | Some c, None =>
      existsb (fun route => bool_decide (trim (ostr (incoming_path route)) = ADVANCED_CUSTOM_MODEL_LIST_PATH))
        (default [] (advanced_routes (normalizeAdvancedCustomConfig c)))
  | _, _ => false
  end.

Definition advancedCustomConfigUsesRelativeUpstreamPath (config : option AdvancedCustomConfig) : bool :=
  match config with
  | None => false
  | Some c =>
      existsb (fun route => starts_with (js "/") (getAdvancedCustomRouteUpstreamPath route))
        (default [] (advanced_routes (normalizeAdvancedCustomConfig c)))
  end.

Definition getAdvancedCustomRouteSummaryLabel (route : AdvancedCustomRoute) : option jsstr :=
  let incomingPath := trim (ostr (incoming_path route)) in
  if negb (str_true incomingPath) then None
  else Some (str_or (ostr (mget incomingPath ADVANCED_CUSTOM_ROUTE_SUMMARY_LABELS))
               (getAdvancedCustomIncomingPathLabel incomingPath)).

Record Stats := mkStats { routeCount : nat; valid : bool; routeTypeLabels : list jsstr }.

(** The statistics of a parsed configuration *)
Definition getAdvancedCustomStats (config : option AdvancedCustomConfig) : Stats :=
  match config with
  | None => mkStats 0 false []
  | Some c =>
      let normalized := normalizeAdvancedCustomConfig c in
      let routes := default [] (advanced_routes normalized) in
      let labels := foldl (fun acc route =>
        match getAdvancedCustomRouteSummaryLabel route with
        | Some l => if str_true l then sadd l acc else acc
        | None => acc
        end) [] routes in
      mkStats (length routes)
        (match validateAdvancedCustomConfig (Some normalized) with None => true | Some _ => false end)
        labels
  end.
End Validate.


(** ** Normalisation is idempotent *)

Lemma ostr_Some s : ostr (Some s) = s.
Proof. done. Qed.

Lemma normalize_models_idemp ms :
  normalizeAdvancedCustomRouteModels (Some (normalizeAdvancedCustomRouteModels ms))
  = normalizeAdvancedCustomRouteModels ms.
Proof.
  destruct ms as [ms|]; [|done]. simpl. induction ms as [|m ms IH]; [done|].
  rewrite fmap_cons, filter_cons. case_decide as Hm; [|done].
  rewrite fmap_cons, trim_idemp, filter_cons, decide_True by done. by rewrite IH.
Qed.

Lemma normalize_route_idemp r :
  normalizeAdvancedCustomRoute (normalizeAdvancedCustomRoute r) = normalizeAdvancedCustomRoute r.
Proof.
  unfold normalizeAdvancedCustomRoute, getAdvancedCustomRouteUpstreamPath.
  cbn [incoming_path upstream_path converter models auth]. rewrite !ostr_Some, trim_idemp.
  rewrite (str_or_id (str_or _ _)) by (apply str_or_nonempty; by vm_compute).
  destruct (normalizeAdvancedCustomRouteModels (models r)) as [|m ms] eqn:Em.
  - simpl. f_equal. destruct (auth r); simpl; done.
  - rewrite <- Em, normalize_models_idemp, Em. f_equal. destruct (auth r); simpl; done.
Qed.

(** ** What validation means *)

Section Meaning.
Context (parseURL : jsstr → option (jsstr * jsstr)).

Definition inc (r : AdvancedCustomRoute) : jsstr := trim (ostr (incoming_path r)).
Definition ups (r : AdvancedCustomRoute) : jsstr := getAdvancedCustomRouteUpstreamPath r.
Definition conv (r : AdvancedCustomRoute) : jsstr := str_or (ostr (converter r)) c_none.
Definition mods (r : AdvancedCustomRoute) : list jsstr := normalizeAdvancedCustomRouteModels (models r).

(** A route that is acceptable on its own *)
Record route_ok (r : AdvancedCustomRoute) : Prop := {
  ro_path : inc r ≠ [] ∧ starts_with (js "/") (inc r) = true ∧ includes (js "?") (inc r) = false;
  ro_upstream : ups r ≠ [] ∧ isFullHttpURLOrAbsolutePath parseURL (ups r) = true;
  ro_converter : isAdvancedCustomConverter (conv r) = true
                 ∧ isConverterPathAllowed (inc r) (conv r) = true;
  ro_auth : validateRouteAuth (auth r) = None;
  ro_list : inc r = ADVANCED_CUSTOM_MODEL_LIST_PATH →
            mods r = [] ∧ conv r = c_none ∧ includes (js "{model}") (ups r) = false;
  ro_models : NoDup (mods r) ∧ ADVANCED_CUSTOM_MODEL_REGEX_PREFIX ∉ mods r
}.

(** [r] may stand before [r']: on the same path it is no catch-all and shares no
    model rule. *)
Definition pair_ok (r r' : AdvancedCustomRoute) : Prop :=
  inc r = inc r' → mods r ≠ [] ∧ ∀ m, m ∈ mods r → m ∉ mods r'.

Definition next_ok (pre : list AdvancedCustomRoute) (r : AdvancedCustomRoute) : Prop :=
  route_ok r ∧ ∀ r', r' ∈ pre → pair_ok r' r.

Inductive routes_ok : list AdvancedCustomRoute → Prop :=
| routes_nil : routes_ok []
| routes_snoc pre r : routes_ok pre → next_ok pre r → routes_ok (pre ++ [r]).

Lemma empty_regex_spec m :
  bool_decide (getAdvancedCustomModelRuleKind m = RuleRegex)
  && bool_decide (getAdvancedCustomRegexModelPattern m = []) = true
  ↔ m = ADVANCED_CUSTOM_MODEL_REGEX_PREFIX.
Proof.
  unfold getAdvancedCustomModelRuleKind, getAdvancedCustomRegexModelPattern.
  rewrite andb_true_iff, !bool_decide_eq_true. split.
  - intros [H1 H2]. destruct (starts_with _ m) eqn:E; [|done].
    apply starts_with_spec in E as [k ->]. rewrite drop_app_length in H2. subst k.
    by rewrite (right_id_L [] (++)).
  - intros ->. rewrite (proj2 (starts_with_spec _ _)); [|exists []; by rewrite (right_id_L [] (++))].
    split; [done|]. apply drop_ge. lia.
Qed.

Definition models_ok (ms seen : list jsstr) (known : list (jsstr * nat)) : Prop :=
  NoDup ms ∧ ∀ m, m ∈ ms → m ∉ seen ∧ m ∉ mkeys known ∧ m ≠ ADVANCED_CUSTOM_MODEL_REGEX_PREFIX.

Lemma models_ok_cons m ms seen known :
  models_ok (m :: ms) seen known ↔
  (m ∉ seen ∧ m ∉ mkeys known ∧ m ≠ ADVANCED_CUSTOM_MODEL_REGEX_PREFIX)
  ∧ ∀ i, models_ok ms (sadd m seen) (mset m i known).
Proof.
  unfold models_ok. rewrite NoDup_cons. split.
  - intros [[Hm Hd] Ha]. split; [apply Ha; by constructor|]. intros i. split; [done|].
    intros x Hx. destruct (Ha x) as (? & ? & ?); [by constructor|].
    rewrite elem_of_sadd, elem_of_mkeys_mset. split_and!; [|naive_solver|done].
    intros [->|]; done.
  - intros [Hm Ha]. destruct (Ha 0) as [Hd Hx]. split_and!; [|done|].
    + intros Hin. destruct (Hx m Hin) as (Hs & _). apply Hs. apply elem_of_sadd. by left.
    + intros x [->|Hin]%elem_of_cons; [done|]. destruct (Hx x Hin) as (Hs & Hk & ?).
      rewrite elem_of_sadd in Hs. rewrite elem_of_mkeys_mset in Hk. naive_solver.
Qed.

Lemma validateModels_spec index ms seen known :
  match validateModels index ms seen known with
  | inl e => routeIndex e = Some index ∧ ¬ models_ok ms seen known
  | inr k => models_ok ms seen known ∧ ∀ m, m ∈ mkeys k ↔ m ∈ mkeys known ∨ m ∈ ms
  end.
Proof.
  revert seen known. induction ms as [|m ms IH]; intros seen known.
  - simpl. split; [split; [constructor|]|]; intros ?; rewrite ?elem_of_nil; naive_solver.
  - cbn [validateModels]. pose proof (proj1 (models_ok_cons m ms seen known)) as Hc.
    destruct (_ && _) eqn:E1.
    { apply empty_regex_spec in E1. split; [done|]. intros [(_ & _ & ?) _]%Hc. done. }
    assert (m ≠ ADVANCED_CUSTOM_MODEL_REGEX_PREFIX) as Hre by (intros ?%empty_regex_spec; congruence).
    destruct (bool_decide (m ∈ seen)) eqn:E2.
    { apply bool_decide_eq_true in E2. split; [done|]. intros [(? & _) _]%Hc. done. }
    destruct (bool_decide (m ∈ mkeys known)) eqn:E3.
    { apply bool_decide_eq_true in E3. split; [done|]. intros [(_ & ? & _) _]%Hc. done. }
    apply bool_decide_eq_false in E2, E3.
    specialize (IH (sadd m seen) (mset m index known)).
    destruct (validateModels index ms _ _) as [e|k].
    + destruct IH as [? Hn]. split; [done|]. intros [_ Ha]%Hc. by apply Hn.
    + destruct IH as [Ha Hk]. split.
      * apply models_ok_cons. split; [done|]. intros i. destruct Ha as [Hd Ha]. split; [done|].
        intros x Hx. specialize (Ha x Hx). rewrite elem_of_mkeys_mset in *. done.
      * intros x. rewrite Hk, elem_of_mkeys_mset, elem_of_cons. tauto.
Qed.

(** What the two variables of the loop remember of the routes before. *)
Definition state_of (byPath : PathMap) (p : jsstr) : PathState :=
  default (mkPathState None []) (mget p byPath).

Record tracks (pre : list AdvancedCustomRoute) (byPath : PathMap) (li : option nat) : Prop := {
  tr_list : is_Some li ↔ ∃ r, r ∈ pre ∧ inc r = ADVANCED_CUSTOM_MODEL_LIST_PATH;
  tr_catch : ∀ p, is_Some (catchAllIndex (state_of byPath p)) ↔ ∃ r, r ∈ pre ∧ inc r = p ∧ mods r = [];
  tr_models : ∀ p m, m ∈ mkeys (path_models (state_of byPath p)) ↔ ∃ r, r ∈ pre ∧ inc r = p ∧ m ∈ mods r
}.

Lemma state_of_mset p p' st byPath :
  state_of (mset p st byPath) p' = if decide (p = p') then st else state_of byPath p'.
Proof. unfold state_of. rewrite mget_mset. by case_decide. Qed.

Lemma exists_snoc (P : AdvancedCustomRoute → Prop) pre r :
  (∃ x, x ∈ pre ++ [r] ∧ P x) ↔ (∃ x, x ∈ pre ∧ P x) ∨ P r.
Proof.
  split.
  - intros (x & [Hx|Hx]%elem_of_app & Hp); [left; eauto|].
    apply list_elem_of_singleton in Hx. subst x. by right.
  - intros [(x & Hx & Hp)|Hp]; [exists x|exists r]; (split; [|done]); set_solver.
Qed.

Lemma tracks_snoc pre byPath li r st' li' :
  tracks pre byPath li →
  (is_Some li' ↔ is_Some li ∨ inc r = ADVANCED_CUSTOM_MODEL_LIST_PATH) →
  (is_Some (catchAllIndex st') ↔ is_Some (catchAllIndex (state_of byPath (inc r))) ∨ mods r = []) →
  (∀ m, m ∈ mkeys (path_models st') ↔ m ∈ mkeys (path_models (state_of byPath (inc r))) ∨ m ∈ mods r) →
  tracks (pre ++ [r]) (mset (inc r) st' byPath) li'.
Proof.
  intros [Tl Tc Tm] Hl Hc Hm. split.
  - by rewrite Hl, exists_snoc, Tl.
  - intros p. rewrite exists_snoc, state_of_mset. case_decide as Hp.
    + subst p. rewrite Hc, Tc. naive_solver.
    + rewrite Tc. naive_solver.
  - intros p m. rewrite exists_snoc, state_of_mset. case_decide as Hp.
    + subst p. rewrite Hm, Tm. naive_solver.
    + rewrite Tm. naive_solver.
Qed.

(** The part of [next_ok] the model table decides. *)
Definition table_ok (pre : list AdvancedCustomRoute) (r : AdvancedCustomRoute) : Prop :=
  NoDup (mods r) ∧ ADVANCED_CUSTOM_MODEL_REGEX_PREFIX ∉ mods r ∧ ∀ r', r' ∈ pre → pair_ok r' r.

Lemma table_ok_models pre byPath li r :
  tracks pre byPath li → catchAllIndex (state_of byPath (inc r)) = None →
  table_ok pre r ↔ models_ok (mods r) [] (path_models (state_of byPath (inc r))).
Proof.
  intros [Tl Tc Tm] Hn. unfold table_ok, models_ok, pair_ok. split.
  - intros (Hd & Hre & Hall). split; [done|]. intros m Hm. split_and!; [set_solver| |set_solver].
    rewrite Tm. intros (r' & Hin & Hp & Hm'). by apply (proj2 (Hall r' Hin Hp) m).
  - intros [Hd Hall]. split_and!; [done|intros Hin; by apply Hall in Hin as (_ & _ & ?)|].
    intros r' Hin Hp. split.
    + intros Hm. assert (is_Some (catchAllIndex (state_of byPath (inc r)))) as [? ?]; [|congruence].
      apply Tc. eauto.
    + intros m Hm Hm'. destruct (Hall m Hm') as (_ & Hk & _). apply Hk, Tm. eauto.
Qed.

Lemma table_spec pre byPath li index r :
  tracks pre byPath li →
  match validateAdvancedCustomRouteModels index (inc r) (mods r) byPath with
  | inl e => routeIndex e = Some index ∧ ¬ table_ok pre r
  | inr byPath' => table_ok pre r ∧
      ∀ li', (is_Some li' ↔ is_Some li ∨ inc r = ADVANCED_CUSTOM_MODEL_LIST_PATH) →
        tracks (pre ++ [r]) byPath' li'
  end.
Proof.
  intros T. unfold validateAdvancedCustomRouteModels. fold (state_of byPath (inc r)).
  destruct (catchAllIndex (state_of byPath (inc r))) as [k|] eqn:Ek.
  - assert (¬ table_ok pre r) as Hn.
    { intros (_ & _ & Hall). destruct (proj1 (tr_catch _ _ _ T (inc r))) as (r' & Hin & Hp & Hm); [eauto|].
      by destruct (Hall r' Hin Hp) as [? _]. }
    destruct (mods r); done.
  - pose proof (table_ok_models pre byPath li r T Ek) as Ht.
    destruct (mods r) as [|m ms] eqn:Em.
    + split; [apply Ht; split; [constructor|set_solver]|].
      intros li' Hli. apply (tracks_snoc _ _ li); [done..| |]; simpl; rewrite Em; [naive_solver|].
      intros x. set_solver.
    + rewrite <- Em in *. pose proof (validateModels_spec index (mods r) [] (path_models (state_of byPath (inc r)))) as Hv.
      destruct (validateModels index (mods r) [] _) as [e|k].
      * destruct Hv as [? Hv]. split; [done|]. by rewrite Ht.
      * destruct Hv as [Hok Hk]. split; [by apply Ht|].
        intros li' Hli. apply (tracks_snoc _ _ li); [done..| |done].
        simpl. rewrite Ek, Em. split; [by intros [? ?]|intros [[? ?]|?]; done].
Qed.

Lemma list_spec pre byPath li index r :
  tracks pre byPath li → (∀ r', r' ∈ pre → route_ok r') →
  match checkModelListRoute index (inc r) (ups r) (conv r) (mods r) li with
  | inl e => routeIndex e = Some index ∧ ¬ next_ok pre r
  | inr li' =>
      (inc r = ADVANCED_CUSTOM_MODEL_LIST_PATH →
         mods r = [] ∧ conv r = c_none ∧ includes (js "{model}") (ups r) = false)
      ∧ (is_Some li' ↔ is_Some li ∨ inc r = ADVANCED_CUSTOM_MODEL_LIST_PATH)
  end.
Proof.
  intros T Hpre. unfold checkModelListRoute. case_bool_decide as Hp; [|naive_solver].
  destruct li as [k|].
  { split; [done|]. intros [Hr Hall].
    destruct (proj1 (tr_list _ _ _ T)) as (r' & Hin & Hp'); [eauto|].
    destruct (Hall r' Hin) as [Hm _]; [congruence|]. by destruct (ro_list _ (Hpre r' Hin) Hp'). }
  case_bool_decide as Hm.
  { split; [done|]. intros [Hr _]. destruct (ro_list _ Hr Hp) as [E _]. rewrite E in Hm. simpl in Hm. lia. }
  assert (mods r = []) as Em by (destruct (mods r); simpl in *; [done|lia]).
  destruct (bool_decide (conv r = c_none)) eqn:Ec; simpl.
  2:{ apply bool_decide_eq_false in Ec. split; [done|]. intros [Hr _]. by destruct (ro_list _ Hr Hp) as (_ & ? & _). }
  apply bool_decide_eq_true in Ec.
  destruct (includes _ (ups r)) eqn:Ei.
  { split; [done|]. intros [Hr _]. destruct (ro_list _ Hr Hp) as (_ & _ & ?). congruence. }
  split; [done|]. naive_solver.
Qed.

Lemma validateRoute_spec pre byPath li index r :
  tracks pre byPath li → (∀ r', r' ∈ pre → route_ok r') →
  match validateRoute parseURL index r byPath li with
  | inl e => routeIndex e = Some index ∧ ¬ next_ok pre r
  | inr (byPath', li') => next_ok pre r ∧ tracks (pre ++ [r]) byPath' li'
  end.
Proof.
  intros T Hpre. unfold validateRoute.
  fold (inc r). fold (ups r). fold (conv r). fold (mods r). cbv zeta.
  destruct (str_true (inc r)) eqn:E1; simpl; [|split; [done|]; apply str_true_false in E1; by intros [[(? & _) _ _ _ _ _] _]].
  destruct (starts_with _ (inc r)) eqn:E2; simpl; [|split; [done|]; intros [[(_ & ? & _) _ _ _ _ _] _]; congruence].
  destruct (includes _ (inc r)) eqn:E3; [split; [done|]; intros [[(_ & _ & ?) _ _ _ _ _] _]; congruence|].
  pose proof (list_spec pre byPath li index r T Hpre) as Hl.
  destruct (checkModelListRoute _ _ _ _ _ _) as [e|li']; [done|]. destruct Hl as [Hl Hli].
  pose proof (table_spec pre byPath li index r T) as Ht.
  destruct (validateAdvancedCustomRouteModels _ _ _ _) as [e|byPath'].
  { destruct Ht as [? Ht]. split; [done|]. intros [[_ _ _ _ _ [? ?]] ?]. apply Ht. done. }
  destruct Ht as [(Hd & Hre & Hall) Htr].
  destruct (str_true (ups r)) eqn:E4; simpl; [|split; [done|]; apply str_true_false in E4; by intros [[_ [? _] _ _ _ _] _]].
  destruct (isFullHttpURLOrAbsolutePath _ (ups r)) eqn:E5; simpl; [|split; [done|]; intros [[_ [_ ?] _ _ _ _] _]; congruence].
  destruct (isAdvancedCustomConverter (conv r)) eqn:E6; simpl; [|split; [done|]; intros [[_ _ [? _] _ _ _] _]; congruence].
  destruct (isConverterPathAllowed (inc r) (conv r)) eqn:E7; simpl; [|split; [done|]; intros [[_ _ [_ ?] _ _ _] _]; congruence].
  destruct (validateRouteAuth (auth r)) eqn:E8; [split; [done|]; intros [[_ _ _ ? _ _] _]; congruence|].
  apply str_true_spec in E1, E4. split; [|by apply Htr]. split; [|done]. by split.
Qed.

Lemma routes_ok_all pre : routes_ok pre → ∀ r, r ∈ pre → route_ok r.
Proof.
  induction 1 as [|pre r _ IH [Hr _]]; [intros ? []%elem_of_nil|].
  intros x [Hx|Hx]%elem_of_app; [by apply IH|]. apply list_elem_of_singleton in Hx. by subst.
Qed.

Lemma routes_ok_prefix pre post : routes_ok (pre ++ post) → routes_ok pre.
Proof.
  induction post as [|x post IH] using rev_ind; [by rewrite (right_id_L [] (++))|].
  rewrite (assoc_L app). intros H. apply IH. inversion H as [E|pre' r Hp _ E].
  - by destruct (pre ++ post).
  - by apply app_inj_tail in E as [<- _].
Qed.

Lemma routes_ok_snoc pre r : routes_ok (pre ++ [r]) ↔ routes_ok pre ∧ next_ok pre r.
Proof.
  split; [|intros []; by constructor]. intros H. inversion H as [E|pre' r' Hp Hn E].
  - by destruct pre.
  - by apply app_inj_tail in E as [-> ->].
Qed.

Lemma validateRoutes_spec routes pre byPath li :
  tracks pre byPath li → routes_ok pre →
  match validateRoutes parseURL (length pre) routes byPath li with
  | None => routes_ok (pre ++ routes)
  | Some e => ∃ i r, routeIndex e = Some (length pre + i) ∧ routes !! i = Some r
                     ∧ routes_ok (pre ++ take i routes) ∧ ¬ next_ok (pre ++ take i routes) r
  end.
Proof.
  revert pre byPath li. induction routes as [|r routes IH]; intros pre byPath li T Hok; simpl.
  - by rewrite (right_id_L [] (++)).
  - pose proof (validateRoute_spec pre byPath li (length pre) r T (routes_ok_all pre Hok)) as Hr.
    destruct (validateRoute _ _ _ _ _) as [e|[byPath' li']].
    + destruct Hr as [Hi Hn]. exists 0, r. simpl.
      rewrite Nat.add_0_r, (right_id_L [] (++)). done.
    + destruct Hr as [Hn Htr]. specialize (IH (pre ++ [r]) byPath' li' Htr).
      rewrite length_app, Nat.add_1_r in IH.
      rewrite (cons_middle r pre routes), (assoc_L app).
      destruct (validateRoutes _ _ _ _ _) as [e|]; [|apply IH; by constructor].
      destruct IH as (i & r' & Hi & Hl & Ho & Hn'); [by constructor|].
      exists (S i), r'. rewrite <- (assoc_L app) in Ho, Hn'. simpl in *.
      split_and!; [rewrite Hi; f_equal; lia|done..].
Qed.

Lemma tracks_nil : tracks [] [] None.
Proof.
  split.
  - split; [by intros [? ?]|]. intros (r & Hr & _). by apply not_elem_of_nil in Hr.
  - intros p. split; [by intros [? ?]|]. intros (r & Hr & _). by apply not_elem_of_nil in Hr.
  - intros p m. split; [by intros ?%not_elem_of_nil|]. intros (r & Hr & _). by apply not_elem_of_nil in Hr.
Qed.

(** The routes that are validated *)
Definition config_routes (c : AdvancedCustomConfig) : list AdvancedCustomRoute :=
  default [] (advanced_routes (normalizeAdvancedCustomConfig c)).

(** C12. Validation is exact: a configuration passes exactly when it has a route
    and its routes are in order (each well formed; on one path a catch-all comes
    last and no model rule is served twice; the model list route has no rules,
    native forwarding and no model placeholder), and an error names the first
    route that breaks this. *)
Theorem validate_config_spec c :
  match validateAdvancedCustomConfig parseURL (Some c) with
  | None => config_routes c ≠ [] ∧ routes_ok (config_routes c)
  | Some e =>
      match routeIndex e with
      | None => config_routes c = []
      | Some i => ∃ r, config_routes c !! i = Some r
                       ∧ routes_ok (take i (config_routes c))
                       ∧ ¬ next_ok (take i (config_routes c)) r
                       ∧ ¬ routes_ok (config_routes c)
      end
  end.
Proof.
  unfold validateAdvancedCustomConfig. fold (config_routes c).
  case_bool_decide as Hl; [by apply nil_length_inv|].
  pose proof (validateRoutes_spec (config_routes c) [] [] None tracks_nil routes_nil) as H.
  simpl in H. destruct (validateRoutes _ _ _ _ _) as [e|].
  - destruct H as (i & r & -> & Hr & Ho & Hn). exists r. split_and!; [done..|].
    intros Hok. rewrite <- (take_drop_middle _ _ _ Hr), (cons_middle r), (assoc_L app) in Hok.
    apply routes_ok_prefix, routes_ok_snoc in Hok as [_ ?]. done.
  - split; [by intros E; rewrite E in Hl|done].
Qed.

(** Saved and shown configurations agree: normalising twice is normalising
    once, so a normalised configuration validates as the original did. *)
Theorem normalize_config_idemp c :
  normalizeAdvancedCustomConfig (normalizeAdvancedCustomConfig c) = normalizeAdvancedCustomConfig c
  ∧ validateAdvancedCustomConfig parseURL (Some (normalizeAdvancedCustomConfig c))
    = validateAdvancedCustomConfig parseURL (Some c).
Proof.
  assert (normalizeAdvancedCustomConfig (normalizeAdvancedCustomConfig c)
          = normalizeAdvancedCustomConfig c) as E.
  { unfold normalizeAdvancedCustomConfig. simpl. do 2 f_equal. rewrite <- list_fmap_compose.
    apply list_fmap_ext. intros i r _. simpl. apply normalize_route_idemp. }
  split; [done|]. unfold validateAdvancedCustomConfig. by rewrite E.
Qed.

(** The converters of the table *)
Definition all_converters : list jsstr := co_value <$> ADVANCED_CUSTOM_CONVERTER_OPTIONS.

Definition is_valid (c : AdvancedCustomConfig) : bool :=
  match validateAdvancedCustomConfig parseURL (Some c) with None => true | Some _ => false end.

(** The route the editor fills in for a converter and an incoming path *)
Definition default_config (cv path : jsstr) : AdvancedCustomConfig :=
  let d := getAdvancedCustomConverterDefaults cv path in
  mkConfig (Some [mkRoute (Some path) (Some (d_upstream_path d)) (Some cv) None (d_auth d)]).

(** Everything the editor offers is valid, whatever the platform says of
    URLs: every template, the blank configuration, and for every converter its
    default incoming path is allowed and each path offered for it validates with
    the default upstream path and authentication. *)
Theorem offered_configs_valid :
  Forall (fun o => is_valid (tpl_config o) = true) ADVANCED_CUSTOM_TEMPLATE_OPTIONS
  ∧ is_valid createAdvancedCustomConfig = true
  ∧ Forall (fun cv =>
      isConverterPathAllowed (getDefaultAdvancedCustomIncomingPath cv) cv = true
      ∧ Forall (fun o => is_valid (default_config cv (po_value o)) = true)
          (getAdvancedCustomIncomingPathOptions cv)) all_converters.
Proof.
  split_and!.
  - apply forallb_Forall_true. vm_compute. reflexivity.
  - vm_compute. reflexivity.
  - assert (forallb (fun cv =>
      isConverterPathAllowed (getDefaultAdvancedCustomIncomingPath cv) cv
      && forallb (fun o => is_valid (default_config cv (po_value o)))
           (getAdvancedCustomIncomingPathOptions cv)) all_converters = true) as H
      by (vm_compute; reflexivity).
    apply forallb_Forall_true in H. eapply Forall_impl; [exact H|]. simpl. intros cv Hc.
    apply andb_true_iff in Hc as [? ?]. split; [done|]. by apply forallb_Forall_true.
Qed.

(** The converters offered for a path are exactly the registered ones that
    accept it, in table order, native forwarding always among them; the paths
    offered for a converter are exactly the listed ones it accepts. *)
Theorem offered_options_spec path cv :
  (∀ o, o ∈ getAdvancedCustomConverterOptions path ↔
        o ∈ ADVANCED_CUSTOM_CONVERTER_OPTIONS ∧ isConverterPathAllowed (trim path) (co_value o) = true)
  ∧ (∀ o, o ∈ getAdvancedCustomIncomingPathOptions cv ↔
        o ∈ ADVANCED_CUSTOM_INCOMING_PATH_OPTIONS
        ∧ isAdvancedCustomIncomingPathAllowed (po_value o) cv = true)
  ∧ getAdvancedCustomConverterOptions path `sublist_of` ADVANCED_CUSTOM_CONVERTER_OPTIONS
  ∧ isConverterPathAllowed (js "/v1/alpha/search") cv = bool_decide (cv = c_none).
Proof.
  split_and!.
  - intros o. unfold getAdvancedCustomConverterOptions. rewrite list_elem_of_filter.
    split; [|naive_solver]. intros [[Hn|?] ?]; [|done]. split; [done|].
    unfold isConverterPathAllowed. by rewrite bool_decide_eq_true_2.
  - intros o. unfold getAdvancedCustomIncomingPathOptions, isAdvancedCustomIncomingPathAllowed.
    rewrite list_elem_of_filter. naive_solver.
  - apply sublist_filter.
  - unfold isConverterPathAllowed. case_bool_decide; [done|]. by rewrite bool_decide_eq_true_2.
Qed.
End Meaning.

(** The client model field: the rules read from it are trimmed, not blank
    and distinct, and a list of such rules without commas, joined by commas, reads
    back as itself. *)
Theorem route_models_roundtrip :
  (∀ value, NoDup (parseAdvancedCustomRouteModels value)
            ∧ Forall (fun m => m ≠ [] ∧ trim m = m ∧ ch "," ∉ m) (parseAdvancedCustomRouteModels value))
  ∧ (∀ ms, NoDup ms → Forall (fun m => m ≠ [] ∧ trim m = m ∧ ch "," ∉ m) ms →
       parseAdvancedCustomRouteModels (str_join [ch ","] ms) = ms).
Proof.
  split.
  - intros value. unfold parseAdvancedCustomRouteModels. split; [apply uniq_NoDup|].
    apply Forall_forall. intros m. rewrite elem_of_uniq, list_elem_of_filter, list_elem_of_fmap, str_true_spec.
    intros (Hm & w & -> & Hw). split_and!; [done|apply trim_idemp|].
    intros Hin%trim_elem. by apply split_on_no_sep in Hw.
  - intros ms Hd Hall. unfold parseAdvancedCustomRouteModels.
    assert (trim <$> ms = ms ∧ filter (fun m => str_true m = true) ms = ms) as [Ht Hf].
    { clear Hd. induction Hall as [|m ms (Hm & Hmt & _) _ [IH1 IH2]]; [done|].
      rewrite fmap_cons, filter_cons, decide_True by (by apply str_true_spec). by rewrite Hmt, IH1, IH2. }
    destruct ms as [|m ms]; [by vm_compute|].
    rewrite split_on_join; [by rewrite Ht, Hf, uniq_id|done|].
    eapply Forall_impl; [exact Hall|]. simpl. tauto.
Qed.

(** Switching the authentication mode: the mode shown afterwards is the one
    chosen, and the settings built pass validation when the name and value kept
    from before are not just spaces. *)
Theorem auth_mode_spec mode prev inc up cv ms :
  mode ≠ MDefault → (∀ ty, mode ≠ MOther ty) →
  let a := buildAdvancedCustomAuth mode prev in
  getAdvancedCustomAuthMode (mkRoute inc up cv ms a) = mode
  ∧ ((∀ p, prev = Some p → (trim (ostr (auth_name p)) = [] → ostr (auth_name p) = [])
                          ∧ (trim (ostr (auth_value p)) = [] → ostr (auth_value p) = [])) →
     validateRouteAuth a = None).
Proof.
  intros Hd Ho a.
  assert (∀ s d, (trim s = [] → s = []) → trim d ≠ [] → str_true (trim (str_or s d)) = true) as Hst.
  { intros s d Hs Hd'. apply str_true_spec. destruct s; simpl; [done|]. intros E. by apply Hs in E. }
  destruct mode as [| | | |ty]; [done| | | |by destruct (Ho ty)]; unfold a; clear a.
  - split; [|intros _]; vm_compute; reflexivity.
  - split; [vm_compute; reflexivity|]. intros Hp. unfold buildAdvancedCustomAuth, validateRouteAuth.
    cbn [auth_type auth_name auth_value]. rewrite !ostr_Some.
    rewrite (bool_decide_eq_false_2 (Some (js "header") = Some (js "none"))) by (vm_compute; congruence).
    rewrite (bool_decide_eq_true_2 (Some (js "header") = Some (js "header"))) by done. cbn [negb andb].
    rewrite !Hst; [done|..]; try (vm_compute; congruence);
      destruct prev as [p|]; try done; by apply (Hp p).
  - split; [vm_compute; reflexivity|]. intros Hp. unfold buildAdvancedCustomAuth, validateRouteAuth.
    cbn [auth_type auth_name auth_value]. rewrite !ostr_Some.
    rewrite (bool_decide_eq_false_2 (Some (js "query") = Some (js "none"))) by (vm_compute; congruence).
    rewrite (bool_decide_eq_true_2 (Some (js "query") = Some (js "query"))) by done.
    rewrite andb_false_r. cbn [negb andb].
    rewrite !Hst; [done|..]; try (vm_compute; congruence);
      destruct prev as [p|]; try done; by apply (Hp p).
Qed.

Lemma auth_mode_spec_witness :
  validateRouteAuth (buildAdvancedCustomAuth MHeader None) = None.
Proof.
  apply (auth_mode_spec MHeader None None None None None); [discriminate|discriminate|].
  intros p [=].
Defined.

End AdvancedCustom.
