(* ===== verification/ModelMapping.v ===== *)
(** * Model lists and model mappings of a channel
    (src/web/src/features/channels/lib/model-mapping-validation.ts)

    A channel lists models in a comma separated string and redirects some of them
    by a JSON object from requested to actual names.  The functions here read
    both, and find the names that are missing, exposed or only redirected. *)

From S2P Require Import Prelude JsString JsValue JsJson.

Module ModelMapping.

(** ** Lists of models *)

Definition nonblank (l : list jsstr) : list jsstr := filter (fun m => str_true m = true) l.

Definition parseModelsString (modelsStr : jsstr) : list jsstr :=
  if str_true modelsStr then nonblank (trim <$> split_on (ch ",") modelsStr) else [].

Definition formatModelsArray (models : list jsstr) : jsstr := str_join [ch ","] (uniq models).

Definition normalizeModelName (model : jsstr) : jsstr := trim model.

(** ** Mappings *)

(** The object a text denotes: [JSON.parse] and the test for a plain object *)
Definition mapping_object (s : jsstr) : option (list (jsstr * jsval)) :=
  match JSON_parse s with Some (JObj fs) => Some fs | _ => None end.

Definition extractMappingSourceModels (modelMapping : jsstr) : list jsstr :=
  let trimmed := trim modelMapping in
  if negb (str_true trimmed) then []
  else match mapping_object trimmed with
       | None => []
       | Some fs => uniq (nonblank (trim <$> Object_keys fs))
       end.

(** [typeof value === 'string' ? value.trim() : undefined], then [filter(Boolean)] *)
Definition string_values (vs : list jsval) : list jsstr :=
  nonblank (omap (fun v => match v with JStr s => Some (trim s) | _ => None end) vs).

Definition extractRedirectModels (modelMapping : jsstr) : list jsstr :=
  let trimmed := trim modelMapping in
  if negb (str_true trimmed) then []
  else match mapping_object trimmed with
       | None => []
       | Some fs => uniq (string_values (Object_values fs))
       end.

Fixpoint sameModels (a b : list jsstr) : bool :=
  match a, b with
  | x :: a', y :: b' => bool_decide (x = y) && sameModels a' b'
  | _, _ => true
  end.

Definition hasModelConfigChanged (currentModels : list jsstr) (currentModelMapping : jsstr)
    (initialModels : list jsstr) (initialModelMapping : jsstr) : bool :=
  if bool_decide (length initialModels = 0) && negb (str_true initialModelMapping) then true
  else if negb (bool_decide (length currentModels = length initialModels)) then true
  else if negb (sameModels currentModels initialModels) then true
  else negb (bool_decide (trim currentModelMapping = trim initialModelMapping)).

Definition findMissingModelsInMapping (modelMapping : jsstr) (currentModels : list jsstr) : list jsstr :=
  if negb (str_true modelMapping) || negb (str_true (trim modelMapping)) then []
  else match mapping_object modelMapping with
       | None => []
       | Some fs =>
           let modelSet := uniq (normalizeModelName <$> currentModels) in
           uniq (filter (fun k => str_true k = true ∧ k ∉ modelSet)
                   (normalizeModelName <$> Object_keys fs))
       end.

Inductive MappingVerdict :=
| MappingValid
| MappingNotObject
| MappingNotStrings
| MappingNotJson.

Definition validateModelMappingJson (modelMapping : jsstr) : MappingVerdict :=
  if negb (str_true modelMapping) || negb (str_true (trim modelMapping)) then MappingValid
  else match JSON_parse modelMapping with
       | None => MappingNotJson
       | Some (JObj fs) =>
           if existsb (fun v => negb (is_string v)) (Object_values fs) then MappingNotStrings
           else MappingValid
       | Some _ => MappingNotObject
       end.

Definition findExposedTargetModels (modelMapping : jsstr) (currentModels : list jsstr) : list jsstr :=
  let redirectModels := extractRedirectModels modelMapping in
  let modelSet := uniq (normalizeModelName <$> currentModels) in
  filter (fun m => normalizeModelName m ∈ modelSet) redirectModels.

Record ModelCategories := mkCategories {
  normalizedCurrentModels : list jsstr;
  normalizedRedirectModels : list jsstr;
  classificationSet : list jsstr;
  redirectOnlySet : list jsstr
}.

Definition categorizeModelsWithRedirect (currentModels redirectModels : list jsstr) : ModelCategories :=
  let cur := uniq (nonblank (normalizeModelName <$> currentModels)) in
  let red := uniq (nonblank (normalizeModelName <$> redirectModels)) in
  mkCategories cur red (uniq (cur ++ red)) (uniq (filter (fun m => m ∉ cur) red)).

(** ** Facts *)

Lemma elem_of_nonblank m l : m ∈ nonblank l ↔ m ∈ l ∧ m ≠ [].
Proof. unfold nonblank. rewrite list_elem_of_filter, str_true_spec. tauto. Qed.

Lemma elem_of_keys (fs : list (jsstr * jsval)) m : m ∈ Object_keys fs ↔ ∃ v, (m, v) ∈ fs.
Proof.
  unfold Object_keys. rewrite list_elem_of_fmap. setoid_rewrite elem_of_own_fields. split.
  - intros ([k v] & -> & ?). by exists v.
  - intros [v ?]. by exists (m, v).
Qed.

Lemma elem_of_values (fs : list (jsstr * jsval)) v : v ∈ Object_values fs ↔ ∃ k, (k, v) ∈ fs.
Proof.
  unfold Object_values. rewrite list_elem_of_fmap. setoid_rewrite elem_of_own_fields. split.
  - intros ([k w] & -> & ?). by exists k.
  - intros [k ?]. by exists (k, v).
Qed.

Lemma elem_of_string_values vs m :
  m ∈ string_values vs ↔ ∃ s, JStr s ∈ vs ∧ m = trim s ∧ m ≠ [].
Proof.
  unfold string_values. rewrite elem_of_nonblank, list_elem_of_omap. split.
  - intros [(v & Hv & E) Hm]. destruct v; simplify_eq. eauto.
  - intros (s & Hv & -> & Hm). split; [|done]. by exists (JStr s).
Qed.

Lemma mapping_object_blank : mapping_object [] = None.
Proof. vm_compute. reflexivity. Qed.

(** Nothing is a member of the empty list, and the other side is refuted. *)
Ltac nil_iff := split; [by intros ?%not_elem_of_nil|naive_solver].

Lemma elem_of_sources s m :
  m ∈ extractMappingSourceModels s ↔
  ∃ fs k v, mapping_object (trim s) = Some fs ∧ (k, v) ∈ fs ∧ m = trim k ∧ m ≠ [].
Proof.
  unfold extractMappingSourceModels. destruct (str_true (trim s)) eqn:E; simpl.
  2:{ apply str_true_false in E. rewrite E, mapping_object_blank. nil_iff. }
  destruct (mapping_object (trim s)) as [fs|]; [|nil_iff].
  rewrite elem_of_uniq, elem_of_nonblank, list_elem_of_fmap. setoid_rewrite elem_of_keys. naive_solver.
Qed.

Lemma elem_of_redirects s m :
  m ∈ extractRedirectModels s ↔
  ∃ fs k v, mapping_object (trim s) = Some fs ∧ (k, JStr v) ∈ fs ∧ m = trim v ∧ m ≠ [].
Proof.
  unfold extractRedirectModels. destruct (str_true (trim s)) eqn:E; simpl.
  2:{ apply str_true_false in E. rewrite E, mapping_object_blank. nil_iff. }
  destruct (mapping_object (trim s)) as [fs|]; [|nil_iff].
  rewrite elem_of_uniq, elem_of_string_values. setoid_rewrite elem_of_values. naive_solver.
Qed.

(** The names read from a mapping: its sources are the keys and its targets
    the string values, trimmed and not blank, each once; a model is missing when
    it is a source and not in the list, and exposed when it is a target and in
    the list. *)
Theorem mapping_names_spec s models :
  (NoDup (extractMappingSourceModels s) ∧ NoDup (extractRedirectModels s)
   ∧ NoDup (findMissingModelsInMapping s models) ∧ NoDup (findExposedTargetModels s models))
  ∧ (∀ m, m ∈ extractMappingSourceModels s ↔
       ∃ fs k v, mapping_object (trim s) = Some fs ∧ (k, v) ∈ fs ∧ m = trim k ∧ m ≠ [])
  ∧ (∀ m, m ∈ extractRedirectModels s ↔
       ∃ fs k v, mapping_object (trim s) = Some fs ∧ (k, JStr v) ∈ fs ∧ m = trim v ∧ m ≠ [])
  ∧ (∀ m, m ∈ findMissingModelsInMapping s models ↔
       trim s ≠ [] ∧ (∃ fs k v, mapping_object s = Some fs ∧ (k, v) ∈ fs ∧ m = trim k ∧ m ≠ [])
       ∧ m ∉ trim <$> models)
  ∧ (∀ m, m ∈ findExposedTargetModels s models ↔
       m ∈ extractRedirectModels s ∧ m ∈ trim <$> models).
Proof.
  assert (NoDup (extractRedirectModels s)) as Hred.
  { unfold extractRedirectModels. destruct (negb _); [constructor|].
    destruct (mapping_object _); [apply uniq_NoDup|constructor]. }
  split_and!.
  - unfold extractMappingSourceModels. destruct (negb _); [constructor|].
    destruct (mapping_object _); [apply uniq_NoDup|constructor].
  - done.
  - unfold findMissingModelsInMapping. destruct (_ || _); [constructor|].
    destruct (mapping_object _); [apply uniq_NoDup|constructor].
  - by apply NoDup_filter.
  - apply elem_of_sources.
  - apply elem_of_redirects.
  - intros m. unfold findMissingModelsInMapping.
    destruct (str_true (trim s)) eqn:E.
    2:{ rewrite orb_true_r. apply str_true_false in E. nil_iff. }
    assert (str_true s = true) as -> by (destruct s; [by rewrite trim_nil in E|done]).
    apply str_true_spec in E. simpl.
    destruct (mapping_object s) as [fs|]; [|nil_iff].
    rewrite elem_of_uniq, list_elem_of_filter, str_true_spec, elem_of_uniq.
    rewrite (list_elem_of_fmap normalizeModelName (Object_keys fs)).
    setoid_rewrite elem_of_keys. unfold normalizeModelName. naive_solver.
  - intros m. unfold findExposedTargetModels, normalizeModelName.
    rewrite list_elem_of_filter, elem_of_uniq. split.
    + intros [Hm Hr]. pose proof Hr as (fs & k & v & _ & _ & -> & _)%elem_of_redirects.
      by rewrite trim_idemp in Hm.
    + intros [Hr Hm]. pose proof Hr as (fs & k & v & _ & _ & -> & _)%elem_of_redirects.
      by rewrite trim_idemp.
Qed.

(** Model lists survive the text field: names that are trimmed, not blank
    and without commas, written to the field and read back, are the same names
    without repetitions. *)
Theorem models_string_roundtrip models :
  Forall (fun m => m ≠ [] ∧ trim m = m ∧ ch "," ∉ m) models →
  parseModelsString (formatModelsArray models) = uniq models.
Proof.
  intros Hall. unfold parseModelsString, formatModelsArray.
  assert (Forall (fun m => m ≠ [] ∧ trim m = m ∧ ch "," ∉ m) (uniq models)) as Hu.
  { rewrite Forall_forall in Hall |- *. intros m Hm. apply Hall. by apply elem_of_uniq. }
  destruct (uniq models) as [|m ms] eqn:E; [done|].
  rewrite split_on_join; [|done|eapply Forall_impl; [exact Hu|simpl; tauto]].
  assert (trim <$> (m :: ms) = m :: ms ∧ nonblank (m :: ms) = m :: ms) as [Ht Hf].
  { clear E Hall. unfold nonblank. induction Hu as [|x l (Hx & Hxt & _) _ [IH1 IH2]]; [done|].
    rewrite fmap_cons, filter_cons, decide_True by (by apply str_true_spec). by rewrite Hxt, IH1, IH2. }
  rewrite Ht, Hf.
  inversion Hu as [|? ? (Hm & _) _]; subst. destruct m; [done|]. by destruct ms.
Qed.

Lemma models_string_roundtrip_witness :
  parseModelsString (formatModelsArray [js "a"; js "b"; js "a"]) = [js "a"; js "b"].
Proof.
  rewrite (models_string_roundtrip [js "a"; js "b"; js "a"]); [vm_compute; reflexivity|].
  repeat constructor; vm_compute; first [congruence|set_solver].
Defined.

(** The sets shown in the model list: every current or redirected name is
    classified, and the redirect-only names are exactly those redirected to and
    not current, each once. *)
Theorem categorize_spec cur red :
  let c := categorizeModelsWithRedirect cur red in
  (∀ m, m ∈ normalizedCurrentModels c ↔ m ≠ [] ∧ m ∈ trim <$> cur)
  ∧ (∀ m, m ∈ normalizedRedirectModels c ↔ m ≠ [] ∧ m ∈ trim <$> red)
  ∧ (∀ m, m ∈ classificationSet c ↔ m ∈ normalizedCurrentModels c ∨ m ∈ redirectOnlySet c)
  ∧ (∀ m, m ∈ redirectOnlySet c ↔ m ∈ normalizedRedirectModels c ∧ m ∉ normalizedCurrentModels c)
  ∧ NoDup (classificationSet c) ∧ NoDup (redirectOnlySet c).
Proof.
  intros c. unfold c, categorizeModelsWithRedirect. cbn [normalizedCurrentModels normalizedRedirectModels classificationSet redirectOnlySet].
  set (cs := uniq (nonblank (normalizeModelName <$> cur))).
  set (rs := uniq (nonblank (normalizeModelName <$> red))).
  split_and!; try apply uniq_NoDup.
  - intros m. unfold cs. rewrite elem_of_uniq, elem_of_nonblank. unfold normalizeModelName. tauto.
  - intros m. unfold rs. rewrite elem_of_uniq, elem_of_nonblank. unfold normalizeModelName. tauto.
  - intros m. rewrite !elem_of_uniq, elem_of_app, list_elem_of_filter. destruct (decide (m ∈ cs)); tauto.
  - intros m. rewrite elem_of_uniq, list_elem_of_filter. tauto.
Qed.

Lemma sameModels_spec a b : length a = length b → sameModels a b = true ↔ a = b.
Proof.
  revert b. induction a as [|x a IH]; intros [|y b]; simpl; try done.
  intros [= Hl]. rewrite andb_true_iff, bool_decide_eq_true, IH by done. naive_solver.
Qed.

(** A channel counts as unchanged exactly when it was loaded with models or
    a mapping, lists the same models in the same order, and its mapping text
    differs at most in surrounding spaces. *)
Theorem config_changed_spec cur curMap ini iniMap :
  hasModelConfigChanged cur curMap ini iniMap = false ↔
  (ini ≠ [] ∨ iniMap ≠ []) ∧ cur = ini ∧ trim curMap = trim iniMap.
Proof.
  unfold hasModelConfigChanged.
  destruct (bool_decide (length ini = 0) && negb (str_true iniMap)) eqn:E1.
  { bsplit. apply nil_length_inv in H. apply str_true_false in H0. subst. naive_solver. }
  assert (ini ≠ [] ∨ iniMap ≠ []) as Hi.
  { apply andb_false_iff in E1 as [E1|E1]; bsplit; [left; by intros ->|right; by apply str_true_spec]. }
  destruct (bool_decide (length cur = length ini)) eqn:E2; bsplit; simpl; [|split; [done|naive_solver]].
  destruct (sameModels cur ini) eqn:E3; simpl.
  - apply sameModels_spec in E3; [|done]. rewrite negb_false_iff, bool_decide_eq_true. tauto.
  - split; [done|]. intros (_ & Hc & _). apply sameModels_spec in Hc; [congruence|done].
Qed.

End ModelMapping.
