(* ===== verification/Flow.v ===== *)
(** * The dashboard's flow graph
    (src/web/src/features/dashboard/lib/flow.ts, the Flow types of types.ts)

    Usage rows become paths through stages (user, node, token, group, model,
    channel); the paths are filtered, limited to the largest nodes of each stage,
    and added up into the nodes and links of a Sankey diagram, which are then
    masked, highlighted and sorted.

    The metrics of a row are integers, as the server reports them, and the sums
    are exact ([flow_sums_safe] bounds them by the total of the rows).
    [localeCompare] is the platform's collation, a parameter.  Colours, formatted
    numbers and the chart specification are not modelled. *)

From Stdlib Require Import QArith Qround.
From S2P Require Import Prelude JsString JsValue.
Local Close Scope Q_scope.

Module Flow.

Inductive FlowNodeKind := KUser | KNode | KToken | KGroup | KModel | KChannel.
Inductive FlowMetric := MQuota | MTokens | MRequests.
Inductive FlowOverflowMode := OAggregate | OHide.
Inductive FlowRole := RoleUser | RoleAdmin | RoleRoot.

#[global] Instance FlowNodeKind_eq_dec : EqDecision FlowNodeKind.
Proof. solve_decision. Defined.

Record FlowQuotaDataItem := mkRow {
  user_id : option Z;
  username : option jsstr;
  node_name : option jsstr;
  use_group : option jsstr;
  token_id : option Z;
  token_name : option jsstr;
  channel_id : option Z;
  channel_name : option jsstr;
  model_name : option jsstr;
  token_used : option Z;
  count : option Z;
  quota : option Z
}.

Record FlowNodeFilter := mkFilter { f_kind : FlowNodeKind; f_id : jsstr }.
Record FlowLinkSelection := mkSelection { sel_source : jsstr; sel_target : jsstr }.

Record FlowMetrics := mkMetrics { m_quota : Z; m_tokens : Z; m_requests : Z }.
Record FlowPathNode := mkNode { id : jsstr; label : jsstr; kind : FlowNodeKind }.
Record PreparedFlowPath := mkPath { path : list FlowPathNode; metrics : FlowMetrics }.
Record FlowNodeRank := mkRank { rank_node : FlowPathNode; rank_value : Z }.

Record DashboardFlowNode := mkFlowNode {
  n_id : jsstr; n_label : jsstr; n_kind : FlowNodeKind;
  n_value : Z; n_requests : Z; n_quota : Z; n_tokens : Z;
  n_colorKey : jsstr;
  n_highlighted : option bool; n_dimmed : option bool
}.

Record DashboardFlowLink := mkFlowLink {
  l_source : jsstr; l_target : jsstr;
  l_value : Z; l_requests : Z; l_quota : Z; l_tokens : Z;
  l_sourceLabel : jsstr; l_targetLabel : jsstr;
  l_colorKey : jsstr; l_share : Q;
  l_highlighted : option bool; l_dimmed : option bool
}.

Record DashboardFlowGraph := mkGraph { g_nodes : list DashboardFlowNode; g_links : list DashboardFlowLink }.
Record FlowSummary := mkSummary { s_quota : Z; s_tokens : Z; s_requests : Z }.

Record FlowUserFilterOption := mkUserOption { uo_value : jsstr; uo_label : jsstr; uo_valueRaw : Z }.
Record FlowNodeFilterOption := mkNodeOption {
  no_kind : FlowNodeKind; no_value : jsstr; no_label : jsstr; no_valueRaw : Z
}.
Record FlowFilterOptions := mkFilterOptions {
  fo_users : list FlowUserFilterOption; fo_nodes : list FlowNodeFilterOption
}.
Record ProcessedFlowData := mkProcessed {
  summary : FlowSummary; flow : DashboardFlowGraph; filterOptions : FlowFilterOptions
}.

Record FlowBuildOptions := mkOptions {
  o_role : option FlowRole;
  selectedUsers : option (list jsstr);
  selectedNodes : option (list FlowNodeFilter);
  activeNode : option FlowNodeFilter;
  activeLink : option FlowLinkSelection;
  visibleStages : option (list FlowNodeKind);
  topNodeLimit : option num;
  overflowMode : option FlowOverflowMode;
  maskSensitive : bool;
  o_deletedTokenLabel : option (Z → jsstr);
  otherNodeLabel : option (FlowNodeKind → jsstr)
}.

Definition FLOW_NODE_KINDS : list FlowNodeKind := [KUser; KNode; KToken; KGroup; KModel; KChannel].

Definition kind_name (k : FlowNodeKind) : jsstr :=
  match k with
  | KUser => js "user" | KNode => js "node" | KToken => js "token"
  | KGroup => js "group" | KModel => js "model" | KChannel => js "channel"
  end.

Definition OTHER_FLOW_NODE_IDS (k : FlowNodeKind) : jsstr :=
  match k with
  | KUser => js "user:__other__" | KNode => js "node:__other__" | KToken => js "token:__other__"
  | KGroup => js "group:__other__" | KModel => js "model:__other__" | KChannel => js "channel:__other__"
  end.

Definition DEFAULT_OTHER_FLOW_NODE_LABELS (k : FlowNodeKind) : jsstr :=
  match k with
  | KUser => js "Other users" | KNode => js "Other nodes" | KToken => js "Other tokens"
  | KGroup => js "Other groups" | KModel => js "Other models" | KChannel => js "Other channels"
  end.

Definition SENSITIVE_FLOW_KINDS : list FlowNodeKind := [KUser; KNode; KToken; KGroup; KChannel].
Definition OTHER_FLOW_NODE_ID_SET : list jsstr := OTHER_FLOW_NODE_IDS <$> FLOW_NODE_KINDS.

(** [numberValue] of an optional integer *)
Definition numberValue (v : option Z) : Z := default 0%Z v.

Definition rowMetrics (row : FlowQuotaDataItem) : FlowMetrics :=
  mkMetrics (numberValue (quota row)) (numberValue (token_used row)) (numberValue (count row)).

Definition metricValue (m : FlowMetrics) (metric : FlowMetric) : Z :=
  match metric with MRequests => m_requests m | MTokens => m_tokens m | MQuota => m_quota m end.

Definition userNode (row : FlowQuotaDataItem) : FlowPathNode :=
  let userID := numberValue (user_id row) in
  mkNode
    (if (0 <? userID)%Z then js "user:" ++ str_of_Z userID
     else js "user:" ++ str_or (ostr (username row)) (js "unknown"))
    (str_or (ostr (username row))
       (if (0 <? userID)%Z then js "user-" ++ str_of_Z userID else js "Unknown User"))
    KUser.

Definition nodeNameNode (row : FlowQuotaDataItem) : FlowPathNode :=
  let nodeName := str_or (ostr (node_name row)) (js "default-node") in
  mkNode (js "node:" ++ nodeName) nodeName KNode.

Definition deletedTokenLabel (tokenID : Z) (ctx : option (Z → jsstr)) : jsstr :=
  if (tokenID <=? 0)%Z then js "Unknown Token"
  else match ctx with Some f => f tokenID | None => js "token-" ++ str_of_Z tokenID end.

Definition tokenNode (row : FlowQuotaDataItem) (ctx : option (Z → jsstr)) : FlowPathNode :=
  let tokenID := numberValue (token_id row) in
  mkNode
    (if (0 <? tokenID)%Z then js "token:" ++ str_of_Z tokenID
     else js "token:" ++ str_or (ostr (token_name row)) (js "unknown"))
    (str_or (ostr (token_name row)) (deletedTokenLabel tokenID ctx))
    KToken.

Definition groupNode (row : FlowQuotaDataItem) : FlowPathNode :=
  let useGroup := str_or (ostr (use_group row)) (js "unknown") in
  mkNode (js "group:" ++ useGroup) useGroup KGroup.

Definition modelNode (row : FlowQuotaDataItem) : FlowPathNode :=
  let model := str_or (ostr (model_name row)) (js "unknown") in
  mkNode (js "model:" ++ model) (str_or (ostr (model_name row)) (js "Unknown Model")) KModel.

Definition channelNode (row : FlowQuotaDataItem) : FlowPathNode :=
  let channelID := numberValue (channel_id row) in
  mkNode
    (if (0 <? channelID)%Z then js "channel:" ++ str_of_Z channelID
     else js "channel:" ++ str_or (ostr (channel_name row)) (js "unknown"))
    (str_or (ostr (channel_name row))
       (if (0 <? channelID)%Z then js "channel-" ++ str_of_Z channelID else js "Unknown"))
    KChannel.

Definition NODE_BUILDERS (k : FlowNodeKind) (row : FlowQuotaDataItem) (ctx : option (Z → jsstr)) :
    FlowPathNode :=
  match k with
  | KUser => userNode row
  | KNode => nodeNameNode row
  | KToken => tokenNode row ctx
  | KGroup => groupNode row
  | KModel => modelNode row
  | KChannel => channelNode row
  end.

Definition getFlowStages (role : FlowRole) : list FlowNodeKind :=
  match role with
  | RoleRoot => [KUser; KNode; KToken; KGroup; KModel; KChannel]
  | RoleAdmin => [KUser; KGroup; KModel; KChannel]
  | RoleUser => [KToken; KGroup; KModel]
  end.

Definition MIN_FLOW_STAGES : nat := 2.

Definition resolveVisibleStages (role : FlowRole) (visible : option (list FlowNodeKind)) :
    list FlowNodeKind :=
  let stages := getFlowStages role in
  match visible with
  | None => stages
  | Some vs =>
      let filtered := filter (fun stage => stage ∈ vs) stages in
      if bool_decide (MIN_FLOW_STAGES ≤ length filtered) then filtered else stages
  end.

Definition flowPathForStages (row : FlowQuotaDataItem) (stages : list FlowNodeKind)
    (ctx : option (Z → jsstr)) : list FlowPathNode :=
  (fun stage => NODE_BUILDERS stage row ctx) <$> stages.

(** ** Filters *)

Definition filterRows (rows : list FlowQuotaDataItem) (users : option (list jsstr)) :
    list FlowQuotaDataItem :=
  match default [] users with
  | [] => rows
  | us => filter (fun row => id (userNode row) ∈ us) rows
  end.

Definition nodeFilterKey (f : FlowNodeFilter) : jsstr := kind_name (f_kind f) ++ [0%N] ++ f_id f.

Definition selectedNodeFiltersExceptKind (selected : option (list FlowNodeFilter)) (k : FlowNodeKind) :
    option (list FlowNodeFilter) :=
  match filter (fun f => f_kind f ≠ k) (default [] selected) with [] => None | filtered => Some filtered end.

Definition normalizeSelectedNodeFilters (selected : option (list FlowNodeFilter))
    (stages : list FlowNodeKind) : list (FlowNodeKind * list jsstr) :=
  foldl (fun filters f =>
    if bool_decide (f_kind f ∈ stages)
    then mset (f_kind f) (sadd (f_id f) (default [] (mget (f_kind f) filters))) filters
    else filters) [] (default [] selected).

Definition pathNodesByKind (p : list FlowPathNode) : list (FlowNodeKind * list jsstr) :=
  foldl (fun m n => mset (kind n) (sadd (id n) (default [] (mget (kind n) m))) m) [] p.

Definition pathMatchesNodeFilters (p : list FlowPathNode) (filters : list (FlowNodeKind * list jsstr)) :
    bool :=
  forallb (fun kf : FlowNodeKind * list jsstr =>
    match mget kf.1 (pathNodesByKind p) with
    | None => false
    | Some pathIds => existsb (fun i => bool_decide (i ∈ pathIds)) kf.2
    end) filters.

Definition filterRowsByNodes (rows : list FlowQuotaDataItem) (selected : option (list FlowNodeFilter))
    (stages : list FlowNodeKind) (ctx : option (Z → jsstr)) : list FlowQuotaDataItem :=
  let filters := normalizeSelectedNodeFilters selected stages in
  match filters with
  | [] => rows
  | _ => filter (fun row => pathMatchesNodeFilters (flowPathForStages row stages ctx) filters = true) rows
  end.

(** ** Nodes and links *)

Definition addNode (map : list (jsstr * DashboardFlowNode)) (n : FlowPathNode) (ms : FlowMetrics)
    (metric : FlowMetric) (colorKey : jsstr) : list (jsstr * DashboardFlowNode) :=
  let previous := default (mkFlowNode (id n) (label n) (kind n) 0 0 0 0 colorKey None None)
                    (mget (id n) map) in
  mset (id n)
    (mkFlowNode (n_id previous) (n_label previous) (n_kind previous)
       (n_value previous + metricValue ms metric) (n_requests previous + m_requests ms)
       (n_quota previous + m_quota ms) (n_tokens previous + m_tokens ms) (n_colorKey previous)
       (n_highlighted previous) (n_dimmed previous)) map.

Definition pathLinkKey (source target : FlowPathNode) : jsstr := id source ++ [0%N] ++ id target.

Definition addLink (map : list (jsstr * DashboardFlowLink)) (source target : FlowPathNode)
    (ms : FlowMetrics) (metric : FlowMetric) (colorKey : jsstr) : list (jsstr * DashboardFlowLink) :=
  let key := pathLinkKey source target in
  let previous := default (mkFlowLink (id source) (id target) 0 0 0 0 (label source) (label target)
                             colorKey 0%Q None None) (mget key map) in
  mset key
    (mkFlowLink (l_source previous) (l_target previous)
       (l_value previous + metricValue ms metric) (l_requests previous + m_requests ms)
       (l_quota previous + m_quota ms) (l_tokens previous + m_tokens ms)
       (l_sourceLabel previous) (l_targetLabel previous) (l_colorKey previous) (l_share previous)
       (l_highlighted previous) (l_dimmed previous)) map.

Definition linkStableKey (l : DashboardFlowLink) : jsstr := l_source l ++ [0%N] ++ l_target l.

Definition buildSummary (rows : list FlowQuotaDataItem) : FlowSummary :=
  foldl (fun s row =>
    let m := rowMetrics row in
    mkSummary (s_quota s + m_quota m) (s_tokens s + m_tokens m) (s_requests s + m_requests m))
    (mkSummary 0 0 0) rows.

(** [Math.floor], then finite and positive *)
Definition normalizeTopNodeLimit (limit : option num) : option nat :=
  match limit with
  | Some (Fin q) => let parsed := Qfloor q in if (0 <? parsed)%Z then Some (Z.to_nat parsed) else None
  | _ => None
  end.

Definition otherFlowNode (k : FlowNodeKind) (labeler : option (FlowNodeKind → jsstr)) : FlowPathNode :=
  mkNode (OTHER_FLOW_NODE_IDS k)
    (match labeler with Some f => f k | None => DEFAULT_OTHER_FLOW_NODE_LABELS k end) k.

(** ** Limits *)

Definition stageTotal (v : Z) (totals : list (FlowNodeKind * list (jsstr * FlowNodeRank)))
    (n : FlowPathNode) : list (FlowNodeKind * list (jsstr * FlowNodeRank)) :=
  match mget (kind n) totals with
  | None => totals
  | Some st =>
      let current := default (mkRank n 0) (mget (id n) st) in
      mset (kind n) (mset (id n) (mkRank (rank_node current) (rank_value current + v)) st) totals
  end.

Definition stageTotals (rows : list FlowQuotaDataItem) (metric : FlowMetric)
    (stages : list FlowNodeKind) (ctx : option (Z → jsstr)) :
    list (FlowNodeKind * list (jsstr * FlowNodeRank)) :=
  foldl (fun totals row =>
    foldl (stageTotal (metricValue (rowMetrics row) metric)) totals (flowPathForStages row stages ctx))
    (foldl (fun totals stage => mset stage [] totals) [] stages) rows.

Definition isTopFlowNode (n : FlowPathNode) (topNodeSets : option (list (FlowNodeKind * list jsstr))) :
    bool :=
  match topNodeSets with
  | None => true
  | Some sets => match mget (kind n) sets with None => true | Some ids => bool_decide (id n ∈ ids) end
  end.

Definition applyTopNodeLimit (p : list FlowPathNode)
    (topNodeSets : option (list (FlowNodeKind * list jsstr))) (mode : FlowOverflowMode)
    (labeler : option (FlowNodeKind → jsstr)) : option (list FlowPathNode) :=
  match topNodeSets with
  | None => Some p
  | Some _ =>
      if negb (existsb (fun n => negb (isTopFlowNode n topNodeSets)) p) then Some p
      else match mode with
           | OHide => None
           | OAggregate =>
               Some ((fun n => if isTopFlowNode n topNodeSets then n
                               else otherFlowNode (kind n) labeler) <$> p)
           end
  end.

(** ** Highlighting and masking *)

(** Consecutive pairs *)
Fixpoint pairs {A} (l : list A) : list (A * A) :=
  match l with
  | x :: l' => match l' with y :: _ => (x, y) :: pairs l' | [] => [] end
  | [] => []
  end.

Definition pathContainsFlowNode (p : list FlowPathNode) (f : FlowNodeFilter) : bool :=
  existsb (fun n => bool_decide (kind n = f_kind f) && bool_decide (id n = f_id f)) p.

Definition pathContainsFlowLink (p : list FlowPathNode) (l : FlowLinkSelection) : bool :=
  existsb (fun st : FlowPathNode * FlowPathNode =>
    bool_decide (id st.1 = sel_source l) && bool_decide (id st.2 = sel_target l)) (pairs p).

Record FlowHighlightSets := mkHighlight { h_nodes : list jsstr; h_links : list jsstr }.

Definition matchesPath (activeNode : option FlowNodeFilter) (activeLink : option FlowLinkSelection)
    (p : list FlowPathNode) : bool :=
  match activeLink with
  | Some l => pathContainsFlowLink p l
  | None => match activeNode with Some f => pathContainsFlowNode p f | None => false end
  end.

Definition buildFlowHighlightSets (prepared : list PreparedFlowPath)
    (activeNode : option FlowNodeFilter) (activeLink : option FlowLinkSelection)
    (stages : list FlowNodeKind) : option FlowHighlightSets :=
  let nodeActive := match activeNode with Some f => bool_decide (f_kind f ∈ stages) | None => false end in
  if negb nodeActive && match activeLink with None => true | Some _ => false end then None
  else
    let matching := filter (fun p => matchesPath activeNode activeLink (path p) = true) prepared in
    let nodes := uniq (concat ((fun p => id <$> path p) <$> matching)) in
    let links := uniq (concat ((fun p => (fun st => pathLinkKey st.1 st.2) <$> pairs (path p)) <$> matching)) in
    match nodes with [] => None | _ => Some (mkHighlight nodes links) end.

Definition FLOW_MASK_TEXT : jsstr := [8226%N; 8226%N; 8226%N; 8226%N].

Definition maskFlowLabel (l : jsstr) : jsstr := if bool_decide (length l = 0) then l else FLOW_MASK_TEXT.

Definition isMaskedNode (n : DashboardFlowNode) : bool :=
  bool_decide (n_kind n ∈ SENSITIVE_FLOW_KINDS) && negb (bool_decide (n_id n ∈ OTHER_FLOW_NODE_ID_SET)).

Definition maskNode (n : DashboardFlowNode) : DashboardFlowNode :=
  if isMaskedNode n then
    mkFlowNode (n_id n) (maskFlowLabel (n_label n)) (n_kind n) (n_value n) (n_requests n) (n_quota n)
      (n_tokens n) (n_colorKey n) (n_highlighted n) (n_dimmed n)
  else n.

Definition maskLink (maskedById : list (jsstr * jsstr)) (l : DashboardFlowLink) : DashboardFlowLink :=
  mkFlowLink (l_source l) (l_target l) (l_value l) (l_requests l) (l_quota l) (l_tokens l)
    (default (l_sourceLabel l) (mget (l_source l) maskedById))
    (default (l_targetLabel l) (mget (l_target l) maskedById))
    (l_colorKey l) (l_share l) (l_highlighted l) (l_dimmed l).

Definition maskFlowGraphLabels (nodes : list (jsstr * DashboardFlowNode))
    (links : list (jsstr * DashboardFlowLink)) :
    list (jsstr * DashboardFlowNode) * list (jsstr * DashboardFlowLink) :=
  let maskedById := foldl (fun m n => if isMaskedNode n then mset (n_id n) (maskFlowLabel (n_label n)) m else m)
                      [] (mvalues nodes) in
  (prod_map (fun k => k) maskNode <$> nodes, prod_map (fun k => k) (maskLink maskedById) <$> links).

Definition highlightNode (h : FlowHighlightSets) (n : DashboardFlowNode) : DashboardFlowNode :=
  let b := bool_decide (n_id n ∈ h_nodes h) in
  mkFlowNode (n_id n) (n_label n) (n_kind n) (n_value n) (n_requests n) (n_quota n) (n_tokens n)
    (n_colorKey n) (Some b) (Some (negb b)).

Definition highlightLink (h : FlowHighlightSets) (l : DashboardFlowLink) : DashboardFlowLink :=
  let b := bool_decide (linkStableKey l ∈ h_links h) in
  mkFlowLink (l_source l) (l_target l) (l_value l) (l_requests l) (l_quota l) (l_tokens l)
    (l_sourceLabel l) (l_targetLabel l) (l_colorKey l) (l_share l) (Some b) (Some (negb b)).

Definition applyFlowHighlights (nodes : list (jsstr * DashboardFlowNode))
    (links : list (jsstr * DashboardFlowLink)) (h : option FlowHighlightSets) :
    list (jsstr * DashboardFlowNode) * list (jsstr * DashboardFlowLink) :=
  match h with
  | None => (nodes, links)
  | Some h => (prod_map (fun k => k) (highlightNode h) <$> nodes, prod_map (fun k => k) (highlightLink h) <$> links)
  end.

(** ** The graph *)

Section Graph.
(** [a.localeCompare(b)] *)
Context (localeCompare : jsstr → jsstr → Z).

Definition rank_cmp (a b : FlowNodeRank) : Z :=
  cmp_or (rank_value b - rank_value a)
    (cmp_or (localeCompare (label (rank_node a)) (label (rank_node b)))
       (localeCompare (id (rank_node a)) (id (rank_node b)))).

Definition buildTopNodeSets (rows : list FlowQuotaDataItem) (metric : FlowMetric)
    (stages : list FlowNodeKind) (limit : option nat) (ctx : option (Z → jsstr)) :
    option (list (FlowNodeKind * list jsstr)) :=
  match limit with
  | None | Some 0 => None
  | Some n =>
      Some ((fun kt : FlowNodeKind * list (jsstr * FlowNodeRank) =>
               (kt.1, (fun r => id (rank_node r)) <$> take n (sort_by rank_cmp (mvalues kt.2))))
              <$> stageTotals rows metric stages ctx)
  end.

(** The paths of the rows after the limit *)
Definition preparePaths (rows : list FlowQuotaDataItem) (metric : FlowMetric)
    (stages : list FlowNodeKind) (ctx : option (Z → jsstr)) (limit : option num)
    (mode : option FlowOverflowMode) (labeler : option (FlowNodeKind → jsstr)) : list PreparedFlowPath :=
  let topNodeSets := buildTopNodeSets rows metric stages (normalizeTopNodeLimit limit) ctx in
  omap (fun row =>
    p ← applyTopNodeLimit (flowPathForStages row stages ctx) topNodeSets (default OAggregate mode) labeler;
    Some (mkPath p (rowMetrics row))) rows.

(** The nodes and links of one prepared path *)
Definition addPathNodes (metric : FlowMetric) (nodes : list (jsstr * DashboardFlowNode))
    (p : PreparedFlowPath) : list (jsstr * DashboardFlowNode) :=
  match path p with
  | [] => nodes
  | root :: _ => foldl (fun nodes n => addNode nodes n (metrics p) metric (id root)) nodes (path p)
  end.

Definition addPathLinks (metric : FlowMetric) (links : list (jsstr * DashboardFlowLink))
    (p : PreparedFlowPath) : list (jsstr * DashboardFlowLink) :=
  match path p with
  | [] => links
  | root :: _ =>
      foldl (fun links st => addLink links st.1 st.2 (metrics p) metric (id root)) links (pairs (path p))
  end.

Definition link_cmp (a b : DashboardFlowLink) : Z :=
  cmp_or (localeCompare (l_source a) (l_source b)) (localeCompare (l_target a) (l_target b)).

Definition byValueThenLabel (a b : DashboardFlowNode) : Z :=
  cmp_or (n_value b - n_value a) (localeCompare (n_label a) (n_label b)).

Definition set_share (total : Z) (l : DashboardFlowLink) : DashboardFlowLink :=
  mkFlowLink (l_source l) (l_target l) (l_value l) (l_requests l) (l_quota l) (l_tokens l)
    (l_sourceLabel l) (l_targetLabel l) (l_colorKey l)
    (if (0 <? total)%Z then (inject_Z (l_value l) / inject_Z total)%Q else 0%Q)
    (l_highlighted l) (l_dimmed l).

Definition buildFlowGraph (rows : list FlowQuotaDataItem) (metric : FlowMetric) (role : FlowRole)
    (ctx : option (Z → jsstr)) (o : FlowBuildOptions) : DashboardFlowGraph :=
  let stages := resolveVisibleStages role (visibleStages o) in
  let prepared := preparePaths rows metric stages ctx (topNodeLimit o) (overflowMode o) (otherNodeLabel o) in
  let nodes := foldl (addPathNodes metric) [] prepared in
  let links := foldl (addPathLinks metric) [] prepared in
  let '(nodes, links) := if maskSensitive o then maskFlowGraphLabels nodes links else (nodes, links) in
  let '(nodes, links) :=
    applyFlowHighlights nodes links
      (buildFlowHighlightSets prepared (activeNode o) (activeLink o) stages) in
  let flowLinks := sort_by link_cmp (mvalues links) in
  let firstStepSources :=
    uniq (omap (fun p => match path p with n :: _ => if str_true (id n) then Some (id n) else None | [] => None end)
            prepared) in
  let total := foldl (fun sum l => sum + l_value l)%Z 0%Z
                 (filter (fun l => l_source l ∈ firstStepSources) flowLinks) in
  mkGraph (sort_by byValueThenLabel (mvalues nodes)) (set_share total <$> flowLinks).

(** ** Filter options (without colours and formatted numbers) *)

Definition user_option_cmp (a b : FlowUserFilterOption) : Z :=
  cmp_or (uo_valueRaw b - uo_valueRaw a) (localeCompare (uo_label a) (uo_label b)).

Definition buildUserFilterOptions (rows : list FlowQuotaDataItem) (metric : FlowMetric) :
    list FlowUserFilterOption :=
  let users := foldl (fun users row =>
    let user := userNode row in
    if (numberValue (user_id row) =? 0)%Z && negb (str_true (ostr (username row))) then users
    else
      let value := metricValue (rowMetrics row) metric in
      let '(l, v) := default (label user, 0%Z) (mget (id user) users) in
      mset (id user) (l, (v + value)%Z) users) [] rows in
  sort_by user_option_cmp
    ((fun e : jsstr * (jsstr * Z) => mkUserOption e.1 e.2.1 e.2.2) <$> users).

Definition nodeTotals (rows : list FlowQuotaDataItem) (metric : FlowMetric) (stage : FlowNodeKind)
    (ctx : option (Z → jsstr)) : list (jsstr * FlowNodeRank) :=
  foldl (fun totals row =>
    let value := metricValue (rowMetrics row) metric in
    let n := NODE_BUILDERS stage row ctx in
    let key := nodeFilterKey (mkFilter (kind n) (id n)) in
    let current := default (mkRank n 0) (mget key totals) in
    mset key (mkRank (rank_node current) (rank_value current + value)) totals) [] rows.

(** The position of a stage; [?? 0] for one that is not visible *)
Definition stageOrder (stages : list FlowNodeKind) (k : FlowNodeKind) : Z :=
  from_option (fun ix : nat * FlowNodeKind => Z.of_nat ix.1) 0%Z (list_find (fun s => s = k) stages).

Definition node_option_cmp (stages : list FlowNodeKind) (a b : FlowNodeFilterOption) : Z :=
  cmp_or (stageOrder stages (no_kind a) - stageOrder stages (no_kind b))
    (cmp_or (no_valueRaw b - no_valueRaw a)
       (cmp_or (localeCompare (no_label a) (no_label b)) (localeCompare (no_value a) (no_value b)))).

Definition candidateRows (rows : list FlowQuotaDataItem) (selected : option (list FlowNodeFilter))
    (stages : list FlowNodeKind) (ctx : option (Z → jsstr)) (stage : FlowNodeKind) : list FlowQuotaDataItem :=
  filterRowsByNodes rows (selectedNodeFiltersExceptKind selected stage) stages ctx.

Definition option_of_rank (r : FlowNodeRank) : FlowNodeFilterOption :=
  mkNodeOption (kind (rank_node r)) (id (rank_node r)) (label (rank_node r)) (rank_value r).

Definition buildNodeFilterOptions (rows : list FlowQuotaDataItem) (metric : FlowMetric) (role : FlowRole)
    (visible : option (list FlowNodeKind)) (ctx : option (Z → jsstr))
    (selected : option (list FlowNodeFilter)) : list FlowNodeFilterOption :=
  let stages := resolveVisibleStages role visible in
  sort_by (node_option_cmp stages)
    (concat ((fun stage => option_of_rank <$> mvalues (nodeTotals (candidateRows rows selected stages ctx stage) metric stage ctx))
               <$> stages)).

Definition buildFlowFilterOptions (rows : list FlowQuotaDataItem) (metric : FlowMetric) (role : FlowRole)
    (visible : option (list FlowNodeKind)) (selected : option (list FlowNodeFilter)) : FlowFilterOptions :=
  mkFilterOptions (buildUserFilterOptions rows metric)
    (buildNodeFilterOptions rows metric role visible None selected).

Definition buildDashboardFlowData (rows : list FlowQuotaDataItem) (metric : FlowMetric)
    (o : FlowBuildOptions) : ProcessedFlowData :=
  let role := default RoleUser (o_role o) in
  let ctx := o_deletedTokenLabel o in
  let stages := resolveVisibleStages role (visibleStages o) in
  let userFilteredRows := filterRows rows (selectedUsers o) in
  let filteredRows := filterRowsByNodes userFilteredRows (selectedNodes o) stages ctx in
  mkProcessed (buildSummary filteredRows) (buildFlowGraph filteredRows metric role ctx o)
    (mkFilterOptions (buildUserFilterOptions rows metric)
       (buildNodeFilterOptions userFilteredRows metric role (visibleStages o) ctx (selectedNodes o))).
End Graph.


(** ** Identifiers carry their kind *)

Definition wf_node (n : FlowPathNode) : Prop := ∃ s, id n = kind_name (kind n) ++ 58%N :: s.

Lemma kind_name_no_colon k : 58%N ∉ kind_name k.
Proof. destruct k; vm_compute; set_solver. Qed.

Lemma kind_name_inj k k' : kind_name k = kind_name k' → k = k'.
Proof. by destruct k, k'; vm_compute. Qed.

(** The text before the first [c] is determined. *)
Lemma app_sep_inj (c : N) a a' b b' :
  c ∉ a → c ∉ a' → a ++ c :: b = a' ++ c :: b' → a = a' ∧ b = b'.
Proof.
  revert a'. induction a as [|x a IH]; intros [|y a'] Ha Ha' E; simplify_eq/=; [done|set_solver|set_solver|].
  destruct (IH a') as [-> ->]; [set_solver|set_solver|done|done].
Qed.

Lemma wf_node_kind n n' : wf_node n → wf_node n' → id n = id n' → kind n = kind n'.
Proof.
  intros [s Hs] [s' Hs'] E. rewrite Hs, Hs' in E. apply kind_name_inj.
  by apply (app_sep_inj 58%N) in E as [? _]; [|apply kind_name_no_colon..].
Qed.

Lemma NODE_BUILDERS_wf k row ctx :
  kind (NODE_BUILDERS k row ctx) = k ∧ wf_node (NODE_BUILDERS k row ctx).
Proof.
  assert (∀ s, js "user:" ++ s = kind_name KUser ++ 58%N :: s) as E1 by (intros s; vm_compute; done).
  assert (∀ s, js "node:" ++ s = kind_name KNode ++ 58%N :: s) as E2 by (intros s; vm_compute; done).
  assert (∀ s, js "token:" ++ s = kind_name KToken ++ 58%N :: s) as E3 by (intros s; vm_compute; done).
  assert (∀ s, js "group:" ++ s = kind_name KGroup ++ 58%N :: s) as E4 by (intros s; vm_compute; done).
  assert (∀ s, js "model:" ++ s = kind_name KModel ++ 58%N :: s) as E5 by (intros s; vm_compute; done).
  assert (∀ s, js "channel:" ++ s = kind_name KChannel ++ 58%N :: s) as E6 by (intros s; vm_compute; done).
  destruct k; (split; [done|]); unfold wf_node; cbn [NODE_BUILDERS userNode nodeNameNode tokenNode groupNode modelNode channelNode id kind];
    rewrite ?E1, ?E2, ?E3, ?E4, ?E5, ?E6; try destruct (_ <? _)%Z; eauto.
Qed.

Lemma otherFlowNode_wf k labeler : kind (otherFlowNode k labeler) = k ∧ wf_node (otherFlowNode k labeler).
Proof.
  split; [done|]. exists (js "__other__"). simpl. by destruct k; vm_compute.
Qed.

(** A prepared path: one node for each stage, in order *)
Definition path_ok (stages : list FlowNodeKind) (p : PreparedFlowPath) : Prop :=
  kind <$> path p = stages ∧ Forall wf_node (path p).

Lemma flowPath_ok row stages ctx ms : path_ok stages (mkPath (flowPathForStages row stages ctx) ms).
Proof.
  unfold path_ok, flowPathForStages. simpl. split.
  - rewrite <- list_fmap_compose. rewrite <- (list_fmap_id stages) at 2.
    apply list_fmap_ext. intros i k _. simpl. apply NODE_BUILDERS_wf.
  - apply Forall_fmap, Forall_true. intros k. apply NODE_BUILDERS_wf.
Qed.

Lemma applyTopNodeLimit_ok stages p ms sets mode labeler p' :
  path_ok stages (mkPath p ms) → applyTopNodeLimit p sets mode labeler = Some p' →
  path_ok stages (mkPath p' ms).
Proof.
  intros [Hk Hw] H. unfold applyTopNodeLimit in H. destruct sets as [sets|]; [|by simplify_eq].
  destruct (negb _); [by simplify_eq|]. destruct mode; [|done]. injection H as <-.
  unfold path_ok in *. cbn [path] in *. split.
  - rewrite <- list_fmap_compose, <- Hk. apply list_fmap_ext. intros i n _. unfold compose.
    match goal with |- context [if ?b then _ else _] => destruct b end; [done|apply otherFlowNode_wf].
  - apply Forall_fmap. eapply Forall_impl; [exact Hw|]. intros n Hn. unfold compose.
    match goal with |- context [if ?b then _ else _] => destruct b end; [done|apply otherFlowNode_wf].
Qed.

Section Sums.
Context (localeCompare : jsstr → jsstr → Z).

Lemma prepare_ok rows metric stages ctx limit mode labeler :
  Forall (path_ok stages) (preparePaths localeCompare rows metric stages ctx limit mode labeler).
Proof.
  unfold preparePaths. apply Forall_forall. intros p Hp.
  apply list_elem_of_omap in Hp as (row & _ & Hr).
  apply bind_Some in Hr as (q & Hq & [= <-]).
  eapply applyTopNodeLimit_ok; [apply flowPath_ok|exact Hq].
Qed.

(** When overflowing nodes are aggregated every row has its path. *)
Lemma prepare_aggregate rows metric stages ctx limit labeler f :
  zsum (fun p => f (metrics p)) (preparePaths localeCompare rows metric stages ctx limit (Some OAggregate) labeler)
  = zsum (fun row => f (rowMetrics row)) rows.
Proof.
  unfold preparePaths. set (sets := buildTopNodeSets _ _ _ _ _ _). clearbody sets.
  change (default OAggregate (Some OAggregate)) with OAggregate.
  induction rows as [|row rows IH]; [done|]. cbn [omap list_omap].
  assert (∃ q, applyTopNodeLimit (flowPathForStages row stages ctx) sets OAggregate labeler = Some q) as [q Hq].
  { unfold applyTopNodeLimit. destruct sets; [destruct (negb _)|]; eauto. }
  rewrite Hq. cbn [mbind option_bind]. unfold zsum in *. cbn [foldr metrics].
  f_equal. exact IH.
Qed.

(** ** Node values *)

Definition hits (i : jsstr) (l : list FlowPathNode) : Z :=
  zsum (fun n => if decide (id n = i) then 1%Z else 0%Z) l.

Lemma hits_absent i l : i ∉ id <$> l → hits i l = 0%Z.
Proof.
  unfold hits. induction l as [|n l IH]; intros H; [done|]. rewrite fmap_cons, not_elem_of_cons in H.
  unfold zsum in *. simpl. rewrite decide_False by (intros E; naive_solver). rewrite IH; [done|naive_solver].
Qed.

Lemma hits_NoDup i l : NoDup (id <$> l) → hits i l = if decide (i ∈ id <$> l) then 1%Z else 0%Z.
Proof.
  induction l as [|n l IH]; intros H.
  - by rewrite decide_False by set_solver.
  - rewrite fmap_cons in *. apply NoDup_cons in H as [Hn Hd]. specialize (IH Hd).
    unfold hits, zsum in *. simpl. destruct (decide (id n = i)) as [E|E].
    + subst i. rewrite decide_True by constructor.
      pose proof (hits_absent (id n) l Hn) as H0. unfold hits, zsum in H0. lia.
    + rewrite IH. destruct (decide (i ∈ id <$> l)); [rewrite decide_True by (by constructor)|rewrite decide_False by set_solver]; lia.
Qed.

Lemma path_ids_NoDup stages p : NoDup stages → path_ok stages p → NoDup (id <$> path p).
Proof.
  intros Hd [Hk Hw]. rewrite <- Hk in Hd. clear Hk.
  induction (path p) as [|n l IH]; [constructor|]. rewrite fmap_cons in *.
  apply NoDup_cons in Hd as [Hn Hd]. apply Forall_cons in Hw as [Hwn Hw].
  apply NoDup_cons. split; [|by apply IH]. intros Hin. apply Hn.
  apply list_elem_of_fmap in Hin as (n' & E & Hn'). apply list_elem_of_fmap. exists n'. split; [|done].
  apply wf_node_kind; [done| |done]. rewrite Forall_forall in Hw. by apply Hw.
Qed.

Definition value_of (nodes : list (jsstr * DashboardFlowNode)) (i : jsstr) : Z :=
  from_option n_value 0%Z (mget i nodes).

Lemma addNode_value nodes n ms metric ck i :
  value_of (addNode nodes n ms metric ck) i
  = (value_of nodes i + (if decide (id n = i) then metricValue ms metric else 0))%Z.
Proof.
  unfold value_of, addNode. rewrite mget_mset. case_decide as E; [subst i|lia].
  destruct (mget (id n) nodes); simpl; lia.
Qed.

Lemma foldl_addNode_value l nodes ms metric ck i :
  value_of (foldl (fun nodes n => addNode nodes n ms metric ck) nodes l) i
  = (value_of nodes i + hits i l * metricValue ms metric)%Z.
Proof.
  revert nodes. induction l as [|n l IH]; intros nodes; simpl; [unfold hits, zsum; simpl; lia|].
  rewrite IH, addNode_value. unfold hits, zsum. simpl. case_decide; lia.
Qed.

Lemma addPathNodes_value metric nodes p i :
  value_of (addPathNodes metric nodes p) i
  = (value_of nodes i + hits i (path p) * metricValue (metrics p) metric)%Z.
Proof.
  unfold addPathNodes. destruct (path p) as [|root l] eqn:E.
  - unfold hits, zsum. simpl. lia.
  - apply foldl_addNode_value.
Qed.

Lemma nodes_value metric prepared nodes i :
  value_of (foldl (addPathNodes metric) nodes prepared) i
  = (value_of nodes i + zsum (fun p => hits i (path p) * metricValue (metrics p) metric) prepared)%Z.
Proof.
  revert nodes. induction prepared as [|p prepared IH]; intros nodes; simpl; [unfold zsum; simpl; lia|].
  rewrite IH, addPathNodes_value. unfold zsum. simpl. lia.
Qed.

(** ** Link values *)

Definition link_sum (P : jsstr → jsstr → bool) (links : list DashboardFlowLink) : Z :=
  zsum (fun l => if P (l_source l) (l_target l) then l_value l else 0%Z) links.

(** Every entry is filed under its own key, and sources hold no NUL, so that
    keys of different pairs differ. *)
Definition links_ok (links : list (jsstr * DashboardFlowLink)) : Prop :=
  ∀ k l, (k, l) ∈ links → k = linkStableKey l ∧ 0%N ∉ l_source l.

Lemma elem_of_mset {V} (k : jsstr) (v : V) m k' v' :
  (k', v') ∈ mset k v m → (k', v') = (k, v) ∨ (k', v') ∈ m.
Proof.
  induction m as [|[j w] m IH]; simpl.
  - intros H%list_elem_of_singleton. by left.
  - case_decide as E.
    + subst j. intros [H|H]%elem_of_cons; [by left|]. right. by constructor.
    + intros [H|H]%elem_of_cons; [right; rewrite H; constructor|].
      destruct (IH H); [by left|]. right. by constructor.
Qed.

Lemma addLink_previous links s t :
  links_ok links → 0%N ∉ id s → ∀ l, mget (pathLinkKey s t) links = Some l →
  l_source l = id s ∧ l_target l = id t.
Proof.
  intros Hok Hs l Hl. apply mget_Some_elem, Hok in Hl as [E Hn].
  unfold pathLinkKey, linkStableKey in E. symmetry in E. by apply (app_sep_inj 0%N) in E as [-> ->].
Qed.

Lemma addLink_sum P links s t ms metric ck :
  links_ok links → 0%N ∉ id s →
  link_sum P (mvalues (addLink links s t ms metric ck))
    = (link_sum P (mvalues links) + (if P (id s) (id t) then metricValue ms metric else 0))%Z
  ∧ links_ok (addLink links s t ms metric ck).
Proof.
  intros Hok Hs. pose proof (addLink_previous links s t Hok Hs) as Hprev.
  unfold link_sum, addLink. rewrite zsum_mset.
  destruct (mget (pathLinkKey s t) links) as [l|] eqn:E; cbn [default from_option l_source l_target l_value].
  - destruct (Hprev l eq_refl) as [E1 E2]. cbn. rewrite E1, E2. split; [destruct (P _ _); lia|].
    intros k x Hin. apply elem_of_mset in Hin as [[= -> ->]|Hin]; [|by apply Hok].
    unfold linkStableKey. simpl. by rewrite ?E1, ?E2.
  - cbn. split; [destruct (P _ _); lia|].
    intros k x Hin. apply elem_of_mset in Hin as [[= -> ->]|Hin]; [done|by apply Hok].
Qed.

Definition pair_hits (P : jsstr → jsstr → bool) (l : list FlowPathNode) : Z :=
  zsum (fun st : FlowPathNode * FlowPathNode => if P (id st.1) (id st.2) then 1%Z else 0%Z) (pairs l).

Lemma pairs_sources {A} (l : list A) st : st ∈ pairs l → st.1 ∈ l ∧ st.2 ∈ l.
Proof.
  induction l as [|x l IH]; simpl; [by intros ?%not_elem_of_nil|].
  destruct l as [|y l]; [by intros ?%not_elem_of_nil|].
  intros [->|H]%elem_of_cons; [set_solver|]. destruct (IH H). set_solver.
Qed.

Lemma foldl_addLink_sum P ps links ms metric ck :
  links_ok links → Forall (fun st : FlowPathNode * FlowPathNode => 0%N ∉ id st.1) ps →
  let links' := foldl (fun links st => addLink links st.1 st.2 ms metric ck) links ps in
  link_sum P (mvalues links')
    = (link_sum P (mvalues links)
       + zsum (fun st : FlowPathNode * FlowPathNode => if P (id st.1) (id st.2) then 1 else 0) ps
         * metricValue ms metric)%Z
  ∧ links_ok links'.
Proof.
  intros Hok Hs. revert links Hok. induction Hs as [|st ps Hst _ IH]; intros links Hok; simpl.
  - split; [lia|done].
  - destruct (addLink_sum P links st.1 st.2 ms metric ck Hok Hst) as [E Hok'].
    destruct (IH _ Hok') as [E' Hok'']. split; [|done]. rewrite E', E.
    unfold zsum. destruct (P (id st.1) (id st.2)); lia.
Qed.

(** No identifier of a path holds a NUL. *)
Definition nul_free (p : PreparedFlowPath) : Prop := Forall (fun n => 0%N ∉ id n) (path p).

Lemma addPathLinks_sum P metric links p :
  links_ok links → nul_free p →
  link_sum P (mvalues (addPathLinks metric links p))
    = (link_sum P (mvalues links) + pair_hits P (path p) * metricValue (metrics p) metric)%Z
  ∧ links_ok (addPathLinks metric links p).
Proof.
  intros Hok Hn. unfold addPathLinks, pair_hits.
  assert (Forall (fun st : FlowPathNode * FlowPathNode => 0%N ∉ id st.1) (pairs (path p))) as Hp.
  { apply Forall_forall. intros st Hst. apply pairs_sources in Hst as [H _].
    unfold nul_free in Hn. rewrite Forall_forall in Hn. by apply Hn. }
  destruct (path p) as [|root l] eqn:E; [split; [simpl; lia|done]|].
  by apply (foldl_addLink_sum P (pairs (root :: l)) links (metrics p) metric (id root)).
Qed.

Lemma links_sum P metric prepared links :
  links_ok links → Forall nul_free prepared →
  link_sum P (mvalues (foldl (addPathLinks metric) links prepared))
    = (link_sum P (mvalues links)
       + zsum (fun p => pair_hits P (path p) * metricValue (metrics p) metric) prepared)%Z.
Proof.
  intros Hok Hn. revert links Hok. induction Hn as [|p prepared Hp _ IH]; intros links Hok; simpl; [lia|].
  destruct (addPathLinks_sum P metric links p Hok Hp) as [E Hok']. rewrite (IH _ Hok'), E. unfold zsum. lia.
Qed.

Definition ind (b : bool) : Z := if b then 1%Z else 0%Z.

Lemma pair_hits_source i l :
  (pair_hits (fun s _ => bool_decide (s = i)) l
   + from_option (fun n => ind (bool_decide (id n = i))) 0 (last l))%Z = hits i l.
Proof.
  unfold pair_hits, hits, ind, zsum. induction l as [|x l IH]; [done|]. destruct l as [|y l].
  - simpl. destruct (decide (id x = i)); case_bool_decide; try done; lia.
  - cbn [pairs foldr last fst snd] in *. rewrite <- IH.
    destruct (decide (id x = i)); case_bool_decide; try done; lia.
Qed.

Lemma pair_hits_target i l :
  (pair_hits (fun _ t => bool_decide (t = i)) l
   + from_option (fun n => ind (bool_decide (id n = i))) 0 (head l))%Z = hits i l.
Proof.
  unfold pair_hits, hits, ind, zsum. induction l as [|x l IH]; [done|]. destruct l as [|y l].
  - simpl. destruct (decide (id x = i)); case_bool_decide; try done; lia.
  - cbn [pairs foldr head fst snd from_option] in *. rewrite <- IH. clear IH.
    destruct (decide (id x = i)); case_bool_decide; case_bool_decide; try done; lia.
Qed.

(** ** The node map *)

Record nodes_ok (stages : list FlowNodeKind) (nodes : list (jsstr * DashboardFlowNode)) : Prop := {
  no_keys : NoDup (mkeys nodes);
  no_entries : ∀ k n, (k, n) ∈ nodes →
    k = n_id n ∧ n_kind n ∈ stages ∧ wf_node (mkNode (n_id n) (n_label n) (n_kind n))
}.

Lemma wf_node_label i l l' k : wf_node (mkNode i l k) → wf_node (mkNode i l' k).
Proof. done. Qed.

Lemma addNode_ok stages nodes n ms metric ck :
  nodes_ok stages nodes → wf_node n → kind n ∈ stages → nodes_ok stages (addNode nodes n ms metric ck).
Proof.
  intros [Hd He] Hw Hk. split; [by apply mkeys_mset_NoDup|].
  intros k x Hin. apply elem_of_mset in Hin as [[= -> ->]|Hin]; [|by apply He]. cbn.
  destruct (mget (id n) nodes) as [y|] eqn:E; cbn.
  - apply mget_Some_elem, He in E as (Ei & ? & ?). done.
  - split_and!; [done..|]. by destruct n.
Qed.

Lemma foldl_addNode_ok stages l nodes ms metric ck :
  nodes_ok stages nodes → Forall (fun n => wf_node n ∧ kind n ∈ stages) l →
  nodes_ok stages (foldl (fun nodes n => addNode nodes n ms metric ck) nodes l).
Proof.
  intros Hok Hl. revert nodes Hok. induction Hl as [|n l [Hw Hk] _ IH]; intros nodes Hok; simpl; [done|].
  apply IH. by apply addNode_ok.
Qed.

Lemma path_nodes_in stages p : path_ok stages p → Forall (fun n => wf_node n ∧ kind n ∈ stages) (path p).
Proof.
  intros [Hk Hw]. rewrite Forall_forall in Hw |- *. intros n Hn. split; [by apply Hw|].
  rewrite <- Hk. apply list_elem_of_fmap. eauto.
Qed.

Lemma nodes_map_ok stages metric prepared nodes :
  nodes_ok stages nodes → Forall (path_ok stages) prepared →
  nodes_ok stages (foldl (addPathNodes metric) nodes prepared).
Proof.
  intros Hok Hp. revert nodes Hok. induction Hp as [|p prepared Hp _ IH]; intros nodes Hok; simpl; [done|].
  apply IH. unfold addPathNodes. destruct (path p) as [|root l] eqn:E; [done|].
  apply foldl_addNode_ok; [done|]. rewrite <- E. by apply path_nodes_in.
Qed.

Lemma nodes_ok_nil stages : nodes_ok stages [].
Proof. split; [constructor|]. intros k n H. by apply not_elem_of_nil in H. Qed.

Lemma links_ok_nil : links_ok [].
Proof. intros k l H. by apply not_elem_of_nil in H. Qed.

(** The kind sums: entries of an identifier all have its kind. *)
Definition kind_sum (k : FlowNodeKind) (nodes : list DashboardFlowNode) : Z :=
  zsum (fun n => if decide (n_kind n = k) then n_value n else 0%Z) nodes.

Definition kind_hits (k : FlowNodeKind) (l : list FlowPathNode) : Z :=
  zsum (fun n => if decide (kind n = k) then 1%Z else 0%Z) l.

Lemma addNode_kind_sum stages k nodes n ms metric ck :
  nodes_ok stages nodes → wf_node n →
  kind_sum k (mvalues (addNode nodes n ms metric ck))
  = (kind_sum k (mvalues nodes) + (if decide (kind n = k) then metricValue ms metric else 0))%Z.
Proof.
  intros [_ He] Hw. unfold kind_sum, addNode. rewrite zsum_mset.
  destruct (mget (id n) nodes) as [y|] eqn:E; cbn.
  - apply mget_Some_elem, He in E as (Ei & _ & Hy).
    assert (n_kind y = kind n) as -> by (apply (wf_node_kind _ n Hy Hw); done).
    case_decide; lia.
  - case_decide; lia.
Qed.

Lemma foldl_addNode_kind_sum stages k l nodes ms metric ck :
  nodes_ok stages nodes → Forall (fun n => wf_node n ∧ kind n ∈ stages) l →
  kind_sum k (mvalues (foldl (fun nodes n => addNode nodes n ms metric ck) nodes l))
  = (kind_sum k (mvalues nodes) + kind_hits k l * metricValue ms metric)%Z.
Proof.
  intros Hok Hl. revert nodes Hok. induction Hl as [|n l [Hw Hk] _ IH]; intros nodes Hok; simpl.
  - unfold kind_hits, zsum. simpl. lia.
  - rewrite IH by (by apply addNode_ok). rewrite (addNode_kind_sum stages) by done.
    unfold kind_hits, zsum. simpl. case_decide; lia.
Qed.

Lemma nodes_kind_sum stages k metric prepared nodes :
  nodes_ok stages nodes → Forall (path_ok stages) prepared →
  kind_sum k (mvalues (foldl (addPathNodes metric) nodes prepared))
  = (kind_sum k (mvalues nodes)
     + zsum (fun p => kind_hits k (path p) * metricValue (metrics p) metric) prepared)%Z.
Proof.
  intros Hok Hp. revert nodes Hok. induction Hp as [|p prepared Hp Hall IH]; intros nodes Hok; simpl; [lia|].
  assert (nodes_ok stages (addPathNodes metric nodes p)) as Hok'
    by (apply (nodes_map_ok stages metric [p]); [done|by constructor]).
  rewrite (IH _ Hok'). unfold addPathNodes. destruct (path p) as [|root l] eqn:E.
  - unfold kind_hits, zsum. simpl. rewrite ?E. simpl. lia.
  - rewrite (foldl_addNode_kind_sum stages); [|done|rewrite <- E; by apply path_nodes_in].
    unfold zsum. simpl. rewrite ?E. lia.
Qed.

Lemma kind_hits_stages k stages p :
  NoDup stages → path_ok stages p → kind_hits k (path p) = if decide (k ∈ stages) then 1%Z else 0%Z.
Proof.
  intros Hd [Hk _]. subst stages. unfold kind_hits. induction (path p) as [|n l IH].
  - by rewrite decide_False by set_solver.
  - rewrite fmap_cons in *. apply NoDup_cons in Hd as [Hn Hd]. specialize (IH Hd).
    unfold zsum in *. cbn [foldr]. rewrite IH. destruct (decide (kind n = k)) as [E|E].
    + subst k. rewrite (decide_False (P := kind n ∈ kind <$> l)) by done.
      rewrite decide_True by constructor. lia.
    + destruct (decide (k ∈ kind <$> l)); [rewrite decide_True by (by constructor)|rewrite decide_False by set_solver]; lia.
Qed.

(** ** The graph that is shown *)

(** What masking and highlighting make of one node and one link *)
Definition view_node (mask : bool) (h : option FlowHighlightSets) (n : DashboardFlowNode) : DashboardFlowNode :=
  let n := if mask then maskNode n else n in
  match h with Some h => highlightNode h n | None => n end.

Definition view_link (masked : option (list (jsstr * jsstr))) (h : option FlowHighlightSets)
    (l : DashboardFlowLink) : DashboardFlowLink :=
  let l := match masked with Some m => maskLink m l | None => l end in
  match h with Some h => highlightLink h l | None => l end.

Definition masked_labels (nodes : list (jsstr * DashboardFlowNode)) : list (jsstr * jsstr) :=
  foldl (fun m n => if isMaskedNode n then mset (n_id n) (maskFlowLabel (n_label n)) m else m) [] (mvalues nodes).

Lemma mvalues_map {V W} (f : V → W) (m : list (jsstr * V)) :
  mvalues (prod_map (fun k => k) f <$> m) = f <$> mvalues m.
Proof. unfold mvalues. by rewrite <- !list_fmap_compose. Qed.

Lemma highlight_values nodes links h :
  mvalues (applyFlowHighlights nodes links h).1
    = (match h with Some h => highlightNode h | None => fun n => n end) <$> mvalues nodes
  ∧ mvalues (applyFlowHighlights nodes links h).2
    = (match h with Some h => highlightLink h | None => fun l => l end) <$> mvalues links.
Proof.
  destruct h as [h|]; simpl; [by rewrite !mvalues_map|]. by rewrite !list_fmap_id.
Qed.

Lemma graph_view rows metric role ctx o :
  let stages := resolveVisibleStages role (visibleStages o) in
  let prepared := preparePaths localeCompare rows metric stages ctx (topNodeLimit o) (overflowMode o) (otherNodeLabel o) in
  let nodes := foldl (addPathNodes metric) [] prepared in
  let links := foldl (addPathLinks metric) [] prepared in
  let h := buildFlowHighlightSets prepared (activeNode o) (activeLink o) stages in
  let g := buildFlowGraph localeCompare rows metric role ctx o in
  Permutation (g_nodes g) (view_node (maskSensitive o) h <$> mvalues nodes)
  ∧ ∃ total, Permutation (g_links g)
      ((fun l => set_share total (view_link (if maskSensitive o then Some (masked_labels nodes) else None) h l))
         <$> mvalues links).
Proof.
  intros stages prepared nodes links h g. unfold g, buildFlowGraph. fold stages. fold prepared. fold nodes links h.
  destruct (maskSensitive o).
  - unfold maskFlowGraphLabels. fold (masked_labels nodes).
    set (nodes1 := _ <$> nodes). set (links1 := _ <$> links).
    destruct (highlight_values nodes1 links1 h) as [E1 E2].
    destruct (applyFlowHighlights nodes1 links1 h) as [nodes2 links2]. simpl in E1, E2. cbn [g_nodes g_links].
    set (total := foldl _ 0%Z _). clearbody total. rewrite sort_by_perm, E1. unfold nodes1. rewrite mvalues_map, <- list_fmap_compose.
    split; [by destruct h|]. exists total. rewrite sort_by_perm, E2. unfold links1.
    rewrite mvalues_map, <- !list_fmap_compose. by destruct h.
  - destruct (highlight_values nodes links h) as [E1 E2].
    destruct (applyFlowHighlights nodes links h) as [nodes2 links2]. simpl in E1, E2. cbn [g_nodes g_links].
    set (total := foldl _ 0%Z _). clearbody total. rewrite sort_by_perm, E1. split; [by destruct h|]. exists total.
    rewrite sort_by_perm, E2, <- list_fmap_compose. by destruct h.
Qed.

(** Masking, highlighting and shares keep identity and value. *)
Lemma graph_shape rows metric role ctx o :
  let stages := resolveVisibleStages role (visibleStages o) in
  let prepared := preparePaths localeCompare rows metric stages ctx (topNodeLimit o) (overflowMode o) (otherNodeLabel o) in
  let g := buildFlowGraph localeCompare rows metric role ctx o in
  ∃ F G,
    (∀ n, n_id (F n) = n_id n ∧ n_kind (F n) = n_kind n ∧ n_value (F n) = n_value n)
    ∧ (∀ l, l_source (G l) = l_source l ∧ l_target (G l) = l_target l ∧ l_value (G l) = l_value l)
    ∧ Permutation (g_nodes g) (F <$> mvalues (foldl (addPathNodes metric) [] prepared))
    ∧ Permutation (g_links g) (G <$> mvalues (foldl (addPathLinks metric) [] prepared)).
Proof.
  intros stages prepared g. destruct (graph_view rows metric role ctx o) as [Pn [total Pl]].
  do 2 eexists. split_and!; [| |exact Pn|exact Pl].
  - intros n. unfold view_node, maskNode. destruct (maskSensitive o), (isMaskedNode n), (buildFlowHighlightSets _ _ _ _); done.
  - intros l. unfold view_link. destruct (maskSensitive o), (buildFlowHighlightSets _ _ _ _); done.
Qed.

Lemma stages_NoDup role vs : NoDup (resolveVisibleStages role vs).
Proof.
  assert (NoDup (getFlowStages role)) as H by (destruct role; by refine (bool_decide_unpack _ _); vm_compute).
  unfold resolveVisibleStages. destruct vs as [vs|]; [|done].
  case_bool_decide; [by apply NoDup_filter|done].
Qed.

(** A path's contribution to the links that leave (enter) a node of a kind that
    is not the last (first) is its contribution to the node. *)
Lemma pair_hits_inner stages p i k :
  path_ok stages p → (∀ n, n ∈ path p → id n = i → kind n = k) →
  (last stages ≠ Some k → pair_hits (fun s _ => bool_decide (s = i)) (path p) = hits i (path p))
  ∧ (head stages ≠ Some k → pair_hits (fun _ t => bool_decide (t = i)) (path p) = hits i (path p)).
Proof.
  intros [Hk _] Hi. subst stages. split; intros Hne.
  - rewrite <- pair_hits_source, fmap_last in *. destruct (last (path p)) as [n|] eqn:E; simpl; [|lia].
    rewrite bool_decide_false; [simpl; lia|]. intros En. apply Hne. simpl. f_equal. apply Hi; [|done].
    apply last_Some in E as [l ->]. set_solver.
  - rewrite <- pair_hits_target. destruct (path p) as [|n l]; simpl; [lia|].
    rewrite bool_decide_false; [simpl; lia|]. intros En. apply Hne. simpl. f_equal. apply Hi; [constructor|done].
Qed.

(** No node identifier of a row holds a NUL, the separator of link keys. *)
Definition row_nul_free (ctx : option (Z → jsstr)) (row : FlowQuotaDataItem) : Prop :=
  ∀ k, 0%N ∉ id (NODE_BUILDERS k row ctx).

Lemma other_nul_free k labeler : 0%N ∉ id (otherFlowNode k labeler).
Proof. destruct k; vm_compute; set_solver. Qed.

Lemma prepare_nul_free rows metric stages ctx limit mode labeler :
  Forall (row_nul_free ctx) rows →
  Forall nul_free (preparePaths localeCompare rows metric stages ctx limit mode labeler).
Proof.
  intros Hr. unfold preparePaths. apply Forall_forall. intros p Hp.
  apply list_elem_of_omap in Hp as (row & Hrow & Hp). apply bind_Some in Hp as (q & Hq & [= <-]).
  rewrite Forall_forall in Hr. specialize (Hr row Hrow). unfold nul_free. cbn [path].
  assert (Forall (fun n => 0%N ∉ id n) (flowPathForStages row stages ctx)) as Hf.
  { apply Forall_fmap, Forall_true. intros k. apply Hr. }
  unfold applyTopNodeLimit in Hq. destruct (buildTopNodeSets _ _ _ _ _ _) as [sets|]; [|by simplify_eq].
  destruct (negb _); [by simplify_eq|]. destruct (default _ _); [|done]. injection Hq as <-.
  apply Forall_fmap. eapply Forall_impl; [exact Hf|]. intros n Hn. unfold compose.
  match goal with |- context [if ?b then _ else _] => destruct b end; [done|apply other_nul_free].
Qed.

Lemma link_sum_shown P G links shown :
  (∀ l, l_source (G l) = l_source l ∧ l_target (G l) = l_target l ∧ l_value (G l) = l_value l) →
  Permutation shown (G <$> links) → link_sum P shown = link_sum P links.
Proof.
  intros HG Hp. unfold link_sum. rewrite (zsum_perm _ _ _ Hp), zsum_fmap. apply zsum_ext.
  intros l _. by destruct (HG l) as (-> & -> & ->).
Qed.

Lemma link_sum_nil P : link_sum P (mvalues ([] : list (jsstr * DashboardFlowLink))) = 0%Z.
Proof. done. Qed.

(** The paths that a node lies on *)
Definition on_path (i : jsstr) (metric : FlowMetric) (p : PreparedFlowPath) : Z :=
  if decide (i ∈ id <$> path p) then metricValue (metrics p) metric else 0%Z.

Lemma on_path_hits stages i metric p :
  NoDup stages → path_ok stages p → on_path i metric p = (hits i (path p) * metricValue (metrics p) metric)%Z.
Proof.
  intros Hd Hp. unfold on_path. rewrite hits_NoDup by (by apply (path_ids_NoDup stages)).
  case_decide; lia.
Qed.

(** The links on one side of a node add up to the node. *)
Lemma links_of_node P stages metric prepared i :
  NoDup stages → Forall (path_ok stages) prepared → Forall nul_free prepared →
  (∀ p, p ∈ prepared → pair_hits P (path p) = hits i (path p)) →
  link_sum P (mvalues (foldl (addPathLinks metric) [] prepared)) = zsum (on_path i metric) prepared.
Proof.
  intros Hd Hp Hn H. rewrite links_sum by (done || apply links_ok_nil). rewrite link_sum_nil, Z.add_0_l.
  apply zsum_ext. intros p Hin. rewrite (on_path_hits stages); [by rewrite H|done|].
  rewrite Forall_forall in Hp. by apply Hp.
Qed.

Lemma graph_node rows metric role ctx o n :
  let stages := resolveVisibleStages role (visibleStages o) in
  let prepared := preparePaths localeCompare rows metric stages ctx (topNodeLimit o) (overflowMode o) (otherNodeLabel o) in
  n ∈ g_nodes (buildFlowGraph localeCompare rows metric role ctx o) →
  n_value n = zsum (on_path (n_id n) metric) prepared
  ∧ ∀ p, p ∈ prepared → ∀ x, x ∈ path p → id x = n_id n → kind x = n_kind n.
Proof.
  intros stages prepared Hn.
  destruct (graph_shape rows metric role ctx o) as (F & G & HF & HG & Pn & Pl). fold stages prepared in Pn.
  assert (NoDup stages) as Hd by apply stages_NoDup.
  assert (Forall (path_ok stages) prepared) as Hp by apply prepare_ok.
  rewrite Pn in Hn. apply list_elem_of_fmap in Hn as (m & -> & Hm).
  destruct (HF m) as (-> & -> & ->). apply elem_of_mvalues in Hm as [k Hm].
  destruct (nodes_map_ok stages metric prepared [] (nodes_ok_nil _) Hp) as [Hkeys He].
  destruct (He k m Hm) as (-> & _ & Hw). apply elem_mget in Hm; [|done].
  rewrite Forall_forall in Hp. split.
  - pose proof (nodes_value metric prepared [] (n_id m)) as Hv. unfold value_of in Hv. rewrite Hm in Hv.
    simpl in Hv. rewrite Hv. apply zsum_ext. intros p Hin. by rewrite (on_path_hits stages) by auto.
  - intros p Hin x Hx E. destruct (Hp p Hin) as [_ Hwp]. rewrite Forall_forall in Hwp.
    apply (wf_node_kind x (mkNode (n_id m) (n_label m) (n_kind m))); auto.
Qed.

(** C14. Flow is conserved: a node's value is the sum of the metric over the
    prepared paths it lies on, the links that leave it add up to its value unless
    it is in the last stage, and the links that enter it do unless it is in the
    first; when no identifier holds the separator of link keys. *)
Theorem flow_conservation rows metric role ctx o :
  Forall (row_nul_free ctx) rows →
  let stages := resolveVisibleStages role (visibleStages o) in
  let prepared := preparePaths localeCompare rows metric stages ctx (topNodeLimit o) (overflowMode o) (otherNodeLabel o) in
  let g := buildFlowGraph localeCompare rows metric role ctx o in
  ∀ n, n ∈ g_nodes g →
    n_value n = zsum (on_path (n_id n) metric) prepared
    ∧ (last stages ≠ Some (n_kind n) → link_sum (fun s _ => bool_decide (s = n_id n)) (g_links g) = n_value n)
    ∧ (head stages ≠ Some (n_kind n) → link_sum (fun _ t => bool_decide (t = n_id n)) (g_links g) = n_value n).
Proof.
  intros Hr stages prepared g n Hn. destruct (graph_node rows metric role ctx o n Hn) as [Hv Hk].
  fold stages prepared in Hv, Hk. split; [done|].
  destruct (graph_shape rows metric role ctx o) as (F & G & _ & HG & _ & Pl). fold stages prepared g in Pl.
  assert (Forall (path_ok stages) prepared) as Hp by apply prepare_ok.
  rewrite !(link_sum_shown _ _ _ _ HG Pl), Hv.
  split; intros Hs;
    (apply (links_of_node _ stages); [apply stages_NoDup|done|by apply prepare_nul_free|]);
    rewrite Forall_forall in Hp; intros p Hin; by apply (pair_hits_inner stages p (n_id n) (n_kind n)); eauto.
Qed.

Lemma kind_sum_shown k F nodes shown :
  (∀ n, n_id (F n) = n_id n ∧ n_kind (F n) = n_kind n ∧ n_value (F n) = n_value n) →
  Permutation shown (F <$> nodes) → kind_sum k shown = kind_sum k nodes.
Proof.
  intros HF Hp. unfold kind_sum. rewrite (zsum_perm _ _ _ Hp), zsum_fmap. apply zsum_ext.
  intros n _. by destruct (HF n) as (_ & -> & ->).
Qed.

Lemma kind_sum_graph rows metric role ctx o k :
  let stages := resolveVisibleStages role (visibleStages o) in
  k ∈ stages →
  kind_sum k (g_nodes (buildFlowGraph localeCompare rows metric role ctx o))
  = zsum (fun p => metricValue (metrics p) metric)
      (preparePaths localeCompare rows metric stages ctx (topNodeLimit o) (overflowMode o) (otherNodeLabel o)).
Proof.
  intros stages Hk. destruct (graph_shape rows metric role ctx o) as (F & G & HF & _ & Pn & _).
  fold stages in Pn. rewrite (kind_sum_shown _ _ _ _ HF Pn).
  pose proof (prepare_ok rows metric stages ctx (topNodeLimit o) (overflowMode o) (otherNodeLabel o)) as Hp.
  rewrite (nodes_kind_sum stages) by (done || apply nodes_ok_nil).
  unfold kind_sum at 1. cbn [mvalues fmap list_fmap zsum foldr]. rewrite Z.add_0_l. apply zsum_ext.
  intros p Hin. rewrite Forall_forall in Hp.
  rewrite (kind_hits_stages k stages) by (apply stages_NoDup || by apply Hp).
  rewrite decide_True by done. lia.
Qed.

Definition summaryValue (s : FlowSummary) (metric : FlowMetric) : Z :=
  match metric with MQuota => s_quota s | MTokens => s_tokens s | MRequests => s_requests s end.

Lemma buildSummary_value rows metric :
  summaryValue (buildSummary rows) metric = zsum (fun row => metricValue (rowMetrics row) metric) rows.
Proof.
  unfold buildSummary. enough (∀ s, summaryValue (foldl (fun s row =>
    mkSummary (s_quota s + m_quota (rowMetrics row)) (s_tokens s + m_tokens (rowMetrics row))
      (s_requests s + m_requests (rowMetrics row))) s rows) metric
    = (summaryValue s metric + zsum (fun row => metricValue (rowMetrics row) metric) rows)%Z) as E.
  { rewrite E. by destruct metric. }
  induction rows as [|row rows IH]; intros s; [unfold zsum; simpl; lia|].
  cbn [foldl]. rewrite IH. unfold zsum. cbn [foldr]. destruct metric; simpl; lia.
Qed.

(** Hiding keeps some of the paths. *)
Lemma prepare_hide_le rows metric stages ctx limit mode labeler f :
  (∀ row, row ∈ rows → 0 <= f (rowMetrics row))%Z →
  (zsum (fun p => f (metrics p)) (preparePaths localeCompare rows metric stages ctx limit mode labeler)
   <= zsum (fun row => f (rowMetrics row)) rows)%Z.
Proof.
  unfold preparePaths. set (sets := buildTopNodeSets _ _ _ _ _ _). clearbody sets.
  induction rows as [|row rows IH]; intros Hf; [done|].
  assert (0 <= f (rowMetrics row))%Z as H0 by (apply Hf; constructor).
  assert (∀ row, row ∈ rows → 0 <= f (rowMetrics row))%Z as Hf' by (intros r Hr; apply Hf; by constructor).
  specialize (IH Hf'). revert IH. set (rest := omap _ rows). intros IH.
  match goal with |- context [omap ?g (row :: rows)] =>
    change (omap g (row :: rows)) with (match g row with Some y => y :: rest | None => rest end) end.
  clearbody rest. cbn beta.
  destruct (applyTopNodeLimit (flowPathForStages row stages ctx) sets (default OAggregate mode) labeler); cbn [mbind option_bind]; unfold zsum in *; cbn [foldr metrics]; lia.
Qed.

(** Every stage of the graph accounts for the whole: when overflowing nodes
    are aggregated, the values of each visible stage's nodes add up to the
    summary's total of the metric over the filtered rows; in either mode they
    add up to at most that total, when metrics are non-negative, and all stages
    to the same. *)
Theorem flow_stage_totals rows metric o k :
  let stages := resolveVisibleStages (default RoleUser (o_role o)) (visibleStages o) in
  let data := buildDashboardFlowData localeCompare rows metric o in
  let g := flow data in
  k ∈ stages →
  (overflowMode o ≠ Some OHide → kind_sum k (g_nodes g) = summaryValue (summary data) metric)
  ∧ ((∀ row, row ∈ rows → 0 <= metricValue (rowMetrics row) metric)%Z →
     (kind_sum k (g_nodes g) <= summaryValue (summary data) metric)%Z)
  ∧ (∀ k', k' ∈ stages → kind_sum k' (g_nodes g) = kind_sum k (g_nodes g)).
Proof.
  intros stages. unfold buildDashboardFlowData. fold stages. cbv zeta. cbn [flow summary].
  set (users := filterRows rows (selectedUsers o)).
  set (kept := filterRowsByNodes users (selectedNodes o) stages (o_deletedTokenLabel o)).
  assert (∀ row, row ∈ kept → row ∈ rows) as Hsub.
  { assert (∀ row, row ∈ users → row ∈ rows) as Hu.
    { intros row. unfold users, filterRows. destruct (default [] (selectedUsers o)); [done|].
      rewrite list_elem_of_filter. tauto. }
    intros row. unfold kept, filterRowsByNodes.
    destruct (normalizeSelectedNodeFilters _ _); [apply Hu|]. rewrite list_elem_of_filter. intros [_ ?]. auto. }
  clearbody kept. intros Hk. rewrite buildSummary_value.
  rewrite (kind_sum_graph kept metric _ _ o k Hk). fold stages. split_and!.
  - intros Hm. rewrite <- (prepare_aggregate kept metric stages (o_deletedTokenLabel o) (topNodeLimit o)
      (otherNodeLabel o) (fun ms => metricValue ms metric)).
    destruct (overflowMode o) as [[]|]; done.
  - intros H0. apply (prepare_hide_le kept metric stages _ _ _ _ (fun ms => metricValue ms metric)). auto.
  - intros k' Hk'. by rewrite (kind_sum_graph kept metric _ _ o k' Hk').
Qed.

(** ** The ranking behind the limits *)

Definition rank_add (v : Z) (n : FlowPathNode) (st : list (jsstr * FlowNodeRank)) : list (jsstr * FlowNodeRank) :=
  let current := default (mkRank n 0) (mget (id n) st) in
  mset (id n) (mkRank (rank_node current) (rank_value current + v)) st.

Lemma mget_stageTotal v totals n k :
  mget k (stageTotal v totals n) = if decide (kind n = k) then rank_add v n <$> mget k totals else mget k totals.
Proof.
  unfold stageTotal. case_decide as E.
  - subst k. destruct (mget (kind n) totals) as [st|] eqn:E; [|by rewrite E]. by rewrite mget_mset_eq.
  - destruct (mget (kind n) totals) as [st|]; [|done]. by rewrite mget_mset_ne.
Qed.

Lemma mget_stageTotal_row v totals stages row ctx k :
  NoDup stages →
  mget k (foldl (stageTotal v) totals (flowPathForStages row stages ctx))
  = if decide (k ∈ stages) then rank_add v (NODE_BUILDERS k row ctx) <$> mget k totals else mget k totals.
Proof.
  intros Hd. revert totals. unfold flowPathForStages.
  induction Hd as [|j stages Hj Hd IH]; intros totals; [by rewrite decide_False by set_solver|].
  rewrite fmap_cons. cbn [foldl]. rewrite IH, mget_stageTotal.
  destruct (NODE_BUILDERS_wf j row ctx) as [Ej _]. rewrite Ej.
  destruct (decide (j = k)) as [->|Hne].
  - rewrite (decide_False (P := k ∈ stages)) by done. by rewrite decide_True by constructor.
  - destruct (decide (k ∈ stages)); [rewrite decide_True by (by constructor)|rewrite decide_False by set_solver]; done.
Qed.

Definition ranks (rows : list FlowQuotaDataItem) (metric : FlowMetric) (k : FlowNodeKind)
    (ctx : option (Z → jsstr)) : list (jsstr * FlowNodeRank) :=
  foldl (fun st row => rank_add (metricValue (rowMetrics row) metric) (NODE_BUILDERS k row ctx) st) [] rows.

Lemma mget_empty_totals (stages : list FlowNodeKind) k (totals : list (FlowNodeKind * list (jsstr * FlowNodeRank))) :
  mget k (foldl (fun totals stage => mset stage [] totals) totals stages)
  = if decide (k ∈ stages) then Some [] else mget k totals.
Proof.
  revert totals. induction stages as [|j stages IH]; intros totals; [by rewrite decide_False by set_solver|].
  cbn [foldl]. rewrite IH, mget_mset.
  destruct (decide (k ∈ stages)); [by rewrite decide_True by (by constructor)|].
  destruct (decide (j = k)) as [->|]; [by rewrite decide_True by constructor|by rewrite decide_False by set_solver].
Qed.

Lemma mget_stageTotals rows metric stages ctx k :
  NoDup stages → k ∈ stages → mget k (stageTotals rows metric stages ctx) = Some (ranks rows metric k ctx).
Proof.
  intros Hd Hk. unfold stageTotals, ranks.
  pose proof (mget_empty_totals stages k []) as E. rewrite decide_True in E by done.
  revert E. set (totals := foldl _ [] stages). generalize (@nil (jsstr * FlowNodeRank)).
  generalize totals. clear totals.
  induction rows as [|row rows IH]; intros totals st E; simpl; [done|].
  apply IH. rewrite mget_stageTotal_row, decide_True, E by done. done.
Qed.

(** The metric's total over the rows whose node of kind [k] is [i] *)
Definition node_total (rows : list FlowQuotaDataItem) (metric : FlowMetric) (k : FlowNodeKind)
    (ctx : option (Z → jsstr)) (i : jsstr) : Z :=
  zsum (fun row => if decide (id (NODE_BUILDERS k row ctx) = i) then metricValue (rowMetrics row) metric else 0%Z) rows.

Record ranks_ok (rows : list FlowQuotaDataItem) (metric : FlowMetric) (k : FlowNodeKind)
    (ctx : option (Z → jsstr)) (st : list (jsstr * FlowNodeRank)) : Prop := {
  rk_keys : NoDup (mkeys st);
  rk_dom : ∀ i, i ∈ mkeys st ↔ ∃ row, row ∈ rows ∧ id (NODE_BUILDERS k row ctx) = i;
  rk_entries : ∀ i r, mget i st = Some r → id (rank_node r) = i ∧ rank_value r = node_total rows metric k ctx i ∧ kind (rank_node r) = k
}.

Lemma node_total_snoc rows metric k ctx i row :
  node_total (rows ++ [row]) metric k ctx i
  = (node_total rows metric k ctx i
     + if decide (id (NODE_BUILDERS k row ctx) = i) then metricValue (rowMetrics row) metric else 0)%Z.
Proof. unfold node_total. rewrite zsum_app. unfold zsum at 2. cbn [foldr]. lia. Qed.

Lemma node_total_absent rows metric k ctx i :
  (¬ ∃ row, row ∈ rows ∧ id (NODE_BUILDERS k row ctx) = i) → node_total rows metric k ctx i = 0%Z.
Proof.
  intros H. unfold node_total.
  transitivity (zsum (fun _ : FlowQuotaDataItem => 0%Z) rows).
  - apply zsum_ext. intros row Hrow. rewrite decide_False; [done|]. eauto.
  - clear. induction rows; unfold zsum in *; simpl in *; done.
Qed.

Lemma ranks_spec rows metric k ctx : ranks_ok rows metric k ctx (ranks rows metric k ctx).
Proof.
  unfold ranks. induction rows as [|row rows IH] using rev_ind.
  - split; [constructor| |done]. intros i. simpl. split; [by intros ?%not_elem_of_nil|].
    intros (? & []%not_elem_of_nil & _).
  - rewrite foldl_snoc. set (st := foldl _ [] rows) in *. set (n := NODE_BUILDERS k row ctx).
    destruct IH as [Hk Hdom He]. unfold rank_add. split; [by apply mkeys_mset_NoDup| |].
    + intros i. rewrite elem_of_mkeys_mset, Hdom. split.
      * intros [->|(r & ? & ?)]; [exists row|exists r]; set_solver.
      * intros (r & [Hr| ->%list_elem_of_singleton]%elem_of_app & E); [right; eauto|by left].
    + intros i r. rewrite mget_mset, node_total_snoc. fold n. case_decide as E; [|intros Hr; destruct (He i r Hr) as (? & ? & ?); split_and!; [done|lia|done]].
      subst i. intros [= <-]. cbn. destruct (mget (id n) st) as [c|] eqn:Ec; cbn.
      * destruct (He _ _ Ec) as (-> & -> & ->). done.
      * split_and!; [done| |apply NODE_BUILDERS_wf]. rewrite node_total_absent; [done|]. rewrite <- Hdom. by apply mget_None.
Qed.

Definition top_ids (rows : list FlowQuotaDataItem) (metric : FlowMetric) (k : FlowNodeKind)
    (ctx : option (Z → jsstr)) (n : nat) : list jsstr :=
  (fun r => id (rank_node r)) <$> take n (sort_by (rank_cmp localeCompare) (mvalues (ranks rows metric k ctx))).

Lemma mget_prod_map {V W} (f : V → W) (k : FlowNodeKind) (m : list (FlowNodeKind * V)) :
  mget k ((fun kv : FlowNodeKind * V => (kv.1, f kv.2)) <$> m) = f <$> mget k m.
Proof.
  induction m as [|[k' v] m IH]; [done|]. rewrite fmap_cons. cbn [mget fst snd]. by case_decide.
Qed.

Lemma buildTopNodeSets_spec rows metric stages ctx n k :
  NoDup stages → k ∈ stages → 0 < n → ∃ sets,
  buildTopNodeSets localeCompare rows metric stages (Some n) ctx = Some sets
  ∧ mget k sets = Some (top_ids rows metric k ctx n).
Proof.
  intros Hd Hk Hn. destruct n as [|n]; [lia|]. eexists. split; [done|].
  pose proof (mget_prod_map (fun st => (fun r => id (rank_node r))
    <$> take (S n) (sort_by (rank_cmp localeCompare) (mvalues st))) k (stageTotals rows metric stages ctx)) as E.
  cbn beta in E. rewrite E, mget_stageTotals by done. done.
Qed.

Lemma sorted_take_drop {A} (R : A → A → Prop) n l x y :
  StronglySorted R l → x ∈ take n l → y ∈ drop n l → R x y.
Proof.
  intros Hs Hx Hy. rewrite <- (take_drop n l) in Hs. revert Hs Hx Hy.
  generalize (take n l) (drop n l). intros a b. induction a as [|z a IH]; simpl; intros Hs Hx Hy.
  - by apply not_elem_of_nil in Hx.
  - apply StronglySorted_inv in Hs as [Hs Hz]. apply elem_of_cons in Hx as [->|Hx]; [|by apply IH].
    rewrite Forall_forall in Hz. apply Hz. set_solver.
Qed.

Lemma rank_cmp_value a b :
  rank_value a ≠ rank_value b → rank_cmp localeCompare a b = (rank_value b - rank_value a)%Z.
Proof. intros H. unfold rank_cmp, cmp_or. destruct (_ =? 0)%Z eqn:E; bsplit; lia. Qed.

(** The chosen nodes: at most [n], and none smaller than a node left out *)
Lemma top_ids_spec rows metric k ctx n :
  length (top_ids rows metric k ctx n) ≤ n
  ∧ ∀ i row, i ∈ top_ids rows metric k ctx n → row ∈ rows →
    id (NODE_BUILDERS k row ctx) ∉ top_ids rows metric k ctx n →
    (node_total rows metric k ctx (id (NODE_BUILDERS k row ctx)) <= node_total rows metric k ctx i)%Z.
Proof.
  destruct (ranks_spec rows metric k ctx) as [Hk Hdom He]. unfold top_ids.
  set (l := sort_by _ _). split; [rewrite length_fmap, length_take; lia|].
  assert (∀ r, r ∈ l → rank_value r = node_total rows metric k ctx (id (rank_node r))) as Hv.
  { intros r Hr. apply elem_of_sort_by, elem_of_mvalues in Hr as [i Hr]. apply elem_mget in Hr; [|done].
    destruct (He _ _ Hr) as (-> & -> & _). done. }
  intros i row Hi Hrow Hj. set (j := id (NODE_BUILDERS k row ctx)) in *.
  apply list_elem_of_fmap in Hi as (r & -> & Hr).
  assert (j ∈ mkeys (ranks rows metric k ctx)) as Hjk by (apply Hdom; eauto).
  destruct (mget j (ranks rows metric k ctx)) as [q|] eqn:Eq; [|by apply mget_None in Eq].
  destruct (He _ _ Eq) as (Eid & Eval & _). rewrite <- Eval, <- (Hv r).
  - apply (sorted_take_drop (descending rank_value) n l); [by apply sort_by_key, rank_cmp_value|done|].
    assert (q ∈ l) as Hq by (apply elem_of_sort_by, elem_of_mvalues; exists j; by apply mget_Some_elem).
    rewrite <- (take_drop n l) in Hq. apply elem_of_app in Hq as [Hq|Hq]; [|done].
    exfalso. apply Hj. apply list_elem_of_fmap. exists q. done.
  - rewrite <- (take_drop n l). set_solver.
Qed.

Lemma normalizeTopNodeLimit_pos limit n : normalizeTopNodeLimit limit = Some n → 0 < n.
Proof.
  unfold normalizeTopNodeLimit. intros Hn. destruct limit as [[]|]; try done.
  destruct (_ <? _)%Z eqn:E; [|done]. bsplit. injection Hn as <-. lia.
Qed.

(** The nodes of a prepared path under a limit *)
Lemma prepare_limited rows metric stages ctx limit mode labeler n k p :
  NoDup stages → normalizeTopNodeLimit limit = Some n → k ∈ stages →
  p ∈ preparePaths localeCompare rows metric stages ctx limit mode labeler →
  ∀ x, x ∈ path p → kind x = k →
    id x ∈ top_ids rows metric k ctx n
    ∨ default OAggregate mode = OAggregate ∧ id x = OTHER_FLOW_NODE_IDS k.
Proof.
  intros Hd Hn Hk Hp x Hx Ex. unfold preparePaths in Hp. rewrite Hn in Hp.
  pose proof (normalizeTopNodeLimit_pos _ _ Hn) as Hpos.
  destruct (buildTopNodeSets_spec rows metric stages ctx n k Hd Hk Hpos) as (sets & Es & Ek). rewrite Es in Hp.
  apply list_elem_of_omap in Hp as (row & Hrow & Hp). apply bind_Some in Hp as (q & Hq & [= <-]). cbn [path] in Hx.
  assert (∀ y, kind y = k → isTopFlowNode y (Some sets) = bool_decide (id y ∈ top_ids rows metric k ctx n)) as Htop.
  { intros y Ey. unfold isTopFlowNode. by rewrite Ey, Ek. }
  unfold applyTopNodeLimit in Hq. destruct (negb _) eqn:Eany.
  - injection Hq as <-. left. apply negb_true_iff, not_true_iff_false in Eany.
    destruct (bool_decide (id x ∈ top_ids rows metric k ctx n)) eqn:Eb; [by apply bool_decide_eq_true in Eb|].
    exfalso. apply Eany, existsb_exists. exists x. split; [by apply list_elem_of_In|]. by rewrite Htop, Eb.
  - destruct (default OAggregate mode) eqn:Em; [|done]. injection Hq as <-.
    apply list_elem_of_fmap in Hx as (y & -> & Hy).
    change (match mget (kind y) sets with Some ids => bool_decide (id y ∈ ids) | None => true end)
      with (isTopFlowNode y (Some sets)) in Ex |- *. destruct (isTopFlowNode y (Some sets)) eqn:Et.
    + left. rewrite Htop in Et by done. by apply bool_decide_eq_true in Et.
    + right. split; [done|]. by rewrite <- Ex.
Qed.

Lemma addPathNodes_keys metric nodes p i :
  i ∈ mkeys (addPathNodes metric nodes p) ↔ i ∈ mkeys nodes ∨ i ∈ id <$> path p.
Proof.
  unfold addPathNodes. destruct (path p) as [|root l] eqn:E; [set_solver|]. clear E.
  generalize (id root) as ck. generalize (root :: l) as ns. clear root l. intros ns ck. revert nodes.
  induction ns as [|n ns IH]; intros nodes; [set_solver|].
  cbn [foldl]. rewrite IH. unfold addNode. rewrite elem_of_mkeys_mset, fmap_cons, elem_of_cons. naive_solver.
Qed.

Lemma nodes_keys metric prepared nodes i :
  i ∈ mkeys (foldl (addPathNodes metric) nodes prepared)
  ↔ i ∈ mkeys nodes ∨ ∃ p, p ∈ prepared ∧ i ∈ id <$> path p.
Proof.
  revert nodes. induction prepared as [|p prepared IH]; intros nodes; cbn [foldl].
  - split; [by left|]. by intros [?|(? & ?%not_elem_of_nil & _)].
  - rewrite IH, addPathNodes_keys. split.
    + intros [[?|?]|(q & ? & ?)]; [by left|right; exists p|right; exists q]; split; try done; by constructor.
    + intros [?|(q & [->|?]%elem_of_cons & ?)]; [by do 2 left|by left; right|right; eauto].
Qed.

(** The identifiers of the nodes that the graph shows in a stage *)
Definition shown (k : FlowNodeKind) (g : DashboardFlowGraph) : list jsstr :=
  n_id <$> filter (fun m => n_kind m = k) (g_nodes g).

Lemma elem_of_shown rows metric role ctx o k i :
  let stages := resolveVisibleStages role (visibleStages o) in
  let g := buildFlowGraph localeCompare rows metric role ctx o in
  i ∈ shown k g
  ↔ ∃ p x, p ∈ preparePaths localeCompare rows metric stages ctx (topNodeLimit o) (overflowMode o) (otherNodeLabel o)
      ∧ x ∈ path p ∧ kind x = k ∧ id x = i.
Proof.
  intros stages g. destruct (graph_shape rows metric role ctx o) as (F & G & HF & _ & Pn & _).
  fold stages g in Pn. set (prepared := preparePaths _ _ _ _ _ _ _ _) in *.
  assert (Forall (path_ok stages) prepared) as Hp by apply prepare_ok.
  destruct (nodes_map_ok stages metric prepared [] (nodes_ok_nil _) Hp) as [Hkeys He].
  pose proof (nodes_keys metric prepared [] i) as Hin.
  set (nodes := foldl (addPathNodes metric) [] prepared) in *. clearbody nodes.
  rewrite Forall_forall in Hp. unfold shown. rewrite list_elem_of_fmap. split.
  - intros (m & -> & [Hm Hg]%list_elem_of_filter). rewrite Pn in Hg.
    apply list_elem_of_fmap in Hg as (m' & -> & Hm'). destruct (HF m') as (Ei & Ek & _). rewrite Ei in *.
    apply elem_of_mvalues in Hm' as [j Hj]. destruct (He _ _ Hj) as (-> & _ & Hw).
    destruct Hin as [[Hnil|(p & Hpin & Hx)] _];
      [by apply list_elem_of_fmap; exists (n_id m', m')|by apply not_elem_of_nil in Hnil|].
    apply list_elem_of_fmap in Hx as (x & Ex & Hx). exists p, x. split_and!; try done.
    destruct (Hp p Hpin) as [_ Hwx]. rewrite Forall_forall in Hwx.
    rewrite <- Hm, Ek. apply (wf_node_kind x (mkNode (n_id m') (n_label m') (n_kind m'))); auto.
  - intros (p & x & Hpin & Hx & Ek & Ei). destruct Hin as [_ Hin].
    assert (i ∈ mkeys nodes) as Hi by (apply Hin; right; exists p; split; [done|]; apply list_elem_of_fmap; eauto).
    apply list_elem_of_fmap in Hi as ([j m] & E & Hjm). simpl in E. subst j.
    destruct (He _ _ Hjm) as (Em & _ & Hw). exists (F m). destruct (HF m) as (-> & EkF & _).
    split; [done|]. apply list_elem_of_filter. split.
    + destruct (Hp p Hpin) as [_ Hwx]. rewrite Forall_forall in Hwx. rewrite EkF, <- Ek.
      apply (wf_node_kind (mkNode (n_id m) (n_label m) (n_kind m)) x); [done|auto|]. simpl. congruence.
    + rewrite Pn. apply list_elem_of_fmap. exists m. split; [done|]. apply elem_of_mvalues. eauto.
Qed.

Lemma shown_NoDup rows metric role ctx o k :
  NoDup (shown k (buildFlowGraph localeCompare rows metric role ctx o)).
Proof.
  destruct (graph_shape rows metric role ctx o) as (F & G & HF & _ & Pn & _).
  set (stages := resolveVisibleStages role (visibleStages o)) in *.
  set (prepared := preparePaths _ _ _ _ _ _ _ _) in *.
  assert (Forall (path_ok stages) prepared) as Hp by apply prepare_ok.
  destruct (nodes_map_ok stages metric prepared [] (nodes_ok_nil _) Hp) as [Hkeys He].
  set (nodes := foldl (addPathNodes metric) [] prepared) in *. clearbody nodes.
  unfold shown. apply (sublist_NoDup _ (n_id <$> g_nodes (buildFlowGraph localeCompare rows metric role ctx o))); cycle 1.
  { apply fmap_sublist, sublist_filter. }
  rewrite Pn, <- list_fmap_compose.
  assert ((n_id ∘ F) <$> mvalues nodes = mkeys nodes) as ->; [|done].
  unfold mvalues, mkeys. rewrite <- list_fmap_compose. apply list_fmap_ext.
  intros q [j m] Hq. apply list_elem_of_lookup_2 in Hq. destruct (He _ _ Hq) as (E & _).
  unfold compose. simpl. by destruct (HF m) as (-> & _).
Qed.

Lemma NoDup_subset_length {A} (l l' : list A) : NoDup l → (∀ x, x ∈ l → x ∈ l') → length l ≤ length l'.
Proof. intros. by apply submseteq_length, NoDup_submseteq. Qed.

(** Aggregating keeps the node of a row that is among the largest. *)
Lemma top_row_shown rows metric role ctx o n k row :
  let stages := resolveVisibleStages role (visibleStages o) in
  normalizeTopNodeLimit (topNodeLimit o) = Some n → k ∈ stages → overflowMode o ≠ Some OHide → row ∈ rows →
  id (NODE_BUILDERS k row ctx) ∈ top_ids rows metric k ctx n →
  id (NODE_BUILDERS k row ctx) ∈ shown k (buildFlowGraph localeCompare rows metric role ctx o).
Proof.
  intros stages Hn Hk Hm Hrow Htop. apply elem_of_shown. fold stages.
  pose proof (normalizeTopNodeLimit_pos _ _ Hn) as Hpos.
  assert (NoDup stages) as Hd by apply stages_NoDup.
  destruct (buildTopNodeSets_spec rows metric stages ctx n k Hd Hk Hpos) as (sets & Es & Ek).
  set (x := NODE_BUILDERS k row ctx) in *.
  assert (x ∈ flowPathForStages row stages ctx) as Hx by (apply list_elem_of_fmap; eauto).
  assert (kind x = k) as Ex by apply NODE_BUILDERS_wf.
  assert (isTopFlowNode x (Some sets) = true) as Ht by (unfold isTopFlowNode; rewrite Ex, Ek; by apply bool_decide_true).
  assert (∃ q, applyTopNodeLimit (flowPathForStages row stages ctx) (Some sets)
                 (default OAggregate (overflowMode o)) (otherNodeLabel o) = Some q ∧ x ∈ q) as (q & Hq & Hxq).
  { unfold applyTopNodeLimit. destruct (negb _); [by eauto|].
    destruct (overflowMode o) as [[]|]; [|done|]; (eexists; split; [reflexivity|]);
      apply list_elem_of_fmap; exists x; (split; [|done]); symmetry; by rewrite Ht. }
  exists (mkPath q (rowMetrics row)), x. split_and!; [|done..].
  unfold preparePaths. apply list_elem_of_omap. exists row. split; [done|]. by rewrite Hn, Es, Hq.
Qed.

(** The limit of nodes holds in every stage: with a limit of [n], a stage
    shows at most [n] nodes of its own, each once, and at most one more that
    stands for the others, and no other node when overflow is hidden; when
    overflow is aggregated, no node left out has a larger total over the rows
    than a node that is shown. *)
Theorem flow_limit_spec rows metric role ctx o n k :
  normalizeTopNodeLimit (topNodeLimit o) = Some n →
  k ∈ resolveVisibleStages role (visibleStages o) →
  let ids := shown k (buildFlowGraph localeCompare rows metric role ctx o) in
  NoDup ids
  ∧ length (filter (fun i => i ≠ OTHER_FLOW_NODE_IDS k) ids) ≤ n
  ∧ length ids ≤ (match default OAggregate (overflowMode o) with OHide => n | OAggregate => S n end)
  ∧ (overflowMode o ≠ Some OHide → ∀ i row, i ∈ ids → i ≠ OTHER_FLOW_NODE_IDS k → row ∈ rows →
       id (NODE_BUILDERS k row ctx) ∉ ids →
       (node_total rows metric k ctx (id (NODE_BUILDERS k row ctx)) <= node_total rows metric k ctx i)%Z).
Proof.
  intros Hn Hk ids. destruct (top_ids_spec rows metric k ctx n) as [Hlen Hle].
  assert (NoDup ids) as Hd by apply shown_NoDup.
  assert (∀ i, i ∈ ids → i ∈ top_ids rows metric k ctx n
          ∨ default OAggregate (overflowMode o) = OAggregate ∧ i = OTHER_FLOW_NODE_IDS k) as Hin.
  { intros i (p & x & Hp & Hx & Ek & <-)%elem_of_shown.
    by apply (prepare_limited rows metric _ ctx _ _ _ n k p (stages_NoDup _ _) Hn Hk Hp). }
  split_and!; [done| | |].
  - etransitivity; [|exact Hlen]. apply NoDup_subset_length; [by apply NoDup_filter|].
    intros i [Hne Hi]%list_elem_of_filter. by destruct (Hin i Hi) as [|[_ ?]].
  - destruct (default OAggregate (overflowMode o)).
    + transitivity (length (OTHER_FLOW_NODE_IDS k :: top_ids rows metric k ctx n)); [|simpl; lia].
      apply NoDup_subset_length; [done|]. intros i Hi.
      destruct (Hin i Hi) as [|[_ ->]]; [by apply elem_of_cons; right|constructor].
    + etransitivity; [|exact Hlen]. apply NoDup_subset_length; [done|]. intros i Hi. by destruct (Hin i Hi) as [|[? _]].
  - intros Hm i row Hi Hne Hrow Hj. destruct (Hin i Hi) as [Htop|[_ ?]]; [|done].
    apply Hle; [done|done|]. intros Htj. apply Hj. by apply (top_row_shown rows metric role ctx o n).
Qed.

(** ** Masking and highlighting *)

Lemma masked_labels_get (l : list DashboardFlowNode) n :
  NoDup (n_id <$> l) → n ∈ l → isMaskedNode n = true →
  mget (n_id n) (foldl (fun m n => if isMaskedNode n then mset (n_id n) (maskFlowLabel (n_label n)) m else m) [] l)
  = Some (maskFlowLabel (n_label n)).
Proof.
  induction l as [|x l IH] using rev_ind; intros Hd Hn Hm; [by apply not_elem_of_nil in Hn|].
  rewrite fmap_app in Hd. apply NoDup_app in Hd as (Hd & Hx & _). rewrite foldl_snoc.
  apply elem_of_app in Hn as [Hn|Hn%list_elem_of_singleton].
  - assert (n_id x ≠ n_id n) as Hne.
    { intros E. apply (Hx (n_id n)); [apply list_elem_of_fmap; eauto|]. rewrite <- E. constructor. }
    destruct (isMaskedNode x); [rewrite mget_mset_ne by done|]; auto.
  - subst x. by rewrite Hm, mget_mset_eq.
Qed.

Lemma maskFlowLabel_cases l : maskFlowLabel l = [] ∨ maskFlowLabel l = FLOW_MASK_TEXT.
Proof. unfold maskFlowLabel. case_bool_decide as E; [left; by apply length_zero_iff_nil|by right]. Qed.

Lemma view_node_id mask h n :
  n_id (view_node mask h n) = n_id n ∧ n_kind (view_node mask h n) = n_kind n
  ∧ n_label (view_node mask h n) = (if mask && isMaskedNode n then maskFlowLabel (n_label n) else n_label n).
Proof. unfold view_node, maskNode. destruct mask, h, (isMaskedNode n); done. Qed.

Lemma view_link_labels masked h l :
  l_source (view_link masked h l) = l_source l ∧ l_target (view_link masked h l) = l_target l
  ∧ ∀ m i s, masked = Some m → mget i m = Some s →
    (l_source l = i → l_sourceLabel (view_link masked h l) = s)
    ∧ (l_target l = i → l_targetLabel (view_link masked h l) = s).
Proof.
  unfold view_link. destruct masked as [m|]; [|by destruct h].
  split_and!; [by destruct h..|]. intros m' i s [= <-] Hi.
  split; intros <-; destruct h; simpl; by rewrite Hi.
Qed.

(** A node whose label has to be hidden *)
Definition sensitive (n : DashboardFlowNode) : Prop :=
  n_kind n ∈ SENSITIVE_FLOW_KINDS ∧ n_id n ∉ OTHER_FLOW_NODE_ID_SET.

Lemma isMaskedNode_spec n : isMaskedNode n = true ↔ sensitive n.
Proof. unfold isMaskedNode, sensitive. rewrite andb_true_iff, negb_true_iff, bool_decide_eq_true, bool_decide_eq_false. done. Qed.

(** The same options without masking *)
Definition unmasked (o : FlowBuildOptions) : FlowBuildOptions :=
  mkOptions (o_role o) (selectedUsers o) (selectedNodes o) (activeNode o) (activeLink o) (visibleStages o)
    (topNodeLimit o) (overflowMode o) false (o_deletedTokenLabel o) (otherNodeLabel o).

Lemma unmasked_shape rows metric role ctx o :
  let g := buildFlowGraph localeCompare rows metric role ctx o in
  let g' := buildFlowGraph localeCompare rows metric role ctx (unmasked o) in
  Permutation ((fun n => (n_id n, n_kind n, n_value n)) <$> g_nodes g)
    ((fun n => (n_id n, n_kind n, n_value n)) <$> g_nodes g')
  ∧ Permutation ((fun l => (l_source l, l_target l, l_value l)) <$> g_links g)
    ((fun l => (l_source l, l_target l, l_value l)) <$> g_links g').
Proof.
  intros g g'.
  destruct (graph_shape rows metric role ctx o) as (F & G & HF & HG & Pn & Pl).
  destruct (graph_shape rows metric role ctx (unmasked o)) as (F' & G' & HF' & HG' & Pn' & Pl').
  fold g in Pn, Pl. fold g' in Pn', Pl'. cbn [unmasked visibleStages topNodeLimit overflowMode otherNodeLabel] in Pn', Pl'.
  rewrite Pn, Pn', Pl, Pl', <- !list_fmap_compose. split; apply reflexive_eq, list_fmap_ext; intros j x _; unfold compose.
  - by destruct (HF x) as (-> & -> & ->), (HF' x) as (-> & -> & ->).
  - by destruct (HG x) as (-> & -> & ->), (HG' x) as (-> & -> & ->).
Qed.

(** A label shows nothing *)
Definition hidden (s : jsstr) : Prop := s = [] ∨ s = FLOW_MASK_TEXT.

Lemma masked_node_labels rows metric role ctx o n :
  maskSensitive o = true →
  let g := buildFlowGraph localeCompare rows metric role ctx o in
  n ∈ g_nodes g → sensitive n →
  hidden (n_label n)
  ∧ ∀ l, l ∈ g_links g →
    (l_source l = n_id n → l_sourceLabel l = n_label n) ∧ (l_target l = n_id n → l_targetLabel l = n_label n).
Proof.
  intros Hmask g Hn Hs. destruct (graph_view rows metric role ctx o) as [Pn [total Pl]]. fold g in Pn, Pl.
  rewrite Hmask in Pn, Pl. set (prepared := preparePaths _ _ _ _ _ _ _ _) in *.
  set (stages := resolveVisibleStages role (visibleStages o)) in *.
  assert (Forall (path_ok stages) prepared) as Hp by apply prepare_ok.
  destruct (nodes_map_ok stages metric prepared [] (nodes_ok_nil _) Hp) as [Hkeys He].
  set (nodes := foldl (addPathNodes metric) [] prepared) in *. set (h := buildFlowHighlightSets _ _ _ _) in *.
  rewrite Pn in Hn. apply list_elem_of_fmap in Hn as (m & -> & Hm).
  destruct (view_node_id true h m) as (Ei & Ek & El). unfold sensitive in Hs. rewrite Ei, Ek in Hs.
  apply isMaskedNode_spec in Hs. rewrite Hs in El. cbn in El. rewrite El, Ei.
  split; [apply maskFlowLabel_cases|].
  assert (NoDup (n_id <$> mvalues nodes)) as Hd.
  { assert (n_id <$> mvalues nodes = mkeys nodes) as ->; [|done]. unfold mvalues, mkeys.
    rewrite <- list_fmap_compose. apply list_fmap_ext. intros q [j x] Hq.
    apply list_elem_of_lookup_2 in Hq. by destruct (He _ _ Hq) as [-> _]. }
  pose proof (masked_labels_get (mvalues nodes) m Hd Hm Hs) as Hget. fold (masked_labels nodes) in Hget.
  intros l Hl. rewrite Pl in Hl. apply list_elem_of_fmap in Hl as (l' & -> & _). simpl.
  destruct (view_link_labels (Some (masked_labels nodes)) h l') as (-> & -> & HL). by apply (HL _ _ _ eq_refl Hget).
Qed.

(** C15. Masking leaves no sensitive label in the graph: every user, node, token,
    group and channel other than an aggregate shows the mask (or nothing), and so
    do the ends of every link that touches it; and the graph has the nodes and
    links, with the values, that it has without masking, up to order. *)
Theorem flow_mask_spec rows metric role ctx o :
  maskSensitive o = true →
  let g := buildFlowGraph localeCompare rows metric role ctx o in
  let g' := buildFlowGraph localeCompare rows metric role ctx (unmasked o) in
  (∀ n, n ∈ g_nodes g → sensitive n →
     hidden (n_label n)
     ∧ ∀ l, l ∈ g_links g →
       (l_source l = n_id n → hidden (l_sourceLabel l)) ∧ (l_target l = n_id n → hidden (l_targetLabel l)))
  ∧ Permutation ((fun n => (n_id n, n_kind n, n_value n)) <$> g_nodes g)
      ((fun n => (n_id n, n_kind n, n_value n)) <$> g_nodes g')
  ∧ Permutation ((fun l => (l_source l, l_target l, l_value l)) <$> g_links g)
      ((fun l => (l_source l, l_target l, l_value l)) <$> g_links g').
Proof.
  intros Hmask g g'. split; [|apply unmasked_shape]. intros n Hn Hs.
  destruct (masked_node_labels rows metric role ctx o n Hmask Hn Hs) as [Hh Hl]. split; [done|].
  intros l Hin. destruct (Hl l Hin) as [H1 H2].
  split; [intros E; by rewrite (H1 E)|intros E; by rewrite (H2 E)].
Qed.

(** ** Highlighting *)

Lemma nodes_plain metric prepared nodes :
  Forall (fun n => n_highlighted n = None ∧ n_dimmed n = None) (mvalues nodes) →
  Forall (fun n => n_highlighted n = None ∧ n_dimmed n = None)
    (mvalues (foldl (addPathNodes metric) nodes prepared)).
Proof.
  revert nodes. induction prepared as [|p prepared IH]; intros nodes H; [done|]. cbn [foldl]. apply IH.
  unfold addPathNodes. destruct (path p) as [|root l]; [done|].
  generalize (id root) as ck. generalize (root :: l) as ns. clear -H. intros ns ck. revert nodes H.
  induction ns as [|n ns IH]; intros nodes H; [done|]. cbn [foldl]. apply IH.
  apply Forall_forall. intros m [j Hm]%elem_of_mvalues. rewrite Forall_forall in H.
  apply elem_of_mset in Hm as [[= -> ->]|Hm]; [|apply H, elem_of_mvalues; eauto].
  destruct (mget (id n) nodes) as [y|] eqn:E; [|done]. apply mget_Some_elem in E.
  apply (H y), elem_of_mvalues. eauto.
Qed.

Lemma links_plain metric prepared links :
  Forall (fun l => l_highlighted l = None ∧ l_dimmed l = None) (mvalues links) →
  Forall (fun l => l_highlighted l = None ∧ l_dimmed l = None)
    (mvalues (foldl (addPathLinks metric) links prepared)).
Proof.
  revert links. induction prepared as [|p prepared IH]; intros links H; [done|]. cbn [foldl]. apply IH.
  unfold addPathLinks. destruct (path p) as [|root l]; [done|].
  generalize (id root) as ck. generalize (pairs (root :: l)) as ns. clear -H. intros ns ck. revert links H.
  induction ns as [|n ns IH]; intros links H; [done|]. cbn [foldl]. apply IH.
  apply Forall_forall. intros m [j Hm]%elem_of_mvalues. rewrite Forall_forall in H.
  apply elem_of_mset in Hm as [[= -> ->]|Hm]; [|apply H, elem_of_mvalues; eauto].
  destruct (mget (pathLinkKey n.1 n.2) links) as [y|] eqn:E; [|done]. apply mget_Some_elem in E.
  apply (H y), elem_of_mvalues. eauto.
Qed.

(** Something is selected that the visible stages can show. *)
Definition selection_active (o : FlowBuildOptions) (stages : list FlowNodeKind) : Prop :=
  activeLink o ≠ None ∨ ∃ f, activeNode o = Some f ∧ f_kind f ∈ stages.

(** A path that runs through the selection *)
Definition selected (o : FlowBuildOptions) (prepared : list PreparedFlowPath) (p : PreparedFlowPath) : Prop :=
  p ∈ prepared ∧ matchesPath (activeNode o) (activeLink o) (path p) = true.

Lemma matchesPath_nonempty an al p : matchesPath an al p = true → ∃ x, x ∈ p.
Proof. destruct p as [|x p]; [|exists x; constructor]. by destruct an, al. Qed.

Lemma elem_of_concat_map {A B} (f : A → list B) l y : y ∈ concat (f <$> l) ↔ ∃ x, x ∈ l ∧ y ∈ f x.
Proof.
  induction l as [|x l IH]; [split; [by intros ?%not_elem_of_nil|by intros (? & ?%not_elem_of_nil & _)]|].
  rewrite fmap_cons. cbn [concat]. rewrite elem_of_app, IH. split.
  - intros [H|(z & ? & ?)]; [exists x|exists z]; (split; [|done]); by constructor.
  - intros (z & [->|?]%elem_of_cons & ?); [by left|right; eauto].
Qed.

Lemma highlight_sets_spec o prepared stages :
  match buildFlowHighlightSets prepared (activeNode o) (activeLink o) stages with
  | Some h =>
      selection_active o stages
      ∧ (∃ p, selected o prepared p)
      ∧ (∀ i, i ∈ h_nodes h ↔ ∃ p, selected o prepared p ∧ i ∈ id <$> path p)
      ∧ (∀ k, k ∈ h_links h ↔ ∃ p st, selected o prepared p ∧ st ∈ pairs (path p) ∧ k = pathLinkKey st.1 st.2)
  | None => ¬ (selection_active o stages ∧ ∃ p, selected o prepared p)
  end.
Proof.
  unfold buildFlowHighlightSets.
  assert (selection_active o stages ↔
    negb (match activeNode o with Some f => bool_decide (f_kind f ∈ stages) | None => false end)
      && match activeLink o with None => true | Some _ => false end = false) as Hact.
  { unfold selection_active. destruct (activeNode o) as [f|]; [case_bool_decide|]; destruct (activeLink o);
      simpl; naive_solver. }
  destruct (negb _ && _); [naive_solver|].
  set (matching := filter _ prepared).
  assert (∀ p, p ∈ matching ↔ selected o prepared p) as Hm.
  { intros p. unfold matching, selected. rewrite list_elem_of_filter. tauto. }
  set (nodes := uniq (concat ((fun p => id <$> path p) <$> matching))).
  assert (∀ i, i ∈ nodes ↔ ∃ p, selected o prepared p ∧ i ∈ id <$> path p) as Hnodes.
  { intros i. unfold nodes. rewrite elem_of_uniq, elem_of_concat_map.
    split; intros (p & Hp & ?); exists p; (split; [by apply Hm|done]). }
  clearbody nodes matching. destruct nodes as [|i nodes].
  - intros [_ [p Hp]]. destruct (matchesPath_nonempty _ _ _ (proj2 Hp)) as [x Hx].
    apply (not_elem_of_nil (id x)), Hnodes. exists p. split; [done|]. apply list_elem_of_fmap. eauto.
  - cbn [h_nodes h_links]. split_and!; [by apply Hact| |done|].
    + destruct (proj1 (Hnodes i)) as (p & ? & _); [constructor|eauto].
    + intros k. rewrite elem_of_uniq, elem_of_concat_map. split.
      * intros (p & Hp & Hk). apply list_elem_of_fmap in Hk as (st & -> & Hst).
        exists p, st. split_and!; [by apply Hm|done..].
      * intros (p & st & Hp & Hst & ->). exists p. split; [by apply Hm|]. apply list_elem_of_fmap. eauto.
Qed.

(** Highlighting partitions the graph: when something is selected and a path
    runs through it, a node is highlighted exactly when it lies on such a path, a
    link exactly when it joins neighbours of such a path, and everything else is
    dimmed; otherwise no node or link is either. *)
Theorem flow_highlight_spec rows metric role ctx o :
  let stages := resolveVisibleStages role (visibleStages o) in
  let prepared := preparePaths localeCompare rows metric stages ctx (topNodeLimit o) (overflowMode o) (otherNodeLabel o) in
  let g := buildFlowGraph localeCompare rows metric role ctx o in
  (selection_active o stages ∧ (∃ p, selected o prepared p)
   ∧ (∀ n, n ∈ g_nodes g → ∃ b, n_highlighted n = Some b ∧ n_dimmed n = Some (negb b)
        ∧ (b = true ↔ ∃ p, selected o prepared p ∧ n_id n ∈ id <$> path p))
   ∧ (∀ l, l ∈ g_links g → ∃ b, l_highlighted l = Some b ∧ l_dimmed l = Some (negb b)
        ∧ (b = true ↔ ∃ p st, selected o prepared p ∧ st ∈ pairs (path p) ∧ linkStableKey l = pathLinkKey st.1 st.2)))
  ∨ (¬ (selection_active o stages ∧ ∃ p, selected o prepared p)
     ∧ (∀ n, n ∈ g_nodes g → n_highlighted n = None ∧ n_dimmed n = None)
     ∧ (∀ l, l ∈ g_links g → l_highlighted l = None ∧ l_dimmed l = None)).
Proof.
  intros stages prepared g. destruct (graph_view rows metric role ctx o) as [Pn [total Pl]].
  fold stages prepared g in Pn, Pl. pose proof (highlight_sets_spec o prepared stages) as Hh.
  pose proof (nodes_plain metric prepared []) as Hn. pose proof (links_plain metric prepared []) as Hl.
  set (nodes := foldl (addPathNodes metric) [] prepared) in *.
  set (links := foldl (addPathLinks metric) [] prepared) in *.
  specialize (Hn ltac:(constructor)). specialize (Hl ltac:(constructor)). rewrite Forall_forall in Hn. rewrite Forall_forall in Hl.
  set (masked := if maskSensitive o then Some (masked_labels nodes) else None) in *. clearbody masked nodes links.
  destruct (buildFlowHighlightSets _ _ _ _) as [h|].
  - left. destruct Hh as (Ha & He & Hhn & Hhl). split_and!; [done..| |].
    + intros n Hin. rewrite Pn in Hin. apply list_elem_of_fmap in Hin as (m & -> & _). simpl.
      eexists. split_and!; [done|done|]. by rewrite bool_decide_eq_true, Hhn.
    + intros l Hin. rewrite Pl in Hin. apply list_elem_of_fmap in Hin as (m & -> & _). simpl.
      eexists. split_and!; [done|done|]. by rewrite bool_decide_eq_true, Hhl.
  - right. split_and!; [done| |].
    + intros n Hin. rewrite Pn in Hin. apply list_elem_of_fmap in Hin as (m & -> & Hm).
      unfold view_node, maskNode. destruct (maskSensitive o), (isMaskedNode m); apply (Hn m Hm).
    + intros l Hin. rewrite Pl in Hin. apply list_elem_of_fmap in Hin as (m & -> & Hm).
      unfold view_link. destruct masked; apply (Hl m Hm).
Qed.

Lemma zsum_le {A} (f g : A → Z) l : (∀ x, x ∈ l → f x <= g x)%Z → (zsum f l <= zsum g l)%Z.
Proof.
  induction l as [|x l IH]; intros H; [done|]. unfold zsum in *. cbn [foldr].
  assert (f x <= g x)%Z by (apply H; constructor).
  specialize (IH ltac:(intros y Hy; apply H; by constructor)). lia.
Qed.

(** Sums stay exact: with metrics that are not negative, no node exceeds the total
    of the rows, so a safe total makes every node's value safe. *)
Theorem flow_sums_safe rows metric role ctx o n :
  (∀ row, row ∈ rows → 0 <= metricValue (rowMetrics row) metric)%Z →
  n ∈ g_nodes (buildFlowGraph localeCompare rows metric role ctx o) →
  (0 <= n_value n <= summaryValue (buildSummary rows) metric)%Z.
Proof.
  intros H0 Hn. destruct (graph_node rows metric role ctx o n Hn) as [-> _]. rewrite buildSummary_value.
  set (prepared := preparePaths _ _ _ _ _ _ _ _).
  assert (∀ p, p ∈ prepared → 0 <= metricValue (metrics p) metric)%Z as Hp.
  { intros p Hin. apply list_elem_of_omap in Hin as (row & Hrow & Hin).
    apply bind_Some in Hin as (q & _ & [= <-]). by apply H0. }
  split.
  - transitivity (zsum (fun _ : PreparedFlowPath => 0%Z) prepared);
      [clear; induction prepared; unfold zsum in *; simpl in *; lia|].
    apply zsum_le. intros p Hin. unfold on_path. case_decide; [by apply Hp|lia].
  - etransitivity; [|apply (prepare_hide_le rows metric (resolveVisibleStages role (visibleStages o)) ctx
      (topNodeLimit o) (overflowMode o) (otherNodeLabel o) (fun ms => metricValue ms metric) H0)].
    apply zsum_le. intros p Hin. unfold on_path. case_decide; [lia|by apply Hp].
Qed.

(** ** Filter options *)

Lemma mget_inj {V} (g : jsstr → jsstr) i (m : list (jsstr * V)) :
  Inj (=) (=) g → mget (g i) (prod_map g (fun v => v) <$> m) = mget i m.
Proof.
  intros Hg. induction m as [|[j v] m IH]; [done|]. rewrite fmap_cons. cbn [mget prod_map fst snd].
  destruct (decide (i = j)) as [->|Hne]; [by rewrite decide_True|]. rewrite decide_False; [done|].
  intros E. by apply Hg in E.
Qed.

Lemma mset_inj {V} (g : jsstr → jsstr) i (v : V) (m : list (jsstr * V)) :
  Inj (=) (=) g → mset (g i) v (prod_map g (fun v => v) <$> m) = prod_map g (fun v => v) <$> mset i v m.
Proof.
  intros Hg. induction m as [|[j w] m IH]; [done|]. rewrite fmap_cons. cbn [mset prod_map fst snd].
  destruct (decide (i = j)) as [->|Hne]; [rewrite decide_True by done; by rewrite fmap_cons|].
  rewrite fmap_cons.
  rewrite decide_False; [by rewrite IH|]. intros E. by apply Hg in E.
Qed.

(** Keys with the kind in front change nothing within a stage. *)
Lemma nodeTotals_ranks rows metric k ctx :
  mvalues (nodeTotals rows metric k ctx) = mvalues (ranks rows metric k ctx).
Proof.
  set (g := fun i => nodeFilterKey (mkFilter k i)).
  assert (Inj (=) (=) g) as Hg.
  { intros i j E. unfold g, nodeFilterKey in E. apply app_inv_head in E. by injection E. }
  assert (nodeTotals rows metric k ctx = prod_map g (fun v => v) <$> ranks rows metric k ctx) as ->.
  { unfold nodeTotals, ranks. induction rows as [|row rows IH] using rev_ind; [done|].
    rewrite !foldl_snoc, IH. destruct (NODE_BUILDERS_wf k row ctx) as [-> _].
    change (nodeFilterKey (mkFilter k (id (NODE_BUILDERS k row ctx)))) with (g (id (NODE_BUILDERS k row ctx))).
    rewrite mget_inj by done. unfold rank_add. by rewrite <- mset_inj. }
  unfold mvalues. by rewrite <- list_fmap_compose.
Qed.

(** An option of a stage: a node of the rows that the selections of the other
    stages leave, with its total over them *)
Theorem node_options_spec rows metric role vs ctx selected k i v :
  let stages := resolveVisibleStages role vs in
  let candidates := candidateRows rows selected stages ctx k in
  (∃ l, mkNodeOption k i l v ∈ buildNodeFilterOptions localeCompare rows metric role vs ctx selected)
  ↔ k ∈ stages ∧ (∃ row, row ∈ candidates ∧ id (NODE_BUILDERS k row ctx) = i)
    ∧ v = node_total candidates metric k ctx i.
Proof.
  intros stages candidates. unfold buildNodeFilterOptions. fold stages. split.
  - intros (l & Hin). apply elem_of_sort_by, elem_of_concat_map in Hin as (j & Hj & Hin).
    rewrite nodeTotals_ranks in Hin. apply list_elem_of_fmap in Hin as (r & E & Hr). unfold option_of_rank in E.
    simplify_eq. apply elem_of_mvalues in Hr as [i Hr].
    destruct (ranks_spec (candidateRows rows selected stages ctx j) metric j ctx) as [Hk Hdom He].
    apply elem_mget in Hr; [|done]. destruct (He _ _ Hr) as (Ei & Ev & Ek).
    assert (i ∈ mkeys (ranks (candidateRows rows selected stages ctx j) metric j ctx)) as Hi
      by (destruct (decide (i ∈ mkeys (ranks (candidateRows rows selected stages ctx j) metric j ctx))) as [|Hn];
          [done|by apply mget_None in Hn; rewrite Hr in Hn]).
    unfold candidates. rewrite Ek, Ei. split_and!; [done|by apply Hdom|done].
  - intros (Hk & Hrow & ->).
    destruct (ranks_spec candidates metric k ctx) as [_ Hdom He]. apply Hdom in Hrow.
    destruct (mget i (ranks candidates metric k ctx)) as [r|] eqn:E; [|by apply mget_None in E].
    destruct (He _ _ E) as (Ei & Ev & Ek). exists (label (rank_node r)).
    apply elem_of_sort_by, elem_of_concat_map. exists k. split; [done|].
    rewrite nodeTotals_ranks. apply list_elem_of_fmap. exists r. fold candidates. split; [|apply elem_of_mvalues; exists i; by apply mget_Some_elem].
    unfold option_of_rank. by rewrite Ei, Ev, Ek.
Qed.
End Sums.

(** ** Stages and filters *)

(** Hiding stages keeps at least two, in the role's order. *)
Theorem visible_stages_spec role vs :
  MIN_FLOW_STAGES ≤ length (resolveVisibleStages role vs)
  ∧ resolveVisibleStages role vs `sublist_of` getFlowStages role.
Proof.
  unfold resolveVisibleStages. destruct vs as [vs|]; [|by destruct role; split; vm_compute; auto with arith].
  case_bool_decide; [split; [done|apply sublist_filter]|].
  by destruct role; split; vm_compute; auto with arith.
Qed.

Lemma mget_sadd_fold {A} (key : A → FlowNodeKind) (val : A → jsstr) (keep : A → bool) k i l
    (m : list (FlowNodeKind * list jsstr)) :
  (∃ s, mget k (foldl (fun m x => if keep x then mset (key x) (sadd (val x) (default [] (mget (key x) m))) m else m) m l)
        = Some s ∧ i ∈ s)
  ↔ (∃ s, mget k m = Some s ∧ i ∈ s) ∨ ∃ x, x ∈ l ∧ keep x = true ∧ key x = k ∧ val x = i.
Proof.
  revert m. induction l as [|x l IH]; intros m; cbn [foldl].
  - split; [by left|]. by intros [?|(? & ?%not_elem_of_nil & _)].
  - rewrite IH. assert ((∃ s, mget k (if keep x then mset (key x) (sadd (val x) (default [] (mget (key x) m))) m else m)
        = Some s ∧ i ∈ s)
      ↔ (∃ s, mget k m = Some s ∧ i ∈ s) ∨ keep x = true ∧ key x = k ∧ val x = i) as ->.
    { destruct (keep x); [|naive_solver]. rewrite mget_mset. case_decide as E; [|naive_solver].
      subst k. destruct (mget (key x) m) as [s|]; cbn; split.
      - intros (? & [= <-] & [->|?]%elem_of_sadd); [by right|left; eauto].
      - intros [(? & [= <-] & ?)|(_ & _ & <-)]; eexists; (split; [done|]); apply elem_of_sadd; auto.
      - intros (? & [= <-] & [->|[]%not_elem_of_nil]%elem_of_sadd). by right.
      - intros [(? & ? & _)|(_ & _ & <-)]; [done|]. eexists. split; [done|]. apply elem_of_sadd; auto. }
    split.
    + intros [[?|(? & ? & ?)]|(y & ? & ?)]; [by left|right; exists x|right; exists y]; (split; [|done]); by constructor.
    + intros [?|(y & [->|?]%elem_of_cons & ?)]; [by do 2 left|by left; right|right; eauto].
Qed.

Lemma pathNodesByKind_spec row stages ctx k i :
  (∃ s, mget k (pathNodesByKind (flowPathForStages row stages ctx)) = Some s ∧ i ∈ s)
  ↔ k ∈ stages ∧ i = id (NODE_BUILDERS k row ctx).
Proof.
  pose proof (mget_sadd_fold kind id (fun _ => true) k i (flowPathForStages row stages ctx) []) as E.
  cbn in E. unfold pathNodesByKind. rewrite E. clear E. split.
  - intros [(? & ? & _)|(x & Hx & _ & Ek & Ei)]; [done|]. apply list_elem_of_fmap in Hx as (j & -> & Hj).
    destruct (NODE_BUILDERS_wf j row ctx) as [Ej _]. rewrite Ej in Ek. by subst.
  - intros [Hk ->]. right. exists (NODE_BUILDERS k row ctx). split_and!; [apply list_elem_of_fmap; eauto|done| |done].
    apply NODE_BUILDERS_wf.
Qed.

Record filters_ok (selected : list FlowNodeFilter) (stages : list FlowNodeKind)
    (filters : list (FlowNodeKind * list jsstr)) : Prop := {
  fo_keys : NoDup (mkeys filters);
  fo_ids : ∀ k i, (∃ s, mget k filters = Some s ∧ i ∈ s) ↔ k ∈ stages ∧ mkFilter k i ∈ selected;
  fo_full : ∀ k s, mget k filters = Some s → s ≠ []
}.

Lemma normalize_filters_ok selected stages :
  filters_ok (default [] selected) stages (normalizeSelectedNodeFilters selected stages).
Proof.
  unfold normalizeSelectedNodeFilters. generalize (default [] selected). clear selected. intros l. split.
  - assert (NoDup (mkeys (@nil (FlowNodeKind * list jsstr)))) as H by constructor. revert H.
    generalize (@nil (FlowNodeKind * list jsstr)). induction l as [|f l IH]; intros m H; [done|].
    cbn [foldl]. apply IH. case_bool_decide; auto with jsdb.
  - intros k i. pose proof (mget_sadd_fold f_kind f_id (fun f => bool_decide (f_kind f ∈ stages)) k i l []) as E.
    cbn beta in E. rewrite E. clear E. split.
    + intros [(? & ? & _)|([] & Hf & Hk & <- & <-)]; [done|]. by apply bool_decide_eq_true in Hk.
    + intros [Hk Hf]. right. exists (mkFilter k i). split_and!; [done| |done..]. by apply bool_decide_true.
  - assert (∀ k s, mget k (@nil (FlowNodeKind * list jsstr)) = Some s → s ≠ []) as H by done. revert H.
    generalize (@nil (FlowNodeKind * list jsstr)). induction l as [|f l IH]; intros m H; [done|].
    cbn [foldl]. apply IH. case_bool_decide; [|done]. intros k s. rewrite mget_mset. case_decide; [|apply H].
    intros [= <-] Hnil. apply (not_elem_of_nil (f_id f)). rewrite <- Hnil. apply elem_of_sadd. by left.
Qed.

(** The node filter keeps, in order, exactly the rows that meet the selection
    in every stage it names: for each visible stage with a selected node, the
    row's node of that stage is among the selected; selections of hidden stages
    do not count. *)
Theorem filter_rows_by_nodes_spec rows selected stages ctx row :
  filterRowsByNodes rows selected stages ctx `sublist_of` rows
  ∧ (row ∈ filterRowsByNodes rows selected stages ctx
     ↔ row ∈ rows ∧ ∀ f, f ∈ default [] selected → f_kind f ∈ stages →
         mkFilter (f_kind f) (id (NODE_BUILDERS (f_kind f) row ctx)) ∈ default [] selected).
Proof.
  unfold filterRowsByNodes. destruct (normalize_filters_ok selected stages) as [Hd Hid Hfull].
  set (filters := normalizeSelectedNodeFilters selected stages) in *.
  assert (pathMatchesNodeFilters (flowPathForStages row stages ctx) filters = true
    ↔ ∀ f, f ∈ default [] selected → f_kind f ∈ stages →
         mkFilter (f_kind f) (id (NODE_BUILDERS (f_kind f) row ctx)) ∈ default [] selected) as Hm.
  { unfold pathMatchesNodeFilters. rewrite forallb_forall. split.
    - intros H [k i] Hf Hk. simpl in *. destruct (proj2 (Hid k i) (conj Hk Hf)) as (s & Hs & _).
      specialize (H (k, s) (proj1 (list_elem_of_In _ _) (mget_Some_elem _ _ _ Hs))). simpl in H.
      destruct (mget k (pathNodesByKind _)) as [ids|] eqn:E; [|done].
      apply existsb_exists in H as (j & Hj & Hb). apply list_elem_of_In in Hj. apply bool_decide_eq_true in Hb.
      destruct (proj1 (pathNodesByKind_spec row stages ctx k j) (ex_intro _ ids (conj E Hb))) as [_ <-].
      apply (Hid k j). eauto.
    - intros H [k s] Hin. apply list_elem_of_In, elem_mget in Hin; [|done]. simpl.
      pose proof (Hfull k s Hin) as Hne. destruct s as [|i s]; [done|].
      destruct (proj1 (Hid k i)) as [Hk Hf]; [eexists; split; [done|constructor]|].
      specialize (H (mkFilter k i) Hf Hk). simpl in H.
      destruct (proj2 (pathNodesByKind_spec row stages ctx k _) (conj Hk eq_refl)) as (ids & -> & Hids).
      apply existsb_exists. exists (id (NODE_BUILDERS k row ctx)). split; [|by apply bool_decide_true].
      apply list_elem_of_In. destruct (proj2 (Hid k (id (NODE_BUILDERS k row ctx))) (conj Hk H)) as (s' & Hs' & ?).
      congruence. }
  clearbody filters. destruct filters as [|kf rest].
  - split; [done|]. rewrite <- Hm. split; [done|tauto].
  - split; [apply sublist_filter|]. rewrite list_elem_of_filter, Hm. tauto.
Qed.

(** ** A small graph *)

(** Comparison by code units, a collation *)
Fixpoint unit_compare (a b : jsstr) : Z :=
  match a, b with
  | [], [] => 0
  | [], _ => -1
  | _, [] => 1
  | x :: a, y :: b => cmp_or (Z.of_N x - Z.of_N y) (unit_compare a b)
  end%Z.

Definition row_of (user group model : string) (q : Z) : FlowQuotaDataItem :=
  mkRow None (Some (js user)) None (Some (js group)) (Some 7%Z) None None None (Some (js model))
    (Some (2 * q)%Z) (Some 1%Z) (Some q).

Definition demo_rows : list FlowQuotaDataItem :=
  [row_of "ann" "vip" "m1" 5; row_of "bob" "vip" "m2" 3; row_of "ann" "std" "m3" 4; row_of "eve" "std" "m1" 1].

Definition demo_options (limit : option num) (mask : bool) : FlowBuildOptions :=
  mkOptions (Some RoleAdmin) None (Some [mkFilter KGroup (js "group:vip"); mkFilter KGroup (js "group:std")])
    (Some (mkFilter KUser (js "user:ann"))) None None limit (Some OAggregate) mask None None.

Definition demo_graph (limit : option num) (mask : bool) : DashboardFlowGraph :=
  flow (buildDashboardFlowData unit_compare demo_rows MQuota (demo_options limit mask)).

Example demo_nodes :
  (fun n => (n_label n, n_value n, n_highlighted n)) <$> g_nodes (demo_graph (Some (Fin 1)) false)
  = [(js "Unknown", 13, Some true); (js "ann", 9, Some true); (js "vip", 8, Some true);
     (js "Other models", 7, Some true); (js "m1", 6, Some true); (js "Other groups", 5, Some true);
     (js "Other users", 4, Some false)]%Z.
Proof. vm_compute. reflexivity. Qed.

Lemma demo_nul_free : Forall (row_nul_free None) demo_rows.
Proof.
  assert (∀ row, forallb (fun k => negb (existsb (N.eqb 0) (id (NODE_BUILDERS k row None)))) FLOW_NODE_KINDS = true
    → row_nul_free None row) as H.
  { intros row H k Hin. rewrite forallb_forall in H. assert (In k FLOW_NODE_KINDS) as Hk by (destruct k; simpl; tauto).
    specialize (H k Hk). apply negb_true_iff, not_true_iff_false in H. apply H, existsb_exists.
    exists 0%N. split; [by apply list_elem_of_In|done]. }
  repeat constructor; apply H; vm_compute; reflexivity.
Qed.

Lemma flow_conservation_witness :
  let g := buildFlowGraph unit_compare demo_rows MQuota RoleAdmin None (demo_options (Some (Fin 1)) false) in
  Forall (row_nul_free None) demo_rows
  ∧ ∀ n, n ∈ g_nodes g → n_kind n = KGroup →
    link_sum (fun s _ => bool_decide (s = n_id n)) (g_links g) = n_value n
    ∧ link_sum (fun _ t => bool_decide (t = n_id n)) (g_links g) = n_value n.
Proof.
  split; [exact demo_nul_free|]. intros n Hn Hk.
  destruct (flow_conservation unit_compare demo_rows MQuota RoleAdmin None (demo_options (Some (Fin 1)) false)
    demo_nul_free n Hn) as (_ & Hout & Hin).
  split; [apply Hout|apply Hin]; rewrite Hk; vm_compute; discriminate.
Defined.

Lemma flow_stage_totals_witness :
  kind_sum KModel (g_nodes (demo_graph (Some (Fin 1)) false)) = 13%Z.
Proof.
  destruct (flow_stage_totals unit_compare demo_rows MQuota (demo_options (Some (Fin 1)) false) KModel) as (H & _);
    [by refine (bool_decide_unpack _ _); vm_compute|].
  unfold demo_graph. rewrite H by done. vm_compute. reflexivity.
Defined.

Lemma flow_limit_witness :
  length (shown KModel (buildFlowGraph unit_compare demo_rows MQuota RoleAdmin None (demo_options (Some (Fin 1)) false))) ≤ 2.
Proof.
  apply (flow_limit_spec unit_compare demo_rows MQuota RoleAdmin None (demo_options (Some (Fin 1)) false) 1 KModel);
    [vm_compute; reflexivity|by refine (bool_decide_unpack _ _); vm_compute].
Defined.

Lemma flow_mask_witness :
  maskSensitive (demo_options None true) = true
  ∧ Forall (fun n => sensitive n → hidden (n_label n))
      (g_nodes (buildFlowGraph unit_compare demo_rows MQuota RoleAdmin None (demo_options None true))).
Proof.
  split; [reflexivity|]. apply Forall_forall. intros n Hn Hs.
  by apply (flow_mask_spec unit_compare demo_rows MQuota RoleAdmin None (demo_options None true) eq_refl).
Defined.

End Flow.
