(* ===== verification/BillingRules.v ===== *)
(** * Request rules of billing expressions
    (src/web/src/features/pricing/lib/billing-expr.ts)

    A billing expression may be multiplied by request rules, conditional factors
    such as a higher price at night or for a header.  The editor prints its rule
    groups as expression text and reads them back with regular expressions after
    splitting the text at the operators outside parentheses.  A call of
    [JSON.parse] on bad text throws, which the parsers do not catch. *)

From S2P Require Import Prelude JsString JsValue JsJson JsNumber JsRegex.

(** ** Results of code that may throw *)

Inductive outcome (A : Type) := Throws | Returns (a : A).
Arguments Throws {A}.
Arguments Returns {A} a.

#[global] Instance outcome_ret : MRet outcome := fun A => Returns.
#[global] Instance outcome_bind : MBind outcome := fun A B f m =>
  match m with Throws => Throws | Returns a => f a end.

Module BillingRules.

(** Literals with single quotation marks for double ones *)
Definition dq (s : string) : jsstr := replace_char 39 34 (js s).
Arguments dq : simpl never.

(** ** Constants and types *)

Definition SOURCE_PARAM := js "param".
Definition SOURCE_HEADER := js "header".
Definition SOURCE_TIME := js "time".

Definition MATCH_EQ := js "eq".
Definition MATCH_CONTAINS := js "contains".
Definition MATCH_GT := js "gt".
Definition MATCH_GTE := js "gte".
Definition MATCH_LT := js "lt".
Definition MATCH_LTE := js "lte".
Definition MATCH_EXISTS := js "exists".
Definition MATCH_RANGE := js "range".

Definition TIME_FUNCS : list jsstr := [js "hour"; js "minute"; js "weekday"; js "month"; js "day"].

Inductive ParamSource := Param | Header.

Record ParamHeaderCondition := mkPH {
  ph_source : ParamSource; ph_path : jsstr; ph_mode : jsstr; ph_value : jsstr
}.

Record TimeCondition := mkTime {
  timeFunc : jsstr; timezone : jsstr; t_mode : jsstr; t_value : jsstr; rangeStart : jsstr; rangeEnd : jsstr
}.

Inductive RequestCondition :=
| CTime (t : TimeCondition)
| CParamHeader (c : ParamHeaderCondition).

Record RequestRuleGroup := mkGroup {
  conditions : list RequestCondition;
  multiplier : jsstr;
  conditionText : option jsstr;
  matched : option bool
}.

Record RequestRuleTrace := mkTrace { tr_cond : jsstr; tr_multiplier : num; tr_matched : bool }.

(** ** Expressions *)

Definition digit := RChar is_digit.

(** A unit of [[\d.eE+-]] *)
Definition num_unit (c : N) : bool :=
  (is_digit c || (c =? 46) || (c =? 101) || (c =? 69) || (c =? 43) || (c =? 45))%N.

Definition NUMERIC_LITERAL_REGEX : regex :=
  RCat [RStart; ROpt (RUnit 45%N);
        RAlt (RCat [RPlus digit; ROpt (RUnit 46%N); RStar digit]) (RCat [RUnit 46%N; RPlus digit]);
        ROpt (RCat [RChar (fun c => (c =? 101) || (c =? 69))%N; ROpt (RChar (fun c => (c =? 43) || (c =? 45))%N); RPlus digit]);
        REnd].

Definition numbers : regex := RPlus (RChar num_unit).
Definition unquoted : regex := RPlus (RChar (fun c => negb (c =? 34)%N)).

(** A string literal: units that are no quotation mark or reverse solidus, and
    escapes *)
Definition literal_token : regex :=
  RAlt (RChar (fun c => negb ((c =? 34) || (c =? 92))%N)) (RSeq (RUnit 92%N) RDot).
Definition string_literal : regex := RCat [RUnit 34%N; RStar literal_token; RUnit 34%N].

Definition dots : regex := RPlus RDot.

Definition time_call : list regex := [RGroup 1 (RAny TIME_FUNCS); RLit (dq "('"); RGroup 2 unquoted].

Definition range_body : list regex :=
  time_call ++ [RLit (dq "') >= "); RGroup 3 numbers; RLit (js " || "); RBackref 1; RLit (dq "('"); RBackref 2;
                RLit (dq "') < "); RGroup 4 numbers].

Definition RANGE_REGEX : regex := RCat ([RStart] ++ range_body ++ [REnd]).
Definition RANGE_PAREN_REGEX : regex := RCat ([RStart; RUnit 40%N] ++ range_body ++ [RUnit 41%N; REnd]).
Definition TIME_REGEX : regex :=
  RCat ([RStart] ++ time_call
        ++ [RLit (dq "') "); RGroup 3 (RAny [js "=="; js ">="; js "<"]); RUnit 32%N; RGroup 4 numbers; REnd]).

Definition HEADER_EXISTS_REGEX : regex :=
  RCat [RStart; RLit (dq "header('"); RGroup 1 unquoted; RLit (dq "') != ''"); REnd].
Definition PARAM_EXISTS_REGEX : regex :=
  RCat [RStart; RLit (dq "param('"); RGroup 1 unquoted; RLit (dq "') != nil"); REnd].
Definition HEADER_CONTAINS_REGEX : regex :=
  RCat [RStart; RLit (dq "has(header('"); RGroup 1 unquoted; RLit (dq "'), "); RGroup 2 string_literal; RUnit 41%N; REnd].
Definition PARAM_CONTAINS_REGEX : regex :=
  RCat [RStart; RLit (dq "param('"); RGroup 1 unquoted; RLit (dq "') != nil && has(param('"); RGroup 2 unquoted;
        RLit (dq "'), "); RGroup 3 string_literal; RUnit 41%N; REnd].
Definition PARAM_COMPARE_REGEX : regex :=
  RCat [RStart; RLit (dq "param('"); RGroup 1 unquoted; RLit (dq "') != nil && param('"); RGroup 2 unquoted;
        RLit (dq "') "); RGroup 3 (RAny [js ">"; js ">="; js "<"; js "<="]); RUnit 32%N; RGroup 4 numbers; REnd].
Definition EQ_REGEX : regex :=
  RCat [RStart; RGroup 1 (RAny [js "param"; js "header"]); RLit (dq "('"); RGroup 2 unquoted; RLit (dq "') == ");
        RGroup 3 dots; REnd].
Definition FACTOR_REGEX : regex :=
  RCat [RStart; RUnit 40%N; RGroup 1 (RPlus RAnyUnit); RLit (js " ? "); RGroup 2 numbers; RLit (js " : 1)"); REnd].

(** ** Splitting outside parentheses *)

Definition depth_after (c : N) (depth : Z) : Z :=
  let depth := if (c =? 40)%N then (depth + 1)%Z else depth in
  if (c =? 41)%N then (depth - 1)%Z else depth.

(** [skip] units of a separator are still to be passed over; [cur] is the part
    since the last one, reversed. *)
Fixpoint split_go (sep s : jsstr) (skip : nat) (depth : Z) (cur : jsstr) : list jsstr :=
  match s with
  | [] => [trim (reverse cur)]
  | c :: s' =>
      match skip with
      | S skip' => split_go sep s' skip' depth cur
      | 0 =>
          let depth := depth_after c depth in
          if (depth =? 0)%Z && starts_with sep s
          then trim (reverse cur) :: split_go sep s' (length sep - 1) depth []
          else split_go sep s' 0 depth (c :: cur)
      end
  end.

Definition split_top (sep s : jsstr) : list jsstr :=
  filter (fun p => str_true p = true) (split_go sep s 0 0 []).

Definition splitTopLevelMultiply (expr : jsstr) : list jsstr := split_top (js " * ") expr.
Definition splitTopLevelAnd (expr : jsstr) : list jsstr := split_top (js " && ") expr.

(** ** Parsing *)

(** The literal as a value, [JNull] for null *)
Definition parseExprLiteral (raw : jsstr) : jsval :=
  let text := trim raw in
  if bool_decide (text = js "true") || bool_decide (text = js "false") then JStr text
  else if str_test NUMERIC_LITERAL_REGEX text then JStr text
  else default JNull (JSON_parse text).

Definition range_condition (m : list (option jsstr)) : RequestCondition :=
  CTime (mkTime (cap 1 m) (cap 2 m) MATCH_RANGE [] (cap 3 m) (cap 4 m)).

(** The value of a table of texts, [d] when the text is missing *)
Definition table_get (t : list (jsstr * jsstr)) (k d : jsstr) : jsstr := default d (mget k t).

Definition tryParseTimeCondition (expr : jsstr) : option RequestCondition :=
  match str_match 4 RANGE_REGEX expr with
  | Some m => Some (range_condition m)
  | None =>
      match str_match 4 RANGE_PAREN_REGEX expr with
      | Some m => Some (range_condition m)
      | None =>
          m ← str_match 4 TIME_REGEX expr;
          Some (CTime (mkTime (cap 1 m) (cap 2 m)
            (table_get [(js "==", MATCH_EQ); (js ">=", MATCH_GTE); (js "<", MATCH_LT)] (cap 3 m) MATCH_EQ)
            (cap 4 m) [] []))
      end
  end.

(** [JSON.parse(m) as string] *)
Definition json_string (m : jsstr) : outcome jsstr :=
  match JSON_parse m with Some v => Returns (js_String v) | None => Throws end.

Definition parseEq (expr : jsstr) : outcome (option RequestCondition) :=
  match str_match 3 EQ_REGEX expr with
  | Some m =>
      match parseExprLiteral (cap 3 m) with
      | JNull => Returns None
      | v => Returns (Some (CParamHeader (mkPH (if bool_decide (cap 1 m = js "header") then Header else Param)
                                            (cap 2 m) MATCH_EQ (js_String v))))
      end
  | None => Returns None
  end.

Definition parseCompare (expr : jsstr) : outcome (option RequestCondition) :=
  match str_match 4 PARAM_COMPARE_REGEX expr with
  | Some m =>
      if bool_decide (cap 1 m = cap 2 m)
      then Returns (Some (CParamHeader (mkPH Param (cap 1 m)
             (table_get [(js ">", MATCH_GT); (js ">=", MATCH_GTE); (js "<", MATCH_LT); (js "<=", MATCH_LTE)] (cap 3 m) [])
             (cap 4 m))))
      else parseEq expr
  | None => parseEq expr
  end.

Definition parseParamContains (expr : jsstr) : outcome (option RequestCondition) :=
  match str_match 3 PARAM_CONTAINS_REGEX expr with
  | Some m =>
      if bool_decide (cap 1 m = cap 2 m)
      then v ← json_string (cap 3 m); Returns (Some (CParamHeader (mkPH Param (cap 1 m) MATCH_CONTAINS v)))
      else parseCompare expr
  | None => parseCompare expr
  end.

Definition tryParseRequestCondition (expr : jsstr) : outcome (option RequestCondition) :=
  match tryParseTimeCondition expr with
  | Some tc => Returns (Some tc)
  | None =>
      match str_match 1 HEADER_EXISTS_REGEX expr with
      | Some m => Returns (Some (CParamHeader (mkPH Header (cap 1 m) MATCH_EXISTS [])))
      | None =>
          match str_match 1 PARAM_EXISTS_REGEX expr with
          | Some m => Returns (Some (CParamHeader (mkPH Param (cap 1 m) MATCH_EXISTS [])))
          | None =>
              match str_match 2 HEADER_CONTAINS_REGEX expr with
              | Some m => v ← json_string (cap 2 m); Returns (Some (CParamHeader (mkPH Header (cap 1 m) MATCH_CONTAINS v)))
              | None => parseParamContains expr
              end
          end
      end
  end.

(** The loop over the parts, with its early return *)
Fixpoint parse_parts {A} (f : jsstr → outcome (option A)) (parts : list jsstr) : outcome (option (list A)) :=
  match parts with
  | [] => Returns (Some [])
  | p :: parts' =>
      r ← f p;
      match r with
      | None => Returns None
      | Some a => rs ← parse_parts f parts'; Returns (option_map (cons a) rs)
      end
  end.

Definition tryParseRequestConditions (conditionStr : jsstr) : outcome (option (list RequestCondition)) :=
  r ← parse_parts (fun part => tryParseRequestCondition (trim part)) (splitTopLevelAnd conditionStr);
  Returns (match r with Some [] => None | r => r end).

Definition tryParseRuleGroupFactor (part : jsstr) : outcome (option RequestRuleGroup) :=
  match str_match 2 FACTOR_REGEX part with
  | None => Returns None
  | Some m =>
      cs ← tryParseRequestConditions (cap 1 m);
      Returns (option_map (fun cs => mkGroup cs (cap 2 m) None None) cs)
  end.

Definition requestRuleGroupsFromTrace (requestRules : list RequestRuleTrace) : outcome (list RequestRuleGroup) :=
  foldr (fun rule acc =>
    let conditionText := trim (tr_cond rule) in
    cs ← tryParseRequestConditions conditionText;
    rest ← acc;
    Returns (mkGroup (default [] cs) (num_str (tr_multiplier rule)) (Some conditionText) (Some (tr_matched rule)) :: rest))
    (Returns []) requestRules.

Definition tryParseRequestRuleExpr (expr : jsstr) : outcome (option (list RequestRuleGroup)) :=
  let trimmed := trim expr in
  if str_true trimmed then parse_parts tryParseRuleGroupFactor (splitTopLevelMultiply trimmed)
  else Returns (Some []).

(** ** Splitting off the rules *)

Fixpoint full_go (s : jsstr) (depth : Z) : bool :=
  match s with
  | [] => (depth =? 0)%Z
  | c :: s' =>
      let depth := depth_after c depth in
      if (depth =? 0)%Z && str_true s' then false else full_go s' depth
  end.

Definition hasFullOuterParens (expr : jsstr) : bool :=
  starts_with [40%N] expr && ends_with [41%N] expr && full_go expr 0.

Fixpoint unwrap_go (fuel : nat) (current : jsstr) : jsstr :=
  match fuel with
  | 0 => current
  | S fuel' =>
      if hasFullOuterParens current then unwrap_go fuel' (trim (slice 1 (length current - 1) current)) else current
  end.

Definition unwrapOuterParens (expr : jsstr) : jsstr := let current := trim expr in unwrap_go (length current) current.

Record SplitExpr := mkSplit { billingExpr : jsstr; requestRuleExpr : jsstr }.

(** The parts that are rules and the parts that are not *)
Fixpoint classify (parts : list jsstr) : outcome (list jsstr * list jsstr) :=
  match parts with
  | [] => Returns ([], [])
  | p :: parts' =>
      parsed ← tryParseRequestRuleExpr p;
      '(rules, bases) ← classify parts';
      Returns (match parsed with Some (_ :: _) => (p :: rules, bases) | _ => (rules, p :: bases) end)
  end.

Definition splitBillingExprAndRequestRules (expr : jsstr) : outcome SplitExpr :=
  let trimmed := trim expr in
  if str_true trimmed then
    let parts := splitTopLevelMultiply trimmed in
    if length parts <=? 1 then Returns (mkSplit trimmed [])
    else
      '(ruleParts, baseParts) ← classify parts;
      Returns (match ruleParts, baseParts with
               | _ :: _, [b] => mkSplit (unwrapOuterParens b) (str_join (js " * ") ruleParts)
               | _, _ => mkSplit trimmed []
               end)
  else Returns (mkSplit [] []).

Definition combineBillingExpr (baseExpr ruleExpr : jsstr) : jsstr :=
  let base := trim baseExpr in
  let rules := trim ruleExpr in
  if str_true base then
    if str_true rules then [40%N] ++ base ++ js ") * " ++ rules else base
  else [].

(** ** The editor *)

Definition createEmptyCondition : ParamHeaderCondition := mkPH Param [] MATCH_EQ [].
Definition createEmptyTimeCondition : TimeCondition :=
  mkTime (js "hour") (js "Asia/Shanghai") MATCH_GTE [] [] [].
Definition createEmptyRuleGroup : RequestRuleGroup :=
  mkGroup [CParamHeader createEmptyCondition] [] None None.
Definition createEmptyTimeRuleGroup : RequestRuleGroup :=
  mkGroup [CTime createEmptyTimeCondition] [] None None.

Record MatchOption := mkOption { o_value : jsstr; labelKey : jsstr }.

Definition getRequestRuleMatchOptions (source : jsstr) : list MatchOption :=
  if bool_decide (source = SOURCE_TIME) then
    [mkOption MATCH_EQ (js "Equals"); mkOption MATCH_GTE (js "Greater than or equal");
     mkOption MATCH_LT (js "Less than"); mkOption MATCH_RANGE (js "Overnight range")]
  else
    let base := [mkOption MATCH_EQ (js "Equals"); mkOption MATCH_CONTAINS (js "Contains");
                 mkOption MATCH_EXISTS (js "Exists")] in
    if bool_decide (source = SOURCE_HEADER) then base
    else base ++ [mkOption MATCH_GT (js "Greater than"); mkOption MATCH_GTE (js "Greater than or equal");
                  mkOption MATCH_LT (js "Less than"); mkOption MATCH_LTE (js "Less than or equal")].

(** A condition some of whose fields may be missing *)
Record PartialCondition := mkPartial {
  p_source : option jsstr; p_path : option jsstr; p_mode : option jsstr; p_value : option jsstr;
  p_timeFunc : option jsstr; p_timezone : option jsstr; p_rangeStart : option jsstr; p_rangeEnd : option jsstr
}.

Definition isTimeFunc (v : option jsstr) : option jsstr :=
  match v with Some f => if bool_decide (f ∈ TIME_FUNCS) then Some f else None | None => None end.

(** The mode if the source offers it *)
Definition offered_mode (source : jsstr) (mode : option jsstr) (d : jsstr) : jsstr :=
  match mode with
  | Some m =>
      if existsb (fun item => bool_decide (o_value item = m)) (getRequestRuleMatchOptions source) then m else d
  | None => d
  end.

Definition source_name (s : ParamSource) : jsstr := match s with Param => SOURCE_PARAM | Header => SOURCE_HEADER end.

Definition normalizeCondition (cond : option PartialCondition) : RequestCondition :=
  let get f := c ← cond; f c in
  if bool_decide (get p_source = Some SOURCE_TIME) then
    CTime (mkTime (default (js "hour") (isTimeFunc (get p_timeFunc)))
             (str_or (ostr (get p_timezone)) (js "Asia/Shanghai"))
             (offered_mode SOURCE_TIME (get p_mode) MATCH_GTE)
             (ostr (get p_value)) (ostr (get p_rangeStart)) (ostr (get p_rangeEnd)))
  else
    let source := if bool_decide (get p_source = Some SOURCE_HEADER) then Header else Param in
    CParamHeader (mkPH source (ostr (get p_path)) (offered_mode (source_name source) (get p_mode) MATCH_EQ)
                    (ostr (get p_value))).

Definition partial_of (c : RequestCondition) : PartialCondition :=
  match c with
  | CTime t => mkPartial (Some SOURCE_TIME) None (Some (t_mode t)) (Some (t_value t)) (Some (timeFunc t))
                 (Some (timezone t)) (Some (rangeStart t)) (Some (rangeEnd t))
  | CParamHeader p => mkPartial (Some (source_name (ph_source p))) (Some (ph_path p)) (Some (ph_mode p))
                        (Some (ph_value p)) None None None None
  end.

(** ** Printing *)

Definition is_numeric (s : jsstr) : bool := str_test NUMERIC_LITERAL_REGEX s.

Definition buildExprLiteral (mode value : jsstr) : jsstr :=
  let text := trim value in
  if bool_decide (mode = MATCH_CONTAINS) then JSON_stringify_str text
  else if bool_decide (text = js "true") || bool_decide (text = js "false") then text
  else if is_numeric text then text
  else JSON_stringify_str text.

(** [`${f}(${JSON.stringify(arg)})`] *)
Definition call_expr (f arg : jsstr) : jsstr := f ++ [40%N] ++ JSON_stringify_str arg ++ [41%N].

Definition time_ops : list (jsstr * jsstr) := [(MATCH_EQ, js "=="); (MATCH_GTE, js ">="); (MATCH_LT, js "<")].
Definition compare_ops : list (jsstr * jsstr) :=
  [(MATCH_GT, js ">"); (MATCH_GTE, js ">="); (MATCH_LT, js "<"); (MATCH_LTE, js "<=")].

(** The text of a normalised condition *)
Definition time_expr (n : TimeCondition) : jsstr :=
  let fn := call_expr (timeFunc n) (timezone n) in
  if bool_decide (t_mode n = MATCH_RANGE) then
    let s := trim (rangeStart n) in
    let e := trim (rangeEnd n) in
    if negb (is_numeric s) || negb (is_numeric e) then []
    else fn ++ js " >= " ++ s ++ js " || " ++ fn ++ js " < " ++ e
  else
    let v := trim (t_value n) in
    if negb (is_numeric v) then []
    else fn ++ [32%N] ++ table_get time_ops (t_mode n) (js "==") ++ [32%N] ++ v.

Definition buildTimeConditionExpr (cond : TimeCondition) : jsstr :=
  match normalizeCondition (Some (partial_of (CTime cond))) with
  | CTime n => time_expr n
  | CParamHeader _ => []
  end.

Definition param_header_expr (n : ParamHeaderCondition) : jsstr :=
  let path := trim (ph_path n) in
  if str_true path then
    let sourceExpr := call_expr (source_name (ph_source n)) path in
    if bool_decide (ph_mode n = MATCH_EXISTS) then
      match ph_source n with Header => sourceExpr ++ dq " != ''" | Param => sourceExpr ++ js " != nil" end
    else if bool_decide (ph_mode n = MATCH_CONTAINS) then
      let has := js "has(" ++ sourceExpr ++ js ", " ++ buildExprLiteral (ph_mode n) (ph_value n) ++ [41%N] in
      match ph_source n with Header => has | Param => sourceExpr ++ js " != nil && " ++ has end
    else if bool_decide (ph_mode n ∈ compare_ops.*1) then
      let numText := trim (ph_value n) in
      if negb (is_numeric numText) then []
      else sourceExpr ++ js " != nil && " ++ sourceExpr ++ [32%N] ++ table_get compare_ops (ph_mode n) [] ++ [32%N] ++ numText
    else sourceExpr ++ js " == " ++ buildExprLiteral (ph_mode n) (ph_value n)
  else [].

Definition buildRequestConditionExpr (cond : RequestCondition) : jsstr :=
  match cond with
  | CTime t => buildTimeConditionExpr t
  | CParamHeader _ =>
      match normalizeCondition (Some (partial_of cond)) with
      | CParamHeader n => param_header_expr n
      | CTime _ => []
      end
  end.

Definition buildRuleGroupFactor (group : RequestRuleGroup) : jsstr :=
  let multiplier := trim (multiplier group) in
  if negb (is_numeric multiplier) then []
  else
    let condExprs := filter (fun e => str_true e = true) (buildRequestConditionExpr <$> conditions group) in
    match condExprs with
    | [] => []
    | _ =>
        let combined :=
          match condExprs with
          | [e] => e
          | es => str_join (js " && ") ((fun e => if includes (js " || ") e then [40%N] ++ e ++ [41%N] else e) <$> es)
          end in
        [40%N] ++ combined ++ js " ? " ++ multiplier ++ js " : 1)"
    end.

Definition buildRequestRuleExpr (groups : list RequestRuleGroup) : jsstr :=
  str_join (js " * ") (filter (fun f => str_true f = true) (buildRuleGroupFactor <$> groups)).

Example rules_sample :
  let night := CTime (mkTime (js "hour") (js "UTC") MATCH_RANGE [] (js "22") (js "6")) in
  let beta := CParamHeader (mkPH Header (js "x-beta") MATCH_CONTAINS (js "a (b)")) in
  let fast := CParamHeader (mkPH Param (js "service_tier") MATCH_EQ (js " fast ")) in
  let gs := [mkGroup [night; beta] (js "1.5") None None; mkGroup [fast] (js "2") None None] in
  buildRequestRuleExpr gs
  = dq "((hour('UTC') >= 22 || hour('UTC') < 6) && has(header('x-beta'), 'a (b)') ? 1.5 : 1) * (param('service_tier') == 'fast' ? 2 : 1)"
  ∧ tryParseRequestRuleExpr (buildRequestRuleExpr gs)
    = Returns (Some [mkGroup [night; beta] (js "1.5") None None;
                     mkGroup [CParamHeader (mkPH Param (js "service_tier") MATCH_EQ (js "fast"))] (js "2") None None]).
Proof. vm_compute. split; reflexivity. Qed.

Example rules_compare_sample :
  tryParseRequestRuleExpr (buildRequestRuleExpr
    [mkGroup [CParamHeader (mkPH Param (js "n") MATCH_GT (js "3"))] (js "2") None None]) = Returns None.
Proof. vm_compute. reflexivity. Qed.

(** ** Texts that the printed form shows as they are *)

(** A unit of a path or time zone that [JSON.stringify] does not escape and that
    is no parenthesis or bar *)
Definition plain_unit (c : N) : bool :=
  ((32 <=? c) && negb (c =? 34) && negb (c =? 92) && negb (c =? 40) && negb (c =? 41) && negb (c =? 124))%N
  && negb (is_high_surrogate c) && negb (is_low_surrogate c).

Definition plain (s : jsstr) : Prop := Forall (fun c => plain_unit c = true) s.

(** A unit of a compared value that no splitting and no [.] stumbles over *)
Definition marks : list N := [40; 41; 38; 124; 0x2028; 0x2029]%N.
Definition quiet_unit (c : N) : bool := (c <? 65536)%N && negb (bool_decide (c ∈ marks)).
Definition quiet (s : jsstr) : Prop := Forall (fun c => quiet_unit c = true) s.

(** A unit of the literal of such a value *)
Definition literal_unit (c : N) : bool := (32 <=? c)%N && negb (bool_decide (c ∈ marks)).

Lemma plain_escape_unit c : plain_unit c = true → escape_unit c = [c].
Proof.
  unfold plain_unit, escape_unit. intros H. bsplit. rewrite N.leb_le, N.eqb_neq in *.
  assert (((c <? 32) || is_high_surrogate c || is_low_surrogate c)%N = false) as E.
  { apply orb_false_iff. split; [apply orb_false_iff; split; [by apply N.ltb_ge|done]|done]. }
  rewrite E. repeat case_match; first [done|lia|congruence].
Qed.

Lemma json_escape_plain s : plain s → json_escape s = s.
Proof.
  intros H. induction H as [|c s Hc Hs IH]; [done|]. destruct s as [|d s].
  - by apply plain_escape_unit.
  - cbn [json_escape] in *. destruct (is_high_surrogate c) eqn:E.
    { exfalso. unfold plain_unit in Hc. bsplit. congruence. }
    simpl. by rewrite plain_escape_unit, IH.
Qed.

Lemma stringify_plain s : plain s → JSON_stringify_str s = 34%N :: s ++ [34%N].
Proof. intros H. unfold JSON_stringify_str. by rewrite json_escape_plain. Qed.

Lemma literal_hex d : (d < 16)%N → literal_unit (hex_char d) = true.
Proof.
  intros H. assert (Forall (fun d => literal_unit (hex_char d) = true) (N.of_nat <$> seq 0 16)) as Hall by (by repeat constructor).
  rewrite Forall_forall in Hall. apply Hall. apply list_elem_of_fmap. exists (N.to_nat d). split; [lia|].
  apply elem_of_seq. lia.
Qed.

Lemma literal_escape_unit c : quiet_unit c = true → Forall (fun d => literal_unit d = true) (escape_unit c).
Proof.
  unfold quiet_unit. intros H. apply andb_true_iff in H as [Hlt Hm]. apply N.ltb_lt in Hlt.
  assert (Forall (fun d => literal_unit d = true) (unicode_escape c)) as Hu.
  { unfold unicode_escape. repeat constructor; apply literal_hex;
      first [apply N.mod_lt; lia|apply N.Div0.div_lt_upper_bound; lia]. }
  unfold escape_unit. destruct (_ || _) eqn:E.
  - repeat case_match; first [exact Hu|by repeat constructor].
  - apply orb_false_iff in E as [E _]. apply orb_false_iff in E as [E _].
    assert (literal_unit c = true) as Hc by (unfold literal_unit; apply N.ltb_ge in E; by rewrite (proj2 (N.leb_le _ _) E)).
    repeat case_match; try (by repeat constructor).
Qed.

Lemma json_escape_quiet s : quiet s → Forall (fun d => literal_unit d = true) (json_escape s).
Proof.
  remember (length s) as n eqn:Hn. revert s Hn. induction n as [n IH] using lt_wf_ind. intros s -> H.
  destruct s as [|c s]; [constructor|]. apply Forall_cons in H as [Hc H]. destruct s as [|d s].
  - by apply literal_escape_unit.
  - assert (Forall (fun d => literal_unit d = true) (json_escape (d :: s))) as Hds
      by (apply (IH (length (d :: s))); [simpl; lia|done|done]).
    cbn [json_escape] in *. destruct (_ && _) eqn:E.
    + apply andb_true_iff in E as [E1 E2]. apply Forall_cons in H as [Hd H].
      assert (∀ x, (is_high_surrogate x || is_low_surrogate x) = true → quiet_unit x = true → literal_unit x = true) as Hx.
      { intros x Hs Hq. unfold quiet_unit in Hq. apply andb_true_iff in Hq as [_ Hq]. unfold literal_unit.
        rewrite Hq, andb_true_r. apply N.leb_le. unfold is_high_surrogate, is_low_surrogate in Hs.
        apply orb_true_iff in Hs as [Hs|Hs]; apply andb_true_iff in Hs as [Hs _]; apply N.leb_le in Hs; lia. }
      constructor; [apply Hx; [by rewrite E1|done]|]. constructor; [apply Hx; [by rewrite E2, orb_true_r|done]|].
      apply (IH (length s)); [simpl; lia|done|done].
    + apply Forall_app. split; [by apply literal_escape_unit|done].
Qed.

Lemma quiet_units s : quiet s → units s.
Proof.
  intros H. eapply Forall_impl; [exact H|]. intros c Hc. unfold quiet_unit in Hc.
  apply andb_true_iff in Hc as [Hc _]. by apply N.ltb_lt.
Qed.

(** Numerals *)
Lemma is_numeric_units s : is_numeric s = true → s ≠ [] ∧ Forall (fun c => num_unit c = true) s.
Proof.
  unfold is_numeric, str_test. destruct (exec_from 0 NUMERIC_LITERAL_REGEX [] s) as [st|] eqn:E; [|done]. intros _.
  unfold NUMERIC_LITERAL_REGEX in E. change (RCat (RStart :: ?l)) with (RSeq RStart (RCat l)) in E.
  rewrite exec_from_anchored in E. unfold exec_at in E.
  assert (∀ c, is_digit c = true → num_unit c = true) as Hd by (intros c Hc; unfold num_unit; by rewrite Hc).
  split.
  - intros ->. by vm_compute in E.
  - apply (rmatch_consumes num_unit) in E as (w & st' & Hw & Hall & Hend & _).
    + simpl in Hw. rewrite Hw, Hend by done. by rewrite app_nil_r.
    + simpl. split_and!; try done; intros c Hc; unfold num_unit; try (by rewrite Hd0);
        bsplit; rewrite ?N.eqb_eq in Hc; naive_solver.
Qed.

(** ** Text that is not split *)

(** The depth after [s] when no position of it at depth 0 begins a separator
    [" x..."]; [None] when one may *)
Fixpoint calm (x : N) (s : jsstr) (depth : Z) : option Z :=
  match s with
  | [] => Some depth
  | c :: s' =>
      let depth := depth_after c depth in
      if (depth =? 0)%Z && (c =? 32)%N && match s' with y :: _ => (y =? x)%N | [] => false end then None
      else calm x s' depth
  end.

Lemma calm_app x a b d d1 d2 :
  calm x a d = Some d1 → calm x b d1 = Some d2 → last a ≠ Some 32%N ∨ head b ≠ Some x →
  calm x (a ++ b) d = Some d2.
Proof.
  intros Ha Hb Hx. revert d Ha. induction a as [|c a IH]; intros d Ha; [simpl in *; by simplify_eq|].
  destruct a as [|y a].
  - simpl in *. rewrite andb_false_r in Ha. injection Ha as ->. destruct b as [|y b]; [by rewrite andb_false_r|].
    destruct ((d1 =? 0)%Z && (c =? 32)%N && (y =? x)%N) eqn:E; [|done]. exfalso. bsplit.
    rewrite N.eqb_eq in *. naive_solver.
  - specialize (IH Hx (depth_after c d)). cbn [calm app] in *. destruct (_ && _ && (y =? x)%N); [done|]. by apply IH.
Qed.

Lemma split_go_calm x sep s t d d' cur :
  calm x s d = Some d' → (∀ t', t ≠ x :: t') →
  split_go (32%N :: x :: sep) (s ++ t) 0 d cur = split_go (32%N :: x :: sep) t 0 d' (reverse s ++ cur).
Proof.
  intros Hs Ht. revert d cur Hs. induction s as [|c s IH]; intros d cur Hs; simpl in *; [by simplify_eq|].
  destruct (_ && match s with [] => _ | _ => _ end) eqn:E; [done|].
  rewrite (IH _ _ Hs), reverse_cons, <- app_assoc.
  destruct ((depth_after c d =? 0)%Z && (bool_decide (32%N = c) && _)) eqn:E'; [|done]. exfalso.
  bsplit. subst c. destruct (s ++ t) as [|y u] eqn:Es; [done|]. bsplit. subst y.
  rewrite H, N.eqb_refl in E. simpl in E. destruct s as [|z s]; simpl in *.
  - by apply (Ht u).
  - injection Es as -> _.
    rewrite N.eqb_refl in E. by destruct E.
Qed.

(** Inside parentheses nothing is split; outside, text without the second unit
    of the separator is not. *)
Lemma calm_inside x s d : Forall (fun c => c ≠ 40 ∧ c ≠ 41)%N s → d ≠ 0%Z → calm x s d = Some d.
Proof.
  intros Hs Hd. induction Hs as [|c s [H1 H2] _ IH]; simpl; [done|]. unfold depth_after.
  rewrite (proj2 (N.eqb_neq c 40)), (proj2 (N.eqb_neq c 41)), (proj2 (Z.eqb_neq d 0)) by done. done.
Qed.

Lemma calm_outside x s d : Forall (fun c => c ≠ 40 ∧ c ≠ 41 ∧ c ≠ x)%N s → calm x s d = Some d.
Proof.
  intros Hs. induction Hs as [|c s (H1 & H2 & H3) Hs IH]; simpl; [done|]. unfold depth_after.
  rewrite (proj2 (N.eqb_neq c 40)), (proj2 (N.eqb_neq c 41)) by done.
  destruct (_ && _) eqn:E; [|done]. exfalso. destruct s as [|y s]; [by rewrite andb_false_r in E|].
  apply andb_true_iff in E as [_ E]. apply N.eqb_eq in E. apply Forall_cons in Hs as [(_ & _ & H) _]. done.
Qed.

(** ** Trimming does nothing between visible ends *)
Lemma trim_ends s c t l d : s = c :: t → s = l ++ [d] → is_ws c = false → is_ws d = false → trim s = s.
Proof.
  intros E1 E2 Hc Hd. unfold trim, trim_end. assert (trim_start s = s) as -> by (rewrite E1; simpl; by rewrite Hc).
  rewrite E2, reverse_app. simpl. rewrite Hd. by rewrite reverse_cons, reverse_involutive.
Qed.

(** ** String literals *)

(** The inside of a literal: units that need no escape, and escapes *)
Inductive lit_tokens : jsstr → Prop :=
| lt_nil : lit_tokens []
| lt_unit c s : c ≠ 34%N → c ≠ 92%N → lit_tokens s → lit_tokens (c :: s)
| lt_escape c s : is_line_terminator c = false → lit_tokens s → lit_tokens (92%N :: c :: s).

Lemma lit_tokens_app a b : lit_tokens a → lit_tokens b → lit_tokens (a ++ b).
Proof. induction 1; simpl; [done|by constructor; auto..]. Qed.

Lemma lit_tokens_hex s : Forall (fun c => ∃ d, (d < 16)%N ∧ c = hex_char d) s → lit_tokens s.
Proof.
  induction 1 as [|c s (d & Hd & ->) _ IH]; [constructor|].
  assert (hex_char d ≠ 34 ∧ hex_char d ≠ 92)%N as [H1 H2] by (unfold hex_char; destruct (N.ltb_spec d 10); lia).
  by constructor.
Qed.

Lemma lit_tokens_unit c : (c < 65536)%N → lit_tokens (escape_unit c).
Proof.
  intros Hc. assert (lit_tokens (unicode_escape c)) as Hu.
  { unfold unicode_escape. constructor; [done|]. apply lit_tokens_hex.
    repeat constructor; eexists; (split; [|reflexivity]);
      first [apply N.mod_lt; lia|apply N.Div0.div_lt_upper_bound; lia]. }
  unfold escape_unit. destruct (_ || _) eqn:E;
    repeat case_match; try exact Hu; repeat (first [apply lt_escape; [done|]|apply lt_unit; [done|done|]|apply lt_nil]).
Qed.

Lemma lit_tokens_escape s : units s → lit_tokens (json_escape s).
Proof.
  remember (length s) as n eqn:Hn. revert s Hn. induction n as [n IH] using lt_wf_ind. intros s -> H.
  destruct s as [|c s]; [constructor|]. apply Forall_cons in H as [Hc H]. destruct s as [|d s].
  - by apply lit_tokens_unit.
  - assert (lit_tokens (json_escape (d :: s))) as Hds by (apply (IH (length (d :: s))); [simpl; lia|done|done]).
    cbn [json_escape] in *. destruct (_ && _) eqn:E.
    + apply andb_true_iff in E as [E1 E2]. apply Forall_cons in H as [Hd H].
      unfold is_high_surrogate, is_low_surrogate in *. apply andb_true_iff in E1 as [E1 _], E2 as [E2 _].
      apply N.leb_le in E1, E2. constructor; [lia|lia|]. constructor; [lia|lia|].
      apply (IH (length s)); [simpl; lia|done|done].
    + apply lit_tokens_app; [by apply lit_tokens_unit|done].
Qed.

(** A literal is read to its closing quotation mark. *)
Lemma match_tokens {X} u t b c (k : mstate → option X) x :
  lit_tokens u → k (mkM (reverse u ++ b) (34%N :: t) c) = Some x →
  rmatch (RStar literal_token) (mkM b (u ++ 34%N :: t) c) k = Some x.
Proof.
  intros Hu. revert b. induction Hu as [|d u H1 H2 Hu IH|d u Hd Hu IH]; intros b Hk; rewrite rmatch_star; cbn [rest].
  - simpl. done.
  - rewrite reverse_cons, <- app_assoc in Hk. specialize (IH _ Hk).
    match goal with |- match rmatch _ _ ?f with _ => _ end = _ => set (K := f) end.
    assert (K (mkM (d :: b) (u ++ 34%N :: t) c) = Some x) as HK.
    { unfold K. cbn [rest]. rewrite (proj2 (Nat.ltb_lt _ _)); [exact IH|]. simpl. lia. }
    clearbody K. simpl. rewrite (proj2 (N.eqb_neq d 34)), (proj2 (N.eqb_neq d 92)) by done. simpl.
    unfold advance. simpl. by rewrite HK.
  - rewrite !reverse_cons, <- !app_assoc in Hk. specialize (IH _ Hk).
    match goal with |- match rmatch _ _ ?f with _ => _ end = _ => set (K := f) end.
    assert (K (mkM (d :: 92%N :: b) (u ++ 34%N :: t) c) = Some x) as HK.
    { unfold K. cbn [rest]. rewrite (proj2 (Nat.ltb_lt _ _)); [exact IH|]. simpl. lia. }
    clearbody K. simpl. rewrite Hd. unfold advance. simpl. by rewrite HK.
Qed.

Lemma match_literal {X} u t b c (k : mstate → option X) x :
  lit_tokens u → k (mkM (34%N :: reverse u ++ 34%N :: b) t c) = Some x →
  rmatch string_literal (mkM b (34%N :: u ++ 34%N :: t) c) k = Some x.
Proof.
  intros Hu Hk.
  change (rmatch (RStar literal_token) (mkM (34%N :: b) (u ++ 34%N :: t) c) (fun st => rmatch (RUnit 34) st k) = Some x).
  by apply match_tokens.
Qed.

(** ** Running the expressions on printed text *)

Lemma plain_unquoted p : plain p → Forall (fun c => negb (c =? 34)%N = true) p.
Proof. intros H. eapply Forall_impl; [exact H|]. intros c Hc. unfold plain_unit in Hc.
  destruct (c =? 34)%N; [|done]. simpl in Hc. by rewrite andb_false_r in Hc.
Qed.

Lemma unquoted_run {X} p t b c (k : mstate → option X) :
  p ≠ [] → plain p → refuses (fun c => negb (c =? 34)%N) k →
  rmatch unquoted (mkM b (p ++ 34%N :: t) c) k = k (mkM (reverse p ++ b) (34%N :: t) c).
Proof.
  intros Hne Hp Hk. apply rmatch_run; [done|by apply plain_unquoted| |done]. by intros y t' [= <- _].
Qed.

Lemma numbers_run {X} v y t b c (k : mstate → option X) :
  is_numeric v = true → num_unit y = false → refuses num_unit k →
  rmatch numbers (mkM b (v ++ y :: t) c) k = k (mkM (reverse v ++ b) (y :: t) c).
Proof.
  intros Hv Hy Hk. apply is_numeric_units in Hv as [? ?]. apply rmatch_run; [done..| |done]. by intros z t' [= <- _].
Qed.

Lemma numbers_run_end {X} v b c (k : mstate → option X) :
  is_numeric v = true → refuses num_unit k →
  rmatch numbers (mkM b v c) k = k (mkM (reverse v ++ b) [] c).
Proof.
  intros Hv Hk. apply is_numeric_units in Hv as [? ?].
  pose proof (rmatch_run num_unit v [] b c k) as E. rewrite app_nil_r in E. by apply E.
Qed.

Lemma take_run_end (w : jsstr) : take (length w - 0) w = w.
Proof. rewrite Nat.sub_0_r. apply firstn_all. Qed.

(** Spells out the literals of the goal. *)
Ltac lits :=
  repeat match goal with
  | |- context [dq ?s] => let v := eval vm_compute in (dq s) in replace (dq s) with v by (vm_compute; reflexivity)
  | |- context [js ?s] => let v := eval vm_compute in (js s) in replace (js s) with v by (vm_compute; reflexivity)
  end.

Ltac rx_eval := cbn -[unquoted numbers string_literal dots reverse take length num_unit is_numeric starts_with drop].
Ltac rx_cbn := rx_eval.

(** What follows a run refuses its units. *)
Ltac rx_refuse :=
  intros ? ?y ? ? ?Hy; cbn -[num_unit unquoted numbers string_literal dots]; try done;
  match goal with |- context [(?y =? ?n)%N] => destruct (N.eqb_spec y n) as [->|]; [by vm_compute in Hy|done] end.

Ltac rx_step :=
  first
    [ rewrite unquoted_run by (first [assumption|rx_refuse])
    | rewrite numbers_run by (first [assumption|done|rx_refuse])
    | rewrite numbers_run_end by (first [assumption|rx_refuse]) ].

Ltac rx_start :=
  match goal with |- context [str_match ?n ?r ?s] => try unfold r end; cbn [RCat app range_body time_call];
  rewrite str_match_anchored; unfold exec_at, TIME_FUNCS; cbn [RAny]; lits; rx_cbn.

(** The captures of concrete text *)
Ltac prefix_of a b :=
  match a with
  | b => constr:(@nil N)
  | ?x :: ?a' => let r := prefix_of a' b in constr:(x :: r)
  end.

Ltac rx_take :=
  first
    [ rewrite take_run
    | rewrite take_run_end
    | match goal with |- context [take (length ?a - length ?b) ?a] =>
        let w := prefix_of a b in
        replace (take (length a - length b) a) with w by (symmetry; exact (take_run w b))
      end ].

(** A back reference *)
Ltac rx_ref :=
  match goal with
  | |- context [starts_with (?x :: ?w) ?s] =>
      let d := eval cbn in (drop (length (x :: w)) s) in
      change (drop (length (x :: w)) s) with d;
      replace (starts_with (x :: w) s) with true by reflexivity
  | |- context [starts_with ?w (?w ++ ?t)] => rewrite (starts_with_app w t), (drop_app_length w t)
  end.

Ltac rx := rx_start; repeat first [rx_take|rx_step; rx_cbn|rx_ref; rx_cbn].

(** The expressions that do not match *)
Ltac rx_none :=
  match goal with |- context [str_match ?n ?r ?s] =>
    let E := fresh "E" in assert (str_match n r s = None) as E by (rx; reflexivity); rewrite E; clear E
  end; cbn match.

Ltac rx_some :=
  match goal with |- context [str_match ?n ?r ?s] =>
    let E := fresh "E" in
    let m := fresh "m" in
    evar (m : list (option jsstr));
    assert (str_match n r s = Some m) as E by (unfold m; rx; reflexivity);
    rewrite E; unfold m; clear E m
  end; cbn match.

(** [`f("p")`] *)
Definition call (f p : jsstr) : jsstr := f ++ [40; 34]%N ++ p ++ [34; 41]%N.

Lemma call_app f p t : call f p ++ t = f ++ [40; 34]%N ++ p ++ [34; 41]%N ++ t.
Proof. unfold call. by rewrite <- !app_assoc. Qed.

Lemma parse_exists_header p : p ≠ [] → plain p →
  tryParseRequestCondition (call (js "header") p ++ dq " != ''")
  = Returns (Some (CParamHeader (mkPH Header p MATCH_EXISTS []))).
Proof.
  intros Hne Hp. rewrite call_app. unfold tryParseRequestCondition, tryParseTimeCondition.
  do 3 rx_none. rx_some. reflexivity.
Qed.

Lemma parse_exists_param p : p ≠ [] → plain p →
  tryParseRequestCondition (call (js "param") p ++ js " != nil")
  = Returns (Some (CParamHeader (mkPH Param p MATCH_EXISTS []))).
Proof.
  intros Hne Hp. rewrite call_app. unfold tryParseRequestCondition, tryParseTimeCondition.
  do 4 rx_none. rx_some. reflexivity.
Qed.

Lemma take_literal (u t : jsstr) :
  take (length (34%N :: u ++ 34%N :: t) - length t) (34%N :: u ++ 34%N :: t) = 34%N :: u ++ [34%N].
Proof.
  assert (34%N :: u ++ 34%N :: t = (34%N :: u ++ [34%N]) ++ t) as -> by (simpl; by rewrite <- app_assoc).
  apply take_run.
Qed.

Lemma json_string_stringify v : units v → json_string (JSON_stringify_str v) = Returns v.
Proof. intros Hv. unfold json_string. by rewrite JSON_parse_stringify. Qed.

Lemma parse_contains_header p v : p ≠ [] → plain p → units v →
  tryParseRequestCondition (js "has(" ++ call (js "header") p ++ js ", " ++ JSON_stringify_str v ++ [41%N])
  = Returns (Some (CParamHeader (mkPH Header p MATCH_CONTAINS v))).
Proof.
  intros Hne Hp Hv. rewrite call_app. unfold tryParseRequestCondition, tryParseTimeCondition.
  assert (lit_tokens (json_escape v)) as Ht by (by apply lit_tokens_escape).
  pose proof (json_string_stringify v Hv) as Hj. unfold JSON_stringify_str in *. set (u := json_escape v) in *. clearbody u.
  cbn [app]. rewrite <- (app_assoc u). cbn [app].
  do 5 rx_none.
  assert (∃ m, str_match 2 HEADER_CONTAINS_REGEX (js "has(" ++ js "header" ++ 40%N :: 34%N :: p
    ++ 34%N :: 41%N :: js ", " ++ 34%N :: u ++ [34%N; 41%N]) = Some m ∧ cap 1 m = p ∧ cap 2 m = 34%N :: u ++ [34%N])
    as (m & -> & -> & ->).
  { eexists. split; [|split].
    - rx. erewrite match_literal; [|done|rx_cbn; reflexivity]. rx_cbn. rewrite ?take_run, ?(take_literal u [41%N]). reflexivity.
    - reflexivity.
    - reflexivity. }
  rewrite Hj. reflexivity.
Qed.

(** The compared literal *)
Lemma dots_run v b c {X} (k : mstate → option X) x :
  v ≠ [] → Forall (fun d => is_line_terminator d = false) v → k (mkM (reverse v ++ b) [] c) = Some x →
  rmatch dots (mkM b v c) k = Some x.
Proof.
  intros Hne Hv Hk. destruct v as [|d v]; [done|]. apply Forall_cons in Hv as [Hd Hv].
  change (rmatch RDot (mkM b (d :: v) c) (fun st => rmatch (RStar RDot) st k) = Some x).
  unfold RDot at 1. cbn [rmatch rest]. rewrite Hd. cbn [negb].
  change (rmatch (RStar RDot) (mkM (d :: b) v c) k = Some x). unfold RDot. rewrite rmatch_class_star. cbn [before rest caps].
  rewrite <- (app_nil_r v). apply greedy_run; [|done|].
  - eapply Forall_impl; [exact Hv|]. intros e He. simpl in He. by rewrite He.
  - by rewrite reverse_cons, <- app_assoc in Hk.
Qed.

Lemma parse_eq src p l v : p ≠ [] → plain p → l ≠ [] → Forall (fun d => is_line_terminator d = false) l →
  parseExprLiteral l = JStr v →
  tryParseRequestCondition (call (source_name src) p ++ js " == " ++ l)
  = Returns (Some (CParamHeader (mkPH src p MATCH_EQ v))).
Proof.
  intros Hne Hp Hl Hline Hlit. rewrite call_app.
  unfold tryParseRequestCondition, tryParseTimeCondition, parseParamContains, parseCompare, parseEq.
  destruct src; unfold source_name, SOURCE_PARAM, SOURCE_HEADER.
  - do 8 rx_none.
    assert (∃ m, str_match 3 EQ_REGEX (js "param" ++ [40; 34]%N ++ p ++ [34; 41]%N ++ js " == " ++ l) = Some m
      ∧ cap 1 m = js "param" ∧ cap 2 m = p ∧ cap 3 m = l) as (m & -> & -> & -> & ->).
    { eexists. split_and!.
      - rx. erewrite dots_run; [|done..|rx_cbn; reflexivity]. rx_cbn. rewrite ?take_run, ?take_run_end. reflexivity.
      - lits. reflexivity.
      - reflexivity.
      - reflexivity. }
    rewrite Hlit. cbn match. rewrite bool_decide_false by (by vm_compute). reflexivity.
  - do 8 rx_none.
    assert (∃ m, str_match 3 EQ_REGEX (js "header" ++ [40; 34]%N ++ p ++ [34; 41]%N ++ js " == " ++ l) = Some m
      ∧ cap 1 m = js "header" ∧ cap 2 m = p ∧ cap 3 m = l) as (m & -> & -> & -> & ->).
    { eexists. split_and!.
      - rx. erewrite dots_run; [|done..|rx_cbn; reflexivity]. rx_cbn. rewrite ?take_run, ?take_run_end. reflexivity.
      - lits. reflexivity.
      - reflexivity.
      - reflexivity. }
    rewrite Hlit. cbn match. rewrite bool_decide_true by done. reflexivity.
Qed.


(** One goal for each element of a list of constants *)
Ltac each H :=
  repeat (apply elem_of_cons in H as [H|H]); [..|by apply not_elem_of_nil in H]; simplify_eq.

Lemma parse_time f tz op m v : f ∈ TIME_FUNCS → tz ≠ [] → plain tz → (m, op) ∈ time_ops → is_numeric v = true →
  tryParseRequestCondition (call f tz ++ [32%N] ++ op ++ [32%N] ++ v)
  = Returns (Some (CTime (mkTime f tz m v [] []))).
Proof.
  intros Hf Hne Hp Hop Hv. rewrite call_app. unfold tryParseRequestCondition, tryParseTimeCondition.
  unfold TIME_FUNCS in Hf. unfold time_ops in Hop.
  each Hf; each Hop; rx_none; rx_none; rx_some; reflexivity.
Qed.

Definition range_text (f tz s e : jsstr) : jsstr :=
  call f tz ++ js " >= " ++ s ++ js " || " ++ call f tz ++ js " < " ++ e.

Lemma parse_range f tz s e : f ∈ TIME_FUNCS → tz ≠ [] → plain tz → is_numeric s = true → is_numeric e = true →
  tryParseRequestCondition (range_text f tz s e) = Returns (Some (CTime (mkTime f tz MATCH_RANGE [] s e))).
Proof.
  intros Hf Hne Hp Hs He. unfold range_text. rewrite !call_app. unfold tryParseRequestCondition, tryParseTimeCondition.
  unfold TIME_FUNCS in Hf. each Hf; rx_some; reflexivity.
Qed.

Lemma parse_range_paren f tz s e : f ∈ TIME_FUNCS → tz ≠ [] → plain tz → is_numeric s = true → is_numeric e = true →
  tryParseRequestCondition ([40%N] ++ range_text f tz s e ++ [41%N])
  = Returns (Some (CTime (mkTime f tz MATCH_RANGE [] s e))).
Proof.
  intros Hf Hne Hp Hs He. unfold range_text. rewrite <- !app_assoc, !call_app, <- ?app_assoc.
  unfold tryParseRequestCondition, tryParseTimeCondition.
  unfold TIME_FUNCS in Hf. each Hf; rx_none; rx_some; reflexivity.
Qed.

(** The second halves of what is printed for parameters do not parse alone. *)
Lemma parse_param_compare_half p op v : p ≠ [] → plain p → op ∈ compare_ops.*2 → is_numeric v = true →
  tryParseRequestCondition (call (js "param") p ++ [32%N] ++ op ++ [32%N] ++ v) = Returns None.
Proof.
  intros Hne Hp Hop Hv. rewrite call_app.
  unfold tryParseRequestCondition, tryParseTimeCondition, parseParamContains, parseCompare, parseEq.
  unfold compare_ops in Hop. cbn in Hop. each Hop; do 9 rx_none; reflexivity.
Qed.

Lemma parse_param_has_half p t : p ≠ [] → plain p →
  tryParseRequestCondition (js "has(" ++ call (js "param") p ++ t) = Returns None.
Proof.
  intros Hne Hp. rewrite call_app.
  unfold tryParseRequestCondition, tryParseTimeCondition, parseParamContains, parseCompare, parseEq.
  do 9 rx_none; reflexivity.
Qed.

(** ** Factors *)

Lemma factor_run combined v : combined ≠ [] → is_numeric v = true →
  ∃ m, str_match 2 FACTOR_REGEX ([40%N] ++ combined ++ js " ? " ++ v ++ js " : 1)") = Some m
    ∧ cap 1 m = combined ∧ cap 2 m = v.
Proof.
  intros Hne Hv. destruct combined as [|d w]; [done|].
  unfold FACTOR_REGEX. cbn [RCat]. rewrite str_match_anchored. unfold exec_at. lits.
  set (tl := [32; 63; 32]%N ++ v ++ [32; 58; 32; 49; 41]%N).
  set (K := fun st' : mstate =>
    rmatch (RSeq (RLit [32; 63; 32]%N) (RSeq (RGroup 2 numbers) (RSeq (RLit [32; 58; 32; 49; 41]%N) REnd)))
      (mkM (before st') (rest st') (<[1 := Some (take (length (d :: w ++ tl) - length (rest st')) (d :: w ++ tl))]> (caps st')))
      (fun st'' => Some (mkM (before st'') (rest st'')
        (<[0 := Some (take (length (40%N :: d :: w ++ tl) - length (rest st'')) (40%N :: d :: w ++ tl))]> (caps st''))))).
  change (∃ m, caps <$> rmatch (RStar RAnyUnit) (mkM [d; 40%N] (w ++ tl) [None; None; None]) K = Some m
    ∧ cap 1 m = d :: w ∧ cap 2 m = v).
  unfold RAnyUnit. rewrite rmatch_class_star. cbn [before rest caps].
  assert (Forall (fun c => num_unit c = true) v) as Hnum by (by apply is_numeric_units).
  assert (greedy (fun _ => true) [d; 40%N] (w ++ tl ++ []) [None; None; None] K
    = K (mkM (reverse w ++ [d; 40%N]) tl [None; None; None])) as E.
  { destruct (K (mkM (reverse w ++ [d; 40%N]) tl [None; None; None])) as [x|] eqn:EK.
    - apply greedy_last; [apply Forall_true; done|done| |by rewrite app_nil_r].
      intros v1 v2 Ev Hv1. rewrite app_nil_r. unfold K. rx_cbn.
      destruct v1 as [|y v1]; [done|]. unfold tl in Ev. injection Ev as Ey Ev. subst y.
      destruct v2 as [|z v2]; [done|]. rx_cbn. destruct (N.eqb_spec z 32) as [->|]; [|done].
      destruct v2 as [|z v2]; [done|]. rx_cbn. destruct (N.eqb_spec z 63) as [->|]; [|done]. exfalso.
      destruct v1 as [|y v1]; [done|]. injection Ev as Ey Ev. subst y.
      assert (63%N ∈ 32%N :: v ++ [32; 58; 32; 49; 41]%N) as Hin.
      { change (63%N ∈ 32%N :: v ++ [32; 58; 32; 49; 41]%N). rewrite Ev. set_solver. }
      apply elem_of_cons in Hin as [?|Hin]; [done|]. apply elem_of_app in Hin as [Hin|Hin]; [|set_solver].
      rewrite Forall_forall in Hnum. apply Hnum in Hin. by vm_compute in Hin.
    - exfalso. revert EK. unfold K, tl. rx_cbn. rx_step. rx_cbn. done. }
  rewrite app_nil_r in E. rewrite E. unfold K, tl. rx_cbn. rx_step. rx_cbn.
  eexists. split; [reflexivity|]. split; [|by rewrite take_run].
  exact (take_run (d :: w) _).
Qed.

(** ** Lists of parts *)

Lemma split_go_skip sep w t d cur : split_go sep (w ++ t) (length w) d cur = split_go sep t 0 d cur.
Proof. induction w as [|c w IH]; [done|]. exact IH. Qed.

Record part_ok (x : N) (p : jsstr) : Prop := {
  pk_calm : calm x p 0 = Some 0%Z;
  pk_trim : trim p = p;
  pk_nonempty : p ≠ []
}.

Lemma split_go_join x sep parts :
  x ≠ 40%N → x ≠ 41%N → x ≠ 32%N → parts ≠ [] → Forall (part_ok x) parts →
  split_go (32%N :: x :: sep) (str_join (32%N :: x :: sep) parts) 0 0 [] = parts.
Proof.
  intros Hx1 Hx2 Hx3 Hne Hp. destruct parts as [|p parts]; [done|]. clear Hne. revert p Hp.
  induction parts as [|q parts IH]; intros p Hp; apply Forall_cons in Hp as [[Hc Ht _] Hp].
  - cbn [str_join]. rewrite <- (app_nil_r p) at 1. rewrite (split_go_calm _ _ _ _ _ _ _ Hc) by done.
    cbn [split_go]. by rewrite app_nil_r, reverse_involutive, Ht.
  - change (str_join (32%N :: x :: sep) (p :: q :: parts)) with (p ++ (32%N :: x :: sep) ++ str_join (32%N :: x :: sep) (q :: parts)).
    rewrite (split_go_calm _ _ _ _ _ _ _ Hc) by (intros t' [= E]; congruence).
    rewrite app_nil_r. cbn [app split_go].
    change (depth_after 32 0) with 0%Z. change (0 =? 0)%Z with true.
    change (32%N :: x :: sep ++ str_join (32%N :: x :: sep) (q :: parts))
      with ((32%N :: x :: sep) ++ str_join (32%N :: x :: sep) (q :: parts)).
    rewrite starts_with_app, reverse_involutive, Ht. cbn [andb]. f_equal.
    transitivity (split_go (32%N :: x :: sep) (str_join (32%N :: x :: sep) (q :: parts)) 0 0 []); [|by apply IH].
    exact (split_go_skip (32%N :: x :: sep) (x :: sep) _ 0 []).
Qed.

Lemma split_top_join x sep parts :
  x ≠ 40%N → x ≠ 41%N → x ≠ 32%N → parts ≠ [] → Forall (part_ok x) parts →
  split_top (32%N :: x :: sep) (str_join (32%N :: x :: sep) parts) = parts.
Proof.
  intros ? ? ? ? Hp. unfold split_top. rewrite split_go_join by done.
  apply filter_all. eapply Forall_impl; [exact Hp|]. intros p [_ _ Hne]. by apply str_true_spec.
Qed.

(** ** Depth *)

(** The depth after [s] when it never falls below 0 *)
Fixpoint level (s : jsstr) (depth : Z) : option Z :=
  match s with
  | [] => Some depth
  | c :: s' => let depth := depth_after c depth in if (depth <? 0)%Z then None else level s' depth
  end.

Lemma level_app a b d d1 d2 : level a d = Some d1 → level b d1 = Some d2 → level (a ++ b) d = Some d2.
Proof.
  revert d. induction a as [|c a IH]; intros d Ha Hb; simpl in *; [by simplify_eq|].
  destruct (_ <? _)%Z; [done|]. by apply IH.
Qed.

Lemma depth_after_shift c d : depth_after c (d + 1) = (depth_after c d + 1)%Z.
Proof. unfold depth_after. destruct (c =? 40)%N, (c =? 41)%N; lia. Qed.

Lemma level_shift s d d' : level s d = Some d' → level s (d + 1) = Some (d' + 1)%Z.
Proof.
  revert d. induction s as [|c s IH]; intros d H; simpl in *; [by simplify_eq|].
  rewrite depth_after_shift. destruct (depth_after c d <? 0)%Z eqn:E; [done|].
  rewrite (proj2 (Z.ltb_ge _ _)) by (bsplit; lia). by apply IH.
Qed.

(** Inside one more pair of parentheses nothing is split. *)
Lemma level_calm x s d d' : (0 <= d)%Z → level s d = Some d' → calm x s (d + 1) = Some (d' + 1)%Z.
Proof.
  revert d. induction s as [|c s IH]; intros d Hd H; simpl in *; [by simplify_eq|].
  rewrite depth_after_shift. destruct (depth_after c d <? 0)%Z eqn:E; [done|]. bsplit.
  rewrite (proj2 (Z.eqb_neq _ _)) by lia. cbn [andb]. by apply IH.
Qed.

Lemma level_flat s d : (0 <= d)%Z → Forall (fun c => c ≠ 40 ∧ c ≠ 41)%N s → level s d = Some d.
Proof.
  intros Hd Hs. induction Hs as [|c s [H1 H2] _ IH]; simpl; [done|]. unfold depth_after.
  rewrite (proj2 (N.eqb_neq c 40)), (proj2 (N.eqb_neq c 41)), (proj2 (Z.ltb_ge d 0)) by done. done.
Qed.

(** Balanced text in which no separator [" x..."] begins outside parentheses *)
Record seg (x : N) (s : jsstr) : Prop := {
  sg_calm : calm x s 0 = Some 0%Z;
  sg_level : level s 0 = Some 0%Z
}.

Lemma seg_app x a b : seg x a → seg x b → last a ≠ Some 32%N ∨ head b ≠ Some x → seg x (a ++ b).
Proof. intros [] [] H. split; [by eapply calm_app|by eapply level_app]. Qed.

Lemma seg_flat x s : Forall (fun c => c ≠ 40 ∧ c ≠ 41 ∧ c ≠ x)%N s → seg x s.
Proof.
  intros H. split; [by apply calm_outside|]. apply level_flat; [done|].
  eapply Forall_impl; [exact H|]. by intros c (? & ? & _).
Qed.

Lemma seg_paren x s : x ≠ 41%N → level s 0 = Some 0%Z → seg x ([40%N] ++ s ++ [41%N]).
Proof.
  intros Hx Hs. split.
  - eapply calm_app; [reflexivity| |by left].
    eapply calm_app; [exact (level_calm x s 0 0 ltac:(done) Hs)|reflexivity|right; naive_solver].
  - eapply level_app; [reflexivity|]. eapply level_app; [exact (level_shift s 0 0 Hs)|reflexivity].
Qed.

Lemma plain_flat p : plain p → Forall (fun c => c ≠ 40 ∧ c ≠ 41)%N p.
Proof.
  intros H. eapply Forall_impl; [exact H|]. intros c Hc. unfold plain_unit in Hc. bsplit.
  rewrite N.eqb_neq in *. done.
Qed.

Lemma seg_call f p : Forall (fun c => c ≠ 40 ∧ c ≠ 41 ∧ c ≠ 38)%N f → plain p → seg 38 (call f p).
Proof.
  intros Hf Hp.
  assert (call f p = f ++ [40%N] ++ ([34%N] ++ p ++ [34%N]) ++ [41%N]) as ->.
  { unfold call. simpl. by rewrite <- app_assoc. }
  apply seg_app; [by apply seg_flat| |by right]. apply seg_paren; [done|]. apply level_flat; [done|].
  repeat (apply Forall_cons; split; [done|]). apply Forall_app. split; [by apply plain_flat|]. by repeat constructor.
Qed.

Lemma num_flat v : is_numeric v = true → Forall (fun c => c ≠ 40 ∧ c ≠ 41 ∧ c ≠ 38)%N v.
Proof.
  intros Hv. apply is_numeric_units in Hv as [_ Hv]. eapply Forall_impl; [exact Hv|]. intros c Hc.
  split_and!; intros ->; by vm_compute in Hc.
Qed.

End BillingRules.
