(* ===== verification/RuleRoundtrip.v ===== *)
(** * Reading back printed request rules
    (src/web/src/features/pricing/lib/billing-expr.ts)

    What the editor prints for its rule groups, and what its parser makes of that
    text: the round trip of [buildRequestRuleExpr] and [tryParseRequestRuleExpr],
    and of [combineBillingExpr] and [splitBillingExprAndRequestRules]. *)

From Stdlib Require Import ZifyBool ZifyN.
From S2P Require Import Prelude JsString JsValue JsJson JsNumber JsRegex BillingRules.

Module RuleRoundtrip.
Import BillingRules.

(** ** What a printed condition says *)

(** The condition as its text shows it; [None] when it has no text *)
Definition canonical (cond : RequestCondition) : option RequestCondition :=
  match normalizeCondition (Some (partial_of cond)) with
  | CTime n =>
      if bool_decide (t_mode n = MATCH_RANGE) then
        let s := trim (rangeStart n) in
        let e := trim (rangeEnd n) in
        if is_numeric s && is_numeric e then Some (CTime (mkTime (timeFunc n) (timezone n) MATCH_RANGE [] s e)) else None
      else
        let v := trim (t_value n) in
        if is_numeric v then Some (CTime (mkTime (timeFunc n) (timezone n) (t_mode n) v [] [])) else None
  | CParamHeader n =>
      let path := trim (ph_path n) in
      let v := trim (ph_value n) in
      if str_true path then
        if bool_decide (ph_mode n = MATCH_EXISTS) then Some (CParamHeader (mkPH (ph_source n) path MATCH_EXISTS []))
        else if bool_decide (ph_mode n ∈ compare_ops.*1) then
          if is_numeric v then Some (CParamHeader (mkPH (ph_source n) path (ph_mode n) v)) else None
        else Some (CParamHeader (mkPH (ph_source n) path (ph_mode n) v))
      else None
  end.

(** The texts it is made of do not confuse the splitting and the expressions. *)
Definition cond_plain (cond : RequestCondition) : Prop :=
  match normalizeCondition (Some (partial_of cond)) with
  | CTime n => plain (timezone n)
  | CParamHeader n => plain (trim (ph_path n)) ∧ quiet (trim (ph_value n))
  end.

(** Conditions whose text is one comparison *)
Definition reparsable (c : RequestCondition) : bool :=
  match c with
  | CTime _ => true
  | CParamHeader p =>
      match ph_source p with
      | Header => true
      | Param => bool_decide (ph_mode p ∈ [MATCH_EQ; MATCH_EXISTS])
      end
  end.

Definition has_text (src p v : jsstr) : jsstr :=
  js "has(" ++ call src p ++ js ", " ++ JSON_stringify_str v ++ [41%N].

(** The texts that are joined by [&&] in the text of a printed condition *)
Inductive printed : RequestCondition → list jsstr → Prop :=
| pr_range f tz s e : f ∈ TIME_FUNCS → tz ≠ [] → plain tz → is_numeric s = true → is_numeric e = true →
    printed (CTime (mkTime f tz MATCH_RANGE [] s e)) [range_text f tz s e]
| pr_time f tz m op v : f ∈ TIME_FUNCS → tz ≠ [] → plain tz → (m, op) ∈ time_ops → is_numeric v = true →
    printed (CTime (mkTime f tz m v [] [])) [call f tz ++ [32%N] ++ op ++ [32%N] ++ v]
| pr_exists_header p : p ≠ [] → plain p → trim p = p →
    printed (CParamHeader (mkPH Header p MATCH_EXISTS [])) [call (js "header") p ++ dq " != ''"]
| pr_exists_param p : p ≠ [] → plain p → trim p = p →
    printed (CParamHeader (mkPH Param p MATCH_EXISTS [])) [call (js "param") p ++ js " != nil"]
| pr_has_header p v : p ≠ [] → plain p → trim p = p → quiet v → trim v = v →
    printed (CParamHeader (mkPH Header p MATCH_CONTAINS v)) [has_text (js "header") p v]
| pr_eq src p v : p ≠ [] → plain p → trim p = p → quiet v → trim v = v →
    printed (CParamHeader (mkPH src p MATCH_EQ v)) [call (source_name src) p ++ js " == " ++ buildExprLiteral MATCH_EQ v]
| pr_has_param p v : p ≠ [] → plain p → trim p = p → quiet v → trim v = v →
    printed (CParamHeader (mkPH Param p MATCH_CONTAINS v)) [call (js "param") p ++ js " != nil"; has_text (js "param") p v]
| pr_compare p m op v : p ≠ [] → plain p → trim p = p → (m, op) ∈ compare_ops → is_numeric v = true →
    printed (CParamHeader (mkPH Param p m v))
      [call (js "param") p ++ js " != nil"; call (js "param") p ++ [32%N] ++ op ++ [32%N] ++ v].

Lemma offered_mode_in src m d :
  d ∈ o_value <$> getRequestRuleMatchOptions src → offered_mode src m d ∈ o_value <$> getRequestRuleMatchOptions src.
Proof.
  intros Hd. unfold offered_mode. destruct m as [m|]; [|done]. destruct (existsb _ _) eqn:E; [|done].
  apply existsb_exists in E as (item & Hin & Hb). apply bool_decide_eq_true in Hb as <-.
  apply list_elem_of_fmap. exists item. split; [done|]. by apply list_elem_of_In.
Qed.

Lemma call_expr_plain f p : plain p → call_expr f p = call f p.
Proof. intros Hp. unfold call_expr, call. rewrite stringify_plain by done. simpl. by rewrite <- app_assoc. Qed.

(** Decides equalities of literals in the goal. *)
Ltac modes :=
  repeat match goal with
  | |- context [bool_decide (?a = ?b)] =>
      first [ rewrite (bool_decide_true (a = b)) by reflexivity
            | rewrite (bool_decide_false (a = b)) by (by vm_compute) ]
  | |- context [bool_decide (?a ∈ ?l)] =>
      first [ rewrite (bool_decide_true (a ∈ l)) by decided
            | rewrite (bool_decide_false (a ∈ l)) by decided ]
  end.

Lemma print_time t : plain (timezone (mkTime [] (str_or (timezone t) (js "Asia/Shanghai")) [] [] [] [])) →
  match canonical (CTime t) with
  | Some c => ∃ ts, printed c ts ∧ buildRequestConditionExpr (CTime t) = str_join (js " && ") ts ∧ reparsable c = true
  | None => buildRequestConditionExpr (CTime t) = []
  end.
Proof.
  intros Hp. cbn [buildRequestConditionExpr buildTimeConditionExpr]. unfold canonical, buildTimeConditionExpr.
  unfold normalizeCondition, partial_of. cbn [mbind option_bind p_source p_timeFunc p_timezone p_mode p_value p_rangeStart p_rangeEnd].
  rewrite bool_decide_true by done. unfold ostr. cbn [timezone default from_option] in *. unfold Datatypes.id in *.
  set (tz := str_or (timezone t) (js "Asia/Shanghai")) in *.
  assert (tz ≠ []) as Htz by (unfold tz, str_or; destruct (str_true _) eqn:E; [by apply str_true_spec in E|by vm_compute]).
  set (f := from_option _ _ (isTimeFunc _)).
  assert (f ∈ TIME_FUNCS) as Hf.
  { unfold f, isTimeFunc. destruct (bool_decide _) eqn:E; [by apply bool_decide_eq_true in E|]. constructor. }
  set (m := offered_mode SOURCE_TIME (Some (t_mode t)) MATCH_GTE).
  assert (m ∈ o_value <$> getRequestRuleMatchOptions SOURCE_TIME) as Hm.
  { apply offered_mode_in. decided. }
  clearbody tz f m. unfold getRequestRuleMatchOptions in Hm. rewrite bool_decide_true in Hm by done. cbn in Hm.
  cbn [t_mode t_value rangeStart rangeEnd timeFunc timezone]. unfold time_expr.
  cbn [t_mode t_value rangeStart rangeEnd timeFunc timezone]. rewrite call_expr_plain by done.
  each Hm; modes.
  1-3: destruct (is_numeric (trim (t_value t))) eqn:Ev; cbn [negb]; [|done];
    match goal with |- context [table_get time_ops ?m ?d] =>
      exists [call f tz ++ [32%N] ++ table_get time_ops m d ++ [32%N] ++ trim (t_value t)];
      split; [apply pr_time; try done; decided|done]
    end.
  destruct (is_numeric (trim (rangeStart t))) eqn:Es; destruct (is_numeric (trim (rangeEnd t))) eqn:Ee; cbn [negb andb orb]; try done.
  eexists. split; [by apply pr_range|]. done.
Qed.

Lemma nil_and x y : x ++ js " != nil && " ++ y = str_join (js " && ") [x ++ js " != nil"; y].
Proof. simpl. rewrite <- app_assoc. f_equal. Qed.

Lemma literal_eq v : buildExprLiteral MATCH_EQ v = buildExprLiteral MATCH_EQ (trim v).
Proof. unfold buildExprLiteral. by rewrite trim_idemp. Qed.

Lemma print_compare p m op v : p ≠ [] → plain p → trim p = p → (m, op) ∈ compare_ops →
  match (if is_numeric v then Some (CParamHeader (mkPH Param p m v)) else None) with
  | Some c => ∃ ts, printed c ts
      ∧ (if negb (is_numeric v) then [] else call SOURCE_PARAM p ++ js " != nil && " ++ call SOURCE_PARAM p
           ++ [32%N] ++ op ++ [32%N] ++ v) = str_join (js " && ") ts
  | None => (if negb (is_numeric v) then [] else call SOURCE_PARAM p ++ js " != nil && " ++ call SOURCE_PARAM p
           ++ [32%N] ++ op ++ [32%N] ++ v) = []
  end.
Proof.
  intros Hne Hp Ht Hm. destruct (is_numeric v) eqn:E; [|done]. cbn [negb]. rewrite nil_and.
  eexists. split; [by apply pr_compare|done].
Qed.

Lemma print_param_header p : cond_plain (CParamHeader p) →
  match canonical (CParamHeader p) with
  | Some c => ∃ ts, printed c ts ∧ buildRequestConditionExpr (CParamHeader p) = str_join (js " && ") ts
  | None => buildRequestConditionExpr (CParamHeader p) = []
  end.
Proof.
  unfold cond_plain, canonical, buildRequestConditionExpr, normalizeCondition, partial_of.
  cbn [mbind option_bind p_source p_path p_mode p_value]. rewrite bool_decide_false by (destruct (ph_source p); by vm_compute).
  unfold ostr. cbn [default from_option]. unfold Datatypes.id.
  set (src := if bool_decide _ then Header else Param).
  assert (src = ph_source p) as Hsrc by (unfold src; destruct (ph_source p); by vm_compute).
  set (m := offered_mode _ _ _).
  assert (m ∈ o_value <$> getRequestRuleMatchOptions (source_name src)) as Hm.
  { apply offered_mode_in. destruct src; refine (bool_decide_unpack _ _); by vm_compute. }
  clearbody m. clear Hsrc. clearbody src. cbn [ph_path ph_value ph_mode ph_source]. intros [Hp Hv].
  unfold param_header_expr. cbn [ph_path ph_value ph_mode ph_source].
  destruct (str_true (trim (ph_path p))) eqn:Ep; [|done]. apply str_true_spec in Ep.
  rewrite !call_expr_plain by done. unfold getRequestRuleMatchOptions in Hm.
  destruct src; cbn [source_name] in *; modes; cbn in Hm.
  - each Hm; modes.
    + exists [call SOURCE_PARAM (trim (ph_path p)) ++ js " == " ++ buildExprLiteral MATCH_EQ (trim (ph_value p))].
      split; [apply (pr_eq Param); auto using trim_idemp|]. by rewrite literal_eq.
    + rewrite nil_and. eexists. split; [apply pr_has_param; auto using trim_idemp|done].
    + eexists. split; [apply pr_exists_param; auto using trim_idemp|done].
    + apply print_compare; [done|done|apply trim_idemp|constructor].
    + apply print_compare; [done|done|apply trim_idemp|do 1 constructor; constructor].
    + apply print_compare; [done|done|apply trim_idemp|do 2 constructor; constructor].
    + apply print_compare; [done|done|apply trim_idemp|do 3 constructor; constructor].
  - each Hm; modes.
    + exists [call SOURCE_HEADER (trim (ph_path p)) ++ js " == " ++ buildExprLiteral MATCH_EQ (trim (ph_value p))].
      split; [apply (pr_eq Header); auto using trim_idemp|]. by rewrite literal_eq.
    + eexists. split; [apply pr_has_header; auto using trim_idemp|done].
    + eexists. split; [apply pr_exists_header; auto using trim_idemp|done].
Qed.

(** ** The printed texts are parts of a conjunction *)

Definition visible_end (s : jsstr) : Prop := ∃ l d, s = l ++ [d] ∧ is_ws d = false.

Lemma visible_end_app a b : visible_end b → visible_end (a ++ b).
Proof. intros (l & d & -> & Hd). exists (a ++ l), d. by rewrite app_assoc. Qed.

Lemma visible_all s : s ≠ [] → Forall (fun c => is_ws c = false) s → visible_end s.
Proof.
  intros Hne Hs. destruct s as [|d l] using rev_ind; [done|]. apply Forall_app in Hs as [_ Hd].
  exists l, d. by apply Forall_cons in Hd as [? _].
Qed.

Lemma num_visible v : is_numeric v = true → visible_end v.
Proof.
  intros Hv. apply is_numeric_units in Hv as [Hne Hv]. apply visible_all; [done|].
  eapply Forall_impl; [exact Hv|]. intros c Hc. destruct (is_ws c) eqn:E; [exfalso|done].
  unfold num_unit, is_digit in Hc. unfold is_ws in E. lia.
Qed.

(** The names that are called *)
Definition name_unit (c : N) : bool := (97 <=? c)%N && (c <=? 122)%N.
Definition name (f : jsstr) : Prop := f ≠ [] ∧ Forall (fun c => name_unit c = true) f.

Lemma name_flat f : name f → Forall (fun c => c ≠ 40 ∧ c ≠ 41 ∧ c ≠ 38)%N f.
Proof.
  intros [_ Hf]. eapply Forall_impl; [exact Hf|]. intros c Hc. unfold name_unit in Hc. bsplit.
  rewrite N.leb_le in *. lia.
Qed.

Lemma name_ws c : name_unit c = true → is_ws c = false.
Proof.
  intros Hc. destruct (is_ws c) eqn:E; [exfalso|done].
  unfold name_unit in Hc. unfold is_ws in E. lia.
Qed.

Lemma name_time f : f ∈ TIME_FUNCS → name f.
Proof. unfold TIME_FUNCS. intros H. each H; (split; [done|decided]). Qed.

Lemma name_source src : name (source_name src).
Proof. destruct src; (split; [done|decided]). Qed.

Record text_ok (p : jsstr) : Prop := {
  tk_part : part_ok 38 p;
  tk_level : level p 0 = Some 0%Z
}.

Lemma part_named f s : name f → seg 38 s → (∀ t, s ≠ 38%N :: t) → visible_end s → text_ok (f ++ s).
Proof.
  intros Hf [Hs Hl] Hh (l & d & -> & Hd). pose proof (name_flat f Hf) as Hflat. split.
  2: { eapply level_app; [by apply (sg_level 38), seg_flat|done]. }
  destruct Hf as [Hne Hf]. destruct f as [|c f]; [done|]. apply Forall_cons in Hf as [Hc _]. split.
  - eapply calm_app; [by apply calm_outside|exact Hs|]. right. destruct (l ++ [d]) as [|y t]; [done|].
    intros [= ->]. by apply (Hh t).
  - eapply (trim_ends _ c (f ++ l ++ [d]) ((c :: f) ++ l) d); [done|by rewrite <- app_assoc|by apply name_ws|done].
  - done.
Qed.

Lemma seg_call_args p : plain p → seg 38 ([40; 34]%N ++ p ++ [34; 41]%N).
Proof. intros Hp. exact (seg_call [] p ltac:(constructor) Hp). Qed.

Lemma part_call f p s : name f → plain p → seg 38 s → (∀ t, s ≠ 38%N :: t) → visible_end s → text_ok (call f p ++ s).
Proof.
  intros Hf Hp Hs Hh Hv. rewrite call_app. apply part_named; [done| |done|].
  - rewrite !(app_assoc _ _ s). apply seg_app; [by apply seg_call_args|done|]. left. rewrite app_assoc, last_app. done.
  - by do 3 apply visible_end_app.
Qed.

Definition flat (s : jsstr) : Prop := Forall (fun c => c ≠ 40 ∧ c ≠ 41 ∧ c ≠ 38)%N s.

Ltac flats := repeat first [apply Forall_app; split]; first [decided|by apply num_flat|done].

Lemma stringify_units v : quiet v → Forall (fun c => literal_unit c = true) (JSON_stringify_str v).
Proof.
  intros Hv. unfold JSON_stringify_str. constructor; [done|]. apply Forall_app. split; [by apply json_escape_quiet|].
  by repeat constructor.
Qed.

Lemma literal_unit_marks c d : literal_unit c = true → d ∈ marks → c ≠ d.
Proof.
  intros Hc Hd ->. unfold literal_unit in Hc. apply andb_true_iff in Hc as [_ Hc].
  by apply negb_true_iff, bool_decide_eq_false in Hc.
Qed.

Lemma literal_flat v : quiet v → flat (JSON_stringify_str v).
Proof.
  intros Hv. eapply Forall_impl; [by apply stringify_units|]. intros c Hc.
  split_and!; (eapply literal_unit_marks; [exact Hc|decided]).
Qed.

Lemma literal_no_bar v : quiet v → 124%N ∉ JSON_stringify_str v.
Proof.
  intros Hv Hin. pose proof (stringify_units v Hv) as Hu. rewrite Forall_forall in Hu. apply Hu in Hin. by vm_compute in Hin.
Qed.

Lemma literal_visible v : visible_end (JSON_stringify_str v).
Proof. exists (34%N :: json_escape v), 34%N. done. Qed.

(** What the compared literal looks like *)
Lemma literal_shape v : trim v = v → quiet v →
  let l := buildExprLiteral MATCH_EQ v in
  l ≠ [] ∧ flat l ∧ visible_end l ∧ Forall (fun d => is_line_terminator d = false) l ∧ 124%N ∉ l ∧ parseExprLiteral l = JStr v.
Proof.
  intros Ht Hq l. unfold l, buildExprLiteral. rewrite Ht. rewrite (bool_decide_false (MATCH_EQ = _)) by (by vm_compute).
  destruct (bool_decide (v = js "true")) eqn:E1; [apply bool_decide_eq_true in E1 as ->|].
  { split_and!; try done; try decided. apply visible_all; [done|decided]. }
  destruct (bool_decide (v = js "false")) eqn:E2; [apply bool_decide_eq_true in E2 as ->|].
  { split_and!; try done; try decided. apply visible_all; [done|decided]. }
  destruct (is_numeric v) eqn:En.
  - pose proof (is_numeric_units v En) as [Hne Hu]. cbn [orb]. split_and!; [done|by apply num_flat|by apply num_visible| | |].
    + eapply Forall_impl; [exact Hu|]. intros c Hc. unfold num_unit, is_digit in Hc. unfold is_line_terminator. lia.
    + intros Hin. rewrite Forall_forall in Hu. apply Hu in Hin. by vm_compute in Hin.
    + unfold parseExprLiteral. rewrite Ht, E1, E2. unfold is_numeric in En. by rewrite En.
  - cbn [orb]. split_and!; [done|by apply literal_flat|by apply literal_visible| |by apply literal_no_bar|].
    + eapply Forall_impl; [by apply stringify_units|]. intros c Hc. pose proof (literal_unit_marks c 0x2028 Hc ltac:(decided)).
      pose proof (literal_unit_marks c 0x2029 Hc ltac:(decided)). unfold literal_unit in Hc. unfold is_line_terminator. lia.
    + unfold parseExprLiteral.
      rewrite (trim_ends (JSON_stringify_str v) 34 (json_escape v ++ [34%N]) (34%N :: json_escape v) 34) by done.
      rewrite !bool_decide_false by done. cbn [orb]. rewrite JSON_parse_stringify by (by apply quiet_units).
      destruct (str_test _ _) eqn:Es; [|done]. exfalso. apply is_numeric_units in Es as [_ Hu].
      by apply Forall_cons in Hu as [Hu _].
Qed.

Lemma has_parts src p v : name src → plain p → quiet v → text_ok (has_text src p v).
Proof.
  intros Hs Hp Hv.
  assert (has_text src p v = js "has" ++ [40%N] ++ (call src p ++ js ", " ++ JSON_stringify_str v) ++ [41%N]) as ->.
  { unfold has_text. replace (js "has(") with (js "has" ++ [40%N]) by (by vm_compute). by rewrite <- !app_assoc. }
  apply part_named.
  - split; [done|decided].
  - apply seg_paren; [done|]. eapply level_app; [by apply (sg_level 38), seg_call; [apply name_flat|]|].
    apply (sg_level 38), seg_flat. apply Forall_app. split; [decided|by apply literal_flat].
  - done.
  - do 2 apply visible_end_app. by exists [], 41%N.
Qed.

Lemma exists_part src p t : name src → plain p → t = dq " != ''" ∨ t = js " != nil" → text_ok (call src p ++ t).
Proof.
  intros Hs Hp Ht. apply part_call; [done|done|..].
  - apply seg_flat. destruct Ht as [-> | ->]; decided.
  - by destruct Ht as [-> | ->].
  - destruct Ht as [-> | ->]; [exists (dq " != '"), 34%N|exists (js " != ni"), 108%N]; (split; [by vm_compute|done]).
Qed.

Lemma compare_part f p op v : name f → plain p → flat op → is_numeric v = true →
  text_ok (call f p ++ [32%N] ++ op ++ [32%N] ++ v).
Proof.
  intros Hf Hp Hop Hv. apply part_call; [done|done|..].
  - apply seg_flat. flats.
  - done.
  - do 3 apply visible_end_app. by apply num_visible.
Qed.

Lemma range_part f tz s e : name f → plain tz → is_numeric s = true → is_numeric e = true → text_ok (range_text f tz s e).
Proof.
  intros Hf Hp Hs He. unfold range_text. apply part_call; [done|done| |done|].
  - rewrite (app_assoc s), (app_assoc (js " >= ")). apply seg_app; [apply seg_flat; flats| |right].
    + apply seg_app; [by apply seg_call; [apply name_flat|]|apply seg_flat; flats|by right].
    + apply name_flat in Hf as Hfl. destruct Hf as [Hne _]. destruct f as [|c f]; [done|].
      apply Forall_cons in Hfl as [(_ & _ & Hc) _]. simpl. congruence.
  - do 5 apply visible_end_app. by apply num_visible.
Qed.

Lemma printed_parts c ts : printed c ts → Forall text_ok ts.
Proof.
  destruct 1; repeat (apply Forall_cons; split); try apply Forall_nil; try done.
  - by apply range_part; [apply name_time|..].
  - apply compare_part; [by apply name_time|done| |done].
    match goal with H : (_, _) ∈ _ |- _ => unfold time_ops in H; each H; decided end.
  - apply exists_part; [apply (name_source Header)|done|by left].
  - apply exists_part; [apply (name_source Param)|done|by right].
  - apply has_parts; [apply (name_source Header)|done|done].
  - destruct (literal_shape v) as (Hne & Hfl & Hvis & _); [done|done|].
    apply part_call; [apply name_source|done| |done|by apply visible_end_app].
    apply seg_flat. apply Forall_app. split; [decided|done].
  - apply exists_part; [apply (name_source Param)|done|by right].
  - apply has_parts; [apply (name_source Param)|done|done].
  - apply exists_part; [apply (name_source Param)|done|by right].
  - apply compare_part; [apply (name_source Param)|done| |done].
    match goal with H : (_, _) ∈ _ |- _ => unfold compare_ops in H; each H; decided end.
Qed.

(** ** Reading the texts *)

(** The texts are read as the condition, or the last of them is refused. *)
Definition read_as (c : RequestCondition) (ts : list jsstr) : Prop :=
  if reparsable c then ∃ t, ts = [t] ∧ tryParseRequestCondition t = Returns (Some c)
  else ∃ t1 t2 c', ts = [t1; t2] ∧ tryParseRequestCondition t1 = Returns (Some c') ∧ tryParseRequestCondition t2 = Returns None.

Lemma printed_read c ts : printed c ts → read_as c ts.
Proof.
  destruct 1; unfold read_as; cbn [reparsable ph_source ph_mode].
  - eexists. split; [done|]. by apply parse_range.
  - eexists. split; [done|]. by apply parse_time.
  - eexists. split; [done|]. by apply parse_exists_header.
  - modes. eexists. split; [done|]. by apply parse_exists_param.
  - eexists. split; [done|]. by apply parse_contains_header; [..|apply quiet_units].
  - destruct (literal_shape v) as (Hne & _ & _ & Hl & _ & Hp); [done|done|].
    assert (∀ b : bool, b = true → if b then ∃ t, [call (source_name src) p ++ js " == " ++ buildExprLiteral MATCH_EQ v] = [t]
      ∧ tryParseRequestCondition t = Returns (Some (CParamHeader (mkPH src p MATCH_EQ v))) else False) as Hb.
    { intros b ->. eexists. split; [done|]. by apply parse_eq. }
    destruct src; [|exact (Hb true eq_refl)]. modes. exact (Hb true eq_refl).
  - modes. do 3 eexists. split; [done|]. split; [by apply parse_exists_param|]. by apply parse_param_has_half.
  - assert (bool_decide (m ∈ [MATCH_EQ; MATCH_EXISTS]) = false) as ->.
    { match goal with H : (_, _) ∈ _ |- _ => unfold compare_ops in H; each H; by vm_compute end. }
    do 3 eexists. split; [done|]. split; [by apply parse_exists_param|]. apply parse_param_compare_half; try done.
    apply list_elem_of_fmap. by exists (m, op).
Qed.

(** Only a range has a bar. *)
Lemma printed_bar c ts : printed c ts →
  (∃ f tz s e, f ∈ TIME_FUNCS ∧ tz ≠ [] ∧ plain tz ∧ is_numeric s = true ∧ is_numeric e = true
     ∧ c = CTime (mkTime f tz MATCH_RANGE [] s e) ∧ ts = [range_text f tz s e])
  ∨ 124%N ∉ str_join (js " && ") ts.
Proof.
  assert (∀ p, plain p → 124%N ∉ p) as Hpl.
  { intros p Hp Hin. unfold plain in Hp. rewrite Forall_forall in Hp. apply Hp in Hin. by vm_compute in Hin. }
  assert (∀ v, is_numeric v = true → 124%N ∉ v) as Hnum.
  { intros v Hv Hin. apply is_numeric_units in Hv as [_ Hv]. rewrite Forall_forall in Hv. apply Hv in Hin. by vm_compute in Hin. }
  assert (∀ f p, 124%N ∉ f → plain p → 124%N ∉ call f p) as Hcall.
  { intros f p Hf Hp. unfold call. rewrite !not_elem_of_app. specialize (Hpl p Hp). split_and!; first [done|decided]. }
  assert (∀ f, name f → 124%N ∉ f) as Hname.
  { intros f [_ Hf] Hin. rewrite Forall_forall in Hf. apply Hf in Hin. by vm_compute in Hin. }
  assert (∀ m op, (m, op) ∈ time_ops ++ compare_ops → 124%N ∉ op) as Hop.
  { intros m op H. unfold time_ops, compare_ops in H. cbn [app] in H. each H; decided. }
  destruct 1; [left; by exists f, tz, s, e|right..]; cbn [str_join]; unfold has_text; rewrite ?not_elem_of_app; split_and!;
    lazymatch goal with
    | |- _ ∉ js _ => decided
    | |- _ ∉ dq _ => decided
    | |- _ ∉ [_] => decided
    | |- _ ∉ JSON_stringify_str _ => by apply literal_no_bar
    | |- _ ∉ buildExprLiteral _ _ => by apply literal_shape
    | |- _ ∉ call (source_name _) _ => apply Hcall; [apply Hname, name_source|done]
    | |- _ ∉ call (js "header") _ => apply Hcall; [apply Hname, (name_source Header)|done]
    | |- _ ∉ call (js "param") _ => apply Hcall; [apply Hname, (name_source Param)|done]
    | |- _ ∉ call _ _ => apply Hcall; [by apply Hname, name_time|done]
    | H : is_numeric ?v = true |- _ ∉ ?v => by apply Hnum
    | |- _ => eapply Hop, elem_of_app; eauto
    end.
Qed.

(** ** Groups *)

Lemma str_join_app sep a b : a ≠ [] → b ≠ [] → str_join sep (a ++ b) = str_join sep a ++ sep ++ str_join sep b.
Proof.
  intros Ha Hb. induction a as [|w a IH]; [done|]. destruct a as [|w' a].
  - simpl. by destruct b.
  - specialize (IH ltac:(done)). cbn [str_join app] in *. rewrite IH, <- !app_assoc. done.
Qed.

Lemma str_join_concat sep tss : Forall (fun ts => ts ≠ []) tss → str_join sep (str_join sep <$> tss) = str_join sep (concat tss).
Proof.
  induction 1 as [|ts tss Hts Htss IH]; [done|]. cbn [concat]. destruct tss as [|ts' tss].
  - simpl. by rewrite app_nil_r.
  - rewrite str_join_app; [|done|].
    + rewrite <- IH. done.
    + apply Forall_cons in Htss as [Hne _]. cbn [concat]. intros [? _]%app_eq_nil. done.
Qed.

(** The text of a condition among several *)
Definition wrap (e : jsstr) : jsstr := if includes (js " || ") e then [40%N] ++ e ++ [41%N] else e.

Record good (c : RequestCondition) (ts : list jsstr) : Prop := {
  gd_nonempty : ts ≠ [];
  gd_texts : Forall text_ok ts;
  gd_read : read_as c ts
}.

Lemma read_nonempty c ts : read_as c ts → ts ≠ [].
Proof. unfold read_as. destruct (reparsable c); naive_solver. Qed.

Lemma printed_good c ts : printed c ts → good c ts.
Proof.
  intros H. pose proof (printed_read _ _ H) as Hr. split; [by eapply read_nonempty|by eapply printed_parts|done].
Qed.

Lemma text_ok_paren t : text_ok t → text_ok ([40%N] ++ t ++ [41%N]).
Proof.
  intros [_ Hl]. destruct (seg_paren 38 t ltac:(done) Hl) as [Hc Hl']. split; [|done]. split; [done| |done].
  by apply (trim_ends _ 40 (t ++ [41%N]) ([40%N] ++ t) 41).
Qed.

Lemma wrap_printed c ts : printed c ts → ∃ ts', good c ts' ∧ wrap (str_join (js " && ") ts) = str_join (js " && ") ts'.
Proof.
  intros H. unfold wrap. destruct (printed_bar _ _ H) as [(f & tz & s & e & Hf & Hne & Hp & Hs & He & -> & ->)|Hb].
  - cbn [str_join]. assert (includes (js " || ") (range_text f tz s e) = true) as ->.
    { apply includes_spec. exists (call f tz ++ js " >= " ++ s), (call f tz ++ js " < " ++ e).
      unfold range_text. by rewrite <- !app_assoc. }
    exists [[40%N] ++ range_text f tz s e ++ [41%N]]. split; [|done]. split; [done| |].
    + constructor; [|constructor]. by apply text_ok_paren, range_part; [apply name_time|..].
    + eexists. split; [done|]. by apply parse_range_paren.
  - assert (includes (js " || ") (str_join (js " && ") ts) = false) as ->.
    { apply includes_false. intros l r E. apply Hb. rewrite E, !elem_of_app. right; left. decided. }
    exists ts. split; [by apply printed_good|done].
Qed.

(** The parser over the texts of several conditions *)
Lemma parse_texts cs tss : Forall2 good cs tss →
  parse_parts (fun part => tryParseRequestCondition (trim part)) (concat tss)
  = Returns (if forallb reparsable cs then Some cs else None).
Proof.
  induction 1 as [|c ts cs tss [_ Ht Hr] _ IH]; [done|]. cbn [concat forallb]. unfold read_as in Hr.
  destruct (reparsable c).
  - destruct Hr as (t & -> & Hr). apply Forall_cons in Ht as [[[_ Htr _] _] _]. cbn [app parse_parts].
    rewrite Htr, Hr. simpl. rewrite IH. simpl. by destruct (forallb _ _).
  - destruct Hr as (t1 & t2 & c' & -> & H1 & H2). rewrite !Forall_cons in Ht. destruct Ht as ([[_ Htr1 _] _] & [[_ Htr2 _] _] & _).
    cbn [app parse_parts]. rewrite Htr1, Htr2, H1. simpl. by rewrite H2.
Qed.

Lemma parse_conjunction cs tss : cs ≠ [] → Forall2 good cs tss →
  tryParseRequestConditions (str_join (js " && ") (concat tss)) = Returns (if forallb reparsable cs then Some cs else None).
Proof.
  intros Hne H. unfold tryParseRequestConditions, splitTopLevelAnd.
  replace (js " && ") with [32; 38; 38; 32]%N by (by vm_compute).
  rewrite split_top_join; [|done..| |].
  - rewrite (parse_texts _ _ H). simpl. destruct (forallb _ _); [|done]. by destruct cs.
  - destruct H as [|c ts cs tss [Hts _ _] _]; [done|]. cbn [concat]. intros [? _]%app_eq_nil. done.
  - apply Forall_concat. clear Hne. induction H as [|c ts cs tss [_ Ht _] _ IH]; constructor; [|done].
    eapply Forall_impl; [exact Ht|]. by intros t [? _].
Qed.

Lemma print_condition cond : cond_plain cond →
  match canonical cond with
  | Some c => ∃ ts, printed c ts ∧ buildRequestConditionExpr cond = str_join (js " && ") ts
  | None => buildRequestConditionExpr cond = []
  end.
Proof.
  destruct cond as [t|p]; [|apply print_param_header]. intros Hp. pose proof (print_time t) as H.
  assert (plain (str_or (timezone t) (js "Asia/Shanghai"))) as Hpl.
  { unfold cond_plain, normalizeCondition in Hp. cbn [partial_of mbind option_bind p_source] in Hp.
    rewrite bool_decide_true in Hp by done. exact Hp. }
  specialize (H Hpl). destruct (canonical _); [|done]. destruct H as (ts & ? & ? & _). eauto.
Qed.

Lemma str_join_nonempty sep t ts : t ≠ [] → str_join sep (t :: ts) ≠ [].
Proof. intros Ht. destruct ts as [|t' ts]; [done|]. cbn [str_join]. by intros [? _]%app_eq_nil. Qed.

Lemma good_nonempty c ts : good c ts → str_join (js " && ") ts ≠ [].
Proof.
  intros [Hne Ht _]. destruct ts as [|t ts]; [done|]. apply Forall_cons in Ht as [[[_ _ Ht] _] _]. by apply str_join_nonempty.
Qed.

Lemma print_conditions conds : Forall cond_plain conds →
  ∃ tss, Forall2 printed (omap canonical conds) tss
    ∧ filter (fun e => str_true e = true) (buildRequestConditionExpr <$> conds) = str_join (js " && ") <$> tss.
Proof.
  induction 1 as [|cond conds Hc _ (tss & IH & E)]; [by exists []|]. apply print_condition in Hc. rewrite fmap_cons.
  cbn [omap list_omap]. destruct (canonical cond) as [c|].
  - destruct Hc as (ts & Hts & ->). exists (ts :: tss). split; [by constructor|].
    rewrite filter_cons_True by (by eapply str_true_spec, good_nonempty, printed_good). by rewrite E.
  - rewrite Hc. rewrite filter_cons_False by done. by exists tss.
Qed.

(** The conjunction of the printed conditions *)
Definition combined (es : list jsstr) : jsstr :=
  match es with [e] => e | es => str_join (js " && ") (wrap <$> es) end.

Lemma combined_good cs tss : cs ≠ [] → Forall2 printed cs tss →
  ∃ tss', Forall2 good cs tss' ∧ combined (str_join (js " && ") <$> tss) = str_join (js " && ") (concat tss').
Proof.
  intros Hne H.
  assert (∃ tss', Forall2 good cs tss' ∧ wrap <$> (str_join (js " && ") <$> tss) = str_join (js " && ") <$> tss') as (tss' & Hg & E).
  { clear Hne. induction H as [|c ts cs tss Hp _ (tss' & IH & E)]; [by exists []|].
    destruct (wrap_printed _ _ Hp) as (ts' & Hg & E'). exists (ts' :: tss'). split; [by constructor|].
    rewrite !fmap_cons, E'. by f_equal. }
  destruct H as [|c ts cs tss Hp H]; [done|]. destruct H as [|c' ts' cs tss Hp' H].
  - exists [ts]. split; [by constructor; [apply printed_good|constructor]|]. cbn [concat]. by rewrite app_nil_r.
  - exists tss'. split; [done|]. rewrite <- str_join_concat.
    + rewrite <- E. done.
    + clear -Hg. induction Hg as [|? ? ? ? [? _ _]]; by constructor.
Qed.

Definition canonical_group (g : RequestRuleGroup) : option RequestRuleGroup :=
  if is_numeric (trim (multiplier g)) then
    match omap canonical (conditions g) with
    | [] => None
    | cs => Some (mkGroup cs (trim (multiplier g)) None None)
    end
  else None.

Definition group_reparsable (g : RequestRuleGroup) : bool := forallb reparsable (conditions g).

Lemma join_level tss cs : Forall2 good cs tss → level (str_join (js " && ") (concat tss)) 0 = Some 0%Z.
Proof.
  intros H. assert (Forall text_ok (concat tss)) as Ht.
  { apply Forall_concat. induction H as [|? ? ? ? [_ ? _]]; by constructor. }
  clear H. induction Ht as [|t ts [_ Hl] Ht IH]; [done|]. destruct ts as [|t' ts]; [done|].
  cbn [str_join] in *. eapply level_app; [exact Hl|]. eapply level_app; [|exact IH]. by vm_compute.
Qed.

(** A factor is one part of the product. *)
Record factor_of (g : RequestRuleGroup) (t : jsstr) : Prop := {
  fo_part : part_ok 42 t;
  fo_level : level t 0 = Some 0%Z;
  fo_ends : ∃ u, t = [40%N] ++ u ++ [41%N];
  fo_read : tryParseRuleGroupFactor t = Returns (if group_reparsable g then Some g else None)
}.

Lemma factor_text cs tss v : cs ≠ [] → Forall2 good cs tss → is_numeric v = true →
  factor_of (mkGroup cs v None None) ([40%N] ++ str_join (js " && ") (concat tss) ++ js " ? " ++ v ++ js " : 1)").
Proof.
  intros Hne Hg Hv. pose proof (join_level _ _ Hg) as Hl. pose proof (parse_conjunction _ _ Hne Hg) as Hr.
  set (u := str_join (js " && ") (concat tss)) in *.
  assert (u ≠ []) as Hu.
  { unfold u. destruct Hg as [|c ts cs tss [Hts Ht _] _]; [done|]. destruct ts as [|t ts]; [done|].
    apply Forall_cons in Ht as [[[_ _ Ht] _] _]. cbn [concat app]. by apply str_join_nonempty. }
  clearbody u.
  assert ([40%N] ++ u ++ js " ? " ++ v ++ js " : 1)" = [40%N] ++ (u ++ js " ? " ++ v ++ js " : 1") ++ [41%N]) as E.
  { rewrite <- !app_assoc. do 4 f_equal. }
  assert (level (u ++ js " ? " ++ v ++ js " : 1") 0 = Some 0%Z) as Hin.
  { eapply level_app; [exact Hl|]. apply (sg_level 38), seg_flat. flats. }
  assert (level ([40%N] ++ u ++ js " ? " ++ v ++ js " : 1)") 0 = Some 0%Z) as Hlevel.
  { rewrite E. by apply (sg_level 38), seg_paren. }
  split; [split| | |].
  - rewrite E. eapply calm_app; [reflexivity| |by left].
    eapply calm_app; [exact (level_calm 42 _ 0 0 ltac:(done) Hin)|reflexivity|by right].
  - rewrite E. by eapply (trim_ends _ 40 _ ([40%N] ++ _) 41).
  - done.
  - done.
  - eauto.
  - destruct (factor_run u v Hu Hv) as (m & Hm & H1 & H2). unfold tryParseRuleGroupFactor. rewrite Hm, H1, Hr, H2.
    simpl. unfold group_reparsable. by destruct (forallb _ _).
Qed.

Lemma print_group g : Forall cond_plain (conditions g) →
  match canonical_group g with
  | Some c => factor_of c (buildRuleGroupFactor g)
  | None => buildRuleGroupFactor g = []
  end.
Proof.
  intros Hp. unfold canonical_group, buildRuleGroupFactor.
  destruct (is_numeric (trim (multiplier g))) eqn:Ev; [|done]. cbn [negb].
  destruct (print_conditions _ Hp) as (tss & Hts & ->).
  destruct (omap canonical (conditions g)) as [|c cs] eqn:Ec; [by apply Forall2_nil_inv_l in Hts as ->|].
  assert (c :: cs ≠ []) as Hne by done. destruct (combined_good _ _ Hne Hts) as (tss' & Hg & E).
  pose proof (factor_text _ _ _ Hne Hg Ev) as Hf. rewrite <- E in Hf. clear -Hf Hts.
  destruct tss as [|ts tss]; [by apply Forall2_cons_nil_inv in Hts|]. rewrite fmap_cons in *. exact Hf.
Qed.

(** ** Products of factors *)

Lemma print_groups groups : Forall (fun g => Forall cond_plain (conditions g)) groups →
  Forall2 factor_of (omap canonical_group groups) (filter (fun f => str_true f = true) (buildRuleGroupFactor <$> groups)).
Proof.
  induction 1 as [|g groups Hg _ IH]; [constructor|]. apply print_group in Hg. rewrite fmap_cons. cbn [omap list_omap].
  destruct (canonical_group g) as [c|].
  - rewrite filter_cons_True; [by constructor|]. apply str_true_spec. by destruct Hg as [[_ _ ?] _ _ _].
  - rewrite Hg. by rewrite filter_cons_False.
Qed.

Lemma parse_factors gs fs : Forall2 factor_of gs fs →
  parse_parts tryParseRuleGroupFactor fs = Returns (if forallb group_reparsable gs then Some gs else None).
Proof.
  induction 1 as [|g f gs fs [_ _ _ Hr] _ IH]; [done|]. cbn [parse_parts forallb]. rewrite Hr. simpl.
  destruct (group_reparsable g); [|done]. simpl. rewrite IH. simpl. by destruct (forallb _ _).
Qed.

Lemma factors_parts gs fs : Forall2 factor_of gs fs → Forall (part_ok 42) fs.
Proof. induction 1 as [|? ? ? ? [? _ _ _]]; by constructor. Qed.

(** A product of factors begins and ends with parentheses. *)
Lemma product_ends gs fs : gs ≠ [] → Forall2 factor_of gs fs →
  ∃ u t, str_join (js " * ") fs = 40%N :: u ∧ str_join (js " * ") fs = t ++ [41%N].
Proof.
  intros Hne H. destruct H as [|g f gs fs [_ _ (u & ->) _] H]; [done|]. clear Hne.
  assert (∃ t, str_join (js " * ") (([40%N] ++ u ++ [41%N]) :: fs) = t ++ [41%N]) as (t & Et).
  { revert g u. induction H as [|g' f' gs fs [_ _ (u' & ->) _] H IH]; intros g u.
    - exists ([40%N] ++ u). cbn [str_join]. by rewrite <- app_assoc.
    - destruct (IH g' u') as (t & Et). exists (([40%N] ++ u ++ [41%N]) ++ js " * " ++ t).
      rewrite <- !app_assoc. rewrite <- Et. cbn [str_join]. by rewrite <- !app_assoc. }
  destruct fs as [|f fs]; [exists (u ++ [41%N]), t; done|].
  exists ((u ++ [41%N]) ++ js " * " ++ str_join (js " * ") (f :: fs)), t. done.
Qed.

Lemma product_trim gs fs : gs ≠ [] → Forall2 factor_of gs fs → trim (str_join (js " * ") fs) = str_join (js " * ") fs.
Proof. intros Hne H. destruct (product_ends _ _ Hne H) as (u & t & E1 & E2). by eapply trim_ends. Qed.

Lemma parse_product gs fs : Forall2 factor_of gs fs →
  tryParseRequestRuleExpr (str_join (js " * ") fs) = Returns (if forallb group_reparsable gs then Some gs else None).
Proof.
  intros H. destruct (decide (gs = [])) as [->|Hne]; [by apply Forall2_nil_inv_l in H as ->|].
  unfold tryParseRequestRuleExpr. rewrite (product_trim _ _ Hne H).
  destruct (product_ends _ _ Hne H) as (u & _ & E & _). rewrite (proj2 (str_true_spec _)) by (by rewrite E).
  unfold splitTopLevelMultiply. replace (js " * ") with [32; 42; 32]%N by (by vm_compute).
  rewrite split_top_join; [by apply parse_factors|done..| |by eapply factors_parts].
  by destruct H.
Qed.

Lemma rules_read_back groups :
  Forall (fun g => Forall cond_plain (conditions g)) groups →
  let gs := omap canonical_group groups in
  tryParseRequestRuleExpr (buildRequestRuleExpr groups)
  = Returns (if forallb (fun g => forallb reparsable (conditions g)) gs then Some gs else None).
Proof. intros H gs. exact (parse_product _ _ (print_groups _ H)). Qed.

(** C16. For conditions whose texts are plain ([cond_plain]: paths and time zones
    without quotation marks, backslashes, parentheses, bars, control characters and
    surrogates; values without parentheses, bars, ampersands and line separators),
    what the editor prints for rule groups, its parser reads back as the same
    groups with their texts trimmed, less the conditions and groups that print
    nothing - except that one condition on a parameter with [contains], [gt],
    [gte], [lt] or [lte] makes the whole text unreadable: its text is the
    conjunction of two clauses, and the parser splits at [&&] before it looks for
    them. *)
Theorem rule_roundtrip groups :
  Forall (fun g => Forall cond_plain (conditions g)) groups →
  let gs := omap canonical_group groups in
  tryParseRequestRuleExpr (buildRequestRuleExpr groups)
  = Returns (if forallb (fun g => forallb reparsable (conditions g)) gs then Some gs else None).
Proof. apply rules_read_back. Qed.

(** The round trip at two groups that are read back and at one that is not *)
Lemma rule_roundtrip_witness :
  let night := CTime (mkTime (js "hour") (js "UTC") MATCH_RANGE [] (js " 22 ") (js "6")) in
  let beta := CParamHeader (mkPH Header (js " x-beta") MATCH_CONTAINS (js "a b")) in
  let many := CParamHeader (mkPH Param (js "n") MATCH_GT (js "3")) in
  let gs := [mkGroup [night; beta] (js "1.5") None None; mkGroup [] (js "7") None None] in
  tryParseRequestRuleExpr (buildRequestRuleExpr gs)
  = Returns (Some [mkGroup [CTime (mkTime (js "hour") (js "UTC") MATCH_RANGE [] (js "22") (js "6"));
                            CParamHeader (mkPH Header (js "x-beta") MATCH_CONTAINS (js "a b"))] (js "1.5") None None])
  ∧ tryParseRequestRuleExpr (buildRequestRuleExpr (mkGroup [many] (js "2") None None :: gs)) = Returns None.
Proof.
  cbv zeta. split.
  - rewrite (rule_roundtrip [mkGroup [CTime _; CParamHeader _] _ None None; mkGroup [] _ None None]).
    + vm_compute. reflexivity.
    + repeat constructor; decided.
  - rewrite (rule_roundtrip [mkGroup [_] _ None None; mkGroup [CTime _; CParamHeader _] _ None None; mkGroup [] _ None None]).
    + vm_compute. reflexivity.
    + repeat constructor; decided.
Defined.

(** ** Splitting off the rules *)

Lemma full_go_level s d d' : (0 <= d)%Z → level s d = Some d' → full_go (s ++ [41%N]) (d + 1) = (d' =? 0)%Z.
Proof.
  revert d. induction s as [|c s IH]; intros d Hd H.
  - simpl in *. simplify_eq. unfold depth_after. simpl. rewrite andb_false_r. f_equal. lia.
  - cbn [level] in H. cbn [app full_go]. rewrite depth_after_shift. destruct (depth_after c d <? 0)%Z eqn:E; [done|].
    assert ((depth_after c d + 1 =? 0)%Z = false) as -> by lia. cbn [andb]. apply IH; [lia|done].
Qed.

Lemma slice_inner c d (s : jsstr) : slice 1 (length ([c] ++ s ++ [d]) - 1) ([c] ++ s ++ [d]) = s.
Proof.
  unfold slice. cbn [app drop length]. rewrite length_app. cbn [length].
  replace (S (length s + 1) - 1 - 1) with (length s) by lia. apply take_app_length.
Qed.

Lemma unwrap_paren b : trim b = b → level b 0 = Some 0%Z → hasFullOuterParens b = false →
  unwrapOuterParens ([40%N] ++ b ++ [41%N]) = b.
Proof.
  intros Ht Hl Hb. unfold unwrapOuterParens.
  rewrite (trim_ends ([40%N] ++ b ++ [41%N]) 40 (b ++ [41%N]) ([40%N] ++ b) 41) by done.
  destruct (length _) as [|n] eqn:En; [done|]. cbn [unwrap_go].
  assert (hasFullOuterParens ([40%N] ++ b ++ [41%N]) = true) as ->.
  { unfold hasFullOuterParens. rewrite !andb_true_iff. split_and!.
    - apply (starts_with_app [40%N]).
    - unfold ends_with. rewrite !reverse_app. apply (starts_with_app [41%N]).
    - cbn [app full_go]. change (depth_after 40 0) with 1%Z. cbn [Z.eqb andb]. exact (full_go_level b 0 0 ltac:(done) Hl). }
  rewrite slice_inner, Ht. destruct n; [done|]. cbn [unwrap_go]. by rewrite Hb.
Qed.

(** Enough fuel: what is left is not enclosed any more. *)
Lemma unwrap_complete s : hasFullOuterParens (unwrapOuterParens s) = false.
Proof.
  unfold unwrapOuterParens. set (t := trim s). clearbody t. assert (length t ≤ length t) as Hn by done.
  revert Hn. generalize (length t) at 2 3. intros n. revert t. induction n as [|n IH]; intros t Hn.
  - destruct t; [done|simpl in Hn; lia].
  - cbn [unwrap_go]. destruct (hasFullOuterParens t) eqn:E; [|done]. apply IH.
    etransitivity; [apply trim_length|]. unfold slice. rewrite length_take, length_drop. lia.
Qed.

Lemma classify_factors gs fs : Forall2 factor_of gs fs →
  ∃ rules bases, classify fs = Returns (rules, bases)
    ∧ (if forallb group_reparsable gs then rules = fs ∧ bases = [] else bases ≠ []).
Proof.
  induction 1 as [|g f gs fs Hf H (rules & bases & IH & Hb)]; [by exists [], []|].
  cbn [classify forallb]. pose proof (parse_product [g] [f] ltac:(by constructor)) as E. cbn [str_join] in E. rewrite E, IH.
  cbn [forallb]. rewrite andb_true_r. destruct (group_reparsable g).
  - exists (f :: rules), bases. split; [done|]. simpl. destruct (forallb _ _); [|done]. by destruct Hb as [-> ->].
  - by exists rules, (f :: bases).
Qed.

Lemma paren_part b : level b 0 = Some 0%Z → part_ok 42 ([40%N] ++ b ++ [41%N]).
Proof.
  intros Hl. split; [|by apply (trim_ends _ 40 (b ++ [41%N]) ([40%N] ++ b) 41)|done].
  eapply calm_app; [reflexivity| |by left].
  eapply calm_app; [exact (level_calm 42 _ 0 0 ltac:(done) Hl)|reflexivity|by right].
Qed.

Lemma split_combined base groups :
  let b := trim base in
  let gs := omap canonical_group groups in
  let rules := buildRequestRuleExpr groups in
  b ≠ [] → level b 0 = Some 0%Z → hasFullOuterParens b = false →
  tryParseRequestRuleExpr ([40%N] ++ b ++ [41%N]) = Returns None →
  Forall (fun g => Forall cond_plain (conditions g)) groups → gs ≠ [] →
  splitBillingExprAndRequestRules (combineBillingExpr base rules)
  = Returns (if forallb (fun g => forallb reparsable (conditions g)) gs then mkSplit b rules
             else mkSplit (combineBillingExpr base rules) []).
Proof.
  intros b gs rules Hb Hl Hfull Hbase Hplain Hgs. pose proof (print_groups _ Hplain) as H. fold gs in H.
  unfold rules, buildRequestRuleExpr. set (fs := filter _ _) in *. clearbody fs gs. clear rules Hplain.
  assert (trim b = b) as Htb by apply trim_idemp. unfold combineBillingExpr. fold b. clearbody b.
  rewrite (product_trim _ _ Hgs H). destruct (product_ends _ _ Hgs H) as (u & t & E1 & E2).
  rewrite !(proj2 (str_true_spec _)) by (first [done|by rewrite E1]).
  assert ([40%N] ++ b ++ js ") * " ++ str_join (js " * ") fs = str_join (js " * ") (([40%N] ++ b ++ [41%N]) :: fs)) as E.
  { destruct H; [done|]. cbn [str_join]. rewrite <- !app_assoc. done. }
  rewrite E. unfold splitBillingExprAndRequestRules.
  rewrite (trim_ends (str_join _ _) 40 (b ++ js ") * " ++ str_join (js " * ") fs) ([40%N] ++ b ++ js ") * " ++ t) 41);
    [|by rewrite <- E|by rewrite <- E, E2, <- !app_assoc|done|done].
  rewrite (proj2 (str_true_spec _)) by (by rewrite <- E).
  unfold splitTopLevelMultiply. replace (js " * ") with [32; 42; 32]%N in * by (by vm_compute).
  rewrite split_top_join; [|done..|constructor; [by apply paren_part|by eapply factors_parts]].
  destruct (classify_factors _ _ H) as (rules & bases & Hc & Hr). cbn [classify]. rewrite Hbase, Hc. unfold group_reparsable in Hr.
  destruct H as [|g f gs fs _ _]; [done|]. cbn [length Nat.leb mbind outcome_bind].
  destruct (forallb _ _).
  - destruct Hr as [-> ->]. by rewrite (unwrap_paren b).
  - destruct bases; [done|]. by destruct rules.
Qed.

(** A base expression and printed rules that are combined into one billing
    expression are found again when it is split: the base as it was (trimmed) and
    the rules' text - or, when a condition of the rules cannot be read back, the
    whole text as the base, without rules. *)
Theorem combine_split base groups :
  let b := trim base in
  let gs := omap canonical_group groups in
  let rules := buildRequestRuleExpr groups in
  b ≠ [] → level b 0 = Some 0%Z → hasFullOuterParens b = false →
  tryParseRequestRuleExpr ([40%N] ++ b ++ [41%N]) = Returns None →
  Forall (fun g => Forall cond_plain (conditions g)) groups → gs ≠ [] →
  splitBillingExprAndRequestRules (combineBillingExpr base rules)
  = Returns (if forallb (fun g => forallb reparsable (conditions g)) gs then mkSplit b rules
             else mkSplit (combineBillingExpr base rules) []).
Proof. apply split_combined. Qed.

Lemma combine_split_witness :
  let base := dq " tier('base', p * 2 + c * 8) " in
  let night := CTime (mkTime (js "hour") (js "UTC") MATCH_RANGE [] (js "22") (js "6")) in
  let many := CParamHeader (mkPH Param (js "n") MATCH_GT (js "3")) in
  let gs := [mkGroup [night] (js "1.5") None None] in
  let gs' := mkGroup [many] (js "2") None None :: gs in
  splitBillingExprAndRequestRules (combineBillingExpr base (buildRequestRuleExpr gs))
  = Returns (mkSplit (dq "tier('base', p * 2 + c * 8)") (buildRequestRuleExpr gs))
  ∧ splitBillingExprAndRequestRules (combineBillingExpr base (buildRequestRuleExpr gs'))
    = Returns (mkSplit (combineBillingExpr base (buildRequestRuleExpr gs')) []).
Proof.
  cbv zeta. split.
  - refine (combine_split (dq " tier('base', p * 2 + c * 8) ") [mkGroup [_] (js "1.5") None None] _ _ _ _ _ _);
      [by vm_compute..|repeat constructor; decided|by vm_compute].
  - refine (combine_split (dq " tier('base', p * 2 + c * 8) ") [mkGroup [_] (js "2") None None; mkGroup [_] (js "1.5") None None] _ _ _ _ _ _);
      [by vm_compute..|repeat constructor; decided|by vm_compute].
Defined.

(** ** Printing what was read *)

Lemma num_trim v : is_numeric v = true → trim v = v.
Proof.
  intros Hv. apply is_numeric_units in Hv as [_ Hv]. apply trim_id. eapply Forall_impl; [exact Hv|]. intros c Hc.
  unfold num_unit, is_digit in Hc. unfold is_ws. lia.
Qed.

Lemma offered_mode_id src m d : m ∈ o_value <$> getRequestRuleMatchOptions src → offered_mode src (Some m) d = m.
Proof.
  intros Hm. unfold offered_mode. destruct (existsb _ _) eqn:E; [done|exfalso].
  apply list_elem_of_fmap in Hm as (item & -> & Hin). apply not_true_iff_false in E. apply E. apply existsb_exists.
  exists item. split; [by apply list_elem_of_In|]. by apply bool_decide_eq_true.
Qed.

Lemma normalize_ph src p m v : m ∈ o_value <$> getRequestRuleMatchOptions (source_name src) →
  buildRequestConditionExpr (CParamHeader (mkPH src p m v)) = param_header_expr (mkPH src p m v).
Proof.
  intros Hm. unfold buildRequestConditionExpr, normalizeCondition, partial_of. cbn [mbind option_bind p_source p_path p_mode p_value ph_source ph_path ph_mode ph_value].
  rewrite bool_decide_false by (by destruct src; vm_compute).
  replace (if bool_decide _ then Header else Param) with src by (by destruct src; vm_compute).
  by rewrite offered_mode_id.
Qed.

Lemma normalize_time f tz m v s e : f ∈ TIME_FUNCS → tz ≠ [] → m ∈ o_value <$> getRequestRuleMatchOptions SOURCE_TIME →
  buildRequestConditionExpr (CTime (mkTime f tz m v s e)) = time_expr (mkTime f tz m v s e).
Proof.
  intros Hf Htz Hm. cbn [buildRequestConditionExpr]. unfold buildTimeConditionExpr, normalizeCondition, partial_of.
  cbn [mbind option_bind p_source p_timeFunc p_timezone p_mode p_value p_rangeStart p_rangeEnd timeFunc timezone t_mode t_value rangeStart rangeEnd].
  rewrite bool_decide_true by done. rewrite offered_mode_id by done. unfold isTimeFunc. rewrite bool_decide_true by done.
  change (ostr (Some tz)) with tz. unfold str_or. by rewrite (proj2 (str_true_spec tz)).
Qed.

Lemma print_printed c ts : printed c ts → buildRequestConditionExpr c = str_join (js " && ") ts.
Proof.
  destruct 1 as [f tz s e Hf Htz Hp Hs He|f tz m op v Hf Htz Hp Hop Hv|p Hne Hp Ht|p Hne Hp Ht|p v Hne Hp Ht Hq Hv
    |src p v Hne Hp Ht Hq Hv|p v Hne Hp Ht Hq Hv|p m op v Hne Hp Ht Hop Hv].
  - rewrite normalize_time by (done || decided). unfold time_expr. cbn [t_mode rangeStart rangeEnd timeFunc timezone]. modes.
    rewrite !num_trim, Hs, He, call_expr_plain by done. done.
  - assert (m ≠ MATCH_RANGE ∧ m ∈ o_value <$> getRequestRuleMatchOptions SOURCE_TIME ∧ table_get time_ops m (js "==") = op) as (Hr & Ho & E).
    { unfold time_ops in Hop. each Hop; (split_and!; [done|decided|by vm_compute]). }
    rewrite normalize_time by done. unfold time_expr. cbn [t_mode t_value timeFunc timezone]. rewrite bool_decide_false by done.
    rewrite num_trim, Hv, call_expr_plain, E by done. done.
  - rewrite normalize_ph by decided. unfold param_header_expr. cbn [ph_path ph_source ph_mode ph_value]. rewrite Ht, (proj2 (str_true_spec p)) by done. modes.
    by rewrite call_expr_plain.
  - rewrite normalize_ph by decided. unfold param_header_expr. cbn [ph_path ph_source ph_mode ph_value]. rewrite Ht, (proj2 (str_true_spec p)) by done. modes.
    by rewrite call_expr_plain.
  - rewrite normalize_ph by decided. unfold param_header_expr. cbn [ph_path ph_source ph_mode ph_value]. rewrite Ht, (proj2 (str_true_spec p)) by done. modes.
    rewrite call_expr_plain by done. unfold buildExprLiteral. modes. by rewrite Hv.
  - rewrite normalize_ph by (destruct src; decided). unfold param_header_expr. cbn [ph_path ph_source ph_mode ph_value]. rewrite Ht, (proj2 (str_true_spec p)) by done. modes.
    by rewrite call_expr_plain.
  - rewrite normalize_ph by decided. unfold param_header_expr. cbn [ph_path ph_source ph_mode ph_value]. rewrite Ht, (proj2 (str_true_spec p)) by done. modes.
    rewrite call_expr_plain, nil_and by done. unfold buildExprLiteral. modes. by rewrite Hv.
  - assert (m ≠ MATCH_EXISTS ∧ m ≠ MATCH_CONTAINS ∧ m ∈ compare_ops.*1 ∧ m ∈ o_value <$> getRequestRuleMatchOptions SOURCE_PARAM
      ∧ table_get compare_ops m [] = op) as (H1 & H2 & H3 & Ho & E).
    { unfold compare_ops in Hop. each Hop; (split_and!; [done|done|decided|decided|by vm_compute]). }
    rewrite normalize_ph by done. unfold param_header_expr. cbn [ph_path ph_source ph_mode ph_value]. rewrite Ht, (proj2 (str_true_spec p)) by done.
    rewrite !bool_decide_false by done. rewrite bool_decide_true, num_trim, Hv, call_expr_plain, E, nil_and by done. done.
Qed.

(** A canonical condition prints as the condition it came from. *)
Lemma print_canonical cond c : cond_plain cond → canonical cond = Some c → buildRequestConditionExpr c = buildRequestConditionExpr cond.
Proof.
  intros Hp Hc. pose proof (print_condition cond Hp) as H. rewrite Hc in H. destruct H as (ts & Hts & ->). by apply print_printed.
Qed.

Lemma print_canonicals conds : Forall cond_plain conds →
  filter (fun e => str_true e = true) (buildRequestConditionExpr <$> omap canonical conds)
  = filter (fun e => str_true e = true) (buildRequestConditionExpr <$> conds).
Proof.
  induction 1 as [|cond conds Hc _ IH]; [done|]. pose proof (print_condition cond Hc) as H. cbn [omap list_omap]. rewrite (fmap_cons _ cond).
  destruct (canonical cond) as [c|] eqn:E.
  - rewrite fmap_cons, (print_canonical cond c Hc E), !filter_cons, IH. done.
  - rewrite H, filter_cons_False by done. exact IH.
Qed.

Lemma print_canonical_group g : Forall cond_plain (conditions g) →
  match canonical_group g with Some c => buildRuleGroupFactor c = buildRuleGroupFactor g | None => True end.
Proof.
  intros Hp. unfold canonical_group. destruct (is_numeric (trim (multiplier g))) eqn:Ev; [|done].
  pose proof (print_canonicals _ Hp) as E. destruct (omap canonical (conditions g)) as [|c cs]; [done|].
  unfold buildRuleGroupFactor. cbn [multiplier conditions]. rewrite trim_idemp, Ev. cbn [negb]. by rewrite E.
Qed.

(** What is read back prints as the same rules. *)
Lemma build_canonical groups : Forall (fun g => Forall cond_plain (conditions g)) groups →
  buildRequestRuleExpr (omap canonical_group groups) = buildRequestRuleExpr groups.
Proof.
  intros H. unfold buildRequestRuleExpr. f_equal. induction H as [|g groups Hg _ IH]; [done|].
  pose proof (print_canonical_group g Hg) as E. pose proof (print_group g Hg) as E'. cbn [omap list_omap]. rewrite (fmap_cons _ g).
  destruct (canonical_group g) as [c|].
  - by rewrite fmap_cons, E, !filter_cons, IH.
  - rewrite E', filter_cons_False by done. exact IH.
Qed.

End RuleRoundtrip.
