(* ===== verification/TierExpr.v ===== *)
(** * Tiered prices
    (src/web/src/features/pricing/lib/tier-expr.ts and billing-expr.ts)

    The visual editor keeps a list of tiers, prints it as a billing expression,
    [cond ? tier(a, p * 1 + c * 2) : tier(b, ...)] with the labels as string literals, and reads such text back
    with regular expressions.  The price pages read the same text with a parser of
    their own. *)

From S2P Require Import Prelude JsString JsValue JsJson JsNumber JsRegex BillingRules.

Module TierExpr.
Import BillingRules.

(** ** The registry of variables *)

Inductive Side := SideInput | SideOutput | SideCondition.

Record BillingVar := mkVar {
  key : jsstr; field : option jsstr; tierField : option jsstr; side : Side;
  isBase : bool; isConditionOnly : bool; group : option jsstr
}.

Definition BILLING_VARS : list BillingVar := [
  mkVar (js "p") (Some (js "inputPrice")) (Some (js "input_unit_cost")) SideInput true false None;
  mkVar (js "c") (Some (js "outputPrice")) (Some (js "output_unit_cost")) SideOutput true false None;
  mkVar (js "len") None None SideCondition false true None;
  mkVar (js "cr") (Some (js "cacheReadPrice")) (Some (js "cache_read_unit_cost")) SideInput false false (Some (js "cache"));
  mkVar (js "cc") (Some (js "cacheCreatePrice")) (Some (js "cache_create_unit_cost")) SideInput false false (Some (js "cache"));
  mkVar (js "cc1h") (Some (js "cacheCreate1hPrice")) (Some (js "cache_create_1h_unit_cost")) SideInput false false (Some (js "cache"));
  mkVar (js "img") (Some (js "imagePrice")) (Some (js "image_unit_cost")) SideInput false false (Some (js "media"));
  mkVar (js "img_o") (Some (js "imageOutputPrice")) (Some (js "image_output_unit_cost")) SideOutput false false (Some (js "media"));
  mkVar (js "ai") (Some (js "audioInputPrice")) (Some (js "audio_input_unit_cost")) SideInput false false (Some (js "media"));
  mkVar (js "ao") (Some (js "audioOutputPrice")) (Some (js "audio_output_unit_cost")) SideOutput false false (Some (js "media"))].

Definition BILLING_PRICING_VARS : list BillingVar := filter (fun v => isConditionOnly v = false) BILLING_VARS.
Definition BILLING_CONDITION_VARS : list jsstr := key <$> filter (fun v => isBase v || isConditionOnly v = true) BILLING_VARS.
Definition BILLING_VAR_KEY_TO_FIELD : list (jsstr * jsstr) := (fun v => (key v, ostr (field v))) <$> BILLING_PRICING_VARS.
Definition BILLING_EXTRA_VARS : list BillingVar := filter (fun v => negb (isBase v) && negb (isConditionOnly v) = true) BILLING_VARS.

(** The field of a tier and the variable of the expression *)
Definition BILLING_CACHE_VAR_MAP : list (jsstr * jsstr) := (fun v => (ostr (tierField v), key v)) <$> BILLING_EXTRA_VARS.

(** ** Tiers *)

Inductive CacheMode := CACHE_MODE_TIMED | CACHE_MODE_GENERIC.

Inductive cond_value := CNum (x : num) | CStr (s : jsstr).

Record TierConditionInput := mkCond { ci_var : jsstr; ci_op : jsstr; ci_value : cond_value }.

Record VisualTier := mkTier {
  label : jsstr;
  tier_conditions : list TierConditionInput;
  input_unit_cost : num;
  output_unit_cost : num;
  cache_mode : CacheMode;
  cache_read_unit_cost : option num;
  cache_create_unit_cost : option num;
  cache_create_1h_unit_cost : option num;
  image_unit_cost : option num;
  image_output_unit_cost : option num;
  audio_input_unit_cost : option num;
  audio_output_unit_cost : option num
}.

Record VisualConfig := mkConfig { tiers : list VisualTier }.

(** [Partial<VisualTier>]: a missing field is [None]. *)
Record PartialTier := mkPartialTier {
  pt_label : option jsstr;
  pt_conditions : option (list TierConditionInput);
  pt_input : option num;
  pt_output : option num;
  pt_mode : option CacheMode;
  pt_extras : list (jsstr * num)
}.

(** [Number(x) || 0] of an optional number *)
Definition or0 (x : option num) : num :=
  match x with Some x => if num_true x then x else num_of_Z 0 | None => num_of_Z 0 end.

Arguments or0 : simpl never.

Definition getTierCacheMode (tier : PartialTier) : CacheMode :=
  match pt_mode tier with
  | Some m => m
  | None =>
      if num_ltb (num_of_Z 0) (default NaN (mget (js "cache_create_1h_unit_cost") (pt_extras tier)))
      then CACHE_MODE_TIMED else CACHE_MODE_GENERIC
  end.

(** The spread of the tier comes after the defaults of the first five fields, so a
    present cost stays as it is, even when it is not a number. *)
Definition normalizeVisualTier (tier : PartialTier) : VisualTier :=
  let extra k := Some (or0 (mget (js k) (pt_extras tier))) in
  mkTier (ostr (pt_label tier)) (default [] (pt_conditions tier))
    (default (num_of_Z 0) (pt_input tier)) (default (num_of_Z 0) (pt_output tier))
    (getTierCacheMode tier)
    (extra "cache_read_unit_cost") (extra "cache_create_unit_cost") (extra "cache_create_1h_unit_cost")
    (extra "image_unit_cost") (extra "image_output_unit_cost")
    (extra "audio_input_unit_cost") (extra "audio_output_unit_cost").

(** The optional costs by the names of their fields *)
Definition tier_fields (t : VisualTier) : list (jsstr * option num) := [
  (js "cache_read_unit_cost", cache_read_unit_cost t);
  (js "cache_create_unit_cost", cache_create_unit_cost t);
  (js "cache_create_1h_unit_cost", cache_create_1h_unit_cost t);
  (js "image_unit_cost", image_unit_cost t);
  (js "image_output_unit_cost", image_output_unit_cost t);
  (js "audio_input_unit_cost", audio_input_unit_cost t);
  (js "audio_output_unit_cost", audio_output_unit_cost t)].

Definition tier_field (t : VisualTier) (f : jsstr) : option num := default None (mget f (tier_fields t)).

(** A tier as an argument of [normalizeVisualTier] *)
Definition partial_tier (t : VisualTier) : PartialTier :=
  mkPartialTier (Some (label t)) (Some (tier_conditions t)) (Some (input_unit_cost t)) (Some (output_unit_cost t))
    (Some (cache_mode t)) (omap (fun '(k, v) => (fun x => (k, x)) <$> v) (tier_fields t)).

Definition createDefaultVisualConfig : VisualConfig :=
  mkConfig [normalizeVisualTier (mkPartialTier (Some (js "base")) (Some []) (Some (num_of_Z 0)) (Some (num_of_Z 0))
              (Some CACHE_MODE_GENERIC) [])].

Definition normalizeVisualConfig (config : option VisualConfig) : VisualConfig :=
  match config with
  | None | Some (mkConfig []) => createDefaultVisualConfig
  | Some (mkConfig ts) => mkConfig ((fun t => normalizeVisualTier (partial_tier t)) <$> ts)
  end.

(** ** Printing *)

Definition cond_value_str (v : cond_value) : jsstr := match v with CNum x => num_str x | CStr s => s end.

Definition cond_complete (c : TierConditionInput) : bool :=
  str_true (ci_var c) && str_true (ci_op c) && match ci_value c with CNum _ => true | CStr s => str_true s end.

Definition cond_text (c : TierConditionInput) : jsstr :=
  ci_var c ++ [32%N] ++ ci_op c ++ [32%N] ++ cond_value_str (ci_value c).

Definition buildConditionStr (conditions : list TierConditionInput) : jsstr :=
  str_join (js " && ") (cond_text <$> filter (fun c => cond_complete c = true) conditions).

(** [`${v} * ${x}`] *)
Definition term (v : jsstr) (x : num) : jsstr := v ++ js " * " ++ num_str x.

Definition buildTierBodyExpr (tier : VisualTier) : jsstr :=
  str_join (js " + ")
    (term (js "p") (or0 (Some (input_unit_cost tier))) :: term (js "c") (or0 (Some (output_unit_cost tier)))
     :: omap (fun '(f, v) => let x := or0 (tier_field tier f) in if num_true x then Some (term v x) else None)
          BILLING_CACHE_VAR_MAP).

(** The call of [tier] with a label and the terms *)
Definition tier_expr (lbl : jsstr) (tier : VisualTier) : jsstr :=
  dq "tier('" ++ lbl ++ dq "', " ++ buildTierBodyExpr tier ++ [41%N].

Fixpoint tier_parts (i : nat) (ts : list VisualTier) : list jsstr :=
  match ts with
  | [] => []
  | tier :: ts' =>
      let body := tier_expr (str_or (label tier) (js "tier_" ++ str_of_N (N.of_nat (i + 1)))) tier in
      let cond := buildConditionStr (tier_conditions tier) in
      (match ts' with _ :: _ => if str_true cond then cond ++ js " ? " ++ body else body | [] => body end)
        :: tier_parts (i + 1) ts'
  end.

Definition generateExprFromVisualConfig (config : option VisualConfig) : jsstr :=
  match config with
  | None | Some (mkConfig []) => js "p * 0 + c * 0"
  | Some (mkConfig [tier]) =>
      let body := tier_expr (str_or (label tier) (js "default")) tier in
      let cond := buildConditionStr (tier_conditions tier) in
      if str_true cond then cond ++ js " ? " ++ body ++ js " : p * 0 + c * 0" else body
  | Some (mkConfig ts) => str_join (js " : ") (tier_parts 0 ts)
  end.

(** ** Expressions *)

Definition ws : regex := RStar (RChar is_ws).

(** A unit of [[\d.eE+]] *)
Definition cond_unit (c : N) : bool := (is_digit c || (c =? 46) || (c =? 101) || (c =? 69) || (c =? 43))%N.

Definition CONDITION_VARS : list jsstr := [js "p"; js "c"; js "len"].
Definition CONDITION_OPS : list jsstr := [js "<"; js "<="; js ">"; js ">="].

Definition cond_regex : regex := RCat [RAny CONDITION_VARS; ws; RAny CONDITION_OPS; ws; RPlus (RChar cond_unit)].
Definition more_conds : regex := RStar (RSeq ws (RSeq (RLit (js "&&")) (RSeq ws cond_regex))).
Definition cond_group : regex := RSeq cond_regex more_conds.

(** A term [v * x] whose number is group [n] *)
Definition term_regex (v : jsstr) (n : nat) : regex := RCat [RLit v; ws; RUnit 42%N; ws; RGroup n numbers].
Definition plus_term (v : jsstr) (n : nat) : regex := RSeq ws (RSeq (RUnit 43%N) (RSeq ws (term_regex v n))).

(** The optional terms, numbered from [n], and what follows them *)
Fixpoint opt_terms (vs : list jsstr) (n : nat) (r : regex) : regex :=
  match vs with [] => r | v :: vs' => RSeq (ROpt (plus_term v n)) (opt_terms vs' (S n) r) end.

Definition body_pat (n : nat) (r : regex) : regex :=
  RSeq (term_regex (js "p") n) (RSeq (plus_term (js "c") (n + 1)) (opt_terms (BILLING_CACHE_VAR_MAP.*2) (n + 2) r)).

(** The beginning of a tier, with the label as group [n] *)
Definition tier_head (n : nat) (r : regex) : regex :=
  RSeq (RLit (dq "tier('")) (RSeq (RGroup n (RStar (RChar (fun c => negb (c =? 34)%N))))
    (RSeq (RLit (dq "',")) (RSeq ws r))).

Definition single_regex : regex := RSeq RStart (tier_head 1 (body_pat 2 (RSeq (RUnit 41%N) REnd))).

Definition cond_prefix : regex := RSeq (RGroup 1 cond_group) (RSeq ws (RSeq (RUnit 63%N) ws)).
Definition tier_regex : regex := RSeq (ROpt cond_prefix) (tier_head 2 (body_pat 3 (RUnit 41%N))).

Definition version_regex : regex :=
  RSeq RStart (RCat [RUnit 118%N; RPlus digit; RUnit 58%N; RGroup 1 (RStar RAnyUnit); REnd]).

Definition one_condition : regex :=
  RSeq RStart (RCat [RGroup 1 (RAny CONDITION_VARS); ws; RGroup 2 (RAny CONDITION_OPS); ws; RGroup 3 (RPlus (RChar cond_unit)); REnd]).
Definition and_regex : regex := RSeq ws (RSeq (RLit (js "&&")) ws).

(** ** Reading *)

Definition strip_version (s : jsstr) : jsstr :=
  match str_match 1 version_regex s with Some m => cap 1 m | None => s end.

Definition parse_conditions (condStr : jsstr) : list TierConditionInput :=
  if str_true condStr then
    omap (fun cp => m ← str_match 3 one_condition (trim cp); Some (mkCond (cap 1 m) (cap 2 m) (CNum (Number_str (cap 3 m)))))
      (split_re and_regex condStr)
  else [].

(** The groups from [n] as the costs of the optional fields *)
Fixpoint extras_from (fields : list jsstr) (n : nat) (m : list (option jsstr)) : list (jsstr * num) :=
  match fields with
  | [] => []
  | f :: fields' =>
      match default None (m !! n) with
      | Some val => (f, Number_str val) :: extras_from fields' (S n) m
      | None => extras_from fields' (S n) m
      end
  end.

(** The tier of a match whose label is group [n] *)
Definition read_tier (conditions : list TierConditionInput) (n : nat) (m : list (option jsstr)) : VisualTier :=
  normalizeVisualTier
    (mkPartialTier (Some (cap n m)) (Some conditions) (Some (Number_str (cap (n + 1) m))) (Some (Number_str (cap (n + 2) m)))
       None (extras_from (BILLING_CACHE_VAR_MAP.*1) (n + 3) m)).

(** [s.replace(/\s+/g, '')] *)
Definition strip_ws (s : jsstr) : jsstr := filter (fun c => is_ws c = false) s.

Definition tryParseVisualConfig (exprStr : option jsstr) : option VisualConfig :=
  match exprStr with
  | None | Some [] => None
  | Some exprStr =>
      let body := strip_version exprStr in
      match str_match 10 single_regex body with
      | Some simple => Some (normalizeVisualConfig (Some (mkConfig [read_tier [] 1 simple])))
      | None =>
          match (fun m => read_tier (parse_conditions (cap 1 m)) 2 m) <$> match_all 11 tier_regex body with
          | [] => None
          | ts =>
              let cfg := normalizeVisualConfig (Some (mkConfig ts)) in
              if bool_decide (strip_ws (generateExprFromVisualConfig (Some cfg)) = strip_ws body) then Some cfg else None
          end
      end
  end.

(** ** The parser of the price pages *)

Record ParsedTier := mkParsed { pr_label : jsstr; pr_conditions : list TierConditionInput; pr_prices : list (jsstr * num) }.

Definition BILLING_VAR_REGEX : regex :=
  RSeq RWordBoundary (RSeq (RGroup 1 (RAny (key <$> BILLING_PRICING_VARS))) (RCat [ws; RUnit 42%N; ws; RGroup 2 numbers])).

Definition price_tier_regex : regex :=
  RSeq (ROpt cond_prefix) (tier_head 2 (RSeq (RGroup 3 (RPlus (RChar (fun c => negb (c =? 41)%N)))) (RUnit 41%N))).

Definition stripExprVersion (exprStr : jsstr) : num * jsstr :=
  if str_true exprStr then
    match str_match 2 (RSeq RStart (RCat [RUnit 118%N; RGroup 1 (RPlus digit); RUnit 58%N; RGroup 2 (RStar RAnyUnit); REnd])) exprStr with
    | Some m => (Number_str (cap 1 m), cap 2 m)
    | None => (num_of_Z 1, exprStr)
    end
  else (num_of_Z 1, []).

(** The first number of every variable *)
Definition body_coeffs (bodyStr : jsstr) : list (jsstr * num) :=
  foldl (fun coeffs m => if mget (cap 1 m) coeffs then coeffs else mset (cap 1 m) (Number_str (cap 2 m)) coeffs) []
    (match_all 2 BILLING_VAR_REGEX bodyStr).

Definition parseTierBody (bodyStr : jsstr) : list (jsstr * num) :=
  let coeffs := body_coeffs bodyStr in
  (fun '(varName, f) => (f, or0 (mget varName coeffs))) <$> BILLING_VAR_KEY_TO_FIELD.

Definition parseTiersFromExpr (exprStr : jsstr) : list ParsedTier :=
  if str_true exprStr then
    let body := snd (stripExprVersion exprStr) in
    (fun m => mkParsed (cap 2 m) (parse_conditions (cap 1 m)) (parseTierBody (cap 3 m))) <$> match_all 3 price_tier_regex body
  else [].

Definition sample_tier (l : string) (cs : list TierConditionInput) (a b : num) (cr img_o : num) : VisualTier :=
  mkTier (js l) cs a b CACHE_MODE_GENERIC (Some cr) None None None (Some img_o) None None.

Definition sample_config : VisualConfig := mkConfig [
  sample_tier "short" [mkCond (js "len") (js "<=") (CNum (q10 32 3)); mkCond (js "c") (js "<") (CNum (q10 25 (-1)))] (q10 3 (-1)) (q10 15 (-8)) (q10 1 21) (num_of_Z 0);
  sample_tier "" [] (num_of_Z 3) (q10 (-5) 0) (num_of_Z 0) (num_of_Z 7)].

Example tier_sample :
  generateExprFromVisualConfig (Some sample_config)
  = dq "len <= 32000 && c < 2.5 ? tier('short', p * 0.3 + c * 1.5e-7 + cr * 1e+21) : tier('tier_2', p * 3 + c * -5 + img_o * 7)"
  ∧ generateExprFromVisualConfig (tryParseVisualConfig (Some (js "v2:" ++ generateExprFromVisualConfig (Some sample_config))))
    = generateExprFromVisualConfig (Some sample_config)
  ∧ tryParseVisualConfig (Some (dq "tier('base',p*2.50 + c * 8+ai*.5)"))
    = Some (mkConfig [mkTier (js "base") [] (q10 25 (-1)) (num_of_Z 8) CACHE_MODE_GENERIC (Some (num_of_Z 0)) (Some (num_of_Z 0))
        (Some (num_of_Z 0)) (Some (num_of_Z 0)) (Some (num_of_Z 0)) (Some (q10 5 (-1))) (Some (num_of_Z 0))]).
Proof. vm_compute. repeat split; reflexivity. Qed.

Example price_sample :
  parseTiersFromExpr (dq "v1:len > 5 ? tier('a', p * 2 + c * 8 + cc1h*3 + cc * 1 + p * 9) : tier('b', max(p, 1) * 2)")
  = [mkParsed (js "a") [mkCond (js "len") (js ">") (CNum (num_of_Z 5))]
       ((fun '(f, x) => (js f, num_of_Z x)) <$> [("inputPrice", 2); ("outputPrice", 8); ("cacheReadPrice", 0); ("cacheCreatePrice", 1);
          ("cacheCreate1hPrice", 3); ("imagePrice", 0); ("imageOutputPrice", 0); ("audioInputPrice", 0); ("audioOutputPrice", 0)]%Z%string);
     mkParsed (js "b") []
       ((fun f => (js f, num_of_Z 0)) <$> ["inputPrice"; "outputPrice"; "cacheReadPrice"; "cacheCreatePrice";
          "cacheCreate1hPrice"; "imagePrice"; "imageOutputPrice"; "audioInputPrice"; "audioOutputPrice"]%string)].
Proof. vm_compute. reflexivity. Qed.

End TierExpr.
