(* ===== verification/TierRoundtrip.v ===== *)
(** * Reading back printed tiers
    (src/web/src/features/pricing/lib/tier-expr.ts)

    The round trip of [generateExprFromVisualConfig] and [tryParseVisualConfig]. *)

From Stdlib Require Import ZifyBool ZifyN QArith.
From S2P Require Import Prelude JsString JsValue JsJson JsNumber JsRegex BillingRules TierExpr.
Local Close Scope Q_scope.

Module TierRoundtrip.
Import BillingRules TierExpr.

(** ** Texts *)

(** The text does not go on with a unit of the class. *)
Definition ends_before (p : N → bool) (t : jsstr) : Prop := ∀ y t', t = y :: t' → p y = false.

Lemma ends_before_app p s t : ends_before p s → s ≠ [] → ends_before p (s ++ t).
Proof. intros H Hne. destruct s as [|y s]; [done|]. intros z t' [= <- _]. by apply (H y s). Qed.

Ltac before := intros ?y ?t' [= <- _]; done.

Lemma ws_one c t : ends_before is_ws t → eats ws [32%N] c c t.
Proof. intros H. by apply eats_run; [repeat constructor|]. Qed.

Lemma ws_none c t : ends_before is_ws t → eats ws [] c c t.
Proof. intros H. by apply eats_run; [constructor|]. Qed.

(** A numeral as it is printed *)
Definition numeral (w : jsstr) : Prop := w ≠ [] ∧ Forall (fun c => numeral_unit c = true) w.

Lemma numeral_num_units w : numeral w → Forall (fun c => num_unit c = true) w.
Proof. intros [_ H]. eapply Forall_impl; [exact H|]. intros c. unfold numeral_unit, num_unit. lia. Qed.

Lemma numeral_not_space w t : numeral w → ends_before is_ws (w ++ t).
Proof.
  intros [Hne H]. apply ends_before_app; [|done]. intros y t' ->. apply Forall_cons in H as [H _]. by apply numeral_not_ws.
Qed.

Lemma canonical_numeral x : is_canonical x → numeral (num_str x).
Proof.
  destruct x as [| |q]; [done|done|]. intros [Hr Hd]. unfold num_str. destruct (Z.eqb_spec (Qnum q) 0) as [H0|H0].
  { split; [done|]. refine (bool_decide_unpack _ _). by vm_compute. }
  assert (0 < Qabs.Qabs q)%Q as Hpos.
  { destruct q as [a d]. unfold Qabs.Qabs, Qlt. simpl in *. lia. }
  assert (is_decimal (Qabs.Qabs q)) as Hda.
  { destruct q as [[|a|a] d]; [done|done|]. change (Qabs.Qabs (Zneg a # d)) with (- (Zneg a # d))%Q.
    destruct Hd as [k Hk]. exists k. by rewrite Qred_opp. }
  pose proof (positive_text _ Hpos Hda) as H. destruct (decimal_of _) as [ds n]. destruct H as (Hu & (c & t & E & _) & _).
  split; [rewrite E; by destruct (_ <? _)%Z|]. apply Forall_app. split; [|done]. destruct (_ <? _)%Z; by repeat constructor.
Qed.

Definition term_text (v w : jsstr) : jsstr := v ++ [32; 42; 32]%N ++ w.

Lemma term_eats v n w c t : numeral w → ends_before num_unit t →
  eats (term_regex v n) (term_text v w) c (<[n := Some w]> c) t.
Proof.
  intros Hw Ht. apply eats_seq with (c1 := c); [apply eats_lit|].
  change ([32; 42; 32]%N ++ w) with ([32%N] ++ [42%N] ++ [32%N] ++ w).
  apply eats_seq with (c1 := c); [apply ws_one; before|].
  apply eats_seq with (c1 := c); [apply eats_unit|].
  apply eats_seq with (c1 := c); [apply ws_one; by apply numeral_not_space|].
  apply eats_group, eats_run1; [apply Hw|by apply numeral_num_units|done].
Qed.

Definition plus_text (v w : jsstr) : jsstr := [32; 43; 32]%N ++ term_text v w.

(** A name: letters, digits and underscores *)
Definition var_name (v : jsstr) : Prop := v ≠ [] ∧ Forall (fun c => is_ws c = false) v.

Lemma plus_eats v n w c t : var_name v → numeral w → ends_before num_unit t →
  eats (plus_term v n) (plus_text v w) c (<[n := Some w]> c) t.
Proof.
  intros Hv Hw Ht. change (plus_text v w) with ([32%N] ++ [43%N] ++ [32%N] ++ term_text v w).
  apply eats_seq with (c1 := c); [apply ws_one; before|].
  apply eats_seq with (c1 := c); [apply eats_unit|].
  apply eats_seq with (c1 := c); [|by apply term_eats].
  apply ws_one. destruct Hv as [Hne Hv]. unfold term_text. rewrite <- app_assoc. apply ends_before_app; [|done].
  intros y t' ->. by apply Forall_cons in Hv as [? _].
Qed.

(** ** Optional terms *)

(** The term of [v] cannot be read where a term of [v'] stands. *)
Definition clash (v v' : jsstr) : Prop := ∀ n u, stuck (term_regex v n) (v' ++ 32%N :: u).

Lemma var_head v t : var_name v → ends_before is_ws (v ++ t).
Proof.
  intros [Hne Hv]. apply ends_before_app; [|done]. intros y t' ->. by apply Forall_cons in Hv as [? _].
Qed.

Lemma term_stuck_space v n t : var_name v → stuck (term_regex v n) (32%N :: t).
Proof.
  intros [Hne Hv]. destruct v as [|d v]; [done|]. apply Forall_cons in Hv as [Hd _]. apply stuck_seq, stuck_lit. simpl.
  rewrite bool_decide_false; [done|]. intros ->. by vm_compute in Hd.
Qed.

Lemma plus_stuck v n v' u : var_name v → var_name v' → clash v v' → stuck (plus_term v n) (plus_text v' u).
Proof.
  intros Hv Hv' Hc. unfold plus_text, term_text. cbn [app]. apply stuck_run_one; [apply stuck_seq, stuck_unit; done| |before].
  apply stuck_unit_after, stuck_run_one; [by apply term_stuck_space|apply Hc|by apply var_head].
Qed.

Lemma plus_stuck_close v n t : stuck (plus_term v n) (41%N :: t).
Proof. apply stuck_run_none; [|before]. apply stuck_seq, stuck_unit. done. Qed.

Fixpoint opt_text (vs : list jsstr) (xs : list (option jsstr)) : jsstr :=
  match vs, xs with
  | v :: vs', Some w :: xs' => plus_text v w ++ opt_text vs' xs'
  | _ :: vs', None :: xs' => opt_text vs' xs'
  | _, _ => []
  end.

Fixpoint set_caps (n : nat) (xs : list (option jsstr)) (c : list (option jsstr)) : list (option jsstr) :=
  match xs with
  | [] => c
  | Some w :: xs' => set_caps (S n) xs' (<[n := Some w]> c)
  | None :: xs' => set_caps (S n) xs' c
  end.

(** What follows a numeral: another term or the closing parenthesis *)
Lemma opt_text_ends vs xs t : ends_before num_unit (opt_text vs xs ++ 41%N :: t).
Proof.
  revert xs. induction vs as [|v vs IH]; intros xs; [before|]. destruct xs as [|[w|] xs]; [before| |apply IH]. simpl. before.
Qed.

Lemma opt_stuck v n vs xs t : var_name v → Forall var_name vs → Forall (clash v) vs →
  stuck (plus_term v n) (opt_text vs xs ++ 41%N :: t).
Proof.
  intros Hv. revert xs. induction vs as [|v' vs IH]; intros xs Hvs Hc; [apply plus_stuck_close|].
  apply Forall_cons in Hvs as [Hv' Hvs]. apply Forall_cons in Hc as [Hc Hcs].
  destruct xs as [|[w|] xs]; [apply plus_stuck_close| |by apply IH].
  cbn [opt_text]. rewrite <- app_assoc. unfold plus_text, term_text. rewrite <- !app_assoc.
  apply (plus_stuck v n v' (w ++ opt_text vs xs ++ 41%N :: t)); done.
Qed.

Lemma opt_eats vs xs n r c c' w t :
  length xs = length vs → Forall var_name vs → ForallOrdPairs clash vs → Forall (fun x => ∀ w, x = Some w → numeral w) xs →
  eats r (41%N :: w) (set_caps n xs c) c' t → eats (opt_terms vs n r) (opt_text vs xs ++ 41%N :: w) c c' t.
Proof.
  intros Hlen Hvs Hc. revert xs n c Hlen. induction Hc as [|v vs Hv Hc IH]; intros xs n c Hlen Hxs Hr.
  { by destruct xs. }
  destruct xs as [|x xs]; [done|]. injection Hlen as Hlen. apply Forall_cons in Hvs as [Hn Hvs].
  apply Forall_cons in Hxs as [Hx Hxs]. cbn [opt_terms]. destruct x as [x|]; cbn [opt_text set_caps] in *.
  - rewrite <- app_assoc. apply eats_seq with (c1 := <[n := Some x]> c); [|by apply IH].
    apply eats_alt_l, plus_eats; [done|by apply Hx|]. rewrite <- app_assoc. apply opt_text_ends.
  - change (opt_text vs xs ++ 41%N :: w) with ([] ++ opt_text vs xs ++ 41%N :: w).
    apply eats_seq with (c1 := c); [|by apply IH].
    apply eats_opt_none. rewrite <- app_assoc. by apply opt_stuck.
Qed.

Definition EXTRAS : list jsstr := [js "cr"; js "cc"; js "cc1h"; js "img"; js "img_o"; js "ai"; js "ao"].

Lemma extras_vars : BILLING_CACHE_VAR_MAP.*2 = EXTRAS.
Proof. by vm_compute. Qed.

Lemma extras_names : Forall var_name EXTRAS.
Proof. repeat constructor; first [done|decided]. Qed.

Lemma extras_clash : ForallOrdPairs clash EXTRAS.
Proof.
  repeat constructor; intros n u X k b c; unfold term_regex; lits; cbn; reflexivity.
Qed.

(** ** The body of a tier *)

Definition body_text (wp wc : jsstr) (xs : list (option jsstr)) : jsstr :=
  term_text (js "p") wp ++ plus_text (js "c") wc ++ opt_text EXTRAS xs.

Lemma body_eats n r wp wc xs c c' w t :
  numeral wp → numeral wc → length xs = 7 → Forall (fun x => ∀ w, x = Some w → numeral w) xs →
  eats r (41%N :: w) (set_caps (n + 2) xs (<[n + 1 := Some wc]> (<[n := Some wp]> c))) c' t →
  eats (body_pat n r) (body_text wp wc xs ++ 41%N :: w) c c' t.
Proof.
  intros Hp Hc Hlen Hxs Hr. unfold body_text. rewrite <- !app_assoc.
  apply eats_seq with (c1 := <[n := Some wp]> c); [apply term_eats; [done|before]|].
  apply eats_seq with (c1 := <[n + 1 := Some wc]> (<[n := Some wp]> c)).
  - apply plus_eats; [split; [done|decided]|done|]. rewrite <- app_assoc. apply opt_text_ends.
  - rewrite extras_vars. apply opt_eats; try done; [apply extras_names|apply extras_clash].
Qed.

Definition tier_text (lbl wp wc : jsstr) (xs : list (option jsstr)) : jsstr :=
  dq "tier('" ++ lbl ++ dq "'," ++ [32%N] ++ body_text wp wc xs ++ [41%N].

Lemma body_not_space wp wc xs t : ends_before is_ws (body_text wp wc xs ++ t).
Proof. unfold body_text, term_text. replace (js "p") with [112%N] by (by vm_compute). before. Qed.

Lemma tier_eats n r lbl wp wc xs c c' t :
  Forall (fun d => d ≠ 34%N) lbl → numeral wp → numeral wc → length xs = 7 → Forall (fun x => ∀ w, x = Some w → numeral w) xs →
  eats r [41%N] (set_caps (n + 3) xs (<[n + 2 := Some wc]> (<[n + 1 := Some wp]> (<[n := Some lbl]> c)))) c' t →
  eats (tier_head n (body_pat (n + 1) r)) (tier_text lbl wp wc xs) c c' t.
Proof.
  intros Hl Hp Hc Hlen Hxs Hr. unfold tier_head, tier_text.
  apply eats_seq with (c1 := c); [apply eats_lit|].
  apply eats_seq with (c1 := <[n := Some lbl]> c).
  { apply eats_group, eats_run; [|before]. eapply Forall_impl; [exact Hl|]. intros d Hd. by apply negb_true_iff, N.eqb_neq. }
  apply eats_seq with (c1 := <[n := Some lbl]> c); [apply eats_lit|].
  apply eats_seq with (c1 := <[n := Some lbl]> c); [apply ws_one; rewrite <- app_assoc; apply body_not_space|].
  apply body_eats; try done. by rewrite <- !Nat.add_assoc.
Qed.

(** ** Conditions *)

(** A comparison as it is printed *)
Record comparison (v op w : jsstr) : Prop := {
  cm_var : v ∈ CONDITION_VARS;
  cm_op : op ∈ CONDITION_OPS;
  cm_nonempty : w ≠ [];
  cm_units : Forall (fun c => cond_unit c = true) w
}.

Definition comparison_text (v op w : jsstr) : jsstr := v ++ [32%N] ++ op ++ [32%N] ++ w.

Lemma cond_not_space w t : w ≠ [] → Forall (fun c => cond_unit c = true) w → ends_before is_ws (w ++ t).
Proof.
  intros Hne H. apply ends_before_app; [|done]. intros y t' ->. apply Forall_cons in H as [H _].
  unfold cond_unit, is_digit in H. unfold is_ws. lia.
Qed.

(** The operator is the one that is followed by a space: [f s] reads [s], perhaps
    as a group. *)
Lemma op_choice (f : jsstr → regex) op w c c' t : op ∈ CONDITION_OPS →
  eats (f op) (op ++ [32%N] ++ w) c c' t →
  (∀ s t, starts_with s t = false → stuck (f s) t) → (∀ s t, stuck (f s) (s ++ 61%N :: t)) →
  eats (RAlt (f (js "<")) (RAlt (f (js "<=")) (RAlt (f (js ">")) (f (js ">="))))) (op ++ [32%N] ++ w) c c' t.
Proof.
  intros Hop Hs Hst Hr. unfold CONDITION_OPS in *. each Hop.
  - by apply eats_alt_l.
  - apply eats_alt_r; [|by apply eats_alt_l].
    replace (js "<=") with (js "<" ++ [61%N]) by (by vm_compute). rewrite <- !app_assoc. apply Hr.
  - apply eats_alt_r; [by apply Hst|]. apply eats_alt_r; [by apply Hst|]. by apply eats_alt_l.
  - apply eats_alt_r; [by apply Hst|]. apply eats_alt_r; [by apply Hst|]. apply eats_alt_r; [|done].
    replace (js ">=") with (js ">" ++ [61%N]) by (by vm_compute). rewrite <- !app_assoc. apply Hr.
Qed.

Lemma op_eats op r w c c' t : op ∈ CONDITION_OPS →
  (∀ t, stuck r (61%N :: t)) → eats r ([32%N] ++ w) c c' t → eats (RSeq (RAny CONDITION_OPS) r) (op ++ [32%N] ++ w) c c' t.
Proof.
  intros Hop Hr He. apply (op_choice (fun s => RSeq (RLit s) r)); [done|..].
  - eapply eats_seq; [apply eats_lit|done].
  - intros s u Hu. by apply stuck_seq, stuck_lit.
  - intros s u. apply stuck_after, Hr.
Qed.

Lemma op_group_eats n op r w c c' t : op ∈ CONDITION_OPS →
  (∀ t, stuck r (61%N :: t)) → eats r ([32%N] ++ w) (<[n := Some op]> c) c' t →
  eats (RSeq (RGroup n (RAny CONDITION_OPS)) r) (op ++ [32%N] ++ w) c c' t.
Proof.
  intros Hop Hr He. apply (op_choice (fun s => RSeq (RGroup n (RLit s)) r)); [done|..].
  - eapply eats_seq; [apply eats_group, eats_lit|done].
  - intros s u Hu. by apply stuck_seq, stuck_group, stuck_lit.
  - intros s u X k b c1. cbn [rmatch]. rewrite rmatch_lit. apply Hr.
Qed.

Lemma digits_stuck r t : stuck (RSeq (RPlus (RChar cond_unit)) r) (61%N :: t) ∧ stuck (RPlus (RChar cond_unit)) (61%N :: t)
  ∧ stuck (RSeq (RGroup 3 (RPlus (RChar cond_unit))) r) (61%N :: t).
Proof. split_and!; intros X k b c; reflexivity. Qed.

Lemma any_var_eats v c t : v ∈ CONDITION_VARS → eats (RAny CONDITION_VARS) v c c t.
Proof.
  intros Hv. unfold CONDITION_VARS in *. cbn [RAny]. each Hv.
  - apply eats_alt_l, eats_lit.
  - apply eats_alt_r; [by apply stuck_lit|apply eats_alt_l, eats_lit].
  - do 2 (apply eats_alt_r; [by apply stuck_lit|]). apply eats_lit.
Qed.

Lemma op_not_space op t : op ∈ CONDITION_OPS → ends_before is_ws (op ++ t).
Proof. intros Hop. unfold CONDITION_OPS in Hop. each Hop; before. Qed.

Lemma cond_eats v op w c t : comparison v op w → ends_before cond_unit t → eats cond_regex (comparison_text v op w) c c t.
Proof.
  intros [Hv Hop Hne Hw] Ht. unfold cond_regex, comparison_text. cbn [RCat].
  apply eats_seq with (c1 := c); [by apply any_var_eats|]. apply eats_seq with (c1 := c); [apply ws_one; rewrite <- app_assoc; by apply op_not_space|].
  apply op_eats; [done| |].
  - intros u. apply stuck_run_none; [|before]. apply (digits_stuck REps).
  - apply eats_seq with (c1 := c); [apply ws_one; by apply cond_not_space|]. by apply eats_run1.
Qed.

(** The comparisons joined *)
Definition comparisons_text (l : list (jsstr * jsstr * jsstr)) : jsstr :=
  str_join (js " && ") ((fun '(v, op, w) => comparison_text v op w) <$> l).

Lemma var_not_space v t : v ∈ CONDITION_VARS → ends_before is_ws (v ++ t).
Proof. intros Hv. unfold CONDITION_VARS in Hv. each Hv; before. Qed.

Lemma more_eats l c t : Forall (fun '(v, op, w) => comparison v op w) l → ends_before cond_unit t →
  stuck (RSeq ws (RSeq (RLit (js "&&")) (RSeq ws cond_regex))) t →
  eats more_conds (concat ((fun '(v, op, w) => js " && " ++ comparison_text v op w) <$> l)) c c t.
Proof.
  intros Hl Ht Hs. induction Hl as [|[[v op] w] l Hc Hl IH]; [by apply eats_star_end|]. rewrite fmap_cons. cbn [concat].
  apply eats_star_more with (c1 := c); [done|done| |exact IH].
  assert (ends_before cond_unit (concat ((fun '(v, op, w) => js " && " ++ comparison_text v op w) <$> l) ++ t)) as Hb.
  { destruct l as [|[[v' op'] w'] l]; [done|]. rewrite fmap_cons. cbn [concat]. rewrite <- !app_assoc.
    replace (js " && ") with [32; 38; 38; 32]%N by (by vm_compute). before. }
  replace (js " && ") with ([32%N] ++ js "&&" ++ [32%N]) at 1 by (by vm_compute). rewrite <- !app_assoc.
  apply eats_seq with (c1 := c); [apply ws_one; replace (js "&&") with [38; 38]%N by (by vm_compute); before|].
  apply eats_seq with (c1 := c); [apply eats_lit|].
  apply eats_seq with (c1 := c); [|by apply cond_eats].
  apply ws_one. unfold comparison_text. rewrite <- !app_assoc. apply var_not_space. by destruct Hc.
Qed.

Lemma comparisons_text_cons v op w l :
  comparisons_text ((v, op, w) :: l)
  = comparison_text v op w ++ concat ((fun '(v, op, w) => js " && " ++ comparison_text v op w) <$> l).
Proof.
  unfold comparisons_text. revert v op w. induction l as [|[[v' op'] w'] l IH]; intros v op w.
  - cbn [concat fmap list_fmap str_join]. by rewrite app_nil_r.
  - rewrite !fmap_cons in *. cbn [concat]. rewrite <- app_assoc, <- IH, fmap_cons. done.
Qed.

Lemma prefix_eats l c t : l ≠ [] → Forall (fun '(v, op, w) => comparison v op w) l → ends_before is_ws t →
  eats cond_prefix (comparisons_text l ++ js " ? ") c (<[1 := Some (comparisons_text l)]> c) t.
Proof.
  intros Hne Hl Ht. destruct l as [|[[v op] w] l]; [done|]. apply Forall_cons in Hl as [Hc Hl].
  replace (js " ? ") with ([32%N] ++ [63%N] ++ [32%N]) by (by vm_compute).
  apply eats_seq with (c1 := <[1 := Some (comparisons_text ((v, op, w) :: l))]> c).
  - apply eats_group. rewrite comparisons_text_cons. apply eats_seq with (c1 := c).
    + apply cond_eats; [done|]. destruct l as [|[[v' op'] w'] l]; [before|]. rewrite fmap_cons. cbn [concat].
      replace (js " && ") with [32; 38; 38; 32]%N by (by vm_compute). before.
    + apply more_eats; [done|before|]. cbn [app].
      apply stuck_run_one; [by apply stuck_seq, stuck_lit|by apply stuck_seq, stuck_lit|before].
  - eapply eats_seq; [apply ws_one; before|]. eapply eats_seq; [apply eats_unit|by apply ws_one].
Qed.

Lemma prefix_stuck lbl t : stuck cond_prefix (dq "tier('" ++ lbl ++ t).
Proof. apply stuck_seq, stuck_group, stuck_seq. intros X k b c. lits. cbn. reflexivity. Qed.

(** ** A printed tier, with its conditions if it has some *)

Definition part_text (l : list (jsstr * jsstr * jsstr)) (lbl wp wc : jsstr) (xs : list (option jsstr)) : jsstr :=
  (match l with [] => [] | _ => comparisons_text l ++ js " ? " end) ++ tier_text lbl wp wc xs.

Definition part_caps (l : list (jsstr * jsstr * jsstr)) (lbl wp wc : jsstr) (xs : list (option jsstr)) : list (option jsstr) :=
  [Some (part_text l lbl wp wc xs); match l with [] => None | _ => Some (comparisons_text l) end;
   Some lbl; Some wp; Some wc] ++ xs.

Lemma set_caps_nones pre xs : set_caps (length pre) xs (pre ++ replicate (length xs) None) = pre ++ xs.
Proof.
  revert pre. induction xs as [|x xs IH]; intros pre; [done|]. cbn [length replicate].
  assert (∀ y, set_caps (S (length pre)) xs (pre ++ y :: replicate (length xs) None) = pre ++ y :: xs) as H.
  { intros y. specialize (IH (pre ++ [y])). rewrite length_app, Nat.add_1_r, <- !app_assoc in IH. exact IH. }
  destruct x as [w|]; cbn [set_caps]; [|apply H].
  replace (<[length pre := Some w]> (pre ++ None :: replicate (length xs) None))
    with (pre ++ Some w :: replicate (length xs) (@None jsstr)); [apply H|].
  by rewrite insert_app_r_alt, Nat.sub_diag by lia.
Qed.

(** What is printed for a tier: its comparisons, its label and its numerals *)
Record tier_print := mkTP {
  tp_conds : list (jsstr * jsstr * jsstr); tp_label : jsstr; tp_in : jsstr; tp_out : jsstr; tp_extras : list (option jsstr)
}.

Record tp_ok (p : tier_print) : Prop := {
  tpo_conds : Forall (fun '(v, op, w) => comparison v op w) (tp_conds p);
  tpo_label : Forall (fun d => d ≠ 34%N) (tp_label p);
  tpo_in : numeral (tp_in p);
  tpo_out : numeral (tp_out p);
  tpo_length : length (tp_extras p) = 7;
  tpo_extras : Forall (fun x => ∀ w, x = Some w → numeral w) (tp_extras p)
}.

Definition tp_text (p : tier_print) : jsstr := part_text (tp_conds p) (tp_label p) (tp_in p) (tp_out p) (tp_extras p).
Definition tp_caps (p : tier_print) : list (option jsstr) := part_caps (tp_conds p) (tp_label p) (tp_in p) (tp_out p) (tp_extras p).

Lemma head_eats p c1 t : tp_ok p →
  eats (tier_head 2 (body_pat 3 (RUnit 41%N))) (tier_text (tp_label p) (tp_in p) (tp_out p) (tp_extras p))
    [None; c1; None; None; None; None; None; None; None; None; None; None]
    ([None; c1; Some (tp_label p); Some (tp_in p); Some (tp_out p)] ++ tp_extras p) t.
Proof.
  intros [_ Hl Hp Hc Hlen Hxs]. apply (tier_eats 2); [done..|].
  pose proof (set_caps_nones [None; c1; Some (tp_label p); Some (tp_in p); Some (tp_out p)] (tp_extras p)) as E.
  rewrite Hlen in E. simpl in *. rewrite E. apply eats_unit.
Qed.

Lemma tier_text_head lbl wp wc xs t : ends_before is_ws (tier_text lbl wp wc xs ++ t).
Proof. unfold tier_text. rewrite <- !app_assoc. lits. before. Qed.

Lemma part_eats p t : tp_ok p → ∃ c, eats tier_regex (tp_text p) (replicate 12 None) c t ∧ <[0 := Some (tp_text p)]> c = tp_caps p.
Proof.
  intros Hp. pose proof (head_eats p) as H. unfold tp_text, tp_caps, part_text, part_caps.
  destruct (tp_conds p) as [|x l] eqn:E.
  - eexists. split; [apply eats_seq with (c1 := replicate 12 None); [|by apply H]|reflexivity].
    apply eats_opt_none. unfold tier_text. rewrite <- !app_assoc. apply prefix_stuck.
  - eexists ([None; Some (comparisons_text (x :: l)); _; _; _] ++ _). split; [|reflexivity]. eapply eats_seq; [|by apply H].
    apply eats_alt_l. rewrite <- E. apply prefix_eats; [by rewrite E|apply Hp|apply tier_text_head].
Qed.

(** ** The global expression over several printed tiers *)

Lemma tier_regex_stuck d t : d ∈ [32; 58]%N → stuck tier_regex (d :: t).
Proof.
  intros Hd. apply stuck_opt_seq.
  - apply stuck_seq, stuck_group, stuck_seq. intros X k b c. each Hd; reflexivity.
  - apply stuck_seq, stuck_lit. each Hd; reflexivity.
Qed.

Lemma tier_regex_skip s b : exec_from 11 tier_regex b (js " : " ++ s) = exec_from 11 tier_regex (reverse (js " : ") ++ b) s.
Proof.
  replace (js " : ") with [32; 58; 32]%N by (by vm_compute). cbn [app].
  by do 3 (rewrite exec_from_stuck by (apply tier_regex_stuck; decided)).
Qed.

Lemma tp_text_nonempty p : tp_text p ≠ [].
Proof. unfold tp_text, part_text, tier_text. intros [_ [? _]%app_eq_nil]%app_eq_nil. done. Qed.

Lemma match_all_parts ps tl : Forall tp_ok ps → ps ≠ [] → (∀ b, exec_from 11 tier_regex b tl = None) →
  match_all 11 tier_regex (str_join (js " : ") (tp_text <$> ps) ++ tl) = tp_caps <$> ps.
Proof.
  intros Hps Hne Htl. apply (match_all_pieces 11 tier_regex (js " : ") tl tp_text tp_caps tp_ok);
    [apply tp_text_nonempty| | |intros; apply tier_regex_skip|done|done|done].
  - intros b. replace (js " : ") with [32; 58; 32]%N by (by vm_compute). by intros c b' [= <- _].
  - intros p t b Hp _ _. destruct (part_eats p t Hp) as (c & He & <-). by apply exec_from_eats.
Qed.

(** ** The expression for a single tier *)

Definition single_caps (p : tier_print) : list (option jsstr) :=
  [Some (tp_text p); Some (tp_label p); Some (tp_in p); Some (tp_out p)] ++ tp_extras p.

Lemma single_match p : tp_ok p → tp_conds p = [] → str_match 10 single_regex (tp_text p) = Some (single_caps p).
Proof.
  intros [_ Hl Hp Hc Hlen Hxs] E. unfold single_caps, tp_text, part_text. rewrite E. cbn [app].
  assert (eats (tier_head 1 (body_pat 2 (RSeq (RUnit 41) REnd))) (tier_text (tp_label p) (tp_in p) (tp_out p) (tp_extras p))
    (replicate 11 None) ([None; Some (tp_label p); Some (tp_in p); Some (tp_out p)] ++ tp_extras p) []) as He.
  { apply (tier_eats 1); [done..|].
    pose proof (set_caps_nones [None; Some (tp_label p); Some (tp_in p); Some (tp_out p)] (tp_extras p)) as Es.
    rewrite Hlen in Es. simpl in *. rewrite Es.
    change [41%N] with ([41%N] ++ []). eapply eats_seq; [apply eats_unit|apply eats_end]. }
  exact (str_match_eats 10 _ _ _ He).
Qed.

(** The first unit of a comparison *)
Lemma comparisons_head x l t : Forall (fun '(v, op, w) => comparison v op w) (x :: l) →
  ∃ d u, comparisons_text (x :: l) ++ t = d :: u ∧ d ∈ [112; 99; 108]%N.
Proof.
  intros Hl. destruct x as [[v op] w]. apply Forall_cons in Hl as [[Hv _ _ _] _]. rewrite comparisons_text_cons.
  unfold comparison_text. unfold CONDITION_VARS in Hv. rewrite <- !app_assoc.
  each Hv; lits; cbn [app]; eexists _, _; (split; [reflexivity|decided]).
Qed.

Lemma single_no_match d u : d ∈ [112; 99; 108]%N → str_match 10 single_regex (d :: u) = None.
Proof.
  intros Hd. unfold single_regex. rewrite str_match_anchored. unfold exec_at, tier_head. lits. each Hd; reflexivity.
Qed.

Lemma strip_version_id d u : d ≠ 118%N → strip_version (d :: u) = d :: u.
Proof.
  intros Hd. unfold strip_version, version_regex. rewrite str_match_anchored. unfold exec_at. cbn [RCat].
  cbn [rmatch before rest RUnit]. by rewrite (proj2 (N.eqb_neq d 118)).
Qed.

(** ** The comparisons of a match *)

Definition read_comparison (x : jsstr * jsstr * jsstr) : TierConditionInput :=
  let '(v, op, w) := x in mkCond v op (CNum (Number_str w)).

Lemma comparison_trim v op w : comparison v op w → trim (comparison_text v op w) = comparison_text v op w.
Proof.
  intros [Hv Hop Hne Hw]. destruct w as [|d w _] using rev_ind; [done|].
  apply Forall_app in Hw as [_ Hd]. apply Forall_cons in Hd as [Hd _].
  assert (is_ws d = false) as Hds by (unfold cond_unit, is_digit in Hd; unfold is_ws; lia).
  assert (comparison_text v op (w ++ [d]) = (v ++ [32%N] ++ op ++ [32%N] ++ w) ++ [d]) as E.
  { unfold comparison_text. by rewrite <- !app_assoc. }
  assert (∃ y t, comparison_text v op (w ++ [d]) = y :: t ∧ is_ws y = false) as (y & t & E' & Hy).
  { unfold CONDITION_VARS in Hv. unfold comparison_text. each Hv; lits; by eexists _, _. }
  by eapply trim_ends.
Qed.

Lemma one_condition_match v op w : comparison v op w →
  ∃ m, str_match 3 one_condition (comparison_text v op w) = Some m ∧ cap 1 m = v ∧ cap 2 m = op ∧ cap 3 m = w.
Proof.
  intros [Hv Hop Hne Hw].
  assert (eats (RCat [RGroup 1 (RAny CONDITION_VARS); ws; RGroup 2 (RAny CONDITION_OPS); ws; RGroup 3 (RPlus (RChar cond_unit)); REnd])
    (comparison_text v op w) (replicate 4 None) [None; Some v; Some op; Some w] []) as He.
  { cbn [RCat]. unfold comparison_text.
    eapply eats_seq; [by apply eats_group, any_var_eats|].
    eapply eats_seq; [apply ws_one; rewrite <- app_assoc; by apply op_not_space|].
    apply op_group_eats; [done| |].
    - intros u. apply stuck_run_none; [|before]. apply digits_stuck.
    - eapply eats_seq; [apply ws_one; by apply cond_not_space|]. rewrite <- (app_nil_r w).
      eapply eats_seq; [by apply eats_group, eats_run1|]. rewrite app_nil_r. apply eats_end. }
  eexists. split; [exact (str_match_eats 3 _ _ _ He)|done].
Qed.

Lemma and_stuck w y t : Forall (fun c => is_ws c = true) w → is_ws y = false → y ≠ 38%N → stuck and_regex (w ++ y :: t).
Proof.
  intros Hw Hy H38. apply stuck_run; [|by intros z t' [= <- _]]. intros w1 w2 ->. apply stuck_seq, stuck_lit.
  apply Forall_app in Hw as [_ Hw2]. lits. destruct w2 as [|z w2]; cbn [app starts_with].
  - by rewrite bool_decide_false.
  - apply Forall_cons in Hw2 as [Hz _]. rewrite bool_decide_false; [done|]. intros <-. by vm_compute in Hz.
Qed.

(** Text without an ampersand whose suffixes all hold a unit that is no space *)
Definition solid (p : jsstr) : Prop := ∀ l q, p = l ++ q → q ≠ [] → ∃ w y q', q = w ++ y :: q' ∧ Forall (fun c => is_ws c = true) w ∧ is_ws y = false ∧ y ≠ 38%N.

Lemma solid_app a y : Forall (fun c => c ≠ 38%N) a → is_ws y = false → y ≠ 38%N → solid (a ++ [y]).
Proof.
  intros Ha Hy H38 l q E Hne.
  assert (∃ a', q = a' ++ [y] ∧ Forall (fun c => c ≠ 38%N) a') as (a' & -> & Ha').
  { destruct q as [|z q _] using rev_ind; [done|]. rewrite app_assoc in E. apply app_inj_tail in E as [-> ->].
    exists q. split; [done|]. by apply Forall_app in Ha as [_ ?]. }
  clear E Hne Ha. induction Ha' as [|z a' Hz _ IH]; [by exists [], y, []|]. destruct (is_ws z) eqn:Ez.
  - destruct IH as (w & u & q' & E & Hw & Hu & H). exists (z :: w), u, q'. cbn [app]. rewrite E. split_and!; [done|by constructor|done|done].
  - by exists [], z, (a' ++ [y]).
Qed.

Lemma split_re_run p t b cur f : solid p →
  split_re_go (length p + f) and_regex b (p ++ t) cur = split_re_go f and_regex (reverse p ++ b) t (reverse p ++ cur).
Proof.
  intros Hp. revert b cur. induction p as [|c p IH]; intros b cur; [done|].
  cbn [length Nat.add app split_re_go].
  assert (exec_at 0 and_regex b (c :: p ++ t) = None) as ->.
  { destruct (Hp [] (c :: p) eq_refl ltac:(done)) as (w & y & q' & E & Hw & Hy & H38).
    change (c :: p ++ t) with ((c :: p) ++ t). rewrite E, <- app_assoc.
    exact (stuck_group 0 _ _ (and_stuck w y (q' ++ t) Hw Hy H38) _ _ _ _). }
  rewrite IH.
  - by rewrite !reverse_cons, <- !app_assoc.
  - intros l q -> Hne. by apply (Hp (c :: l) q).
Qed.

Lemma comparison_solid v op w : comparison v op w → solid (comparison_text v op w) ∧ comparison_text v op w ≠ [].
Proof.
  intros [Hv Hop Hne Hw]. split; [|unfold CONDITION_VARS in Hv; by each Hv].
  destruct w as [|d w _] using rev_ind; [done|]. apply Forall_app in Hw as [Hw Hd]. apply Forall_cons in Hd as [Hd _].
  assert (comparison_text v op (w ++ [d]) = (v ++ [32%N] ++ op ++ [32%N] ++ w) ++ [d]) as ->.
  { unfold comparison_text. by rewrite <- !app_assoc. }
  apply solid_app; [|unfold cond_unit, is_digit in Hd; unfold is_ws; lia|unfold cond_unit, is_digit in Hd; lia].
  unfold CONDITION_VARS in Hv. unfold CONDITION_OPS in Hop. rewrite !Forall_app. split_and!.
  - each Hv; decided.
  - decided.
  - each Hop; decided.
  - decided.
  - eapply Forall_impl; [exact Hw|]. intros c Hc. unfold cond_unit, is_digit in Hc. lia.
Qed.

Lemma split_comparisons l b f : l ≠ [] → Forall (fun '(v, op, w) => comparison v op w) l → length (comparisons_text l) ≤ f →
  split_re_go f and_regex b (comparisons_text l) [] = (fun '(v, op, w) => comparison_text v op w) <$> l.
Proof.
  intros Hne Hl. revert b f. induction Hl as [|[[v op] w] l Hc Hl IH]; intros b f Hf; [done|].
  destruct (comparison_solid _ _ _ Hc) as [Hs Hn]. destruct l as [|x l].
  - unfold comparisons_text in *. cbn [fmap list_fmap str_join] in *. rewrite <- (app_nil_r (comparison_text v op w)) at 1.
    replace f with (length (comparison_text v op w) + (f - length (comparison_text v op w))) by lia.
    rewrite split_re_run by done. destruct (f - _); cbn [split_re_go]; by rewrite app_nil_r, reverse_involutive.
  - change (comparisons_text ((v, op, w) :: x :: l)) with (comparison_text v op w ++ js " && " ++ comparisons_text (x :: l)) in *.
    rewrite !length_app in Hf. rewrite fmap_cons.
    replace f with (length (comparison_text v op w) + (S (f - length (comparison_text v op w) - 1)))
      by (change (length (js " && ")) with 4 in Hf; lia).
    rewrite split_re_run by done. rewrite app_nil_r.
    set (t := comparisons_text (x :: l)) in *.
    assert (eats and_regex (js " && ") (replicate 1 None) (replicate 1 None) t) as He.
    { replace (js " && ") with ([32%N] ++ js "&&" ++ [32%N]) by (by vm_compute).
      eapply eats_seq; [apply ws_one; lits; before|]. eapply eats_seq; [apply eats_lit|]. apply ws_one.
      destruct (comparisons_head x l [] Hl) as (d & u & E & Hd). rewrite app_nil_r in E. fold t in E. rewrite E.
      intros y t' [= <- _]. by each Hd. }
    pose proof (exec_at_eats 0 _ _ _ _ (reverse (comparison_text v op w) ++ b) He) as E.
    replace (js " && ") with [32; 38; 38; 32]%N in * by (by vm_compute). cbn [app] in E |- *. cbn [split_re_go].
    cbn [replicate] in *. rewrite E. cbn [rest before].
    assert (str_true (reverse (comparison_text v op w)) = true) as ->.
    { apply str_true_spec. intros Hr. apply Hn. by rewrite <- (reverse_involutive (comparison_text v op w)), Hr. }
    cbn [negb andb]. rewrite reverse_involutive. f_equal. apply IH; [done|]. simpl in Hf. lia.
Qed.

Lemma parse_comparisons l : Forall (fun '(v, op, w) => comparison v op w) l →
  parse_conditions (match l with [] => [] | _ => comparisons_text l end) = read_comparison <$> l.
Proof.
  intros Hl. destruct l as [|x l]; [done|]. unfold parse_conditions.
  destruct (comparisons_head x l [] Hl) as (d & u & E & _). rewrite app_nil_r in E.
  rewrite (proj2 (str_true_spec _)) by (by rewrite E). unfold split_re. rewrite split_comparisons by (done || lia). clear E.
  induction Hl as [|[[v op] w] l' Hc Hl IH]; [done|]. rewrite !fmap_cons. cbn [omap list_omap].
  destruct (one_condition_match _ _ _ Hc) as (m & Hm & E1 & E2 & E3). rewrite comparison_trim, Hm by done. cbn [mbind option_bind].
  rewrite E1, E2, E3, IH. done.
Qed.

(** ** What is printed for a tier *)

Definition extra_costs (t : VisualTier) : list num := (fun x => or0 x) <$> (tier_fields t).*2.

Definition cost_text (x : num) : option jsstr := if num_true x then Some (num_str x) else None.

Definition comparison_of (c : TierConditionInput) : jsstr * jsstr * jsstr := (ci_var c, ci_op c, cond_value_str (ci_value c)).

Definition complete (cs : list TierConditionInput) : list TierConditionInput := filter (fun c => cond_complete c = true) cs.

Definition print_tier (cs : list TierConditionInput) (lbl : jsstr) (t : VisualTier) : tier_print :=
  mkTP (comparison_of <$> complete cs) lbl (num_str (or0 (Some (input_unit_cost t)))) (num_str (or0 (Some (output_unit_cost t))))
    (cost_text <$> extra_costs t).

Lemma str_join_cons sep w l : str_join sep (w :: l) = w ++ concat ((fun s => sep ++ s) <$> l).
Proof.
  revert w. induction l as [|w' l IH]; intros w; [simpl; by rewrite app_nil_r|].
  rewrite fmap_cons. cbn [concat]. rewrite <- app_assoc, <- IH. done.
Qed.

Lemma opt_text_terms vs xs :
  opt_text vs (cost_text <$> xs)
  = concat ((fun s => js " + " ++ s) <$> omap (fun '(v, x) => if num_true x then Some (term v x) else None) (zip vs xs)).
Proof.
  revert xs. induction vs as [|v vs IH]; intros xs; [done|]. destruct xs as [|x xs]; [done|].
  rewrite fmap_cons. cbn [zip zip_with omap list_omap]. unfold cost_text at 1. destruct (num_true x); cbn [opt_text].
  - rewrite fmap_cons. cbn [concat]. rewrite IH. unfold plus_text, term_text, term.
    replace (js " + ") with [32; 43; 32]%N at 1 by (by vm_compute). by rewrite <- !app_assoc.
  - apply IH.
Qed.

Lemma print_body t :
  buildTierBodyExpr t = body_text (num_str (or0 (Some (input_unit_cost t)))) (num_str (or0 (Some (output_unit_cost t))))
    (cost_text <$> extra_costs t).
Proof.
  unfold buildTierBodyExpr, body_text. rewrite !str_join_cons, opt_text_terms, fmap_cons. cbn [concat].
  unfold term at 1, term_text at 1. replace (js " * ") with [32; 42; 32]%N by (by vm_compute). f_equal.
Qed.

(** ** What is read back *)

Definition reread_cond (c : TierConditionInput) : TierConditionInput :=
  mkCond (ci_var c) (ci_op c) (CNum (Number_str (cond_value_str (ci_value c)))).

(** The tier as its text shows it, under a label and with given conditions *)
Definition reread (cs : list TierConditionInput) (lbl : jsstr) (t : VisualTier) : VisualTier :=
  mkTier lbl (reread_cond <$> complete cs) (or0 (Some (input_unit_cost t))) (or0 (Some (output_unit_cost t)))
    (if num_ltb (num_of_Z 0) (or0 (cache_create_1h_unit_cost t)) then CACHE_MODE_TIMED else CACHE_MODE_GENERIC)
    (Some (or0 (cache_read_unit_cost t))) (Some (or0 (cache_create_unit_cost t))) (Some (or0 (cache_create_1h_unit_cost t)))
    (Some (or0 (image_unit_cost t))) (Some (or0 (image_output_unit_cost t)))
    (Some (or0 (audio_input_unit_cost t))) (Some (or0 (audio_output_unit_cost t))).

(** A condition that is left out or is a comparison of a variable with a plain
    numeral *)
Definition cond_ok (c : TierConditionInput) : Prop :=
  cond_complete c = true →
  ci_var c ∈ CONDITION_VARS ∧ ci_op c ∈ CONDITION_OPS
  ∧ ∃ x, is_canonical x ∧ cond_value_str (ci_value c) = num_str x ∧ Forall (fun d => cond_unit d = true) (num_str x).

Record tier_ok (t : VisualTier) : Prop := {
  to_label : Forall (fun d => d ≠ 34%N) (label t);
  to_conditions : Forall cond_ok (tier_conditions t);
  to_input : is_canonical (or0 (Some (input_unit_cost t)));
  to_output : is_canonical (or0 (Some (output_unit_cost t)));
  to_extras : Forall is_canonical (extra_costs t)
}.

Lemma or0_idemp x : or0 (Some (or0 x)) = or0 x.
Proof. unfold or0. destruct x as [x|]; [|done]. destruct (num_true x) eqn:E; [by rewrite E|done]. Qed.

Lemma or0_false x : num_true (or0 x) = false → or0 x = num_of_Z 0.
Proof. unfold or0. destruct x as [x|]; [|done]. destruct (num_true x) eqn:E; [by rewrite E|done]. Qed.

Lemma print_ok cs lbl t : tier_ok t → Forall cond_ok cs → Forall (fun d => d ≠ 34%N) lbl → tp_ok (print_tier cs lbl t).
Proof.
  intros [_ _ Hi Ho Hx] Hcs Hl. split; cbn [print_tier tp_conds tp_label tp_in tp_out tp_extras]; [|done|by apply canonical_numeral..|done|].
  - rewrite Forall_fmap. unfold complete. apply Forall_forall. intros c Hc. apply list_elem_of_filter in Hc as [Hc Hin].
    rewrite Forall_forall in Hcs. destruct (Hcs c Hin Hc) as (Hv & Hop & x & Hx' & E & Hu). unfold comparison_of. simpl.
    split; [done|done|rewrite E; by apply canonical_numeral|by rewrite E].
  - rewrite Forall_fmap. eapply Forall_impl; [exact Hx|]. intros x Hcx w. unfold cost_text. simpl.
    destruct (num_true x); [|done]. intros [= <-]. by apply canonical_numeral.
Qed.

Lemma reread_conds cs : Forall cond_ok cs → read_comparison <$> (comparison_of <$> complete cs) = reread_cond <$> complete cs.
Proof. intros _. by rewrite <- list_fmap_compose. Qed.

(** The cost of a group *)
Lemma mget_extras fields n m i f : NoDup fields → fields !! i = Some f →
  mget f (extras_from fields n m) = Number_str <$> default None (m !! (n + i)).
Proof.
  revert n i. induction fields as [|g fields IH]; intros n i Hnd Hi; [done|]. apply NoDup_cons in Hnd as [Hg Hnd].
  assert (∀ n, mget g (extras_from fields n m) = None) as Hnone.
  { intros k. revert k. clear -Hg. induction fields as [|h fields IH]; intros k; [done|]. cbn [extras_from].
    assert (g ≠ h ∧ g ∉ fields) as [Hh Hgs] by set_solver. destruct (default None (m !! k)); [cbn [mget]; rewrite decide_False by done|]; by apply IH. }
  cbn [extras_from]. destruct i as [|i]; simpl in Hi.
  - simplify_eq. rewrite Nat.add_0_r. destruct (default None (m !! n)); [cbn [mget]; by rewrite decide_True|apply Hnone].
  - assert (f ≠ g) as Hfg by (intros ->; apply Hg; by eapply list_elem_of_lookup_2).
    rewrite Nat.add_succ_r, <- Nat.add_succ_l. destruct (default None (m !! n)); [cbn [mget]; rewrite decide_False by done|]; by apply IH.
Qed.

Lemma read_cost x : is_canonical (or0 x) → or0 (Number_str <$> cost_text (or0 x)) = or0 x.
Proof.
  intros Hx. unfold cost_text. destruct (num_true (or0 x)) eqn:E.
  - cbn [fmap option_fmap option_map]. rewrite Number_num_str by done. apply or0_idemp.
  - by rewrite (or0_false x).
Qed.

Lemma cost_positive x : is_canonical (or0 x) →
  num_ltb (num_of_Z 0) (default NaN (Number_str <$> cost_text (or0 x))) = num_ltb (num_of_Z 0) (or0 x).
Proof.
  intros Hx. unfold cost_text. destruct (num_true (or0 x)) eqn:E.
  - cbn [fmap option_fmap option_map default from_option]. by rewrite Number_num_str.
  - by rewrite (or0_false x).
Qed.

Lemma read_back conds lbl t pre : tier_ok t →
  read_tier (reread_cond <$> complete conds) (length pre)
    (pre ++ [Some lbl; Some (num_str (or0 (Some (input_unit_cost t)))); Some (num_str (or0 (Some (output_unit_cost t))))]
       ++ (cost_text <$> extra_costs t)) = reread conds lbl t.
Proof.
  intros [_ _ Hi Ho Hx]. set (m := pre ++ _).
  assert (∀ i f c, (BILLING_CACHE_VAR_MAP.*1) !! i = Some f → extra_costs t !! i = Some c →
    mget f (extras_from (BILLING_CACHE_VAR_MAP.*1) (length pre + 3) m) = Number_str <$> cost_text c) as Hget.
  { intros i f c Hf Hc. rewrite (mget_extras _ _ _ i); [|decided|done]. unfold m.
    rewrite lookup_app_r, <- Nat.add_assoc, Nat.add_comm, Nat.add_sub by lia.
    transitivity (Number_str <$> default None ((cost_text <$> extra_costs t) !! i)); [reflexivity|]. by rewrite list_lookup_fmap, Hc. }
  assert (∀ i, m !! (length pre + i) = ([Some lbl; Some (num_str (or0 (Some (input_unit_cost t)))); Some (num_str (or0 (Some (output_unit_cost t))))]
       ++ (cost_text <$> extra_costs t)) !! i) as Hm.
  { intros i. unfold m. rewrite lookup_app_r by lia. f_equal. lia. }
  unfold extra_costs in Hx. cbn in Hx. repeat (apply Forall_cons in Hx as [? Hx]).
  unfold read_tier, normalizeVisualTier, getTierCacheMode. cbn [pt_label pt_conditions pt_input pt_output pt_mode pt_extras ostr default].
  rewrite (Hget 0 (js "cache_read_unit_cost") (or0 (cache_read_unit_cost t))), (Hget 1 (js "cache_create_unit_cost") (or0 (cache_create_unit_cost t))), (Hget 2 (js "cache_create_1h_unit_cost") (or0 (cache_create_1h_unit_cost t))),
    (Hget 3 (js "image_unit_cost") (or0 (image_unit_cost t))), (Hget 4 (js "image_output_unit_cost") (or0 (image_output_unit_cost t))), (Hget 5 (js "audio_input_unit_cost") (or0 (audio_input_unit_cost t))),
    (Hget 6 (js "audio_output_unit_cost") (or0 (audio_output_unit_cost t))) by (first [reflexivity|by vm_compute]).
  rewrite !read_cost, cost_positive by done. unfold cap. rewrite (Hm 1), (Hm 2). pose proof (Hm 0) as Hm0. rewrite Nat.add_0_r in Hm0. rewrite Hm0.
  cbn [lookup list_lookup app default from_option Datatypes.id]. rewrite !Number_num_str by done. done.
Qed.

(** A check of the conditions under which a tier is read back *)
Definition cond_check (c : TierConditionInput) : bool :=
  negb (cond_complete c)
  || bool_decide (ci_var c ∈ CONDITION_VARS) && bool_decide (ci_op c ∈ CONDITION_OPS)
     && match ci_value c with CNum x => canonical_check 20 x && forallb cond_unit (num_str x) | CStr _ => false end.

Definition tier_check (t : VisualTier) : bool :=
  forallb (fun d => negb (d =? 34)%N) (label t) && forallb cond_check (tier_conditions t)
  && forallb (canonical_check 20) (or0 (Some (input_unit_cost t)) :: or0 (Some (output_unit_cost t)) :: extra_costs t).

Lemma cond_check_sound c : cond_check c = true → cond_ok c.
Proof.
  unfold cond_check, cond_ok. intros H Hc. rewrite Hc in H. cbn [negb orb] in H.
  apply andb_true_iff in H as [H Hv]. apply andb_true_iff in H as [H1 H2].
  apply bool_decide_eq_true in H1, H2. split_and!; [done|done|]. destruct (ci_value c) as [x|]; [|done].
  apply andb_true_iff in Hv as [Hx Hu]. exists x. split_and!; [by eapply canonical_check_sound|done|by eapply forallb_Forall].
Qed.

Lemma tier_check_sound t : tier_check t = true → tier_ok t.
Proof.
  unfold tier_check. intros H. apply andb_true_iff in H as [H Hx]. apply andb_true_iff in H as [Hl Hc].
  apply (forallb_Forall _ is_canonical) in Hx; [|intros x; apply canonical_check_sound].
  apply Forall_cons in Hx as [Hi Hx]. apply Forall_cons in Hx as [Ho Hx]. split; [|by eapply forallb_Forall; [apply cond_check_sound|]|done|done|done].
  eapply forallb_Forall; [|exact Hl]. intros d Hd. by apply negb_true_iff, N.eqb_neq in Hd.
Qed.

Lemma tiers_check ts : forallb tier_check ts = true → Forall tier_ok ts.
Proof. apply forallb_Forall, tier_check_sound. Qed.

(** ** Printing again *)

Lemma reread_extras cs lbl t : extra_costs (reread cs lbl t) = extra_costs t.
Proof. unfold extra_costs. cbn. by rewrite !or0_idemp. Qed.

Lemma reread_complete cs : Forall cond_ok cs →
  comparison_of <$> complete (reread_cond <$> complete cs) = comparison_of <$> complete cs.
Proof.
  intros Hcs. unfold complete. induction Hcs as [|c cs Hc _ IH]; [done|]. rewrite filter_cons.
  destruct (decide (cond_complete c = true)) as [Hcc|]; [|done]. rewrite !fmap_cons.
  destruct (Hc Hcc) as (Hv & Hop & x & Hx & E & Hu).
  rewrite filter_cons_True.
  - rewrite fmap_cons, IH. f_equal. unfold comparison_of, reread_cond. cbn. by rewrite E, Number_num_str.
  - unfold cond_complete in *. cbn. bsplit. by rewrite andb_true_r, H.
Qed.

Lemma reread_print cs lbl t : Forall cond_ok cs →
  print_tier (reread_cond <$> complete cs) lbl (reread cs lbl t) = print_tier cs lbl t.
Proof.
  intros Hcs. unfold print_tier. rewrite reread_complete, reread_extras by done.
  cbn [reread input_unit_cost output_unit_cost]. by rewrite !or0_idemp.
Qed.

Lemma reread_normal cs lbl t : normalizeVisualTier (partial_tier (reread cs lbl t)) = reread cs lbl t.
Proof.
  unfold normalizeVisualTier. cbn [partial_tier pt_label pt_conditions pt_input pt_output pt_mode pt_extras].
  set (m := omap _ _).
  assert (∀ k v, (k, v) ∈ zip ((tier_fields t).*1) (extra_costs t) → mget k m = Some v) as Hget.
  { intros k v Hkv. apply elem_mget; [|exact Hkv]. change (NoDup ((tier_fields t).*1)). decided. }
  assert (∀ i k v, ((tier_fields t).*1) !! i = Some k → extra_costs t !! i = Some v → mget k m = Some v) as Hat.
  { intros i k v Hk Hv. apply Hget. apply (list_elem_of_lookup_2 _ i). by rewrite lookup_zip_with, Hk, Hv. }
  rewrite (Hat 0 _ (or0 (cache_read_unit_cost t))), (Hat 1 _ (or0 (cache_create_unit_cost t))),
    (Hat 2 _ (or0 (cache_create_1h_unit_cost t))), (Hat 3 _ (or0 (image_unit_cost t))),
    (Hat 4 _ (or0 (image_output_unit_cost t))), (Hat 5 _ (or0 (audio_input_unit_cost t))),
    (Hat 6 _ (or0 (audio_output_unit_cost t))) by reflexivity.
  by rewrite !or0_idemp.
Qed.

(** ** Several tiers *)

Definition tier_label (i : nat) (t : VisualTier) : jsstr := str_or (label t) (js "tier_" ++ str_of_N (N.of_nat (i + 1))).

(** Only the last tier is printed without its conditions. *)
Definition printed_conds (t : VisualTier) (rest : list VisualTier) : list TierConditionInput :=
  match rest with [] => [] | _ => tier_conditions t end.

Fixpoint print_tiers (i : nat) (ts : list VisualTier) : list tier_print :=
  match ts with [] => [] | t :: ts' => print_tier (printed_conds t ts') (tier_label i t) t :: print_tiers (i + 1) ts' end.

Fixpoint reread_tiers (i : nat) (ts : list VisualTier) : list VisualTier :=
  match ts with [] => [] | t :: ts' => reread (printed_conds t ts') (tier_label i t) t :: reread_tiers (i + 1) ts' end.

(** What the printed configuration shows *)
Definition reread_config (ts : list VisualTier) : list VisualTier :=
  match ts with
  | [t] => [reread (tier_conditions t) (str_or (label t) (js "default")) t]
  | _ => reread_tiers 0 ts
  end.

Lemma label_quotes s d : Forall (fun c => c ≠ 34%N) s → Forall (fun c => c ≠ 34%N) d → Forall (fun c => c ≠ 34%N) (str_or s d).
Proof. unfold str_or. by destruct (str_true s). Qed.

Lemma tier_label_quotes i t : tier_ok t → Forall (fun c => c ≠ 34%N) (tier_label i t).
Proof.
  intros [Hl _ _ _ _]. apply label_quotes; [done|]. apply Forall_app. split; [decided|].
  eapply Forall_impl; [apply str_of_N_digits|]. intros c Hc -> . by vm_compute in Hc.
Qed.

Lemma tier_label_nonempty i t : tier_label i t ≠ [].
Proof. apply str_or_nonempty. done. Qed.

Lemma condition_text cs : buildConditionStr cs = comparisons_text (comparison_of <$> complete cs).
Proof. unfold buildConditionStr, comparisons_text. by rewrite <- list_fmap_compose. Qed.

Lemma tier_expr_text lbl t :
  tier_expr lbl t = tier_text lbl (num_str (or0 (Some (input_unit_cost t)))) (num_str (or0 (Some (output_unit_cost t)))) (cost_text <$> extra_costs t).
Proof.
  unfold tier_expr, tier_text. rewrite print_body. replace (dq "', ") with (dq "'," ++ [32%N]) by (by vm_compute). by rewrite <- !app_assoc.
Qed.

Lemma comparisons_nonempty cs : str_true (comparisons_text (comparison_of <$> complete cs)) = bool_decide (complete cs ≠ []).
Proof.
  unfold complete. destruct (filter _ cs) as [|c l] eqn:E; [done|].
  assert (c ∈ filter (fun c => cond_complete c = true) cs) as Hc by (rewrite E; constructor).
  apply list_elem_of_filter in Hc as [Hc _]. rewrite bool_decide_true by done. apply str_true_spec.
  rewrite fmap_cons. unfold comparison_of at 1. rewrite comparisons_text_cons. unfold comparison_text.
  unfold cond_complete in Hc. bsplit. apply str_true_spec in H. rewrite <- !app_assoc. by intros [? _]%app_eq_nil.
Qed.

(** The text of a tier with its conditions *)
Lemma conditions_choice cs lbl t :
  (if str_true (buildConditionStr cs) then buildConditionStr cs ++ js " ? " ++ tier_expr lbl t else tier_expr lbl t)
  = tp_text (print_tier cs lbl t).
Proof.
  rewrite condition_text, comparisons_nonempty, tier_expr_text. unfold tp_text, part_text, print_tier. cbn [tp_conds tp_label tp_in tp_out tp_extras].
  destruct (complete cs) as [|c l]; [by rewrite bool_decide_false by naive_solver|].
  rewrite bool_decide_true by done. rewrite fmap_cons. by rewrite <- app_assoc.
Qed.

Lemma tier_parts_text i ts : tier_parts i ts = tp_text <$> print_tiers i ts.
Proof.
  revert i. induction ts as [|t ts IH]; intros i; [done|]. cbn [tier_parts print_tiers]. rewrite fmap_cons, <- IH. f_equal.
  destruct ts as [|t' ts]; cbn [printed_conds].
  - rewrite tier_expr_text. done.
  - apply conditions_choice.
Qed.

Lemma print_tiers_ok i ts : Forall tier_ok ts → Forall tp_ok (print_tiers i ts).
Proof.
  intros H. revert i. induction H as [|t ts Ht Hts IH]; intros i; [constructor|]. constructor; [|apply IH].
  apply print_ok; [done| |by apply tier_label_quotes]. destruct ts; [constructor|apply Ht].
Qed.

Lemma label_again i cs lbl t : lbl ≠ [] → tier_label i (reread cs lbl t) = lbl.
Proof. intros H. by apply str_or_id. Qed.

Lemma print_tiers_again i ts : Forall tier_ok ts → print_tiers i (reread_tiers i ts) = print_tiers i ts.
Proof.
  intros H. revert i. induction H as [|t ts Ht Hts IH]; intros i; [done|]. cbn [reread_tiers print_tiers]. rewrite IH. f_equal.
  rewrite label_again by apply tier_label_nonempty. destruct ts as [|t' ts]; cbn [printed_conds reread_tiers].
  - apply (reread_print []). constructor.
  - apply (reread_print (tier_conditions t)). apply Ht.
Qed.

(** Every match is read as the tier it was printed from. *)
Lemma read_match cs lbl t : tier_ok t → Forall cond_ok cs → Forall (fun c => c ≠ 34%N) lbl →
  let m := tp_caps (print_tier cs lbl t) in
  read_tier (parse_conditions (cap 1 m)) 2 m = reread cs lbl t.
Proof.
  intros Ht Hcs Hl m. pose proof (print_ok cs lbl t Ht Hcs Hl) as [Hc _ _ _ _ _].
  assert (parse_conditions (cap 1 m) = reread_cond <$> complete cs) as ->.
  { rewrite <- reread_conds by done. rewrite <- parse_comparisons by done. unfold m, tp_caps, part_caps, print_tier.
    cbn [tp_conds]. by destruct (comparison_of <$> complete cs). }
  apply (read_back cs lbl t [_; _] Ht).
Qed.

Lemma read_matches i ts : Forall tier_ok ts →
  (fun m => read_tier (parse_conditions (cap 1 m)) 2 m) <$> (tp_caps <$> print_tiers i ts) = reread_tiers i ts.
Proof.
  intros H. revert i. induction H as [|t ts Ht Hts IH]; intros i; [done|]. cbn [print_tiers reread_tiers].
  rewrite !fmap_cons, IH. f_equal. apply read_match; [done| |by apply tier_label_quotes]. destruct ts; [constructor|apply Ht].
Qed.

(** ** No single tier where several are printed *)

(** After the label only units other than a colon are read, up to the end. *)
Definition no_colon (c : N) : bool := negb (c =? 58)%N.

Lemma ws_units : units_in no_colon ws.
Proof. intros c Hc. unfold is_ws in Hc. unfold no_colon. lia. Qed.

Lemma lit_units s : 58%N ∉ s → units_in no_colon (RLit s).
Proof.
  induction s as [|d s IH]; intros H; [done|]. split; [|apply IH; set_solver]. intros c Hc. simpl in Hc. unfold no_colon.
  assert (d ≠ 58%N) by set_solver. lia.
Qed.

Lemma numbers_units n : units_in no_colon (RGroup n numbers).
Proof. split; intros c Hc; simpl in Hc; unfold num_unit, is_digit in Hc; unfold no_colon; lia. Qed.

Lemma term_units v n : 58%N ∉ v → units_in no_colon (term_regex v n).
Proof.
  intros Hv. split; [by apply lit_units|]. split; [apply ws_units|]. split; [by apply (lit_units [42%N]); set_solver|].
  split; [apply ws_units|apply numbers_units].
Qed.

Lemma plus_units v n : 58%N ∉ v → units_in no_colon (plus_term v n).
Proof.
  intros Hv. split; [apply ws_units|]. split; [by apply (lit_units [43%N]); set_solver|]. split; [apply ws_units|by apply term_units].
Qed.

Lemma opt_units vs n r : Forall (fun v => 58%N ∉ v) vs → units_in no_colon r → units_in no_colon (opt_terms vs n r).
Proof.
  intros Hvs Hr. revert n. induction Hvs as [|v vs Hv _ IH]; intros n; [done|]. split; [|apply IH]. split; [by apply plus_units|done].
Qed.

Lemma single_tail_units : units_in no_colon (RSeq (RLit (dq "',")) (RSeq ws (body_pat 2 (RSeq (RUnit 41) REnd)))).
Proof.
  split; [apply lit_units; decided|]. split; [apply ws_units|]. split; [apply term_units; decided|].
  split; [apply plus_units; decided|]. apply opt_units; [decided|]. split; [|done]. by apply (lit_units [41%N]); set_solver.
Qed.

Lemma single_not_several lbl u : Forall (fun c => c ≠ 34%N) lbl → 58%N ∈ u →
  str_match 10 single_regex (dq "tier('" ++ lbl ++ dq "'," ++ u) = None.
Proof.
  intros Hl Hu. unfold single_regex. rewrite str_match_anchored. unfold exec_at, tier_head. pose proof single_tail_units as Htail.
  set (R := RSeq (RLit (dq "',")) _) in *.
  assert (ends R) as Hends by done.
  assert (∀ X (k : mstate → option X) st, rest st = dq "'," ++ u → rmatch R st k = None) as HR.
  { intros X k st E. destruct (rmatch R st k) eqn:Er; [exfalso|done].
    apply (rmatch_consumes no_colon) in Er as (w & st' & Hw & Hall & Hend & _); [|done].
    rewrite (Hend Hends), app_nil_r, E in Hw. rewrite <- Hw, Forall_app in Hall. destruct Hall as [_ Hall].
    rewrite Forall_forall in Hall. apply Hall in Hu. by vm_compute in Hu. }
  assert (∀ X (k : mstate → option X), refuses (fun c => negb (c =? 34)%N) (fun st => rmatch R st k)) as Href.
  { intros X k b y t c Hy. unfold R. replace (dq "',") with [34; 44]%N by (by vm_compute). cbn [rmatch RLit RUnit rest].
    apply negb_true_iff in Hy. by rewrite Hy. }
  clearbody R. remember (RStar (RChar (fun c => negb (c =? 34)%N))) as L eqn:HL.
  cbn [rmatch before]. rewrite rmatch_lit. cbn [rest]. rewrite HL, rmatch_class_star. cbn [before rest caps].
  rewrite greedy_det.
  - cbn [before rest caps]. by rewrite HR.
  - eapply Forall_impl; [exact Hl|]. intros c Hc. by apply negb_true_iff, N.eqb_neq.
  - lits. by intros y t' [= <- _].
  - intros b y t c Hy. cbn [before rest caps]. by apply Href.
Qed.

Lemma normalize_config ts : ts ≠ [] → Forall (fun t => normalizeVisualTier (partial_tier t) = t) ts →
  normalizeVisualConfig (Some (mkConfig ts)) = mkConfig ts.
Proof.
  intros Hne H. destruct ts as [|t ts]; [done|]. unfold normalizeVisualConfig. f_equal. clear Hne.
  induction H as [|t' ts' Ht _ IH]; [done|]. by rewrite fmap_cons, Ht, IH.
Qed.

Lemma reread_tiers_normal i ts : Forall (fun t => normalizeVisualTier (partial_tier t) = t) (reread_tiers i ts).
Proof. revert i. induction ts as [|t ts IH]; intros i; constructor; [apply reread_normal|apply IH]. Qed.

Lemma parse_matches text ts : text ≠ [] → strip_version text = text → str_match 10 single_regex text = None →
  (fun m => read_tier (parse_conditions (cap 1 m)) 2 m) <$> match_all 11 tier_regex text = ts →
  ts ≠ [] → Forall (fun t => normalizeVisualTier (partial_tier t) = t) ts →
  generateExprFromVisualConfig (Some (mkConfig ts)) = text →
  tryParseVisualConfig (Some text) = Some (mkConfig ts).
Proof.
  intros Hne Hv Hs Hm Hts Hn Hg. destruct text as [|c text]; [done|]. unfold tryParseVisualConfig. rewrite Hv, Hs, Hm.
  destruct ts as [|t ts]; [done|]. rewrite normalize_config, Hg by done. by rewrite bool_decide_true.
Qed.

(** The first unit of a printed tier *)
Lemma tp_head p u : tp_ok p → ∃ d t, tp_text p ++ u = d :: t ∧ d ∈ [112; 99; 108; 116]%N.
Proof.
  intros [Hc _ _ _ _ _]. unfold tp_text, part_text. rewrite <- app_assoc. destruct (tp_conds p) as [|x l].
  - cbn [app]. unfold tier_text. rewrite <- !app_assoc. lits. cbn [app]. eexists _, _. split; [reflexivity|decided].
  - rewrite <- app_assoc. destruct (comparisons_head x l (js " ? " ++ tier_text (tp_label p) (tp_in p) (tp_out p) (tp_extras p) ++ u) Hc) as (d & t & E & Hd).
    exists d, t. split; [done|]. set_solver.
Qed.

Lemma tp_version p u : tp_ok p → strip_version (tp_text p ++ u) = tp_text p ++ u.
Proof.
  intros Hp. destruct (tp_head p u Hp) as (d & t & -> & Hd). apply strip_version_id. intros ->. by each Hd.
Qed.

Lemma tp_several p u : tp_ok p → (tp_conds p = [] → 58%N ∈ u) → str_match 10 single_regex (tp_text p ++ u) = None.
Proof.
  intros [Hc Hl _ _ _ _] Hu. unfold tp_text, part_text. destruct (tp_conds p) as [|x l].
  - cbn [app]. unfold tier_text. rewrite <- !app_assoc. apply single_not_several; [done|]. rewrite !elem_of_app. auto.
  - rewrite <- !app_assoc. edestruct (comparisons_head x l) as (d & t & E & Hd); [done|]. rewrite E. by apply single_no_match.
Qed.

Lemma no_tier_tail b : exec_from 11 tier_regex b (js " : p * 0 + c * 0") = None.
Proof.
  apply (exec_from_reads 11 _ 116); [|decided]. right. left. replace (dq "tier('") with [116; 105; 101; 114; 40; 34]%N by (by vm_compute).
  left. intros d Hd. simpl in Hd. by apply N.eqb_eq in Hd.
Qed.

Lemma no_tier_nil b : exec_from 11 tier_regex b [] = None.
Proof.
  apply (exec_from_reads 11 _ 116); [|set_solver]. right. left. replace (dq "tier('") with [116; 105; 101; 114; 40; 34]%N by (by vm_compute).
  left. intros d Hd. simpl in Hd. by apply N.eqb_eq in Hd.
Qed.

(** One tier without conditions *)
Lemma parse_one lbl t : tier_ok t → Forall (fun c => c ≠ 34%N) lbl →
  tryParseVisualConfig (Some (tp_text (print_tier [] lbl t))) = Some (mkConfig [reread [] lbl t]).
Proof.
  intros Ht Hl. pose proof (print_ok [] lbl t Ht (Forall_nil_2 _) Hl) as Hp.
  pose proof (tp_version _ [] Hp) as Hv. rewrite app_nil_r in Hv. pose proof (tp_text_nonempty (print_tier [] lbl t)) as Hne.
  unfold tryParseVisualConfig. destruct (tp_text _) as [|c u] eqn:E; [done|]. rewrite Hv, <- E.
  rewrite single_match by done. f_equal.
  pose proof (read_back [] lbl t [Some (tp_text (print_tier [] lbl t))] Ht) as Hr.
  transitivity (normalizeVisualConfig (Some (mkConfig [reread [] lbl t]))); [by rewrite <- Hr|].
  apply normalize_config; [done|]. constructor; [apply reread_normal|constructor].
Qed.

(** Tiers that are not one tier without conditions *)
Lemma parse_several ps ts tl : Forall tp_ok ps → ps ≠ [] → (∀ b, exec_from 11 tier_regex b tl = None) →
  (tl = [] → 2 ≤ length ps) → (∀ p, ps = [p] → tp_conds p ≠ []) →
  (fun m => read_tier (parse_conditions (cap 1 m)) 2 m) <$> (tp_caps <$> ps) = ts →
  Forall (fun t => normalizeVisualTier (partial_tier t) = t) ts →
  let text := str_join (js " : ") (tp_text <$> ps) ++ tl in
  generateExprFromVisualConfig (Some (mkConfig ts)) = text → tryParseVisualConfig (Some text) = Some (mkConfig ts).
Proof.
  intros Hps Hne Htl Hlen Hone Hts Hn text Hg. destruct ps as [|p ps]; [done|]. apply Forall_cons in Hps as [Hp Hps'].
  assert (∃ u, text = tp_text p ++ u ∧ (tp_conds p = [] → 58%N ∈ u)) as (u & Eu & Hu).
  { unfold text. rewrite fmap_cons, str_join_cons, <- app_assoc. eexists. split; [done|]. intros Hc.
    destruct ps as [|q ps]; [by destruct (Hone p eq_refl)|]. rewrite fmap_cons. cbn [fmap list_fmap concat]. rewrite !elem_of_app.
    left. left. left. decided. }
  apply parse_matches; [rewrite Eu| | | | | |done].
  - intros [H _]%app_eq_nil. by apply tp_text_nonempty in H.
  - rewrite Eu. by apply tp_version.
  - rewrite Eu. by apply tp_several.
  - unfold text. rewrite match_all_parts by (done || by constructor). done.
  - rewrite <- Hts. done.
  - done.
Qed.

(** ** The printed configurations *)

Lemma generate_one t :
  let lbl := str_or (label t) (js "default") in
  generateExprFromVisualConfig (Some (mkConfig [t]))
  = tp_text (print_tier (tier_conditions t) lbl t) ++ (match complete (tier_conditions t) with [] => [] | _ => js " : p * 0 + c * 0" end).
Proof.
  intros lbl. rewrite <- conditions_choice. cbn [generateExprFromVisualConfig].
  fold lbl. rewrite condition_text, comparisons_nonempty. destruct (complete (tier_conditions t)) as [|c l].
  - rewrite bool_decide_false by naive_solver. by rewrite app_nil_r.
  - rewrite bool_decide_true by done. by rewrite <- !app_assoc.
Qed.

Lemma generate_several t t' ts :
  generateExprFromVisualConfig (Some (mkConfig (t :: t' :: ts))) = str_join (js " : ") (tp_text <$> print_tiers 0 (t :: t' :: ts)).
Proof. rewrite <- tier_parts_text. done. Qed.

Lemma complete_again cs : Forall cond_ok cs → complete (reread_cond <$> complete cs) = [] ↔ complete cs = [].
Proof.
  intros H. pose proof (reread_complete cs H) as E. split; intros E'; rewrite E' in E.
  - by destruct (complete cs).
  - by rewrite E'.
Qed.

Lemma generate_one_again t : tier_ok t →
  let lbl := str_or (label t) (js "default") in
  generateExprFromVisualConfig (Some (mkConfig [reread (tier_conditions t) lbl t])) = generateExprFromVisualConfig (Some (mkConfig [t])).
Proof.
  intros Ht lbl. rewrite !generate_one. cbn [label reread tier_conditions]. fold lbl.
  rewrite str_or_id by (by apply str_or_nonempty).
  rewrite (reread_print (tier_conditions t) lbl t) by apply Ht. f_equal.
  pose proof (complete_again (tier_conditions t) (to_conditions _ Ht)) as [H1 H2].
  destruct (complete (reread_cond <$> _)), (complete (tier_conditions t)); naive_solver.
Qed.

Lemma generate_several_again t t' ts : Forall tier_ok (t :: t' :: ts) →
  generateExprFromVisualConfig (Some (mkConfig (reread_tiers 0 (t :: t' :: ts)))) = generateExprFromVisualConfig (Some (mkConfig (t :: t' :: ts))).
Proof.
  intros H. rewrite generate_several, <- (print_tiers_again 0 (t :: t' :: ts)) by done. by rewrite <- tier_parts_text.
Qed.

Lemma visual_read_back ts : ts ≠ [] → Forall tier_ok ts →
  let expr := generateExprFromVisualConfig (Some (mkConfig ts)) in
  tryParseVisualConfig (Some expr) = Some (mkConfig (reread_config ts))
  ∧ generateExprFromVisualConfig (Some (mkConfig (reread_config ts))) = expr.
Proof.
  intros Hne Hok expr. destruct ts as [|t [|t' ts]]; [done|..]; cbn [reread_config]; unfold expr.
  - apply Forall_cons in Hok as [Ht _]. pose proof (generate_one_again t Ht) as Hagain. split; [|done].
    set (lbl := str_or (label t) (js "default")) in *.
    assert (Forall (fun c => c ≠ 34%N) lbl) as Hl by (apply label_quotes; [apply Ht|decided]).
    pose proof (print_ok _ lbl t Ht (to_conditions _ Ht) Hl) as Hp. rewrite generate_one in Hagain |- *. fold lbl in Hagain |- *.
    destruct (complete (tier_conditions t)) as [|c l] eqn:Ec.
    + rewrite app_nil_r. pose proof (parse_one lbl t Ht Hl) as H.
      unfold print_tier, reread in H |- *. by rewrite Ec.
    + apply (parse_several [print_tier (tier_conditions t) lbl t] _ (js " : p * 0 + c * 0"));
        [by constructor|done|apply no_tier_tail|done| | | |exact Hagain].
      * intros p [= <-]. cbn [print_tier tp_conds]. by rewrite Ec.
      * rewrite !fmap_cons. f_equal. apply read_match; [done|apply Ht|done].
      * constructor; [apply reread_normal|constructor].
  - pose proof (generate_several_again _ _ _ Hok) as Hagain. split; [|done].
    rewrite generate_several in Hagain |- *. rewrite <- (app_nil_r (str_join _ _)).
    apply (parse_several (print_tiers 0 (t :: t' :: ts)) _ []);
      [by apply print_tiers_ok|done|apply no_tier_nil|simpl; lia|done|by apply read_matches|apply reread_tiers_normal|].
    by rewrite app_nil_r.
Qed.

(** C17. For tiers that print plainly ([tier_ok]: labels without quotation marks,
    prices that are decimal numbers, and conditions that are incomplete or compare a
    variable with a decimal numeral without a minus sign), the expression printed is
    read back as the same tiers: prices as they were (with a missing price as 0), the
    complete conditions with their numbers, an empty label replaced by the one that is
    printed, and for the cache mode the one that the prices imply, whatever it was.  The
    conditions of the last of several tiers are not printed, so they are lost.  What
    is read back is printed as the same expression. *)
Theorem visual_roundtrip ts : ts ≠ [] → Forall tier_ok ts →
  let expr := generateExprFromVisualConfig (Some (mkConfig ts)) in
  tryParseVisualConfig (Some expr) = Some (mkConfig (reread_config ts))
  ∧ generateExprFromVisualConfig (Some (mkConfig (reread_config ts))) = expr.
Proof. apply visual_read_back. Qed.

Lemma visual_roundtrip_witness :
  let expr := generateExprFromVisualConfig (Some sample_config) in
  tryParseVisualConfig (Some expr) = Some (mkConfig (reread_config (tiers sample_config)))
  ∧ generateExprFromVisualConfig (Some (mkConfig (reread_config (tiers sample_config)))) = expr.
Proof.
  apply (visual_roundtrip (tiers sample_config)); [done|]. apply tiers_check. vm_compute. reflexivity.
Defined.

End TierRoundtrip.
