(* ===== verification/TierPrices.v ===== *)
(** * Tiers on the price pages
    (src/web/src/features/pricing/lib/billing-expr.ts)

    The parser of the price pages reads the expressions the editor prints, and
    finds the editor's tiers and prices. *)

From Stdlib Require Import ZifyBool ZifyN.
From S2P Require Import Prelude JsString JsValue JsJson JsNumber JsRegex BillingRules TierExpr TierRoundtrip.

Module TierPrices.
Import BillingRules TierExpr TierRoundtrip.

(** ** The terms of a body *)

Definition PRICE_VARS : list jsstr := js "p" :: js "c" :: EXTRAS.

Lemma price_vars : key <$> BILLING_PRICING_VARS = PRICE_VARS.
Proof. by vm_compute. Qed.

Definition after_var : regex := RCat [ws; RUnit 42%N; ws; RGroup 2 numbers].

(** A name is not read where another one stands. *)
Lemma other_var_stuck u v t : u ∈ PRICE_VARS → v ∈ PRICE_VARS → u ≠ v →
  stuck (RSeq (RGroup 1 (RLit u)) after_var) (v ++ 32%N :: t).
Proof.
  unfold PRICE_VARS, EXTRAS. intros Hu Hv Hne X k b c. unfold after_var.
  each Hu; each Hv; try done; lits; cbn; reflexivity.
Qed.

Lemma choice_eats l v r w c c' t : v ∈ l → (∀ u, u ∈ l → u ≠ v → stuck (RSeq (RGroup 1 (RLit u)) r) (v ++ w ++ t)) →
  eats r w (<[1 := Some v]> c) c' t → eats (RSeq (RGroup 1 (RAny l)) r) (v ++ w) c c' t.
Proof.
  intros Hv Hst Hr.
  assert (eats (RSeq (RGroup 1 (RLit v)) r) (v ++ w) c c' t) as Hhit.
  { eapply eats_seq; [apply eats_group, eats_lit|done]. }
  induction l as [|u l IH]; [by apply not_elem_of_nil in Hv|]. destruct l as [|u' l].
  - apply list_elem_of_singleton in Hv as ->. exact Hhit.
  - change (eats (RAlt (RSeq (RGroup 1 (RLit u)) r) (RSeq (RGroup 1 (RAny (u' :: l))) r)) (v ++ w) c c' t).
    destruct (decide (u = v)) as [->|Hne]; [by apply eats_alt_l|].
    apply eats_alt_r; [rewrite <- app_assoc; apply Hst; [constructor|done]|].
    apply IH; [|intros z Hz; apply Hst; by constructor]. apply elem_of_cons in Hv as [->|Hv]; done.
Qed.

Lemma price_term_eats v w t : v ∈ PRICE_VARS → numeral w → ends_before num_unit t →
  eats (RSeq (RGroup 1 (RAny PRICE_VARS)) after_var) (term_text v w) [None; None; None] [None; Some v; Some w] t.
Proof.
  intros Hv Hw Ht. apply choice_eats; [done| |].
  - intros u Hu Hne. by apply other_var_stuck.
  - change ([32; 42; 32]%N ++ w) with ([32%N] ++ [42%N] ++ [32%N] ++ w).
    eapply eats_seq; [apply ws_one; before|]. eapply eats_seq; [apply eats_unit|].
    eapply eats_seq; [apply ws_one; by apply numeral_not_space|].
    change [None; Some v; Some w] with (<[2 := Some w]> [None; Some v; None]). apply eats_group, eats_run1; [apply Hw|by apply numeral_num_units|done].
Qed.

Definition term_caps (x : jsstr * jsstr) : list (option jsstr) := [Some (term_text x.1 x.2); Some x.1; Some x.2].

Lemma price_var_head v t : v ∈ PRICE_VARS → ∃ d u, v ++ t = d :: u ∧ is_word d = true.
Proof. unfold PRICE_VARS, EXTRAS. intros Hv. each Hv; lits; by eexists _, _. Qed.

Lemma price_term_match v w t b : v ∈ PRICE_VARS → numeral w → ends_before num_unit t → after_space b →
  exec_from 2 BILLING_VAR_REGEX b (term_text v w ++ t) = Some (mkM (reverse (term_text v w) ++ b) t (term_caps (v, w))).
Proof.
  intros Hv Hw Ht Hb. pose proof (exec_at_eats 2 _ _ _ _ b (price_term_eats v w t Hv Hw Ht)) as E.
  assert (exec_at 2 BILLING_VAR_REGEX b (term_text v w ++ t) = Some (mkM (reverse (term_text v w) ++ b) t (term_caps (v, w)))) as E'.
  { etransitivity; [|exact E]. unfold exec_at, BILLING_VAR_REGEX. rewrite price_vars. cbn [rmatch].
    assert (at_boundary (mkM b (term_text v w ++ t) (replicate 3 None)) = true) as ->; [|done].
    unfold at_boundary. cbn [before rest]. unfold term_text. rewrite <- app_assoc.
    destruct (price_var_head v (([32; 42; 32]%N ++ w) ++ t) Hv) as (d & u & -> & ->).
    destruct b as [|c b]; [done|]. by rewrite (Hb c b eq_refl). }
  destruct (term_text v w ++ t); cbn [exec_from]; by rewrite E'.
Qed.

Lemma var_regex_stuck d t : d ∈ [32; 43]%N → stuck BILLING_VAR_REGEX (d :: t).
Proof.
  intros Hd X k b c. unfold BILLING_VAR_REGEX. cbn [rmatch]. destruct (at_boundary _); [|done].
  rewrite price_vars. unfold PRICE_VARS, EXTRAS. cbn [app RAny]. lits. each Hd; reflexivity.
Qed.

Lemma match_terms l : l ≠ [] → Forall (fun x => x.1 ∈ PRICE_VARS ∧ numeral x.2) l →
  match_all 2 BILLING_VAR_REGEX (str_join (js " + ") ((fun x => term_text x.1 x.2) <$> l)) = term_caps <$> l.
Proof.
  intros Hne Hl. rewrite <- (app_nil_r (str_join _ _)).
  replace (js " + ") with [32; 43; 32]%N by (by vm_compute).
  apply (match_all_pieces 2 _ [32; 43; 32]%N [] (fun x : jsstr * jsstr => term_text x.1 x.2) term_caps
           (fun x => x.1 ∈ PRICE_VARS ∧ numeral x.2)); [| | | | |done|done].
  - intros [v w]. unfold term_text. intros H. apply (f_equal length) in H. rewrite !length_app in H. simpl in H. lia.
  - intros b. by intros c b' [= <- _].
  - intros [v w] t b [Hv Hw] Hb Ht. apply price_term_match; [done|done| |done].
    destruct Ht as [->|(t' & ->)]; [done|before].
  - intros s b. cbn [app]. by do 3 (rewrite exec_from_stuck by (apply var_regex_stuck; decided)).
  - intros b. unfold BILLING_VAR_REGEX. cbn [exec_from]. unfold exec_at. cbn [rmatch].
    destruct (at_boundary _); [|done]. rewrite price_vars. unfold PRICE_VARS, EXTRAS. cbn [app RAny]. lits. reflexivity.
Qed.

(** ** The prices of a body *)

(** The variables with the prices that are printed *)
Definition priced (t : VisualTier) : list (jsstr * num) :=
  (js "p", or0 (Some (input_unit_cost t))) :: (js "c", or0 (Some (output_unit_cost t)))
  :: filter (fun x => num_true x.2 = true) (zip EXTRAS (extra_costs t)).

Definition priced_texts (t : VisualTier) : list (jsstr * jsstr) := prod_map id num_str <$> priced t.

Lemma body_terms t : buildTierBodyExpr t = str_join (js " + ") ((fun x => term_text x.1 x.2) <$> priced_texts t).
Proof.
  rewrite print_body. unfold body_text, priced_texts, priced. rewrite !fmap_cons, str_join_cons, fmap_cons. cbn [concat fst snd prod_map].
  f_equal. replace (js " + ") with [32; 43; 32]%N by (by vm_compute). f_equal.
  generalize EXTRAS as vs, (extra_costs t) as xs. intros vs. induction vs as [|v vs IH]; intros xs; [done|].
  destruct xs as [|x xs]; [done|]. rewrite fmap_cons. cbn [zip zip_with]. rewrite filter_cons. unfold cost_text at 1. cbn [snd].
  destruct (num_true x) eqn:E.
  - rewrite decide_True by done. rewrite !fmap_cons. cbn [concat opt_text]. by rewrite IH.
  - rewrite decide_False by done. cbn [opt_text]. apply IH.
Qed.

Lemma priced_vars t : NoDup (priced t).*1 ∧ Forall (fun v => v ∈ PRICE_VARS) (priced t).*1.
Proof.
  assert ((filter (fun x : jsstr * num => num_true x.2 = true) (zip EXTRAS (extra_costs t))).*1 `sublist_of` EXTRAS) as Hsub.
  { generalize EXTRAS as vs, (extra_costs t) as xs. intros vs. induction vs as [|v vs IH]; intros xs; [done|].
    destruct xs as [|x xs]; [apply sublist_nil_l|]. cbn [zip zip_with]. rewrite filter_cons.
    destruct (decide _); [rewrite fmap_cons; by apply sublist_skip|by apply sublist_cons]. }
  assert ((priced t).*1 `sublist_of` PRICE_VARS) as Hp by (unfold priced; rewrite !fmap_cons; by do 2 apply sublist_skip).
  split.
  - eapply sublist_NoDup; [|exact Hp]. decided.
  - apply Forall_forall. intros v Hv. by eapply elem_of_sublist.
Qed.

(** No variable occurs twice, so the first number is the only one. *)
Lemma coeffs_fold l acc : NoDup (acc.*1 ++ l.*1) →
  foldl (fun coeffs m => if mget (cap 1 m) coeffs then coeffs else mset (cap 1 m) (Number_str (cap 2 m)) coeffs) acc (term_caps <$> l)
  = acc ++ (prod_map id Number_str <$> l).
Proof.
  revert acc. induction l as [|[v w] l IH]; intros acc Hnd; [simpl; by rewrite app_nil_r|].
  rewrite fmap_cons. cbn [foldl]. cbn [term_caps cap fst snd]. change (cap 1 (term_caps (v, w))) with v. change (cap 2 (term_caps (v, w))) with w.
  assert (v ∉ acc.*1) as Hv.
  { rewrite fmap_cons in Hnd. apply NoDup_app in Hnd as (_ & H & _). intros Hin. apply (H v Hin). constructor. }
  assert (mget v acc = None) as E by (by apply mget_None). rewrite E.
  assert (mset v (Number_str w) acc = acc ++ [(v, Number_str w)]) as ->.
  { clear -Hv. induction acc as [|[k x] acc IH]; [done|]. rewrite fmap_cons in Hv. cbn [mset app].
    rewrite decide_False by set_solver. rewrite IH by set_solver. done. }
  rewrite IH; [by rewrite <- app_assoc|]. rewrite fmap_app, <- app_assoc. exact Hnd.
Qed.

Lemma coeffs_of t : tier_ok t → body_coeffs (buildTierBodyExpr t) = priced t.
Proof.
  intros [_ _ Hi Ho Hx]. destruct (priced_vars t) as [Hnd Hvars].
  assert (Forall (fun x => is_canonical x.2) (priced t)) as Hcan.
  { constructor; [done|]. constructor; [done|]. apply Forall_forall. intros [v x] Hin. apply list_elem_of_filter in Hin as [_ Hin].
    apply elem_of_zip_r in Hin. rewrite Forall_forall in Hx. by apply Hx. }
  unfold body_coeffs. rewrite body_terms, match_terms.
  - rewrite coeffs_fold.
    + cbn [app]. unfold priced_texts. rewrite <- list_fmap_compose. rewrite <- (list_fmap_id (priced t)) at 2.
      apply list_fmap_ext. intros i [v x] Hi'. cbn. f_equal. apply Number_num_str.
      rewrite Forall_forall in Hcan. by apply (Hcan (v, x)), (list_elem_of_lookup_2 _ i).
    + cbn [app fmap list_fmap]. unfold priced_texts. rewrite <- list_fmap_compose. exact Hnd.
  - done.
  - unfold priced_texts. rewrite Forall_fmap. rewrite Forall_fmap in Hvars. 
    apply Forall_forall. intros [v x] Hin. rewrite Forall_forall in Hvars, Hcan. split; [by apply (Hvars (v, x))|].
    apply canonical_numeral. by apply (Hcan (v, x)).
Qed.

Lemma mget_filter_zip vs xs i v x : NoDup vs → vs !! i = Some v → xs !! i = Some x →
  mget v (filter (fun x : jsstr * num => num_true x.2 = true) (zip vs xs)) = if num_true x then Some x else None.
Proof.
  revert xs i. induction vs as [|u vs IH]; intros xs i Hnd Hv Hx; [done|]. apply NoDup_cons in Hnd as [Hu Hnd].
  destruct xs as [|y xs]; [done|]. cbn [zip zip_with]. rewrite filter_cons. destruct i as [|i]; simpl in Hv, Hx; simplify_eq.
  - cbn [snd]. destruct (decide (num_true x = true)) as [E|E].
    + rewrite E. cbn [mget]. by rewrite decide_True.
    + apply not_true_is_false in E. rewrite E. apply mget_None. intros Hin. apply Hu.
      unfold mkeys in Hin. apply list_elem_of_fmap in Hin as ([k z] & -> & Hin). apply list_elem_of_filter in Hin as [_ Hin].
      by apply elem_of_zip_l in Hin.
  - assert (v ≠ u) as Hne by (intros ->; apply Hu; by eapply list_elem_of_lookup_2).
    destruct (decide _); [cbn [mget]; rewrite decide_False by done|]; by eapply IH.
Qed.

(** The prices under the names of the price pages *)
Definition prices_of (t : VisualTier) : list (jsstr * num) :=
  zip (BILLING_VAR_KEY_TO_FIELD.*2) (or0 (Some (input_unit_cost t)) :: or0 (Some (output_unit_cost t)) :: extra_costs t).

Lemma extra_price t i v x : EXTRAS !! i = Some v → extra_costs t !! i = Some (or0 x) → or0 (mget v (priced t)) = or0 x.
Proof.
  intros Hv Hx. assert (v ∈ EXTRAS) as Hin by (by eapply list_elem_of_lookup_2).
  assert (v ≠ js "p" ∧ v ≠ js "c") as [Hp Hc] by (unfold EXTRAS in Hin; by each Hin).
  unfold priced. cbn [mget]. rewrite !decide_False by done. rewrite (mget_filter_zip _ _ i v (or0 x)); [|decided|done|done].
  destruct (num_true (or0 x)) eqn:E; [apply or0_idemp|]. by rewrite (or0_false x).
Qed.

Lemma read_prices t : tier_ok t → parseTierBody (buildTierBodyExpr t) = prices_of t.
Proof.
  intros Ht. unfold parseTierBody. rewrite (coeffs_of t Ht).
  assert (BILLING_VAR_KEY_TO_FIELD = zip PRICE_VARS (BILLING_VAR_KEY_TO_FIELD.*2)) as E by (by vm_compute). rewrite E at 1.
  unfold prices_of. set (fs := BILLING_VAR_KEY_TO_FIELD.*2).
  assert (∃ f0 f1 f2 f3 f4 f5 f6 f7 f8, fs = [f0; f1; f2; f3; f4; f5; f6; f7; f8]) as (f0 & f1 & f2 & f3 & f4 & f5 & f6 & f7 & f8 & ->).
  { do 9 eexists. vm_compute. reflexivity. }
  assert (or0 (mget (js "p") (priced t)) = or0 (Some (input_unit_cost t))) as H0 by apply or0_idemp.
  assert (or0 (mget (js "c") (priced t)) = or0 (Some (output_unit_cost t))) as H1 by apply or0_idemp.
  pose proof (extra_price t 0 _ (cache_read_unit_cost t) eq_refl eq_refl) as E0.
  pose proof (extra_price t 1 _ (cache_create_unit_cost t) eq_refl eq_refl) as E1.
  pose proof (extra_price t 2 _ (cache_create_1h_unit_cost t) eq_refl eq_refl) as E2.
  pose proof (extra_price t 3 _ (image_unit_cost t) eq_refl eq_refl) as E3.
  pose proof (extra_price t 4 _ (image_output_unit_cost t) eq_refl eq_refl) as E4.
  pose proof (extra_price t 5 _ (audio_input_unit_cost t) eq_refl eq_refl) as E5.
  pose proof (extra_price t 6 _ (audio_output_unit_cost t) eq_refl eq_refl) as E6.
  set (m := priced t) in *. clearbody m. unfold PRICE_VARS, EXTRAS. cbn [zip zip_with fmap list_fmap].
  by rewrite H0, H1, E0, E1, E2, E3, E4, E5, E6.
Qed.

(** ** The tiers *)

Definition price_caps (p : tier_print) : list (option jsstr) :=
  [Some (tp_text p); match tp_conds p with [] => None | l => Some (comparisons_text l) end; Some (tp_label p);
   Some (body_text (tp_in p) (tp_out p) (tp_extras p))].

Lemma numeral_no_paren w : numeral w → Forall (fun c => negb (c =? 41)%N = true) w.
Proof. intros [_ H]. eapply Forall_impl; [exact H|]. intros c. unfold numeral_unit, is_digit. lia. Qed.

Lemma body_no_paren p : tp_ok p → Forall (fun c => negb (c =? 41)%N = true) (body_text (tp_in p) (tp_out p) (tp_extras p)).
Proof.
  intros [_ _ Hi Ho _ Hx]. unfold body_text, plus_text, term_text. repeat (apply Forall_app; split); try decided; try (by apply numeral_no_paren).
  revert Hx. generalize (tp_extras p) as xs. assert (Forall (fun v => Forall (fun c => negb (c =? 41)%N = true) v) EXTRAS) as Hv by decided.
  revert Hv. generalize EXTRAS as vs. intros vs Hv. induction Hv as [|v vs Hv _ IH]; intros xs Hx; [constructor|].
  destruct xs as [|[w|] xs]; [constructor| |]; apply Forall_cons in Hx as [Hw Hx]; cbn [opt_text]; [|by apply IH].
  unfold plus_text, term_text. repeat (apply Forall_app; split); try decided; [done|by apply numeral_no_paren, Hw|by apply IH].
Qed.

Lemma price_head_eats p c1 t : tp_ok p →
  eats (tier_head 2 (RSeq (RGroup 3 (RPlus (RChar (fun c => negb (c =? 41)%N)))) (RUnit 41%N)))
    (tier_text (tp_label p) (tp_in p) (tp_out p) (tp_extras p)) [None; c1; None; None]
    [None; c1; Some (tp_label p); Some (body_text (tp_in p) (tp_out p) (tp_extras p))] t.
Proof.
  intros Hp. pose proof (body_no_paren p Hp) as Hb. destruct Hp as [_ Hl _ _ _ _]. unfold tier_head, tier_text.
  eapply eats_seq; [apply eats_lit|].
  eapply eats_seq; [apply eats_group, eats_run; [|before]|].
  { eapply Forall_impl; [exact Hl|]. intros d Hd. by apply negb_true_iff, N.eqb_neq. }
  eapply eats_seq; [apply eats_lit|].
  eapply eats_seq; [apply ws_one; rewrite <- app_assoc; apply body_not_space|].
  eapply eats_seq; [|apply eats_unit].
  change [None; c1; Some (tp_label p); Some (body_text (tp_in p) (tp_out p) (tp_extras p))]
    with (<[3 := Some (body_text (tp_in p) (tp_out p) (tp_extras p))]> [None; c1; Some (tp_label p); None]).
  apply eats_group, eats_run1; [|done|before].
  unfold body_text, term_text. intros H. apply (f_equal length) in H. rewrite !length_app in H. simpl in H. lia.
Qed.

Lemma price_part_eats p t : tp_ok p → ∃ c, eats price_tier_regex (tp_text p) (replicate 4 None) c t ∧ <[0 := Some (tp_text p)]> c = price_caps p.
Proof.
  intros Hp. pose proof (price_head_eats p) as H. unfold price_caps, tp_text, part_text. destruct (tp_conds p) as [|x l] eqn:E.
  - eexists. split; [apply eats_seq with (c1 := replicate 4 None); [|by apply H]|reflexivity].
    apply eats_opt_none. unfold tier_text. rewrite <- !app_assoc. apply prefix_stuck.
  - eexists [None; Some (comparisons_text (x :: l)); _; _]. split; [|reflexivity]. eapply eats_seq; [|by apply H].
    apply eats_alt_l. rewrite <- E. apply prefix_eats; [by rewrite E|apply Hp|apply tier_text_head].
Qed.

Lemma price_regex_stuck d t : d ∈ [32; 58]%N → stuck price_tier_regex (d :: t).
Proof.
  intros Hd. apply stuck_opt_seq.
  - apply stuck_seq, stuck_group, stuck_seq. intros X k b c. each Hd; reflexivity.
  - apply stuck_seq, stuck_lit. each Hd; reflexivity.
Qed.

Lemma match_prices ps tl : Forall tp_ok ps → ps ≠ [] → 116%N ∉ tl →
  match_all 3 price_tier_regex (str_join (js " : ") (tp_text <$> ps) ++ tl) = price_caps <$> ps.
Proof.
  intros Hps Hne Htl. apply (match_all_pieces 3 price_tier_regex (js " : ") tl tp_text price_caps tp_ok);
    [apply tp_text_nonempty| | | | |done|done].
  - intros b. replace (js " : ") with [32; 58; 32]%N by (by vm_compute). by intros c b' [= <- _].
  - intros p t b Hp _ _. destruct (price_part_eats p t Hp) as (c & He & <-). by apply exec_from_eats.
  - intros s b. replace (js " : ") with [32; 58; 32]%N by (by vm_compute). cbn [app].
    by do 3 (rewrite exec_from_stuck by (apply price_regex_stuck; decided)).
  - intros b. apply (exec_from_reads 3 _ 116); [|done]. right. left.
    replace (dq "tier('") with [116; 105; 101; 114; 40; 34]%N by (by vm_compute). left. intros d Hd. simpl in Hd. by apply N.eqb_eq in Hd.
Qed.

Lemma no_version d u : d ≠ 118%N → stripExprVersion (d :: u) = (num_of_Z 1, d :: u).
Proof.
  intros Hd. unfold stripExprVersion. cbn [str_true]. rewrite str_match_anchored. unfold exec_at. cbn [RCat].
  cbn [rmatch before rest RUnit]. by rewrite (proj2 (N.eqb_neq d 118)).
Qed.

(** What the pages show of a printed tier *)
Definition shown (p : tier_print) : ParsedTier :=
  mkParsed (tp_label p) (read_comparison <$> tp_conds p) (parseTierBody (body_text (tp_in p) (tp_out p) (tp_extras p))).

Lemma parse_prices ps tl : Forall tp_ok ps → ps ≠ [] → 116%N ∉ tl →
  parseTiersFromExpr (str_join (js " : ") (tp_text <$> ps) ++ tl) = shown <$> ps.
Proof.
  intros Hps Hne Htl. unfold parseTiersFromExpr.
  assert (snd (stripExprVersion (str_join (js " : ") (tp_text <$> ps) ++ tl)) = str_join (js " : ") (tp_text <$> ps) ++ tl
    ∧ str_true (str_join (js " : ") (tp_text <$> ps) ++ tl) = true) as [-> ->].
  { destruct ps as [|p ps]; [done|]. apply Forall_cons in Hps as [Hp _]. rewrite fmap_cons, str_join_cons, <- app_assoc.
    edestruct (tp_head p) as (d & t & E & Hd); [done|]. rewrite E. split; [|done].
    rewrite no_version; [done|]. intros ->. by each Hd. }
  rewrite match_prices, <- list_fmap_compose by done. apply list_fmap_ext. intros i p Hi.
  rewrite Forall_lookup in Hps. destruct (Hps i p Hi) as [Hc _ _ _ _ _].
  unfold shown, compose. f_equal. rewrite <- parse_comparisons by done. unfold price_caps. cbn. by destruct (tp_conds p).
Qed.

Lemma shown_tier cs lbl t : tier_ok t → Forall cond_ok cs →
  shown (print_tier cs lbl t) = mkParsed lbl (tier_conditions (reread cs lbl t)) (prices_of (reread cs lbl t)).
Proof.
  intros Ht Hcs. unfold shown, print_tier. cbn [tp_label tp_conds tp_in tp_out tp_extras].
  rewrite reread_conds, <- print_body, read_prices by done. unfold prices_of. rewrite reread_extras.
  cbn [reread tier_conditions input_unit_cost output_unit_cost]. by rewrite !or0_idemp.
Qed.

Lemma shown_tiers_text i ts : Forall tier_ok ts →
  shown <$> print_tiers i ts = (fun t => mkParsed (label t) (tier_conditions t) (prices_of t)) <$> reread_tiers i ts.
Proof.
  intros H. revert i. induction H as [|t ts Ht Hts IH]; intros i; [done|]. cbn [print_tiers reread_tiers]. rewrite !fmap_cons, IH. f_equal.
  apply shown_tier; [done|]. destruct ts; [constructor|apply Ht].
Qed.

(** On the expression the editor prints, the parser of the price pages finds the
    tiers that the editor itself would read back: the same labels, the same
    conditions, and under every price field the price of that tier. *)
Theorem price_pages_agree ts : ts ≠ [] → Forall tier_ok ts →
  parseTiersFromExpr (generateExprFromVisualConfig (Some (mkConfig ts)))
  = (fun t => mkParsed (label t) (tier_conditions t) (prices_of t)) <$> reread_config ts.
Proof.
  intros Hne Hok. destruct ts as [|t [|t' ts]]; [done|..]; cbn [reread_config].
  - apply Forall_cons in Hok as [Ht _]. rewrite generate_one. set (lbl := str_or (label t) (js "default")).
    assert (tp_ok (print_tier (tier_conditions t) lbl t)) as Hp.
    { apply print_ok; [done|apply Ht|apply label_quotes; [apply Ht|decided]]. }
    pose proof (parse_prices [print_tier (tier_conditions t) lbl t]) as H. cbn [fmap list_fmap str_join] in H |- *.
    rewrite H; [|by constructor|done|destruct (complete _); decided]. rewrite shown_tier; [done|done|apply Ht].
  - rewrite generate_several, <- (app_nil_r (str_join _ _)), parse_prices; [by apply shown_tiers_text|by apply print_tiers_ok|done|set_solver].
Qed.

Lemma price_pages_agree_witness :
  parseTiersFromExpr (generateExprFromVisualConfig (Some sample_config))
  = (fun t => mkParsed (label t) (tier_conditions t) (prices_of t)) <$> reread_config (tiers sample_config).
Proof. apply (price_pages_agree (tiers sample_config)); [done|]. apply tiers_check. vm_compute. reflexivity. Defined.

End TierPrices.
