(* ===== verification/TierEditor.v ===== *)
(** * The editor of tiered prices
    (src/web/src/features/system-settings/models/tiered-pricing-editor.tsx)

    The state of the editor and the two expressions its parent keeps: the billing
    expression and the request rules.  The visual editor works on tiers and rule
    groups, the expression editor on one text that combines them; switching
    between them prints and parses.  Effects report what the editor shows to the
    parent. *)

From Stdlib Require Import ZifyBool ZifyN.
From S2P Require Import Prelude JsString JsValue JsJson JsNumber JsRegex BillingRules RuleRoundtrip TierExpr TierRoundtrip.

Module TierEditor.
Import BillingRules RuleRoundtrip TierExpr TierRoundtrip.

(** ** The cards of the visual editor *)

Definition with_conditions (tier : VisualTier) (cs : list TierConditionInput) : VisualTier :=
  mkTier (label tier) cs (input_unit_cost tier) (output_unit_cost tier) (cache_mode tier)
    (cache_read_unit_cost tier) (cache_create_unit_cost tier) (cache_create_1h_unit_cost tier)
    (image_unit_cost tier) (image_output_unit_cost tier) (audio_input_unit_cost tier) (audio_output_unit_cost tier).

(** The elements but one *)
Definition remove_at {A} (i : nat) (l : list A) : list A := take i l ++ drop (S i) l.

Definition handleConditionChange (tier : VisualTier) (conditionIndex : nat) (next : TierConditionInput) : VisualTier :=
  with_conditions tier (<[conditionIndex := next]> (tier_conditions tier)).

Definition handleConditionRemove (tier : VisualTier) (conditionIndex : nat) : VisualTier :=
  with_conditions tier (remove_at conditionIndex (tier_conditions tier)).

(** The fields of a tier that hold a price *)
Inductive PriceField :=
| InputCost | OutputCost | CacheRead | CacheCreate | CacheCreate1h | ImageIn | ImageOut | AudioIn | AudioOut.

(** What a number field passes on for its text *)
Definition parseNumberDraft (value : jsstr) : num :=
  if bool_decide (trim value = []) then num_of_Z 0
  else let next := Number_str value in if num_isFinite next then next else num_of_Z 0.

Definition handlePriceChange (tier : VisualTier) (f : PriceField) (v : num) : VisualTier :=
  let '(mkTier l cs i o m cr cc c1 im io ai ao) := tier in
  match f with
  | InputCost => mkTier l cs v o m cr cc c1 im io ai ao
  | OutputCost => mkTier l cs i v m cr cc c1 im io ai ao
  | CacheRead => mkTier l cs i o m (Some v) cc c1 im io ai ao
  | CacheCreate => mkTier l cs i o m cr (Some v) c1 im io ai ao
  | CacheCreate1h => mkTier l cs i o m cr cc (Some v) im io ai ao
  | ImageIn => mkTier l cs i o m cr cc c1 (Some v) io ai ao
  | ImageOut => mkTier l cs i o m cr cc c1 im (Some v) ai ao
  | AudioIn => mkTier l cs i o m cr cc c1 im io (Some v) ao
  | AudioOut => mkTier l cs i o m cr cc c1 im io ai (Some v)
  end.

Definition handleCacheModeChange (tier : VisualTier) (mode : CacheMode) : VisualTier :=
  let '(mkTier l cs i o _ cr cc c1 im io ai ao) := tier in
  mkTier l cs i o mode cr cc
    (Some (match mode with CACHE_MODE_TIMED => default (num_of_Z 0) c1 | CACHE_MODE_GENERIC => num_of_Z 0 end)) im io ai ao.

Definition handleLabelChange (tier : VisualTier) (l : jsstr) : VisualTier :=
  let '(mkTier _ cs i o m cr cc c1 im io ai ao) := tier in mkTier l cs i o m cr cc c1 im io ai ao.

(** [config] of the visual editor *)
Definition shown_tiers (visualConfig : option VisualConfig) : list VisualTier := tiers (normalizeVisualConfig visualConfig).

Definition handleTierChange (ts : list VisualTier) (index : nat) (next : VisualTier) : list VisualTier :=
  <[index := normalizeVisualTier (partial_tier next)]> ts.

Definition default_condition (v : jsstr) : TierConditionInput := mkCond v (js "<") (CNum (num_of_Z 200000)).

Definition handleAddTier (ts : list VisualTier) : list VisualTier :=
  let ts :=
    match last ts with
    | Some tier =>
        match tier_conditions tier with
        | [] => <[length ts - 1 := normalizeVisualTier (partial_tier (with_conditions tier [default_condition (js "len")]))]> ts
        | _ => ts
        end
    | None => ts
    end in
  ts ++ [normalizeVisualTier (mkPartialTier (Some (js "tier_" ++ str_of_N (N.of_nat (length ts + 1)))) (Some [])
           (Some (num_of_Z 0)) (Some (num_of_Z 0)) None [])].

Definition handleRemoveTier (ts : list VisualTier) (index : nat) : list VisualTier :=
  match remove_at index ts with [] => ts | ts' => ts' end.

Definition handleAddCondition (ts : list VisualTier) (index : nat) : list VisualTier :=
  match ts !! index with
  | Some tier =>
      if 2 <=? length (tier_conditions tier) then ts
      else
        let nextVar := if bool_decide (js "len" ∈ ci_var <$> tier_conditions tier) then js "c" else js "len" in
        <[index := with_conditions tier (tier_conditions tier ++ [default_condition nextVar])]> ts
  | None => ts
  end.

(** ** Rule groups *)

Definition handleRuleConditionChange (g : RequestRuleGroup) (i : nat) (next : RequestCondition) : RequestRuleGroup :=
  mkGroup (<[i := next]> (conditions g)) (multiplier g) (conditionText g) (matched g).
Definition handleAddRuleCondition (g : RequestRuleGroup) (timeMode : bool) : RequestRuleGroup :=
  mkGroup (conditions g ++ [if timeMode then CTime createEmptyTimeCondition else CParamHeader createEmptyCondition])
    (multiplier g) (conditionText g) (matched g).
Definition handleRemoveRuleCondition (g : RequestRuleGroup) (i : nat) : RequestRuleGroup :=
  mkGroup (remove_at i (conditions g)) (multiplier g) (conditionText g) (matched g).

Definition handleSourceChange (condition : RequestCondition) (source : jsstr) : RequestCondition :=
  if bool_decide (source = SOURCE_TIME) then CTime createEmptyTimeCondition
  else if bool_decide (source = SOURCE_HEADER) then CParamHeader (mkPH Header [] MATCH_EQ [])
  else if bool_decide (source = SOURCE_PARAM) then CParamHeader (mkPH Param [] MATCH_EQ [])
  else condition.

Definition handleRuleModeChange (condition : RequestCondition) (mode : jsstr) : RequestCondition :=
  match condition with
  | CTime t => CTime (mkTime (timeFunc t) (timezone t) mode (t_value t) (rangeStart t) (rangeEnd t))
  | CParamHeader p => CParamHeader (mkPH (ph_source p) (ph_path p) mode (ph_value p))
  end.

(** ** The editor and its parent *)

Inductive EditorMode := Visual | Raw.

Record editor := mkEditor {
  editorMode : EditorMode;
  visualConfig : option VisualConfig;
  rawExpr : jsstr;
  requestRuleGroups : list RequestRuleGroup;
  (* kept by the parent *)
  currentExpr : jsstr;
  currentRequestRuleExpr : jsstr
}.

(** [combineBillingExpr(expr, rules) || expr] *)
Definition combine_or (expr rules : jsstr) : jsstr := str_or (combineBillingExpr expr rules) expr.

Definition canUseVisualRules (s : editor) : outcome bool :=
  if str_true (currentRequestRuleExpr s) then
    parsed ← tryParseRequestRuleExpr (currentRequestRuleExpr s);
    Returns (match parsed with Some _ => true | None => false end)
  else Returns true.

(** The cards of the rule groups are shown, and not the notice that the
    expression is too complex. *)
Definition rules_editable (s : editor) : outcome bool :=
  can ← canUseVisualRules s;
  Returns (negb (str_true (currentRequestRuleExpr s) && negb can)).

Definition effectiveExpr (s : editor) : outcome jsstr :=
  match editorMode s with
  | Visual => Returns (generateExprFromVisualConfig (visualConfig s))
  | Raw => r ← splitBillingExprAndRequestRules (rawExpr s); Returns (billingExpr r)
  end.

(** *** Effects

    An instance of the component: its state, the flag [initRef], whether it was
    just mounted, and whether the expressions of the parent changed since the last
    commit.  The effects of a commit read the state of the render; the updates they
    make, to the state of the editor and to the parent, are applied together
    afterwards. *)
Record instance := mkInstance { st : editor; initRef : bool; mounting : bool; changed : bool }.

(** The first render *)
Definition mount (expr rules : jsstr) : outcome instance :=
  parsedGroups ← tryParseRequestRuleExpr rules;
  Returns (mkInstance
    (mkEditor Visual (tryParseVisualConfig (Some expr)) (combineBillingExpr expr rules) (default [] parsedGroups) expr rules)
    false true true).

(** The effect that initialises the editor from the expressions of the parent *)
Definition init_effect (s : editor) : outcome editor :=
  parsedGroups ← tryParseRequestRuleExpr (currentRequestRuleExpr s);
  let '(mode, cfg) :=
    match tryParseVisualConfig (Some (currentExpr s)) with
    | Some parsedConfig => (Visual, Some parsedConfig)
    | None =>
        if str_true (currentExpr s) then (Raw, None) else (editorMode s, Some createDefaultVisualConfig)
    end in
  Returns (mkEditor mode cfg (combineBillingExpr (currentExpr s) (currentRequestRuleExpr s)) (default [] parsedGroups)
             (currentExpr s) (currentRequestRuleExpr s)).

(** One commit; an effect whose dependencies did not change would do nothing new,
    except for the first one. *)
Definition commit (i : instance) : outcome instance :=
  let s := st i in
  let runs := changed i && negb (initRef i) in
  s' ← (if runs then init_effect s else Returns s);
  let ref := if mounting i then false else initRef i || runs in
  expr ← effectiveExpr s;
  let rules := match editorMode s with Visual => buildRequestRuleExpr (requestRuleGroups s) | Raw => currentRequestRuleExpr s end in
  Returns (mkInstance (mkEditor (editorMode s') (visualConfig s') (rawExpr s') (requestRuleGroups s') expr rules) ref false
             (bool_decide (expr ≠ currentExpr s) || bool_decide (rules ≠ currentRequestRuleExpr s))).

Fixpoint commits (n : nat) (i : instance) : outcome instance :=
  match n with 0 => Returns i | S n' => i' ← commit i; commits n' i' end.

(** Nothing happens any more. *)
Definition settled (i : instance) : Prop := commit i = Returns i ∧ changed i = false.

Definition handleVisualChange (s : editor) (next : list VisualTier) : editor :=
  mkEditor (editorMode s) (Some (mkConfig next)) (rawExpr s) (requestRuleGroups s) (currentExpr s) (currentRequestRuleExpr s).

Definition handleRuleGroupsChange (s : editor) (next : list RequestRuleGroup) : editor :=
  mkEditor (editorMode s) (visualConfig s) (rawExpr s) next (currentExpr s) (currentRequestRuleExpr s).

Definition handleRawChange (s : editor) (value : jsstr) : outcome editor :=
  r ← splitBillingExprAndRequestRules value;
  Returns (mkEditor (editorMode s) (visualConfig s) value (requestRuleGroups s) (currentExpr s) (requestRuleExpr r)).

Definition handleModeChange (s : editor) (next : EditorMode) : outcome editor :=
  match next with
  | Visual =>
      r ← splitBillingExprAndRequestRules (rawExpr s);
      parsedGroups ← tryParseRequestRuleExpr (requestRuleExpr r);
      Returns (mkEditor Visual (Some (default createDefaultVisualConfig (tryParseVisualConfig (Some (billingExpr r)))))
                 (rawExpr s) (default [] parsedGroups) (currentExpr s) (requestRuleExpr r))
  | Raw =>
      Returns (mkEditor Raw (visualConfig s)
                 (combine_or (generateExprFromVisualConfig (visualConfig s)) (buildRequestRuleExpr (requestRuleGroups s)))
                 (requestRuleGroups s) (currentExpr s) (currentRequestRuleExpr s))
  end.

Record Preset := mkPreset { preset_key : jsstr; preset_expr : jsstr; preset_rules : list RequestRuleGroup }.

(** The presets the editor offers *)
Definition PRESETS : list Preset := [
  mkPreset (js "flat")
    (dq "tier('base', p * 2 + c * 4)")
    [];
  mkPreset (js "claude-opus")
    (dq "tier('base', p * 5 + c * 25 + cr * 0.5 + cc * 6.25 + cc1h * 10)")
    [];
  mkPreset (js "gpt-5.4")
    (dq "len <= 272000 ? tier('standard', p * 2.5 + c * 15 + cr * 0.25) : tier('long_context', p * 5 + c * 22.5 + cr * 0.5)")
    [];
  mkPreset (js "claude-sonnet")
    (dq "len <= 200000 ? tier('standard', p * 3 + c * 15 + cr * 0.3 + cc * 3.75 + cc1h * 6) : tier('long_context', p * 6 + c * 22.5 + cr * 0.6 + cc * 7.5 + cc1h * 12)")
    [];
  mkPreset (js "qwen3-max")
    (dq "len <= 32000 ? tier('short', p * 1.2 + c * 6 + cr * 0.24 + cc * 1.5) : len <= 128000 ? tier('mid', p * 2.4 + c * 12 + cr * 0.48 + cc * 3) : tier('long', p * 3 + c * 15 + cr * 0.6 + cc * 3.75)")
    [];
  mkPreset (js "glm-4.5-air")
    (dq "len < 32000 && c < 200 ? tier('short_output', p * 0.8 + c * 2 + cr * 0.16) : len < 32000 && c >= 200 ? tier('long_output', p * 0.8 + c * 6 + cr * 0.16) : tier('mid_context', p * 1.2 + c * 8 + cr * 0.24)")
    [];
  mkPreset (js "doubao-seed-1.8")
    (dq "len <= 32000 && c <= 200 ? tier('discount', p * 0.8 + c * 2 + cr * 0.16 + cc * 0.17) : len <= 32000 ? tier('short', p * 0.8 + c * 8 + cr * 0.16 + cc * 0.17) : len <= 128000 ? tier('mid', p * 1.2 + c * 16 + cr * 0.16 + cc * 0.17) : tier('long', p * 2.4 + c * 24 + cr * 0.16 + cc * 0.17)")
    [];
  mkPreset (js "gpt-image-1-mini")
    (dq "tier('base', p * 2 + c * 8 + img * 2.5)")
    [];
  mkPreset (js "gemini-2.5-flash")
    (dq "tier('base', p * 0.3 + c * 2.5 + cr * 0.03 + ai * 1.0)")
    [];
  mkPreset (js "gemini-3-pro-image")
    (dq "tier('base', p * 2 + c * 12 + img_o * 120)")
    [];
  mkPreset (js "qwen3-omni-flash")
    (dq "tier('base', p * 0.43 + c * 3.06 + img * 0.78 + ai * 3.81 + ao * 15.11)")
    [];
  mkPreset (js "claude-opus-fast")
    (dq "tier('base', p * 5 + c * 25 + cr * 0.5 + cc * 6.25 + cc1h * 10)")
    [mkGroup [CParamHeader (mkPH Header (js "anthropic-beta") MATCH_CONTAINS (js "fast-mode-2026-02-01"))] (js "6") None None];
  mkPreset (js "gpt-5.4-tiers")
    (dq "len <= 272000 ? tier('standard', p * 2.5 + c * 15 + cr * 0.25) : tier('long_context', p * 5 + c * 22.5 + cr * 0.5)")
    [mkGroup [CParamHeader (mkPH Param (js "service_tier") MATCH_EQ (js "priority"))] (js "2") None None;
     mkGroup [CParamHeader (mkPH Param (js "service_tier") MATCH_EQ (js "flex"))] (js "0.5") None None];
  mkPreset (js "night-discount")
    (dq "tier('base', p * 3 + c * 15)")
    [mkGroup [CTime (mkTime (js "hour") (js "Asia/Shanghai") MATCH_RANGE (js "") (js "21") (js "6"))] (js "0.5") None None];
  mkPreset (js "weekend-discount")
    (dq "tier('base', p * 3 + c * 15)")
    [mkGroup [CTime (mkTime (js "weekday") (js "Asia/Shanghai") MATCH_EQ (js "0") (js "") (js ""))] (js "0.8") None None;
     mkGroup [CTime (mkTime (js "weekday") (js "Asia/Shanghai") MATCH_EQ (js "6") (js "") (js ""))] (js "0.8") None None]].

Definition applyPreset (s : editor) (preset : Preset) : editor :=
  let ruleExpr := buildRequestRuleExpr (preset_rules preset) in
  let combined := combine_or (preset_expr preset) ruleExpr in
  match tryParseVisualConfig (Some (preset_expr preset)) with
  | Some cfg => mkEditor Visual (Some cfg) combined (preset_rules preset) (currentExpr s) ruleExpr
  | None => mkEditor Raw None combined (preset_rules preset) (currentExpr s) ruleExpr
  end.

(** ** Printed tiers inside a billing expression *)

Definition no_parens (s : jsstr) : Prop := Forall (fun c => c ≠ 40 ∧ c ≠ 41)%N s.

Lemma comparisons_flat l : Forall (fun '(v, op, w) => comparison v op w) l →
  Forall (fun c => c ≠ 40 ∧ c ≠ 41 ∧ c ≠ 42)%N (comparisons_text l).
Proof.
  assert (∀ v op w, comparison v op w → Forall (fun c => c ≠ 40 ∧ c ≠ 41 ∧ c ≠ 42)%N (comparison_text v op w)) as H.
  { intros v op w [Hv Hop _ Hw]. unfold comparison_text. rewrite !Forall_app. split_and!; [|decided| |decided|].
    - unfold CONDITION_VARS in Hv. each Hv; decided.
    - unfold CONDITION_OPS in Hop. each Hop; decided.
    - eapply Forall_impl; [exact Hw|]. intros c Hc. unfold cond_unit, is_digit in Hc. lia. }
  intros Hl. destruct l as [|[[v op] w] l]; [constructor|]. rewrite comparisons_text_cons. apply Forall_cons in Hl as [Hc Hl].
  apply Forall_app. split; [by apply H|]. induction Hl as [|[[v' op'] w'] l Hc' Hl IH]; [constructor|].
  rewrite fmap_cons. cbn [concat]. rewrite !Forall_app. split_and!; [decided|by apply H|done].
Qed.

Lemma numeral_parens w : numeral w → no_parens w.
Proof. intros [_ H]. eapply Forall_impl; [exact H|]. intros c. unfold numeral_unit, is_digit. lia. Qed.

Lemma body_parens p : tp_ok p → no_parens (body_text (tp_in p) (tp_out p) (tp_extras p)).
Proof.
  intros [_ _ Hi Ho _ Hx]. unfold no_parens, body_text, plus_text, term_text.
  repeat (apply Forall_app; split); try decided; try (by apply numeral_parens).
  revert Hx. generalize (tp_extras p) as xs. assert (Forall no_parens EXTRAS) as Hv by (repeat constructor; decided).
  revert Hv. generalize EXTRAS as vs. intros vs Hv. induction Hv as [|v vs Hv _ IH]; intros xs Hx; [constructor|].
  destruct xs as [|[w|] xs]; [constructor| |]; apply Forall_cons in Hx as [Hw Hx]; cbn [opt_text]; [|by apply IH].
  unfold plus_text, term_text. repeat (apply Forall_app; split); try decided; [done|by apply numeral_parens, Hw|by apply IH].
Qed.

Lemma tier_seg p : tp_ok p → no_parens (tp_label p) → seg 42 (tier_text (tp_label p) (tp_in p) (tp_out p) (tp_extras p)).
Proof.
  intros Hp Hl.
  assert (tier_text (tp_label p) (tp_in p) (tp_out p) (tp_extras p)
    = js "tier" ++ [40%N] ++ ([34%N] ++ tp_label p ++ [34; 44; 32]%N ++ body_text (tp_in p) (tp_out p) (tp_extras p)) ++ [41%N]) as ->.
  { unfold tier_text. lits. by rewrite <- !app_assoc. }
  apply seg_app; [apply seg_flat; decided| |by right]. apply seg_paren; [done|].
  apply level_flat; [done|]. rewrite !Forall_app. split_and!; [decided|done|decided|by apply body_parens].
Qed.

Lemma tp_seg p : tp_ok p → no_parens (tp_label p) → seg 42 (tp_text p).
Proof.
  intros Hp Hl. unfold tp_text, part_text. pose proof (tier_seg p Hp Hl) as Hs. destruct Hp as [Hc _ _ _ _ _].
  destruct (tp_conds p) as [|x l]; [done|]. rewrite <- app_assoc.
  apply seg_app; [by apply seg_flat, comparisons_flat| |right; by lits].
  apply seg_app; [apply seg_flat; decided|done|right]. unfold tier_text. by lits.
Qed.

Lemma join_seg ps : Forall tp_ok ps → Forall (fun p => no_parens (tp_label p)) ps → seg 42 (str_join (js " : ") (tp_text <$> ps)).
Proof.
  intros Hps Hl. induction Hps as [|p ps Hp Hps IH]; [by split|]. apply Forall_cons in Hl as [Hlp Hl].
  rewrite fmap_cons. destruct ps as [|q ps]; [by apply tp_seg|].
  change (seg 42 (tp_text p ++ js " : " ++ str_join (js " : ") (tp_text <$> q :: ps))).
  apply seg_app; [by apply tp_seg| |right; by lits]. apply seg_app; [apply seg_flat; decided|by apply IH|right].
  apply Forall_cons in Hps as [Hq _]. rewrite fmap_cons, str_join_cons. edestruct (tp_head q) as (d & t & E & Hd); [done|]. rewrite E.
  cbn. intros [= ->]. by each Hd.
Qed.

Lemma tp_end p : visible_end (tp_text p).
Proof. unfold tp_text, part_text. apply visible_end_app. unfold tier_text. do 5 apply visible_end_app. by exists [], 41%N. Qed.

Lemma join_end ps : ps ≠ [] → ∃ u, str_join (js " : ") (tp_text <$> ps) = u ++ [41%N].
Proof.
  intros Hne. destruct ps as [|p ps]; [done|]. clear Hne. revert p. induction ps as [|q ps IH]; intros p.
  - cbn [fmap list_fmap str_join]. unfold tp_text, part_text, tier_text. eexists. rewrite !app_assoc. reflexivity.
  - destruct (IH q) as (u & E). exists (tp_text p ++ js " : " ++ u). rewrite <- !app_assoc, <- E. done.
Qed.

(** ** No rule among the parts of a printed expression *)

Lemma factor_head c u : c ≠ 40%N → tryParseRuleGroupFactor (c :: u) = Returns None.
Proof.
  intros Hc. unfold tryParseRuleGroupFactor, FACTOR_REGEX. cbn [RCat]. rewrite str_match_anchored. unfold exec_at.
  cbn [rmatch before rest RUnit]. by rewrite (proj2 (N.eqb_neq c 40)).
Qed.

Lemma factor_end t : (∀ u, t ≠ u ++ js " : 1)") → tryParseRuleGroupFactor t = Returns None.
Proof.
  intros Ht. unfold tryParseRuleGroupFactor. destruct (str_match 2 FACTOR_REGEX t) eqn:E; [exfalso|done].
  unfold FACTOR_REGEX in E. cbn [RCat] in E. rewrite str_match_anchored in E. unfold exec_at in E.
  destruct (rmatch _ _ Some) as [st|] eqn:Em; [|done]. apply (rmatch_closes (js " : 1)")) in Em as [u Hu]; [by apply (Ht u)|].
  by repeat constructor.
Qed.

(** A part of a product is read as it is. *)
Lemma rule_of_part q : part_ok 42 q →
  tryParseRequestRuleExpr q = (r ← tryParseRuleGroupFactor q; Returns (option_map (fun g => [g]) r)).
Proof.
  intros Hq. pose proof Hq as [_ Ht Hne]. unfold tryParseRequestRuleExpr. rewrite Ht, (proj2 (str_true_spec q)) by done.
  unfold splitTopLevelMultiply. replace (js " * ") with [32; 42; 32]%N by (by vm_compute).
  pose proof (split_top_join 42 [32%N] [q] ltac:(done) ltac:(done) ltac:(done) ltac:(done) ltac:(by constructor)) as E.
  cbn [str_join] in E. rewrite E. cbn [parse_parts]. by destruct (tryParseRuleGroupFactor q) as [|[g|]].
Qed.

(** A base expression whose parts are no rules has no rules. *)
Lemma split_no_rules parts : parts ≠ [] → Forall (part_ok 42) parts → Forall (fun q => ∃ c u, q = c :: u ∧ c ≠ 40%N) parts →
  let text := str_join (js " * ") parts in trim text = text →
  splitBillingExprAndRequestRules text = Returns (mkSplit text []).
Proof.
  intros Hne Hp Hh text Ht. unfold splitBillingExprAndRequestRules. rewrite Ht.
  assert (str_true text = true) as ->.
  { apply str_true_spec. unfold text. destruct parts as [|q parts]; [done|]. apply Forall_cons in Hp as [[_ _ Hq] _]. by apply str_join_nonempty. }
  assert (splitTopLevelMultiply text = parts) as ->.
  { unfold splitTopLevelMultiply, text. replace (js " * ") with [32; 42; 32]%N by (by vm_compute). by apply split_top_join. }
  destruct (_ <=? 1); [done|].
  assert (∃ bases, classify parts = Returns ([], bases)) as [bases ->]; [|by destruct bases as [|? [|]]].
  clear -Hp Hh. induction Hp as [|q parts Hq Hp IH]; [by exists []|]. apply Forall_cons in Hh as [(c & u & -> & Hc) Hh].
  destruct (IH Hh) as [bases Hb]. exists ((c :: u) :: bases). cbn [classify]. by rewrite rule_of_part, factor_head, Hb.
Qed.

(** ** The text a configuration prints *)

Record printable (ts : list VisualTier) : Prop := {
  pt_nonempty : ts ≠ [];
  pt_ok : Forall tier_ok ts;
  pt_labels : Forall (fun t => no_parens (label t)) ts
}.

Lemma label_no_parens s d : no_parens s → no_parens d → no_parens (str_or s d).
Proof. unfold str_or. by destruct (str_true s). Qed.

Lemma print_tiers_labels i ts : Forall (fun t => no_parens (label t)) ts → Forall (fun p => no_parens (tp_label p)) (print_tiers i ts).
Proof.
  intros H. revert i. induction H as [|t ts Ht _ IH]; intros i; [constructor|]. constructor; [|apply IH]. cbn.
  apply label_no_parens; [done|]. apply Forall_app. split; [decided|]. eapply Forall_impl; [apply str_of_N_digits|].
  intros c Hc. unfold is_digit in Hc. lia.
Qed.

(** The printed text: its pieces joined, perhaps with a price of 0 as the last case *)
Lemma printed_text ts : printable ts →
  ∃ ps tl, generateExprFromVisualConfig (Some (mkConfig ts)) = str_join (js " : ") (tp_text <$> ps) ++ tl ∧ ps ≠ [] ∧ Forall tp_ok ps
    ∧ Forall (fun p => no_parens (tp_label p)) ps ∧ (tl = [] ∨ tl = js " : p * 0 + c * 0").
Proof.
  intros [Hne Hok Hl]. destruct ts as [|t [|t' ts]]; [done|..].
  - apply Forall_cons in Hok as [Ht _]. apply Forall_cons in Hl as [Hl _]. rewrite generate_one.
    eexists [_], _. split; [reflexivity|]. split_and!; [done| | |by destruct (complete _); auto].
    + constructor; [|constructor]. apply print_ok; [done|apply Ht|]. apply label_quotes; [apply Ht|decided].
    + constructor; [|constructor]. cbn. apply label_no_parens; [done|decided].
  - rewrite generate_several. exists (print_tiers 0 (t :: t' :: ts)), []. rewrite app_nil_r.
    split_and!; [done|done|by apply print_tiers_ok|by apply print_tiers_labels|by left].
Qed.

Record base_ok (e : jsstr) : Prop := {
  bo_nonempty : e ≠ [];
  bo_trim : trim e = e;
  bo_level : level e 0 = Some 0%Z;
  bo_head : ∀ u, e ≠ 40%N :: u;
  bo_split : splitBillingExprAndRequestRules e = Returns (mkSplit e []);
  bo_no_rule : tryParseRequestRuleExpr ([40%N] ++ e ++ [41%N]) = Returns None
}.

Lemma base_split j tl w : calm 42 j 0 = Some 0%Z → j = w ++ [41%N] → tl = [] ∨ tl = js " : p * 0 + c * 0" →
  (∃ c t, j ++ [] = c :: t ∧ c ∈ [112; 99; 108; 116]%N) → trim (j ++ tl) = j ++ tl →
  splitBillingExprAndRequestRules (j ++ tl) = Returns (mkSplit (j ++ tl) []).
Proof.
  intros Hcalm Ew Htl (c & t & Ec & Hc) Htrim. rewrite app_nil_r in Ec.
  assert (is_ws c = false ∧ c ≠ 40%N) as [Hcw Hc40] by (by each Hc).
  destruct Htl as [-> | ->].
  - rewrite app_nil_r in *. apply (split_no_rules [j]); [done| | |done].
    + constructor; [|constructor]. split; [done|done|]. by rewrite Ec.
    + constructor; [|constructor]. eauto.
  - assert (j ++ js " : p * 0 + c * 0" = str_join (js " * ") [j ++ js " : p"; js "0 + c"; js "0"]) as E.
    { cbn [str_join]. rewrite <- app_assoc. done. }
    rewrite E in *. apply split_no_rules; [done| | |done].
    + repeat (constructor; [|]); [|split; [by vm_compute|by vm_compute|done]|split; [by vm_compute|by vm_compute|done]|constructor].
      split; [eapply calm_app; [exact Hcalm|by vm_compute|right; by vm_compute]| |by rewrite Ec].
      eapply (trim_ends _ c (t ++ js " : p") (j ++ js " : ") 112); [by rewrite Ec|by rewrite <- app_assoc|done|done].
    + repeat (constructor; [|]); [|lits; by eexists _, _|lits; by eexists _, _|constructor]. rewrite Ec. by eexists _, _.
Qed.

Lemma printed_base ts : printable ts → base_ok (generateExprFromVisualConfig (Some (mkConfig ts))).
Proof.
  intros H. destruct (printed_text ts H) as (ps & tl & -> & Hne & Hps & Hl & Htl).
  pose proof (join_seg ps Hps Hl) as [Hcalm Hlevel]. destruct (join_end ps Hne) as (w & Ew).
  assert (∀ z, ∃ d t, str_join (js " : ") (tp_text <$> ps) ++ z = d :: t ∧ d ∈ [112; 99; 108; 116]%N) as Hhead.
  { intros z. destruct ps as [|p ps]; [done|]. apply Forall_cons in Hps as [Hp _]. rewrite fmap_cons, str_join_cons, <- app_assoc. by apply tp_head. }
  set (j := str_join (js " : ") (tp_text <$> ps)) in *. clearbody j. clear Hps Hl Hne.
  assert (∃ v d, j ++ tl = v ++ [d] ∧ d ∈ [41; 48]%N) as (v & d & Ev & Hd).
  { destruct Htl as [-> | ->]; [exists w, 41%N; rewrite app_nil_r; split; [done|decided]|].
    exists (j ++ js " : p * 0 + c * "), 48%N. rewrite <- app_assoc. split; [done|decided]. }
  destruct (Hhead tl) as (c & t & Ec & Hc).
  assert (is_ws c = false) as Hcw by (by each Hc). assert (is_ws d = false) as Hdw by (by each Hd).
  assert (level (j ++ tl) 0 = Some 0%Z) as Hlev.
  { eapply level_app; [exact Hlevel|]. by destruct Htl as [-> | ->]; vm_compute. }
  assert (trim (j ++ tl) = j ++ tl) as Htrim by (by eapply trim_ends).
  split; [by rewrite Ec|done|done| | |].
  - intros u. rewrite Ec. intros [= -> _]. by each Hc.
  - by apply (base_split j tl w).
  - rewrite rule_of_part by (by apply paren_part). rewrite factor_end; [done|]. intros u E.
    replace (js " : 1)") with ((js " : " ++ [49%N]) ++ [41%N]) in E by (by vm_compute). rewrite Ev, !app_assoc in E.
    apply app_inj_tail in E as [E _]. apply app_inj_tail in E as [_ ->]. by each Hd.
Qed.

(** ** Text that the visual editor cannot show *)

(** The variables of the conditions that are read *)
Lemma one_condition_var cp m : str_match 3 one_condition cp = Some m → cap 1 m ∈ CONDITION_VARS.
Proof.
  unfold one_condition. rewrite str_match_anchored. unfold exec_at. cbn [RCat].
  destruct (rmatch _ _ Some) as [st|] eqn:E; [|done]. intros [= <-].
  change (rmatch (RGroup 1 (RAny CONDITION_VARS)) (mkM [] cp (replicate 4 None)) (fun st' =>
    rmatch (RSeq ws (RSeq (RGroup 2 (RAny CONDITION_OPS)) (RSeq ws (RSeq (RGroup 3 (RPlus (RChar cond_unit))) REnd)))) st'
      (fun st'' => Some (mkM (before st'') (rest st'') (<[0 := Some (take (length cp - length (rest st'')) cp)]> (caps st''))))) = Some st) in E.
  cbn [rmatch] in E. apply rmatch_any in E as (v & t & Hv & Et & E). cbn [before rest caps] in Et, E.
  change (rmatch (RSeq ws (RSeq (RGroup 2 (RAny CONDITION_OPS)) (RSeq ws (RSeq (RGroup 3 (RPlus (RChar cond_unit))) REnd))))
    (mkM (reverse v ++ []) t [None; Some (take (length cp - length t) cp); None; None])
    (fun st'' => Some (mkM (before st'') (rest st'') (<[0 := Some (take (length cp - length (rest st'')) cp)]> (caps st'')))) = Some st) in E.
  apply (rmatch_caps _ _ _ _ 1) in E as (st' & [= <-] & E); [|decided]. cbn [caps] in E |- *.
  unfold cap. rewrite list_lookup_insert_ne, E by done. cbn. rewrite Et, take_run. done.
Qed.

Lemma parsed_vars condStr : Forall (fun c => ci_var c ∈ CONDITION_VARS) (parse_conditions condStr).
Proof.
  unfold parse_conditions. destruct (str_true condStr); [|constructor]. apply Forall_forall. intros c Hc.
  apply list_elem_of_omap in Hc as (cp & _ & H). destruct (str_match 3 one_condition (trim cp)) as [m|] eqn:E; [|done].
  simpl in H. injection H as <-. by apply one_condition_var in E.
Qed.

(** A printed configuration begins with a letter. *)
Lemma generate_head ts : ts ≠ [] → Forall (fun t => Forall (fun c => ci_var c ∈ CONDITION_VARS) (tier_conditions t)) ts →
  ∃ d u, generateExprFromVisualConfig (Some (mkConfig ts)) = d :: u ∧ d ∈ [112; 99; 108; 116]%N.
Proof.
  assert (∀ lbl t z, ∃ d u, tier_expr lbl t ++ z = d :: u ∧ d ∈ [112; 99; 108; 116]%N) as Ht.
  { intros lbl t z. unfold tier_expr. rewrite <- app_assoc. lits. eexists _, _. split; [reflexivity|decided]. }
  assert (∀ cs z, Forall (fun c => ci_var c ∈ CONDITION_VARS) cs → str_true (buildConditionStr cs) = true →
    ∃ d u, buildConditionStr cs ++ z = d :: u ∧ d ∈ [112; 99; 108; 116]%N) as Hc.
  { intros cs z Hcs Hne. unfold buildConditionStr in *. destruct (filter _ cs) as [|c l] eqn:E; [done|].
    assert (c ∈ filter (fun c => cond_complete c = true) cs) as Hin by (rewrite E; constructor).
    apply list_elem_of_filter in Hin as [_ Hin]. rewrite Forall_forall in Hcs. specialize (Hcs c Hin). unfold CONDITION_VARS in Hcs.
    rewrite fmap_cons, str_join_cons. unfold cond_text at 1. rewrite <- !app_assoc.
    apply elem_of_cons in Hcs as [->|Hcs]; [lits; eexists _, _; split; [reflexivity|decided]|].
    apply elem_of_cons in Hcs as [->|Hcs]; [lits; eexists _, _; split; [reflexivity|decided]|].
    apply list_elem_of_singleton in Hcs as ->. lits. eexists _, _. split; [reflexivity|decided]. }
  intros Hne Hts. destruct ts as [|t [|t' ts]]; [done|..]; apply Forall_cons in Hts as [Hcs _].
  - cbn [generateExprFromVisualConfig]. destruct (str_true _) eqn:E; [by apply Hc|].
    rewrite <- (app_nil_r (tier_expr _ _)). apply Ht.
  - cbn [generateExprFromVisualConfig tier_parts]. rewrite str_join_cons. destruct (str_true _) eqn:E; [rewrite <- app_assoc; by apply Hc|apply Ht].
Qed.

Lemma paren_not_visual u : tryParseVisualConfig (Some (40%N :: u)) = None.
Proof.
  unfold tryParseVisualConfig. rewrite strip_version_id by done.
  assert (str_match 10 single_regex (40%N :: u) = None) as ->.
  { unfold single_regex. rewrite str_match_anchored. unfold exec_at, tier_head. by lits. }
  set (ts := (fun m => read_tier (parse_conditions (cap 1 m)) 2 m) <$> match_all 11 tier_regex (40%N :: u)).
  assert (Forall (fun t => Forall (fun c => ci_var c ∈ CONDITION_VARS) (tier_conditions t)) ts) as Hts.
  { unfold ts. apply Forall_fmap, Forall_true. intros m. apply parsed_vars. }
  clearbody ts. destruct ts as [|t ts]; [done|].
  destruct (generate_head (tiers (normalizeVisualConfig (Some (mkConfig (t :: ts)))))) as (d & v & E & Hd).
  - done.
  - change (Forall (fun t => Forall (fun c => ci_var c ∈ CONDITION_VARS) (tier_conditions t))
      ((fun t => normalizeVisualTier (partial_tier t)) <$> t :: ts)). by apply Forall_fmap.
  - rewrite bool_decide_false; [done|]. intros Heq.
    assert (Some (normalizeVisualConfig (Some (mkConfig (t :: ts)))) = Some (mkConfig (tiers (normalizeVisualConfig (Some (mkConfig (t :: ts))))))) as E' by done.
    rewrite E', E in Heq. unfold strip_ws in Heq. rewrite (filter_cons_True _ 40%N) in Heq by done.
    assert (is_ws d = false ∧ d ≠ 40%N) as [Hw Hd40] by (by each Hd). rewrite filter_cons_True in Heq by done. by injection Heq as ->.
Qed.

(** ** Switching between the editors *)

Definition groups_plain (groups : list RequestRuleGroup) : Prop := Forall (fun g => Forall cond_plain (conditions g)) groups.

(** The groups that are printed can be read back. *)
Definition readable_groups (gs : list RequestRuleGroup) : bool := forallb (fun g => forallb reparsable (conditions g)) gs.

Lemma combine_or_rules e rules : base_ok e → trim rules = rules →
  combine_or e rules = match rules with [] => e | _ => [40%N] ++ e ++ js ") * " ++ rules end
  ∧ combineBillingExpr e rules = combine_or e rules.
Proof.
  intros [Hne Ht _ _ _ _] Hr. unfold combine_or, combineBillingExpr. rewrite Ht, Hr, (proj2 (str_true_spec e)) by done.
  destruct rules as [|c r]; cbn [str_true]; unfold str_or; [by rewrite (proj2 (str_true_spec e))|done].
Qed.

(** The combined text, split again *)
Lemma combined_split e groups : base_ok e → groups_plain groups →
  let rules := buildRequestRuleExpr groups in
  let gs := omap canonical_group groups in
  combineBillingExpr e rules = combine_or e rules
  ∧ splitBillingExprAndRequestRules (combine_or e rules)
    = Returns (if readable_groups gs then mkSplit e rules else mkSplit (combine_or e rules) [])
  ∧ (readable_groups gs = false → ∃ u, combine_or e rules = 40%N :: u).
Proof.
  intros Hb Hg rules gs.
  pose proof (print_groups _ Hg) as Hf. fold gs in Hf.
  destruct (decide (gs = [])) as [E|Hne].
  - rewrite E in Hf |- *. assert (rules = []) as -> by (unfold rules, buildRequestRuleExpr; by apply Forall2_nil_inv_l in Hf as ->).
    destruct (combine_or_rules e [] Hb eq_refl) as [-> E2]. split_and!; [done|apply Hb|done].
  - pose proof (product_trim _ _ Hne Hf) as Ht. pose proof (product_ends _ _ Hne Hf) as (u & _ & Eu & _).
    change (str_join (js " * ") _) with rules in Ht, Eu.
    destruct (combine_or_rules e rules Hb Ht) as [Ec Ec']. destruct Hb as [Hbne Hbt Hbl Hbh _ Hbr].
    pose proof (split_combined e groups) as Hs. cbv zeta in Hs. rewrite Hbt in Hs. fold rules gs in Hs.
    rewrite <- Ec'. split_and!; [done| |].
    + apply Hs; try done. unfold hasFullOuterParens. destruct e as [|c e]; [done|]. cbn [starts_with].
      rewrite bool_decide_false; [done|]. intros <-. by apply (Hbh e).
    + intros _. rewrite Ec', Ec, Eu. by eexists.
Qed.

(** Switching to the expression editor and back: the tiers come back as they are
    printed and the rule groups as they are read - when every printed condition can
    be read back.  Otherwise the visual editor starts again from the default tier
    with a price of 0 and without rules: the prices are lost. *)
Theorem mode_switch_spec s ts :
  editorMode s = Visual → visualConfig s = Some (mkConfig ts) → printable ts → groups_plain (requestRuleGroups s) →
  let gs := omap canonical_group (requestRuleGroups s) in
  ∃ s1 s2, handleModeChange s Raw = Returns s1 ∧ handleModeChange s1 Visual = Returns s2 ∧ editorMode s2 = Visual
    ∧ (if readable_groups gs
       then visualConfig s2 = Some (mkConfig (reread_config ts)) ∧ requestRuleGroups s2 = gs
            ∧ currentRequestRuleExpr s2 = buildRequestRuleExpr (requestRuleGroups s)
            ∧ generateExprFromVisualConfig (visualConfig s2) = generateExprFromVisualConfig (visualConfig s)
       else visualConfig s2 = Some createDefaultVisualConfig ∧ requestRuleGroups s2 = [] ∧ currentRequestRuleExpr s2 = []).
Proof.
  intros Hm Hcfg Hts Hg gs. destruct (combined_split _ _ (printed_base ts Hts) Hg) as (_ & Hsplit & Hparen). fold gs in Hsplit, Hparen.
  pose proof (visual_read_back ts (pt_nonempty _ Hts) (pt_ok _ Hts)) as [Hparse Hagain].
  pose proof (rules_read_back _ Hg) as Hrules. cbv zeta in Hrules. fold gs in Hrules.
  change (forallb _ gs) with (readable_groups gs) in Hrules.
  assert (readable_groups gs = false → tryParseVisualConfig (Some (combine_or (generateExprFromVisualConfig (Some (mkConfig ts)))
    (buildRequestRuleExpr (requestRuleGroups s)))) = None) as Hnone.
  { intros Hr. destruct (Hparen Hr) as [u ->]. apply paren_not_visual. }
  clear Hparen. destruct (readable_groups gs); eexists _, _; cbn [handleModeChange rawExpr]; rewrite Hcfg;
    (split; [reflexivity|]); cbn [rawExpr currentExpr]; rewrite Hsplit; cbn [mbind outcome_bind billingExpr requestRuleExpr].
  - rewrite Hrules, Hparse. split; [reflexivity|]. by split_and!.
  - change (tryParseRequestRuleExpr []) with (Returns (Some (@nil RequestRuleGroup))).
    rewrite (Hnone eq_refl). split; [reflexivity|]. by split_and!.
Qed.

(** A session with every operation of a witness: a tier with a condition and a
    fallback, and a rule that is read back or not *)
Definition sample_tiers : list VisualTier := [
  sample_tier "short" [mkCond (js "len") (js "<") (CNum (num_of_Z 200000))] (num_of_Z 3) (num_of_Z 15) (q10 3 (-1)) (num_of_Z 0);
  sample_tier "" [] (num_of_Z 6) (q10 225 (-1)) (num_of_Z 0) (num_of_Z 0)].

Definition sample_editor (c : RequestCondition) : editor :=
  mkEditor Visual (Some (mkConfig sample_tiers)) [] [mkGroup [c] (js "2") None None] [] [].

Lemma sample_printable : printable sample_tiers.
Proof. split; [done|apply tiers_check; by vm_compute|decided]. Qed.

Lemma mode_switch_spec_witness :
  let fast := CParamHeader (mkPH Header (js "x-beta") MATCH_CONTAINS (js "fast")) in
  let many := CParamHeader (mkPH Param (js "n") MATCH_GT (js "3")) in
  (∃ s1 s2, handleModeChange (sample_editor fast) Raw = Returns s1 ∧ handleModeChange s1 Visual = Returns s2
     ∧ visualConfig s2 = Some (mkConfig (reread_config sample_tiers)) ∧ requestRuleGroups s2 = [mkGroup [fast] (js "2") None None])
  ∧ (∃ s1 s2, handleModeChange (sample_editor many) Raw = Returns s1 ∧ handleModeChange s1 Visual = Returns s2
     ∧ visualConfig s2 = Some createDefaultVisualConfig ∧ requestRuleGroups s2 = []).
Proof.
  cbv zeta. split.
  - destruct (mode_switch_spec (sample_editor (CParamHeader (mkPH Header (js "x-beta") MATCH_CONTAINS (js "fast")))) sample_tiers
      eq_refl eq_refl sample_printable ltac:(repeat constructor; decided)) as (s1 & s2 & H1 & H2 & _ & H).
    destruct H as (Hc & Hg & _). exists s1, s2. split_and!; [done|done|done|]. rewrite Hg. by vm_compute.
  - destruct (mode_switch_spec (sample_editor (CParamHeader (mkPH Param (js "n") MATCH_GT (js "3")))) sample_tiers
      eq_refl eq_refl sample_printable ltac:(repeat constructor; decided)) as (s1 & s2 & H1 & H2 & _ & H).
    destruct H as (Hc & Hg & _). exists s1, s2. by split_and!.
Defined.

(** ** Opening an expression *)

Definition ZERO_PRICE : jsstr := js "p * 0 + c * 0".

Lemma zero_base : base_ok ZERO_PRICE.
Proof. split; [done|by vm_compute..|by vm_compute| |]. all: by vm_compute. Qed.

(** C18. Opening what the editor printed settles after one commit, with the printed
    tiers and rules as they read back, and reports the same two expressions: nothing
    changes for the parent.  Assumed: the tiers print plainly and their labels have no
    parentheses ([printable]), the texts of the rules are plain ([groups_plain]), and the
    rules can be read back ([readable_groups]: no condition on a parameter other than
    equality and existence). *)
Theorem open_printed_spec ts groups : printable ts → groups_plain groups →
  let expr := generateExprFromVisualConfig (Some (mkConfig ts)) in
  let rules := buildRequestRuleExpr groups in
  let gs := omap canonical_group groups in
  readable_groups gs = true →
  ∃ i0 i, mount expr rules = Returns i0 ∧ commit i0 = Returns i ∧ settled i
    ∧ st i = mkEditor Visual (Some (mkConfig (reread_config ts))) (combineBillingExpr expr rules) gs expr rules.
Proof.
  intros Hts Hg expr rules gs Hr.
  pose proof (visual_read_back ts (pt_nonempty _ Hts) (pt_ok _ Hts)) as [Hparse Hagain].
  pose proof (rules_read_back _ Hg) as Hrules. cbv zeta in Hrules. fold gs in Hrules.
  change (forallb _ gs) with (readable_groups gs) in Hrules. rewrite Hr in Hrules.
  pose proof (build_canonical _ Hg) as Hbuild. fold gs rules in Hbuild, Hrules. fold expr in Hparse, Hagain.
  unfold mount. rewrite Hrules, Hparse. cbn [mbind outcome_bind default from_option]. 
  eexists _, _. split; [reflexivity|].
  assert (∀ b r, commit (mkInstance (mkEditor Visual (Some (mkConfig (reread_config ts))) (combineBillingExpr expr rules) gs expr rules) r b b)
    = Returns (mkInstance (mkEditor Visual (Some (mkConfig (reread_config ts))) (combineBillingExpr expr rules) gs expr rules) (if b then false else r) false false)) as Hc.
  { intros b r. unfold commit. cbn [st changed initRef mounting].
    assert (init_effect (mkEditor Visual (Some (mkConfig (reread_config ts))) (combineBillingExpr expr rules) gs expr rules)
      = Returns (mkEditor Visual (Some (mkConfig (reread_config ts))) (combineBillingExpr expr rules) gs expr rules)) as E.
    { unfold init_effect. cbn [currentExpr currentRequestRuleExpr]. rewrite Hrules, Hparse. done. }
    destruct b, r; cbn [andb negb]; rewrite ?E; cbn [mbind outcome_bind effectiveExpr editorMode visualConfig rawExpr requestRuleGroups currentExpr currentRequestRuleExpr orb];
      rewrite Hagain, Hbuild; rewrite !bool_decide_false by naive_solver; done. }
  split; [apply (Hc true)|]. split; [|done]. split; [apply (Hc false)|done].
Qed.

Lemma open_printed_spec_witness :
  let fast := CParamHeader (mkPH Header (js "x-beta") MATCH_CONTAINS (js "fast")) in
  let groups := [mkGroup [fast] (js "2") None None] in
  let expr := generateExprFromVisualConfig (Some (mkConfig sample_tiers)) in
  let rules := buildRequestRuleExpr groups in
  ∃ i0 i, mount expr rules = Returns i0 ∧ commit i0 = Returns i ∧ settled i
    ∧ st i = mkEditor Visual (Some (mkConfig (reread_config sample_tiers))) (combineBillingExpr expr rules) groups expr rules.
Proof.
  cbv zeta.
  exact (open_printed_spec sample_tiers [mkGroup [CParamHeader (mkPH Header (js "x-beta") MATCH_CONTAINS (js "fast"))] (js "2") None None]
    sample_printable ltac:(repeat constructor; decided) ltac:(by vm_compute)).
Defined.

(** The states an unreadable expression goes through *)
Definition raw_instance (raw cur rules : jsstr) (gs : list RequestRuleGroup) (ref ch : bool) : instance :=
  mkInstance (mkEditor Raw None raw gs cur rules) ref false ch.

Lemma raw_commit raw cur rules gs ref ch e : ch && negb ref = false →
  splitBillingExprAndRequestRules raw = Returns (mkSplit e rules) →
  commit (raw_instance raw cur rules gs ref ch) = Returns (raw_instance raw e rules gs ref (bool_decide (e ≠ cur))).
Proof.
  intros Hr Hs. unfold commit, raw_instance. cbn [st changed initRef mounting]. rewrite Hr.
  cbn [mbind outcome_bind effectiveExpr editorMode rawExpr currentRequestRuleExpr currentExpr visualConfig requestRuleGroups]. rewrite Hs.
  cbn [mbind outcome_bind billingExpr]. rewrite (bool_decide_false (rules ≠ rules)) by naive_solver. by rewrite !orb_false_r.
Qed.

Lemma unreadable_run zero expr groups : base_ok zero → tryParseVisualConfig (Some zero) = None → generateExprFromVisualConfig None = zero →
  base_ok expr → tryParseVisualConfig (Some expr) = None → expr ≠ zero →
  groups_plain groups →
  let rules := buildRequestRuleExpr groups in
  let gs := omap canonical_group groups in
  readable_groups gs = true →
  ∃ i0 i, mount expr rules = Returns i0 ∧ commits 4 i0 = Returns i ∧ settled i
    ∧ st i = mkEditor Raw None (combineBillingExpr zero rules) gs zero rules.
Proof.
  intros zero_base Hzp Hgen Hb Hparse Hne Hg rules gs Hr.
  destruct (combined_split expr groups Hb Hg) as (_ & Hs & _). destruct (combined_split zero groups zero_base Hg) as (Ez & Hz & _).
  fold gs in Hs, Hz. rewrite Hr in Hs, Hz. fold rules in Hs, Hz, Ez. rewrite <- Ez in Hz.
  assert (combineBillingExpr expr rules = combine_or expr rules) as Ee by (by apply combined_split). rewrite <- Ee in Hs.
  pose proof (rules_read_back _ Hg) as Hrules. cbv zeta in Hrules. fold gs in Hrules.
  change (forallb _ gs) with (readable_groups gs) in Hrules. rewrite Hr in Hrules. fold rules in Hrules.
  pose proof (build_canonical _ Hg) as Hbuild. fold gs rules in Hbuild.
  assert (str_true expr = true) as Hse by (by apply str_true_spec, Hb).
  assert (str_true zero = true) as Hsz by (by apply str_true_spec, zero_base).
  exists (mkInstance (mkEditor Visual None (combineBillingExpr expr rules) gs expr rules) false true true),
    (raw_instance (combineBillingExpr zero rules) zero rules gs true false).
  split; [unfold mount; by rewrite Hrules, Hparse|].
  assert (commit (mkInstance (mkEditor Visual None (combineBillingExpr expr rules) gs expr rules) false true true)
    = Returns (raw_instance (combineBillingExpr expr rules) zero rules gs false true)) as H1.
  { unfold commit, init_effect. cbn [st changed initRef mounting andb negb currentExpr currentRequestRuleExpr]. rewrite Hrules, Hparse, Hse.
    cbn [mbind outcome_bind effectiveExpr editorMode visualConfig requestRuleGroups rawExpr default from_option currentExpr currentRequestRuleExpr].
    rewrite Hbuild, Hgen.
    rewrite (bool_decide_true (zero ≠ expr)) by done. done. }
  assert (commit (raw_instance (combineBillingExpr expr rules) zero rules gs false true)
    = Returns (raw_instance (combineBillingExpr zero rules) expr rules gs true true)) as H2.
  { unfold commit, init_effect, raw_instance. cbn [st changed initRef mounting andb negb currentExpr currentRequestRuleExpr].
    rewrite Hrules, Hzp, Hsz. cbn [mbind outcome_bind effectiveExpr editorMode visualConfig requestRuleGroups rawExpr default from_option currentExpr currentRequestRuleExpr].
    rewrite Hs. cbn [mbind outcome_bind billingExpr orb]. rewrite (bool_decide_true (expr ≠ zero)) by done. done. }
  cbn [commits]. rewrite H1. cbn [mbind outcome_bind]. rewrite H2. cbn [mbind outcome_bind].
  rewrite (raw_commit _ _ _ _ _ _ zero) by done. cbn [mbind outcome_bind].
  rewrite (raw_commit _ _ _ _ _ _ zero); [|by rewrite andb_false_r|done]. cbn [mbind outcome_bind].
  rewrite bool_decide_false by naive_solver. split; [done|]. split; [|done].
  split; [|done]. rewrite (raw_commit _ _ _ _ _ _ zero) by done. by rewrite bool_decide_false by naive_solver.
Qed.

(** Opening an expression that the visual editor cannot show loses it: the
    effects settle, after four commits, in the expression editor with the price of
    0 in place of the expression, which is also what the parent is told.  (The
    first render reports the expression of an empty visual editor, and the flag
    that protects the state from a second initialisation is cleared by the effect
    on the model name, which also runs on mounting.) *)
Theorem open_unreadable_spec expr groups : base_ok expr → tryParseVisualConfig (Some expr) = None → expr ≠ ZERO_PRICE →
  groups_plain groups →
  let rules := buildRequestRuleExpr groups in
  let gs := omap canonical_group groups in
  readable_groups gs = true →
  ∃ i0 i, mount expr rules = Returns i0 ∧ commits 4 i0 = Returns i ∧ settled i
    ∧ st i = mkEditor Raw None (combineBillingExpr ZERO_PRICE rules) gs ZERO_PRICE rules.
Proof. apply unreadable_run; [apply zero_base|by vm_compute|done]. Qed.

Lemma open_unreadable_spec_witness :
  ∃ i0 i, mount (dq "tier('base', max(p, 1) * 2)") [] = Returns i0 ∧ commits 4 i0 = Returns i ∧ settled i
    ∧ st i = mkEditor Raw None ZERO_PRICE [] ZERO_PRICE [].
Proof.
  destruct (open_unreadable_spec (dq "tier('base', max(p, 1) * 2)") []) as (i0 & i & H0 & H4 & Hs & E).
  - split; by vm_compute.
  - by vm_compute.
  - done.
  - constructor.
  - done.
  - exists i0, i. split_and!; try done.
Defined.

(** ** The visual editor *)

(** What the cards of a tier offer: its label, the rows of its conditions, whose
    numbers come from number fields, and its prices *)
Inductive card_step : VisualTier → VisualTier → Prop :=
| cs_label t l : card_step t (handleLabelChange t l)
| cs_condition t i v op x : v ∈ CONDITION_VARS → op ∈ CONDITION_OPS →
    card_step t (handleConditionChange t i (mkCond v op (CNum (parseNumberDraft x))))
| cs_remove_condition t i : card_step t (handleConditionRemove t i)
| cs_price t f x : card_step t (handlePriceChange t f (parseNumberDraft x))
| cs_mode t m : card_step t (handleCacheModeChange t m).

Inductive editor_step (ts : list VisualTier) : list VisualTier → Prop :=
| es_tier i t t' : ts !! i = Some t → card_step t t' → editor_step ts (handleTierChange ts i t')
| es_add : editor_step ts (handleAddTier ts)
| es_remove i : editor_step ts (handleRemoveTier ts i)
| es_add_condition i : editor_step ts (handleAddCondition ts i).

(** A condition with a variable and an operator of the lists and a decimal number *)
Definition cond_shape (c : TierConditionInput) : Prop :=
  ci_var c ∈ CONDITION_VARS ∧ ci_op c ∈ CONDITION_OPS ∧ ∃ x, ci_value c = CNum x ∧ is_canonical x.

Record tier_shape (t : VisualTier) : Prop := {
  ts_count : length (tier_conditions t) ≤ 2;
  ts_conditions : Forall cond_shape (tier_conditions t);
  ts_prices : Forall is_canonical (input_unit_cost t :: output_unit_cost t :: extra_costs t)
}.

Lemma or0_canonical x : (∀ y, x = Some y → is_canonical y) → is_canonical (or0 x).
Proof.
  intros H. assert (is_canonical (num_of_Z 0)) as H0 by (split; [done|]; by exists 0).
  unfold or0. destruct x as [y|]; [|done]. destruct (num_true y); [by apply H|done].
Qed.

Lemma draft_canonical x : is_canonical (parseNumberDraft x).
Proof.
  assert (is_canonical (num_of_Z 0)) as H0 by (split; [done|]; by exists 0).
  unfold parseNumberDraft. destruct (bool_decide _); [done|]. destruct (Number_str x) as [| |q] eqn:E; [done|done|].
  cbn [num_isFinite]. by apply Number_canonical in E.
Qed.

Lemma draft_or0 x : is_canonical (or0 (Some (parseNumberDraft x))).
Proof. apply or0_canonical. intros y [= <-]. apply draft_canonical. Qed.

Lemma shape_card t t' : tier_shape t → card_step t t' → tier_shape t'.
Proof.
  intros [Hn Hc Hp] Hs. destruct Hs as [t l|t i v op x Hv Hop|t i|t f x|t m]; destruct t as [l0 cs a b m0 x1 x2 x3 x4 x5 x6 x7].
  - by split.
  - split; cbn [handleConditionChange with_conditions tier_conditions]; [by rewrite length_insert| |done].
    apply Forall_insert; [done|]. split_and!; [done|done|]. eexists. split; [reflexivity|apply draft_canonical].
  - split; cbn [handleConditionRemove with_conditions tier_conditions]; [| |done]; unfold remove_at.
    + rewrite length_app, length_take, length_drop. cbn [tier_conditions] in Hn. lia.
    + apply Forall_app. split; [by apply Forall_take|by apply Forall_drop].
  - pose proof (draft_or0 x) as Hd. pose proof (draft_canonical x) as Hd'. unfold extra_costs in *. cbn in *.
    repeat (apply Forall_cons in Hp as [? Hp]). destruct f; (split; [done|done|]); cbn; by repeat constructor.
  - unfold extra_costs in *. cbn in *. repeat (apply Forall_cons in Hp as [? Hp]). split; [done|done|]. cbn.
    assert (is_canonical (or0 None)) as Hz by (by apply or0_canonical).
    repeat (apply Forall_cons; split); try done. destruct m; [destruct x3 as [y|]; [done|exact Hz]|exact Hz].
Qed.

(** Normalising keeps the conditions and makes the prices plain. *)
Lemma normal_extras t : extra_costs (normalizeVisualTier (partial_tier t)) = extra_costs t.
Proof.
  assert (∀ i k v, ((tier_fields t).*1) !! i = Some k → (tier_fields t).*2 !! i = Some v →
    or0 (mget k (pt_extras (partial_tier t))) = or0 v) as H.
  { intros i k v Hk Hv. cbn [partial_tier pt_extras].
    assert (NoDup ((tier_fields t).*1)) as Hnd by (change ((tier_fields t).*1) with ((tier_fields (mkTier [] [] NaN NaN CACHE_MODE_TIMED None None None None None None None)).*1); decided).
    revert i Hk Hv. generalize (tier_fields t) as l, Hnd. clear. intros l. induction l as [|[k0 v0] l IH]; intros Hnd i Hk Hv; [done|].
    rewrite fmap_cons in Hnd. apply NoDup_cons in Hnd as [Hk0 Hnd]. cbn [omap list_omap]. destruct i as [|i]; simpl in Hk, Hv; simplify_eq.
    - destruct v as [v|]; cbn [fmap option_fmap option_map].
      + cbn [mget]. by rewrite decide_True.
      + assert (mget k (omap (fun '(k, v) => (fun x => (k, x)) <$> v) l) = None) as ->; [|done].
        apply mget_None. intros Hin. apply Hk0. unfold mkeys in Hin. apply list_elem_of_fmap in Hin as ([k' x] & -> & Hin).
        apply list_elem_of_omap in Hin as ([k'' v''] & Hin & E). destruct v''; [|done]. simpl in E. simplify_eq.
        apply list_elem_of_fmap. by exists (k', Some x).
    - assert (k ≠ k0) as Hne by (intros ->; apply Hk0; by eapply list_elem_of_lookup_2).
      destruct v0 as [v0|]; cbn [fmap option_fmap option_map]; [cbn [mget]; rewrite decide_False by done|]; by eapply IH. }
  unfold extra_costs. cbn [normalizeVisualTier tier_fields fmap list_fmap snd cache_read_unit_cost cache_create_unit_cost cache_create_1h_unit_cost
    image_unit_cost image_output_unit_cost audio_input_unit_cost audio_output_unit_cost].
  rewrite !or0_idemp. by rewrite (H 0 _ (cache_read_unit_cost t)), (H 1 _ (cache_create_unit_cost t)), (H 2 _ (cache_create_1h_unit_cost t)),
    (H 3 _ (image_unit_cost t)), (H 4 _ (image_output_unit_cost t)), (H 5 _ (audio_input_unit_cost t)), (H 6 _ (audio_output_unit_cost t)) by reflexivity.
Qed.

Lemma shape_normal t : tier_shape t → tier_shape (normalizeVisualTier (partial_tier t)).
Proof. intros [Hn Hc Hp]. split; [done|done|]. by rewrite normal_extras. Qed.

Lemma shape_new l : tier_shape (normalizeVisualTier (mkPartialTier (Some l) (Some []) (Some (num_of_Z 0)) (Some (num_of_Z 0)) None [])).
Proof.
  assert (is_canonical (num_of_Z 0)) as H0 by (split; [done|]; by exists 0).
  split; [simpl; lia|constructor|]. repeat (apply Forall_cons; split); try exact H0. constructor.
Qed.

Lemma shape_conditions t cs : tier_shape t → length cs ≤ 2 → Forall cond_shape cs → tier_shape (with_conditions t cs).
Proof. intros [_ _ Hp] Hn Hc. by split. Qed.

Lemma default_shape v : v ∈ CONDITION_VARS → cond_shape (default_condition v).
Proof.
  intros Hv. split_and!; [done|cbn; decided|]. eexists. split; [reflexivity|]. split; [done|]. by exists 0.
Qed.

Lemma shape_step ts ts' : ts ≠ [] → Forall tier_shape ts → editor_step ts ts' → ts' ≠ [] ∧ Forall tier_shape ts'.
Proof.
  intros Hne Hs H. destruct H as [i t t' Hi Hc| |i|i].
  - split; [intros E; apply (f_equal length) in E; unfold handleTierChange in E; rewrite length_insert in E; by destruct ts|].
    apply Forall_insert; [done|]. apply shape_normal. eapply shape_card; [|exact Hc]. rewrite Forall_lookup in Hs. by eapply Hs.
  - split; [unfold handleAddTier; intros [_ ?]%app_eq_nil; done|]. unfold handleAddTier. apply Forall_app. split; [|constructor; [apply shape_new|constructor]].
    destruct (last ts) as [t|] eqn:El; [|done]. destruct (tier_conditions t) eqn:Ec; [|done].
    apply Forall_insert; [done|]. apply shape_normal, shape_conditions; [|simpl; lia|].
    + rewrite Forall_forall in Hs. apply Hs. by apply last_Some_elem_of.
    + constructor; [apply default_shape; decided|constructor].
  - unfold handleRemoveTier. destruct (remove_at i ts) as [|t ts'] eqn:E; [done|]. split; [done|]. rewrite <- E. unfold remove_at.
    apply Forall_app. split; [by apply Forall_take|by apply Forall_drop].
  - unfold handleAddCondition. destruct (ts !! i) as [t|] eqn:Ei; [|done]. destruct (2 <=? _) eqn:E2; [done|]. apply Nat.leb_gt in E2.
    split; [intros E; apply (f_equal length) in E; rewrite length_insert in E; by destruct ts|].
    assert (tier_shape t) as Ht by (rewrite Forall_lookup in Hs; by eapply Hs).
    apply Forall_insert; [done|]. apply shape_conditions; [done|rewrite length_app; simpl; lia|]. apply Forall_app. split; [apply Ht|].
    constructor; [apply default_shape; destruct (bool_decide _); decided|constructor].
Qed.

(** The tiers the editor can have: the default one, those of an expression of such
    tiers that is opened, what the actions make of them, and what saving and opening
    them again gives as long as their text is plain. *)
Inductive reachable : list VisualTier → Prop :=
| rc_default : reachable (tiers createDefaultVisualConfig)
| rc_opened expr ts : tryParseVisualConfig (Some expr) = Some (mkConfig ts) → Forall tier_shape ts → reachable ts
| rc_step ts ts' : reachable ts → editor_step ts ts' → reachable ts'
| rc_reopened ts ts' : reachable ts → Forall tier_ok ts →
    tryParseVisualConfig (Some (generateExprFromVisualConfig (Some (mkConfig ts)))) = Some (mkConfig ts') → reachable ts'.

Lemma parsed_nonempty expr ts : tryParseVisualConfig (Some expr) = Some (mkConfig ts) → ts ≠ [].
Proof.
  unfold tryParseVisualConfig. destruct expr as [|c expr]; [done|]. cbv zeta. destruct (str_match 10 _ _); [by intros [= <-]|].
  destruct (_ <$> match_all 11 _ _) as [|t l]; [done|]. destruct (bool_decide _); [|done]. by intros [= <-].
Qed.

Lemma cond_reread c : cond_shape c → cond_shape (reread_cond c).
Proof.
  intros (Hv & Ho & x & Hx & Hc). split_and!; [done..|]. exists x. split; [|done]. unfold reread_cond. cbn [ci_value]. rewrite Hx. cbn [cond_value_str].
  by rewrite Number_num_str.
Qed.

Lemma shape_reread cs lbl t : length cs ≤ 2 → Forall cond_shape cs → tier_shape t → tier_shape (reread cs lbl t).
Proof.
  intros Hn Hc [_ _ Hp]. split; cbn [reread tier_conditions].
  - rewrite length_fmap. unfold complete. etrans; [apply length_filter|done].
  - rewrite Forall_fmap. rewrite Forall_forall in *. intros c [_ Hin]%list_elem_of_filter. by apply cond_reread, Hc.
  - repeat (apply Forall_cons in Hp as [? Hp]). unfold extra_costs. cbn. repeat (apply Forall_cons; split); rewrite ?or0_idemp; try done; try (by apply or0_canonical; intros ? [= <-]).
Qed.

Lemma shape_reread_tiers i ts : Forall tier_shape ts → Forall tier_shape (reread_tiers i ts).
Proof.
  revert i. induction ts as [|t ts IH]; intros i Hs; [constructor|]. apply Forall_cons in Hs as [Ht Hs]. pose proof (IH (i + 1) Hs) as Hr.
  cbn [reread_tiers]. constructor; [|done]. destruct ts as [|t' ts]; apply shape_reread; try done; try apply Ht; simpl; lia.
Qed.

Lemma shape_reopened ts : Forall tier_shape ts → Forall tier_shape (reread_config ts).
Proof.
  intros Hs. destruct ts as [|t [|t' ts]]; cbn [reread_config]; [constructor| |by apply shape_reread_tiers].
  apply Forall_cons in Hs as [Ht _]. constructor; [|constructor]. apply shape_reread; [apply Ht..|done].
Qed.

Lemma reachable_shape ts : reachable ts → ts ≠ [] ∧ Forall tier_shape ts.
Proof.
  induction 1 as [|expr ts He Hs|ts ts' _ [Hne Hs] Hstep|ts ts' _ [Hne Hs] Hok He].
  - split; [done|]. assert (is_canonical (num_of_Z 0)) as H0 by (split; [done|]; by exists 0).
    constructor; [|constructor]. split; [simpl; lia|constructor|]. repeat (apply Forall_cons; split); try exact H0. constructor.
  - split; [by eapply parsed_nonempty|done].
  - by eapply shape_step.
  - split; [by eapply parsed_nonempty|]. destruct (visual_read_back ts Hne Hok) as [E _]. rewrite E in He. injection He as <-. by apply shape_reopened.
Qed.

(** C19. Whatever the administrator does with the cards of the visual editor, there is
    a tier, no tier has more than two conditions, every condition compares one of
    the variables by one of the operators with a decimal number, and every price is
    such a number - so that it is read back exactly from its text.  The editor starts
    with the default tier, or with an opened expression that has at most two conditions
    for each tier and only decimal numbers; and it may be closed and opened again on
    its own text whenever its labels have no quotation mark and its numbers plain
    digits. *)
Theorem visual_editor_invariant ts : reachable ts →
  ts ≠ [] ∧ Forall tier_shape ts
  ∧ Forall (fun t => Forall (fun x => Number_str (num_str x) = x) (input_unit_cost t :: output_unit_cost t :: extra_costs t)) ts.
Proof.
  intros H. destruct (reachable_shape ts H) as [Hne Hs].
  split_and!; [done|done|]. eapply Forall_impl; [exact Hs|]. intros t [_ _ Hp]. eapply Forall_impl; [exact Hp|]. apply Number_num_str.
Qed.

Lemma visual_editor_invariant_witness :
  let ts := handleAddTier (tiers createDefaultVisualConfig) in
  length ts = 2 ∧ ts ≠ [] ∧ Forall tier_shape ts
  ∧ Forall (fun t => Forall (fun x => Number_str (num_str x) = x) (input_unit_cost t :: output_unit_cost t :: extra_costs t)) ts.
Proof.
  split; [by vm_compute|]. apply (visual_editor_invariant (handleAddTier (tiers createDefaultVisualConfig))).
  eapply rc_step; [apply rc_default|apply es_add].
Defined.

(** Every preset is shown by the visual editor, with its rules as they are
    listed: after it is applied the editor is in the visual mode, the rule groups
    can be edited, and neither their text nor that of the tiers loses anything. *)
Theorem presets_readable :
  Forall (fun preset => ∀ s,
    let s' := applyPreset s preset in
    editorMode s' = Visual ∧ requestRuleGroups s' = preset_rules preset ∧ rules_editable s' = Returns true
    ∧ tryParseRequestRuleExpr (currentRequestRuleExpr s') = Returns (Some (preset_rules preset))
    ∧ tryParseVisualConfig (Some (generateExprFromVisualConfig (visualConfig s'))) = visualConfig s') PRESETS.
Proof.
  unfold PRESETS. repeat (apply Forall_cons_2; [intros s; split_and!; vm_compute; reflexivity|]). apply Forall_nil_2.
Qed.

End TierEditor.
