(* ===== verification/RatioSync.v ===== *)
(** * Synchronising prices with upstream channels
    (src/web/src/features/system-settings/models/upstream-ratio-sync-helpers.ts,
    upstream-ratio-sync.tsx and upstream-ratio-sync-table.tsx)

    The server compares the local price settings with those of other channels.
    The page shows the differences by model and field, lets the administrator
    choose values of one source or another, one by one or a whole column at a
    time, and writes the chosen ones into the ten settings.  Models, fields and
    sources are the strings the server sends; a price is a number or a text. *)

From S2P Require Import Prelude JsString JsValue JsNumber.

Module RatioSync.

Inductive SyncValue := VNum (x : num) | VStr (s : jsstr).

(** [Number(v)] *)
Definition to_number (v : SyncValue) : num := match v with VNum x => x | VStr s => Number_str s end.

(** [a === b] *)
Definition same_value (a b : SyncValue) : bool :=
  match a, b with
  | VNum x, VNum y => num_eqb x y
  | VStr s, VStr t => bool_decide (s = t)
  | _, _ => false
  end.

(** ** Differences and resolutions *)

(** A value of a source that is null is [None]. *)
Record RatioDifferenceEntry := mkEntry {
  current : option SyncValue;
  upstreams : list (jsstr * option SyncValue);
  confidence : list (jsstr * bool)
}.

Notation RatioTypes := (list (jsstr * RatioDifferenceEntry)).
Notation DifferencesMap := (list (jsstr * RatioTypes)).
Notation ModelResolution := (list (jsstr * SyncValue)).
Notation ResolutionsMap := (list (jsstr * ModelResolution)).

Record ModelRow := mkRow { row_model : jsstr; row_types : RatioTypes; billingConflict : bool }.

Record ResolutionSelection := mkSel { s_model : jsstr; s_type : jsstr; s_value : SyncValue; s_source : jsstr }.

Record ResolutionRemoval := mkRemoval { rm_model : jsstr; rm_type : jsstr }.

Notation ResolutionRemovalPlan := (list (jsstr * list jsstr)).

Definition RATIO_SYNC_FIELDS : list jsstr :=
  [js "model_ratio"; js "completion_ratio"; js "cache_ratio"; js "create_cache_ratio"; js "image_ratio";
   js "audio_ratio"; js "audio_completion_ratio"].

Definition PRICE := js "model_price".
Definition MODE := js "billing_mode".
Definition EXPR := js "billing_expr".

Definition SYNC_FIELD_ORDER : list jsstr := RATIO_SYNC_FIELDS ++ [PRICE; MODE; EXPR].

Definition NUMERIC_SYNC_FIELDS : list jsstr := RATIO_SYNC_FIELDS ++ [PRICE].

(** [RATIO_TYPE_OPTIONS]: fields and their labels *)
Definition RATIO_TYPE_OPTIONS : list (jsstr * jsstr) :=
  [(js "model_ratio", js "Model ratio"); (js "completion_ratio", js "Completion ratio"); (js "cache_ratio", js "Cache ratio");
   (js "create_cache_ratio", js "Create cache ratio"); (js "image_ratio", js "Image ratio"); (js "audio_ratio", js "Audio ratio");
   (js "audio_completion_ratio", js "Audio completion ratio"); (PRICE, js "Fixed price"); (EXPR, js "Expression billing")].

Definition getSyncFieldLabel (ratioType : jsstr) (t : jsstr → jsstr) : jsstr :=
  match mget ratioType RATIO_TYPE_OPTIONS with Some label => t label | None => ratioType end.

Definition no_filter (flt : jsstr) : bool := negb (str_true flt) || bool_decide (flt = js "__all__").

(** The fields in display order; an absent filter is the empty one. *)
Definition getOrderedRatioTypes (ratioTypes : RatioTypes) (flt : jsstr) : list jsstr :=
  let keys := Object_keys ratioTypes in
  let ordered := filter (fun f => f ∈ keys) SYNC_FIELD_ORDER ++ filter (fun f => f ∉ SYNC_FIELD_ORDER) keys in
  if no_filter flt then ordered else filter (fun f => f = flt) ordered.

(** [ratioTypes[ratioType]?.upstreams?.[sourceName]] *)
Definition upstream_value (ratioTypes : RatioTypes) (ratioType sourceName : jsstr) : option SyncValue :=
  e ← mget ratioType ratioTypes; mjoin (mget sourceName (upstreams e)).

Definition is_same (v : SyncValue) : bool := match v with VStr s => bool_decide (s = js "same") | VNum _ => false end.

Definition isSelectableUpstreamValue (value : option SyncValue) : bool :=
  match value with Some v => negb (is_same v) | None => false end.

Definition getPreferredSyncField (ratioTypes : RatioTypes) (ratioType sourceName : jsstr) : jsstr :=
  if bool_decide (ratioType ≠ EXPR) && isSelectableUpstreamValue (upstream_value ratioTypes EXPR sourceName)
  then EXPR else ratioType.

Definition getVisibleRatioTypesForSource (ratioTypes : RatioTypes) (sourceName flt : jsstr) : list jsstr :=
  filter (fun rt => getPreferredSyncField ratioTypes rt sourceName = rt) (getOrderedRatioTypes ratioTypes flt).

Definition getAlignedRatioTypes (ratioTypes : RatioTypes) (sourceNames : list jsstr) (flt : jsstr) : list jsstr :=
  let ordered := getOrderedRatioTypes ratioTypes flt in
  match sourceNames with
  | [] => ordered
  | _ =>
      let visible := uniq (sourceNames ≫= (fun s => getVisibleRatioTypesForSource ratioTypes s flt)) in
      filter (fun rt => rt ∈ visible) ordered
  end.

Inductive BillingCategory := Price | Ratio | Tiered.

#[global] Instance BillingCategory_eq_dec : EqDecision BillingCategory.
Proof. solve_decision. Defined.

Definition getBillingCategory (ratioType : jsstr) : BillingCategory :=
  if bool_decide (ratioType = PRICE) then Price
  else if bool_decide (ratioType = MODE) || bool_decide (ratioType = EXPR) then Tiered
  else Ratio.

(** The two presets and their identifiers *)
Definition OFFICIAL_CHANNEL_NAME := js "官方倍率预设".
Definition OFFICIAL_CHANNEL_ID : Z := -100.
Definition MODELS_DEV_PRESET_NAME := js "models.dev 价格预设".
Definition MODELS_DEV_PRESET_ID : Z := -101.

Definition getUpstreamDisplayName (sourceName : jsstr) : jsstr :=
  let named (name : jsstr) (id : Z) := name ++ js "(" ++ num_str (num_of_Z id) ++ js ")" in
  if bool_decide (sourceName = named OFFICIAL_CHANNEL_NAME OFFICIAL_CHANNEL_ID) then OFFICIAL_CHANNEL_NAME
  else if bool_decide (sourceName = named MODELS_DEV_PRESET_NAME MODELS_DEV_PRESET_ID) then MODELS_DEV_PRESET_NAME
  else sourceName.

(** [resolutions[model]?.[ratioType]] *)
Definition resolved (resolutions : ResolutionsMap) (model ratioType : jsstr) : option SyncValue :=
  mget model resolutions ≫= mget ratioType.

Definition isSelectedResolutionValue (resolutions : ResolutionsMap) (model ratioType : jsstr) (upstreamValue : option SyncValue) : bool :=
  match upstreamValue with
  | Some v =>
      if is_same v then false
      else match resolved resolutions model ratioType with
           | None => false
           | Some selectedValue =>
               if bool_decide (ratioType ∈ NUMERIC_SYNC_FIELDS)
               then num_isFinite (to_number selectedValue) && num_isFinite (to_number v)
                    && num_eqb (to_number selectedValue) (to_number v)
               else same_value selectedValue v
           end
  | None => false
  end.

(** ** Selecting values *)

Definition getDraftModelResolution (drafts resolutions : ResolutionsMap) (model : jsstr) : ModelResolution :=
  match mget model drafts with
  | Some draft => draft
  | None => default [] (mget model resolutions)
  end.

(** The field and value a selection stands for: an expression of the same source
    takes precedence. *)
Definition resolveResolutionSelection (differences : DifferencesMap) (s : ResolutionSelection) : ResolutionSelection :=
  let modelDiffs := mget (s_model s) differences in
  let preferredType := getPreferredSyncField (default [] modelDiffs) (s_type s) (s_source s) in
  let preferredValue :=
    if bool_decide (preferredType = s_type s) then s_value s
    else default (s_value s) (rts ← modelDiffs; upstream_value rts preferredType (s_source s)) in
  mkSel (s_model s) preferredType preferredValue (s_source s).

(** Fields of another billing method that a field of [category] displaces *)
Definition displaced (category : BillingCategory) (rt : jsstr) : bool :=
  bool_decide (category ≠ Tiered) && bool_decide (getBillingCategory rt ≠ Tiered) && bool_decide (getBillingCategory rt ≠ category).

(** A value of the source that is offered for selection *)
Definition offered_value (v : option SyncValue) : option SyncValue := if isSelectableUpstreamValue v then v else None.

(** The mode and the expression that come with a choice of expression billing *)
Definition complete_mode (modelDiffs : RatioTypes) (source finalType : jsstr) (d : ModelResolution) : ModelResolution :=
  match offered_value (upstream_value modelDiffs MODE source) with
  | Some modeVal => mset MODE modeVal d
  | None => if bool_decide (finalType = EXPR) then mset MODE (VStr (js "tiered_expr")) d else d
  end.

Definition complete_tiered (modelDiffs : RatioTypes) (source finalType : jsstr) (d : ModelResolution) : ModelResolution :=
  let d := complete_mode modelDiffs source finalType d in
  match offered_value (upstream_value modelDiffs EXPR source) with
  | Some exprVal => mset EXPR exprVal d
  | None => d
  end.

Definition select_in_draft (differences : DifferencesMap) (s : ResolutionSelection) (draft : ModelResolution) : ModelResolution :=
  let r := resolveResolutionSelection differences s in
  let category := getBillingCategory (s_type r) in
  let d := mset (s_type r) (s_value r) (filter (fun e => displaced category e.1 = false) draft) in
  match mget (s_model s) differences with
  | Some modelDiffs => if bool_decide (category = Tiered) then complete_tiered modelDiffs (s_source s) (s_type r) d else d
  | None => d
  end.

Definition applyResolutionSelectionToDraft (drafts resolutions : ResolutionsMap) (differences : DifferencesMap) (s : ResolutionSelection) : ResolutionsMap :=
  mset (s_model s) (select_in_draft differences s (getDraftModelResolution drafts resolutions (s_model s))) drafts.

(** Writes a draft back; an empty one removes the model. *)
Definition commit_draft (next : ResolutionsMap) (d : jsstr * ModelResolution) : ResolutionsMap :=
  match d.2 with [] => mdel d.1 next | _ => mset d.1 d.2 next end.

Definition applyResolutionSelections (resolutions : ResolutionsMap) (differences : DifferencesMap) (selections : list ResolutionSelection) : ResolutionsMap :=
  match selections with
  | [] => resolutions
  | _ =>
      let drafts := foldl (fun ds s => applyResolutionSelectionToDraft ds resolutions differences s) [] selections in
      foldl commit_draft resolutions drafts
  end.

Definition applyResolutionSelection (resolutions : ResolutionsMap) (differences : DifferencesMap) (s : ResolutionSelection) : ResolutionsMap :=
  applyResolutionSelections resolutions differences [s].

(** The key of a selection in [effectiveByKey] *)
Definition selection_key (s : ResolutionSelection) : jsstr := s_model s ++ [0%N] ++ s_type s.

Definition add_effective (differences : DifferencesMap) (m : list (jsstr * ResolutionSelection)) (s : ResolutionSelection) : list (jsstr * ResolutionSelection) :=
  let r := resolveResolutionSelection differences s in
  let category := getBillingCategory (s_type r) in
  mset (selection_key r) r (filter (fun e => bool_decide (s_model e.2 = s_model r) && displaced category (s_type e.2) = false) m).

Definition getEffectiveResolutionSelections (differences : DifferencesMap) (selections : list ResolutionSelection) : list ResolutionSelection :=
  mvalues (foldl (add_effective differences) [] selections).

(** ** Removing values *)

(** The deletion of one field also removes its partner in expression billing. *)
Definition delete_field (draft : ModelResolution) (ratioType : jsstr) : ModelResolution :=
  let d := mdel ratioType draft in
  let d := if bool_decide (ratioType = EXPR) then mdel MODE d else d in
  if bool_decide (ratioType = MODE) then mdel EXPR d else d.

Definition remove_planned (resolutions next : ResolutionsMap) (p : jsstr * list jsstr) : ResolutionsMap :=
  match mget p.1 resolutions with
  | None => next
  | Some cur => commit_draft next (p.1, foldl delete_field cur p.2)
  end.

Definition applyResolutionRemovalPlan (resolutions : ResolutionsMap) (plan : ResolutionRemovalPlan) : ResolutionsMap :=
  match plan with
  | [] => resolutions
  | _ => foldl (remove_planned resolutions) resolutions plan
  end.

(** [ratioTypes.add(..)] or a new set, in a plan under construction *)
Definition plan_add (model ratioType : jsstr) (plan : ResolutionRemovalPlan) : ResolutionRemovalPlan :=
  match mget model plan with
  | Some types => mset model (sadd ratioType types) plan
  | None => mset model [ratioType] plan
  end.

Definition applyResolutionRemovals (resolutions : ResolutionsMap) (removals : list ResolutionRemoval) : ResolutionsMap :=
  match removals with
  | [] => resolutions
  | _ => applyResolutionRemovalPlan resolutions (foldl (fun p r => plan_add (rm_model r) (rm_type r) p) [] removals)
  end.

Definition deleteResolutionField (resolutions : ResolutionsMap) (model ratioType : jsstr) : ResolutionsMap :=
  applyResolutionRemovals resolutions [mkRemoval model ratioType].

(** ** The table *)

(** Case mapping and translation are the platform's. *)
Section Page.
Context (toLowerCase toUpperCase t : jsstr → jsstr).

Definition dataSource (differences : DifferencesMap) : list ModelRow :=
  (fun '(model, rts) =>
     mkRow model rts (bool_decide (PRICE ∈ mkeys rts) && existsb (fun rt => bool_decide (rt ∈ mkeys rts)) RATIO_SYNC_FIELDS))
  <$> own_fields differences.

Definition filteredData (differences : DifferencesMap) (search flt : jsstr) : list ModelRow :=
  let data := dataSource differences in
  let data := if str_true (trim search) then filter (fun row => includes (toLowerCase search) (toLowerCase (row_model row)) = true) data else data in
  if no_filter flt then data else filter (fun row => flt ∈ mkeys (row_types row)) data.

Definition upstreamNames (rows : list ModelRow) (flt : jsstr) : list jsstr :=
  uniq (row ← rows; rt ← getOrderedRatioTypes (row_types row) flt;
        Object_keys (default [] (upstreams <$> mget rt (row_types row)))).

Record UpstreamBulkSelectState := mkBulk {
  displayName : jsstr;
  selections : list ResolutionSelection;
  removalPlan : ResolutionRemovalPlan;
  selectableCount : nat;
  selectedCount : nat
}.

(** The selections a row offers in the column of a source *)
Definition row_selections (flt source : jsstr) (row : ModelRow) : list ResolutionSelection :=
  omap (fun rt =>
    let upstreamVal := upstream_value (row_types row) rt source in
    if isSelectableUpstreamValue upstreamVal then (fun v => mkSel (row_model row) rt v source) <$> upstreamVal else None)
    (getAlignedRatioTypes (row_types row) [source] flt).

Definition column_selections (rows : list ModelRow) (flt source : jsstr) : list ResolutionSelection :=
  rows ≫= row_selections flt source.

Definition bulkSelectState (differences : DifferencesMap) (rows : list ModelRow) (flt : jsstr) (resolutions : ResolutionsMap) (source : jsstr) : UpstreamBulkSelectState :=
  let offered := column_selections rows flt source in
  let effectiveSelections := getEffectiveResolutionSelections differences offered in
  mkBulk (getUpstreamDisplayName source) effectiveSelections
    (foldl (fun p s => plan_add (s_model s) (s_type s) p) [] offered)
    (length effectiveSelections)
    (length (filter (fun s => isSelectedResolutionValue resolutions (s_model s) (s_type s) (Some (s_value s)) = true) effectiveSelections)).

(** ** Writing the settings *)

Notation LocalRatios := (list (jsstr * SyncValue)).

Definition RATIO_OPTIONS : list jsstr :=
  [js "ModelRatio"; js "CompletionRatio"; js "CacheRatio"; js "CreateCacheRatio"; js "ImageRatio"; js "AudioRatio"; js "AudioCompletionRatio"].
Definition PRICE_OPTION := js "ModelPrice".
Definition MODE_OPTION := js "billing_setting.billing_mode".
Definition EXPR_OPTION := js "billing_setting.billing_expr".
Definition OPTION_KEYS : list jsstr := RATIO_OPTIONS ++ [PRICE_OPTION; MODE_OPTION; EXPR_OPTION].

Definition optionKeyBySyncField (ratioType : jsstr) : jsstr :=
  if bool_decide (ratioType = MODE) then MODE_OPTION
  else if bool_decide (ratioType = EXPR) then EXPR_OPTION
  else concat ((fun word => toUpperCase (take 1 word) ++ drop 1 word) <$> split_on (ch "_") ratioType).

(** [delete finalRatios[key][model]] *)
Definition drop_model (model key : jsstr) (final : list (jsstr * LocalRatios)) : list (jsstr * LocalRatios) :=
  match mget key final with Some rec => mset key (mdel model rec) final | None => final end.

Definition numeric_value (ratioType : jsstr) (v : SyncValue) : SyncValue :=
  if bool_decide (ratioType ∈ NUMERIC_SYNC_FIELDS) then VNum (to_number v) else v.

(** One assignment to [finalRatios[optionKey][model]]; [None] is the exception
    when there is no such setting. *)
Definition write_field (model : jsstr) (final : list (jsstr * LocalRatios)) (e : jsstr * SyncValue) : option (list (jsstr * LocalRatios)) :=
  let key := optionKeyBySyncField e.1 in
  rec ← mget key final; Some (mset key (mset model (numeric_value e.1 e.2) rec) final).

Fixpoint foldlM {A B} (f : B → A → option B) (b : B) (l : list A) : option B :=
  match l with [] => Some b | x :: l' => b' ← f b x; foldlM f b' l' end.

Definition has_ratio (ratios : ModelResolution) : bool :=
  existsb (fun rt => bool_decide (rt ∈ RATIO_SYNC_FIELDS)) (Object_keys ratios).
Definition has_price (ratios : ModelResolution) : bool := bool_decide (PRICE ∈ Object_keys ratios).

Definition sync_model (final : list (jsstr * LocalRatios)) (e : jsstr * ModelResolution) : option (list (jsstr * LocalRatios)) :=
  let '(model, ratios) := e in
  let final := if has_price ratios then foldl (fun f k => drop_model model k f) final RATIO_OPTIONS else final in
  let final := if has_ratio ratios then drop_model model PRICE_OPTION final else final in
  foldlM (write_field model) final (own_fields ratios).

(** The settings that are written, each as the object whose JSON text is sent *)
Definition performSync (resolutions : ResolutionsMap) (currentRatios : jsstr → LocalRatios) : option (list (jsstr * LocalRatios)) :=
  foldlM sync_model ((fun k => (k, currentRatios k)) <$> OPTION_KEYS) (own_fields resolutions).

Definition getLocalBillingCategory (model : jsstr) (currentRatios : jsstr → LocalRatios) : option BillingCategory :=
  if bool_decide (is_Some (mget model (currentRatios PRICE_OPTION))) then Some Price
  else if existsb (fun k => bool_decide (is_Some (mget model (currentRatios k)))) RATIO_OPTIONS then Some Ratio
  else None.

Definition findSourceChannel (differences : DifferencesMap) (model ratioType : jsstr) (value : SyncValue) : jsstr :=
  match mget model differences ≫= mget ratioType with
  | None => js "Unknown"
  | Some e =>
      match list_find (fun u => from_option (fun v => same_value v value) false u.2 = true) (own_fields (upstreams e)) with
      | Some (_, u) => u.1
      | None => js "Unknown"
      end
  end.

Record ConflictItem := mkConflict { c_channel : jsstr; c_model : jsstr; c_current : jsstr; c_newVal : jsstr }.

Definition value_str (v : SyncValue) : jsstr := match v with VNum x => num_str x | VStr s => s end.
Definition or_dash (v : option SyncValue) : jsstr := from_option value_str (js "-") v.
Definition or_undefined (v : option SyncValue) : jsstr := from_option value_str (js "undefined") v.

Definition newCategory (ratios : ModelResolution) : BillingCategory :=
  if bool_decide (PRICE ∈ mkeys ratios) then Price
  else if existsb (fun rt => bool_decide (rt ∈ Object_keys ratios)) RATIO_SYNC_FIELDS then Ratio
  else Tiered.

Definition price_desc (price : option SyncValue) : jsstr := t (js "Fixed price") ++ js ": " ++ or_undefined price.
Definition ratio_desc (ratio completion : option SyncValue) : jsstr :=
  t (js "Model ratio") ++ js ": " ++ or_dash ratio ++ [10%N] ++ t (js "Completion ratio") ++ js ": " ++ or_dash completion.

Definition model_conflict (differences : DifferencesMap) (currentRatios : jsstr → LocalRatios) (e : jsstr * ModelResolution) : option ConflictItem :=
  let '(model, ratios) := e in
  let newCat := newCategory ratios in
  match getLocalBillingCategory model currentRatios with
  | Some localCat =>
      if bool_decide (newCat ≠ Tiered) && bool_decide (localCat ≠ newCat) then
        let currentDesc :=
          match localCat with
          | Price => price_desc (mget model (currentRatios PRICE_OPTION))
          | _ => ratio_desc (mget model (currentRatios (js "ModelRatio"))) (mget model (currentRatios (js "CompletionRatio")))
          end in
        let newDesc :=
          match newCat with
          | Price => price_desc (mget PRICE ratios)
          | _ => ratio_desc (mget (js "model_ratio") ratios) (mget (js "completion_ratio") ratios)
          end in
        let channelNames := str_join (js ", ") (uniq ((fun f => findSourceChannel differences model f.1 f.2) <$> own_fields ratios)) in
        Some (mkConflict channelNames model currentDesc newDesc)
      else None
  | None => None
  end.

Definition conflicts (differences : DifferencesMap) (resolutions : ResolutionsMap) (currentRatios : jsstr → LocalRatios) : list ConflictItem :=
  omap (model_conflict differences currentRatios) (own_fields resolutions).

(** ** Pruning the differences after a synchronisation

    The copy of the differences is shallow: the deletions act on the objects the
    previous state holds as well.  [shared] is the content of these objects by
    model, [present] the models the copy still has. *)
Definition prune_field (model : jsstr) (st : DifferencesMap * list jsstr) (ratioType : jsstr) : DifferencesMap * list jsstr :=
  let '(shared, present) := st in
  match mget model shared with
  | Some rts =>
      if bool_decide (model ∈ present) && bool_decide (ratioType ∈ mkeys rts) then
        let rts' := mdel ratioType rts in
        (mset model rts' shared, match rts' with [] => filter (fun m => m ≠ model) present | _ => present end)
      else st
  | None => st
  end.

Definition prune_model (st : DifferencesMap * list jsstr) (e : jsstr * ModelResolution) : DifferencesMap * list jsstr :=
  foldl (prune_field e.1) st (Object_keys e.2).

(** The new differences and what the previous ones have become *)
Definition pruneDifferences (prevDiffs : DifferencesMap) (resolutions : ResolutionsMap) : DifferencesMap * DifferencesMap :=
  let '(shared, present) := foldl prune_model (prevDiffs, mkeys prevDiffs) (own_fields resolutions) in
  (filter (fun e => e.1 ∈ present) shared, shared).

(** ** The page *)

Record page := mkPage {
  differences : DifferencesMap;
  resolutions : ResolutionsMap;
  conflictItems : list ConflictItem;
  conflictDialogOpen : bool
}.

Definition with_resolutions (p : page) (r : ResolutionsMap) : page :=
  mkPage (differences p) r (conflictItems p) (conflictDialogOpen p).

Definition onFetched (diffs : DifferencesMap) (p : page) : page := mkPage diffs [] (conflictItems p) (conflictDialogOpen p).

Definition handleSelectValue (p : page) (s : ResolutionSelection) : page :=
  with_resolutions p (applyResolutionSelection (resolutions p) (differences p) s).

Definition handleSelectValues (p : page) (ss : list ResolutionSelection) : page :=
  with_resolutions p (applyResolutionSelections (resolutions p) (differences p) ss).

Definition handleUnselectValue (p : page) (model ratioType : jsstr) : page :=
  with_resolutions p (deleteResolutionField (resolutions p) model ratioType).

Definition handleUnselectValues (p : page) (plan : ResolutionRemovalPlan) : page :=
  with_resolutions p (applyResolutionRemovalPlan (resolutions p) plan).

Definition page_bulk (p : page) (search flt source : jsstr) : UpstreamBulkSelectState :=
  bulkSelectState (differences p) (filteredData (differences p) search flt) flt (resolutions p) source.

Definition handleBulkSelect (p : page) (search flt source : jsstr) : page := handleSelectValues p (selections (page_bulk p search flt source)).
Definition handleBulkUnselect (p : page) (search flt source : jsstr) : page := handleUnselectValues p (removalPlan (page_bulk p search flt source)).

(** What applying does: it asks for confirmation, or starts the synchronisation. *)
Inductive apply_result := Asks | Syncs (updates : option (list (jsstr * LocalRatios))).

Definition handleApplySync (p : page) (currentRatios : jsstr → LocalRatios) : page * apply_result :=
  match conflicts (differences p) (resolutions p) currentRatios with
  | [] => (p, Syncs (performSync (resolutions p) currentRatios))
  | cs => (mkPage (differences p) (resolutions p) cs true, Asks)
  end.

Definition onSynced (p : page) : page :=
  mkPage (pruneDifferences (differences p) (resolutions p)).1 [] (conflictItems p) (conflictDialogOpen p).

End Page.

(** ** Selections one after the other *)

Lemma mset_nonempty {K V} `{EqDecision K} (k : K) (v : V) m : mset k v m ≠ [].
Proof. destruct m as [|[j w] m]; cbn [mset]; [done|by case_decide]. Qed.

Lemma complete_tiered_nonempty rts src ft d : d ≠ [] → complete_tiered rts src ft d ≠ [].
Proof. intros Hd. unfold complete_tiered, complete_mode. repeat case_match; auto using mset_nonempty. Qed.

Lemma select_nonempty diffs s draft : select_in_draft diffs s draft ≠ [].
Proof. unfold select_in_draft. repeat case_match; auto using mset_nonempty, complete_tiered_nonempty. Qed.

Definition put (r : ResolutionsMap) (d : jsstr * ModelResolution) : ResolutionsMap := mset d.1 d.2 r.

Lemma commit_nonempty r m d : d ≠ [] → commit_draft r (m, d) = put r (m, d).
Proof. by destruct d. Qed.

Lemma mset_put_all k v ds r : k ∉ mkeys ds → k ∈ mkeys r → mset k v (foldl put r ds) = foldl put (mset k v r) ds.
Proof.
  revert r. induction ds as [|[j w] ds IH]; intros r Hk Hr; [done|]. cbn [foldl]. unfold mkeys in Hk. rewrite fmap_cons in Hk.
  apply not_elem_of_cons in Hk as [Hne Hk]. rewrite IH; [|done|].
  - unfold put at 2 4. cbn [fst snd] in *. by rewrite mset_comm.
  - unfold put. apply elem_of_mkeys_mset. by right.
Qed.

Lemma put_all_mset k v ds r : NoDup (mkeys ds) → foldl put r (mset k v ds) = mset k v (foldl put r ds).
Proof.
  revert r. induction ds as [|[j w] ds IH]; intros r Hnd; [done|]. unfold mkeys in Hnd. rewrite fmap_cons in Hnd.
  apply NoDup_cons in Hnd as [Hj Hnd]. cbn [mset]. case_decide as E; cbn [foldl].
  - subst j. rewrite mset_put_all; [|done|unfold put; apply elem_of_mkeys_mset; by left].
    f_equal. unfold put. cbn [fst snd]. by rewrite mset_mset.
  - by rewrite IH.
Qed.

Lemma mget_put_all k ds r : NoDup (mkeys ds) →
  mget k (foldl put r ds) = match mget k ds with Some d => Some d | None => mget k r end.
Proof.
  revert r. induction ds as [|[j w] ds IH]; intros r Hnd; [done|]. unfold mkeys in Hnd. rewrite fmap_cons in Hnd.
  apply NoDup_cons in Hnd as [Hj Hnd]. cbn [foldl mget]. rewrite IH by done. unfold put. cbn [fst snd].
  rewrite mget_mset. destruct (decide (k = j)) as [->|Hne].
  - cbn [fst] in Hj. apply mget_None in Hj. by rewrite Hj, !decide_True.
  - by rewrite (decide_False (P := j = k)) by done.
Qed.

(** The effect of one selection on the map *)
Definition select_one (diffs : DifferencesMap) (r : ResolutionsMap) (s : ResolutionSelection) : ResolutionsMap :=
  mset (s_model s) (select_in_draft diffs s (default [] (mget (s_model s) r))) r.

Lemma drafts_nodup r diffs ss ds : NoDup (mkeys ds) →
  NoDup (mkeys (foldl (fun ds s => applyResolutionSelectionToDraft ds r diffs s) ds ss)).
Proof.
  revert ds. induction ss as [|s ss IH]; intros ds Hnd; [done|]. cbn [foldl]. apply IH.
  unfold applyResolutionSelectionToDraft. by apply mkeys_mset_NoDup.
Qed.

Lemma drafts_select r diffs ss ds : NoDup (mkeys ds) →
  foldl put r (foldl (fun ds s => applyResolutionSelectionToDraft ds r diffs s) ds ss) = foldl (select_one diffs) (foldl put r ds) ss.
Proof.
  revert ds. induction ss as [|s ss IH]; intros ds Hnd; [done|]. cbn [foldl].
  rewrite IH by (by apply mkeys_mset_NoDup). f_equal. unfold applyResolutionSelectionToDraft, select_one.
  rewrite put_all_mset by done. f_equal. f_equal. unfold getDraftModelResolution. rewrite mget_put_all by done. by case_match.
Qed.

Lemma drafts_commit r diffs ss ds : Forall (fun d => d.2 ≠ []) ds →
  foldl commit_draft r (foldl (fun ds s => applyResolutionSelectionToDraft ds r diffs s) ds ss)
  = foldl put r (foldl (fun ds s => applyResolutionSelectionToDraft ds r diffs s) ds ss).
Proof.
  revert ds. induction ss as [|s ss IH]; intros ds Hds; cbn [foldl].
  - revert r. induction Hds as [|[m d] ds Hd _ IH]; intros r; [done|]. cbn [foldl]. by rewrite commit_nonempty, IH.
  - apply IH. unfold applyResolutionSelectionToDraft. clear IH. generalize (select_nonempty diffs s (getDraftModelResolution ds r (s_model s))).
    generalize (select_in_draft diffs s (getDraftModelResolution ds r (s_model s))). intros d Hd.
    induction Hds as [|[m e] ds He Hds IH]; cbn [mset]; [by repeat constructor|]. case_decide; by constructor.
Qed.

Lemma selections_fold r diffs ss : applyResolutionSelections r diffs ss = foldl (select_one diffs) r ss.
Proof.
  destruct ss as [|s ss]; [done|]. unfold applyResolutionSelections.
  rewrite drafts_commit by constructor. rewrite drafts_select by constructor. done.
Qed.

Lemma selection_one r diffs s : applyResolutionSelection r diffs s = select_one diffs r s.
Proof. unfold applyResolutionSelection. by rewrite selections_fold. Qed.

(** ** Well-formed resolutions *)

Lemma category_price rt : getBillingCategory rt = Price ↔ rt = PRICE.
Proof. unfold getBillingCategory. generalize PRICE MODE EXPR. intros p m e. repeat case_bool_decide; cbn [orb]; intuition congruence. Qed.

Lemma category_tiered rt : getBillingCategory rt = Tiered ↔ rt = MODE ∨ rt = EXPR.
Proof.
  assert (PRICE ≠ MODE) as Hm by decided. assert (PRICE ≠ EXPR) as He by decided. revert Hm He.
  unfold getBillingCategory. generalize PRICE MODE EXPR. intros p m e ??. repeat case_bool_decide; cbn [orb]; subst; intuition congruence.
Qed.

(** The fields chosen for a model: never a fixed price and a ratio together, an
    expression only with its mode, and only fields that have a setting *)
Record draft_base (d : ModelResolution) : Prop := {
  db_nodup : NoDup (mkeys d);
  db_exclusive : ∀ a b, a ∈ mkeys d → b ∈ mkeys d → getBillingCategory a = Price → getBillingCategory b ≠ Ratio;
  db_known : ∀ a, a ∈ mkeys d → a ∈ SYNC_FIELD_ORDER
}.

Definition draft_ok (d : ModelResolution) : Prop := draft_base d ∧ (EXPR ∈ mkeys d → MODE ∈ mkeys d).

Definition resolutions_ok (r : ResolutionsMap) : Prop :=
  NoDup (mkeys r) ∧ ∀ model d, mget model r = Some d → d ≠ [] ∧ draft_ok d.

(** What the server sends: fields that have a setting *)
Definition differences_ok (diffs : DifferencesMap) : Prop :=
  NoDup (mkeys diffs) ∧ ∀ model rts rt, (model, rts) ∈ diffs → rt ∈ mkeys rts → rt ∈ SYNC_FIELD_ORDER.

(** A selection of a value that the table shows *)
Definition offered (diffs : DifferencesMap) (s : ResolutionSelection) : Prop :=
  ∃ rts, mget (s_model s) diffs = Some rts ∧ upstream_value rts (s_type s) (s_source s) = Some (s_value s) ∧ is_same (s_value s) = false.

Lemma known_mode : MODE ∈ SYNC_FIELD_ORDER. Proof. decided. Qed.
Lemma known_expr : EXPR ∈ SYNC_FIELD_ORDER. Proof. decided. Qed.

Lemma draft_nil : draft_ok [].
Proof. split; [split|]; cbn; [constructor|set_solver..]. Qed.

(** A field may be added when no field of another billing method is there. *)
Lemma base_mset k v d : draft_base d → k ∈ SYNC_FIELD_ORDER →
  (∀ a, a ∈ mkeys d → getBillingCategory k = Tiered ∨ getBillingCategory a = Tiered ∨ getBillingCategory a = getBillingCategory k) →
  draft_base (mset k v d).
Proof.
  intros [Hn He Hk] Hkn Hcat. split.
  - by apply mkeys_mset_NoDup.
  - intros a b. rewrite !elem_of_mkeys_mset. intros [->|Ha] [->|Hb] Hc; [congruence| | |exact (He _ _ Ha Hb Hc)].
    + destruct (Hcat b Hb) as [?|[?|?]]; congruence.
    + destruct (Hcat a Ha) as [?|[?|?]]; congruence.
  - intros a. rewrite elem_of_mkeys_mset. intros [->|Ha]; auto.
Qed.

Lemma mkeys_kept (f : jsstr → bool) (d : ModelResolution) : mkeys (filter (fun e => f e.1 = false) d) = filter (fun k => f k = false) (mkeys d).
Proof. exact (mkeys_filter (fun k => f k = false) d). Qed.

Lemma elem_of_kept (f : jsstr → bool) a (d : ModelResolution) : a ∈ mkeys (filter (fun e => f e.1 = false) d) ↔ f a = false ∧ a ∈ mkeys d.
Proof. by rewrite mkeys_kept, list_elem_of_filter. Qed.

Lemma base_filter (f : jsstr → bool) d : draft_base d → draft_base (filter (fun e => f e.1 = false) d).
Proof.
  intros [Hn He Hk]. split.
  - rewrite mkeys_kept. by apply NoDup_filter.
  - intros a b [_ Ha]%elem_of_kept [_ Hb]%elem_of_kept. by apply He.
  - intros a [_ Ha]%elem_of_kept. by apply Hk.
Qed.

Lemma mode_not_expr : MODE ≠ EXPR. Proof. decided. Qed.
Lemma tiered_mode : getBillingCategory MODE = Tiered. Proof. by vm_compute. Qed.
Lemma tiered_expr : getBillingCategory EXPR = Tiered. Proof. by vm_compute. Qed.

Lemma base_tiered k v d : draft_base d → getBillingCategory k = Tiered → draft_base (mset k v d).
Proof.
  intros Hd Hk. apply base_mset; [done| |by left].
  apply category_tiered in Hk as [->| ->]; [apply known_mode|apply known_expr].
Qed.

(** Completing the choice of a source brings the mode with the expression. *)
Lemma draft_complete rts src ft d : draft_base d → (EXPR ∈ mkeys d → MODE ∈ mkeys d ∨ ft = EXPR) →
  (ft = EXPR ∨ isSelectableUpstreamValue (upstream_value rts EXPR src) = false) →
  draft_ok (complete_tiered rts src ft d).
Proof.
  intros Hd Hp Hft. unfold complete_tiered.
  assert (draft_ok (complete_mode rts src ft d) ∧ (ft = EXPR → MODE ∈ mkeys (complete_mode rts src ft d))) as [Hd' Hm].
  { assert (∀ v, draft_ok (mset MODE v d) ∧ MODE ∈ mkeys (mset MODE v d)) as Hset.
    { intros v. assert (MODE ∈ mkeys (mset MODE v d)) by (apply elem_of_mkeys_mset; by left).
      split; [split|]; [|done..]. by apply base_tiered. }
    unfold complete_mode. repeat case_match; bsplit; split; try (intros; by apply Hset); try done. split; [done|].
    intros Hx. by destruct (Hp Hx). }
  unfold offered_value.
  destruct (isSelectableUpstreamValue (upstream_value rts EXPR src)) eqn:E; [|done].
  destruct Hft as [->|]; [|done]. case_match; [|done]. destruct Hd' as [Hb _]. split; [by apply base_tiered|].
  intros _. apply elem_of_mkeys_mset. auto.
Qed.

Lemma upstream_known diffs model rts rt src v : differences_ok diffs → mget model diffs = Some rts →
  upstream_value rts rt src = Some v → rt ∈ SYNC_FIELD_ORDER.
Proof.
  intros [_ Hd] Hm Hv. eapply Hd; [by apply mget_Some_elem|]. unfold upstream_value in Hv.
  apply mget_is_Some. destruct (mget rt rts); [done|discriminate].
Qed.

Lemma preferred_cases rts rt src : getPreferredSyncField rts rt src = rt
    ∧ (rt = EXPR ∨ isSelectableUpstreamValue (upstream_value rts EXPR src) = false)
  ∨ getPreferredSyncField rts rt src = EXPR ∧ rt ≠ EXPR ∧ isSelectableUpstreamValue (upstream_value rts EXPR src) = true.
Proof. unfold getPreferredSyncField. case_bool_decide; destruct (isSelectableUpstreamValue _); simpl; naive_solver. Qed.

Lemma displaced_false c rt : displaced c rt = false ↔ c = Tiered ∨ getBillingCategory rt = Tiered ∨ getBillingCategory rt = c.
Proof. unfold displaced. repeat case_bool_decide; simpl; naive_solver. Qed.

Lemma select_ok diffs s d : differences_ok diffs → offered diffs s → draft_ok d → draft_ok (select_in_draft diffs s d).
Proof.
  intros Hdiffs (rts & Hm & Hv & _) [Hb Hp]. unfold select_in_draft. rewrite Hm.
  assert (s_type (resolveResolutionSelection diffs s) = getPreferredSyncField rts (s_type s) (s_source s)) as Er.
  { unfold resolveResolutionSelection. by rewrite Hm. }
  generalize (s_value (resolveResolutionSelection diffs s)). intros v. rewrite Er. clear Er.
  pose proof (upstream_known _ _ _ _ _ _ Hdiffs Hm Hv) as Hknown.
  case_bool_decide as Hc.
  - (* expression billing keeps every field *)
    apply draft_complete.
    + apply base_tiered; [by apply base_filter|done].
    + rewrite !elem_of_mkeys_mset, !elem_of_kept. intros [E|[_ Hx]]; [by right|left]. right.
      split; [|auto]. rewrite displaced_false, Hc. by left.
    + destruct (preferred_cases rts (s_type s) (s_source s)) as [[-> ?]|[-> _]]; auto.
  - (* another method displaces the fields of the third *)
    destruct (preferred_cases rts (s_type s) (s_source s)) as [[E HE]|[E _]]; rewrite E in *; [|by rewrite tiered_expr in Hc].
    split.
    + apply base_mset; [by apply base_filter|done|]. intros a [Ha _]%elem_of_kept. rewrite displaced_false in Ha. naive_solver.
    + rewrite !elem_of_mkeys_mset, !elem_of_kept. intros [Ex|[_ Hx]].
      * rewrite <- Ex, tiered_expr in Hc. done.
      * right. split; [|auto]. rewrite displaced_false. right; left. apply tiered_mode.
Qed.

Lemma select_one_ok diffs r s : differences_ok diffs → offered diffs s → resolutions_ok r → resolutions_ok (select_one diffs r s).
Proof.
  intros Hd Hs [Hn Hr]. unfold select_one. split; [by apply mkeys_mset_NoDup|]. intros model d. rewrite mget_mset. case_decide.
  - intros [= <-]. split; [apply select_nonempty|]. apply select_ok; [done..|].
    destruct (mget (s_model s) r) as [d0|] eqn:E; [by apply (Hr _ _ E)|apply draft_nil].
  - apply Hr.
Qed.

Lemma selections_ok diffs r ss : differences_ok diffs → Forall (offered diffs) ss → resolutions_ok r →
  resolutions_ok (applyResolutionSelections r diffs ss).
Proof.
  rewrite selections_fold. intros Hd Hs. revert r. induction Hs as [|s ss Hs _ IH]; intros r Hr; [done|].
  apply IH. by apply select_one_ok.
Qed.

(** ** Removals *)

(** The fields that go when [rt] is unselected: itself, and its partner in
    expression billing *)
Definition goes_with (rt k : jsstr) : bool :=
  bool_decide (k = rt) || bool_decide (rt = EXPR) && bool_decide (k = MODE) || bool_decide (rt = MODE) && bool_decide (k = EXPR).

Lemma goes_with_true rt k : goes_with rt k = true ↔ k = rt ∨ (rt = EXPR ∧ k = MODE) ∨ (rt = MODE ∧ k = EXPR).
Proof. unfold goes_with. rewrite !orb_true_iff, !andb_true_iff, !bool_decide_eq_true. tauto. Qed.

Lemma mget_delete_field d rt k : mget k (delete_field d rt) = if goes_with rt k then None else mget k d.
Proof.
  unfold delete_field, goes_with. generalize EXPR MODE. intros e m.
  repeat case_bool_decide; subst; cbn [andb orb]; rewrite ?mget_mdel; repeat case_decide; subst; congruence.
Qed.

Lemma mget_delete_fields d rts k : mget k (foldl delete_field d rts) = if existsb (fun rt => goes_with rt k) rts then None else mget k d.
Proof.
  revert d. induction rts as [|rt rts IH]; intros d; [done|]. cbn [foldl existsb]. rewrite IH, mget_delete_field.
  destruct (goes_with rt k); simpl; [by destruct (existsb _ rts)|done].
Qed.

Lemma delete_field_ok d rt : draft_ok d → draft_ok (delete_field d rt).
Proof.
  intros [[Hn He Hk] Hp].
  assert (∀ a, a ∈ mkeys (delete_field d rt) → a ∈ mkeys d) as Hsub.
  { intros a. rewrite <- !mget_is_Some, mget_delete_field. destruct (goes_with rt a); [by intros []|done]. }
  split; [split|].
  - unfold delete_field. repeat case_bool_decide; auto using mkeys_mdel_NoDup.
  - intros a b Ha Hb. by apply He; apply Hsub.
  - intros a Ha. by apply Hk, Hsub.
  - intros Hx. pose proof (Hsub _ Hx) as Hx'. apply mget_is_Some in Hx. rewrite mget_delete_field in Hx.
    apply mget_is_Some. rewrite mget_delete_field. destruct (goes_with rt EXPR) eqn:E; [by destruct Hx|].
    assert (goes_with rt MODE = false) as ->; [|by apply mget_is_Some, Hp].
    apply not_true_iff_false. intros Hg. apply goes_with_true in Hg. apply not_true_iff_false in E. apply E, goes_with_true.
    destruct Hg as [Hg|[[Hg _]|[Hg _]]]; auto.
Qed.

Lemma delete_fields_ok d rts : draft_ok d → draft_ok (foldl delete_field d rts).
Proof. revert d. induction rts as [|rt rts IH]; intros d Hd; [done|]. apply IH. by apply delete_field_ok. Qed.

Lemma mget_commit next m d k : mget k (commit_draft next (m, d))
  = if decide (k = m) then (match d with [] => None | _ => Some d end) else mget k next.
Proof. unfold commit_draft. cbn [fst snd]. destruct d; rewrite ?mget_mdel, ?mget_mset; repeat case_decide; subst; congruence. Qed.

(** What a plan leaves of a model *)
Definition planned (cur : ModelResolution) (types : list jsstr) : option ModelResolution :=
  match foldl delete_field cur types with [] => None | d => Some d end.

Lemma mget_remove r next plan model : NoDup (mkeys plan) →
  mget model (foldl (remove_planned r) next plan)
  = match mget model plan, mget model r with Some types, Some cur => planned cur types | _, _ => mget model next end.
Proof.
  revert next. induction plan as [|[m types] plan IH]; intros next Hnd; [done|]. unfold mkeys in Hnd. rewrite fmap_cons in Hnd.
  apply NoDup_cons in Hnd as [Hm Hnd]. cbn [foldl mget fst] in *. rewrite IH by done. unfold remove_planned. cbn [fst snd].
  case_decide as E.
  - subst m. apply mget_None in Hm. rewrite Hm. destruct (mget model r) as [cur|]; [|done].
    rewrite mget_commit, decide_True by done. unfold planned. by destruct (foldl delete_field cur types).
  - destruct (mget model plan), (mget model r), (mget m r); try done; by rewrite mget_commit, decide_False.
Qed.

Lemma mget_removal r plan model : NoDup (mkeys plan) →
  mget model (applyResolutionRemovalPlan r plan)
  = match mget model plan, mget model r with Some types, Some cur => planned cur types | _, _ => mget model r end.
Proof. intros Hnd. destruct plan; [done|]. unfold applyResolutionRemovalPlan. by rewrite mget_remove. Qed.

Lemma commit_NoDup next d : NoDup (mkeys next) → NoDup (mkeys (commit_draft next d)).
Proof. unfold commit_draft. destruct d.2; auto using mkeys_mdel_NoDup, mkeys_mset_NoDup. Qed.

Lemma removal_ok r plan : NoDup (mkeys plan) → resolutions_ok r → resolutions_ok (applyResolutionRemovalPlan r plan).
Proof.
  intros Hp [Hn Hr]. split.
  - destruct plan as [|q plan]; [done|]. unfold applyResolutionRemovalPlan. clear Hp Hr. generalize (q :: plan). clear q plan.
    intros plan. revert Hn. generalize r at 1 3. induction plan as [|q plan IH]; intros next Hn; [done|]. cbn [foldl]. apply IH.
    unfold remove_planned. case_match; [by apply commit_NoDup|done].
  - intros model d. rewrite mget_removal by done.
    destruct (mget model plan) as [types|], (mget model r) as [cur|] eqn:E; try (rewrite E in *; by auto); try done.
    + unfold planned. pose proof (delete_fields_ok cur types (proj2 (Hr _ _ E))) as Hd.
      destruct (foldl delete_field cur types) eqn:Ef; [done|]. by intros [= <-].
    + intros [= <-]. by apply Hr with model.
Qed.

Lemma plan_add_NoDup m rt plan : NoDup (mkeys plan) → NoDup (mkeys (plan_add m rt plan)).
Proof. unfold plan_add. case_match; apply mkeys_mset_NoDup. Qed.

Definition planned_types (plan : ResolutionRemovalPlan) (m : jsstr) : list jsstr := default [] (mget m plan).

Lemma elem_of_plan_add m rt plan m' rt' :
  rt' ∈ planned_types (plan_add m rt plan) m' ↔ (m' = m ∧ rt' = rt) ∨ rt' ∈ planned_types plan m'.
Proof.
  unfold planned_types, plan_add. destruct (mget m plan) as [types|] eqn:E; rewrite mget_mset; case_decide; subst; cbn.
  - rewrite E, elem_of_sadd. cbn. naive_solver.
  - naive_solver.
  - rewrite E. cbn. set_solver.
  - naive_solver.
Qed.

Lemma plan_of_spec {A} (fm ft : A → jsstr) l plan : NoDup (mkeys plan) →
  let p := foldl (fun p x => plan_add (fm x) (ft x) p) plan l in
  NoDup (mkeys p) ∧ ∀ m rt, rt ∈ planned_types p m ↔ rt ∈ planned_types plan m ∨ ∃ x, x ∈ l ∧ fm x = m ∧ ft x = rt.
Proof.
  revert plan. induction l as [|x l IH]; intros plan Hnd; cbn [foldl]; [set_solver|].
  destruct (IH (plan_add (fm x) (ft x) plan)) as [H1 H2]; [by apply plan_add_NoDup|].
  split; [done|]. intros m rt. rewrite H2, elem_of_plan_add. set_solver.
Qed.

(** Everything removed is gone, and nothing else is. *)
Lemma resolved_removal r plan model k : NoDup (mkeys plan) →
  resolved (applyResolutionRemovalPlan r plan) model k
  = if existsb (fun rt => goes_with rt k) (planned_types plan model) then None else resolved r model k.
Proof.
  intros Hnd. unfold resolved, planned_types. rewrite mget_removal by done.
  destruct (mget model plan) as [types|], (mget model r) as [cur|]; cbn -[existsb]; try done.
  - unfold planned. pose proof (mget_delete_fields cur types k) as E.
    destruct (foldl delete_field cur types); cbn -[existsb] in *; by rewrite <- E.
  - by destruct (existsb _ _).
Qed.

(** ** A whole column *)

(** A selection that stands for itself: no expression of its source takes precedence *)
Definition direct (diffs : DifferencesMap) (s : ResolutionSelection) : Prop :=
  ∃ rts, mget (s_model s) diffs = Some rts ∧ upstream_value rts (s_type s) (s_source s) = Some (s_value s)
    ∧ is_same (s_value s) = false ∧ getPreferredSyncField rts (s_type s) (s_source s) = s_type s.

Lemma direct_offered diffs s : direct diffs s → offered diffs s.
Proof. intros (rts & ? & ? & ? & _). by exists rts. Qed.

Lemma direct_resolve diffs s : direct diffs s → resolveResolutionSelection diffs s = s.
Proof.
  intros (rts & Hm & _ & _ & Hp). unfold resolveResolutionSelection. rewrite Hm. cbn [default from_option id].
  rewrite Hp, bool_decide_true by done. by destruct s.
Qed.

Lemma direct_value diffs s s' : direct diffs s → direct diffs s' → s_source s = s_source s' → s_model s = s_model s' →
  s_type s = s_type s' → s_value s = s_value s'.
Proof. intros (rts & Hm & Hv & _) (rts' & Hm' & Hv' & _) Hs Ho Ht. rewrite Ho, Hm' in Hm. simplify_eq. rewrite Hs, Ht, Hv' in Hv. by simplify_eq. Qed.

Lemma mget_complete rts src ft d k : mget k (complete_tiered rts src ft d) =
  if decide (k = EXPR) then from_option Some (mget EXPR d) (offered_value (upstream_value rts EXPR src))
  else if decide (k = MODE)
  then from_option Some (if bool_decide (ft = EXPR) then Some (VStr (js "tiered_expr")) else mget MODE d) (offered_value (upstream_value rts MODE src))
  else mget k d.
Proof.
  pose proof mode_not_expr as Hne. unfold complete_tiered, complete_mode. revert Hne. generalize EXPR MODE. intros e m Hne.
  destruct (offered_value (upstream_value rts e src)), (offered_value (upstream_value rts m src)); cbn [from_option];
    repeat case_bool_decide; rewrite ?mget_mset; repeat case_decide; subst; rewrite ?mget_mset; repeat case_decide; congruence.
Qed.

(** The categories that a model may have together *)
Definition compatible (a b : jsstr) : Prop :=
  getBillingCategory a = Tiered ∨ getBillingCategory b = Tiered ∨ getBillingCategory a = getBillingCategory b.

Lemma mget_kept (f : jsstr → bool) (d : ModelResolution) k : mget k (filter (fun e => f e.1 = false) d) = if f k then None else mget k d.
Proof. etrans; [exact (mget_filter (fun k => f k = false) k d)|]. case_decide; destruct (f k); congruence. Qed.

(** The value of a field after a selection that stands for itself *)
Lemma mget_select diffs s d k rts : direct diffs s → mget (s_model s) diffs = Some rts → mget k (select_in_draft diffs s d) =
  let base := if decide (k = s_type s) then Some (s_value s)
              else if displaced (getBillingCategory (s_type s)) k then None else mget k d in
  if bool_decide (getBillingCategory (s_type s) = Tiered) then
    if decide (k = EXPR) then from_option Some base (offered_value (upstream_value rts EXPR (s_source s)))
    else if decide (k = MODE)
    then from_option Some (if bool_decide (s_type s = EXPR) then Some (VStr (js "tiered_expr")) else base) (offered_value (upstream_value rts MODE (s_source s)))
    else base
  else base.
Proof.
  intros Hd Hm. unfold select_in_draft. rewrite direct_resolve, Hm by done. cbv zeta.
  assert (∀ k, mget k (mset (s_type s) (s_value s) (filter (fun e => displaced (getBillingCategory (s_type s)) e.1 = false) d))
    = if decide (k = s_type s) then Some (s_value s) else if displaced (getBillingCategory (s_type s)) k then None else mget k d) as E.
  { intros j. rewrite mget_mset, mget_kept. repeat case_decide; congruence. }
  case_bool_decide; [|apply E]. rewrite mget_complete, !E. repeat case_decide; subst; try done.
Qed.

Lemma direct_offered_value diffs s rts : direct diffs s → mget (s_model s) diffs = Some rts →
  offered_value (upstream_value rts (s_type s) (s_source s)) = Some (s_value s).
Proof.
  intros (rts' & Hm & Hv & Hs & _) Hm'. rewrite Hm in Hm'. simplify_eq. unfold offered_value. rewrite Hv. cbn. by rewrite Hs.
Qed.

Lemma select_keeps diffs r s s' : direct diffs s → direct diffs s' → s_source s = s_source s' →
  (s_model s = s_model s' → compatible (s_type s) (s_type s')) →
  s = s' ∨ resolved r (s_model s) (s_type s) = Some (s_value s) →
  resolved (select_one diffs r s') (s_model s) (s_type s) = Some (s_value s).
Proof.
  intros Hs Hs' Hsrc Hc Hr. unfold resolved, select_one. rewrite mget_mset. case_decide as Em; [|destruct Hr as [->|Hr]; done].
  cbn [mbind option_bind]. pose proof Hs' as (rts & Hm & _). rewrite (mget_select _ _ _ _ _ Hs' Hm). cbv zeta.
  assert ((if decide (s_type s = s_type s') then Some (s_value s')
           else if displaced (getBillingCategory (s_type s')) (s_type s) then None else mget (s_type s) (default [] (mget (s_model s') r)))
          = Some (s_value s)) as Hbase.
  { case_decide as Et; [f_equal; symmetry; by eapply direct_value|].
    assert (displaced (getBillingCategory (s_type s')) (s_type s) = false) as ->.
    { rewrite displaced_false. destruct (Hc (eq_sym Em)) as [?|[?|?]]; auto. }
    destruct Hr as [->|Hr]; [done|]. unfold resolved in Hr. rewrite <- Em in Hr. destruct (mget (s_model s') r); [done|discriminate]. }
  pose proof (direct_offered_value diffs s rts Hs ltac:(by rewrite <- Em)) as Ho. rewrite Hsrc in Ho.
  rewrite Hbase. case_bool_decide; [|done].
  destruct (decide (s_type s = EXPR)) as [E|_]; [by rewrite <- E, Ho|].
  destruct (decide (s_type s = MODE)) as [E|_]; [by rewrite <- E, Ho|done].
Qed.

Lemma fold_selected diffs src ss r : Forall (fun s => direct diffs s ∧ s_source s = src) ss →
  (∀ s s', s ∈ ss → s' ∈ ss → s_model s = s_model s' → compatible (s_type s) (s_type s')) →
  ∀ s, s ∈ ss → resolved (foldl (select_one diffs) r ss) (s_model s) (s_type s) = Some (s_value s).
Proof.
  induction ss as [|s' ss IH] using rev_ind; intros Hd Hc s Hs; [set_solver|].
  apply Forall_app in Hd as [Hd Hd']. rewrite Forall_singleton in Hd'. destruct Hd' as [Hd' Hsrc'].
  rewrite foldl_app. cbn [foldl].
  assert (direct diffs s ∧ s_source s = src) as [Hds Hsrc].
  { apply elem_of_app in Hs as [Hs|Hs%list_elem_of_singleton]; [|by subst]. rewrite Forall_forall in Hd. by apply Hd. }
  apply select_keeps; [done..|congruence| |].
  - apply Hc; [done|]. set_solver.
  - apply elem_of_app in Hs as [Hs|Hs%list_elem_of_singleton]; [right|by left].
    apply IH; [done| |done]. intros a b Ha Hb. apply Hc; set_solver.
Qed.

Lemma aligned_visible rts src flt rt : rt ∈ getAlignedRatioTypes rts [src] flt →
  rt ∈ getOrderedRatioTypes rts flt ∧ getPreferredSyncField rts rt src = rt.
Proof.
  unfold getAlignedRatioTypes. rewrite list_elem_of_filter, elem_of_uniq. cbn [mbind list_bind]. rewrite app_nil_r.
  unfold getVisibleRatioTypesForSource. rewrite list_elem_of_filter. tauto.
Qed.

Lemma column_direct diffs rows flt src s : NoDup (mkeys diffs) → (∀ row, row ∈ rows → row ∈ dataSource diffs) →
  s ∈ column_selections rows flt src → direct diffs s ∧ s_source s = src.
Proof.
  intros Hnd Hrows. unfold column_selections. rewrite list_elem_of_bind. intros (row & Hs & Hrow).
  unfold row_selections in Hs. rewrite list_elem_of_omap in Hs. destruct Hs as (rt & Hrt & Hs).
  apply aligned_visible in Hrt as [_ Hp].
  specialize (Hrows _ Hrow). unfold dataSource in Hrows. apply list_elem_of_fmap in Hrows as ([model rts] & -> & Hin).
  rewrite elem_of_own_fields in Hin. cbn [row_types row_model] in *.
  destruct (isSelectableUpstreamValue _) eqn:E; [|done]. destruct (upstream_value rts rt src) as [v|] eqn:Ev; [|done].
  cbn in Hs. simplify_eq. split; [|done]. exists rts. cbn. repeat split; [by apply elem_mget|done|by apply negb_true_iff in E|done].
Qed.

Lemma filtered_data lower diffs search flt row : row ∈ filteredData lower diffs search flt → row ∈ dataSource diffs.
Proof. unfold filteredData. repeat case_match; rewrite ?list_elem_of_filter; tauto. Qed.

(** The effective selections are among the given ones and compatible with each other. *)
Lemma effective_inv diffs ss m : Forall (direct diffs) ss →
  (∀ e, e ∈ m → e.2 ∈ ss) → (∀ e e', e ∈ m → e' ∈ m → s_model e.2 = s_model e'.2 → compatible (s_type e.2) (s_type e'.2)) →
  ∀ ss', (∀ s, s ∈ ss' → s ∈ ss) →
  let m' := foldl (add_effective diffs) m ss' in
  (∀ e, e ∈ m' → e.2 ∈ ss) ∧ (∀ e e', e ∈ m' → e' ∈ m' → s_model e.2 = s_model e'.2 → compatible (s_type e.2) (s_type e'.2)).
Proof.
  intros Hd Hin Hc ss'. revert m Hin Hc. induction ss' as [|s ss' IH]; intros m Hin Hc Hss; [done|].
  cbn [foldl]. assert (s ∈ ss) as Hs by (apply Hss; constructor). rewrite Forall_forall in Hd.
  assert (∀ e, e ∈ add_effective diffs m s → e.2 = s
    ∨ e ∈ m ∧ (s_model e.2 = s_model s → compatible (s_type s) (s_type e.2))) as Hadd.
  { intros e He. unfold add_effective in He. rewrite direct_resolve in He by (by apply Hd). apply mset_value in He as [->|He]; [by left|].
    apply list_elem_of_filter in He as [Hf He]. right. split; [done|]. intros Em. rewrite bool_decide_true in Hf by done.
    cbn [andb] in Hf. apply displaced_false in Hf. unfold compatible. destruct Hf as [?|[?|?]]; auto. }
  assert (∀ a b, compatible a b → compatible b a) as Hsym by (unfold compatible; intuition congruence).
  apply IH.
  - intros e He. destruct (Hadd _ He) as [->|[He' _]]; auto.
  - intros e e' He He' Em. destruct (Hadd _ He) as [E1|[H1 H1c]], (Hadd _ He') as [E2|[H2 H2c]]; try rewrite E1 in Em |- *; try rewrite E2 in Em |- *; auto.
    by right; right.
  - intros s' Hs'. apply Hss. by constructor.
Qed.

Lemma effective_spec diffs ss : Forall (direct diffs) ss →
  (∀ s, s ∈ getEffectiveResolutionSelections diffs ss → s ∈ ss)
  ∧ (∀ s s', s ∈ getEffectiveResolutionSelections diffs ss → s' ∈ getEffectiveResolutionSelections diffs ss →
       s_model s = s_model s' → compatible (s_type s) (s_type s')).
Proof.
  intros Hd. destruct (effective_inv diffs ss [] Hd) with (ss' := ss) as [H1 H2]; [set_solver..|].
  unfold getEffectiveResolutionSelections. split.
  - intros s [k Hk]%elem_of_mvalues. by apply (H1 (k, s)).
  - intros s s' [k Hk]%elem_of_mvalues [k' Hk']%elem_of_mvalues. by apply (H2 (k, s) (k', s')).
Qed.

(** A value that equals itself in the comparison of its field; every number of a
    JSON text does. *)
Definition comparable (rt : jsstr) (v : SyncValue) : bool :=
  if bool_decide (rt ∈ NUMERIC_SYNC_FIELDS) then num_isFinite (to_number v) else same_value v v.

Lemma num_eqb_refl x : num_isFinite x = true → num_eqb x x = true.
Proof. destruct x; try done. intros _. cbn. apply Z.eqb_refl. Qed.

Lemma selected_value r s : is_same (s_value s) = false → comparable (s_type s) (s_value s) = true →
  resolved r (s_model s) (s_type s) = Some (s_value s) →
  isSelectedResolutionValue r (s_model s) (s_type s) (Some (s_value s)) = true.
Proof.
  intros Hs Hc Hr. unfold isSelectedResolutionValue, comparable in *. rewrite Hs, Hr. case_bool_decide; [|done].
  by rewrite Hc, num_eqb_refl.
Qed.

Lemma unselected_value r s : resolved r (s_model s) (s_type s) = None →
  isSelectedResolutionValue r (s_model s) (s_type s) (Some (s_value s)) = false.
Proof. intros Hr. unfold isSelectedResolutionValue. rewrite Hr. by case_match. Qed.

(** Selecting a whole column leaves every selectable value of it selected, and
    unselecting it leaves none; unselecting removes the fields of the column and the
    partners of its expressions, and keeps every other choice. *)
Theorem bulk_select_spec lower p search flt src :
  NoDup (mkeys (differences p)) →
  (∀ s, offered (differences p) s → comparable (s_type s) (s_value s) = true) →
  let count q := (selectedCount (page_bulk lower q search flt src), selectableCount (page_bulk lower q search flt src)) in
  let column := column_selections (filteredData lower (differences p) search flt) flt src in
  (count (handleBulkSelect lower p search flt src)).1 = (count p).2
  ∧ (count (handleBulkUnselect lower p search flt src)).1 = 0
  ∧ (∀ model k, resolved (resolutions (handleBulkUnselect lower p search flt src)) model k
       = if decide (Exists (fun s => s_model s = model ∧ goes_with (s_type s) k = true) column) then None
         else resolved (resolutions p) model k).
Proof.
  intros Hnd Hcmp count column. unfold count, page_bulk, handleBulkSelect, handleBulkUnselect, handleSelectValues, handleUnselectValues, with_resolutions.
  cbn [selectedCount selectableCount differences resolutions bulkSelectState selections removalPlan page_bulk fst snd].
  set (eff := getEffectiveResolutionSelections (differences p) _). fold column in eff |- *.
  assert (Forall (fun s => direct (differences p) s ∧ s_source s = src) column) as Hcol.
  { apply Forall_forall. intros s Hs. eapply column_direct; [done|apply filtered_data|done]. }
  destruct (effective_spec (differences p) column) as [Hsub Hcompat]; [by eapply Forall_impl; [exact Hcol|naive_solver]|].
  assert (Forall (fun s => direct (differences p) s ∧ s_source s = src) eff) as Heff.
  { apply Forall_forall. intros s Hs. rewrite Forall_forall in Hcol. by apply Hcol, Hsub. }
  destruct (plan_of_spec s_model s_type column []) as [Hpn Hplan]; [constructor|]. cbv zeta in Hpn, Hplan.
  assert (∀ model rt, rt ∈ planned_types (foldl (fun q s => plan_add (s_model s) (s_type s) q) [] column) model
    ↔ ∃ s, s ∈ column ∧ s_model s = model ∧ s_type s = rt) as Hplan'.
  { intros model rt. rewrite Hplan. unfold planned_types at 1. cbn. set_solver. }
  split_and!.
  - rewrite filter_all; [done|]. apply Forall_forall. intros s Hs. rewrite Forall_forall in Heff. destruct (Heff _ Hs) as [Hd Hsrc].
    apply selected_value; [by destruct Hd as (? & ? & ? & ? & ?)|by apply Hcmp, direct_offered|].
    rewrite selections_fold. apply fold_selected with src; [by apply Forall_forall|done|done].
  - assert (∀ l, Forall (fun s => s ∈ eff) l → filter (fun s => isSelectedResolutionValue
      (applyResolutionRemovalPlan (resolutions p) (foldl (fun q s => plan_add (s_model s) (s_type s) q) [] column)) (s_model s) (s_type s) (Some (s_value s)) = true) l = []) as Hnone.
    { induction 1 as [|s l Hs _ IH]; [done|]. rewrite filter_cons_False; [done|]. rewrite unselected_value; [done|].
      rewrite resolved_removal by done. assert (existsb (fun rt => goes_with rt (s_type s)) (planned_types (foldl (fun q s => plan_add (s_model s) (s_type s) q) [] column) (s_model s)) = true) as ->; [|done].
      apply existsb_exists. exists (s_type s). split; [|apply goes_with_true; by left]. apply list_elem_of_In, Hplan'. eauto. }
    rewrite Hnone; [done|]. by apply Forall_forall.
  - intros model k. rewrite resolved_removal by done. case_decide as E.
    + assert (existsb (fun rt => goes_with rt k) (planned_types (foldl (fun q s => plan_add (s_model s) (s_type s) q) [] column) model) = true) as ->; [|done].
      apply existsb_exists. apply Exists_exists in E as (s & Hs & <- & Hg). exists (s_type s). split; [|done]. apply list_elem_of_In, Hplan'. eauto.
    + destruct (existsb _ _) eqn:Ex; [|done]. destruct E. apply existsb_exists in Ex as (rt & Hrt & Hg).
      apply list_elem_of_In, Hplan' in Hrt as (s & Hs & <- & <-). apply Exists_exists. eauto.
Qed.

(** ** Writing the settings *)

Section Sync.
Context (upper : jsstr → jsstr).

(** Upper case of the letters that field names are made of *)
Definition upper_ascii : Prop := ∀ c, (97 <= c <= 122)%N → upper [c] = [(c - 32)%N].

Notation key := (optionKeyBySyncField upper).

Lemma option_keys : upper_ascii → key <$> SYNC_FIELD_ORDER = OPTION_KEYS.
Proof.
  intros Hu.
  assert (∀ rt k, (let w := split_on (ch "_") rt in
     forallb (fun w => match w with c :: _ => ((97 <=? c) && (c <=? 122))%N | [] => false end) w
     && bool_decide (concat ((fun w => match w with c :: w => (c - 32)%N :: w | [] => [] end) <$> w) = k)
     && bool_decide (rt ≠ MODE) && bool_decide (rt ≠ EXPR)) = true → key rt = k) as Hk.
  { intros rt k H. cbv zeta in H. bsplit. unfold optionKeyBySyncField. rewrite !bool_decide_false by done. subst k. f_equal.
    apply forallb_Forall_true in H. induction H as [|w l Hw _ IH]; [done|]. rewrite !fmap_cons, IH. f_equal.
    destruct w as [|c w]; [done|]. cbn [take drop]. rewrite Hu; [done|]. bsplit. lia. }
  assert (Forall2 (fun rt k => key rt = k) SYNC_FIELD_ORDER OPTION_KEYS) as H2.
  { unfold SYNC_FIELD_ORDER, OPTION_KEYS, RATIO_SYNC_FIELDS, RATIO_OPTIONS. cbn [app].
    repeat (constructor; [first [apply Hk; by vm_compute|by vm_compute]|]). constructor. }
  induction H2 as [|rt k l l' H _ IH]; [done|]. by rewrite fmap_cons, H, IH.
Qed.

Lemma option_nodup : NoDup OPTION_KEYS. Proof. decided. Qed.
Lemma sync_nodup : NoDup SYNC_FIELD_ORDER. Proof. decided. Qed.

Lemma key_in rt : upper_ascii → rt ∈ SYNC_FIELD_ORDER → key rt ∈ OPTION_KEYS.
Proof. intros Hu Hrt. rewrite <- option_keys by done. by apply list_elem_of_fmap_2. Qed.

Lemma key_inj rt rt' : upper_ascii → rt ∈ SYNC_FIELD_ORDER → rt' ∈ SYNC_FIELD_ORDER → key rt = key rt' → rt = rt'.
Proof.
  intros Hu [i Hi]%list_elem_of_lookup [j Hj]%list_elem_of_lookup E.
  assert (OPTION_KEYS !! i = Some (key rt)) as Ki by (rewrite <- option_keys, list_lookup_fmap, Hi by done; done).
  assert (OPTION_KEYS !! j = Some (key rt')) as Kj by (rewrite <- option_keys, list_lookup_fmap, Hj by done; done).
  rewrite <- E in Kj. pose proof (NoDup_lookup _ _ _ _ option_nodup Ki Kj) as ->. congruence.
Qed.

(** The setting of a model under an option key *)
Definition setting (final : list (jsstr * ModelResolution)) (k model : jsstr) : option SyncValue := mget k final ≫= mget model.

Lemma setting_mset final k rec k' model : setting (mset k rec final) k' model = if decide (k = k') then mget model rec else setting final k' model.
Proof. unfold setting. rewrite mget_mset. by case_decide. Qed.

Lemma mkeys_mset_in {V} (k : jsstr) (v : V) m : k ∈ mkeys m → mkeys (mset k v m) = mkeys m.
Proof. intros H. by rewrite mkeys_mset, decide_True. Qed.

Lemma write_fields model l final : upper_ascii → mkeys final = OPTION_KEYS → NoDup (mkeys l) → (∀ rt, rt ∈ mkeys l → rt ∈ SYNC_FIELD_ORDER) →
  ∃ final', foldlM (write_field upper model) final l = Some final' ∧ mkeys final' = OPTION_KEYS
    ∧ ∀ rt m, rt ∈ SYNC_FIELD_ORDER → setting final' (key rt) m
        = if decide (m = model) then from_option (fun v => Some (numeric_value rt v)) (setting final (key rt) m) (mget rt l)
          else setting final (key rt) m.
Proof.
  intros Hu. revert final. induction l as [|[rt v] l IH]; intros final Hf Hnd Hk.
  { exists final. split_and!; [done..|]. intros. by case_decide. }
  unfold mkeys in Hnd, Hk. rewrite fmap_cons in Hnd, Hk. cbn [fst] in *. apply NoDup_cons in Hnd as [Hrt Hnd].
  assert (rt ∈ SYNC_FIELD_ORDER) as Hrtk by (apply Hk; constructor).
  assert (key rt ∈ mkeys final) as Hin by (rewrite Hf; by apply key_in).
  pose proof Hin as Hin'. apply mget_is_Some in Hin' as [rec Hrec]. cbn [foldlM].
  assert (write_field upper model final (rt, v) = Some (mset (key rt) (mset model (numeric_value rt v) rec) final)) as ->
    by (unfold write_field; cbn [fst snd]; by rewrite Hrec).
  cbn [mbind option_bind]. destruct (IH (mset (key rt) (mset model (numeric_value rt v) rec) final)) as (final' & -> & Hf' & Hs).
  { by rewrite mkeys_mset_in. }
  { done. }
  { intros. apply Hk. by constructor. }
  exists final'. split_and!; [done..|]. intros rt' m Hrt'. rewrite Hs by done. rewrite setting_mset. cbn [mget].
  destruct (decide (key rt = key rt')) as [E|E].
  - apply key_inj in E as <-; [|done..]. rewrite (decide_True (P := rt = rt)) by done.
    assert (mget rt l = None) as -> by (by apply mget_None). cbn [from_option].
    rewrite mget_mset. unfold setting. rewrite Hrec. cbn [mbind option_bind]. repeat case_decide; subst; congruence.
  - rewrite (decide_False (P := rt' = rt)) by congruence. done.
Qed.

Lemma drop_models model ks final : (∀ k, k ∈ ks → k ∈ mkeys final) →
  let final' := foldl (fun f k => drop_model model k f) final ks in
  mkeys final' = mkeys final ∧ ∀ k m, setting final' k m = if decide (m = model ∧ k ∈ ks) then None else setting final k m.
Proof.
  revert final. induction ks as [|k ks IH]; intros final Hks; cbn [foldl].
  { split; [done|]. intros. case_decide; [set_solver|done]. }
  assert (k ∈ mkeys final) as Hk by (apply Hks; constructor). pose proof Hk as Hk'. apply mget_is_Some in Hk' as [rec Hrec].
  assert (drop_model model k final = mset k (mdel model rec) final) as -> by (unfold drop_model; by rewrite Hrec).
  destruct (IH (mset k (mdel model rec) final)) as [H1 H2]; [intros; rewrite mkeys_mset_in by done; apply Hks; by constructor|].
  cbv zeta in *. rewrite H1, mkeys_mset_in by done. split; [done|]. intros j m. rewrite H2, setting_mset, mget_mdel.
  unfold setting. repeat case_decide; subst; rewrite ?Hrec; cbn [mbind option_bind]; try done; set_solver.
Qed.

Lemma has_price_spec ratios : has_price ratios = true ↔ PRICE ∈ mkeys ratios.
Proof. unfold has_price. by rewrite bool_decide_eq_true, elem_of_Object_keys. Qed.

Lemma has_ratio_spec ratios : has_ratio ratios = true ↔ ∃ rt, rt ∈ mkeys ratios ∧ rt ∈ RATIO_SYNC_FIELDS.
Proof.
  unfold has_ratio. rewrite existsb_exists. split; intros (rt & H1 & H2).
  - rewrite bool_decide_eq_true in H2. rewrite <- list_elem_of_In, elem_of_Object_keys in H1. by exists rt.
  - exists rt. rewrite bool_decide_eq_true. split; [|done]. by apply list_elem_of_In, elem_of_Object_keys.
Qed.

(** What the choices for a model make of one of its settings: the chosen value,
    nothing when the other billing method was chosen, or what was there *)
Definition synced (ratios : ModelResolution) (rt : jsstr) (old : option SyncValue) : option SyncValue :=
  match mget rt ratios with
  | Some v => Some (numeric_value rt v)
  | None => if has_price ratios && bool_decide (rt ∈ RATIO_SYNC_FIELDS) || has_ratio ratios && bool_decide (rt = PRICE) then None else old
  end.

Lemma ratio_option rt : upper_ascii → rt ∈ SYNC_FIELD_ORDER → key rt ∈ RATIO_OPTIONS ↔ rt ∈ RATIO_SYNC_FIELDS.
Proof.
  intros Hu Hrt. assert (key <$> RATIO_SYNC_FIELDS = RATIO_OPTIONS) as E.
  { pose proof (option_keys Hu) as E. unfold SYNC_FIELD_ORDER, OPTION_KEYS in E. rewrite fmap_app in E. by apply app_inj_1 in E as [E _]. }
  rewrite <- E, list_elem_of_fmap. split; [|by eauto]. intros (rt' & Ek & Hrt').
  apply key_inj in Ek as ->; [done..|]. unfold SYNC_FIELD_ORDER. apply elem_of_app. by left.
Qed.

Lemma price_option : upper_ascii → key PRICE = PRICE_OPTION.
Proof.
  intros Hu. pose proof (option_keys Hu) as E. unfold SYNC_FIELD_ORDER, OPTION_KEYS in E. rewrite fmap_app in E.
  apply app_inj_1 in E as [_ E]; [|done]. cbn in E. by simplify_eq.
Qed.

Lemma ratio_known rt : rt ∈ RATIO_SYNC_FIELDS → rt ∈ SYNC_FIELD_ORDER.
Proof. intros. unfold SYNC_FIELD_ORDER. apply elem_of_app. by left. Qed.

Lemma price_known : PRICE ∈ SYNC_FIELD_ORDER. Proof. decided. Qed.
Lemma price_no_ratio : PRICE ∉ RATIO_SYNC_FIELDS. Proof. decided. Qed.

Lemma category_known_ratio rt : rt ∈ RATIO_SYNC_FIELDS → getBillingCategory rt = Ratio.
Proof.
  assert (Forall (fun rt => getBillingCategory rt = Ratio) RATIO_SYNC_FIELDS) as H.
  { unfold RATIO_SYNC_FIELDS. repeat (constructor; [by vm_compute|]). constructor. }
  rewrite Forall_forall in H. apply H.
Qed.

Lemma mget_own {V} k (m : list (jsstr * V)) : NoDup (mkeys m) → mget k (own_fields m) = mget k m.
Proof.
  intros Hnd. destruct (mget k m) as [v|] eqn:E.
  - apply elem_mget; [unfold mkeys; by rewrite own_fields_perm|]. rewrite elem_of_own_fields. by apply mget_Some_elem.
  - apply mget_None in E. apply mget_None. unfold mkeys in *. by rewrite own_fields_perm.
Qed.

Lemma drop_choice {A} (P Q R : Prop) `{Decision P, Decision Q, Decision R} (x : option A) : (Q ↔ R) →
  (if decide (P ∧ Q) then None else x) = (if decide P then (if bool_decide R then None else x) else x).
Proof. intros HQ. case_bool_decide; repeat case_decide; tauto. Qed.

Lemma sync_model_spec final model ratios : upper_ascii → mkeys final = OPTION_KEYS → draft_ok ratios →
  ∃ final', sync_model upper final (model, ratios) = Some final' ∧ mkeys final' = OPTION_KEYS
    ∧ ∀ rt m, rt ∈ SYNC_FIELD_ORDER → setting final' (key rt) m
        = if decide (m = model) then synced ratios rt (setting final (key rt) m) else setting final (key rt) m.
Proof.
  intros Hu Hf [[Hn He Hk] _]. unfold sync_model.
  set (f1 := if has_price ratios then _ else _).
  assert (mkeys f1 = OPTION_KEYS ∧ ∀ rt m, rt ∈ SYNC_FIELD_ORDER → setting f1 (key rt) m
    = if decide (m = model) then (if has_price ratios && bool_decide (rt ∈ RATIO_SYNC_FIELDS) then None else setting final (key rt) m) else setting final (key rt) m) as [Hf1 Hs1].
  { subst f1. destruct (has_price ratios); cbn [andb]; [|split; [done|intros; by case_decide]].
    destruct (drop_models model RATIO_OPTIONS final) as [H1 H2]; [rewrite Hf; intros; apply elem_of_app; by left|]. cbv zeta in *.
    rewrite H1. split; [done|]. intros rt m Hrt. rewrite H2. pose proof (ratio_option rt Hu Hrt) as Hro.
    apply drop_choice. exact Hro. }
  set (f2 := if has_ratio ratios then _ else _).
  assert (mkeys f2 = OPTION_KEYS ∧ ∀ rt m, rt ∈ SYNC_FIELD_ORDER → setting f2 (key rt) m
    = if decide (m = model) then (if has_ratio ratios && bool_decide (rt = PRICE) then None else setting f1 (key rt) m) else setting f1 (key rt) m) as [Hf2 Hs2].
  { subst f2. destruct (has_ratio ratios); cbn [andb]; [|split; [done|intros; by case_decide]].
    destruct (drop_models model [PRICE_OPTION] f1) as [H1 H2]; [rewrite Hf1; intros k ->%list_elem_of_singleton; decided|]. cbn [foldl] in *.
    rewrite H1. split; [done|]. intros rt m Hrt. rewrite H2.
    assert (key rt ∈ [PRICE_OPTION] ↔ rt = PRICE) as Hro.
    { rewrite list_elem_of_singleton, <- (price_option Hu). split; [|by intros ->]. apply key_inj; [done|done|apply price_known]. }
    apply drop_choice. exact Hro. }
  destruct (write_fields model (own_fields ratios) f2) as (final' & -> & Hf' & Hs'); [done|done| | |].
  { unfold mkeys. by rewrite own_fields_perm. }
  { intros rt Hrt. apply Hk. unfold mkeys in *. by rewrite own_fields_perm in Hrt. }
  exists final'. split_and!; [done..|]. intros rt m Hrt. rewrite Hs', Hs2, Hs1, mget_own by done. unfold synced.
  case_decide; [|done]. destruct (mget rt ratios); cbn [from_option]; [done|].
  destruct (has_price ratios && _), (has_ratio ratios && _); done.
Qed.

Lemma sync_models_spec l final : upper_ascii → mkeys final = OPTION_KEYS → NoDup (mkeys l) → (∀ e, e ∈ l → draft_ok e.2) →
  ∃ final', foldlM (sync_model upper) final l = Some final' ∧ mkeys final' = OPTION_KEYS
    ∧ ∀ rt m, rt ∈ SYNC_FIELD_ORDER → setting final' (key rt) m
        = from_option (fun ratios => synced ratios rt (setting final (key rt) m)) (setting final (key rt) m) (mget m l).
Proof.
  intros Hu. revert final. induction l as [|[model ratios] l IH]; intros final Hf Hnd Hl; [by exists final|].
  unfold mkeys in Hnd. rewrite fmap_cons in Hnd. apply NoDup_cons in Hnd as [Hm Hnd]. cbn [fst] in *.
  destruct (sync_model_spec final model ratios) as (f1 & Ef & Hf1 & Hs1); [done|done|apply (Hl (model, ratios)); constructor|].
  cbn [foldlM]. rewrite Ef. cbn [mbind option_bind].
  destruct (IH f1) as (final' & -> & Hf' & Hs); [done|done|intros; apply Hl; by constructor|].
  exists final'. split_and!; [done..|]. intros rt m Hrt. rewrite Hs, Hs1 by done. cbn [mget].
  case_decide; subst; [|done]. apply mget_None in Hm. by rewrite Hm.
Qed.

Lemma perform_sync r cur : upper_ascii → resolutions_ok r →
  ∃ final, performSync upper r cur = Some final ∧ mkeys final = OPTION_KEYS
    ∧ ∀ rt model, rt ∈ SYNC_FIELD_ORDER → setting final (key rt) model
        = from_option (fun ratios => synced ratios rt (mget model (cur (key rt)))) (mget model (cur (key rt))) (mget model r).
Proof.
  intros Hu [Hn Hr]. unfold performSync. set (start := (fun k => (k, cur k)) <$> OPTION_KEYS).
  assert (mkeys start = OPTION_KEYS) as Hstart by (unfold mkeys, start; rewrite <- list_fmap_compose; apply list_fmap_id).
  destruct (sync_models_spec (own_fields r) start) as (final & -> & Hf & Hs); [done|done|unfold mkeys; by rewrite own_fields_perm| |].
  { intros [m d] Hin. rewrite elem_of_own_fields in Hin. apply elem_mget in Hin; [|done]. by apply (Hr _ _ Hin). }
  exists final. split_and!; [done..|]. intros rt model Hrt. rewrite Hs, mget_own by done.
  assert (setting start (key rt) model = mget model (cur (key rt))) as ->; [|done].
  unfold setting. rewrite (elem_mget (key rt) (cur (key rt)) start); [done|by rewrite Hstart; apply option_nodup|].
  apply list_elem_of_fmap. exists (key rt). split; [done|by apply key_in].
Qed.

(** ** Asking before settings are lost *)

(** Local settings where no model has a fixed price and a ratio *)
Definition local_exclusive (cur : jsstr → ModelResolution) : Prop :=
  ∀ model k, is_Some (mget model (cur PRICE_OPTION)) → k ∈ RATIO_OPTIONS → mget model (cur k) = None.

(** A setting that synchronising removes *)
Definition loses (cur : jsstr → ModelResolution) (final : list (jsstr * ModelResolution)) (rt model : jsstr) : Prop :=
  rt ∈ SYNC_FIELD_ORDER ∧ is_Some (mget model (cur (key rt))) ∧ setting final (key rt) model = None.

Lemma new_category ratios :
  newCategory ratios = if has_price ratios then Price else if has_ratio ratios then Ratio else Tiered.
Proof.
  unfold newCategory, has_price. rewrite (bool_decide_ext _ (PRICE ∈ Object_keys ratios)) by (symmetry; apply elem_of_Object_keys).
  case_bool_decide; [done|].
  assert (existsb (fun rt => bool_decide (rt ∈ Object_keys ratios)) RATIO_SYNC_FIELDS = has_ratio ratios) as ->; [|done].
  apply eq_true_iff_eq. rewrite has_ratio_spec, existsb_exists. setoid_rewrite bool_decide_eq_true. setoid_rewrite elem_of_Object_keys.
  setoid_rewrite <- list_elem_of_In. split; intros (rt & H1 & H2); exists rt; split; assumption.
Qed.

Lemma local_category model cur : getLocalBillingCategory model cur = Some Price ↔ is_Some (mget model (cur PRICE_OPTION)).
Proof. unfold getLocalBillingCategory. case_bool_decide; [done|]. case_match; done. Qed.

Lemma local_category_ratio model cur : local_exclusive cur →
  getLocalBillingCategory model cur = Some Ratio ↔ ∃ k, k ∈ RATIO_OPTIONS ∧ is_Some (mget model (cur k)).
Proof.
  intros Hx. unfold getLocalBillingCategory. case_bool_decide as Hp.
  - split; [done|]. intros (k & Hk & Hs). rewrite (Hx _ _ Hp Hk) in Hs. by destruct Hs.
  - destruct (existsb _ _) eqn:E.
    + split; [|done]. intros _. apply existsb_exists in E as (k & Hk & Hs). rewrite bool_decide_eq_true in Hs. exists k. by rewrite list_elem_of_In.
    + split; [done|]. intros (k & Hk & Hs). apply not_true_iff_false in E. destruct E. apply existsb_exists. exists k.
      rewrite <- list_elem_of_In, bool_decide_eq_true. done.
Qed.

Lemma local_category_not_tiered model cur : getLocalBillingCategory model cur ≠ Some Tiered.
Proof. unfold getLocalBillingCategory. repeat case_match; done. Qed.

(** A model is in conflict when its choice changes the billing method it has. *)
Lemma model_conflict_spec t diffs cur model ratios : draft_ok ratios →
  is_Some (model_conflict t diffs cur (model, ratios)) ↔
  getLocalBillingCategory model cur = Some Price ∧ has_ratio ratios = true
  ∨ getLocalBillingCategory model cur = Some Ratio ∧ has_price ratios = true.
Proof.
  intros Hd. unfold model_conflict. rewrite new_category. pose proof (local_category_not_tiered model cur) as Ht.
  assert (has_price ratios = true → has_ratio ratios = true → False) as Hex.
  { rewrite has_price_spec, has_ratio_spec. intros Hp (rt & Hrt & Hr). destruct Hd as [[_ He _] _].
    apply (He PRICE rt); [done..|by apply category_price|by apply category_known_ratio]. }
  destruct (getLocalBillingCategory model cur) as [[]|], (has_price ratios), (has_ratio ratios); cbn; try done;
    (split; [first [by intros []|by auto]|naive_solver]).
Qed.

Lemma conflicts_lost t diffs r cur final : upper_ascii → resolutions_ok r → local_exclusive cur → performSync upper r cur = Some final →
  conflicts t diffs r cur ≠ [] ↔ ∃ rt model, loses cur final rt model.
Proof.
  intros Hu Hr Hx Hfinal. destruct (perform_sync r cur Hu Hr) as (final' & E & _ & Hs). rewrite Hfinal in E. simplify_eq. rename final' into final.
  destruct Hr as [Hn Hr].
  assert (conflicts t diffs r cur ≠ [] ↔ ∃ model ratios, mget model r = Some ratios ∧ is_Some (model_conflict t diffs cur (model, ratios))) as ->.
  { unfold conflicts. split.
    - intros Hne. destruct (omap _ _) as [|c cs] eqn:E; [done|]. assert (c ∈ omap (model_conflict t diffs cur) (own_fields r)) as Hc by (rewrite E; constructor).
      apply list_elem_of_omap in Hc as ([model ratios] & Hin & Hc). rewrite elem_of_own_fields in Hin.
      exists model, ratios. split; [by apply elem_mget|by rewrite Hc].
    - intros (model & ratios & Hm & [c Hc]) E. assert (c ∈ omap (model_conflict t diffs cur) (own_fields r)) as Hin.
      { apply list_elem_of_omap. exists (model, ratios). split; [|done]. rewrite elem_of_own_fields. by apply mget_Some_elem. }
      rewrite E in Hin. set_solver. }
  unfold loses. split.
  - intros (model & ratios & Hm & Hc). destruct (Hr _ _ Hm) as [_ Hd]. apply model_conflict_spec in Hc; [|done].
    destruct Hd as [[_ He _] _]. destruct Hc as [[Hl Hh]|[Hl Hh]].
    + exists PRICE, model. apply local_category in Hl. rewrite <- (price_option Hu) in Hl. split_and!; [apply price_known|done|].
      rewrite Hs, Hm by apply price_known. cbn [from_option]. unfold synced. rewrite Hh, (bool_decide_true (PRICE = PRICE)), orb_true_r by done.
      destruct (mget PRICE ratios) eqn:Ep; [|done]. apply has_ratio_spec in Hh as (rt & Hrt & Hrr). exfalso.
      apply (He PRICE rt); [by apply mget_is_Some; eauto|done|by apply category_price|by apply category_known_ratio].
    + apply local_category_ratio in Hl as (k & Hk & Hsome); [|done].
      assert (k ∈ OPTION_KEYS) as Hk' by (apply elem_of_app; by left). rewrite <- (option_keys Hu) in Hk'.
      apply list_elem_of_fmap in Hk' as (rt & -> & Hrt). exists rt, model. split_and!; [done..|].
      pose proof (proj1 (ratio_option rt Hu Hrt) Hk) as Hkr. rewrite Hs, Hm by done. cbn [from_option]. unfold synced. rewrite Hh, (bool_decide_true (rt ∈ _)) by done.
      destruct (mget rt ratios) eqn:Ep; [|done]. apply has_price_spec in Hh. exfalso.
      apply (He PRICE rt); [done|by apply mget_is_Some; eauto|by apply category_price|by apply category_known_ratio].
  - intros (rt & model & Hrt & Hsome & Hnone). rewrite Hs in Hnone by done.
    destruct (mget model r) as [ratios|] eqn:Hm; cbn [from_option] in Hnone; [|rewrite Hnone in Hsome; by destruct Hsome].
    exists model, ratios. split; [done|]. apply model_conflict_spec; [by apply (Hr _ _ Hm)|]. unfold synced in Hnone.
    destruct (mget rt ratios); [done|]. destruct (has_price ratios && bool_decide (rt ∈ RATIO_SYNC_FIELDS)) eqn:E1.
    + bsplit. right. split; [|done]. apply local_category_ratio; [done|]. exists (key rt). split; [by apply ratio_option|done].
    + destruct (has_ratio ratios && bool_decide (rt = PRICE)) eqn:E2; cbn [orb] in Hnone; [|rewrite Hnone in Hsome; by destruct Hsome].
      apply andb_true_iff in E2 as [? ->%bool_decide_eq_true]. left. split; [|done]. apply local_category. by rewrite <- (price_option Hu).
Qed.

(** C21. For choices that the page can hold ([resolutions_ok], an invariant of the
    page), and provided no model has a fixed price and a ratio in the local settings
    before ([local_exclusive]), applying asks for confirmation exactly when a local
    setting would be lost; otherwise it writes the ten settings.  A chosen field has its value (a number for a numeric field), a
    choice of one billing method drops the fields of the other, and every other
    setting keeps its value. *)
Theorem apply_sync_spec t p cur : upper_ascii → resolutions_ok (resolutions p) → local_exclusive cur →
  ∃ final, mkeys final = OPTION_KEYS
  ∧ (∀ rt model, rt ∈ SYNC_FIELD_ORDER → setting final (key rt) model
       = from_option (fun ratios => synced ratios rt (mget model (cur (key rt)))) (mget model (cur (key rt))) (mget model (resolutions p)))
  ∧ (handleApplySync upper t p cur = (p, Syncs (Some final)) ∧ (¬ ∃ rt model, loses cur final rt model)
     ∨ handleApplySync upper t p cur
         = (mkPage (differences p) (resolutions p) (conflicts t (differences p) (resolutions p) cur) true, Asks)
       ∧ ∃ rt model, loses cur final rt model).
Proof.
  intros Hu Hr Hx. destruct (perform_sync (resolutions p) cur Hu Hr) as (final & Hf & Hk & Hs).
  exists final. split_and!; [done..|]. pose proof (conflicts_lost t (differences p) _ _ _ Hu Hr Hx Hf) as Hc.
  unfold handleApplySync. destruct (conflicts t (differences p) (resolutions p) cur) as [|c cs].
  - left. rewrite Hf. split; [done|]. intros H. by apply Hc.
  - right. split; [done|]. by apply Hc.
Qed.

End Sync.

(** ** After a synchronisation *)

(** The steps of [pruneDifferences] as one list of fields *)
Definition resolved_fields (r : ResolutionsMap) : list (jsstr * jsstr) := e ← own_fields r; (fun rt => (e.1, rt)) <$> Object_keys e.2.

Definition prune_step (st : DifferencesMap * list jsstr) (x : jsstr * jsstr) : DifferencesMap * list jsstr := prune_field x.1 st x.2.

Lemma prune_steps l st : foldl prune_model st l = foldl prune_step st (e ← l; (fun rt => (e.1, rt)) <$> Object_keys e.2).
Proof.
  revert st. induction l as [|e l IH]; intros st; [done|]. cbn [foldl]. rewrite IH. cbn [mbind list_bind]. rewrite foldl_app. f_equal.
  unfold prune_model. generalize (Object_keys e.2). intros ks. revert st. induction ks as [|k ks IHk]; intros st; [done|].
  rewrite fmap_cons. cbn [foldl]. apply IHk.
Qed.

(** What is left of the fields of a model *)
Definition remaining (L : list (jsstr * jsstr)) (model : jsstr) (rts : RatioTypes) : RatioTypes :=
  filter (fun e => bool_decide ((model, e.1) ∈ L) = false) rts.

Record pruned (prev : DifferencesMap) (L : list (jsstr * jsstr)) (st : DifferencesMap * list jsstr) : Prop := {
  pr_keys : mkeys st.1 = mkeys prev;
  pr_shared : ∀ m, mget m st.1 = remaining L m <$> mget m prev;
  pr_present : ∀ m, m ∈ st.2 ↔ ∃ rts, mget m prev = Some rts ∧ (remaining L m rts = [] → rts = [])
}.

Lemma remaining_snoc L m rt m' rts : remaining (L ++ [(m, rt)]) m' rts = if decide (m' = m) then mdel rt (remaining L m' rts) else remaining L m' rts.
Proof.
  unfold remaining, mdel. case_decide as E.
  - subst m'. rewrite list_filter_filter. apply list_filter_iff. intros [k e]. cbn [fst]. rewrite !bool_decide_eq_false, elem_of_app, list_elem_of_singleton. naive_solver.
  - apply list_filter_iff. intros [k e]. cbn [fst]. rewrite !bool_decide_eq_false, elem_of_app, list_elem_of_singleton. naive_solver.
Qed.

Lemma mdel_absent {V} k (m : list (jsstr * V)) : k ∉ mkeys m → mdel k m = m.
Proof.
  intros H. unfold mdel. apply filter_all, Forall_forall. intros [j w] Hin E. cbn in E. subst j. destruct H. by apply (list_elem_of_fmap_2 fst) in Hin.
Qed.

(** A step that changes nothing *)
Lemma pruned_same prev L x st : (∀ m rts, mget m prev = Some rts → remaining (L ++ [x]) m rts = remaining L m rts) →
  pruned prev L st → pruned prev (L ++ [x]) st.
Proof.
  intros Heq [Hk Hs Hp]. split; [done| |].
  - intros m. rewrite Hs. destruct (mget m prev) as [rts|] eqn:Em; [|done]. cbn. by rewrite Heq.
  - intros m. rewrite Hp. f_equiv. intros rts. split; intros [Hm H]; (split; [done|]); rewrite Heq in *; done.
Qed.

(** A step that removes a field of [m] *)
Lemma pruned_removed prev L m rt rts shared present : pruned prev L (shared, present) → mget m prev = Some rts →
  rt ∈ mkeys (remaining L m rts) →
  pruned prev (L ++ [(m, rt)])
    (mset m (mdel rt (remaining L m rts)) shared,
     match mdel rt (remaining L m rts) with [] => filter (fun j => j ≠ m) present | _ => present end).
Proof.
  intros [Hk Hs Hp] Em Hrt. cbn [fst snd] in *. split; cbn [fst snd].
  - rewrite mkeys_mset_in; [done|]. rewrite Hk. apply mget_is_Some. by rewrite Em.
  - intros m'. rewrite mget_mset. case_decide as E; [subst m'; rewrite Em; cbn; by rewrite remaining_snoc, decide_True|].
    rewrite Hs. destruct (mget m' prev); [|done]. cbn. by rewrite remaining_snoc, decide_False.
  - assert (rts ≠ []) as Hne by (intros ->; by apply elem_of_nil in Hrt).
    intros m'. destruct (decide (m' = m)) as [->|Hmm].
    + rewrite Em. destruct (mdel rt (remaining L m rts)) eqn:Er; [rewrite list_elem_of_filter|rewrite Hp, Em]; split.
      * by intros [? _].
      * intros (rts' & [= <-] & H). exfalso. apply Hne, H. by rewrite remaining_snoc, decide_True.
      * intros _. exists rts. split; [done|]. rewrite remaining_snoc, decide_True by done. by rewrite Er.
      * intros (rts' & [= <-] & H). exists rts. split; [done|]. intros E. by rewrite E in Er.
    + assert (m' ∈ (match mdel rt (remaining L m rts) with [] => filter (fun j => j ≠ m) present | _ => present end) ↔ m' ∈ present) as ->
        by (case_match; [rewrite list_elem_of_filter; tauto|done]).
      rewrite Hp. f_equiv. intros rts'. by rewrite remaining_snoc, decide_False.
Qed.

Lemma prune_step_ok prev L st x : pruned prev L st → pruned prev (L ++ [x]) (prune_step st x).
Proof.
  intros Hpr. pose proof Hpr as [Hk Hs Hp]. destruct st as [shared present], x as [m rt]. cbn [fst snd] in *.
  unfold prune_step, prune_field. cbn [fst snd]. rewrite Hs.
  destruct (mget m prev) as [rts|] eqn:Em; cbn [fmap option_fmap option_map].
  2: { apply pruned_same; [|done]. intros m' rts' Hm'. rewrite remaining_snoc, decide_False; congruence. }
  case_bool_decide as Hin; [case_bool_decide as Hrt|]; cbn [andb].
  - by apply pruned_removed.
  - apply pruned_same; [|done]. intros m' rts' Hm'. rewrite remaining_snoc. case_decide; [|done]. subst m'.
    rewrite Em in Hm'. simplify_eq. by apply mdel_absent.
  - (* the model is gone already: nothing is left of it *)
    apply pruned_same; [|done]. intros m' rts' Hm'. rewrite remaining_snoc. case_decide; [|done]. subst m'.
    rewrite Em in Hm'. simplify_eq. destruct (remaining L m rts') eqn:E; [done|]. destruct Hin. apply Hp. exists rts'. by rewrite E.
Qed.

Lemma prune_ok prev r : pruned prev (resolved_fields r) (foldl prune_model (prev, mkeys prev) (own_fields r)).
Proof.
  rewrite prune_steps. fold (resolved_fields r). generalize (resolved_fields r). intros L.
  induction L as [|x L IH] using rev_ind; [|rewrite foldl_app; cbn [foldl]; by apply prune_step_ok].
  assert (∀ m rts, remaining [] m rts = rts) as Hid.
  { intros m rts. apply filter_all, Forall_forall. intros e _. apply bool_decide_eq_false, not_elem_of_nil. }
  split; cbn [foldl fst snd]; [done| |].
  - intros m. destruct (mget m prev); [|done]. cbn. by rewrite Hid.
  - intros m. rewrite <- mget_is_Some. split.
    + intros [rts Hm]. exists rts. split; [done|]. by rewrite Hid.
    + intros (rts & Hm & _). by exists rts.
Qed.

Lemma resolved_fields_spec r model rt : NoDup (mkeys r) → (model, rt) ∈ resolved_fields r ↔ is_Some (resolved r model rt).
Proof.
  intros Hnd. unfold resolved_fields, resolved. rewrite list_elem_of_bind. split.
  - intros ([m d] & Hx & Hin). rewrite elem_of_own_fields in Hin. apply list_elem_of_fmap in Hx as (k & [= -> ->] & Hk).
    rewrite (elem_mget _ _ _ Hnd Hin). cbn. apply mget_is_Some. by rewrite elem_of_Object_keys in Hk.
  - destruct (mget model r) as [d|] eqn:E; cbn; [|by intros []]. intros Hd%mget_is_Some. exists (model, d).
    rewrite elem_of_own_fields. split; [|by apply mget_Some_elem]. apply list_elem_of_fmap. exists rt. by rewrite elem_of_Object_keys.
Qed.

Lemma mget_remaining L m rts rt : mget rt (remaining L m rts) = if decide ((m, rt) ∈ L) then None else mget rt rts.
Proof.
  etrans; [exact (mget_filter (fun k => bool_decide ((m, k) ∈ L) = false) rt rts)|]. cbn.
  repeat case_decide; bsplit; done.
Qed.

(** After a synchronisation exactly the chosen fields are no longer differences, and
    a model disappears with its last one.  The previous differences lose the same
    fields, and running the update a second time on them keeps the emptied models. *)
Lemma after_sync_spec prev r : NoDup (mkeys r) →
  let '(new, shared) := pruneDifferences prev r in
  (∀ model rt, (mget model new ≫= mget rt)
     = if bool_decide (is_Some (resolved r model rt)) then None else mget model prev ≫= mget rt)
  ∧ (∀ model rts, mget model new = Some rts ↔ ∃ rts0, mget model prev = Some rts0
       ∧ rts = remaining (resolved_fields r) model rts0 ∧ (rts = [] → rts0 = []))
  ∧ (pruneDifferences shared r).1 = shared ∧ mkeys shared = mkeys prev.
Proof.
  intros Hnd. unfold pruneDifferences. pose proof (prune_ok prev r) as Hpr.
  destruct (foldl prune_model (prev, mkeys prev) (own_fields r)) as [shared present]. destruct Hpr as [Hk Hs Hp]. cbn [fst snd] in *.
  assert (∀ model rts, mget model (filter (fun e => e.1 ∈ present) shared) = Some rts ↔ ∃ rts0, mget model prev = Some rts0
       ∧ rts = remaining (resolved_fields r) model rts0 ∧ (rts = [] → rts0 = [])) as Hnew.
  { intros model rts.
    assert (mget model (filter (fun e => e.1 ∈ present) shared) = if decide (model ∈ present) then mget model shared else None) as ->
      by exact (mget_filter (fun k => k ∈ present) model shared).
    rewrite Hs. case_decide as Hin; rewrite Hp in Hin.
    - destruct Hin as (rts0 & Hm & Hr). rewrite Hm. cbn. split; [intros [= <-]; eauto|]. intros (? & [= <-] & -> & _). done.
    - split; [done|]. intros (rts0 & Hm & -> & Hr). destruct Hin. eauto. }
  split_and!; [|done| |done].
  - intros model rt. rewrite <- (bool_decide_ext _ _ (resolved_fields_spec r model rt Hnd)).
    destruct (mget model (filter _ shared)) as [rts|] eqn:E.
    + apply Hnew in E as (rts0 & Hm & -> & _). rewrite Hm. cbn. rewrite mget_remaining. case_bool_decide; by case_decide.
    + destruct (mget model prev) as [rts0|] eqn:Hm; [|by case_bool_decide]. cbn. case_bool_decide as Hr; [done|].
      assert (remaining (resolved_fields r) model rts0 = []) as Hrem.
      { destruct (remaining _ model rts0) eqn:Er; [done|]. exfalso. rewrite (proj2 (Hnew model (remaining (resolved_fields r) model rts0))) in E; [done|].
        exists rts0. split_and!; [done..|]. by rewrite Er. }
      pose proof (mget_remaining (resolved_fields r) model rts0 rt) as Er. rewrite Hrem, decide_False in Er by done. by rewrite <- Er.
  - rewrite prune_steps. fold (resolved_fields r).
    assert (∀ L P, (∀ x, x ∈ L → x ∈ resolved_fields r) → foldl prune_step (shared, P) L = (shared, P)) as Hsame.
    { induction L as [|[m rt] L IH]; intros P HL; [done|]. cbn [foldl].
      assert (prune_step (shared, P) (m, rt) = (shared, P)) as ->; [|apply IH; intros; apply HL; by constructor].
      unfold prune_step, prune_field. cbn [fst snd]. rewrite Hs. destruct (mget m prev) as [rts0|]; [|done]. cbn.
      rewrite (bool_decide_false (rt ∈ _)), andb_false_r; [done|]. intros Hin%mget_is_Some. rewrite mget_remaining, decide_True in Hin; [by destruct Hin|].
      apply HL. constructor. }
    rewrite Hsame by done. cbn [fst]. apply filter_all, Forall_forall. intros e He. by apply list_elem_of_fmap_2.
Qed.

(** ** The page *)

Section Reach.
Context (lower upper t : jsstr → jsstr).

Inductive page_step : page → page → Prop :=
| step_fetch p diffs : differences_ok diffs → page_step p (onFetched diffs p)
| step_select p s : offered (differences p) s → page_step p (handleSelectValue p s)
| step_unselect p model rt : page_step p (handleUnselectValue p model rt)
| step_bulk_select p search flt src : page_step p (handleBulkSelect lower p search flt src)
| step_bulk_unselect p search flt src : page_step p (handleBulkUnselect lower p search flt src)
| step_apply p cur : page_step p (handleApplySync upper t p cur).1
| step_synced p : page_step p (onSynced p).

Definition empty_page : page := mkPage [] [] [] false.

Definition page_ok (p : page) : Prop := differences_ok (differences p) ∧ resolutions_ok (resolutions p).

Lemma resolutions_nil : resolutions_ok [].
Proof. split; [constructor|done]. Qed.

Lemma pruned_ok prev r : resolutions_ok r → differences_ok prev → differences_ok (pruneDifferences prev r).1.
Proof.
  intros [Hnd _] [Hn Hd]. pose proof (after_sync_spec prev r Hnd) as Hspec. unfold pruneDifferences in *.
  pose proof (pr_keys _ _ _ (prune_ok prev r)) as Hk.
  destruct (foldl prune_model _ _) as [shared present]. cbn [fst snd] in *. destruct Hspec as (_ & Hnew & _ & _).
  assert (NoDup (mkeys (filter (fun e => e.1 ∈ present) shared))) as Hn'.
  { assert (mkeys (filter (fun e => e.1 ∈ present) shared) = filter (fun k => k ∈ present) (mkeys shared)) as ->
      by exact (mkeys_filter (fun k => k ∈ present) shared).
    apply NoDup_filter. by rewrite Hk. }
  split; [done|]. intros model rts rt Hin Hrt. apply elem_mget, Hnew in Hin as (rts0 & Hm & -> & _); [|done].
  apply Hd with model rts0; [by apply mget_Some_elem|]. apply mget_is_Some. apply mget_is_Some in Hrt. rewrite mget_remaining in Hrt.
  case_decide; [by destruct Hrt|done].
Qed.

Lemma page_step_ok p p' : page_ok p → page_step p p' → page_ok p'.
Proof.
  intros [Hd Hr] Hstep. destruct Hstep as [p diffs H|p s H|p model rt|p search flt src|p search flt src|p cur|p].
  - split; [done|apply resolutions_nil].
  - split; [done|]. unfold handleSelectValue, with_resolutions. cbn [resolutions]. rewrite selection_one. by apply select_one_ok.
  - split; [done|]. unfold handleUnselectValue, with_resolutions, deleteResolutionField, applyResolutionRemovals. cbn [resolutions foldl rm_model rm_type]. apply removal_ok; [|done].
    apply plan_add_NoDup. constructor.
  - split; [done|]. unfold handleBulkSelect, handleSelectValues, with_resolutions. cbn [resolutions]. apply selections_ok; [done| |done].
    unfold page_bulk, bulkSelectState. cbn [selections].
    set (column := column_selections _ flt src).
    assert (Forall (direct (differences p)) column) as Hcol.
    { apply Forall_forall. intros s Hs. eapply column_direct; [apply Hd|apply filtered_data|exact Hs]. }
    apply Forall_forall. intros s Hs. apply direct_offered. rewrite Forall_forall in Hcol. apply Hcol.
    by apply (proj1 (effective_spec _ column ltac:(by apply Forall_forall))).
  - split; [done|]. unfold handleBulkUnselect, handleUnselectValues, with_resolutions. cbn [resolutions]. apply removal_ok; [|done].
    unfold page_bulk, bulkSelectState. cbn [removalPlan]. apply plan_of_spec. constructor.
  - unfold handleApplySync. case_match; split; done.
  - split; [by apply pruned_ok|apply resolutions_nil].
Qed.

(** C20. Whatever the administrator does with the page, the choices stay consistent:
    no model has a fixed price and a ratio, an expression always has its mode, no
    model is left with an empty choice, and every choice has a setting it is written
    to, so that writing the settings cannot fail. *)
Theorem sync_page_invariant p : upper_ascii upper → steps page_step empty_page p →
  page_ok p ∧ ∀ cur, is_Some (performSync upper (resolutions p) cur).
Proof.
  intros Hu Hreach. assert (page_ok p) as Hp.
  { refine (steps_invariant _ page_ok _ _ page_step_ok _ Hreach). split; [|apply resolutions_nil]. split; [constructor|set_solver]. }
  split; [done|]. intros cur. destruct (perform_sync upper (resolutions p) cur Hu (proj2 Hp)) as (final & -> & _). done.
Qed.

End Reach.

(** Selecting several values at once is the same as selecting them one after
    the other, whatever their order and however often a model occurs. *)
Theorem selections_sequential r diffs ss :
  applyResolutionSelections r diffs ss = foldl (fun r s => applyResolutionSelection r diffs s) r ss.
Proof.
  rewrite selections_fold. revert r. induction ss as [|s ss IH]; intros r; [done|]. cbn [foldl]. by rewrite selection_one, IH.
Qed.

(** ** A page with one model *)

Definition ascii_upper (s : jsstr) : jsstr := (fun c => if ((97 <=? c) && (c <=? 122))%N then (c - 32)%N else c) <$> s.

Lemma ascii_upper_ok : upper_ascii ascii_upper.
Proof. intros c Hc. unfold ascii_upper. cbn. rewrite (proj2 (N.leb_le 97 c)), (proj2 (N.leb_le c 122)) by lia. done. Qed.

(** Every value that may be selected equals itself. *)
Definition comparable_check (diffs : DifferencesMap) : bool :=
  forallb (fun m => forallb (fun e => forallb (fun u => from_option (comparable e.1) true u.2) (upstreams e.2)) m.2) diffs.

Lemma comparable_check_sound diffs s : comparable_check diffs = true → offered diffs s → comparable (s_type s) (s_value s) = true.
Proof.
  intros Hc (rts & Hm & Hv & _). unfold comparable_check in Hc. rewrite forallb_forall in Hc.
  apply mget_Some_elem, list_elem_of_In, Hc in Hm. rewrite forallb_forall in Hm. unfold upstream_value in Hv.
  destruct (mget (s_type s) rts) as [e|] eqn:Ee; [|done]. cbn in Hv. apply mget_Some_elem, list_elem_of_In, Hm in Ee. cbn [fst snd] in Ee.
  rewrite forallb_forall in Ee. destruct (mget (s_source s) (upstreams e)) as [[v|]|] eqn:Eu; try done. cbn in Hv. simplify_eq.
  by apply mget_Some_elem, list_elem_of_In, Ee in Eu.
Qed.

Definition sample_source := js "upstream".

Definition sample_differences : DifferencesMap :=
  [(js "gpt", [(js "model_ratio", mkEntry (Some (VNum (num_of_Z 1))) [(sample_source, Some (VNum (num_of_Z 2)))] []);
               (PRICE, mkEntry None [(sample_source, Some (VStr (js "0.5")))] [])])].

Definition sample_selection := mkSel (js "gpt") (js "model_ratio") (VNum (num_of_Z 2)) sample_source.

Definition sample_page : page := handleSelectValue (onFetched sample_differences empty_page) sample_selection.

Lemma sample_differences_ok : differences_ok sample_differences.
Proof.
  split; [decided|]. intros model rts rt Hin%list_elem_of_singleton Hrt. simplify_eq. revert rt Hrt.
  apply Forall_forall. decided.
Qed.

Lemma sample_offered : offered sample_differences sample_selection.
Proof. eexists. split; [|split]; by vm_compute. Qed.

Lemma sample_reached t : steps (page_step id ascii_upper t) empty_page sample_page.
Proof.
  eapply steps_snoc; [eapply steps_snoc; [apply steps_refl|apply step_fetch, sample_differences_ok]|].
  apply step_select, sample_offered.
Qed.

Lemma sample_resolutions : resolutions_ok (resolutions sample_page).
Proof.
  unfold sample_page, handleSelectValue, with_resolutions. cbn [resolutions onFetched differences]. rewrite selection_one.
  apply select_one_ok; [apply sample_differences_ok|apply sample_offered|apply resolutions_nil].
Qed.

(** The price of the column displaces its ratio. *)
Lemma bulk_select_spec_witness :
  selectedCount (page_bulk id (handleBulkSelect id sample_page [] [] sample_source) [] [] sample_source) = 1
  ∧ selectedCount (page_bulk id (handleBulkUnselect id sample_page [] [] sample_source) [] [] sample_source) = 0.
Proof.
  destruct (bulk_select_spec id sample_page [] [] sample_source) as (E1 & E2 & _).
  - decided.
  - intros s. apply comparable_check_sound. by vm_compute.
  - cbn [fst snd] in E1, E2. split; [rewrite E1; by vm_compute|exact E2].
Defined.

Lemma sync_page_invariant_witness : page_ok sample_page ∧ is_Some (performSync ascii_upper (resolutions sample_page) (fun _ => [])).
Proof.
  destruct (sync_page_invariant id ascii_upper id sample_page ascii_upper_ok (sample_reached id)) as [H1 H2].
  split; [exact H1|apply H2].
Defined.

Definition sample_local (k : jsstr) : ModelResolution := if decide (k = PRICE_OPTION) then [(js "other", VNum (num_of_Z 5))] else [].

Lemma apply_sync_spec_witness :
  ∃ final, handleApplySync ascii_upper id sample_page sample_local = (sample_page, Syncs (Some final))
    ∧ setting final PRICE_OPTION (js "other") = Some (VNum (num_of_Z 5)).
Proof.
  destruct (apply_sync_spec ascii_upper id sample_page sample_local ascii_upper_ok sample_resolutions) as (final & _ & Hs & Hc).
  - intros model k _ Hk. unfold sample_local. rewrite decide_False; [done|]. intros ->. revert Hk. decided.
  - exists final. destruct Hc as [[Hc _]|[Hc _]]; [split; [exact Hc|]|vm_compute in Hc; discriminate].
    rewrite <- (price_option ascii_upper ascii_upper_ok), Hs by decided. by vm_compute.
Defined.

End RatioSync.
