(* ===== verification/TableUrl.v ===== *)
(** * Table state in the address bar
    (src/web/src/hooks/use-table-url-state.ts)

    A table keeps its page, its page size, its search text and its column filters
    in the search parameters of the address, so that a link restores them.  The
    address is the source of truth: handlers navigate, and the filters of the
    table are read again whenever the address changes.  The page size is also
    remembered in local storage. *)

From Stdlib Require Import QArith.
From S2P Require Import Prelude JsString JsValue JsJson JsNumber.
Local Close Scope Q_scope.

Module TableUrl.

(** ** The address and local storage *)

Notation SearchRecord := (list (jsstr * jsval)).

(** [search[key]] *)
Definition read (search : SearchRecord) (key : jsstr) : jsval := default JUndef (mget key search).

(** Local storage: [None] when every access throws *)
Notation Storage := (option (list (jsstr * jsstr))).

Definition PAGE_SIZE_STORAGE_KEY := js "page-size".

(** [parseInt(s, 10)]: white space, a sign, and the digits that follow *)
Definition parseInt10 (s : jsstr) : option Z :=
  let s := trim_start s in
  let '(neg, s) :=
    match s with
    | c :: s' => if (c =? 45)%N then (true, s') else if (c =? 43)%N then (false, s') else (false, s)
    | [] => (false, s)
    end in
  match (take_digits s).1 with
  | [] => None
  | ds => Some (if neg then (- digits_value ds)%Z else digits_value ds)
  end.

Definition getStoredPageSize (st : Storage) : option num :=
  items ← st;
  n ← parseInt10 (default [] (mget PAGE_SIZE_STORAGE_KEY items));
  if (0 <? n)%Z then Some (num_of_Z n) else None.

Definition setStoredPageSize (size : num) (st : Storage) : Storage := mset PAGE_SIZE_STORAGE_KEY (num_str size) <$> st.

(** ** Configuration and state *)

Inductive FilterType := StringFilter | ArrayFilter.

(** A missing transformer is the identity; a missing type is [None]. *)
Record ColumnCfg := mkColumn {
  columnId : jsstr;
  searchKey : jsstr;
  ftype : option FilterType;
  serialize : option (jsval → jsval);
  deserialize : option (jsval → jsval)
}.

Record Params := mkParams {
  pageKey_opt : option jsstr;
  pageSizeKey_opt : option jsstr;
  defaultPage_opt : option num;
  defaultPageSize_opt : option num;
  filterEnabled_opt : option bool;
  filterKey_opt : option jsstr;
  filterTrim_opt : option bool;
  columnFiltersCfg : list ColumnCfg
}.

Definition pageKey (c : Params) : jsstr := default (js "page") (pageKey_opt c).
Definition pageSizeKey (c : Params) : jsstr := default (js "pageSize") (pageSizeKey_opt c).
Definition defaultPage (c : Params) : num := default (num_of_Z 1) (defaultPage_opt c).
Definition defaultPageSize (c : Params) : num := default (num_of_Z 20) (defaultPageSize_opt c).
Definition globalFilterKey (c : Params) : jsstr := default (js "filter") (filterKey_opt c).
Definition globalFilterEnabled (c : Params) : bool := default true (filterEnabled_opt c).
Definition trimGlobal (c : Params) : bool := default true (filterTrim_opt c).

Record ColumnFilter := mkFilter { f_id : jsstr; f_value : jsval }.

Record PaginationState := mkPagination { pageIndex : num; pageSize : num }.

(** The address, the storage and the two pieces of state of the hook *)
Record table := mkTable {
  search : SearchRecord;
  storage : Storage;
  columnFilters : list ColumnFilter;
  globalFilter : option jsstr
}.

(** ** Reading the address *)

Definition is_string_cfg (cfg : ColumnCfg) : bool := match ftype cfg with Some StringFilter => true | _ => false end.

(** [v ?? d] *)
Definition or_else (v d : jsval) : jsval := match v with JUndef | JNull => d | _ => v end.

(** The value of a column filter that the hook accepts *)
Definition accepted (cfg : ColumnCfg) (v : jsval) : option jsval :=
  if is_string_cfg cfg then
    match v with JStr s => if str_true (trim s) then Some v else None | _ => None end
  else match v with JArr (_ :: _) => Some v | _ => None end.

Definition read_filter (s : SearchRecord) (cfg : ColumnCfg) : option ColumnFilter :=
  let raw := read s (searchKey cfg) in
  let value := or_else (default id (deserialize cfg) raw) (if is_string_cfg cfg then JStr [] else JArr []) in
  mkFilter (columnId cfg) <$> accepted cfg value.

Definition initialColumnFilters (c : Params) (s : SearchRecord) : list ColumnFilter := omap (read_filter s) (columnFiltersCfg c).

(** [x - 1], [x + 1] and [Math.max(0, x)] *)
Definition num_add (x : num) (z : Z) : num := match x with Fin q => Fin (Qred (q + inject_Z z)%Q) | _ => x end.
Definition max0 (x : num) : num := match x with NaN => NaN | _ => if num_ltb (num_of_Z 0) x then x else num_of_Z 0 end.

Definition read_number (v : jsval) (d : num) : num := match v with JNum n => n | _ => d end.

Definition pagination (c : Params) (t : table) : PaginationState :=
  let pageNum := read_number (read (search t) (pageKey c)) (defaultPage c) in
  let pageSizeNum := read_number (read (search t) (pageSizeKey c)) (default (defaultPageSize c) (getStoredPageSize (storage t))) in
  mkPagination (max0 (num_add pageNum (-1))) pageSizeNum.

(** The first render *)
Definition mount (c : Params) (s : SearchRecord) (st : Storage) : table :=
  mkTable s st (initialColumnFilters c s)
    (if globalFilterEnabled c then Some (match read s (globalFilterKey c) with JStr f => f | _ => [] end) else None).

(** ** Handlers *)

(** The router keeps the search object when an address is the same as before;
    [same] is its comparison. *)
Section Handlers.
Context (same : SearchRecord → SearchRecord → bool).

(** [navigate]: the new address, and the effect that reads the filters again when
    the search object changed *)
Definition navigate (c : Params) (f : SearchRecord → SearchRecord) (t : table) : table :=
  let s := f (search t) in
  if same (search t) s then t
  else mkTable s (storage t) (initialColumnFilters c s) (globalFilter t).

Definition onPaginationChange (c : Params) (updater : PaginationState → PaginationState) (t : table) : table :=
  let next := updater (pagination c t) in
  let nextPage := num_add (pageIndex next) 1 in
  let st := if num_eqb (pageSize next) (pageSize (pagination c t)) then storage t else setStoredPageSize (pageSize next) (storage t) in
  navigate c
    (fun prev => mset (pageSizeKey c) (JNum (pageSize next))
                   (mset (pageKey c) (if num_leb nextPage (defaultPage c) then JUndef else JNum nextPage) prev))
    (mkTable (search t) st (columnFilters t) (globalFilter t)).

(** Nothing happens when the global filter is disabled. *)
Definition onGlobalFilterChange (c : Params) (updater : jsstr → jsstr) (t : table) : table :=
  if globalFilterEnabled c then
    let next := updater (default [] (globalFilter t)) in
    let value := if trimGlobal c then trim next else next in
    navigate c
      (fun prev => mset (globalFilterKey c) (if str_true value then JStr value else JUndef) (mset (pageKey c) JUndef prev))
      (mkTable (search t) (storage t) (columnFilters t) (Some value))
  else t.

(** The entry of the patch for a column *)
Definition patch_value (next : list ColumnFilter) (cfg : ColumnCfg) : jsval :=
  let found := list_find (fun f => f_id f = columnId cfg) next in
  match found ≫= (fun f => accepted cfg (f_value f.2)) with
  | Some v => default id (serialize cfg) v
  | None => JUndef
  end.

Definition onColumnFiltersChange (c : Params) (updater : list ColumnFilter → list ColumnFilter) (t : table) : table :=
  let next := updater (columnFilters t) in
  navigate c
    (fun prev => foldl (fun s cfg => mset (searchKey cfg) (patch_value next cfg) s) (mset (pageKey c) JUndef prev) (columnFiltersCfg c))
    (mkTable (search t) (storage t) next (globalFilter t)).

Inductive ResetTo := ToFirst | ToLast.

Definition ensurePageInRange (c : Params) (pageCount : num) (resetTo : ResetTo) (t : table) : table :=
  let pageNum := read_number (read (search t) (pageKey c)) (defaultPage c) in
  if num_ltb (num_of_Z 0) pageCount && num_ltb pageCount pageNum then
    navigate c (fun prev => mset (pageKey c) (match resetTo with ToLast => JNum pageCount | ToFirst => JUndef end) prev) t
  else t.

(** ** What reading back gives *)

(** The comparison of the router never confuses two addresses. *)
Definition same_ok : Prop := ∀ s s', same s s' = true → ∀ k, read s k = read s' k.

(** The parameters of a table have different names. *)
Definition keys_ok (c : Params) : Prop :=
  NoDup (pageKey c :: pageSizeKey c :: globalFilterKey c :: (searchKey <$> columnFiltersCfg c)).

(** The columns do not share a parameter with each other or with the page. *)
Definition column_keys_ok (c : Params) : Prop := NoDup (pageKey c :: (searchKey <$> columnFiltersCfg c)).

(** What a column shows for a raw value of its parameter *)
Definition shown_value (cfg : ColumnCfg) (raw : jsval) : option jsval :=
  accepted cfg (or_else (default id (deserialize cfg) raw) (if is_string_cfg cfg then JStr [] else JArr [])).

(** Reading undoes writing, and an absent parameter means no filter: so with the
    columns that have no transformers. *)
Definition transform_ok (cfg : ColumnCfg) : Prop :=
  (∀ v, accepted cfg v = Some v → default id (deserialize cfg) (default id (serialize cfg) v) = v)
  ∧ shown_value cfg JUndef = None.

(** The filters of [next] that belong to a column and have a value of its type *)
Definition column_value (next : list ColumnFilter) (cfg : ColumnCfg) : option jsval :=
  list_find (fun f => f_id f = columnId cfg) next ≫= (fun f => accepted cfg (f_value f.2)).

(** The value a column has after a round through the address: what its
    transformers make of the given value, or of an absent parameter. *)
Definition restored_value (next : list ColumnFilter) (cfg : ColumnCfg) : option jsval :=
  match column_value next cfg with
  | Some v => shown_value cfg (default id (serialize cfg) v)
  | None => shown_value cfg JUndef
  end.

Definition restored (c : Params) (next : list ColumnFilter) : list ColumnFilter :=
  omap (fun cfg => mkFilter (columnId cfg) <$> restored_value next cfg) (columnFiltersCfg c).

Lemma read_mset s k v k' : read (mset k v s) k' = if decide (k = k') then v else read s k'.
Proof. unfold read. rewrite mget_mset. by case_decide. Qed.

Lemma read_navigate c f t k : same_ok → read (search (navigate c f t)) k = read (f (search t)) k.
Proof. intros Hs. unfold navigate. destruct (same _ _) eqn:E; [by apply Hs|done]. Qed.

Lemma storage_navigate c f t : storage (navigate c f t) = storage t.
Proof. unfold navigate. by case_match. Qed.

Lemma initial_ext c s s' : (∀ k, read s k = read s' k) → initialColumnFilters c s = initialColumnFilters c s'.
Proof. intros H. apply list_omap_ext, Forall_Forall2_diag, Forall_true. intros cfg. unfold read_filter. by rewrite H. Qed.

Lemma accepted_same cfg v w : accepted cfg v = Some w → w = v.
Proof. unfold accepted. intros H. case_all_in H; congruence. Qed.

(** A patch writes every column once. *)
Lemma read_patch next cfgs s k : NoDup (searchKey <$> cfgs) →
  read (foldl (fun s cfg => mset (searchKey cfg) (patch_value next cfg) s) s cfgs) k
  = match list_find (fun cfg => searchKey cfg = k) cfgs with Some (_, cfg) => patch_value next cfg | None => read s k end.
Proof.
  revert s. induction cfgs as [|cfg cfgs IH]; intros s Hnd; [done|]. rewrite fmap_cons in Hnd. apply NoDup_cons in Hnd as [Hn Hnd].
  cbn [foldl]. rewrite IH by done. cbn [list_find]. case_decide as E.
  - subst k. destruct (list_find _ cfgs) as [[i cfg']|] eqn:Ef.
    + apply list_find_Some in Ef as (Hi & Hk & _). destruct Hn. rewrite <- Hk. apply list_elem_of_fmap_2. by eapply list_elem_of_lookup_2.
    + by rewrite read_mset, decide_True.
  - destruct (list_find _ cfgs) as [[i cfg']|]; cbn; [done|]. by rewrite read_mset, decide_False.
Qed.

Lemma read_patch_in next cfgs s cfg : NoDup (searchKey <$> cfgs) → cfg ∈ cfgs →
  read (foldl (fun s cfg => mset (searchKey cfg) (patch_value next cfg) s) s cfgs) (searchKey cfg) = patch_value next cfg.
Proof.
  intros Hnd Hin. rewrite read_patch by done. destruct (list_find_elem_of (fun cfg' => searchKey cfg' = searchKey cfg) cfgs cfg Hin eq_refl) as [[i cfg'] Hf].
  rewrite Hf. apply list_find_Some in Hf as (Hi & Hk & _). f_equal. apply list_elem_of_lookup in Hin as [j Hj].
  assert (i = j) as ->; [|congruence]. apply (NoDup_lookup _ i j (searchKey cfg) Hnd); rewrite list_lookup_fmap; [rewrite Hi|rewrite Hj]; cbn; congruence.
Qed.

Lemma read_back_filter s cfg next : read s (searchKey cfg) = patch_value next cfg →
  read_filter s cfg = mkFilter (columnId cfg) <$> restored_value next cfg.
Proof.
  intros Hr. unfold read_filter, restored_value. rewrite Hr. unfold patch_value. fold (column_value next cfg).
  by destruct (column_value next cfg).
Qed.

Lemma column_value_accepted next cfg v : column_value next cfg = Some v → accepted cfg v = Some v.
Proof.
  unfold column_value. destruct (list_find _ next) as [[i f]|]; [|done]. cbn. intros Ev.
  pose proof (accepted_same _ _ _ Ev) as ->. exact Ev.
Qed.

(** A column whose transformers undo each other gets its value back. *)
Lemma restored_same next cfg : transform_ok cfg → restored_value next cfg = column_value next cfg.
Proof.
  intros [Ht Hu]. unfold restored_value. destruct (column_value next cfg) as [v|] eqn:Ev; [|done].
  pose proof (column_value_accepted _ _ _ Ev) as Ha. unfold shown_value. rewrite (Ht _ Ha).
  assert (∀ d, or_else v d = v) as -> by (intros d; unfold accepted in Ha; by destruct (is_string_cfg cfg), v). done.
Qed.

Lemma no_transformers cfg : serialize cfg = None → deserialize cfg = None → transform_ok cfg.
Proof.
  intros Hs Hd. unfold transform_ok, shown_value. rewrite Hs, Hd. split; [done|].
  unfold accepted. by destruct (is_string_cfg cfg).
Qed.

(** C22. Column filters survive the address. A table is given filters: the address
    then holds, for each column, the serialised value of the first filter with its
    identifier if that value has the column's type, and nothing otherwise. Reopening
    the address shows, in the order of the columns, what each column's [deserialize]
    makes of that parameter, if it is of its type; a column whose transformers undo
    each other, or that has none, shows exactly the value it was given. The page is
    the first one again, and nothing else of the address changes. The table itself
    shows the reopened filters, or the given ones when the address did not change.
    Assumed: the columns' parameters and the page's have different names, and the
    router takes two addresses for the same only if they are. *)
Theorem column_filters_roundtrip c updater t : same_ok → column_keys_ok c →
  let next := updater (columnFilters t) in
  let t' := onColumnFiltersChange c updater t in
  (∀ cfg, cfg ∈ columnFiltersCfg c →
     read (search t') (searchKey cfg)
     = match column_value next cfg with Some v => default id (serialize cfg) v | None => JUndef end)
  ∧ (∀ st, columnFilters (mount c (search t') st) = restored c next)
  ∧ (∀ cfg, transform_ok cfg ∨ serialize cfg = None ∧ deserialize cfg = None →
       restored_value next cfg = column_value next cfg)
  ∧ (columnFilters t' = restored c next ∨ columnFilters t' = next ∧ ∀ k, read (search t') k = read (search t) k)
  ∧ pageIndex (pagination c t') = max0 (num_add (defaultPage c) (-1))
  ∧ (∀ k, k ≠ pageKey c → k ∉ (searchKey <$> columnFiltersCfg c) → read (search t') k = read (search t) k).
Proof.
  intros Hsame Hkeys next t'. apply NoDup_cons in Hkeys as [Hpage Hkeys].
  assert (∀ cfg, cfg ∈ columnFiltersCfg c → read (search t') (searchKey cfg) = patch_value next cfg) as Hread.
  { intros cfg Hcfg. unfold t', onColumnFiltersChange. cbv zeta. rewrite read_navigate by done. by apply read_patch_in. }
  assert (initialColumnFilters c (search t') = restored c next) as Hinit.
  { apply list_omap_ext, Forall_Forall2_diag, Forall_forall. intros cfg Hcfg. by apply read_back_filter, Hread. }
  split_and!.
  - exact Hread.
  - intros st. exact Hinit.
  - intros cfg [H|[Hs Hd]]; apply restored_same; [done|by apply no_transformers].
  - unfold t', onColumnFiltersChange, navigate in *. cbn [search storage globalFilter] in *. destruct (same _ _) eqn:E; [by right|by left].
  - unfold pagination, t', onColumnFiltersChange. cbn [pageIndex]. rewrite read_navigate by done. cbn [search].
    rewrite read_patch by done. destruct (list_find _ _) as [[i cfg]|] eqn:Ef.
    + apply list_find_Some in Ef as (Hi & Hk & _). destruct Hpage. rewrite <- Hk.
      apply list_elem_of_fmap_2. by eapply list_elem_of_lookup_2.
    + by rewrite read_mset, decide_True.
  - intros k Hk1 Hk2. unfold t', onColumnFiltersChange. cbv zeta. rewrite read_navigate by done. cbn [search].
    rewrite read_patch by done. destruct (list_find _ _) as [[i cfg]|] eqn:Ef.
    + apply list_find_Some in Ef as (Hi & Hk & _). destruct Hk2. rewrite <- Hk. apply list_elem_of_fmap_2. by eapply list_elem_of_lookup_2.
    + by rewrite read_mset, decide_False.
Qed.

(** ** Pages *)

Lemma num_add_Z a b : num_add (num_of_Z a) b = num_of_Z (a + b).
Proof. unfold num_add, num_of_Z. f_equal. rewrite <- (Qred_inject (a + b)). apply Qred_complete. by rewrite inject_Z_plus. Qed.

Lemma num_leb_Z a b : num_leb (num_of_Z a) (num_of_Z b) = (a <=? b)%Z.
Proof. unfold num_leb. rewrite num_ltb_Z. unfold num_of_Z, num_eqb, inject_Z. cbn [Qnum Qden]. rewrite !Z.mul_1_r. apply eq_true_iff_eq. rewrite orb_true_iff, Z.ltb_lt, Z.eqb_eq, Z.leb_le. lia. Qed.

Lemma max0_Z z : max0 (num_of_Z z) = num_of_Z (Z.max 0 z).
Proof. unfold max0, num_of_Z at 1. fold (num_of_Z z). rewrite num_ltb_Z. destruct (Z.ltb_spec 0 z); f_equal; lia. Qed.

Lemma parse_digit_run s : s ≠ [] → Forall (fun c => is_digit c = true) s → parseInt10 s = Some (digits_value s).
Proof.
  intros Hne Hd. destruct s as [|c s]; [done|]. unfold parseInt10.
  pose proof Hd as Hd'. apply Forall_cons in Hd' as [Hc _].
  assert (trim_start (c :: s) = c :: s) as -> by (apply trim_start_id; intros ?? [= <- <-]; by apply digit_not_ws).
  assert ((c =? 45) = false ∧ (c =? 43) = false)%N as [-> ->] by (unfold is_digit in Hc; lia).
  pose proof (take_digits_run (c :: s) [] Hd ltac:(done)) as E. rewrite app_nil_r in E. by rewrite E.
Qed.

Lemma stored_size n st : (0 < n < 10 ^ 21)%Z → getStoredPageSize (setStoredPageSize (num_of_Z n) (Some st)) = Some (num_of_Z n).
Proof.
  intros Hn. destruct (integer_text n Hn) as (Hne & Hd & Hv). unfold getStoredPageSize, setStoredPageSize. cbn [fmap option_fmap option_map mbind option_bind].
  rewrite mget_mset_eq. cbn [default from_option id]. rewrite parse_digit_run by done. rewrite Hv. cbn. by rewrite (proj2 (Z.ltb_lt 0 n)) by lia.
Qed.

(** Turning the page and changing its size: with pages counted from one, the
    table shows the page and the size that were asked for; a default page [d]
    beyond the first hides the pages before it.  A new size is remembered for other
    tables, and the filters stay. *)
Theorem pagination_roundtrip c updater t i n d : same_ok → keys_ok c → defaultPage c = num_of_Z d →
  updater (pagination c t) = mkPagination (num_of_Z i) (num_of_Z n) → (0 <= i)%Z → (0 < n < 10 ^ 21)%Z →
  let t' := onPaginationChange c updater t in
  pagination c t' = mkPagination (num_of_Z (if (i + 1 <=? d)%Z then d - 1 else i)) (num_of_Z n)
  ∧ (d = 1%Z → pagination c t' = updater (pagination c t))
  ∧ (num_eqb (num_of_Z n) (pageSize (pagination c t)) = false → is_Some (storage t) → getStoredPageSize (storage t') = Some (num_of_Z n))
  ∧ (num_eqb (num_of_Z n) (pageSize (pagination c t)) = true → storage t' = storage t)
  ∧ initialColumnFilters c (search t') = initialColumnFilters c (search t).
Proof.
  intros Hsame Hkeys Hd Hnext Hi Hn t'. unfold keys_ok in Hkeys.
  apply NoDup_cons in Hkeys as [Hpage Hkeys]. apply NoDup_cons in Hkeys as [Hsize _]. apply not_elem_of_cons in Hpage as [Hps Hpage].
  assert (pagination c t' = mkPagination (num_of_Z (if (i + 1 <=? d)%Z then d - 1 else i)) (num_of_Z n)) as Hp.
  { unfold pagination at 1, t', onPaginationChange. rewrite Hnext. cbn [pageIndex pageSize]. rewrite !read_navigate by done. cbn [search].
    rewrite !read_mset. rewrite (decide_False (P := pageSizeKey c = pageKey c)) by congruence. rewrite !decide_True by done.
    cbn [read_number]. f_equal. rewrite Hd, num_add_Z, num_leb_Z.
    destruct (Z.leb_spec (i + 1) d); cbn [read_number]; rewrite num_add_Z, max0_Z; f_equal; lia. }
  split_and!; [done| | | |].
  - intros ->. rewrite Hp, Hnext. destruct (Z.leb_spec (i + 1) 1); f_equal; f_equal; lia.
  - intros Hne [st Hst]. unfold t', onPaginationChange. rewrite storage_navigate. cbn [storage]. rewrite Hnext. cbn [pageSize]. rewrite Hne, Hst.
    by apply stored_size.
  - intros He. unfold t', onPaginationChange. rewrite storage_navigate. cbn [storage]. rewrite Hnext. cbn [pageSize]. by rewrite He.
  - apply list_omap_ext, Forall_Forall2_diag, Forall_forall. intros cfg Hcfg. unfold read_filter.
    assert (searchKey cfg ∈ (searchKey <$> columnFiltersCfg c)) as Hk by (by apply list_elem_of_fmap_2).
    unfold t', onPaginationChange. cbv zeta. rewrite read_navigate by done. cbn [search].
    rewrite !read_mset, !decide_False; [done|intros E; rewrite <- E in Hk; first [apply Hsize; by constructor|apply Hpage; by constructor]..].
Qed.

(** The page number of the address *)
Definition page_number (c : Params) (t : table) : num := read_number (read (search t) (pageKey c)) (defaultPage c).

(** After the check the page exists, and checking again changes nothing. *)
Lemma page_in_range c m d resetTo t : same_ok → (0 < m)%Z → (d <= m)%Z → defaultPage c = num_of_Z d → page_number c t ≠ NaN →
  let t' := ensurePageInRange c (num_of_Z m) resetTo t in
  num_leb (page_number c t') (num_of_Z m) = true ∧ ensurePageInRange c (num_of_Z m) resetTo t' = t'.
Proof.
  intros Hsame Hm Hd Hdef Hnan t'.
  assert (num_leb (page_number c t') (num_of_Z m) = true) as Hr.
  { unfold t', ensurePageInRange. rewrite num_ltb_Z, (proj2 (Z.ltb_lt 0 m)) by lia. cbn [andb]. fold (page_number c t).
    destruct (num_ltb (num_of_Z m) (page_number c t)) eqn:E.
    - unfold page_number. rewrite read_navigate by done. rewrite read_mset, decide_True by done. destruct resetTo; cbn [read_number]; rewrite ?Hdef, num_leb_Z; lia.
    - rewrite num_leb_ltb, E by done. done. }
  split; [done|]. unfold ensurePageInRange at 1. fold (page_number c t').
  destruct (num_ltb (num_of_Z m) (page_number c t')) eqn:E; [|by rewrite andb_false_r].
  exfalso. unfold num_leb in Hr. destruct (num_ltb (page_number c t') (num_of_Z m)) eqn:E2.
  - pose proof (num_ltb_trans _ _ _ E E2) as E3. by rewrite num_ltb_irrefl in E3.
  - cbn [orb] in Hr. destruct (page_number c t') as [|[]|q]; try done. unfold num_of_Z, num_eqb, num_ltb in *. lia.
Qed.

End Handlers.

(** ** The tables with transformers of their own *)

Definition LOG_TYPE_ALL_VALUE := js "0".

(** The log types of the usage logs: the entry for all types is dropped. *)
Definition deserializeLogTypeFilter (value : jsval) : jsval :=
  let values := match value with JArr l => l | _ => if truthy value then [value] else [] end in
  JArr (filter (fun item => js_String item ≠ LOG_TYPE_ALL_VALUE) values).

(** The status of the channels: without the parameter, the one of the last visit,
    which [stored] is. *)
Definition deserializeStatus (stored : option jsstr) (value : jsval) : jsval :=
  match value with
  | JUndef =>
      match stored with
      | Some st => if bool_decide (st = js "enabled") || bool_decide (st = js "disabled") then JArr [JStr st] else JArr []
      | None => JArr []
      end
  | _ => value
  end.

Definition log_type_column : ColumnCfg :=
  mkColumn (js "created_at") (js "type") (Some ArrayFilter) None (Some deserializeLogTypeFilter).

Definition status_column (stored : option jsstr) : ColumnCfg :=
  mkColumn (js "status") (js "status") (Some ArrayFilter) None (Some (deserializeStatus stored)).

(** The usage logs get back the types that were chosen, less the entry for all;
    the channels get back the status, and the one of the last visit if none was
    chosen. *)
Lemma log_type_restored next l :
  column_value next log_type_column = Some (JArr l) →
  restored_value next log_type_column
  = accepted log_type_column (JArr (filter (fun item => js_String item ≠ LOG_TYPE_ALL_VALUE) l)).
Proof. intros H. unfold restored_value. by rewrite H. Qed.

Lemma status_restored stored next :
  restored_value next (status_column stored)
  = match column_value next (status_column stored) with
    | Some v => Some v
    | None => shown_value (status_column stored) JUndef
    end.
Proof.
  unfold restored_value. destruct (column_value next _) as [v|] eqn:Ev; [|done].
  apply column_value_accepted in Ev. rewrite <- Ev. unfold shown_value.
  cbn [status_column serialize deserialize default from_option id]. by destruct v.
Qed.

(** ** A table *)

Definition sample_params : Params :=
  mkParams None None None None None None None
    [log_type_column; mkColumn (js "model") (js "model") (Some StringFilter) None None].

Definition sample_table : table := mount sample_params [(js "page", JNum (num_of_Z 3)); (js "model", JStr (js "gpt"))] (Some []).

Lemma sample_keys_ok : keys_ok sample_params.
Proof. unfold keys_ok. decided. Qed.

Lemma never_same : same_ok (fun _ _ => false).
Proof. done. Qed.

Lemma column_filters_roundtrip_witness :
  let next := [mkFilter (js "created_at") (JArr [JStr (js "0"); JStr (js "2")]); mkFilter (js "other") JNull] in
  columnFilters (onColumnFiltersChange (fun _ _ => false) sample_params (fun _ => next) sample_table)
  = [mkFilter (js "created_at") (JArr [JStr (js "2")])].
Proof.
  intros next.
  assert (column_keys_ok sample_params) as Hk by (unfold column_keys_ok; decided).
  pose proof (column_filters_roundtrip (fun _ _ => false) sample_params (fun _ => next) sample_table never_same Hk) as H.
  cbv zeta in H. destruct H as (_ & _ & _ & [H|[_ H]] & _).
  - rewrite H. by vm_compute.
  - specialize (H (js "page")). vm_compute in H. discriminate.
Defined.

Lemma pagination_roundtrip_witness :
  pagination sample_params (onPaginationChange (fun _ _ => false) sample_params (fun _ => mkPagination (num_of_Z 4) (num_of_Z 50)) sample_table)
  = mkPagination (num_of_Z 4) (num_of_Z 50).
Proof.
  apply (pagination_roundtrip (fun _ _ => false) sample_params (fun _ => mkPagination (num_of_Z 4) (num_of_Z 50)) sample_table 4 50 1
    never_same sample_keys_ok); [done|done|lia|lia|done].
Defined.

End TableUrl.
