(* ===== verification/OAuthBind.v ===== *)
(** * Binding an account in a popup
    (src/web/src/features/auth/lib/oauth-callback-mode.ts and oauth-bind-window.ts,
    routes/oauth/$provider.tsx and features/profile/components/tabs/account-bindings-tab.tsx)

    The profile page binds an external account in a popup.  It opens the popup,
    asks the server for a flow, stamps the session storage of the popup with the
    state of the flow and sends it to the provider.  The provider sends the popup
    back to the callback page of this site, which finds the stamp, posts the code
    to its opener and waits, at most for a deadline; the profile page exchanges the
    code with the server and posts the outcome back.  The two windows talk by
    messages only, other windows may post messages too, and every request is
    suspended while the user goes on clicking. *)

From S2P Require Import Prelude JsString JsValue.

Module OAuthBind.

(** ** Constants *)

Definition OAUTH_BIND_CALLBACK_MESSAGE := js "oauth:binding:callback".
Definition OAUTH_BIND_RESULT_MESSAGE := js "oauth:binding:result".
Definition TELEGRAM_BIND_RESULT_MESSAGE := js "telegram:binding:result".
Definition OAUTH_BIND_FLOW_KEY_PREFIX := js "oauth_bind_flow:".

(** ** Session storage

    Reading or writing may throw, and a write may be dropped silently. *)

Inductive WritePolicy := WriteStores | WriteThrows | WriteDrops.

#[global] Instance WritePolicy_dec : EqDecision WritePolicy.
Proof. solve_decision. Defined.

Record OAuthModeStorage := mkStorage { items : list (jsstr * jsstr); readable : bool; writing : WritePolicy }.

(** [None] is an exception. *)
Definition getItem (st : OAuthModeStorage) (key : jsstr) : option (option jsstr) :=
  if readable st then Some (mget key (items st)) else None.

Definition setItem (st : OAuthModeStorage) (key value : jsstr) : option OAuthModeStorage :=
  match writing st with
  | WriteStores => Some (mkStorage (mset key value (items st)) (readable st) WriteStores)
  | WriteDrops => Some st
  | WriteThrows => None
  end.

(** The property [sessionStorage] of a window: access throws, or gives a storage or
    null. *)
Inductive SessionAccess := AccessThrows | AccessGives (st : option OAuthModeStorage).

Definition getOAuthSessionStorage (owner : option SessionAccess) : option OAuthModeStorage :=
  match owner with Some (AccessGives st) => st | _ => None end.

Definition flow_key (provider : jsstr) : jsstr := OAUTH_BIND_FLOW_KEY_PREFIX ++ provider.

Definition markOAuthBindPopup (storage : option OAuthModeStorage) (provider state : jsstr) : bool * option OAuthModeStorage :=
  match storage with
  | Some st =>
      if str_true provider && str_true state then
        match setItem st (flow_key provider) state with
        | Some st' => (bool_decide (getItem st' (flow_key provider) = Some (Some state)), Some st')
        | None => (false, storage)
        end
      else (false, storage)
  | None => (false, None)
  end.

Inductive OAuthCallbackMode := ModeLogin | ModeBind.

(** [opener] is [None] without an opener, and otherwise says whether it is closed. *)
Definition resolveOAuthCallbackMode (provider state : jsstr) (opener : option bool) (storage : option OAuthModeStorage) : OAuthCallbackMode :=
  match opener, storage with
  | Some false, Some st =>
      if str_true state then
        match getItem st (flow_key provider) with
        | Some marked => if bool_decide (marked = Some state) then ModeBind else ModeLogin
        | None => ModeLogin
        end
      else ModeLogin
  | _, _ => ModeLogin
  end.

(** ** Timers

    The flag of the closure, and whether the runtime still has the timer. *)

Record Timer := mkTimer { active : bool; scheduled : bool }.

Definition timer_started : Timer := mkTimer true true.

(** The function that starting a timer returns *)
Definition timer_cancel (tm : Timer) : Timer := if active tm then mkTimer false false else tm.

(** The runtime runs the deadline once; the second component says that [onTimeout]
    is called. *)
Definition deadline_fires (tm : Timer) : Timer * bool :=
  if scheduled tm then
    if active tm then (mkTimer false false, true) else (mkTimer false false, false)
  else (tm, false).

(** The runtime runs the watcher at every interval; the second component says that
    [onClosed] is called. *)
Definition watcher_ticks (popup_closed : bool) (tm : Timer) : Timer * bool :=
  if scheduled tm then
    if negb (active tm) || negb popup_closed then (tm, false) else (mkTimer false false, true)
  else (tm, false).

(** ** The Telegram callback *)

Inductive TelegramBindCallback := TelegramResult (flowToken : jsstr) (success : bool) (code : option jsstr) | TelegramInvalid.

Definition parseTelegramBindCallback (telegram_bind flow_token error_code : option jsstr) : option TelegramBindCallback :=
  let success := bool_decide (telegram_bind = Some (js "success")) in
  if negb success && negb (bool_decide (telegram_bind = Some (js "error"))) then None
  else if negb (str_true (ostr flow_token)) then Some TelegramInvalid
  else if success then Some (TelegramResult (ostr flow_token) true None)
  else Some (TelegramResult (ostr flow_token) false error_code).

Definition ojs (s : option jsstr) : jsval := match s with Some s => JStr s | None => JUndef end.

(** The message that is posted, when one is *)
Definition postTelegramBindResult (callback : option TelegramBindCallback) (opener : option bool) : option jsval :=
  match callback, opener with
  | Some (TelegramResult flowToken success code), Some false =>
      Some (JObj [(js "type", JStr TELEGRAM_BIND_RESULT_MESSAGE); (js "flow_token", JStr flowToken); (js "success", JBool success); (js "code", ojs code)])
  | _, _ => None
  end.

(** ** The profile page

    A pending binding is an object that closures share: it lives in a store and is
    named by a number, and the number of its popup is the same.  [trace] lists what
    the page did and what the server answered, newest first. *)

Record PendingOAuthBinding := mkPending { p_provider : jsstr; p_state : jsstr; p_popup : nat; stopCloseWatcher : Timer }.

Record Window := mkWindow { closed : bool; session : SessionAccess; location : option jsstr }.

(** The answer to the exchange: a body, or an error with the message of the server
    and its own *)
Inductive ApiOutcome := Responded (body : jsval) | Failed (serverMessage : jsval) (errorMessage : option jsstr).

Inductive Effect :=
| ToastError (message : jsval)
| ToastSuccess (message : jsstr)
| CreateFlow (f : nat) (provider : jsstr)
| ApiGet (f : nat) (provider : jsval) (params : list (jsstr * jsval))
| Answered (f : nat) (r : ApiOutcome)
| OnUpdate
| FetchBindings
| PostResult (popup : nat) (data : jsval).

Record tab := mkTab {
  mounted : bool;
  pendingOAuthBinding : option nat;
  objects : gmap nat PendingOAuthBinding;
  windows : gmap nat Window;
  fresh : nat;
  (* suspended calls: for the flow, for the exchange, for the list of bindings *)
  creating : gset nat;
  exchanging : gmap nat jsval;
  refreshing : gmap nat (jsval * jsval);
  trace : list Effect
}.

Definition set_pending (v : option nat) (t : tab) : tab := mkTab (mounted t) v (objects t) (windows t) (fresh t) (creating t) (exchanging t) (refreshing t) (trace t).
Definition set_objects (v : gmap nat PendingOAuthBinding) (t : tab) : tab := mkTab (mounted t) (pendingOAuthBinding t) v (windows t) (fresh t) (creating t) (exchanging t) (refreshing t) (trace t).
Definition set_windows (v : gmap nat Window) (t : tab) : tab := mkTab (mounted t) (pendingOAuthBinding t) (objects t) v (fresh t) (creating t) (exchanging t) (refreshing t) (trace t).
Definition set_creating (v : gset nat) (t : tab) : tab := mkTab (mounted t) (pendingOAuthBinding t) (objects t) (windows t) (fresh t) v (exchanging t) (refreshing t) (trace t).
Definition set_exchanging (v : gmap nat jsval) (t : tab) : tab := mkTab (mounted t) (pendingOAuthBinding t) (objects t) (windows t) (fresh t) (creating t) v (refreshing t) (trace t).
Definition set_refreshing (v : gmap nat (jsval * jsval)) (t : tab) : tab := mkTab (mounted t) (pendingOAuthBinding t) (objects t) (windows t) (fresh t) (creating t) (exchanging t) v (trace t).
Definition say (e : Effect) (t : tab) : tab := mkTab (mounted t) (pendingOAuthBinding t) (objects t) (windows t) (fresh t) (creating t) (exchanging t) (refreshing t) (e :: trace t).

Definition initial_tab : tab := mkTab true None ∅ ∅ 0 ∅ ∅ ∅ [].

Definition stop_watcher (p : PendingOAuthBinding) : PendingOAuthBinding := mkPending (p_provider p) (p_state p) (p_popup p) (timer_cancel (stopCloseWatcher p)).
Definition set_state (state : jsstr) (p : PendingOAuthBinding) : PendingOAuthBinding := mkPending (p_provider p) state (p_popup p) (stopCloseWatcher p).
Definition set_watcher (tm : Timer) (p : PendingOAuthBinding) : PendingOAuthBinding := mkPending (p_provider p) (p_state p) (p_popup p) tm.

Definition close_window (w : Window) : Window := mkWindow true (session w) (location w).
Definition set_session (s : SessionAccess) (w : Window) : Window := mkWindow (closed w) s (location w).
Definition set_location (u : jsstr) (w : Window) : Window := mkWindow (closed w) (session w) (Some u).

Definition change_object (f : nat) (g : PendingOAuthBinding → PendingOAuthBinding) (t : tab) : tab := set_objects (alter g f (objects t)) t.
Definition change_window (w : nat) (g : Window → Window) (t : tab) : tab := set_windows (alter g w (windows t)) t.

(** [popup.closed] *)
Definition popup_closed (t : tab) (w : nat) : bool := match windows t !! w with Some w => closed w | None => true end.

Definition clearPendingOAuthBinding (expected : option nat) (t : tab) : tab :=
  match pendingOAuthBinding t with
  | Some pending =>
      if decide (expected = None ∨ expected = Some pending) then set_pending None (change_object pending stop_watcher t) else t
  | None => t
  end.

(** The body of the answer of the server, or an exception *)
Definition createOAuthFlow (body : jsval) : option jsstr :=
  if truthy (prop "success" body) then
    match prop "data" body with
    | JStr s => Some s
    | v => match prop "flow_token" v with JStr s => Some s | _ => None end
    end
  else None.

Section Page.
(** The translation of a text, and the origin of the site *)
Context (tr : jsstr → jsstr) (origin : jsstr).

Definition toast_error (key : jsstr) (t : tab) : tab := say (ToastError (JStr (tr key))) t.

(** [opened] is the session storage of the new popup, or [None] when the browser
    blocks it. *)
Definition startOAuthBinding (provider : jsstr) (opened : option SessionAccess) (t : tab) : tab :=
  let t :=
    match pendingOAuthBinding t with
    | Some previous => change_window previous close_window (clearPendingOAuthBinding (Some previous) t)
    | None => t
    end in
  match opened with
  | None => toast_error (js "OAuth pop-up was blocked") t
  | Some access =>
      let f := fresh t in
      say (CreateFlow f provider)
        (mkTab (mounted t) (Some f) (<[f := mkPending provider [] f timer_started]> (objects t)) (<[f := mkWindow false access None]> (windows t))
           (S f) ({[f]} ∪ creating t) (exchanging t) (refreshing t) (trace t))
  end.

(** The handler of an exception in [startOAuthBinding] *)
Definition binding_failed (f : nat) (t : tab) : tab :=
  let isCurrent := bool_decide (pendingOAuthBinding t = Some f) in
  let t := change_window f close_window (clearPendingOAuthBinding (Some f) t) in
  if isCurrent then toast_error (js "Failed to initialize OAuth") t else t.

(** [startOAuthBinding] goes on with the answer of the server, [None] for an
    exception; building the address or going there may throw as well. *)
Definition flowCreated (f : nat) (answer : option jsstr) (buildUrl : jsstr → option jsstr) (t : tab) : tab :=
  if decide (f ∈ creating t) then
    let t := set_creating (creating t ∖ {[f]}) t in
    match answer, objects t !! f with
    | Some state, Some pending =>
        if bool_decide (pendingOAuthBinding t ≠ Some f) || popup_closed t f then t
        else
          let storage := getOAuthSessionStorage (session <$> windows t !! f) in
          let '(ok, storage') := markOAuthBindPopup storage (p_provider pending) state in
          let t := match storage with Some _ => change_window f (set_session (AccessGives storage')) t | None => t end in
          if ok then
            let t := change_object f (set_state state) t in
            match buildUrl state with
            | Some url => change_window f (set_location url) t
            | None => binding_failed f t
            end
          else binding_failed f t
    | _, _ => binding_failed f t
    end
  else t.

(** A run of the watcher of a popup *)
Definition watcherRuns (f : nat) (t : tab) : tab :=
  match objects t !! f with
  | Some pending =>
      let '(tm, fired) := watcher_ticks (popup_closed t f) (stopCloseWatcher pending) in
      let t := change_object f (set_watcher tm) t in
      if fired then clearPendingOAuthBinding (Some f) t else t
  | None => t
  end.

Record MessageEvent := mkMessage { ev_origin : jsstr; ev_source : option nat; ev_data : jsval }.

Definition postBindingResult (f : nat) (message : jsval) (success : bool) (resultMessage : jsval) (t : tab) : tab :=
  say (PostResult f (JObj [(js "type", JStr OAUTH_BIND_RESULT_MESSAGE); (js "provider", prop "provider" message); (js "state", prop "state" message);
    (js "success", JBool success); (js "message", resultMessage)])) t.

(** The parameters of the exchange *)
Definition exchange_params (message : jsval) : list (jsstr * jsval) :=
  let add key v (l : list (jsstr * jsval)) := if truthy v then l ++ [(key, v)] else l in
  add (js "error_description") (prop "errorDescription" message)
    (add (js "error") (prop "error" message)
      (add (js "code") (prop "code" message) [(js "state", prop "state" message)])).

Definition accepts (ev : MessageEvent) (f : nat) (pending : PendingOAuthBinding) : bool :=
  let message := ev_data ev in
  truthy message && is_str OAUTH_BIND_CALLBACK_MESSAGE (prop "type" message)
  && is_str (p_provider pending) (prop "provider" message) && is_str (p_state pending) (prop "state" message)
  && bool_decide (ev_source ev = Some f).

(** Until the exchange is sent *)
Definition handleMessage (ev : MessageEvent) (t : tab) : tab :=
  if mounted t && bool_decide (ev_origin ev = origin) then
    match pendingOAuthBinding t with
    | Some f =>
        match objects t !! f with
        | Some pending =>
            if accepts ev f pending then
              let message := ev_data ev in
              let t := clearPendingOAuthBinding (Some f) t in
              if negb (truthy (prop "code" message)) && negb (truthy (prop "error" message)) then
                let text := JStr (tr (js "Missing code")) in
                postBindingResult f message false text (say (ToastError text) t)
              else
                say (ApiGet f (prop "provider" message) (exchange_params message)) (set_exchanging (<[f := message]> (exchanging t)) t)
            else t
        | None => t
        end
    | None => t
    end
  else t.

(** [v || d] *)
Definition js_or (v d : jsval) : jsval := if truthy v then v else d.

(** [handleMessage] goes on when the exchange is answered *)
Definition exchangeDone (f : nat) (r : ApiOutcome) (t : tab) : tab :=
  match exchanging t !! f with
  | Some message =>
      let t := say (Answered f r) (set_exchanging (delete f (exchanging t)) t) in
      let failed := JStr (tr (js "OAuth failed")) in
      match r with
      | Responded body =>
          let resultMessage := js_or (prop "message" body) failed in
          if truthy (prop "success" body) then
            say FetchBindings (say OnUpdate (say (ToastSuccess (tr (js "Binding successful!"))) (set_refreshing (<[f := (message, resultMessage)]> (refreshing t)) t)))
          else postBindingResult f message false resultMessage (say (ToastError resultMessage) t)
      | Failed serverMessage errorMessage =>
          let resultMessage := js_or serverMessage (match errorMessage with Some m => JStr m | None => failed end) in
          postBindingResult f message false resultMessage (say (ToastError resultMessage) t)
      end
  | None => t
  end.

(** ... and when the bindings are listed again *)
Definition bindingsFetched (f : nat) (t : tab) : tab :=
  match refreshing t !! f with
  | Some (message, resultMessage) => postBindingResult f message true resultMessage (set_refreshing (delete f (refreshing t)) t)
  | None => t
  end.

Definition unmount (t : tab) : tab :=
  let pending := pendingOAuthBinding t in
  let t := clearPendingOAuthBinding pending t in
  let t := match pending with Some f => change_window f close_window t | None => t end in
  mkTab false (pendingOAuthBinding t) (objects t) (windows t) (fresh t) (creating t) (exchanging t) (refreshing t) (trace t).

(** ** The callback page *)

Record Search := mkSearch {
  s_code : option jsstr; s_state : option jsstr; s_error : option jsstr; s_error_description : option jsstr;
  s_redirect : option jsstr; s_telegram_bind : option jsstr; s_flow_token : option jsstr; s_error_code : option jsstr
}.

Inductive Notice := BindingSuccessful | BindingFailed (message : jsval) | BindingTimedOut.

(** The closure of the effect while it waits for the outcome *)
Record page := mkPage {
  pg_provider : jsstr;
  pg_state : jsstr;
  resultTimeout : Timer;
  delayedClose : bool;
  notices : list Notice
}.

(** What the effect of the callback page does first *)
Inductive CallbackAction :=
| TelegramPosted (data : jsval)
| TelegramFailed
| OpenerGone
| BindWaits (p : page) (message : jsval)
| LoginWithoutCode
| LoginExchange (params : list (jsstr * jsval)).

Definition callbackMode (provider : jsstr) (s : Search) (opener : option bool) (storage : option SessionAccess) : OAuthCallbackMode :=
  let isTelegramBindCallback := bool_decide (provider = js "telegram")
    && (bool_decide (s_telegram_bind s = Some (js "success")) || bool_decide (s_telegram_bind s = Some (js "error"))) in
  if isTelegramBindCallback then ModeBind
  else resolveOAuthCallbackMode provider (ostr (s_state s)) opener (getOAuthSessionStorage storage).

(** The opener may close between the first render and the effect: [opener] and
    [opener'] are what the two find. *)
Definition OAuthCallback (provider : jsstr) (s : Search) (opener opener' : option bool) (storage : option SessionAccess) : CallbackAction :=
  let code := ostr (s_code s) in
  let state := ostr (s_state s) in
  let telegramCallback :=
    if decide (provider = js "telegram") then parseTelegramBindCallback (s_telegram_bind s) (s_flow_token s) (s_error_code s) else None in
  match telegramCallback with
  | Some _ => match postTelegramBindResult telegramCallback opener' with Some data => TelegramPosted data | None => TelegramFailed end
  | None =>
      match callbackMode provider s opener storage with
      | ModeBind =>
          match opener' with
          | Some false =>
              BindWaits (mkPage provider state timer_started false [])
                (JObj [(js "type", JStr OAUTH_BIND_CALLBACK_MESSAGE); (js "provider", JStr provider); (js "code", JStr code); (js "state", JStr state);
                       (js "error", ojs (s_error s)); (js "errorDescription", ojs (s_error_description s))])
          | _ => OpenerGone
          end
      | ModeLogin =>
          if negb (str_true code) && negb (str_true (ostr (s_error s))) then LoginWithoutCode
          else LoginExchange [(js "code", if str_true code then JStr code else JUndef); (js "state", JStr state);
                              (js "error", ojs (s_error s)); (js "error_description", ojs (s_error_description s))]
      end
  end.

Definition notice (n : Notice) (tm : Timer) (delayed : bool) (p : page) : page := mkPage (pg_provider p) (pg_state p) tm delayed (n :: notices p).

(** The second component says that the window is closed at once. *)
Definition handleBindingResult (ev_origin : jsstr) (from_opener : bool) (result : jsval) (p : page) : page * bool :=
  if bool_decide (ev_origin = origin) && from_opener && truthy result
     && is_str OAUTH_BIND_RESULT_MESSAGE (prop "type" result) && is_str (pg_provider p) (prop "provider" result) && is_str (pg_state p) (prop "state" result)
  then
    let tm := timer_cancel (resultTimeout p) in
    if truthy (prop "success" result) then (notice BindingSuccessful tm (delayedClose p) p, true)
    else (notice (BindingFailed (js_or (prop "message" result) (JStr (tr (js "OAuth failed"))))) tm true p, false)
  else (p, false).

Definition resultDeadline (p : page) : page :=
  let '(tm, fired) := deadline_fires (resultTimeout p) in
  if fired then notice BindingTimedOut tm true p else mkPage (pg_provider p) (pg_state p) tm (delayedClose p) (notices p).

(** ** The two windows together

    [posted] holds the messages of callback pages; delivering one does not remove
    it, so that a message may arrive late, out of order, or twice. *)

Record world := mkWorld { the_tab : tab; pages : gmap nat page; posted : list MessageEvent }.

Definition initial_world : world := mkWorld initial_tab ∅ [].

(** What the user, the browser, the server and other windows do *)
Inductive Action :=
| Start (provider : jsstr) (opened : option SessionAccess)
| FlowAnswer (f : nat) (body : option jsval) (buildUrl : jsstr → option jsstr)
| WatcherRuns (f : nat)
| Deliver (ev : MessageEvent)
| ExchangeAnswer (f : nat) (r : ApiOutcome)
| BindingsAnswer (f : nat)
| Unmount
| CloseWindow (w : nat)
| Load (w : nat) (provider : jsstr) (s : Search) (opener opener' : option bool)
| DeliverResult (w : nat) (data : jsval)
| DeadlinePasses (w : nat).

Definition on_tab (g : tab → tab) (w : world) : world := mkWorld (g (the_tab w)) (pages w) (posted w).

Definition act (a : Action) (w : world) : world :=
  match a with
  | Start provider opened => on_tab (startOAuthBinding provider opened) w
  | FlowAnswer f body url => on_tab (flowCreated f (body ≫= createOAuthFlow) url) w
  | WatcherRuns f => on_tab (watcherRuns f) w
  | Deliver ev => on_tab (handleMessage ev) w
  | ExchangeAnswer f r => on_tab (exchangeDone f r) w
  | BindingsAnswer f => on_tab (bindingsFetched f) w
  | Unmount => on_tab unmount w
  | CloseWindow v => on_tab (change_window v close_window) w
  | Load v provider s opener opener' =>
      match OAuthCallback provider s opener opener' (session <$> windows (the_tab w) !! v) with
      | BindWaits p message => mkWorld (the_tab w) (<[v := p]> (pages w)) (mkMessage origin (Some v) message :: posted w)
      | _ => mkWorld (the_tab w) (delete v (pages w)) (posted w)
      end
  | DeliverResult v data =>
      match pages w !! v with
      | Some p =>
          let '(p', closes) := handleBindingResult origin true data p in
          mkWorld (if closes then change_window v close_window (the_tab w) else the_tab w) (<[v := p']> (pages w)) (posted w)
      | None => w
      end
  | DeadlinePasses v => mkWorld (the_tab w) (alter resultDeadline v (pages w)) (posted w)
  end.

(** The page starts a binding while it is mounted.  A message with the origin of
    the site and a popup as its source was posted by the callback page in it; other
    messages are arbitrary.  A popup that is still open loads pages.  Results reach
    a popup from its opener; messages from elsewhere are ignored there. *)
Definition enabled (a : Action) (w : world) : Prop :=
  match a with
  | Start _ _ => mounted (the_tab w) = true
  | Deliver ev => ev ∈ posted w ∨ ev_origin ev ≠ origin ∨ ∀ v, ev_source ev = Some v → windows (the_tab w) !! v = None
  | Load v _ _ _ _ => popup_closed (the_tab w) v = false
  | DeliverResult v data => PostResult v data ∈ trace (the_tab w)
  | _ => True
  end.

Definition step (w w' : world) : Prop := ∃ a, enabled a w ∧ w' = act a w.

(** ** The life of a binding

    A binding is opened, sent to the provider with a state, exchanged once and done
    once, or dropped before its exchange; at most one binding is live. *)

Inductive phase := Opened | Sent (state : jsstr) | Exchanging | Done (success : bool) | Dropped.

Definition live (ph : phase) : bool := match ph with Opened | Sent _ => true | _ => false end.

Notation spec := (gmap nat (jsstr * phase)).

Inductive spec_step : spec → spec → Prop :=
| sp_open f provider (m : spec) : m !! f = None → (∀ g x, m !! g = Some x → live x.2 = false) → spec_step m (<[f := (provider, Opened)]> m)
| sp_send f provider state (m : spec) : m !! f = Some (provider, Opened) → state ≠ [] → spec_step m (<[f := (provider, Sent state)]> m)
| sp_drop f provider ph (m : spec) : m !! f = Some (provider, ph) → live ph = true → spec_step m (<[f := (provider, Dropped)]> m)
| sp_accept f provider state (m : spec) : m !! f = Some (provider, Sent state) → spec_step m (<[f := (provider, Exchanging)]> m)
| sp_done f provider b (m : spec) : m !! f = Some (provider, Exchanging) → spec_step m (<[f := (provider, Done b)]> m).

(** What the page did for binding [f]: the exchanges it sent, the answers it got and
    the results it posted *)
Definition calls (f : nat) (l : list Effect) : list (jsval * list (jsstr * jsval)) :=
  omap (fun e => match e with ApiGet g p ps => if decide (g = f) then Some (p, ps) else None | _ => None end) l.
Definition answers (f : nat) (l : list Effect) : list ApiOutcome :=
  omap (fun e => match e with Answered g r => if decide (g = f) then Some r else None | _ => None end) l.
Definition results (f : nat) (l : list Effect) : list jsval :=
  omap (fun e => match e with PostResult g d => if decide (g = f) then Some d else None | _ => None end) l.

Arguments calls : simpl never.
Arguments answers : simpl never.
Arguments results : simpl never.

Definition succeeded (r : ApiOutcome) : bool := match r with Responded body => truthy (prop "success" body) | Failed _ _ => false end.

(** All that concerns one binding *)
Record view := mkView {
  v_object : option PendingOAuthBinding;
  v_closed : option bool;
  v_current : bool;
  v_exchanging : option jsval;
  v_refreshing : option (jsval * jsval);
  v_calls : list (jsval * list (jsstr * jsval));
  v_answers : list ApiOutcome;
  v_results : list jsval
}.

Definition look (t : tab) (f : nat) : view :=
  mkView (objects t !! f) (closed <$> windows t !! f) (bool_decide (pendingOAuthBinding t = Some f)) (exchanging t !! f) (refreshing t !! f)
    (calls f (trace t)) (answers f (trace t)) (results f (trace t)).

(** A message or a result with the provider and the state of a binding *)
Definition belongs (p : PendingOAuthBinding) (d : jsval) : Prop := prop "provider" d = JStr (p_provider p) ∧ prop "state" d = JStr (p_state p).

Definition timer_of (ph : phase) : Timer := if live ph then timer_started else mkTimer false false.

(** The exchange of a binding: none was needed, or one with its state, which the
    server answered *)
Definition exchanged (p : PendingOAuthBinding) (b : bool) (cs : list (jsval * list (jsstr * jsval))) (rs : list ApiOutcome) : Prop :=
  (cs = [] ∧ rs = [] ∧ b = false) ∨ ∃ msg r, belongs p msg ∧ cs = [(JStr (p_provider p), exchange_params msg)] ∧ rs = [r] ∧ b = succeeded r.

Definition phase_rel (v : view) (p : PendingOAuthBinding) (ph : phase) : Prop :=
  match ph with
  | Opened | Sent _ | Dropped =>
      v_exchanging v = None ∧ v_refreshing v = None ∧ v_calls v = [] ∧ v_answers v = [] ∧ v_results v = []
      ∧ (p_state p = match ph with Sent st => st | _ => p_state p end)
      ∧ match ph with Opened => p_state p = [] | Sent st => st ≠ [] | _ => v_closed v = Some true end
  | Exchanging =>
      p_state p ≠ [] ∧ v_results v = [] ∧ ∃ msg, belongs p msg ∧ v_calls v = [(JStr (p_provider p), exchange_params msg)]
      ∧ ((v_exchanging v = Some msg ∧ v_refreshing v = None ∧ v_answers v = [])
         ∨ (v_exchanging v = None ∧ ∃ text r, v_refreshing v = Some (msg, text) ∧ v_answers v = [r] ∧ succeeded r = true))
  | Done b =>
      p_state p ≠ [] ∧ v_exchanging v = None ∧ v_refreshing v = None ∧ exchanged p b (v_calls v) (v_answers v)
      ∧ ∃ d, v_results v = [d] ∧ belongs p d ∧ prop "success" d = JBool b
  end.

Definition view_rel (v : view) (x : option (jsstr * phase)) : Prop :=
  match v_object v, x with
  | Some p, Some (provider, ph) =>
      provider = p_provider p ∧ is_Some (v_closed v) ∧ v_current v = live ph ∧ stopCloseWatcher p = timer_of ph ∧ phase_rel v p ph
  | None, None => v = mkView None None false None None [] [] []
  | _, _ => False
  end.

Definition tab_rel (t : tab) (m : spec) : Prop :=
  (∀ f, view_rel (look t f) (m !! f)) ∧ (∀ f, is_Some (objects t !! f) → f < fresh t) ∧ (is_Some (pendingOAuthBinding t) → mounted t = true)
  ∧ (∀ f p, f ∈ creating t → objects t !! f = Some p → p_state p = []).

Lemma steps_one {A} (R : A → A → Prop) x y : R x y → steps R x y.
Proof. intros H. eapply steps_snoc; [apply steps_refl|done]. Qed.

Lemma steps_trans {A} (R : A → A → Prop) x y z : steps R x y → steps R y z → steps R x z.
Proof. intros H1 H2. revert H1. induction H2 as [|? ? ? ? IH]; intros H1; [done|]. eapply steps_snoc; [by apply IH|done]. Qed.

(** Views after the elementary changes *)
Lemma calls_cons f e l : calls f (e :: l) = match e with ApiGet g p ps => if decide (g = f) then (p, ps) :: calls f l else calls f l | _ => calls f l end.
Proof. unfold calls. cbn [omap list_omap]. by destruct e; try case_decide. Qed.
Lemma answers_cons f e l : answers f (e :: l) = match e with Answered g r => if decide (g = f) then r :: answers f l else answers f l | _ => answers f l end.
Proof. unfold answers. cbn [omap list_omap]. by destruct e; try case_decide. Qed.
Lemma results_cons f e l : results f (e :: l) = match e with PostResult g d => if decide (g = f) then d :: results f l else results f l | _ => results f l end.
Proof. unfold results. cbn [omap list_omap]. by destruct e; try case_decide. Qed.

(** The view of another binding is not touched. *)
Ltac look_ne :=
  unfold look; cbn -[calls answers results decide];
  rewrite ?calls_cons, ?answers_cons, ?results_cons;
  rewrite ?lookup_alter_ne, ?lookup_insert_ne, ?lookup_delete_ne by done; rewrite ?decide_False by done; try done.

Definition stopped (v : view) : view :=
  mkView (stop_watcher <$> v_object v) (v_closed v) false (v_exchanging v) (v_refreshing v) (v_calls v) (v_answers v) (v_results v).
Definition shut (v : view) : view :=
  mkView (v_object v) (const true <$> v_closed v) (v_current v) (v_exchanging v) (v_refreshing v) (v_calls v) (v_answers v) (v_results v).

Lemma clear_other f t : pendingOAuthBinding t ≠ Some f → clearPendingOAuthBinding (Some f) t = t.
Proof. unfold clearPendingOAuthBinding. intros H. destruct (pendingOAuthBinding t) as [g|]; [|done]. rewrite decide_False; [done|]. intros [?|?]; congruence. Qed.

Lemma clear_current f t : pendingOAuthBinding t = Some f → clearPendingOAuthBinding (Some f) t = set_pending None (change_object f stop_watcher t).
Proof. unfold clearPendingOAuthBinding. intros ->. by rewrite decide_True by auto. Qed.

Lemma look_clear f g t : pendingOAuthBinding t = Some f → look (clearPendingOAuthBinding (Some f) t) g = if decide (g = f) then stopped (look t g) else look t g.
Proof.
  intros H. rewrite clear_current by done. case_decide as E.
  - subst g. unfold look, stopped. cbn. by rewrite lookup_alter_eq.
  - look_ne. rewrite H. f_equal. rewrite !bool_decide_eq_false_2 by congruence. done.
Qed.

Lemma look_close f g t : look (change_window f close_window t) g = if decide (g = f) then shut (look t g) else look t g.
Proof.
  case_decide as E; [subst g|look_ne]. unfold look, shut. cbn. rewrite lookup_alter_eq. f_equal. by destruct (windows t !! f).
Qed.

Lemma look_session f g s t : look (change_window f (set_session s) t) g = look t g.
Proof. destruct (decide (g = f)) as [->|]; [|look_ne]. unfold look. cbn. rewrite lookup_alter_eq. f_equal. by destruct (windows t !! f). Qed.

Lemma look_location f g u t : look (change_window f (set_location u) t) g = look t g.
Proof. destruct (decide (g = f)) as [->|]; [|look_ne]. unfold look. cbn. rewrite lookup_alter_eq. f_equal. by destruct (windows t !! f). Qed.

Lemma look_state f g st t :
  look (change_object f (set_state st) t) g
  = if decide (g = f) then mkView (set_state st <$> objects t !! f) (v_closed (look t f)) (v_current (look t f)) (exchanging t !! f) (refreshing t !! f)
      (calls f (trace t)) (answers f (trace t)) (results f (trace t)) else look t g.
Proof. case_decide as E; [subst g|look_ne]. unfold look. cbn. by rewrite lookup_alter_eq. Qed.

Lemma look_toast g e t : match e with ApiGet _ _ _ | Answered _ _ | PostResult _ _ => False | _ => True end → look (say e t) g = look t g.
Proof. unfold look. cbn -[calls answers results]. rewrite calls_cons, answers_cons, results_cons. by destruct e. Qed.

(** ** The page implements the life of its bindings *)

(** Nothing was exchanged for a live binding. *)
Lemma live_quiet v p ph : live ph = true → phase_rel v p ph →
  v_exchanging v = None ∧ v_refreshing v = None ∧ v_calls v = [] ∧ v_answers v = [] ∧ v_results v = [].
Proof. intros Hl Hph. unfold phase_rel in Hph. destruct ph; try done; naive_solver. Qed.

(** A change that concerns one binding *)
Lemma rel_change t t' (m : spec) f y :
  (∀ g, view_rel (look t g) (m !! g)) → (∀ g, g ≠ f → look t' g = look t g) → view_rel (look t' f) (Some y) →
  ∀ g, view_rel (look t' g) (<[f := y]> m !! g).
Proof.
  intros H Hne Hf g. destruct (decide (g = f)) as [->|E]; [by rewrite lookup_insert_eq|]. rewrite lookup_insert_ne by done. rewrite Hne by done. apply H.
Qed.

Lemma rel_object t m f : tab_rel t m → is_Some (m !! f) ↔ is_Some (objects t !! f).
Proof. intros [H _]. specialize (H f). unfold view_rel, look in H. cbn in H. destruct (objects t !! f), (m !! f) as [[]|]; naive_solver. Qed.

(** The current binding is the live one. *)
Lemma rel_current t m f : tab_rel t m → pendingOAuthBinding t = Some f →
  ∃ p ph, objects t !! f = Some p ∧ m !! f = Some (p_provider p, ph) ∧ live ph = true ∧ is_Some (windows t !! f)
    ∧ stopCloseWatcher p = timer_started ∧ phase_rel (look t f) p ph.
Proof.
  intros [H _] Hp. specialize (H f). unfold view_rel in H. cbn [look v_object] in H. destruct (objects t !! f) as [p|] eqn:Eo.
  - destruct (m !! f) as [[prov ph]|]; [|done]. destruct H as (-> & Hc & Hl & Hw & Hph). cbn in Hl. rewrite Hp, bool_decide_eq_true_2 in Hl by done.
    exists p, ph. split_and!; try done; [by apply fmap_is_Some in Hc|]. rewrite Hw. unfold timer_of. by rewrite <- Hl.
  - destruct (m !! f); [done|]. apply (f_equal v_current) in H. cbn in H. by rewrite Hp, bool_decide_eq_true_2 in H.
Qed.

Lemma rel_not_current t m f p ph : tab_rel t m → objects t !! f = Some p → m !! f = Some (p_provider p, ph) → live ph = false →
  pendingOAuthBinding t ≠ Some f.
Proof. intros Ht Ho Hm Hl Hp. destruct (rel_current _ _ _ Ht Hp) as (p' & ph' & ? & ? & ? & _). congruence. Qed.

Lemma view_rel_shut v x : view_rel v x → view_rel (shut v) x.
Proof.
  unfold view_rel, shut. cbn. destruct (v_object v) as [p|], x as [[prov ph]|]; try done.
  - intros (-> & [c Hc] & Hl & Hw & Hph). rewrite Hc. split_and!; try done. unfold phase_rel in *. cbn. rewrite Hc in Hph. destruct ph; naive_solver.
  - by intros ->.
Qed.

Lemma rel_close f t m : tab_rel t m → tab_rel (change_window f close_window t) m.
Proof. intros (H & H'). split; [|done]. intros g. rewrite look_close. case_decide; [by apply view_rel_shut|apply H]. Qed.

Lemma view_rel_drop v p ph : v_object v = Some p → live ph = true → stopCloseWatcher p = timer_started → is_Some (v_closed v) → phase_rel v p ph →
  view_rel (shut (stopped v)) (Some (p_provider p, Dropped)).
Proof.
  intros Ho Hl Hw [c Hc] Hph. unfold view_rel, shut, stopped. cbn. rewrite Ho, Hc. cbn. do 4 (split; [by rewrite ?Hw|]).
  unfold phase_rel in *. cbn in *. destruct ph; naive_solver.
Qed.

(** Giving the current binding up *)
Lemma rel_drop f t m : tab_rel t m → pendingOAuthBinding t = Some f →
  ∃ m', spec_step m m' ∧ tab_rel (change_window f close_window (clearPendingOAuthBinding (Some f) t)) m' ∧ (∀ g x, m' !! g = Some x → live x.2 = false).
Proof.
  intros Ht Hp. destruct (rel_current _ _ _ Ht Hp) as (p & ph & Ho & Hm & Hl & [w Hw] & Htm & Hph).
  exists (<[f := (p_provider p, Dropped)]> m). split; [by eapply sp_drop|]. destruct Ht as (H & Hf & Hmnt & Hcr). split; [split_and!|].
  - eapply rel_change; [done| |].
    + intros g Hg. rewrite look_close, decide_False, look_clear, decide_False by done. done.
    + rewrite look_close, decide_True, look_clear, decide_True by done. eapply view_rel_drop; try done. cbn. rewrite Hw. by eexists.
  - intros g. rewrite clear_current by done. cbn. rewrite lookup_alter_is_Some. apply Hf.
  - rewrite clear_current by done. cbn. by intros [? [=]].
  - intros g q. rewrite clear_current by done. cbn. intros Hg Hq. destruct (decide (g = f)) as [->|E].
    + rewrite lookup_alter_eq, Ho in Hq. injection Hq as <-. exact (Hcr f p Hg Ho).
    + rewrite lookup_alter_ne in Hq by done. by eapply Hcr.
  - intros g [prov ph'] Hg. destruct (decide (g = f)) as [->|E].
    + rewrite lookup_insert_eq in Hg. by injection Hg as <- <-.
    + rewrite lookup_insert_ne in Hg by done. specialize (H g). unfold view_rel in H. rewrite Hg in H. cbn in H. destruct (objects t !! g); [|done].
      destruct H as (_ & _ & Hl' & _). cbn. rewrite <- Hl', Hp. apply bool_decide_eq_false_2. congruence.
Qed.

(** [g] keeps the page within the specification. *)
Definition simulated (g : tab → tab) (t : tab) (m : spec) : Prop := ∃ m', steps spec_step m m' ∧ tab_rel (g t) m'.

Lemma rel_same t t' m : tab_rel t m → (∀ g, look t' g = look t g) → objects t' = objects t → fresh t' = fresh t → mounted t' = mounted t →
  pendingOAuthBinding t' = pendingOAuthBinding t → creating t' ⊆ creating t → tab_rel t' m.
Proof. intros (H & Hf & Hm & Hc) Hl Ho Hfr Hmt Hp Hcr. unfold tab_rel. rewrite Ho, Hfr, Hmt, Hp. split_and!; try done; [intros f; rewrite Hl; apply H|]. intros f p Hin. apply Hc. set_solver. Qed.

Lemma rel_toast e t m : match e with ApiGet _ _ _ | Answered _ _ | PostResult _ _ => False | _ => True end → tab_rel t m → tab_rel (say e t) m.
Proof. intros He Ht. eapply rel_same; try done. intros g. by apply look_toast. Qed.

Lemma rel_open provider access t m : tab_rel t m → mounted t = true → (∀ g x, m !! g = Some x → live x.2 = false) →
  ∃ m', spec_step m m' ∧ tab_rel (mkTab (mounted t) (Some (fresh t)) (<[fresh t := mkPending provider [] (fresh t) timer_started]> (objects t))
    (<[fresh t := mkWindow false access None]> (windows t)) (S (fresh t)) ({[fresh t]} ∪ creating t) (exchanging t) (refreshing t) (trace t)) m'.
Proof.
  intros Ht Hmnt Hno. pose proof Ht as (H & Hf & _ & Hcr). set (f := fresh t).
  assert (objects t !! f = None) as Ho by (destruct (objects t !! f) eqn:E; [|done]; pose proof (Hf f ltac:(by eexists)); unfold f in *; lia).
  assert (m !! f = None) as Hm by (apply eq_None_not_Some; rewrite (rel_object t m f Ht), Ho; by intros [? [=]]).
  exists (<[f := (provider, Opened)]> m). split; [by apply sp_open|]. split_and!.
  - eapply rel_change; [exact H| |].
    + intros g Hg. look_ne. f_equal. apply bool_decide_ext. split; [congruence|]. intros Hp.
      destruct (rel_current _ _ _ Ht Hp) as (p & ph & _ & Hmg & Hl & _). specialize (Hno g _ Hmg). cbn in Hno. congruence.
    + specialize (H f). unfold view_rel in H. rewrite Hm in H. cbn [look v_object] in H. rewrite Ho in H. unfold look in H. injection H as _ _ _ He Hr Hc Ha Hs.
      unfold view_rel, look. cbn. rewrite !lookup_insert_eq. cbn. rewrite bool_decide_eq_true_2 by done. by rewrite He, Hr, Hc, Ha, Hs.
  - cbn. intros g. destruct (decide (g = f)) as [->|E]; [unfold f; lia|]. rewrite lookup_insert_ne by done. intros Hg. specialize (Hf g Hg). unfold f. lia.
  - done.
  - cbn. intros g p Hg. destruct (decide (g = f)) as [->|E]; [rewrite lookup_insert_eq; by intros [= <-]|]. rewrite lookup_insert_ne by done. apply Hcr. set_solver.
Qed.

Lemma no_live t m : tab_rel t m → pendingOAuthBinding t = None → ∀ g x, m !! g = Some x → live x.2 = false.
Proof.
  intros [H _] Hp g [prov ph] Hg. specialize (H g). unfold view_rel in H. rewrite Hg in H. cbn in H. destruct (objects t !! g); [|done].
  destruct H as (_ & _ & Hl & _). cbn. rewrite <- Hl, Hp. by apply bool_decide_eq_false_2.
Qed.

Lemma start_simulated provider opened t m : tab_rel t m → mounted t = true → simulated (startOAuthBinding provider opened) t m.
Proof.
  intros Ht Hmnt. unfold simulated, startOAuthBinding.
  set (t1 := match pendingOAuthBinding t with Some previous => _ | None => t end).
  assert (∃ m1, steps spec_step m m1 ∧ tab_rel t1 m1 ∧ mounted t1 = true ∧ ∀ g x, m1 !! g = Some x → live x.2 = false) as (m1 & Hs1 & Ht1 & Hm1 & Hno).
  { unfold t1. destruct (pendingOAuthBinding t) as [f|] eqn:Ep; [|exists m; split_and!; [apply steps_refl|done|done|by eapply no_live]].
    destruct (rel_drop f t m Ht Ep) as (m1 & Hs & Hr & Hn). exists m1. split_and!; [by apply steps_one|done| |done]. by rewrite clear_current. }
  destruct opened as [access|]; [|exists m1; split; [done|by apply rel_toast]].
  destruct (rel_open provider access t1 m1 Ht1 Hm1 Hno) as (m2 & Hs2 & Hr2). exists m2. split; [by eapply steps_snoc|]. by apply rel_toast.
Qed.

Lemma failed_simulated f t m : tab_rel t m → simulated (binding_failed f) t m.
Proof.
  intros Ht. unfold simulated, binding_failed. case_bool_decide as E.
  - destruct (rel_drop f t m Ht E) as (m' & Hs & Hr & _). exists m'. split; [by apply steps_one|by apply rel_toast].
  - rewrite clear_other by done. exists m. split; [apply steps_refl|by apply rel_close].
Qed.

Lemma mark_state storage provider state ok storage' : markOAuthBindPopup storage provider state = (ok, storage') → ok = true → state ≠ [].
Proof. unfold markOAuthBindPopup. intros H ->. case_all_in H; try congruence. bsplit. by apply str_true_spec. Qed.

(** The state of the flow is set. *)
Lemma rel_send f state t m p : tab_rel t m → pendingOAuthBinding t = Some f → f ∉ creating t → objects t !! f = Some p → p_state p = [] → state ≠ [] →
  ∃ m', spec_step m m' ∧ tab_rel (change_object f (set_state state) t) m'.
Proof.
  intros Ht Hp Hcr Ho Hst Hne. destruct (rel_current _ _ _ Ht Hp) as (p' & ph & Ho' & Hm & Hl & [w Hw] & Htm & Hph).
  rewrite Ho in Ho'. injection Ho' as <-.
  assert (ph = Opened) as -> by (destruct ph as [|st| | |]; try done; cbn in Hph; destruct Hph as (_ & _ & _ & _ & _ & E & Hn); congruence).
  exists (<[f := (p_provider p, Sent state)]> m). split; [by apply sp_send|]. destruct Ht as (H & Hf & Hmnt & Hc). split_and!.
  - eapply rel_change; [done| |].
    + intros g Hg. by rewrite look_state, decide_False.
    + rewrite look_state, decide_True by done. unfold view_rel. cbn. rewrite Ho, Hw, Hp. cbn. rewrite bool_decide_eq_true_2 by done.
      do 4 (split; [done|]). cbn in Hph. naive_solver.
  - intros g. cbn. rewrite lookup_alter_is_Some. apply Hf.
  - exact Hmnt.
  - intros g q Hg. cbn in *. destruct (decide (g = f)) as [->|E]; [done|]. rewrite lookup_alter_ne by done. by apply Hc.
Qed.

Lemma flowCreated_simulated f answer url t m : tab_rel t m → simulated (flowCreated f answer url) t m.
Proof.
  intros Ht. unfold simulated, flowCreated. case_decide as Hin; [|exists m; split; [apply steps_refl|done]]. cbv zeta.
  set (t1 := set_creating _ t). assert (tab_rel t1 m) as Ht1 by (eapply rel_same; try done; cbn; set_solver).
  assert (f ∉ creating t1) as Hnc by (cbn; set_solver).
  destruct answer as [state|]; [|by apply failed_simulated]. destruct (objects t1 !! f) as [p|] eqn:Ho; [|by apply failed_simulated].
  destruct (_ || _) eqn:Eg; [exists m; split; [apply steps_refl|done]|]. bsplit.
  match goal with H : ¬ (_ ≠ _) |- _ => apply dec_stable in H; rename H into Hp end.
  destruct (markOAuthBindPopup _ _ _) as [ok storage'] eqn:Em. set (t2 := match getOAuthSessionStorage _ with Some _ => _ | None => t1 end).
  assert (tab_rel t2 m ∧ pendingOAuthBinding t2 = Some f ∧ objects t2 = objects t1 ∧ creating t2 = creating t1) as (Ht2 & Hp2 & Ho2 & Hc2).
  { unfold t2. destruct (getOAuthSessionStorage _); [|done]. split_and!; try done. eapply rel_same; try done. intros g. apply look_session. }
  destruct ok; [|by apply failed_simulated].
  destruct (rel_send f state t2 m p Ht2 Hp2) as (m' & Hs & Ht3); [by rewrite Hc2|by rewrite Ho2| |by eapply mark_state|].
  { destruct Ht as (_ & _ & _ & Hc). by apply (Hc f). }
  destruct (url state) as [u|].
  - exists m'. split; [by apply steps_one|]. eapply rel_same; try done. intros g. apply look_location.
  - destruct (failed_simulated f _ _ Ht3) as (m'' & Hs' & Ht4). exists m''. split; [|done]. eapply steps_trans; [by apply steps_one|done].
Qed.

Lemma set_watcher_id p : set_watcher (stopCloseWatcher p) p = p.
Proof. by destruct p. Qed.

Lemma alter_id_at {A} (g : A → A) (m : gmap nat A) f x : m !! f = Some x → g x = x → alter g f m = m.
Proof. intros Hx Hg. apply map_eq. intros i. destruct (decide (i = f)) as [->|E]; [by rewrite lookup_alter_eq, Hx; cbn; rewrite Hg|by rewrite lookup_alter_ne]. Qed.

Lemma watcher_simulated f t m : tab_rel t m → simulated (watcherRuns f) t m.
Proof.
  intros Ht. unfold simulated, watcherRuns. destruct (objects t !! f) as [p|] eqn:Ho; [|exists m; split; [apply steps_refl|done]].
  assert (tab_rel (change_object f (set_watcher (stopCloseWatcher p)) t) m) as Hid.
  { unfold change_object. rewrite (alter_id_at _ (objects t) f p); [by destruct t|done|apply set_watcher_id]. }
  destruct (watcher_ticks _ _) as [tm fired] eqn:Ew. unfold watcher_ticks in Ew.
  destruct (scheduled (stopCloseWatcher p)) eqn:Es.
  2: { injection Ew as <- <-. exists m. split; [apply steps_refl|done]. }
  destruct (negb _ || _) eqn:Ea; injection Ew as <- <-.
  { exists m. split; [apply steps_refl|done]. }
  bsplit. destruct Ht as (HR & Hf & Hmnt & Hc).
  pose proof (HR f) as Hv. unfold view_rel in Hv. cbn [look v_object] in Hv. rewrite Ho in Hv. destruct (m !! f) as [[prov ph]|] eqn:Em; [|done].
  destruct Hv as (-> & Hcl & Hcur & Htm & Hph). rewrite Htm in Es. assert (live ph = true) as Hl by (unfold timer_of in Es; by destruct (live ph)).
  cbn in Hcur. rewrite Hl in Hcur. apply bool_decide_eq_true in Hcur.
  exists (<[f := (p_provider p, Dropped)]> m). split; [by apply steps_one; eapply sp_drop|].
  unfold clearPendingOAuthBinding. cbn. rewrite Hcur, decide_True by auto. split_and!.
  - eapply rel_change; [done| |].
    + intros g Hg. look_ne. rewrite Hcur. f_equal. rewrite !bool_decide_eq_false_2 by congruence. done.
    + unfold view_rel, look. cbn. rewrite !lookup_alter_eq, Ho. cbn. unfold popup_closed in *. cbn in Hcl. destruct (windows t !! f) as [w|]; [|by destruct Hcl as [? [=]]].
      do 4 (split; [done|]). destruct (live_quiet _ _ _ Hl Hph) as (? & ? & ? & ? & ?). split_and!; try done. cbn. congruence.
  - intros g. cbn. rewrite !lookup_alter_is_Some. apply Hf.
  - cbn. by intros [? [=]].
  - intros g q Hg. cbn in *. destruct (decide (g = f)) as [->|E]; [rewrite !lookup_alter_eq, Ho; intros [= <-]; exact (Hc f p Hg Ho)|].
    rewrite !lookup_alter_ne by done. by apply Hc.
Qed.

Definition binding_result (message : jsval) (success : bool) (text : jsval) : jsval :=
  JObj [(js "type", JStr OAUTH_BIND_RESULT_MESSAGE); (js "provider", prop "provider" message); (js "state", prop "state" message);
    (js "success", JBool success); (js "message", text)].

Definition with_result (d : jsval) (v : view) : view :=
  mkView (v_object v) (v_closed v) (v_current v) (v_exchanging v) (v_refreshing v) (v_calls v) (v_answers v) (d :: v_results v).
Definition with_call (provider msg : jsval) (v : view) : view :=
  mkView (v_object v) (v_closed v) (v_current v) (Some msg) (v_refreshing v) ((provider, exchange_params msg) :: v_calls v) (v_answers v) (v_results v).
Definition with_answer (r : ApiOutcome) (v : view) : view :=
  mkView (v_object v) (v_closed v) (v_current v) None (v_refreshing v) (v_calls v) (r :: v_answers v) (v_results v).
Definition with_refreshing (x : option (jsval * jsval)) (v : view) : view :=
  mkView (v_object v) (v_closed v) (v_current v) (v_exchanging v) x (v_calls v) (v_answers v) (v_results v).

Lemma look_post f g msg b text t :
  look (postBindingResult f msg b text t) g = if decide (g = f) then with_result (binding_result msg b text) (look t g) else look t g.
Proof. case_decide as E; [subst g|look_ne]. unfold look, with_result. cbn. rewrite calls_cons, answers_cons, results_cons. by rewrite decide_True. Qed.

Lemma look_get f g provider msg t :
  look (say (ApiGet f provider (exchange_params msg)) (set_exchanging (<[f := msg]> (exchanging t)) t)) g
  = if decide (g = f) then with_call provider msg (look t g) else look t g.
Proof. case_decide as E; [subst g|look_ne]. unfold look, with_call. cbn. rewrite calls_cons, answers_cons, results_cons, lookup_insert_eq. by rewrite decide_True. Qed.

Lemma look_answer f g r t :
  look (say (Answered f r) (set_exchanging (delete f (exchanging t)) t)) g = if decide (g = f) then with_answer r (look t g) else look t g.
Proof. case_decide as E; [subst g|look_ne]. unfold look, with_answer. cbn. rewrite calls_cons, answers_cons, results_cons, lookup_delete_eq. by rewrite decide_True. Qed.

Lemma look_refresh f g x t :
  look (set_refreshing (<[f := x]> (refreshing t)) t) g = if decide (g = f) then with_refreshing (Some x) (look t g) else look t g.
Proof. case_decide as E; [subst g|look_ne]. unfold look, with_refreshing. cbn. by rewrite lookup_insert_eq. Qed.

Lemma look_refreshed f g t : look (set_refreshing (delete f (refreshing t)) t) g = if decide (g = f) then with_refreshing None (look t g) else look t g.
Proof. case_decide as E; [subst g|look_ne]. unfold look, with_refreshing. cbn. by rewrite lookup_delete_eq. Qed.

Lemma result_belongs p msg b text : belongs p msg → belongs p (binding_result msg b text) ∧ prop "success" (binding_result msg b text) = JBool b.
Proof. intros [H1 H2]. unfold belongs, binding_result. rewrite H1, H2. split_and!; by vm_compute. Qed.

(** A message that claims to come from a popup of this site has a state. *)
Definition honest (ev : MessageEvent) (t : tab) : Prop :=
  ∀ f, ev_origin ev = origin → ev_source ev = Some f → is_Some (windows t !! f) → prop "state" (ev_data ev) ≠ JStr [].

Lemma is_str_spec s v : is_str s v = true ↔ v = JStr s.
Proof. destruct v; cbn; try (split; [done|congruence]). rewrite bool_decide_eq_true. split; [by intros ->|congruence]. Qed.

Lemma accepts_spec ev f p : accepts ev f p = true → ev_source ev = Some f ∧ belongs p (ev_data ev).
Proof. unfold accepts. cbv zeta. intros H. bsplit. by rewrite is_str_spec in *. Qed.

Lemma handleMessage_simulated ev t m : tab_rel t m → honest ev t → simulated (handleMessage ev) t m.
Proof.
  intros Ht Hh. unfold simulated, handleMessage.
  assert (∃ m', steps spec_step m m' ∧ tab_rel t m') as Hskip by (exists m; split; [apply steps_refl|done]).
  destruct (_ && _) eqn:Eo; [|done]. bsplit. destruct (pendingOAuthBinding t) as [f|] eqn:Hp; [|done].
  destruct (rel_current _ _ _ Ht Hp) as (p & ph & Ho & Hm & Hl & [w Hw] & Htm & Hph). rewrite Ho. destruct (accepts ev f p) eqn:Ea; [|done].
  apply accepts_spec in Ea as [Hsrc Hbel]. clear Hskip.
  assert (p_state p ≠ []) as Hne by (intros E; eapply Hh; [done..|by rewrite Hw|]; destruct Hbel as [_ ->]; by rewrite E).
  destruct (live_quiet _ _ _ Hl Hph) as (He & Hr & Hc & Hans & Hres).
  assert (∃ st, ph = Sent st) as [st ->] by (destruct ph as [|st| | |]; try done; [cbn in Hph; naive_solver|by eexists]).
  set (t1 := clearPendingOAuthBinding (Some f) t).
  assert (∀ t', (∀ g, look t' g = look t1 g ∨ g = f) → objects t' = objects t1 → fresh t' = fresh t1 → pendingOAuthBinding t' = None → creating t' = creating t1 →
    ∀ y, view_rel (look t' f) (Some y) → tab_rel t' (<[f := y]> m)) as Hfin.
  { intros t' Hl' Ho' Hf' Hp' Hc' y Hy. destruct Ht as (HR & Hf & Hmnt & Hcr). unfold t1 in *. rewrite clear_current in * by done. split_and!.
    - eapply rel_change; [done| |done]. intros g Hg. destruct (Hl' g) as [->|]; [|done]. rewrite <- (clear_current f t) by done. by rewrite look_clear, decide_False.
    - rewrite Ho', Hf'. intros g. cbn. rewrite lookup_alter_is_Some. apply Hf.
    - rewrite Hp'. by intros [? [=]].
    - rewrite Ho', Hc'. cbn. intros g q Hg. destruct (decide (g = f)) as [->|E]; [rewrite lookup_alter_eq, Ho; intros [= <-]; exact (Hcr f p Hg Ho)|].
      rewrite lookup_alter_ne by done. by apply Hcr. }
  assert (spec_step m (<[f := (p_provider p, Exchanging)]> m)) as Hs1 by (by eapply sp_accept).
  destruct (_ && _).
  - exists (<[f := (p_provider p, Done false)]> (<[f := (p_provider p, Exchanging)]> m)). split.
    + eapply steps_snoc; [by apply steps_one|]. apply sp_done. by rewrite lookup_insert_eq.
    + rewrite insert_insert_eq. apply Hfin; try (unfold t1; rewrite clear_current by done; done).
      * intros g. rewrite look_post. case_decide; [by right|left]. by apply look_toast.
      * rewrite look_post, decide_True, look_toast by done. unfold t1. rewrite look_clear, decide_True by done. unfold view_rel. cbn. rewrite Ho. cbn.
        rewrite Hw. cbn. cbn in He, Hr, Hc, Hans, Hres. rewrite He, Hr, Hc, Hans, Hres, Htm. do 4 (split; [done|]). unfold phase_rel. cbn.
        split_and!; try done; [by left|]. eexists. split; [done|]. by apply result_belongs.
  - exists (<[f := (p_provider p, Exchanging)]> m). split; [by apply steps_one|]. apply Hfin; try (unfold t1; rewrite clear_current by done; done).
    + intros g. rewrite look_get. case_decide; [by right|by left].
    + rewrite look_get, decide_True by done. unfold t1. rewrite look_clear, decide_True by done. unfold view_rel. cbn. rewrite Ho. cbn.
      rewrite Hw. cbn. cbn in He, Hr, Hc, Hans, Hres. rewrite Hr, Hc, Hans, Hres, Htm. do 4 (split; [done|]). unfold phase_rel. cbn.
      split_and!; try done. exists (ev_data ev). destruct Hbel as [Hb1 Hb2]. rewrite Hb1. split_and!; try done. by left.
Qed.

(** A change of one binding that touches neither objects nor the current binding *)
Lemma rel_update t t' m f y : tab_rel t m → (∀ g, g ≠ f → look t' g = look t g) → objects t' = objects t → fresh t' = fresh t →
  mounted t' = mounted t → pendingOAuthBinding t' = pendingOAuthBinding t → creating t' = creating t → view_rel (look t' f) (Some y) →
  tab_rel t' (<[f := y]> m).
Proof. intros (H & Hf & Hm & Hc) Hl Ho Hfr Hmt Hp Hcr Hy. unfold tab_rel. rewrite Ho, Hfr, Hmt, Hp, Hcr. split_and!; try done. by eapply rel_change. Qed.

Lemma rel_suspended t m f : tab_rel t m → is_Some (exchanging t !! f) ∨ is_Some (refreshing t !! f) →
  ∃ p, objects t !! f = Some p ∧ m !! f = Some (p_provider p, Exchanging) ∧ is_Some (windows t !! f) ∧ v_current (look t f) = false
    ∧ stopCloseWatcher p = mkTimer false false ∧ phase_rel (look t f) p Exchanging.
Proof.
  intros [H _] Hs. specialize (H f). unfold view_rel in H. destruct (v_object (look t f)) as [p|] eqn:Eo, (m !! f) as [[prov ph]|] eqn:Em; try done.
  - destruct H as (-> & Hc & Hl & Hw & Hph). cbn in Eo, Hc. apply fmap_is_Some in Hc. unfold phase_rel in Hph. cbn in Hph.
    destruct ph; try (destruct Hph as (E1 & E2 & _); rewrite E1, E2 in Hs; destruct Hs as [[? [=]]|[? [=]]]); [eauto 10|].
    destruct Hph as (_ & E1 & E2 & _). rewrite E1, E2 in Hs. destruct Hs as [[? [=]]|[? [=]]].
  - unfold look in H. injection H as _ _ _ E1 E2 _ _ _. rewrite E1, E2 in Hs. destruct Hs as [[? [=]]|[? [=]]].
Qed.

(** The answer of the server settles a binding that failed. *)
Lemma exchange_settled f r t m msg text : tab_rel t m → exchanging t !! f = Some msg → succeeded r = false →
  ∃ m', steps spec_step m m'
    ∧ tab_rel (postBindingResult f msg false text (say (ToastError text) (say (Answered f r) (set_exchanging (delete f (exchanging t)) t)))) m'.
Proof.
  intros Ht He Hr. destruct (rel_suspended t m f Ht) as (p & Ho & Hm & [w Hw] & Hcur & Htm & Hph); [left; by rewrite He|].
  destruct Hph as (Hne & Hres & msg' & Hb & Hc & [(He' & Hrf & Ha)|(He' & _)]); cbn in He'; [|congruence]. cbn in Hc, Hrf, Ha, Hres.
  exists (<[f := (p_provider p, Done false)]> m). split; [by apply steps_one, sp_done|]. eapply rel_update; try done.
  - intros g Hg. by rewrite look_post, decide_False, look_toast, look_answer, decide_False.
  - rewrite look_post, decide_True, look_toast, look_answer, decide_True by done. unfold view_rel. cbn. rewrite Ho, Hw, Hc, Hrf, Ha, Hres. cbn.
    do 4 (split; [done|]). unfold phase_rel. cbn. assert (msg' = msg) as -> by congruence. split_and!; try done.
    + right. exists msg, r. by rewrite Hr.
    + eexists. split; [done|]. by apply result_belongs.
Qed.

Lemma exchangeDone_simulated f r t m : tab_rel t m → simulated (exchangeDone f r) t m.
Proof.
  intros Ht. unfold simulated, exchangeDone. destruct (exchanging t !! f) as [msg|] eqn:He; [|exists m; split; [apply steps_refl|done]].
  destruct r as [body|sm em]; [|by apply exchange_settled]. destruct (truthy (prop "success" body)) eqn:Es; [|by apply exchange_settled].
  destruct (rel_suspended t m f Ht) as (p & Ho & Hm & [w Hw] & Hcur & Htm & Hph); [left; by rewrite He|].
  destruct Hph as (Hne & Hres & msg' & Hb & Hc & [(He' & Hrf & Ha)|(He' & _)]); cbn in He'; [|congruence]. cbn in Hc, Hrf, Ha, Hres.
  exists m. split; [apply steps_refl|]. do 3 (apply rel_toast; [done|]). rewrite <- (insert_id m f (p_provider p, Exchanging)) by done. eapply rel_update; try done.
  - intros g Hg. by rewrite look_refresh, decide_False, look_answer, decide_False.
  - rewrite look_refresh, decide_True, look_answer, decide_True by done. unfold view_rel. cbn. rewrite Ho, Hw, Hc, Ha, Hres. cbn.
    do 4 (split; [done|]). unfold phase_rel. cbn. assert (msg' = msg) as -> by congruence. split_and!; try done.
    exists msg. split_and!; try done. right. eauto 10.
Qed.

Lemma bindingsFetched_simulated f t m : tab_rel t m → simulated (bindingsFetched f) t m.
Proof.
  intros Ht. unfold simulated, bindingsFetched. destruct (refreshing t !! f) as [[msg text]|] eqn:He; [|exists m; split; [apply steps_refl|done]].
  destruct (rel_suspended t m f Ht) as (p & Ho & Hm & [w Hw] & Hcur & Htm & Hph); [right; by rewrite He|].
  destruct Hph as (Hne & Hres & msg' & Hb & Hc & [(_ & He' & _)|(Hex & text' & r & He' & Ha & Hr)]); cbn in He'; [congruence|].
  cbn in Hc, Hex, Ha, Hres. assert (msg' = msg) as -> by congruence.
  exists (<[f := (p_provider p, Done true)]> m). split; [by apply steps_one, sp_done|]. eapply rel_update; try done.
  - intros g Hg. by rewrite look_post, decide_False, look_refreshed, decide_False.
  - rewrite look_post, decide_True, look_refreshed, decide_True by done. unfold view_rel. cbn. rewrite Ho, Hw, Hc, Hex, Ha, Hres. cbn.
    do 4 (split; [done|]). unfold phase_rel. cbn. split_and!; try done.
    + right. exists msg, r. by rewrite Hr.
    + eexists. split; [done|]. by apply result_belongs.
Qed.

Lemma unmount_simulated t m : tab_rel t m → simulated unmount t m.
Proof.
  intros Ht. unfold simulated, unmount.
  assert (∀ t' m', tab_rel t' m' → pendingOAuthBinding t' = None →
    tab_rel (mkTab false (pendingOAuthBinding t') (objects t') (windows t') (fresh t') (creating t') (exchanging t') (refreshing t') (trace t')) m') as Hfin.
  { intros t' m' (H & Hf & _ & Hc) Hp. split_and!; try done. cbn. rewrite Hp. by intros [? [=]]. }
  destruct (pendingOAuthBinding t) as [f|] eqn:Hp.
  - destruct (rel_drop f t m Ht Hp) as (m' & Hs & Hr & _). exists m'. split; [by apply steps_one|]. apply Hfin; [done|]. by rewrite clear_current.
  - exists m. split; [apply steps_refl|]. unfold clearPendingOAuthBinding. rewrite Hp. by apply Hfin.
Qed.

(** ** Both windows *)

(** A callback page waits for a result only with the stamp of its flow. *)
Lemma callback_waits provider s o o' storage p message : OAuthCallback provider s o o' storage = BindWaits p message →
  ∃ state st, s_state s = Some state ∧ state ≠ [] ∧ getOAuthSessionStorage storage = Some st ∧ getItem st (flow_key provider) = Some (Some state)
    ∧ o = Some false ∧ p = mkPage provider state timer_started false []
    ∧ prop "provider" message = JStr provider ∧ prop "state" message = JStr state.
Proof.
  unfold OAuthCallback. cbv zeta. intros H.
  destruct (if decide (provider = js "telegram") then _ else None) eqn:Et; [by destruct (postTelegramBindResult _ _)|].
  destruct (callbackMode provider s o storage) eqn:Em; [by destruct (negb _ && _)|]. destruct o' as [[]|]; try done. injection H as <- <-.
  unfold callbackMode in Em. destruct (bool_decide (provider = js "telegram") && _) eqn:E.
  { exfalso. bsplit. rewrite decide_True in Et by done. unfold parseTelegramBindCallback in Et. cbv zeta in Et.
    match goal with H : _ ∨ _ |- _ => destruct H as [H|H]; rewrite ?H in Et end; cbn [negb andb] in Et; rewrite ?andb_false_r in Et;
      by destruct (negb (str_true (ostr (s_flow_token s)))), (bool_decide (s_telegram_bind s = Some (js "success"))). }
  unfold resolveOAuthCallbackMode in Em. destruct o as [[]|]; try done. destruct (getOAuthSessionStorage storage) as [st|] eqn:Es; [|done].
  destruct (str_true (ostr (s_state s))) eqn:En; [|done]. destruct (getItem st (flow_key provider)) as [mk|] eqn:Eg; [|done]. case_bool_decide as Eb; [|done].
  apply str_true_spec in En. destruct (s_state s) as [state|]; [|done]. cbn in *. subst mk. exists state, st. split_and!; try done.
Qed.

Definition posted_ok (w : world) : Prop := Forall (fun ev => prop "state" (ev_data ev) ≠ JStr []) (posted w).

(** A page times out only before any result, and reports success only for a result
    of its own binding that says so. *)
Definition page_ok (v : nat) (p : page) (l : list Effect) : Prop :=
  ((resultTimeout p = timer_started ∧ notices p = [])
   ∨ (resultTimeout p = mkTimer false false ∧ ∃ l n, notices p = l ++ [n] ∧ BindingTimedOut ∉ l))
  ∧ (BindingSuccessful ∈ notices p → ∃ d, PostResult v d ∈ l ∧ prop "provider" d = JStr (pg_provider p) ∧ prop "state" d = JStr (pg_state p)
       ∧ truthy (prop "success" d) = true).

Definition world_rel (w : world) (m : spec) : Prop :=
  tab_rel (the_tab w) m ∧ posted_ok w ∧ ∀ v p, pages w !! v = Some p → page_ok v p (trace (the_tab w)).

Lemma page_ok_more v p l l' : (∀ e, e ∈ l → e ∈ l') → page_ok v p l → page_ok v p l'.
Proof. intros Hl [H1 H2]. split; [done|]. intros Hs. destruct (H2 Hs) as (d & Hd & H3). eauto. Qed.

(** The trace only grows. *)
Lemma trace_clear f t : trace (clearPendingOAuthBinding f t) = trace t.
Proof. unfold clearPendingOAuthBinding. by destruct (pendingOAuthBinding t) as [g|]; [case_decide|]. Qed.

Lemma trace_failed f t e : e ∈ trace t → e ∈ trace (binding_failed f t).
Proof. intros H. unfold binding_failed. case_bool_decide; cbn; rewrite trace_clear; [by constructor|done]. Qed.

Lemma trace_act a w e : e ∈ trace (the_tab w) → e ∈ trace (the_tab (act a w)).
Proof.
  intros H. destruct a as [provider opened|f body url|f|ev|f r|f| |v|v provider s o o'|v data|v]; cbn.
  - unfold startOAuthBinding. destruct (pendingOAuthBinding _), opened; cbn; rewrite ?trace_clear; by constructor.
  - unfold flowCreated. case_decide; [|done]. cbv zeta. destruct (body ≫= _) as [state|]; [|by apply trace_failed]. destruct (objects _ !! f); [|by apply trace_failed].
    destruct (_ || _); [done|]. destruct (markOAuthBindPopup _ _ _) as [[] st]; destruct (getOAuthSessionStorage _); try destruct (url _); first [by apply trace_failed|done].
  - unfold watcherRuns. destruct (objects _ !! f); [|done]. destruct (watcher_ticks _ _) as [tm []]; by rewrite ?trace_clear.
  - unfold handleMessage. destruct (_ && _); [|done]. destruct (pendingOAuthBinding _); [|done]. destruct (objects _ !! _); [|done]. destruct (accepts _ _ _); [|done].
    destruct (_ && _); cbn; rewrite trace_clear; repeat constructor; done.
  - unfold exchangeDone. destruct (exchanging _ !! f); [|done]. destruct r; [destruct (truthy _)|]; cbn; repeat constructor; done.
  - unfold bindingsFetched. destruct (refreshing _ !! f) as [[]|]; [|done]. by constructor.
  - unfold unmount. cbn. destruct (pendingOAuthBinding (the_tab w)); cbn; by rewrite trace_clear.
  - done.
  - by destruct (OAuthCallback _ _ _ _ _).
  - destruct (pages _ !! v); [|done]. by destruct (handleBindingResult _ _ _ _) as [? []].
  - done.
Qed.

Lemma notice_ok v p n tm delayed l : page_ok v p l → tm = timer_cancel (resultTimeout p) → n ≠ BindingTimedOut →
  (n = BindingSuccessful → ∃ d, PostResult v d ∈ l ∧ prop "provider" d = JStr (pg_provider p) ∧ prop "state" d = JStr (pg_state p) ∧ truthy (prop "success" d) = true) →
  page_ok v (notice n tm delayed p) l.
Proof.
  intros [Ht Hs] -> Hn Hd. split; cbn.
  - right. destruct Ht as [(-> & ->)|(-> & k & x & -> & Hk)]; (split; [done|]); [exists [], n; by split; [|apply not_elem_of_nil]|].
    exists (n :: k), x. split; [done|]. apply not_elem_of_cons. by split.
  - intros [Hin|Hin]%elem_of_cons; [by apply Hd|by apply Hs].
Qed.

Lemma result_page_ok v p d l : page_ok v p l → PostResult v d ∈ l → page_ok v (handleBindingResult origin true d p).1 l.
Proof.
  intros Hp Hd. unfold handleBindingResult. destruct (bool_decide (origin = origin) && _ && _ && _ && _ && _) eqn:E; [|done]. bsplit. rewrite is_str_spec in *.
  destruct (truthy (prop "success" d)) eqn:Es; cbn [fst]; apply notice_ok; try done. intros _. eauto.
Qed.

Lemma deadline_page_ok v p l : page_ok v p l → page_ok v (resultDeadline p) l.
Proof.
  intros [Ht Hs]. unfold resultDeadline, deadline_fires. destruct Ht as [(E & En)|(E & Hk)]; rewrite E; cbn.
  - split; cbn; rewrite En; [right; split; [done|]; exists [], BindingTimedOut; by split; [|apply not_elem_of_nil]|].
    intros H. by apply list_elem_of_singleton in H.
  - split; cbn; [by right|done].
Qed.

Lemma world_tab g w m : world_rel w m → simulated g (the_tab w) m → (∀ e, e ∈ trace (the_tab w) → e ∈ trace (g (the_tab w))) →
  ∃ m', steps spec_step m m' ∧ world_rel (on_tab g w) m'.
Proof.
  intros (Ht & Hp & Hpg) (m' & Hs & Ht') Htr. exists m'. split; [done|]. split_and!; [done..|]. intros v p Hv. eapply page_ok_more; [exact Htr|by apply Hpg].
Qed.

Lemma close_simulated v t m : tab_rel t m → simulated (change_window v close_window) t m.
Proof. intros Ht. exists m. split; [apply steps_refl|by apply rel_close]. Qed.

Lemma posted_honest ev w : posted_ok w → enabled (Deliver ev) w → honest ev (the_tab w).
Proof.
  intros Hp [Hin|[Ho|Hs]] f Hev Hsrc [x Hx]; [|done|rewrite (Hs f Hsrc) in Hx; done]. unfold posted_ok in Hp. rewrite Forall_forall in Hp. by apply Hp.
Qed.

(** Every action of the two windows is simulated by the specification. *)
Lemma act_simulated a w m : world_rel w m → enabled a w → ∃ m', steps spec_step m m' ∧ world_rel (act a w) m'.
Proof.
  intros Hw Ha. pose proof Hw as (Ht & Hp & Hpg). pose proof (λ e, trace_act a w e) as Htr.
  destruct a as [provider opened|f body url|f|ev|f r|f| |v|v provider s o o'|v d|v]; cbn [act] in *.
  - apply world_tab; [done|by apply start_simulated|done].
  - apply world_tab; [done|by apply flowCreated_simulated|done].
  - apply world_tab; [done|by apply watcher_simulated|done].
  - apply world_tab; [done|apply handleMessage_simulated; [done|by apply posted_honest]|done].
  - apply world_tab; [done|by apply exchangeDone_simulated|done].
  - apply world_tab; [done|by apply bindingsFetched_simulated|done].
  - apply world_tab; [done|by apply unmount_simulated|done].
  - apply world_tab; [done|by apply close_simulated|done].
  - exists m. split; [apply steps_refl|].
    assert (world_rel (mkWorld (the_tab w) (delete v (pages w)) (posted w)) m) as Hdel.
    { split_and!; [done..|]. intros g p. cbn. rewrite lookup_delete_Some. intros [_ Hg]. by apply Hpg. }
    destruct (OAuthCallback _ _ _ _ _) as [| | |p message| |] eqn:E; try done.
    apply callback_waits in E as (state & st & _ & Hne & _ & _ & _ & -> & _ & Hst). split_and!; [done| |].
    + apply Forall_cons. split; [|done]. cbn. rewrite Hst. congruence.
    + intros g p. cbn. rewrite lookup_insert_Some. intros [[<- <-]|[_ Hg]]; [|by apply Hpg]. split; [by left|]. intros H. by apply not_elem_of_nil in H.
  - exists m. split; [apply steps_refl|]. destruct (pages w !! v) as [p|] eqn:Ep; [|done].
    pose proof (result_page_ok v p d _ (Hpg v p Ep) Ha) as Hok. destruct (handleBindingResult origin true d p) as [p' closes]. cbn in Hok.
    split_and!; [destruct closes; [by apply rel_close|done]|done|]. intros g q. cbn. rewrite lookup_insert_Some. intros [[<- <-]|[_ Hg]].
    + by destruct closes.
    + destruct closes; by apply Hpg.
  - exists m. split; [apply steps_refl|]. split_and!; [done..|]. intros g q. cbn. destruct (decide (g = v)) as [->|E].
    + rewrite lookup_alter_eq. intros (p & Ep & ->)%fmap_Some. by apply deadline_page_ok, Hpg.
    + rewrite lookup_alter_ne by done. apply Hpg.
Qed.

Lemma initial_rel : world_rel initial_world ∅.
Proof.
  split_and!; [split_and!| |].
  - intros f. unfold view_rel, look. cbn. by rewrite !lookup_empty.
  - intros f. cbn. rewrite lookup_empty. by intros [? [=]].
  - cbn. by intros [? [=]].
  - intros f p. cbn. set_solver.
  - constructor.
  - intros v p. cbn. by rewrite lookup_empty.
Qed.

Lemma reachable_related w : steps step initial_world w → ∃ m, steps spec_step ∅ m ∧ world_rel w m.
Proof.
  apply (steps_invariant step (fun w => ∃ m, steps spec_step ∅ m ∧ world_rel w m)); [|exists ∅; split; [apply steps_refl|apply initial_rel]].
  intros w1 w2 (m & Hm & Hw) (a & Ha & ->). destruct (act_simulated a w1 m Hw Ha) as (m' & Hs & Hw'). exists m'. split; [by eapply steps_trans|done].
Qed.

(** What one binding did, read off the specification *)
Lemma binding_outcome t m f : tab_rel t m →
  length (calls f (trace t)) ≤ 1 ∧ length (results f (trace t)) ≤ 1
  ∧ (∀ d, d ∈ results f (trace t) → ∃ p, objects t !! f = Some p ∧ p_state p ≠ [] ∧ belongs p d
       ∧ prop "success" d = JBool (existsb succeeded (answers f (trace t)))).
Proof.
  intros [H _]. specialize (H f). unfold view_rel in H. cbn [look v_object] in H. destruct (objects t !! f) as [p|] eqn:Eo.
  - destruct (m !! f) as [[prov ph]|]; [|done]. destruct H as (-> & _ & _ & _ & Hph). destruct ph; cbn in Hph.
    1,2,5: destruct Hph as (_ & _ & -> & _ & -> & _); split_and!; [cbn; lia..|]; intros d Hd; by apply not_elem_of_nil in Hd.
    + destruct Hph as (_ & -> & msg & _ & -> & _). split_and!; [cbn; lia..|]. intros d Hd. by apply not_elem_of_nil in Hd.
    + destruct Hph as (Hne & _ & _ & Hex & d & -> & Hb & Hs). split_and!; [|cbn; lia|].
      * destruct Hex as [(-> & _)|(msg & r & _ & -> & _)]; cbn; lia.
      * intros d' ->%list_elem_of_singleton. exists p. split_and!; try done. rewrite Hs. f_equal.
        destruct Hex as [(_ & -> & ->)|(msg & r & _ & _ & -> & ->)]; [done|]. cbn. by rewrite orb_false_r.
  - destruct (m !! f); [done|]. unfold look in H. injection H as _ _ _ _ _ -> _ ->. split_and!; [cbn; lia..|]. intros d Hd. by apply not_elem_of_nil in Hd.
Qed.

Lemma elem_of_results f d l : d ∈ results f l ↔ PostResult f d ∈ l.
Proof.
  unfold results. rewrite list_elem_of_omap. split.
  - intros (e & He & H). destruct e; try done. case_decide; [|done]. by injection H as <-; subst.
  - intros H. exists (PostResult f d). split; [done|]. by rewrite decide_True.
Qed.

(** C23. Binding in a popup follows its specification, whatever the interleaving of
    the two windows, the server, the user and other windows: every reachable state
    of the page is one that the life of bindings allows.  So at most one binding is
    live, every binding is exchanged at most once and answered at most once, also
    when the callback page is loaded again or a message arrives twice, and the
    answer says what the server said, to the popup of the flow, with its provider
    and its state. *)
Theorem binding_refines w : steps step initial_world w →
  ∃ m, steps spec_step ∅ m ∧ tab_rel (the_tab w) m
  ∧ ∀ f, length (calls f (trace (the_tab w))) ≤ 1 ∧ length (results f (trace (the_tab w))) ≤ 1
      ∧ ∀ d, PostResult f d ∈ trace (the_tab w) → ∃ p, objects (the_tab w) !! f = Some p ∧ p_state p ≠ [] ∧ belongs p d
          ∧ prop "success" d = JBool (existsb succeeded (answers f (trace (the_tab w)))).
Proof.
  intros Hw. destruct (reachable_related w Hw) as (m & Hm & Ht & _). exists m. split_and!; [done..|]. intros f.
  destruct (binding_outcome _ _ f Ht) as (Hc & Hr & Hd). split_and!; [done..|]. intros d. rewrite <- elem_of_results. apply Hd.
Qed.

(** A popup is told the truth: when the callback page in a popup reports success,
    the popup belongs to a flow with the provider and the state of the page, and the
    server accepted the exchange of that flow.  The page times out at most once,
    and never after it reported an outcome. *)
Theorem popup_told_truth w v p : steps step initial_world w → pages w !! v = Some p →
  (BindingSuccessful ∈ notices p → ∃ b r, objects (the_tab w) !! v = Some b ∧ p_provider b = pg_provider p ∧ p_state b = pg_state p
     ∧ r ∈ answers v (trace (the_tab w)) ∧ succeeded r = true)
  ∧ (∀ l n k, notices p = l ++ n :: k → n = BindingTimedOut → k = [])
  ∧ (notices p ≠ [] → scheduled (resultTimeout p) = false).
Proof.
  intros Hw Hp. destruct (reachable_related w Hw) as (m & _ & Ht & _ & Hpg). destruct (Hpg v p Hp) as [Htm Hs]. split_and!.
  - intros Hin. destruct (Hs Hin) as (d & Hd & Hpr & Hst & Hsu). destruct (binding_outcome _ _ v Ht) as (_ & _ & Hout).
    destruct (Hout d) as (b & Hb & _ & [Hb1 Hb2] & Hb3); [by apply elem_of_results|]. rewrite Hb3 in Hsu. cbn in Hsu. apply existsb_exists in Hsu as (r & Hr & Hr').
    exists b, r. split_and!; try done; [congruence|congruence|by apply list_elem_of_In].
  - intros l n k E ->. destruct Htm as [(_ & E')|(_ & l' & n' & E' & Hn')]; rewrite E in E'; [by destruct l|].
    destruct k as [|x k _] using rev_ind; [done|]. exfalso. apply Hn'. rewrite app_comm_cons, app_assoc in E'. apply app_inj_tail in E' as [<- _]. set_solver.
  - intros Hn. destruct Htm as [(_ & E')|(-> & _)]; done.
Qed.

(** The page holds on to nothing: the watcher of a popup runs exactly while its
    binding is the current one, a popup that is still open belongs to the current
    binding or to one that was accepted, an exchange is suspended only for an
    accepted binding, and after the page is gone no binding is current and every
    popup that was not accepted is closed. *)
Theorem binding_resources w : steps step initial_world w →
  let t := the_tab w in
  (∀ f p, objects t !! f = Some p → scheduled (stopCloseWatcher p) = bool_decide (pendingOAuthBinding t = Some f))
  ∧ (∀ f, popup_closed t f = false → pendingOAuthBinding t = Some f ∨ calls f (trace t) ≠ [] ∨ results f (trace t) ≠ [])
  ∧ (∀ f, is_Some (exchanging t !! f) ∨ is_Some (refreshing t !! f) → calls f (trace t) ≠ [] ∧ results f (trace t) = [])
  ∧ (mounted t = false → pendingOAuthBinding t = None).
Proof.
  intros Hw t. destruct (reachable_related w Hw) as (m & _ & Ht & _). fold t in Ht. split_and!.
  - intros f p Ho. destruct Ht as [H _]. specialize (H f). unfold view_rel in H. cbn [look v_object] in H. rewrite Ho in H.
    destruct (m !! f) as [[prov ph]|]; [|done]. destruct H as (_ & _ & Hl & -> & _). cbn in Hl. rewrite Hl. unfold timer_of. by destruct (live ph).
  - intros f Hc. unfold popup_closed in Hc. destruct (windows t !! f) as [x|] eqn:Ex; [|done]. destruct Ht as [H _]. specialize (H f). unfold view_rel in H.
    cbn [look v_object] in H. destruct (objects t !! f) as [p|] eqn:Eo.
    + destruct (m !! f) as [[prov ph]|]; [|done]. destruct H as (_ & _ & Hl & _ & Hph). cbn in Hl. destruct ph; cbn in Hph, Hl.
      1,2: left; by apply bool_decide_eq_true in Hl.
      * right; left. destruct Hph as (_ & _ & msg & _ & -> & _). done.
      * right; right. destruct Hph as (_ & _ & _ & _ & d & -> & _). done.
      * destruct Hph as (_ & _ & _ & _ & _ & _ & E). rewrite Ex in E. cbn in E. congruence.
    + destruct (m !! f); [done|]. unfold look in H. injection H as _ E _ _ _ _ _ _. by rewrite Ex in E.
  - intros f Hs. destruct (rel_suspended t m f Ht Hs) as (p & _ & _ & _ & _ & _ & Hph). destruct Hph as (_ & Hres & msg & _ & Hc & _). cbn in Hres, Hc. by rewrite Hc.
  - intros Hm. destruct Ht as (_ & _ & Hmnt & _). destruct (pendingOAuthBinding t); [|done]. rewrite Hmnt in Hm by (by eexists). done.
Qed.

End Page.

(** ** Stamps *)

Lemma getItem_setItem st key value st' k : setItem st key value = Some st' →
  getItem st' k = if decide (k = key ∧ writing st = WriteStores) then (if readable st then Some (Some value) else None) else getItem st k.
Proof.
  unfold setItem, getItem. destruct (writing st); intros [= <-]; cbn.
  - rewrite mget_mset. destruct (decide (key = k)) as [->|E]; [by rewrite decide_True|]. rewrite decide_False by naive_solver. done.
  - rewrite decide_False by naive_solver. done.
Qed.

Lemma flow_key_inj p q : flow_key p = flow_key q → p = q.
Proof. unfold flow_key. apply app_inv_head. Qed.

(** The stamp decides: after a popup was stamped, its callback is a binding
    exactly for that provider and that state, with an opener that is still there;
    for another provider the stamp changes nothing.  Stamping reports success
    whenever the storage works, and when it reports failure no callback becomes a
    binding. *)
Theorem stamp_roundtrip st provider state ok st' :
  markOAuthBindPopup (Some st) provider state = (ok, Some st') →
  (ok = true →
     (∀ state' opener, resolveOAuthCallbackMode provider state' opener (Some st') = ModeBind ↔ opener = Some false ∧ state' = state)
     ∧ ∀ q state' opener, q ≠ provider → resolveOAuthCallbackMode q state' opener (Some st') = resolveOAuthCallbackMode q state' opener (Some st))
  ∧ (readable st = true → writing st = WriteStores → provider ≠ [] → state ≠ [] → ok = true)
  ∧ (ok = false → ∀ q state' opener, resolveOAuthCallbackMode q state' opener (Some st') = ModeBind → resolveOAuthCallbackMode q state' opener (Some st) = ModeBind).
Proof.
  intros H. unfold markOAuthBindPopup in H. destruct (str_true provider && str_true state) eqn:En.
  2: { injection H as <- <-. split_and!; try done. intros _ _ H1 H2. apply str_true_spec in H1, H2. by rewrite H1, H2 in En. }
  apply andb_true_iff in En as [Hp Hs]. destruct (setItem st (flow_key provider) state) as [st1|] eqn:Es.
  2: { injection H as <- <-. split_and!; try done. intros _ Hw. unfold setItem in Es. by rewrite Hw in Es. }
  injection H as <- <-. pose proof (λ k, getItem_setItem st _ _ st1 k Es) as Hget. split_and!.
  - intros Hok%bool_decide_eq_true. split.
    + intros state' opener. unfold resolveOAuthCallbackMode. rewrite Hok. destruct opener as [[]|]; try naive_solver.
      destruct (str_true state') eqn:E; [|apply str_true_false in E as ->; apply str_true_spec in Hs; naive_solver]. case_bool_decide; naive_solver.
    + intros q state' opener Hq. unfold resolveOAuthCallbackMode. rewrite Hget, decide_False; [done|]. intros [E _]. by apply flow_key_inj in E.
  - intros Hr Hw _ _. apply bool_decide_eq_true. by rewrite Hget, decide_True, Hr.
  - intros Hok%bool_decide_eq_false q state' opener. unfold resolveOAuthCallbackMode. rewrite Hget. destruct (decide _) as [[E Hw]|E]; [|by destruct opener as [[]|]].
    rewrite Hget, decide_True in Hok by done. destruct (readable st); [congruence|]. by destruct opener as [[]|], (str_true state').
Qed.

(** ** A binding from start to end *)

Definition sample_actions : list Action :=
  let message := JObj [(js "type", JStr OAUTH_BIND_CALLBACK_MESSAGE); (js "provider", JStr (js "github")); (js "code", JStr (js "c1")); (js "state", JStr (js "s1"));
                       (js "error", JUndef); (js "errorDescription", JUndef)] in
  [ Start (js "github") (Some (AccessGives (Some (mkStorage [] true WriteStores))));
    FlowAnswer 0 (Some (JObj [(js "success", JBool true); (js "data", JStr (js "s1"))])) (fun s => Some s);
    Load 0 (js "github") (mkSearch (Some (js "c1")) (Some (js "s1")) None None None None None None) (Some false) (Some false);
    Deliver (mkMessage (js "o") (Some 0) message);
    Deliver (mkMessage (js "o") (Some 0) message);
    ExchangeAnswer 0 (Responded (JObj [(js "success", JBool true)]));
    BindingsAnswer 0;
    DeliverResult 0 (binding_result message true (JStr (js "OAuth failed")));
    DeadlinePasses 0 ].

Definition sample_world : world := foldl (fun w a => act id (js "o") a w) initial_world sample_actions.

Lemma sample_reachable : steps (step id (js "o")) initial_world sample_world.
Proof.
  unfold sample_world, sample_actions. cbn [foldl]. repeat (eapply steps_snoc; [|eexists; split; [|reflexivity]]); [apply steps_refl|..].
  all: try (by vm_compute).
  - left. vm_compute. repeat constructor.
  - left. vm_compute. repeat constructor.
  - cbn [enabled]. vm_compute. repeat constructor.
Qed.

Lemma binding_refines_witness :
  length (calls 0 (trace (the_tab sample_world))) = 1 ∧ ∃ m, steps spec_step ∅ m ∧ tab_rel (the_tab sample_world) m.
Proof.
  split; [by vm_compute|]. destruct (binding_refines id (js "o") sample_world sample_reachable) as (m & Hm & Ht & _). by exists m.
Defined.

Lemma popup_told_truth_witness : ∃ p, pages sample_world !! 0 = Some p ∧ notices p = [BindingSuccessful] ∧ scheduled (resultTimeout p) = false.
Proof.
  eexists. split; [by vm_compute|]. split; [by vm_compute|]. eapply (popup_told_truth id (js "o") sample_world 0 _ sample_reachable); by vm_compute.
Defined.

Lemma binding_resources_witness : popup_closed (the_tab sample_world) 0 = true ∧ pendingOAuthBinding (the_tab sample_world) ≠ Some 0.
Proof.
  split; [by vm_compute|]. destruct (binding_resources id (js "o") sample_world sample_reachable) as (H & _).
  assert (∃ p, objects (the_tab sample_world) !! 0 = Some p ∧ scheduled (stopCloseWatcher p) = false) as (p & E & Es) by (eexists; split; by vm_compute).
  specialize (H 0 p E). rewrite Es in H. by apply eq_sym, bool_decide_eq_false in H.
Defined.

Lemma stamp_roundtrip_witness :
  let st' := mkStorage [(flow_key (js "github"), js "s1")] true WriteStores in
  resolveOAuthCallbackMode (js "github") (js "s1") (Some false) (Some st') = ModeBind.
Proof.
  intros st'. destruct (stamp_roundtrip (mkStorage [] true WriteStores) (js "github") (js "s1") true st') as (H & _); [by vm_compute|].
  destruct (H eq_refl) as [H1 _]. by apply H1.
Defined.

End OAuthBind.
