(* ===== verification/JsonPrint.v ===== *)
(** * [JSON.stringify]

    The text of a value, compact or with an indentation, and that parsing it gives
    the value back: the keys of its objects come in the order of enumeration, which
    puts array indices first. *)

From Stdlib Require Import QArith Qabs ZifyBool ZifyN.
From S2P Require Import Prelude JsString JsValue JsJson JsNumber.
Local Close Scope Q_scope.

(** ** Printing *)

Definition json_number (x : num) : jsstr := match x with Fin _ => num_str x | _ => js "null" end.

(** A line break and the indentation; nothing in compact text *)
Definition json_break (gap depth : nat) : jsstr := match gap with 0 => [] | _ => 10%N :: replicate (gap * depth) 32%N end.

Definition json_member (gap depth : nat) (key text : jsstr) : jsstr :=
  json_break gap depth ++ JSON_stringify_str key ++ [58%N] ++ (match gap with 0 => [] | _ => [32%N] end) ++ text.

Definition is_undef (v : jsval) : bool := match v with JUndef => true | _ => false end.

(** An element that is undefined is printed as null, a member that is undefined is
    left out. *)
Fixpoint json_text (gap depth : nat) (v : jsval) : jsstr :=
  match v with
  | JUndef | JNull => js "null"
  | JBool b => if b then js "true" else js "false"
  | JNum x => json_number x
  | JStr s => JSON_stringify_str s
  | JArr l =>
      match (fun v => json_break gap (S depth) ++ json_text gap (S depth) v) <$> l with
      | [] => [91; 93]%N
      | texts => [91%N] ++ str_join [44%N] texts ++ json_break gap depth ++ [93%N]
      end
  | JObj fs =>
      let members := (fun e => (e.1, (e.2, json_text gap (S depth) e.2))) <$> fs in
      match (fun e => json_member gap (S depth) e.1 e.2.2) <$> own_fields (filter (fun e => is_undef e.2.1 = false) members) with
      | [] => [123; 125]%N
      | texts => [123%N] ++ str_join [44%N] texts ++ json_break gap depth ++ [125%N]
      end
  end.

(** [JSON.stringify(v, null, gap)]; undefined has no text. *)
Definition JSON_stringify (gap : nat) (v : jsval) : option jsstr := match v with JUndef => None | _ => Some (json_text gap 0 v) end.

(** ** Numerals *)

(** What may follow a numeral *)
Definition number_end (r : jsstr) : Prop := ∀ c r', r = c :: r' → is_digit c = false ∧ c ≠ 46%N ∧ c ≠ 101%N ∧ c ≠ 69%N.

(** The shape of a numeral of JSON without sign *)
Definition json_shape (s : jsstr) : Prop :=
  let '(int, s1) := take_digits s in
  int ≠ [] ∧ (∀ c t, int ≠ 48%N :: c :: t) ∧ ∀ f, s1 = 46%N :: f → (take_digits f).1 ≠ [].

Lemma take_digits_app s r : number_end r → take_digits (s ++ r) = ((take_digits s).1, (take_digits s).2 ++ r).
Proof.
  intros Hr. induction s as [|c s IH]; cbn.
  - destruct r as [|c r]; [done|]. cbn. by rewrite (proj1 (Hr c r eq_refl)).
  - destruct (is_digit c); [|done]. rewrite IH. by destruct (take_digits s).
Qed.

Lemma parse_exponent_app s e r : number_end r → parse_exponent s = Some (e, []) → parse_exponent (s ++ r) = Some (e, r).
Proof.
  intros Hr H. destruct s as [|c s].
  - injection H as <-. destruct r as [|c r]; [done|]. destruct (Hr c r eq_refl) as (_ & _ & H1 & H2). cbn.
    by rewrite (proj2 (N.eqb_neq c 101)), (proj2 (N.eqb_neq c 69)).
  - cbn [parse_exponent app] in *. destruct (_ || _)%bool; [|by injection H].
    assert (∀ neg t, (let '(d, r') := take_digits t in match d with [] => None | _ => Some (if neg : bool then (- digits_value d)%Z else digits_value d, r') end) = Some (e, []) →
      (let '(d, r') := take_digits (t ++ r) in match d with [] => None | _ => Some (if neg then (- digits_value d)%Z else digits_value d, r') end) = Some (e, r)) as Hd.
    { intros neg t. rewrite take_digits_app by done. destruct (take_digits t) as [[|d ds] u]; [done|]. cbn. intros [= <- ->]. done. }
    destruct s as [|x s]; [by vm_compute in H|].
    destruct (decide (x = 45%N)) as [->|H45]; [by apply (Hd true)|]. destruct (decide (x = 43%N)) as [->|H43]; [by apply (Hd false)|].
    assert (∀ t, match x :: t with 45%N :: r0 => (true, r0) | 43%N :: r0 => (false, r0) | _ => (false, x :: t) end = (false, x :: t)) as Hx.
    { intros t. repeat (case_match; try done); congruence. }
    rewrite Hx in H. cbn [app]. rewrite Hx. by apply (Hd false (x :: s)).
Qed.

Lemma parse_unsigned_of_decimal s q r : json_shape s → parse_decimal s = Some q → number_end r → parse_unsigned (s ++ r) = Some (q, r).
Proof.
  unfold json_shape, parse_decimal, parse_unsigned. intros Hs Hq Hr. rewrite take_digits_app by done. destruct (take_digits s) as [int s1]. cbn [fst snd].
  destruct Hs as (Hne & Hz & Hf). destruct int as [|c int]; [done|].
  assert (∀ (X : option (Q * jsstr)), match c :: int with 48%N :: _ :: _ => None | _ => X end = X) as HX.
  { intros X. repeat (case_match; try done); simplify_eq; exfalso; by eapply Hz. }
  rewrite HX. destruct s1 as [|x s1].
  - cbn [app]. rewrite app_nil_r in Hq. destruct (parse_exponent []) as [[e [|]]|] eqn:Ee; try done.
    assert (match r with 46%N :: r0 => let '(f, r') := take_digits r0 in (f, r', str_true f) | _ => ([], r, true) end = ([], r, true)) as ->.
    { destruct r as [|y r]; [done|]. destruct (Hr y r eq_refl) as (_ & Hy & _). repeat (case_match; try done); congruence. }
    rewrite (parse_exponent_app [] e r Hr Ee : parse_exponent r = _). cbn [mbind option_bind]. rewrite app_nil_r. by injection Hq as <-.
  - destruct (decide (x = 46%N)) as [->|Hx].
    + cbn [app]. rewrite take_digits_app by done. specialize (Hf s1 eq_refl). destruct (take_digits s1) as [f s2]. cbn [fst snd] in *.
      destruct f as [|y f]; [done|]. cbn [str_true]. cbn [app] in Hq. destruct (parse_exponent s2) as [[e [|]]|] eqn:Ee; try done.
      rewrite (parse_exponent_app s2 e r Hr Ee). cbn [mbind option_bind]. by injection Hq as <-.
    + assert (∀ t (A : Type) (f : jsstr → A) (z : A), match x :: t with 46%N :: r0 => f r0 | _ => z end = z) as Hm.
      { intros t A f z. repeat (case_match; try done); congruence. }
      rewrite (Hm s1 _ take_digits) in Hq. rewrite app_nil_r in Hq. cbn [app].
      rewrite (Hm (s1 ++ r) _ (fun r0 => let '(f, r') := take_digits r0 in (f, r', str_true f))).
      destruct (parse_exponent (x :: s1)) as [[e [|]]|] eqn:Ee; try done.
      rewrite (parse_exponent_app (x :: s1) e r Hr Ee : parse_exponent (x :: s1 ++ r) = _). cbn [mbind option_bind]. rewrite app_nil_r. by injection Hq as <-.
Qed.

Lemma shape_int int t : int ≠ [] → Forall (fun c => is_digit c = true) int → (∀ c r, int ≠ 48%N :: c :: r) →
  (∀ c t', t = c :: t' → is_digit c = false ∧ c ≠ 46%N) → json_shape (int ++ t).
Proof.
  intros Hne Hd Hz Ht. unfold json_shape. rewrite take_digits_run; [|done|by intros c t' ->; apply (Ht c t')]. split_and!; try done.
  intros f ->. by destruct (Ht 46%N f eq_refl).
Qed.

Lemma shape_frac int frac t : int ≠ [] → Forall (fun c => is_digit c = true) int → (∀ c r, int ≠ 48%N :: c :: r) →
  frac ≠ [] → Forall (fun c => is_digit c = true) frac → (∀ c t', t = c :: t' → is_digit c = false) → json_shape (int ++ [46%N] ++ frac ++ t).
Proof.
  intros Hne Hd Hz Hf Hfd Ht. unfold json_shape. rewrite take_digits_run; [|done|by intros c t' [= <- _]]. split_and!; try done.
  intros f [= <-]. by rewrite take_digits_run.
Qed.

Lemma layout_shape ds n : ds ≠ [] → Forall (fun c => is_digit c = true) ds → (∀ t, ds ≠ 48%N :: t) → json_shape (layout ds n).
Proof.
  intros Hne Hd Hh. unfold layout. set (k := Z.of_nat (length ds)).
  assert (∀ i, Forall (fun c => is_digit c = true) (take i ds) ∧ Forall (fun c => is_digit c = true) (drop i ds)) as Hsplit.
  { intros i. split; [by apply Forall_take|by apply Forall_drop]. }
  assert (∀ i c r, take i ds ≠ 48%N :: c :: r) as Hti.
  { intros i c r E. destruct ds as [|d ds], i; try done. cbn in E. injection E as -> _. by destruct (Hh ds). }
  destruct ((k <=? n) && (n <=? 21))%Z eqn:E1; [|destruct ((0 <? n) && (n <=? 21))%Z eqn:E2; [|destruct ((-6 <? n) && (n <=? 0))%Z eqn:E3]].
  - rewrite <- (app_nil_r (ds ++ _)). apply shape_int; [by intros [? _]%app_eq_nil|by apply Forall_app; auto using zeros_digits| |done].
    intros c r E. destruct ds as [|d ds]; [done|]. injection E as -> _. by destruct (Hh ds).
  - rewrite <- (app_nil_r (drop _ _)). apply shape_frac; [|by apply Hsplit|by apply Hti| |by apply Hsplit|done].
    + destruct ds as [|d ds]; [done|]. destruct (Z.to_nat n) eqn:En; [lia|done].
    + intros E. apply (f_equal length) in E. rewrite length_drop in E. cbn in E. lia.
  - change (js "0." ++ ?t) with ([48%N] ++ [46%N] ++ t). rewrite <- (app_nil_r (_ ++ ds)).
    apply shape_frac; [done|by repeat constructor|done| |by apply Forall_app; auto using zeros_digits|done]. by intros [_ ?]%app_eq_nil.
  - pose proof (some_exponent (n - 1)) as [_ He]. set (t := [101%N] ++ _ ++ str_of_N _) in *. clearbody t.
    destruct ds as [|d [|d' ds]]; [done|..]; cbn [take drop].
    + apply (shape_int [d] t); [done|done|done|done].
    + apply (shape_frac [d] (d' :: ds) t); [done|by apply (Hsplit 1)|done|done|by apply (Hsplit 1)|]. intros c t' E. by apply (He c t').
Qed.

Lemma str_of_N_head n t : (0 < n)%N → str_of_N n ≠ 48%N :: t.
Proof.
  intros Hn E. unfold str_of_N in E. destruct (N.to_uint n) as [|u|u|u|u|u|u|u|u|u|u] eqn:Eu; try discriminate E. apply to_uint_head in Eu. lia.
Qed.

Lemma decimal_of_head q t : (0 < q)%Q → is_decimal q → (decimal_of q).1 ≠ 48%N :: t.
Proof.
  intros Hq Hd. pose proof (decimal_of_spec q Hq Hd) as H. unfold decimal_of in *. destruct (strip_zeros _ _) as [s z]. destruct H as (_ & _ & Hv). cbn [fst].
  apply str_of_N_head. destruct (decide (0 < Z.to_N s)%N) as [|Hs]; [done|]. exfalso. assert (Z.to_N s = 0%N) as E by lia.
  rewrite E in Hv. rewrite <- Hv in Hq. change (digits_value (str_of_N 0)) with 0%Z in Hq. change (inject_Z 0) with 0%Q in Hq.
  rewrite Qmult_0_l in Hq. by apply Qlt_irrefl in Hq.
Qed.

(** A printed number reads back as itself. *)
Lemma parse_number_text x r : is_canonical x → number_end r → parse_number (num_str x ++ r) = Some (x, r).
Proof.
  destruct x as [| |q]; [done|done|]. intros [Hr Hd] Hs. unfold num_str. destruct (Z.eqb_spec (Qnum q) 0) as [H0|H0].
  - assert (q = 0%Q) as -> by (rewrite <- Hr; apply (Qred_complete q 0); unfold Qeq; simpl; lia).
    cbn [parse_number app]. change (js "0") with [48%N]. cbn [app].
    change (parse_number (48%N :: r)) with ('(q, r') ← parse_unsigned ([48%N] ++ r); Some (Fin q, r')).
    by rewrite (parse_unsigned_of_decimal [48%N] 0%Q r).
  - assert (0 < Qabs q)%Q as Hpos by (destruct q as [a d]; unfold Qabs, Qlt; simpl in *; lia).
    assert (Qred (Qabs q) = Qabs q ∧ is_decimal (Qabs q)) as [Hra Hda].
    { destruct q as [[|a|a] d]; [done|done|]. change (Qabs (Zneg a # d)) with (- (Zneg a # d))%Q.
      split; [by rewrite Qred_opp, Hr|]. destruct Hd as [k Hk]. exists k. by rewrite Qred_opp. }
    pose proof (positive_text _ Hpos Hda) as H. pose proof (decimal_of_spec _ Hpos Hda) as Hds. pose proof (λ t, decimal_of_head _ t Hpos Hda) as Hh.
    destruct (decimal_of (Qabs q)) as [ds n]. destruct H as (_ & (c & t & E & Hc) & Hp). rewrite Hra in Hp. destruct Hds as (Hne & Hdd & _).
    pose proof (parse_unsigned_of_decimal _ _ r (layout_shape ds n Hne Hdd Hh) Hp Hs) as Hu.
    destruct (Z.ltb_spec (Qnum q) 0) as [Hneg|Hneg].
    + cbn [app parse_number]. rewrite Hu. cbn [mbind option_bind]. do 3 f_equal. by destruct q as [[|a|a] d].
    + cbn [app]. rewrite E in *. cbn [app] in *.
      assert (parse_number (c :: t ++ r) = '(q, r') ← parse_unsigned (c :: t ++ r); Some (Fin q, r')) as ->.
      { unfold parse_number. repeat (case_match; try done); subst; by vm_compute in Hc. }
      rewrite Hu. cbn [mbind option_bind]. do 3 f_equal. by destruct q as [[|a|a] d].
Qed.

(** ** Values *)

Section NestedInduction.
Context (P : jsval → Prop).
Context (HU : P JUndef) (HN : P JNull) (HB : ∀ b, P (JBool b)) (HX : ∀ x, P (JNum x)) (HS : ∀ s, P (JStr s)).
Context (HA : ∀ l, Forall P l → P (JArr l)) (HO : ∀ fs, Forall (fun e => P e.2) fs → P (JObj fs)).

Fixpoint jsval_nested_ind (v : jsval) : P v :=
  match v with
  | JUndef => HU
  | JNull => HN
  | JBool b => HB b
  | JNum x => HX x
  | JStr s => HS s
  | JArr l => HA l ((fix go l : Forall P l := match l with [] => List.Forall_nil P | v :: l => @List.Forall_cons _ P v l (jsval_nested_ind v) (go l) end) l)
  | JObj fs =>
      HO fs ((fix go fs : Forall (fun e => P e.2) fs :=
                match fs with [] => List.Forall_nil _ | e :: fs => @List.Forall_cons _ (fun e => P e.2) e fs (jsval_nested_ind e.2) (go fs) end) fs)
  end.
End NestedInduction.

(** Values that JSON can express *)
Fixpoint plain (v : jsval) : Prop :=
  match v with
  | JUndef => False
  | JNull | JBool _ => True
  | JNum x => is_canonical x
  | JStr s => units s
  | JArr l => foldr (fun v P => plain v ∧ P) True l
  | JObj fs => NoDup (mkeys fs) ∧ foldr (fun e P => (units e.1 ∧ plain e.2) ∧ P) True fs
  end.

(** The value with the keys of its objects in the order of enumeration *)
Fixpoint enumerated (v : jsval) : jsval :=
  match v with
  | JArr l => JArr (enumerated <$> l)
  | JObj fs => JObj (own_fields ((fun e => (e.1, enumerated e.2)) <$> fs))
  | _ => v
  end.

(** The fuel that parsing needs *)
Fixpoint json_size (v : jsval) : nat :=
  match v with
  | JArr l => S (foldr (fun v n => S (json_size v) + n) 0 l)
  | JObj fs => S (foldr (fun e n => S (json_size e.2) + n) 0 fs)
  | _ => 1
  end.

Lemma foldr_and {A} (P : A → Prop) l : foldr (fun x Q => P x ∧ Q) True l ↔ Forall P l.
Proof. induction l as [|x l IH]; cbn; [split; [constructor|done]|]. rewrite Forall_cons, IH. done. Qed.

Lemma plain_arr l : plain (JArr l) ↔ Forall plain l.
Proof. apply foldr_and. Qed.

Lemma plain_obj fs : plain (JObj fs) ↔ NoDup (mkeys fs) ∧ Forall (fun e => units e.1 ∧ plain e.2) fs.
Proof. cbn [plain]. by rewrite foldr_and. Qed.

Definition all_ws (w : jsstr) : Prop := Forall (fun c => is_json_ws c = true) w.

Lemma skip_ws_app w s : all_ws w → skip_ws (w ++ s) = skip_ws s.
Proof. induction 1 as [|c w Hc _ IH]; [done|]. cbn. by rewrite Hc. Qed.

Lemma json_break_ws gap depth : all_ws (json_break gap depth).
Proof. unfold json_break. destruct gap; [constructor|]. constructor; [done|]. by apply Forall_replicate. Qed.

Lemma parse_value_ws fuel w s : all_ws w → parse_value fuel (w ++ s) = parse_value fuel s.
Proof. intros Hw. destruct fuel; [done|]. cbn [parse_value]. by rewrite skip_ws_app. Qed.

Lemma parse_members_ws fuel w s acc : all_ws w → parse_members fuel (w ++ s) acc = parse_members fuel s acc.
Proof. intros Hw. destruct fuel; [done|]. cbn [parse_members]. by rewrite skip_ws_app. Qed.

Lemma stop_break gap depth c r : is_digit c = false → c ≠ 46%N → c ≠ 101%N → c ≠ 69%N → number_end (json_break gap depth ++ c :: r).
Proof. intros H1 H2 H3 H4 x r' E. unfold json_break in E. destruct gap; injection E as <- _; done. Qed.

Lemma json_text_head gap depth v : plain v → ∃ c t, json_text gap depth v = c :: t ∧ is_json_ws c = false ∧ c ≠ 93%N ∧ c ≠ 125%N.
Proof.
  destruct v as [| |[]|x|s|l|fs]; cbn [json_text plain]; intros Hp.
  - done.
  - by exists 110%N, (js "ull").
  - by exists 116%N, (js "rue").
  - by exists 102%N, (js "alse").
  - unfold json_number. destruct x as [| |q]; try done. destruct Hp as [Hr Hd]. unfold num_str.
    destruct (Z.eqb_spec (Qnum q) 0) as [H0|H0]; [by exists 48%N, []|].
    assert (0 < Qabs q)%Q as Hpos by (destruct q as [a d]; unfold Qabs, Qlt; simpl in *; lia).
    assert (is_decimal (Qabs q)) as Hda.
    { destruct q as [[|a|a] d]; [done|done|]. change (Qabs (Zneg a # d)) with (- (Zneg a # d))%Q. destruct Hd as [k Hk]. exists k. by rewrite Qred_opp. }
    pose proof (decimal_of_spec _ Hpos Hda) as H. destruct (decimal_of (Qabs q)) as [ds n]. destruct H as (Hne & Hds & _).
    destruct (layout_head ds n Hne Hds) as (c & t & -> & Hc). destruct (_ <? _)%Z; [by exists 45%N, (c :: t)|]. exists c, t. split; [done|].
    unfold is_digit in Hc. unfold is_json_ws. lia.
  - eexists _, _. by split; [reflexivity|].
  - destruct ((fun v => _) <$> l); eexists _, _; by split; [reflexivity|].
  - destruct ((fun e => _) <$> own_fields _); eexists _, _; by split; [reflexivity|].
Qed.

Lemma insert_by_fmap {A B} (f : A → B) cA cB x l : (∀ a b, cB (f a) (f b) = cA a b) → insert_by cB (f x) (f <$> l) = f <$> insert_by cA x l.
Proof. intros Hc. induction l as [|y l IH]; [done|]. cbn. rewrite Hc. case_match; [done|]. cbn. by rewrite IH. Qed.

Lemma sort_by_fmap {A B} (f : A → B) cA cB l : (∀ a b, cB (f a) (f b) = cA a b) → sort_by cB (f <$> l) = f <$> sort_by cA l.
Proof.
  intros Hc. unfold sort_by. change (@nil B) with (f <$> @nil A). generalize (@nil A). induction l as [|x l IH]; intros acc; [done|].
  rewrite fmap_cons. cbn [foldl]. rewrite (insert_by_fmap f cA cB) by done. apply IH.
Qed.

(** Enumeration looks at keys only. *)
Lemma own_fields_fmap {V W} (g : V → W) fs : own_fields ((fun e => (e.1, g e.2)) <$> fs) = (fun e => (e.1, g e.2)) <$> own_fields fs.
Proof.
  unfold own_fields. rewrite fmap_app. f_equal.
  - rewrite <- (sort_by_fmap _ index_cmp index_cmp) by done. f_equal. induction fs as [|e fs IH]; [done|]. rewrite fmap_cons, !filter_cons. cbn [fst].
    case_decide; [by rewrite IH|done].
  - induction fs as [|e fs IH]; [done|]. rewrite fmap_cons, !filter_cons. cbn [fst]. case_decide; [by rewrite IH|done].
Qed.

Lemma mset_new {K V} `{EqDecision K} (k : K) (v : V) m : k ∉ mkeys m → mset k v m = m ++ [(k, v)].
Proof.
  induction m as [|[k' v'] m IH]; [done|]. unfold mkeys. rewrite fmap_cons, not_elem_of_cons. cbn. intros [H1 H2].
  rewrite decide_False by congruence. by rewrite IH.
Qed.

Lemma foldl_mset_new {K V} `{EqDecision K} (gs acc : list (K * V)) : NoDup (mkeys (acc ++ gs)) → foldl (fun a e => mset e.1 e.2 a) acc gs = acc ++ gs.
Proof.
  revert acc. induction gs as [|[k v] gs IH]; intros acc Hnd; [by rewrite app_nil_r|]. cbn [foldl fst snd]. rewrite mset_new.
  - rewrite IH; rewrite <- app_assoc; done.
  - unfold mkeys in Hnd. rewrite fmap_app, fmap_cons in Hnd. apply NoDup_app in Hnd as (_ & Hn & _). intros Hk. apply (Hn k Hk). constructor.
Qed.

Lemma skip_ws_head c s : is_json_ws c = false → skip_ws (c :: s) = c :: s.
Proof. intros H. cbn. by rewrite H. Qed.

Lemma parse_elements_ws fuel w s acc : all_ws w → parse_elements fuel (w ++ s) acc = parse_elements fuel s acc.
Proof. intros Hw. destruct fuel; [done|]. cbn [parse_elements]. by rewrite parse_value_ws. Qed.

(** What parsing does with a text, at the fuel it needs *)
Definition reads_back (v : jsval) : Prop :=
  ∀ gap depth fuel r, json_size v ≤ fuel → number_end r → parse_value fuel (json_text gap depth v ++ r) = Some (enumerated v, r).

Lemma parse_elements_text gap depth r l acc fuel : l ≠ [] → Forall reads_back l → foldr (fun v n => S (json_size v) + n) 0 l ≤ fuel →
  parse_elements fuel (str_join [44%N] ((fun v => json_break gap (S depth) ++ json_text gap (S depth) v) <$> l) ++ json_break gap depth ++ 93%N :: r) acc
  = Some (JArr (acc ++ (enumerated <$> l)), r).
Proof.
  revert acc fuel. induction l as [|v l IH]; intros acc fuel Hne Hl Hf; [done|]. apply Forall_cons in Hl as [Hv Hl].
  cbn [foldr] in Hf. destruct fuel as [|fuel]; [lia|]. rewrite fmap_cons. cbn [parse_elements]. destruct l as [|v' l].
  - cbn [fmap list_fmap str_join]. rewrite <- !app_assoc, parse_value_ws by apply json_break_ws. rewrite Hv; [|lia|by apply stop_break].
    cbn [mbind option_bind]. rewrite skip_ws_app by apply json_break_ws. done.
  - assert (∀ x ts, ts ≠ [] → str_join [44%N] (x :: ts) = x ++ [44%N] ++ str_join [44%N] ts) as Hj by (by intros x [|]).
    rewrite Hj by done. rewrite <- !app_assoc, parse_value_ws by apply json_break_ws. rewrite Hv; [|lia|by intros ? ? [= <- _]].
    cbn [mbind option_bind app]. rewrite skip_ws_head by done. rewrite (IH (acc ++ [enumerated v]) fuel); [|done|done|cbn [foldr] in *; lia].
    by rewrite <- app_assoc.
Qed.

Lemma parse_members_text gap depth r gs acc fuel : gs ≠ [] → Forall (fun e => units e.1 ∧ reads_back e.2) gs →
  foldr (fun e n => S (json_size e.2) + n) 0 gs ≤ fuel →
  parse_members fuel (str_join [44%N] ((fun e => json_member gap (S depth) e.1 (json_text gap (S depth) e.2)) <$> gs) ++ json_break gap depth ++ 125%N :: r) acc
  = Some (JObj (foldl (fun a e => mset e.1 e.2 a) acc ((fun e => (e.1, enumerated e.2)) <$> gs)), r).
Proof.
  revert acc fuel. induction gs as [|[k v] gs IH]; intros acc fuel Hne Hl Hf; [done|]. apply Forall_cons in Hl as [[Hk Hv] Hl]. cbn [fst snd] in *.
  cbn [foldr fst snd] in Hf. destruct fuel as [|fuel]; [lia|]. rewrite !fmap_cons. cbn [foldl fst snd].
  assert (∀ rest, number_end rest →
    parse_members (S fuel) (json_member gap (S depth) k (json_text gap (S depth) v) ++ rest) acc
    = match skip_ws rest with
      | 44%N :: r4 => parse_members fuel r4 (mset k (enumerated v) acc)
      | 125%N :: r4 => Some (JObj (mset k (enumerated v) acc), r4)
      | _ => None
      end) as Hm.
  { intros rest Hs. unfold json_member. rewrite <- !app_assoc, parse_members_ws by apply json_break_ws. unfold JSON_stringify_str.
    cbn [parse_members app]. rewrite skip_ws_head by done. rewrite <- app_assoc. cbn [app]. rewrite parse_json_escape by done. cbn [mbind option_bind].
    rewrite skip_ws_head by done. rewrite (parse_value_ws fuel (match gap with 0 => [] | S _ => [32%N] end))
      by (destruct gap; by repeat constructor). rewrite Hv; [done|lia|done]. }
  destruct gs as [|e gs].
  - cbn [fmap list_fmap str_join foldl]. rewrite Hm by (by apply stop_break). rewrite skip_ws_app by apply json_break_ws. done.
  - assert (∀ x ts, ts ≠ [] → str_join [44%N] (x :: ts) = x ++ [44%N] ++ str_join [44%N] ts) as Hj by (by intros x [|]).
    rewrite Hj by done. rewrite <- !app_assoc, Hm by (by intros ? ? [= <- _]). cbn [app]. rewrite skip_ws_head by done.
    rewrite (IH (mset k (enumerated v) acc) fuel); [done|done|done|cbn [foldr] in *; lia].
Qed.

Lemma read_number_value x r fuel : is_canonical x → number_end r → 1 ≤ fuel → parse_value fuel (json_number x ++ r) = Some (JNum x, r).
Proof.
  intros Hc Hs Hf. destruct fuel as [|fuel]; [lia|]. pose proof (parse_number_text x r Hc Hs) as Hp.
  assert (∃ c t, num_str x ++ r = c :: t ∧ (is_digit c = true ∨ c = 45%N)) as (c & t & E & Hd).
  { unfold parse_number, parse_unsigned in Hp. destruct (num_str x ++ r) as [|c t]; [by vm_compute in Hp|]. exists c, t. split; [done|].
    destruct (decide (c = 45%N)) as [->|Hn]; [by right|left]. destruct (is_digit c) eqn:Ed; [done|exfalso].
    assert (take_digits (c :: t) = ([], c :: t)) as Et by (cbn; by rewrite Ed).
    rewrite Et in Hp. repeat (case_match; try done); congruence. }
  destruct x as [| |q]; try done. change (json_number (Fin q)) with (num_str (Fin q)). rewrite E in *. cbn [parse_value].
  assert (is_json_ws c = false ∧ (c =? 123) = false ∧ (c =? 91) = false ∧ (c =? 34) = false ∧ (c =? 116) = false ∧ (c =? 102) = false ∧ (c =? 110) = false)%N
    as (Ew & E1 & E2 & E3 & E4 & E5 & E6) by (unfold is_digit in Hd; unfold is_json_ws; lia).
  cbn [skip_ws]. rewrite Ew, E1, E2, E3, E4, E5, E6, Hp. done.
Qed.

Lemma size_perm (l l' : list (jsstr * jsval)) : Permutation l l' →
  foldr (fun e n => S (json_size e.2) + n) 0 l = foldr (fun e n => S (json_size e.2) + n) 0 l'.
Proof. induction 1; cbn in *; lia. Qed.

Lemma members_eq gap depth fs : plain (JObj fs) →
  (fun e => json_member gap (S depth) e.1 e.2.2) <$> own_fields (filter (fun e => is_undef e.2.1 = false) ((fun e => (e.1, (e.2, json_text gap (S depth) e.2))) <$> fs))
  = (fun e => json_member gap (S depth) e.1 (json_text gap (S depth) e.2)) <$> own_fields fs.
Proof.
  rewrite plain_obj. intros [_ Hp].
  assert (filter (fun e => is_undef e.2.1 = false) ((fun e => (e.1, (e.2, json_text gap (S depth) e.2))) <$> fs)
          = (fun e => (e.1, (e.2, json_text gap (S depth) e.2))) <$> fs) as ->.
  { apply filter_all. apply Forall_fmap. eapply Forall_impl; [exact Hp|]. intros [k v] [_ Hv]. by destruct v. }
  rewrite (own_fields_fmap (fun v => (v, json_text gap (S depth) v))), <- list_fmap_compose. done.
Qed.

Lemma ne_match_93 c s fuel : c ≠ 93%N → match c :: s with 93%N :: r' => Some (JArr [], r') | r' => parse_elements fuel r' [] end = parse_elements fuel (c :: s) [].
Proof. intros Hc. repeat (case_match; try done); congruence. Qed.

Lemma value_reads_back v : plain v → reads_back v.
Proof.
  induction v as [| |b|x|s|l IH|fs IH] using jsval_nested_ind; intros Hp gap depth fuel r Hf Hs.
  - done.
  - destruct fuel as [|fuel]; [cbn in Hf; lia|]. done.
  - destruct fuel as [|fuel]; [cbn in Hf; lia|]. by destruct b.
  - by apply read_number_value.
  - destruct fuel as [|fuel]; [cbn in Hf; lia|]. cbn [json_text]. unfold JSON_stringify_str. cbn [app parse_value]. rewrite skip_ws_head by done.
    change (34 =? 123)%N with false. change (34 =? 91)%N with false. change (34 =? 34)%N with true. cbn iota.
    rewrite <- app_assoc. cbn [app]. by rewrite parse_json_escape.
  - apply plain_arr in Hp. destruct fuel as [|fuel]; [cbn in Hf; lia|]. cbn [json_text]. destruct l as [|v l]; [done|].
    assert (Forall reads_back (v :: l)) as Hl by (apply Forall_forall; intros w Hw; rewrite !Forall_forall in *; by apply IH, Hp).
    destruct (json_text_head gap (S depth) v) as (c & t & E & Hw & Hc & _); [by apply Forall_cons in Hp as [Hp _]|].
    set (texts := str_join [44%N] ((fun v => json_break gap (S depth) ++ json_text gap (S depth) v) <$> v :: l)).
    assert (∃ s, texts = json_break gap (S depth) ++ c :: s) as [s Es].
    { unfold texts. rewrite fmap_cons, E. destruct (_ <$> l); cbn [str_join]; rewrite <- ?app_assoc; by eexists. }
    change (parse_value (S fuel) (([91%N] ++ texts ++ json_break gap depth ++ [93%N]) ++ r) = Some (enumerated (JArr (v :: l)), r)).
    rewrite <- !app_assoc. cbn [app parse_value]. rewrite skip_ws_head by done. change (91 =? 123)%N with false. change (91 =? 91)%N with true. cbn iota.
    rewrite Es, <- app_assoc, skip_ws_app by apply json_break_ws. cbn [app]. rewrite skip_ws_head by done.
    rewrite ne_match_93 by done. rewrite <- (parse_elements_ws fuel (json_break gap (S depth))) by apply json_break_ws.
    rewrite app_comm_cons, app_assoc, <- Es. apply parse_elements_text; [done|done|]. cbn in Hf |- *. lia.
  - pose proof Hp as Hp'. apply plain_obj in Hp' as [Hnd Hp']. destruct fuel as [|fuel]; [cbn in Hf; lia|]. cbn [json_text]. rewrite members_eq by done.
    set (gs := own_fields fs). pose proof (own_fields_perm fs) as Hperm. fold gs in Hperm.
    assert (NoDup (mkeys gs)) as Hnd' by (unfold mkeys in *; by rewrite Hperm).
    assert (Forall (fun e => units e.1 ∧ reads_back e.2) gs) as Hl.
    { rewrite Hperm. apply Forall_forall. intros e He. rewrite !Forall_forall in *. split; [by apply Hp'|by apply IH, Hp']. }
    change (enumerated (JObj fs)) with (JObj (own_fields ((fun e => (e.1, enumerated e.2)) <$> fs))). rewrite own_fields_fmap. fold gs.
    assert (gs = [] ∨ gs ≠ []) as [Eg|Eg] by (destruct gs; auto); [by rewrite Eg|].
    set (texts := str_join [44%N] ((fun e => json_member gap (S depth) e.1 (json_text gap (S depth) e.2)) <$> gs)).
    assert (∃ s, texts = json_break gap (S depth) ++ 34%N :: s) as [s Es].
    { unfold texts. destruct gs as [|e gs']; [done|]. rewrite fmap_cons. unfold json_member at 1, JSON_stringify_str at 1.
      destruct (_ <$> gs'); cbn [str_join]; rewrite <- ?app_assoc; by eexists. }
    assert (match (fun e => json_member gap (S depth) e.1 (json_text gap (S depth) e.2)) <$> gs with
            | [] => [123; 125]%N | l => [123%N] ++ str_join [44%N] l ++ json_break gap depth ++ [125%N] end
            = [123%N] ++ texts ++ json_break gap depth ++ [125%N]) as -> by (by destruct gs).
    rewrite <- !app_assoc. cbn [app parse_value]. rewrite skip_ws_head by done. change (123 =? 123)%N with true. cbn iota.
    rewrite Es, <- app_assoc, skip_ws_app by apply json_break_ws. cbn [app]. rewrite skip_ws_head by done.
    rewrite <- (parse_members_ws fuel (json_break gap (S depth))) by apply json_break_ws.
    rewrite app_comm_cons, app_assoc, <- Es. unfold texts. rewrite parse_members_text; [|done|done|].
    + rewrite foldl_mset_new; [done|]. cbn [app]. unfold mkeys in *. rewrite <- list_fmap_compose. exact Hnd'.
    + rewrite (size_perm _ _ Hperm). cbn [json_size] in Hf. lia.
Qed.

Lemma length_join c ts : ts ≠ [] → S (length (str_join [c] ts)) = foldr (fun t n => S (length t) + n) 0 ts.
Proof.
  induction ts as [|t ts IH]; [done|]. intros _. destruct ts as [|t' ts]; [cbn; lia|].
  change (str_join [c] (t :: t' :: ts)) with (t ++ [c] ++ str_join [c] (t' :: ts)). rewrite !length_app. cbn [length foldr] in *.
  specialize (IH ltac:(done)). lia.
Qed.

Lemma sizes_le {A} (f : A → nat) (g : A → jsstr) l : Forall (fun x => f x ≤ length (g x)) l →
  foldr (fun x n => S (f x) + n) 0 l ≤ foldr (fun t n => S (length t) + n) 0 (g <$> l).
Proof. induction 1 as [|x l Hx _ IH]; cbn in *; lia. Qed.

(** The fuel of [JSON.parse] is enough: a text is at least as long as the size of
    its value. *)
Lemma size_le_text gap depth v : plain v → json_size v ≤ length (json_text gap depth v).
Proof.
  revert depth. induction v as [| |b|x|s|l IH|fs IH] using jsval_nested_ind; intros depth Hp.
  1-5: destruct (json_text_head gap depth _ Hp) as (c & t & -> & _); cbn; lia.
  - apply plain_arr in Hp. cbn [json_text]. set (g := fun v => json_break gap (S depth) ++ json_text gap (S depth) v).
    assert (Forall (fun v => json_size v ≤ length (g v)) l) as Hl.
    { apply Forall_forall. intros v Hv. rewrite Forall_forall in *. unfold g. rewrite length_app. pose proof (IH v Hv (S depth) (Hp v Hv)). lia. }
    apply sizes_le in Hl. destruct l as [|v l]; [cbn; lia|]. pose proof (length_join 44 (g <$> v :: l) ltac:(by rewrite fmap_cons)) as Hj.
    cbn [json_size]. rewrite fmap_cons in *. rewrite !length_app. cbn [length]. lia.
  - cbn [json_text]. rewrite members_eq by done. apply plain_obj in Hp as [_ Hp]. cbn [json_size].
    rewrite <- (size_perm _ _ (own_fields_perm fs)). pose proof (own_fields_perm fs) as Hperm. rewrite <- Hperm in Hp, IH. set (gs := own_fields fs) in *. clearbody gs.
    set (g := fun e => json_member gap (S depth) e.1 (json_text gap (S depth) e.2)).
    assert (Forall (fun e => json_size e.2 ≤ length (g e)) gs) as Hl.
    { apply Forall_forall. intros e He. rewrite Forall_forall in *. unfold g, json_member. rewrite !length_app. pose proof (IH e He (S depth) (proj2 (Hp e He))). lia. }
    apply (sizes_le (fun e => json_size e.2)) in Hl. destruct gs as [|e gs]; [cbn; lia|]. pose proof (length_join 44 (g <$> e :: gs) ltac:(by rewrite fmap_cons)) as Hj.
    rewrite fmap_cons in *. rewrite !length_app. cbn [length]. lia.
Qed.

(** What is printed is read back, whatever the indentation. *)
Lemma JSON_roundtrip gap v : plain v → JSON_stringify gap v ≫= JSON_parse = Some (enumerated v).
Proof.
  intros Hp. assert (JSON_stringify gap v = Some (json_text gap 0 v)) as -> by (by destruct v). cbn [mbind option_bind]. unfold JSON_parse.
  pose proof (value_reads_back v Hp gap 0 (S (2 * length (json_text gap 0 v))) []) as H. rewrite app_nil_r in H. rewrite H; [done| |done].
  pose proof (size_le_text gap 0 v Hp). lia.
Qed.

(** Printing loses nothing. *)
Lemma JSON_stringify_inj gap v w : plain v → plain w → json_text gap 0 v = json_text gap 0 w → enumerated v = enumerated w.
Proof.
  intros Hv Hw E. pose proof (JSON_roundtrip gap v Hv) as H1. pose proof (JSON_roundtrip gap w Hw) as H2.
  assert (JSON_stringify gap v = JSON_stringify gap w) as E' by (destruct v, w; try done; cbn [JSON_stringify]; by rewrite E). congruence.
Qed.

Lemma mget_perm {K V} `{EqDecision K} (m m' : list (K * V)) k : NoDup (mkeys m) → Permutation m m' → mget k m = mget k m'.
Proof.
  intros Hnd Hp. destruct (mget k m) as [v|] eqn:E.
  - symmetry. apply elem_mget; [unfold mkeys in *; by rewrite <- Hp|]. rewrite <- Hp. by apply mget_Some_elem.
  - symmetry. apply mget_None. apply mget_None in E. unfold mkeys in *. by rewrite <- Hp.
Qed.

Lemma mget_fmap {K V W} `{EqDecision K} (g : V → W) (m : list (K * V)) k : mget k ((fun e => (e.1, g e.2)) <$> m) = g <$> mget k m.
Proof. induction m as [|[k' v] m IH]; [done|]. cbn. by case_decide. Qed.

(** A printed object has the same members when it is read back. *)
Lemma JSON_object_roundtrip gap fs : plain (JObj fs) →
  ∃ gs, JSON_parse (json_text gap 0 (JObj fs)) = Some (JObj gs) ∧ (∀ k, mget k gs = enumerated <$> mget k fs) ∧ Permutation (mkeys gs) (mkeys fs).
Proof.
  intros Hp. pose proof (JSON_roundtrip gap (JObj fs) Hp) as H. cbn [JSON_stringify mbind option_bind enumerated] in H. eexists. split; [exact H|].
  rewrite own_fields_fmap. apply plain_obj in Hp as [Hnd _]. split.
  - intros k. rewrite mget_fmap. f_equal. symmetry. apply mget_perm; [done|]. symmetry. apply own_fields_perm.
  - unfold mkeys. rewrite <- list_fmap_compose. change (fst ∘ _) with (@fst jsstr jsval). by rewrite own_fields_perm.
Qed.

(** The order of keys is not part of the text of a value. *)
Lemma js_String_enumerated v : js_String (enumerated v) = js_String v.
Proof.
  induction v as [| |b|x|s|l IH|fs IH] using jsval_nested_ind; try done. cbn [enumerated js_String]. f_equal. rewrite <- list_fmap_compose.
  apply list_fmap_ext. intros i v Hv. cbn. apply Forall_lookup_1 with (1 := IH) in Hv. destruct v; try done.
Qed.

(** ** Parsing gives plain values *)

Lemma parse_string_units s t r : units s → parse_string s = Some (t, r) → units t ∧ units r.
Proof.
  remember (length s) as n eqn:Hn. revert s t r Hn. induction n as [n IH] using lt_wf_ind. intros s t r -> Hu H.
  destruct s as [|c s1]; [done|]. cbn [parse_string] in H. pose proof Hu as Hu0. apply Forall_cons in Hu as [Hc Hu].
  destruct (c =? 34)%N; [injection H as <- <-; split; [constructor|done]|].
  assert (∀ s' u x y, length s' < length (c :: s1) → units s' → (u < 65536)%N → ('(t, r) ← parse_string s'; Some (u :: t, r)) = Some (x, y) → units x ∧ units y) as Hstep.
  { intros s' u x y Hl Hs' Hlt E. destruct (parse_string s') as [[t' r']|] eqn:Ep; [|done]. cbn in E. injection E as <- <-.
    destruct (IH (length s') Hl s' t' r' eq_refl Hs' Ep). split; [by constructor|done]. }
  destruct (c =? 92)%N.
  - destruct s1 as [|e s2]; [done|]. apply Forall_cons in Hu as [_ Hu]. destruct (e =? 117)%N.
    + destruct s2 as [|h1 [|h2 [|h3 [|h4 s3]]]]; try done. destruct (hex4 h1 h2 h3 h4) as [u|] eqn:Eh; [|done]. cbn [mbind option_bind] in H.
      eapply Hstep; [| | |exact H]; [cbn; lia|by repeat (apply Forall_cons in Hu as [_ Hu])|].
      unfold hex4 in Eh. destruct (hex_digit h1) eqn:E1, (hex_digit h2) eqn:E2, (hex_digit h3) eqn:E3, (hex_digit h4) eqn:E4; try done. cbn in Eh. injection Eh as <-.
      assert (∀ x y, hex_digit x = Some y → (y < 16)%N) as Hh.
      { intros x y. unfold hex_digit, is_digit. repeat case_match; intros [= <-]; lia. }
      pose proof (Hh _ _ E1). pose proof (Hh _ _ E2). pose proof (Hh _ _ E3). pose proof (Hh _ _ E4). lia.
    + destruct (simple_escape e) as [u|] eqn:Es; [|done]. cbn [mbind option_bind] in H. eapply Hstep; [| | |exact H]; [cbn; lia|done|].
      unfold simple_escape in Es. repeat (case_match; try done); simplify_eq; done.
  - destruct (c <? 32)%N; [done|]. eapply Hstep; [| | |exact H]; [cbn; lia|done|done].
Qed.

Lemma take_digits_units s : units s → units (take_digits s).2.
Proof. induction 1 as [|c s Hc Hs IH]; [constructor|]. cbn. destruct (is_digit c); [|by constructor]. by destruct (take_digits s). Qed.

Lemma skip_ws_units s : units s → units (skip_ws s).
Proof. induction 1 as [|c s Hc Hs IH]; [constructor|]. cbn. by destruct (is_json_ws c); [|constructor]. Qed.

Lemma parse_exponent_units s e r : units s → parse_exponent s = Some (e, r) → units r.
Proof.
  intros Hu H. destruct s as [|c s]; [by injection H as <- <-|]. cbn [parse_exponent] in H. destruct (_ || _)%bool; [|by injection H as <- <-].
  apply Forall_cons in Hu as [_ Hu].
  assert (∀ neg t, units t → (let '(d, r') := take_digits t in match d with [] => None | _ => Some (if neg : bool then (- digits_value d)%Z else digits_value d, r') end) = Some (e, r) → units r) as Hd.
  { intros neg t Ht E. pose proof (take_digits_units t Ht) as Hr. destruct (take_digits t) as [[|d ds] u]; [done|]. by injection E as _ <-. }
  destruct s as [|x s]; [by vm_compute in H|]. apply Forall_cons in Hu as Hu'. destruct Hu' as [_ Hu'].
  destruct (decide (x = 45%N)) as [->|H45]; [by apply (Hd true s)|]. destruct (decide (x = 43%N)) as [->|H43]; [by apply (Hd false s)|].
  assert (match x :: s with 45%N :: r0 => (true, r0) | 43%N :: r0 => (false, r0) | _ => (false, x :: s) end = (false, x :: s)) as Hx.
  { repeat (case_match; try done); congruence. }
  rewrite Hx in H. by apply (Hd false (x :: s)).
Qed.

Lemma parse_unsigned_plain s q r : units s → parse_unsigned s = Some (q, r) → is_canonical (Fin q) ∧ units r.
Proof.
  unfold parse_unsigned. intros Hu H. pose proof (take_digits_units s Hu) as H1. destruct (take_digits s) as [int s1]. cbn [snd] in H1.
  destruct (match s1 with 46%N :: r0 => let '(f, r') := take_digits r0 in (f, r', str_true f) | _ => ([], s1, true) end) as [[frac s2] ok] eqn:E.
  assert (units s2) as H2.
  { destruct s1 as [|x s1]; [by injection E as _ <- _|]. destruct (decide (x = 46%N)) as [->|Hx].
    - apply Forall_cons in H1 as [_ H1]. pose proof (take_digits_units s1 H1). destruct (take_digits s1). by injection E as _ <- _.
    - assert (∀ (A : Type) (f : jsstr → A) (z : A), match x :: s1 with 46%N :: r0 => f r0 | _ => z end = z) as Hm.
      { intros A f z. repeat (case_match; try done); congruence. }
      rewrite (Hm _ (fun r0 => let '(f, r') := take_digits r0 in (f, r', str_true f))) in E. by injection E as _ <- _. }
  destruct ok; [|by repeat (case_match; try done)].
  assert ((parse_exponent s2 ≫= fun '(e, r) => Some (Qred (inject_Z (digits_value (int ++ frac)) * pow10 (e - Z.of_nat (length frac)))%Q, r)) = Some (q, r)) as H'
    by (by repeat (case_match; try done)).
  destruct (parse_exponent s2) as [[e r']|] eqn:Ee; [|done]. cbn in H'. injection H' as <- <-. split; [apply decimal_canonical|]. by eapply parse_exponent_units.
Qed.

Lemma parse_number_plain s x r : units s → parse_number s = Some (x, r) → is_canonical x ∧ units r.
Proof.
  intros Hu H. destruct s as [|c s]; [by vm_compute in H|]. destruct (decide (c = 45%N)) as [->|Hc].
  - cbn [parse_number] in H. apply Forall_cons in Hu as [_ Hu]. destruct (parse_unsigned s) as [[q r']|] eqn:E; [|done]. injection H as <- <-.
    destruct (parse_unsigned_plain _ _ _ Hu E). split; [by apply canonical_opp|done].
  - assert (parse_number (c :: s) = '(q, r') ← parse_unsigned (c :: s); Some (Fin q, r')) as E.
    { unfold parse_number. repeat (case_match; try done); congruence. }
    rewrite E in H. destruct (parse_unsigned (c :: s)) as [[q r']|] eqn:Ep; [|done]. injection H as <- <-. by eapply parse_unsigned_plain.
Qed.

Lemma expect_plain lit v s w r : units s → plain v → expect lit v s = Some (w, r) → plain w ∧ units r.
Proof. unfold expect. intros Hu Hv. destruct (starts_with lit s); [|done]. intros [= <- <-]. split; [done|]. by apply Forall_drop. Qed.

Definition plain_fields (fs : list (jsstr * jsval)) : Prop := NoDup (mkeys fs) ∧ Forall (fun e => units e.1 ∧ plain e.2) fs.

Lemma plain_fields_mset k v fs : units k → plain v → plain_fields fs → plain_fields (mset k v fs).
Proof.
  intros Hk Hv [Hnd Hf]. split; [by apply mkeys_mset_NoDup|]. clear Hnd. induction Hf as [|[k' v'] m Hp Hm IH]; cbn; [by constructor|].
  case_decide; subst; by constructor.
Qed.

Lemma ne_match_125 c s fuel : c ≠ 125%N → match c :: s with 125%N :: r' => Some (JObj [], r') | r' => parse_members fuel r' [] end = parse_members fuel (c :: s) [].
Proof. intros Hc. repeat (case_match; try done); congruence. Qed.

Lemma parse_all_plain fuel :
  (∀ s v r, units s → parse_value fuel s = Some (v, r) → plain v ∧ units r)
  ∧ (∀ s acc v r, units s → Forall plain acc → parse_elements fuel s acc = Some (v, r) → plain v ∧ units r)
  ∧ (∀ s acc v r, units s → plain_fields acc → parse_members fuel s acc = Some (v, r) → plain v ∧ units r).
Proof.
  induction fuel as [|fuel (IHv & IHe & IHm)]; [done|]. split_and!.
  - intros s v r Hu H. apply skip_ws_units in Hu. cbn [parse_value] in H. destruct (skip_ws s) as [|c t]; [done|].
    pose proof Hu as Hu0. apply Forall_cons in Hu as [_ Hu]. pose proof (skip_ws_units t Hu) as Hw.
    destruct (c =? 123)%N; [|destruct (c =? 91)%N; [|destruct (c =? 34)%N; [|destruct (c =? 116)%N; [|destruct (c =? 102)%N; [|destruct (c =? 110)%N]]]]].
    + destruct (skip_ws t) as [|x y]; [by eapply (IHm [] []); [|split; constructor|exact H]|]. destruct (decide (x = 125%N)) as [->|Hx].
      * injection H as <- <-. split; [split; constructor|]. by apply Forall_cons in Hw as [_ Hw].
      * rewrite ne_match_125 in H by done. eapply (IHm (x :: y) []); [done|split; constructor|exact H].
    + destruct (skip_ws t) as [|x y]; [by eapply (IHe [] []); [|constructor|exact H]|]. destruct (decide (x = 93%N)) as [->|Hx].
      * injection H as <- <-. split; [done|]. by apply Forall_cons in Hw as [_ Hw].
      * rewrite ne_match_93 in H by done. eapply (IHe (x :: y) []); [done|constructor|exact H].
    + destruct (parse_string t) as [[t' r']|] eqn:E; [|done]. injection H as <- <-. by destruct (parse_string_units _ _ _ Hu E).
    + by eapply expect_plain in H.
    + by eapply expect_plain in H.
    + by eapply expect_plain in H.
    + destruct (parse_number (c :: t)) as [[x r']|] eqn:E; [|done]. injection H as <- <-. by destruct (parse_number_plain _ _ _ Hu0 E).
  - intros s acc v r Hu Hacc H. cbn [parse_elements] in H. destruct (parse_value fuel s) as [[w r1]|] eqn:E; [|done]. cbn [mbind option_bind] in H.
    destruct (IHv _ _ _ Hu E) as [Hw Hr1]. apply skip_ws_units in Hr1.
    assert (Forall plain (acc ++ [w])) as Hacc' by (apply Forall_app; by repeat constructor).
    destruct (skip_ws r1) as [|c r2]; [done|]. apply Forall_cons in Hr1 as [_ Hr2].
    destruct (decide (c = 44%N)) as [->|]; [by eapply IHe in H|]. destruct (decide (c = 93%N)) as [->|].
    + injection H as <- <-. split; [by apply plain_arr|done].
    + repeat (case_match; try done); congruence.
  - intros s acc v r Hu Hacc H. cbn [parse_members] in H. apply skip_ws_units in Hu. destruct (skip_ws s) as [|c s1]; [done|]. apply Forall_cons in Hu as [_ Hu].
    destruct (decide (c = 34%N)) as [->|]; [|repeat (case_match; try done); congruence].
    destruct (parse_string s1) as [[k r1]|] eqn:Ek; [|done]. cbn [mbind option_bind] in H. destruct (parse_string_units _ _ _ Hu Ek) as [Hk Hr1].
    apply skip_ws_units in Hr1. destruct (skip_ws r1) as [|c r2]; [done|]. apply Forall_cons in Hr1 as [_ Hr2].
    destruct (decide (c = 58%N)) as [->|]; [|repeat (case_match; try done); congruence].
    destruct (parse_value fuel r2) as [[w r3]|] eqn:Ev; [|done]. cbn [mbind option_bind] in H. destruct (IHv _ _ _ Hr2 Ev) as [Hw Hr3].
    apply skip_ws_units in Hr3. pose proof (plain_fields_mset k w acc Hk Hw Hacc) as Hacc'. destruct (skip_ws r3) as [|c r4]; [done|]. apply Forall_cons in Hr3 as [_ Hr4].
    destruct (decide (c = 44%N)) as [->|]; [by eapply IHm in H|]. destruct (decide (c = 125%N)) as [->|].
    + injection H as <- <-. split; [by apply plain_obj|done].
    + repeat (case_match; try done); congruence.
Qed.

(** What [JSON.parse] returns, [JSON.stringify] can express. *)
Lemma JSON_parse_plain s v : units s → JSON_parse s = Some v → plain v.
Proof.
  intros Hu H. unfold JSON_parse in H. destruct (parse_value _ s) as [[w r]|] eqn:E; [|done].
  destruct (parse_all_plain (S (2 * length s))) as (Hv & _). destruct (Hv _ _ _ Hu E) as [Hw _]. destruct (skip_ws r); [|done]. by injection H as <-.
Qed.

Example JSON_stringify_sample :
  JSON_stringify 2 (JObj [(js "b", JArr [JNum (q10 25 (-1)); JUndef]); (js "1", JObj []); (js "c", JUndef)])
  = Some (js "{" ++ [10%N] ++ js "  " ++ quote ++ js "1" ++ quote ++ js ": {}," ++ [10%N]
          ++ js "  " ++ quote ++ js "b" ++ quote ++ js ": [" ++ [10%N] ++ js "    2.5," ++ [10%N] ++ js "    null" ++ [10%N] ++ js "  ]" ++ [10%N] ++ js "}").
Proof. by vm_compute. Qed.

(** ** Enumerated values *)

#[global] Instance index_comparator {V} : Comparator (@index_cmp V).
Proof. split; unfold cmp_le, index_cmp; intros; lia. Qed.

Lemma filter_no {A} (P : A → Prop) `{∀ x, Decision (P x)} l : Forall (fun x => ¬ P x) l → filter P l = [].
Proof. induction 1 as [|x l Hx _ IH]; [done|]. by rewrite filter_cons, decide_False. Qed.

Lemma filter_Forall {A} (P : A → Prop) `{∀ x, Decision (P x)} l : Forall P (filter P l).
Proof. apply Forall_forall. by intros x [Hx _]%list_elem_of_filter. Qed.

Lemma own_fields_idem {V} (fs : list (jsstr * V)) : own_fields (own_fields fs) = own_fields fs.
Proof.
  unfold own_fields. rewrite !filter_app. f_equal.
  - rewrite filter_all by (apply Forall_sort_by, filter_Forall).
    rewrite (filter_no _ (filter (fun f => ¬ is_Some (array_index f.1)) fs)) by apply filter_Forall. rewrite app_nil_r.
    apply sort_by_id, sort_by_sorted; apply _.
  - rewrite (filter_no _ (sort_by _ _)), filter_all; [done|apply filter_Forall|]. apply Forall_sort_by. eapply Forall_impl; [apply filter_Forall|]. intros x Hx. by intros Hn.
Qed.

Lemma enumerated_plain v : plain v → plain (enumerated v).
Proof.
  induction v as [| |b|x|s|l IH|fs IH] using jsval_nested_ind; intros Hp; try done.
  - cbn [enumerated]. rewrite plain_arr in *. apply Forall_fmap. rewrite Forall_forall in *. intros v Hv. cbn. auto.
  - cbn [enumerated]. rewrite plain_obj in *. destruct Hp as [Hnd Hp]. rewrite own_fields_fmap. split.
    + unfold mkeys in *. rewrite <- list_fmap_compose. change (fst ∘ _) with (@fst jsstr jsval). by rewrite own_fields_perm.
    + rewrite Forall_fmap, own_fields_perm. rewrite Forall_forall in *. intros e He. cbn. split; [by apply Hp|]. by apply IH, Hp.
Qed.

(** The text of a value does not depend on the order in which keys were added. *)
Lemma json_text_enumerated gap depth v : plain v → json_text gap depth (enumerated v) = json_text gap depth v.
Proof.
  revert depth. induction v as [| |b|x|s|l IH|fs IH] using jsval_nested_ind; intros depth Hp; try done.
  - cbn [enumerated json_text]. rewrite plain_arr in Hp. rewrite <- list_fmap_compose.
    rewrite (list_fmap_ext (_ ∘ enumerated) (fun v => json_break gap (S depth) ++ json_text gap (S depth) v) l); [done|].
    intros i v Hv. cbn. apply list_elem_of_lookup_2 in Hv. rewrite Forall_forall in *. f_equal. auto.
  - pose proof (enumerated_plain _ Hp) as Hq. cbn [enumerated] in Hq |- *. cbn [json_text]. rewrite !members_eq by done. rewrite own_fields_fmap.
    rewrite (own_fields_fmap enumerated), own_fields_idem, <- list_fmap_compose.
    rewrite (list_fmap_ext (_ ∘ _) (fun e => json_member gap (S depth) e.1 (json_text gap (S depth) e.2)) (own_fields fs)); [done|].
    intros i e He. cbn. apply list_elem_of_lookup_2 in He. rewrite elem_of_own_fields in He. rewrite plain_obj in Hp. destruct Hp as [_ Hp].
    rewrite Forall_forall in *. f_equal. apply IH; [done|]. by apply Hp.
Qed.

Lemma enumerated_idem v : enumerated (enumerated v) = enumerated v.
Proof.
  induction v as [| |b|x|s|l IH|fs IH] using jsval_nested_ind; try done.
  - cbn [enumerated]. f_equal. rewrite <- list_fmap_compose. apply list_fmap_ext. intros i v Hv. apply list_elem_of_lookup_2 in Hv. rewrite Forall_forall in IH. by apply IH.
  - cbn [enumerated]. f_equal. rewrite !own_fields_fmap, own_fields_idem, <- list_fmap_compose.
    apply list_fmap_ext. intros i e He. apply list_elem_of_lookup_2 in He. rewrite elem_of_own_fields in He. rewrite Forall_forall in IH. cbn. by rewrite IH.
Qed.

(** Printed text as a whole *)
Lemma JSON_parse_text gap v : plain v → JSON_parse (json_text gap 0 v) = Some (enumerated v).
Proof. intros Hp. pose proof (JSON_roundtrip gap v Hp) as H. by destruct v. Qed.

Lemma own_fields_names {V} (fs : list (jsstr * V)) : Forall (fun k => array_index k = None) (mkeys fs) → own_fields fs = fs.
Proof.
  intros H. unfold own_fields. unfold mkeys in H. rewrite Forall_fmap in H.
  assert (filter (fun f => is_Some (array_index f.1)) fs = []) as ->.
  { induction H as [|f fs Hf _ IH]; [done|]. rewrite filter_cons, decide_False; [done|]. cbn in Hf. rewrite Hf. by intros [? [=]]. }
  cbn [app]. apply filter_all. eapply Forall_impl; [exact H|]. intros f Hf. cbn in Hf. rewrite Hf. by intros [? [=]].
Qed.

(** ** Printed text and blanks *)

Lemma trim_units s : units s → units (trim s).
Proof. unfold units. rewrite !Forall_forall. intros H c Hc. by apply H, trim_elem. Qed.

Lemma trim_wrapped c s d : is_ws c = false → is_ws d = false → trim (c :: s ++ [d]) = c :: s ++ [d].
Proof.
  intros Hc Hd. unfold trim. rewrite trim_start_id by (by intros ?? [= <- _]). unfold trim_end.
  assert (reverse (c :: s ++ [d]) = d :: reverse (c :: s)) as ->.
  { rewrite app_comm_cons, reverse_app. done. }
  rewrite trim_start_id by (by intros ?? [= <- _]). rewrite reverse_cons, reverse_involutive. done.
Qed.

Lemma object_text_wrapped gap depth fs : ∃ s, json_text gap depth (JObj fs) = 123%N :: s ++ [125%N].
Proof.
  cbn [json_text]. destruct (_ <$> own_fields _) as [|x l]; [by exists []|]. exists (str_join [44%N] (x :: l) ++ json_break gap depth). by rewrite <- app_assoc.
Qed.

Lemma canonical_no_ws q : is_canonical (Fin q) → Forall (fun c => is_ws c = false) (num_str (Fin q)).
Proof.
  intros [Hr Hd]. unfold num_str. destruct (Z.eqb_spec (Qnum q) 0) as [H0|H0]; [decided|].
  assert (0 < Qabs q)%Q as Hpos by (destruct q as [a d]; unfold Qabs, Qlt; simpl in *; lia).
  assert (is_decimal (Qabs q)) as Hda.
  { destruct q as [[|a|a] d]; [done|done|]. change (Qabs (Zneg a # d)) with (- (Zneg a # d))%Q. destruct Hd as [k Hk]. exists k. by rewrite Qred_opp. }
  pose proof (positive_text _ Hpos Hda) as H. destruct (decimal_of (Qabs q)) as [ds n]. destruct H as (Hn & _ & _).
  apply Forall_app. split; [destruct (_ <? _)%Z; decided|]. eapply Forall_impl; [exact Hn|]. apply numeral_not_ws.
Qed.

Lemma json_text_trim gap v : plain v → trim (json_text gap 0 v) = json_text gap 0 v.
Proof.
  intros Hp. destruct v as [| |b|x|s|l|fs]; try done.
  - by destruct b.
  - destruct x as [| |q]; try done. apply trim_id. by apply canonical_no_ws.
  - by apply trim_wrapped.
  - cbn [json_text]. destruct (_ <$> l) as [|x xs]; [done|]. cbn [app]. rewrite app_assoc. by apply trim_wrapped.
  - destruct (object_text_wrapped gap 0 fs) as [s ->]. by apply trim_wrapped.
Qed.

Lemma json_text_nonempty gap v : plain v → json_text gap 0 v ≠ [].
Proof. intros Hp E. by destruct (json_text_head gap 0 v Hp) as (c & t & H & _); rewrite H in E. Qed.

(** ** Printed text holds code units *)

Lemma str_join_units sep l : units sep → Forall units l → units (str_join sep l).
Proof.
  intros Hs. induction 1 as [|w l Hw Hl IH]; [constructor|]. destruct l as [|w' l]; [done|]. change (units (w ++ sep ++ str_join sep (w' :: l))).
  apply Forall_app. split; [done|]. apply Forall_app. by split.
Qed.

Lemma unicode_escape_units c : (c < 65536)%N → units (unicode_escape c).
Proof.
  intros Hc. assert (∀ d, (d < 16)%N → (hex_char d < 65536)%N) as Hh by (intros d Hd; unfold hex_char; destruct (_ <? _)%N; lia).
  unfold unicode_escape. repeat apply Forall_cons_2; try (by vm_compute); try constructor; apply Hh.
  - apply N.Div0.div_lt_upper_bound. lia.
  - apply N.mod_lt. lia.
  - apply N.mod_lt. lia.
  - apply N.mod_lt. lia.
Qed.

Lemma escape_unit_units c : (c < 65536)%N → units (escape_unit c).
Proof.
  intros Hc. assert (units (if (c <? 32)%N || is_high_surrogate c || is_low_surrogate c then unicode_escape c else [c])) as H.
  { destruct (_ || _); [by apply unicode_escape_units|]. by apply Forall_singleton. }
  unfold escape_unit. repeat (case_match; try done); unfold units; decided.
Qed.

Lemma json_escape_units s : units s → units (json_escape s).
Proof.
  remember (length s) as n eqn:Hn. revert s Hn. induction n as [n IH] using lt_wf_ind. intros s -> Hu.
  destruct s as [|c s1]; [constructor|]. apply Forall_cons in Hu as [Hc Hu]. destruct s1 as [|d s2]; [by apply escape_unit_units|].
  assert (units (json_escape (d :: s2))) as E by (apply (IH (length (d :: s2))); [simpl; lia|done|done]).
  cbn [json_escape] in *. destruct (is_high_surrogate c && is_low_surrogate d).
  - apply Forall_cons in Hu as [Hd Hu]. repeat apply Forall_cons_2; try done. apply (IH (length s2)); [simpl; lia|done|done].
  - apply Forall_app. split; [by apply escape_unit_units|done].
Qed.

Lemma stringify_str_units s : units s → units (JSON_stringify_str s).
Proof. intros Hs. apply Forall_cons. split; [done|]. apply Forall_app. split; [by apply json_escape_units|by apply Forall_singleton]. Qed.

Lemma json_break_units gap depth : units (json_break gap depth).
Proof. unfold json_break. destruct gap; [constructor|]. apply Forall_cons. split; [done|]. by apply Forall_replicate. Qed.

Lemma num_str_units x : is_canonical x → units (num_str x).
Proof.
  destruct x as [| |q]; try done. intros [Hr Hd]. unfold num_str. destruct (Z.eqb_spec (Qnum q) 0) as [H0|H0]; [unfold units; decided|].
  assert (0 < Qabs q)%Q as Hpos by (destruct q as [a d]; unfold Qabs, Qlt; simpl in *; lia).
  assert (is_decimal (Qabs q)) as Hda.
  { destruct q as [[|a|a] d]; [done|done|]. change (Qabs (Zneg a # d)) with (- (Zneg a # d))%Q. destruct Hd as [k Hk]. exists k. by rewrite Qred_opp. }
  pose proof (positive_text _ Hpos Hda) as H. destruct (decimal_of (Qabs q)) as [ds n]. destruct H as (Hn & _ & _).
  apply Forall_app. split; [destruct (_ <? _)%Z; unfold units; decided|]. eapply Forall_impl; [exact Hn|]. intros c. cbn. unfold numeral_unit, is_digit. lia.
Qed.

Lemma json_text_units gap depth v : plain v → units (json_text gap depth v).
Proof.
  revert depth. induction v as [| |b|x|s|l IH|fs IH] using jsval_nested_ind; intros depth Hp.
  - done.
  - unfold units; decided.
  - destruct b; unfold units; decided.
  - destruct x as [| |q]; try done. by apply num_str_units.
  - by apply stringify_str_units.
  - cbn [json_text]. apply plain_arr in Hp. assert (Forall units ((fun v => json_break gap (S depth) ++ json_text gap (S depth) v) <$> l)) as Hl.
    { apply Forall_fmap. rewrite Forall_forall in *. intros v Hv. apply Forall_app. split; [apply json_break_units|apply IH; auto]. }
    destruct (_ <$> l); [unfold units; decided|]. apply Forall_app. split; [unfold units; decided|]. apply Forall_app. split; [by apply str_join_units; [unfold units; decided|]|].
    apply Forall_app. split; [apply json_break_units|unfold units; decided].
  - cbn [json_text]. rewrite members_eq by done. apply plain_obj in Hp as [_ Hp].
    assert (Forall units ((fun e => json_member gap (S depth) e.1 (json_text gap (S depth) e.2)) <$> own_fields fs)) as Hl.
    { apply Forall_fmap. rewrite own_fields_perm. rewrite Forall_forall in *. intros e He. unfold json_member. destruct (Hp e He) as [He1 He2].
      apply Forall_app. split; [apply json_break_units|]. apply Forall_app. split; [by apply stringify_str_units|]. apply Forall_app. split; [unfold units; decided|].
      apply Forall_app. split; [destruct gap; unfold units; decided|]. by apply IH. }
    destruct (_ <$> own_fields fs); [unfold units; decided|]. apply Forall_app. split; [unfold units; decided|]. apply Forall_app. split; [by apply str_join_units; [unfold units; decided|]|].
    apply Forall_app. split; [apply json_break_units|unfold units; decided].
Qed.
