(* ===== verification/ModelPricing.v ===== *)
(** * Model prices
    (src/web/src/features/system-settings/models/pricing-format.ts, model-pricing-core.ts,
    model-pricing-sheet.tsx, model-pricing-snapshots.ts and model-ratio-visual-editor.tsx,
    with features/system-settings/utils/json-parser.ts)

    The price of a model lives in ten settings, each a JSON text that maps names of
    models to values: a fixed price, a ratio for input tokens and ratios of other
    lanes relative to it, and a billing mode with an expression.  An editor panel
    shows the ratios as prices, keeps both in step while the user types, and commits
    a draft, which is written to all ten texts; the table compares the drafts with
    the saved settings.  Numbers are exact decimals. *)

From Stdlib Require Import QArith Qabs Qround Qminmax Lqa ZifyBool ZifyN.
From S2P Require Import Prelude JsString JsValue JsJson JsNumber JsonPrint BillingRules RuleRoundtrip.
Import BillingRules.
Local Close Scope Q_scope.

Module ModelPricing.

(** ** pricing-format.ts *)

Definition DISPLAY_DECIMALS : nat := 12.
Definition SNAP_DECIMALS : nat := 8.
Definition SNAP_EPSILON : Q := (1 # 1000000000000).
(** [Number.EPSILON] *)
Definition EPSILON : Q := (1 # 4503599627370496).

(** [Math.round] *)
Definition Math_round (x : Q) : Z := Qfloor (x + (1 # 2)).

Definition ten_pow (d : nat) : positive := Z.to_pos (10 ^ Z.of_nat d).

Definition roundToDecimals (value : Q) (decimals : nat) : Q :=
  Qred (Math_round (value * (Zpos (ten_pow decimals) # 1)) # ten_pow decimals).

Definition snap_tolerance (value : Q) : Q := Qmax SNAP_EPSILON (Qabs value * EPSILON * (8 # 1)).

(** The loop of [snapFloatDrift] with [n] rounds left *)
Fixpoint snap_from (value : Q) (decimals n : nat) : Q :=
  match n with
  | 0 => value
  | S n' =>
      let rounded := roundToDecimals value decimals in
      if Qle_bool (Qabs (value - rounded)) (snap_tolerance value) then rounded else snap_from value (S decimals) n'
  end.

Definition snapFloatDrift (value : Q) : Q := snap_from value 0 (S SNAP_DECIMALS).

(** [Number.parseFloat(x.toFixed(12))]: from 10^21 on [toFixed] prints like
    [String]; below, the nearest multiple of 10^-12, and of two the one farther
    from zero. *)
Definition fixed12 (x : Q) : Q :=
  if Qle_bool (inject_Z (10 ^ 21)) (Qabs x) then x
  else
    let n := Math_round (Qabs x * (Zpos (ten_pow DISPLAY_DECIMALS) # 1)) in
    Qred ((if Qle_bool 0 x then n else - n)%Z # ten_pow DISPLAY_DECIMALS).

(** [formatPricingNumber] of a finite number *)
Definition formatPricingNumber (value : Q) : jsstr := num_str (Fin (fixed12 (snapFloatDrift value))).

(** ** model-pricing-core.ts *)

Inductive PricingMode := PerToken | PerRequest | TieredExpr.

#[global] Instance PricingMode_dec : EqDecision PricingMode.
Proof. solve_decision. Defined.

Inductive LaneKey := LCompletion | LCache | LCreateCache | LImage | LAudioInput | LAudioOutput.

#[global] Instance LaneKey_dec : EqDecision LaneKey.
Proof. solve_decision. Defined.

(** The numeric fields of a model *)
Inductive Field := FPrice | FRatio | FCache | FCreateCache | FCompletion | FImage | FAudio | FAudioCompletion.

#[global] Instance Field_dec : EqDecision Field.
Proof. solve_decision. Defined.

(** An absent value is the empty text. *)
Notation Values := (Field → jsstr).

Definition set_value (f : Field) (v : jsstr) (vs : Values) : Values := fun g => if decide (g = f) then v else vs g.

Record ModelRatioData := mkData {
  d_name : jsstr;
  d_values : Values;
  d_mode : PricingMode;
  d_expr : jsstr;
  d_rules : jsstr
}.

(** [numericDraftRegex]: digits with at most one point, or nothing *)
Definition numericDraft (s : jsstr) : bool :=
  match (take_digits s).2 with
  | [] => true
  | 46%N :: f => bool_decide ((take_digits f).2 = [])
  | _ => false
  end.

Definition ratioFieldByLane (l : LaneKey) : Field :=
  match l with
  | LCompletion => FCompletion | LCache => FCache | LCreateCache => FCreateCache
  | LImage => FImage | LAudioInput => FAudio | LAudioOutput => FAudioCompletion
  end.

(** The keys of [laneConfigs] *)
Definition laneConfigs : list LaneKey := [LCompletion; LCache; LCreateCache; LImage; LAudioInput; LAudioOutput].

Definition hasValue (value : jsstr) : bool := str_true value.

Definition toNumberOrNull (value : jsstr) : option Q :=
  if hasValue value then match Number_str value with Fin q => Some q | _ => None end else None.

Definition ratioToBasePrice (ratio : jsstr) : jsstr :=
  match toNumberOrNull ratio with Some q => formatPricingNumber (q * (2 # 1)) | None => [] end.

Definition deriveLanePrice (ratio denominator : jsstr) : jsstr :=
  match toNumberOrNull ratio, toNumberOrNull denominator with
  | Some a, Some b => formatPricingNumber (a * b)
  | _, _ => []
  end.

Record LaneState := mkLanes { promptPrice : jsstr; prices : LaneKey → jsstr; enabled : LaneKey → bool }.

Definition createInitialLaneState (data : option ModelRatioData) : LaneState :=
  match data with
  | None => mkLanes [] (fun _ => []) (fun _ => false)
  | Some d =>
      let prompt := ratioToBasePrice (d_values d FRatio) in
      let audio := deriveLanePrice (d_values d FAudio) prompt in
      mkLanes prompt
        (fun l => match l with
                  | LAudioInput => audio
                  | LAudioOutput => deriveLanePrice (d_values d FAudioCompletion) audio
                  | l => deriveLanePrice (d_values d (ratioFieldByLane l)) prompt
                  end)
        (fun l => hasValue (d_values d (ratioFieldByLane l)))
  end.

(** ** The editor panel (model-pricing-sheet.tsx) *)

Record panel := mkPanel {
  editData : option ModelRatioData;
  pricingMode : PricingMode;
  lanes : LaneState;
  billingExpr : jsstr;
  requestRuleExpr : jsstr;
  form_name : jsstr;
  form_values : Values
}.

(** The effect that runs when another model is opened, or none *)
Definition openPanel (data : option ModelRatioData) : panel :=
  let lanes := createInitialLaneState data in
  match data with
  | Some d =>
      mkPanel data
        (if decide (d_mode d = TieredExpr) then TieredExpr else if str_true (d_values d FPrice) then PerRequest else PerToken)
        lanes (d_expr d) (d_rules d) (d_name d) (d_values d)
  | None => mkPanel None PerToken lanes [] [] [] (fun _ => [])
  end.

Definition deriveLaneRatio (lane : LaneKey) (price prompt : jsstr) (ps : LaneKey → jsstr) : jsstr :=
  match toNumberOrNull price with
  | None => []
  | Some p =>
      match toNumberOrNull (match lane with LAudioOutput => ps LAudioInput | _ => prompt end) with
      | None => []
      | Some d => if Qeq_bool d 0 then [] else formatPricingNumber (p / d)
      end
  end.

Definition syncLane (prompt : jsstr) (ps : LaneKey → jsstr) (en : LaneKey → bool) (vs : Values) (lane : LaneKey) : Values :=
  set_value (ratioFieldByLane lane) (if en lane then deriveLaneRatio lane (ps lane) prompt ps else []) vs.

Definition syncLaneRatios (prompt : jsstr) (ps : LaneKey → jsstr) (en : LaneKey → bool) (vs : Values) : Values :=
  let ratio := match toNumberOrNull prompt with Some q => formatPricingNumber (q / (2 # 1)) | None => [] end in
  foldl (syncLane prompt ps en) (set_value FRatio ratio vs) laneConfigs.

Definition with_lanes (s : panel) (l : LaneState) (vs : Values) : panel :=
  mkPanel (editData s) (pricingMode s) l (billingExpr s) (requestRuleExpr s) (form_name s) vs.

Definition handlePromptPriceChange (value : jsstr) (s : panel) : panel :=
  if numericDraft value then
    let l := lanes s in
    with_lanes s (mkLanes value (prices l) (enabled l)) (syncLaneRatios value (prices l) (enabled l) (form_values s))
  else s.

Definition set_lane {A} (lane : LaneKey) (v : A) (g : LaneKey → A) : LaneKey → A := fun l => if decide (l = lane) then v else g l.

Definition handleLanePriceChange (lane : LaneKey) (value : jsstr) (s : panel) : panel :=
  if numericDraft value then
    let l := lanes s in
    let next := set_lane lane value (prices l) in
    let vs := if enabled l lane then set_value (ratioFieldByLane lane) (deriveLaneRatio lane value (promptPrice l) next) (form_values s) else form_values s in
    let vs :=
      if bool_decide (lane = LAudioInput) && enabled l LAudioOutput
      then set_value FAudioCompletion (deriveLaneRatio LAudioOutput (next LAudioOutput) (promptPrice l) next) vs else vs in
    with_lanes s (mkLanes (promptPrice l) next (enabled l)) vs
  else s.

Definition handleLaneToggle (lane : LaneKey) (checked : bool) (s : panel) : panel :=
  let l := lanes s in
  let en := set_lane lane checked (enabled l) in
  if checked then
    with_lanes s (mkLanes (promptPrice l) (prices l) en)
      (set_value (ratioFieldByLane lane) (deriveLaneRatio lane (prices l lane) (promptPrice l) (prices l)) (form_values s))
  else
    let ps := set_lane lane [] (prices l) in
    let vs := set_value (ratioFieldByLane lane) [] (form_values s) in
    if decide (lane = LAudioInput) then
      with_lanes s (mkLanes (promptPrice l) (set_lane LAudioOutput [] ps) (set_lane LAudioOutput false en)) (set_value FAudioCompletion [] vs)
    else with_lanes s (mkLanes (promptPrice l) ps en) vs.

(** [tier("base", p * 0 + c * 0)] *)
Definition default_expr : jsstr := dq "tier('base', p * 0 + c * 0)".

Definition handleModeChange (next : PricingMode) (s : panel) : panel :=
  mkPanel (editData s) next (lanes s)
    (if bool_decide (next = TieredExpr) && negb (str_true (billingExpr s)) then default_expr else billingExpr s)
    (requestRuleExpr s) (form_name s) (form_values s).

(** The fixed price, the name and the expressions *)
Definition changePrice (value : jsstr) (s : panel) : panel :=
  if numericDraft value then with_lanes s (lanes s) (set_value FPrice value (form_values s)) else s.
(** The name can be changed for a new model only. *)
Definition changeName (value : jsstr) (s : panel) : panel :=
  match editData s with
  | None => mkPanel None (pricingMode s) (lanes s) (billingExpr s) (requestRuleExpr s) value (form_values s)
  | Some _ => s
  end.
Definition changeExprs (expr rules : jsstr) (s : panel) : panel :=
  mkPanel (editData s) (pricingMode s) (lanes s) expr rules (form_name s) (form_values s).

Definition input_price_missing (s : panel) : bool :=
  bool_decide (toNumberOrNull (promptPrice (lanes s)) = None) && existsb (fun l => enabled (lanes s) l && hasValue (prices (lanes s) l)) laneConfigs.

Definition audio_input_missing (s : panel) : bool := enabled (lanes s) LAudioOutput && negb (hasValue (prices (lanes s) LAudioInput)).

Definition validatePricingValues (s : panel) : bool :=
  negb (bool_decide (pricingMode s = PerToken) && input_price_missing s) && negb (bool_decide (pricingMode s = PerToken) && audio_input_missing s).

Definition buildSubmitData (s : panel) : ModelRatioData :=
  mkData (trim (form_name s)) (form_values s) (pricingMode s)
    (if decide (pricingMode s = TieredExpr) then billingExpr s else []) (if decide (pricingMode s = TieredExpr) then requestRuleExpr s else []).

(** The form demands a name. *)
Definition commitDraft (s : panel) : option ModelRatioData :=
  if str_true (form_name s) && validatePricingValues s then Some (buildSubmitData s) else None.

Inductive Warning := ConflictWarning | InputPriceWarning | AudioInputWarning.

Definition ratio_fields : list Field := [FRatio; FCompletion; FCache; FCreateCache; FImage; FAudio; FAudioCompletion].

Definition warnings (s : panel) : list Warning :=
  (if match editData s with Some d => str_true (d_values d FPrice) && existsb (fun f => hasValue (d_values d f)) ratio_fields | None => false end then [ConflictWarning] else [])
  ++ (if bool_decide (pricingMode s = PerToken) && input_price_missing s then [InputPriceWarning] else [])
  ++ (if bool_decide (pricingMode s = PerToken) && audio_input_missing s then [AudioInputWarning] else []).

Section Preview.
Context (tr : jsstr → jsstr).

Record PreviewRow := mkRow { r_key : jsstr; r_label : jsstr; r_value : jsstr; r_multiline : bool }.

Definition price_row (key label : string) (shown : bool) (price : jsstr) : PreviewRow :=
  mkRow (js key) (tr (js label)) (if shown && str_true price then [36%N] ++ price else tr (js "Empty")) false.

Definition buildPreviewRows (s : panel) : list PreviewRow :=
  match pricingMode s with
  | TieredExpr =>
      [ mkRow (js "mode") (js "BillingMode") (js "tiered_expr") false;
        mkRow (js "expr") (tr (js "Expression")) (str_or (combineBillingExpr (billingExpr s) (requestRuleExpr s)) (tr (js "Empty"))) true ]
  | PerRequest => [ mkRow (js "price") (js "ModelPrice") (str_or (form_values s FPrice) (tr (js "Empty"))) false ]
  | PerToken =>
      let lane key label l := price_row key label (enabled (lanes s) l) (prices (lanes s) l) in
      [ price_row "inputPrice" "Input price" true (promptPrice (lanes s));
        lane "completion" "Completion price" LCompletion; lane "cache" "Cache read price" LCache;
        lane "createCache" "Cache write price" LCreateCache; lane "image" "Image input price" LImage;
        lane "audio" "Audio input price" LAudioInput; lane "audioCompletion" "Audio output price" LAudioOutput ]
  end.
End Preview.

(** ** The settings (model-ratio-visual-editor.tsx)

    Ten texts of JSON, meant to be objects.  What a text holds is taken for an
    object whatever it is: null has no members to write or delete, a number or a
    boolean none to write, and of the members of an array only those with an index
    for a name are printed. *)

Inductive Setting := SNum (f : Field) | SMode | SExpr.

#[global] Instance Setting_dec : EqDecision Setting.
Proof. solve_decision. Defined.

Notation Settings := (Setting → jsstr).
Notation Maps := (Setting → jsval).

Definition safeJsonParse (value : jsstr) (fallback : jsval) : jsval :=
  if str_true value && str_true (trim value) then default fallback (JSON_parse (trim value)) else fallback.

(** What a setting holds: the empty object when the text is blank or malformed *)
Definition parsed (text : jsstr) : jsval := safeJsonParse text (JObj []).

(** [onChange(field, JSON.stringify(map, null, 2))] for every setting *)
Definition printed (m : Maps) : Settings := fun k => json_text 2 0 (m k).

(** [map[k] = x] with [m] the map, in strict mode.  An element that is written
    beyond the end leaves holes, which are printed like undefined ones.  The
    length of an array is never written: it was to be deleted before. *)
Definition write_member (name : jsstr) (x m : jsval) : outcome jsval :=
  match m with
  | JObj fs => Returns (JObj (mset name x fs))
  | JArr l =>
      match array_index name with
      | Some i =>
          let i := N.to_nat i in
          Returns (JArr (if bool_decide (i < length l) then <[i := x]> l else l ++ replicate (i - length l) JUndef ++ [x]))
      | None => Returns m
      end
  | _ => Throws
  end.

(** [delete map[name]] in strict mode: the length of an array or a string and the
    units of a string cannot be deleted. *)
Definition delete_member (name : jsstr) (m : jsval) : outcome jsval :=
  match m with
  | JObj fs => Returns (JObj (mdel name fs))
  | JArr l =>
      if decide (name = js "length") then Throws
      else match array_index name with Some i => Returns (JArr (<[N.to_nat i := JUndef]> l)) | None => Returns m end
  | JStr t =>
      if decide (name = js "length") then Throws
      else match array_index name with Some i => if bool_decide (N.to_nat i < length t) then Throws else Returns m | None => Returns m end
  | JNull | JUndef => Throws
  | _ => Returns m
  end.

(** Statements in a row; the first one that throws ends them. *)
Fixpoint each {A S} (f : A → S → outcome S) (l : list A) (s : S) : outcome S :=
  match l with [] => Returns s | x :: l => s' ← f x s; each f l s' end.

(** A statement that changes one map *)
Definition update_map (k : Setting) (g : jsval → outcome jsval) (m : Maps) : outcome Maps :=
  v ← g (m k); Returns (fun j => if decide (j = k) then v else m j).

Definition all_fields : list Field := [FPrice; FRatio; FCache; FCreateCache; FCompletion; FImage; FAudio; FAudioCompletion].
Definition token_fields : list Field := [FRatio; FCache; FCreateCache; FCompletion; FImage; FAudio; FAudioCompletion].
Definition setting_order : list Setting := (SNum <$> all_fields) ++ [SMode; SExpr].

(** [delete map[name]] for every map *)
Definition drop_name (name : jsstr) : Maps → outcome Maps := each (fun k => update_map k (delete_member name)) setting_order.

Definition handleDelete (name : jsstr) (s : Settings) : outcome Settings :=
  m ← drop_name name (fun k => parsed (s k)); Returns (printed m).

(** [parseFloat(s)]: the longest numeral at the start of the text *)
Definition float_unsigned (s : jsstr) : num :=
  if starts_with (js "Infinity") s then Inf false
  else
    let '(int, s1) := take_digits s in
    let '(frac, s2) := match s1 with 46%N :: r => take_digits r | _ => ([], s1) end in
    match int ++ frac with
    | [] => NaN
    | ds => Fin (Qred (inject_Z (digits_value ds) * pow10 ((match parse_exponent s2 with Some (e, _) => e | None => 0 end) - Z.of_nat (length frac))))%Q
    end.

Definition parseFloat (s : jsstr) : num :=
  match trim_start s with
  | 45%N :: r => match float_unsigned r with Fin q => Fin (- q) | Inf _ => Inf true | NaN => NaN end
  | 43%N :: r => float_unsigned r
  | r => float_unsigned r
  end.

Definition setIfPresent (name value : jsstr) (target : jsval) : outcome jsval :=
  if str_true value then
    match parseFloat value with Fin q => write_member name (JNum (Fin q)) target | _ => Returns target end
  else Returns target.

Definition set_fields (fs : list Field) (name : jsstr) (vs : Values) : Maps → outcome Maps :=
  each (fun f => update_map (SNum f) (setIfPresent name (vs f))) fs.

(** The body of the loop over the target models *)
Definition persist_one (d : ModelRatioData) (name : jsstr) (m : Maps) : outcome Maps :=
  m ← drop_name name m;
  match d_mode d with
  | TieredExpr =>
      let combined := combineBillingExpr (d_expr d) (d_rules d) in
      m ← (if str_true combined
           then m ← update_map SMode (write_member name (JStr (js "tiered_expr"))) m; update_map SExpr (write_member name (JStr combined)) m
           else Returns m);
      set_fields all_fields name (d_values d) m
  | _ => if str_true (d_values d FPrice) then set_fields [FPrice] name (d_values d) m else set_fields token_fields name (d_values d) m
  end.

(** The settings are given back only when every statement succeeded. *)
Definition persistPricingData (d : ModelRatioData) (targets : list jsstr) (s : Settings) : outcome Settings :=
  m ← each (persist_one d) targets (fun k => parsed (s k)); Returns (printed m).

(** [commitOpenEditor] with an open panel: the settings, or [None] when the draft is
    refused *)
Definition commitOpenEditor (p : panel) (s : Settings) : option (outcome Settings) :=
  d ← commitDraft p; Some (persistPricingData d [d_name d] s).

(** [handleBatchCopy] with an open panel; nothing happens without targets. *)
Definition handleBatchCopy (p : panel) (targets : list jsstr) (s : Settings) : option (outcome Settings) :=
  match editData p, targets with
  | Some _, _ :: _ => d ← commitDraft p; Some (persistPricingData d (uniq (d_name d :: targets)) s)
  | _, _ => None
  end.

(** ** model-pricing-snapshots.ts *)

Record ModelPricingSnapshot := mkSnapshot {
  s_name : jsstr;
  s_values : Values;
  s_mode : jsstr;
  s_expr : jsstr;
  s_rules : jsstr;
  hasConflict : bool
}.

Definition hasPricingValue (value : jsstr) : bool := str_true value.

Definition isBasePricingUnset (s : option ModelPricingSnapshot) : bool :=
  match s with
  | None => true
  | Some s => negb (bool_decide (s_mode s = js "tiered_expr")) && negb (hasPricingValue (s_values s FPrice)) && negb (hasPricingValue (s_values s FRatio))
  end.

(** [Object.keys(map)] *)
Definition member_names (m : jsval) : outcome (list jsstr) :=
  match m with
  | JObj fs => Returns (Object_keys fs)
  | JArr l => Returns ((fun i => str_of_N (N.of_nat i)) <$> seq 0 (length l))
  | JStr t => Returns ((fun i => str_of_N (N.of_nat i)) <$> seq 0 (length t))
  | JNull | JUndef => Throws
  | _ => Returns []
  end.

(** [map[name]], of a map that [Object.keys] has accepted *)
Definition read_member (name : jsstr) (m : jsval) : jsval :=
  match m with
  | JObj fs => default JUndef (mget name fs)
  | JArr l =>
      if decide (name = js "length") then JNum (num_of_Z (Z.of_nat (length l)))
      else default JUndef (array_index name ≫= (fun i => l !! N.to_nat i))
  | JStr t =>
      if decide (name = js "length") then JNum (num_of_Z (Z.of_nat (length t)))
      else default JUndef (array_index name ≫= (fun i => (fun c => JStr [c]) <$> t !! N.to_nat i))
  | _ => JUndef
  end.

(** [map[name]?.toString() || ''] *)
Definition value_text (v : jsval) : jsstr := match v with JUndef | JNull => [] | v => js_String v end.

Fixpoint collect {A B} (f : A → outcome B) (l : list A) : outcome (list B) :=
  match l with
  | [] => Returns []
  | x :: l => y ← f x; ys ← collect f l; Returns (y :: ys)
  end.

Definition model_names (s : Settings) : outcome (list jsstr) :=
  names ← collect (fun k => member_names (parsed (s k))) setting_order; Returns (uniq (concat names)).

(** An expression that is no text has no [trim]. *)
Definition snapshot_of (name : jsstr) (vs : Values) (mode expr : jsval) : outcome ModelPricingSnapshot :=
  if is_str (js "tiered_expr") mode then
    fullExpr ← match expr with JStr e => Returns e | v => if truthy v then Throws else Returns [] end;
    x ← splitBillingExprAndRequestRules fullExpr;
    Returns (mkSnapshot name vs (js "tiered_expr") (BillingRules.billingExpr x) (BillingRules.requestRuleExpr x) false)
  else
    Returns (mkSnapshot name vs (if str_true (vs FPrice) then js "per-request" else js "per-token") [] []
               (str_true (vs FPrice) && existsb (fun f => str_true (vs f)) token_fields)).

Definition snapshot (s : Settings) (name : jsstr) : outcome ModelPricingSnapshot :=
  snapshot_of name (fun f => value_text (read_member name (parsed (s (SNum f)))))
    (read_member name (parsed (s SMode))) (read_member name (parsed (s SExpr))).

Definition buildModelSnapshots (s : Settings) : outcome (list ModelPricingSnapshot) :=
  names ← model_names s; collect (snapshot s) names.

(** [getSnapshotSignature] *)
Definition getSnapshotSignature (s : option ModelPricingSnapshot) : jsstr :=
  match s with
  | None => []
  | Some s =>
      json_text 0 0 (JObj [
        (js "price", JStr (s_values s FPrice)); (js "ratio", JStr (s_values s FRatio)); (js "cacheRatio", JStr (s_values s FCache));
        (js "createCacheRatio", JStr (s_values s FCreateCache)); (js "completionRatio", JStr (s_values s FCompletion));
        (js "imageRatio", JStr (s_values s FImage)); (js "audioRatio", JStr (s_values s FAudio));
        (js "audioCompletionRatio", JStr (s_values s FAudioCompletion)); (js "billingMode", JStr (str_or (s_mode s) (js "per-token")));
        (js "billingExpr", JStr (s_expr s)); (js "requestRuleExpr", JStr (s_rules s))])
  end.

(** ** Rows of the table *)

Record ModelRow := mkModelRow {
  displayed : ModelPricingSnapshot;
  saved : option ModelPricingSnapshot;
  draft : option ModelPricingSnapshot;
  isDraftChanged : bool;
  isDraftDeleted : bool;
  isDraftNew : bool
}.

Definition by_name (rows : list ModelPricingSnapshot) : list (jsstr * ModelPricingSnapshot) := foldl (fun m r => mset (s_name r) r m) [] rows.

Definition empty_snapshot (name : jsstr) : ModelPricingSnapshot := mkSnapshot name (fun _ => []) (js "per-token") [] [] false.

Definition model_row (saved draft : list (jsstr * ModelPricingSnapshot)) (name : jsstr) : ModelRow :=
  let s := mget name saved in
  let d := mget name draft in
  mkModelRow (default (default (empty_snapshot name) d) s) s d
    (negb (bool_decide (getSnapshotSignature s = getSnapshotSignature d)))
    (match s, d with Some _, None => true | _, _ => false end) (match s, d with None, Some _ => true | _, _ => false end).

Inductive FilterMode := FilterAll | FilterUnset.

Section Rows.
(** [a.localeCompare(b)] *)
Context (localeCompare : jsstr → jsstr → Z).

Definition models (savedRows draftRows : list ModelPricingSnapshot) (mode : FilterMode) (candidates : list jsstr) : list ModelRow :=
  let savedByName := by_name savedRows in
  let draftByName := by_name draftRows in
  let names := match mode with FilterUnset => uniq candidates | FilterAll => uniq (mkeys savedByName ++ mkeys draftByName) end in
  let rows := model_row savedByName draftByName <$> names in
  let rows := filter (fun r => isDraftDeleted r = false) rows in
  let rows := filter (fun r => match mode with FilterUnset => isBasePricingUnset (saved r) | FilterAll => true end = true) rows in
  sort_by (fun a b => localeCompare (s_name (displayed a)) (s_name (displayed b))) rows.
End Rows.

(** Rows by mode: per token, per request, by expression *)
Definition modeCounts (rows : list ModelRow) : nat * nat * nat :=
  foldl (fun '(token, request, tiered) r =>
           if bool_decide (s_mode (displayed r) = js "per-request") then (token, S request, tiered)
           else if bool_decide (s_mode (displayed r) = js "tiered_expr") then (token, request, S tiered)
           else (S token, request, tiered))
    (0, 0, 0) rows.

(** [handleEdit]: what the editor opens for a row *)
Definition handleEdit (r : ModelRow) : ModelRatioData :=
  let m := default (default (displayed r) (saved r)) (draft r) in
  mkData (s_name m) (s_values m)
    (if bool_decide (s_mode m = js "tiered_expr") then TieredExpr else if str_true (s_values m FPrice) then PerRequest else PerToken)
    (s_expr m) (s_rules m).

(** ** Prices and ratios are kept in step *)

(** The ratios of the form are those of the prices on the screen; a lane that is
    switched off has none. *)
Definition lane_ratio (l : LaneState) (k : LaneKey) : jsstr :=
  if enabled l k then deriveLaneRatio k (prices l k) (promptPrice l) (prices l) else [].

Definition base_ratio (l : LaneState) : jsstr :=
  match toNumberOrNull (promptPrice l) with Some q => formatPricingNumber (q / (2 # 1)) | None => [] end.

Definition in_step (s : panel) : Prop :=
  form_values s FRatio = base_ratio (lanes s) ∧ ∀ k, form_values s (ratioFieldByLane k) = lane_ratio (lanes s) k.

Lemma ratio_field_inj k k' : ratioFieldByLane k = ratioFieldByLane k' → k = k'.
Proof. by destruct k, k'. Qed.

Lemma ratio_field_ne k : ratioFieldByLane k ≠ FRatio ∧ ratioFieldByLane k ≠ FPrice.
Proof. by destruct k. Qed.

Lemma set_value_eq f v vs : set_value f v vs f = v.
Proof. unfold set_value. by rewrite decide_True. Qed.

Lemma set_value_ne f g v vs : g ≠ f → set_value f v vs g = vs g.
Proof. intros H. unfold set_value. by rewrite decide_False. Qed.

(** Setting the ratio of one lane *)
Lemma set_ratio k k' v vs : set_value (ratioFieldByLane k) v vs (ratioFieldByLane k') = if decide (k' = k) then v else vs (ratioFieldByLane k').
Proof. case_decide as E; [subst; apply set_value_eq|]. apply set_value_ne. intros E'. by apply ratio_field_inj in E'. Qed.

Lemma set_ratio_base k v vs : set_value (ratioFieldByLane k) v vs FRatio = vs FRatio.
Proof. apply set_value_ne. pose proof (ratio_field_ne k) as [H _]. congruence. Qed.

Lemma sync_spec prompt ps en vs k : syncLaneRatios prompt ps en vs (ratioFieldByLane k) = lane_ratio (mkLanes prompt ps en) k.
Proof. unfold syncLaneRatios. cbn [foldl laneConfigs]. unfold syncLane. rewrite !set_ratio. by destruct k. Qed.

Lemma sync_base prompt ps en vs : syncLaneRatios prompt ps en vs FRatio = base_ratio (mkLanes prompt ps en).
Proof. unfold syncLaneRatios. cbn [foldl laneConfigs]. unfold syncLane. rewrite !set_ratio_base. apply set_value_eq. Qed.

Lemma prompt_in_step v s : numericDraft v = true → in_step (handlePromptPriceChange v s).
Proof. intros Hv. unfold handlePromptPriceChange. rewrite Hv. split; cbn [form_values with_lanes lanes]; [apply sync_base|apply sync_spec]. Qed.

Lemma lane_ratio_price l k k' v : k' ≠ k → (k = LAudioInput → k' ≠ LAudioOutput) →
  lane_ratio (mkLanes (promptPrice l) (set_lane k v (prices l)) (enabled l)) k' = lane_ratio l k'.
Proof.
  intros H1 H2. unfold lane_ratio. cbn [enabled prices promptPrice]. unfold set_lane at 1. rewrite (decide_False (P := k' = k)) by done.
  destruct (enabled l k'); [|done]. unfold deriveLaneRatio. destruct k'; try done. unfold set_lane.
  rewrite (decide_False (P := LAudioInput = k)); [done|]. intros <-. by apply H2.
Qed.

Lemma price_in_step k v s : in_step s → in_step (handleLanePriceChange k v s).
Proof.
  intros [Hb Hl]. unfold handleLanePriceChange. destruct (numericDraft v); [|done]. split; cbn [form_values with_lanes lanes].
  - destruct (bool_decide _ && _), (enabled (lanes s) k); rewrite ?(set_value_ne FAudioCompletion FRatio), ?set_ratio_base by done; exact Hb.
  - intros k'. destruct (decide (k' = k)) as [->|Hne].
    + assert (lane_ratio (mkLanes (promptPrice (lanes s)) (set_lane k v (prices (lanes s))) (enabled (lanes s))) k
              = if enabled (lanes s) k then deriveLaneRatio k v (promptPrice (lanes s)) (set_lane k v (prices (lanes s))) else []) as ->.
      { unfold lane_ratio. cbn. unfold set_lane at 1. by rewrite decide_True. }
      assert (∀ vs w, (bool_decide (k = LAudioInput) && enabled (lanes s) LAudioOutput) = true → set_value FAudioCompletion w vs (ratioFieldByLane k) = vs (ratioFieldByLane k)) as Ha.
      { intros vs w E. bsplit. subst k. by apply set_value_ne. }
      destruct (bool_decide _ && _) eqn:E; [rewrite Ha by done|]; destruct (enabled (lanes s) k) eqn:Ee; rewrite ?set_value_eq; try done;
        rewrite Hl; unfold lane_ratio; by rewrite Ee.
    + destruct (decide (k = LAudioInput ∧ k' = LAudioOutput)) as [[-> ->]|Ho].
      * rewrite bool_decide_true by done. cbn [andb]. unfold lane_ratio. cbn [enabled prices promptPrice].
        destruct (enabled (lanes s) LAudioOutput) eqn:Ee; [by rewrite (set_value_eq FAudioCompletion)|].
        assert (form_values s FAudioCompletion = []) as Hn by (pose proof (Hl LAudioOutput) as H; unfold lane_ratio in H; rewrite Ee in H; exact H).
        destruct (enabled (lanes s) LAudioInput); [rewrite (set_ratio LAudioInput LAudioOutput)|]; exact Hn.
      * rewrite lane_ratio_price by naive_solver. destruct (bool_decide _ && _) eqn:E; [bsplit; subst k|].
        -- rewrite (set_ratio LAudioOutput k'), decide_False by naive_solver. destruct (enabled (lanes s) LAudioInput); [rewrite set_ratio, decide_False by done|]; apply Hl.
        -- destruct (enabled (lanes s) k); [rewrite set_ratio, decide_False by done|]; apply Hl.
Qed.

Lemma set_lane_eq {A} k (v : A) g : set_lane k v g k = v.
Proof. unfold set_lane. by rewrite decide_True. Qed.

Lemma set_lane_ne {A} k k' (v : A) g : k' ≠ k → set_lane k v g k' = g k'.
Proof. intros H. unfold set_lane. by rewrite decide_False. Qed.

Lemma toggle_in_step k b s : in_step s → in_step (handleLaneToggle k b s).
Proof.
  intros [Hb Hl]. unfold handleLaneToggle. destruct b.
  - split; cbn [form_values with_lanes lanes]; [by rewrite set_ratio_base|]. intros k'. rewrite set_ratio. unfold lane_ratio. cbn [enabled prices promptPrice].
    case_decide as E; [subst; by rewrite set_lane_eq|]. rewrite set_lane_ne by done. apply Hl.
  - destruct (decide (k = LAudioInput)) as [->|Hk].
    + split; cbn [form_values with_lanes lanes].
      * rewrite (set_value_ne FAudioCompletion FRatio), set_ratio_base by done. exact Hb.
      * intros k'. rewrite (set_ratio LAudioOutput k'), set_ratio. unfold lane_ratio. cbn [enabled prices promptPrice].
        destruct (decide (k' = LAudioOutput)) as [->|H1]; [by rewrite set_lane_eq|]. rewrite set_lane_ne by done.
        destruct (decide (k' = LAudioInput)) as [->|H2]; [by rewrite set_lane_eq|]. rewrite !set_lane_ne by done.
        rewrite Hl. unfold lane_ratio. destruct (enabled (lanes s) k'); [|done]. by destruct k'.
    + split; cbn [form_values with_lanes lanes]; [by rewrite set_ratio_base|]. intros k'. rewrite set_ratio.
      destruct (decide (k' = k)) as [->|H1]; [unfold lane_ratio; cbn [enabled]; by rewrite set_lane_eq|].
      unfold lane_ratio. cbn [enabled prices promptPrice]. rewrite !set_lane_ne by done. rewrite Hl. unfold lane_ratio.
      destruct (enabled (lanes s) k'); [|done]. unfold deriveLaneRatio. destruct k'; try done. by rewrite set_lane_ne by done.
Qed.

(** ** Exact prices

    A number with at most eight decimals that is not too large is printed as it is. *)

Definition exact8 (q : Q) : Prop := (∃ z, q == z # ten_pow SNAP_DECIMALS)%Q ∧ (Qabs q <= 1000000 # 1)%Q.

Lemma Math_round_Z z : Math_round (inject_Z z) = z.
Proof.
  unfold Math_round. assert (inject_Z z + (1 # 2) == (2 * z + 1) # 2)%Q as -> by (unfold Qeq, inject_Z; cbn; lia).
  unfold Qfloor. pose proof (Z.div_mod (2 * z + 1) 2). pose proof (Z.mod_pos_bound (2 * z + 1) 2). lia.
Qed.

Lemma Math_round_near x : (Qabs (x - inject_Z (Math_round x)) <= 1 # 2)%Q.
Proof.
  unfold Math_round. pose proof (Qfloor_le (x + (1 # 2))) as H1. pose proof (Qlt_floor (x + (1 # 2))) as H2.
  rewrite inject_Z_plus in H2. apply Qabs_case; intros _; [change (inject_Z 1) with 1%Q in H2|]; lra.
Qed.

Lemma ten_pow_Z d : Zpos (ten_pow d) = (10 ^ Z.of_nat d)%Z.
Proof. unfold ten_pow. rewrite Z2Pos.id; [done|]. apply Z.pow_pos_nonneg; lia. Qed.

Lemma Qmake_eq a b c d : (a # b == c # d)%Q ↔ (a * Zpos d = c * Zpos b)%Z.
Proof. done. Qed.

#[local] Instance Math_round_proper : Proper (Qeq ==> eq) Math_round.
Proof. intros x y E. unfold Math_round. by rewrite E. Qed.

(** Multiples of 10^-8 that are close are equal. *)
Lemma close_multiples p (x y : Z) t : (t < 1 # p)%Q → (Qabs ((x # p) - (y # p)) <= t)%Q → x = y.
Proof.
  intros Ht H. pose proof (Qle_lt_trans _ _ _ H Ht) as H'. assert ((x # p) - (y # p) == (x - y) # p)%Q as E.
  { unfold Qeq, Qminus, Qplus, Qopp. cbn [Qnum Qden]. rewrite Pos2Z.inj_mul. ring. }
  rewrite E in H'. unfold Qlt, Qabs in H'. cbn in H'. nia.
Qed.

Lemma round_scaled q d : (d <= SNAP_DECIMALS) → (roundToDecimals q d == Math_round (q * (Zpos (ten_pow d) # 1)) * 10 ^ Z.of_nat (SNAP_DECIMALS - d) # ten_pow SNAP_DECIMALS)%Q.
Proof.
  intros Hd. unfold roundToDecimals. rewrite Qred_correct. apply Qmake_eq. rewrite !ten_pow_Z.
  rewrite <- Z.mul_assoc, <- Z.pow_add_r by lia. do 2 f_equal. lia.
Qed.

Lemma tolerance_small q : exact8 q → (snap_tolerance q < 1 # ten_pow SNAP_DECIMALS)%Q.
Proof.
  intros [_ Hq]. unfold snap_tolerance. apply Q.max_lub_lt; [by vm_compute|].
  apply Qle_lt_trans with ((1000000 # 1) * EPSILON * (8 # 1))%Q; [|by vm_compute].
  apply Qmult_le_compat_r; [|by vm_compute]. by apply Qmult_le_compat_r.
Qed.

Lemma snap_exact q : exact8 q → snapFloatDrift q = Qred q.
Proof.
  intros Hq. pose proof (tolerance_small q Hq) as Ht. destruct Hq as [[z Hz] _]. unfold snapFloatDrift.
  assert (∀ n d, d + n = S SNAP_DECIMALS → n ≠ 0 → snap_from q d n = Qred q) as H; [|by apply H].
  induction n as [|n IH]; intros d Hd Hn; [done|]. cbn [snap_from]. assert (d <= SNAP_DECIMALS) as Hle by lia.
  destruct (Qle_bool _ _) eqn:E.
  - apply Qle_bool_iff in E. pose proof (round_scaled q d Hle) as Hr. set (y := (_ * 10 ^ _)%Z) in Hr. clearbody y.
    assert (z = y) as <-. { eapply close_multiples; [exact Ht|]. rewrite <- Hz, <- Hr. exact E. }
    rewrite <- Hz in Hr. apply Qred_complete in Hr. rewrite <- Hr. unfold roundToDecimals. by rewrite Qred_involutive.
  - destruct n as [|n]; [|apply IH; lia]. exfalso. assert (d = SNAP_DECIMALS) as -> by lia.
    assert (roundToDecimals q SNAP_DECIMALS == q)%Q as Hr.
    { unfold roundToDecimals. rewrite Qred_correct.
      assert (Math_round (q * (Zpos (ten_pow SNAP_DECIMALS) # 1)) = z) as ->; [|by symmetry].
      rewrite <- (Math_round_Z z). apply Math_round_proper. rewrite Hz. unfold Qeq, inject_Z. cbn. lia. }
    apply not_true_iff_false in E. apply E, Qle_bool_iff. assert (q - roundToDecimals q SNAP_DECIMALS == 0)%Q as Hd0 by (rewrite Hr; ring).
    rewrite Hd0. apply Qle_trans with SNAP_EPSILON; [by vm_compute|]. apply Q.le_max_l.
Qed.

Lemma fixed12_exact x z : (x == z # ten_pow DISPLAY_DECIMALS)%Q → (Qabs x < inject_Z (10 ^ 21))%Q → fixed12 x = Qred x.
Proof.
  intros Hx Hb. unfold fixed12. destruct (Qle_bool _ (Qabs x)) eqn:E.
  { apply Qle_bool_iff in E. exfalso. by apply (Qlt_not_le _ _ Hb). }
  apply Qred_complete.
  assert (Qabs x * (Zpos (ten_pow DISPLAY_DECIMALS) # 1) == inject_Z (Z.abs z))%Q as Hn by (rewrite Hx; unfold Qeq, inject_Z, Qabs; cbn; lia).
  rewrite (Math_round_proper _ _ Hn), Math_round_Z. transitivity (z # ten_pow DISPLAY_DECIMALS)%Q; [|by symmetry]. apply Qmake_eq. f_equal.
  destruct (Qle_bool 0 x) eqn:E0.
  - apply Qle_bool_iff in E0. rewrite Hx in E0. unfold Qle in E0. cbn in E0. lia.
  - apply not_true_iff_false in E0. assert (¬ (0 <= x)%Q) as Hlt by (intros H; apply E0; by apply Qle_bool_iff).
    rewrite Hx in Hlt. unfold Qle in Hlt. cbn in Hlt. lia.
Qed.

(** A price with at most eight decimals is printed as it is. *)
Lemma format_exact q : exact8 q → formatPricingNumber q = num_str (Fin (Qred q)).
Proof.
  intros Hq. unfold formatPricingNumber. rewrite snap_exact by done. destruct Hq as [[z Hz] Hb].
  rewrite (fixed12_exact _ (z * 10000)); [by rewrite Qred_involutive| |].
  - rewrite Qred_correct, Hz. apply Qmake_eq. rewrite !ten_pow_Z.
    replace (10 ^ Z.of_nat DISPLAY_DECIMALS)%Z with (10000 * 10 ^ Z.of_nat SNAP_DECIMALS)%Z by (by vm_compute). ring.
  - rewrite Qred_correct. apply Qle_lt_trans with (1000000 # 1)%Q; [done|by vm_compute].
Qed.

(** The text of a number that is printed exactly *)
Definition exact_text (v : jsstr) (q : Q) : Prop := v = num_str (Fin (Qred q)) ∧ exact8 q.

Lemma exact_decimal q : exact8 q → is_canonical (Fin (Qred q)).
Proof.
  intros [[z Hz] _]. split; [apply Qred_involutive|]. exists SNAP_DECIMALS. apply Qred_complete in Hz. rewrite Qred_involutive, Hz.
  rewrite <- ten_pow_Z. apply Qred_den.
Qed.

Lemma num_str_nonempty q : is_canonical (Fin q) → num_str (Fin q) ≠ [].
Proof. intros H E. pose proof (Number_num_str _ H) as Hn. rewrite E in Hn. vm_compute in Hn. injection Hn as <-. by vm_compute in E. Qed.

Lemma exact_number v q : exact_text v q → v ≠ [] ∧ toNumberOrNull v = Some (Qred q).
Proof.
  intros [-> Hq]. pose proof (exact_decimal q Hq) as Hc. pose proof (num_str_nonempty _ Hc) as Hne. split; [done|].
  unfold toNumberOrNull, hasValue. apply str_true_spec in Hne. by rewrite Hne, (Number_num_str _ Hc).
Qed.

(** Prices that survive printing: the ratio of the model and those of its lanes have
    at most eight decimals, and so have the prices they stand for. *)
Definition exact_data (d : ModelRatioData) : Prop :=
  match d_values d FRatio with
  | [] => ∀ k, d_values d (ratioFieldByLane k) = []
  | r => ∃ q, exact_text r q ∧ exact8 (q * (2 # 1)) ∧ ¬ (q == 0)%Q
      ∧ (∀ k, k ≠ LAudioOutput → d_values d (ratioFieldByLane k) ≠ [] → ∃ c, exact_text (d_values d (ratioFieldByLane k)) c ∧ exact8 (c * (q * (2 # 1))))
      ∧ (d_values d FAudioCompletion ≠ [] → ∃ a c, exact_text (d_values d FAudio) a ∧ ¬ (a == 0)%Q ∧ exact8 (a * (q * (2 # 1)))
           ∧ exact_text (d_values d FAudioCompletion) c ∧ exact8 (c * (a * (q * (2 # 1)))))
  end.

Lemma exact8_proper q q' : (q == q')%Q → exact8 q' → exact8 q.
Proof. intros E [[z Hz] Hb]. split; [exists z; by rewrite E|by rewrite E]. Qed.

Lemma format_text q q' : (q == q')%Q → exact8 q' → exact_text (formatPricingNumber q) q'.
Proof. intros E Hq. split; [|done]. rewrite format_exact by (by eapply exact8_proper). by rewrite (Qred_complete _ _ E). Qed.

Lemma format_back v q q' : (q == q')%Q → exact_text v q' → formatPricingNumber q = v.
Proof. intros E [-> Hq]. by destruct (format_text q q' E Hq) as [-> _]. Qed.

Lemma Qeq_bool_nonzero q : ¬ (q == 0)%Q → Qeq_bool q 0 = false.
Proof. intros H. apply not_true_iff_false. intros E. by apply Qeq_bool_iff in E. Qed.

(** A price that was derived from a ratio gives the ratio back. *)
Lemma lane_back v c dt d : exact_text v c → exact_text dt d → ¬ (d == 0)%Q → exact8 (c * d) →
  exact_text (deriveLanePrice v dt) (c * d) ∧
  match toNumberOrNull (deriveLanePrice v dt), toNumberOrNull dt with
  | Some p, Some d => if Qeq_bool d 0 then [] else formatPricingNumber (p / d)
  | _, _ => []
  end = v.
Proof.
  intros Hv Hd Hz He. destruct (exact_number _ _ Hv) as [_ Nv]. destruct (exact_number _ _ Hd) as [_ Nd].
  assert (exact_text (deriveLanePrice v dt) (c * d)) as Hp by (unfold deriveLanePrice; rewrite Nv, Nd; apply format_text; [by rewrite !Qred_correct|done]).
  split; [done|]. destruct (exact_number _ _ Hp) as [_ Np]. rewrite Np, Nd, Qeq_bool_nonzero by (by rewrite Qred_correct).
  eapply format_back; [|exact Hv]. rewrite !Qred_correct. field. done.
Qed.

Lemma open_in_step d : exact_data d → in_step (openPanel (Some d)).
Proof.
  intros Hd. unfold exact_data in Hd. unfold in_step, openPanel. cbn [form_values lanes].
  destruct (decide (d_values d FRatio = [])) as [Er|Er].
  - rewrite Er in Hd. split.
    + unfold base_ratio, createInitialLaneState. cbn [promptPrice]. by rewrite Er.
    + intros k. unfold lane_ratio, createInitialLaneState. cbn [enabled]. by rewrite Hd.
  - assert (∃ q, exact_text (d_values d FRatio) q ∧ exact8 (q * (2 # 1)) ∧ ¬ (q == 0)%Q
      ∧ (∀ k, k ≠ LAudioOutput → d_values d (ratioFieldByLane k) ≠ [] → ∃ c, exact_text (d_values d (ratioFieldByLane k)) c ∧ exact8 (c * (q * (2 # 1))))
      ∧ (d_values d FAudioCompletion ≠ [] → ∃ a c, exact_text (d_values d FAudio) a ∧ ¬ (a == 0)%Q ∧ exact8 (a * (q * (2 # 1)))
           ∧ exact_text (d_values d FAudioCompletion) c ∧ exact8 (c * (a * (q * (2 # 1)))))) as (q & Hq & H2 & Hz & Hl & Ha) by (by destruct (d_values d FRatio)).
    clear Hd. destruct (exact_number _ _ Hq) as [_ Nq].
    assert (exact_text (ratioToBasePrice (d_values d FRatio)) (q * (2 # 1))) as Hp.
    { unfold ratioToBasePrice. rewrite Nq. apply format_text; [by rewrite Qred_correct|done]. }
    assert (¬ (q * (2 # 1) == 0)%Q) as Hz2 by (intros E; apply Hz; lra).
    split.
    + unfold base_ratio, createInitialLaneState. cbn [promptPrice]. destruct (exact_number _ _ Hp) as [_ ->]. symmetry.
      eapply format_back; [|exact Hq]. rewrite Qred_correct. field.
    + intros k. unfold lane_ratio, createInitialLaneState. cbn [enabled promptPrice prices]. unfold hasValue.
      destruct (str_true (d_values d (ratioFieldByLane k))) eqn:Ek; [apply str_true_spec in Ek|by apply str_true_false in Ek].
      destruct (decide (k = LAudioOutput)) as [->|Hk].
      * destruct (Ha Ek) as (a & c & Hxa & Hza & He2 & Hxc & He). destruct (lane_back _ _ _ _ Hxa Hp Hz2 He2) as [Hpa _].
        assert (¬ (a * (q * (2 # 1)) == 0)%Q) as Hz3 by (intros E; apply Qmult_integral in E as [?|?]; done).
        destruct (lane_back _ _ _ _ Hxc Hpa Hz3 He) as [_ Hb]. symmetry. unfold deriveLaneRatio.
        destruct (toNumberOrNull (deriveLanePrice (d_values d FAudioCompletion) _)); [exact Hb|]. exact Hb.
      * destruct (Hl k Hk Ek) as (c & Hxc & He). destruct (lane_back _ _ _ _ Hxc Hp Hz2 He) as [_ Hb]. symmetry.
        unfold deriveLaneRatio. destruct k; try done; (destruct (toNumberOrNull (deriveLanePrice _ _)); [exact Hb|exact Hb]).
Qed.

(** ** The panel at work *)

(** The switch and the price of the audio output lane are locked without a price for
    audio input; the price of a lane that is off cannot be edited. *)
Definition locked (s : panel) (k : LaneKey) : bool :=
  bool_decide (k = LAudioOutput) && (negb (enabled (lanes s) LAudioInput) || negb (hasValue (prices (lanes s) LAudioInput))).

Inductive panel_step : panel → panel → Prop :=
| ps_prompt s v : panel_step s (handlePromptPriceChange v s)
| ps_lane s k v : locked s k = false → enabled (lanes s) k = true → panel_step s (handleLanePriceChange k v s)
| ps_toggle s k b : locked s k = false → panel_step s (handleLaneToggle k b s)
| ps_mode s m : panel_step s (handleModeChange m s)
| ps_price s v : panel_step s (changePrice v s)
| ps_name s v : panel_step s (changeName v s)
| ps_exprs s e r : panel_step s (changeExprs e r s).

Lemma step_in_step s s' : in_step s → panel_step s s' → in_step s'.
Proof.
  intros Hs H. destruct H as [s v|s k v _ _|s k b _|s m|s v|s v|s e r].
  - destruct (numericDraft v) eqn:E; [by apply prompt_in_step|]. unfold handlePromptPriceChange. by rewrite E.
  - by apply price_in_step.
  - by apply toggle_in_step.
  - exact Hs.
  - unfold changePrice. destruct (numericDraft v); [|done]. destruct Hs as [Hb Hl]. split; cbn [form_values with_lanes lanes].
    + by rewrite set_value_ne.
    + intros k. rewrite set_value_ne; [apply Hl|]. apply ratio_field_ne.
  - unfold changeName. by destruct (editData s).
  - exact Hs.
Qed.

(** C25. Prices and ratios stay in step: from the moment a new model is opened, or one
    with exact prices, and whatever the user does, the ratios of the form are those of
    the prices on the screen, and a lane that is switched off has no ratio.  So a draft
    that passes the checks in the mode for tokens holds, for every price that is shown
    beside a base price other than zero, its ratio.  Exact prices ([exact_data]) are: no
    ratio at all; or a ratio for input tokens other than zero, with ratios of lanes, and
    one for audio output only beside one for audio input other than zero, where ratios
    and the prices they stand for have at most eight decimals and are at most a million. *)
Theorem panel_in_step data s : match data with Some d => exact_data d | None => True end → steps panel_step (openPanel data) s →
  in_step s
  ∧ (∀ k, enabled (lanes s) k = false → form_values s (ratioFieldByLane k) = [])
  ∧ (∀ d, commitDraft s = Some d → pricingMode s = PerToken → ∀ k p, enabled (lanes s) k = true → toNumberOrNull (prices (lanes s) k) = Some p →
       ∀ q, toNumberOrNull (match k with LAudioOutput => prices (lanes s) LAudioInput | _ => promptPrice (lanes s) end) = Some q → ¬ (q == 0)%Q →
       d_values d (ratioFieldByLane k) = formatPricingNumber (p / q)).
Proof.
  intros Hd Hs. assert (in_step s) as Hin.
  { eapply steps_invariant; [exact step_in_step| |exact Hs]. destruct data as [d|]; [by apply open_in_step|]. split; [done|]. by intros []. }
  split_and!; [done| |].
  - intros k Hk. destruct Hin as [_ Hl]. rewrite Hl. unfold lane_ratio. by rewrite Hk.
  - intros d Hc _ k p Hk Hp q Hq Hz. unfold commitDraft in Hc. destruct (_ && _); [|done]. injection Hc as <-. cbn [d_values buildSubmitData].
    destruct Hin as [_ Hl]. rewrite Hl. unfold lane_ratio, deriveLaneRatio. by rewrite Hk, Hp, Hq, Qeq_bool_nonzero.
Qed.

(** ** What is written to the settings *)

Definition written (value : jsstr) : option jsval :=
  if str_true value then match parseFloat value with Fin q => Some (JNum (Fin q)) | _ => None end else None.

(** The fields that a draft stores *)
Definition stored (d : ModelRatioData) (f : Field) : bool :=
  match d_mode d with
  | TieredExpr => true
  | _ => if str_true (d_values d FPrice) then bool_decide (f = FPrice) else negb (bool_decide (f = FPrice))
  end.

(** What a draft writes for a model *)
Definition entry (d : ModelRatioData) (k : Setting) : option jsval :=
  let combined := combineBillingExpr (d_expr d) (d_rules d) in
  match k with
  | SNum f => if stored d f then written (d_values d f) else None
  | SMode => if bool_decide (d_mode d = TieredExpr) && str_true combined then Some (JStr (js "tiered_expr")) else None
  | SExpr => if bool_decide (d_mode d = TieredExpr) && str_true combined then Some (JStr combined) else None
  end.

Lemma setIfPresent_spec name v m : setIfPresent name v m = match written v with Some x => write_member name x m | None => Returns m end.
Proof. unfold setIfPresent, written. destruct (str_true v); [|done]. by destruct (parseFloat v). Qed.

Lemma plain_fields_mdel n fs : plain_fields fs → plain_fields (mdel n fs).
Proof.
  intros [Hnd Hf]. unfold mdel. split.
  2: { rewrite Forall_forall in *. intros x [_ Hx]%list_elem_of_filter. by apply Hf. }
  unfold mkeys in *. clear Hf. induction fs as [|e fs IH]; [done|].
  rewrite fmap_cons in Hnd. apply NoDup_cons in Hnd as [Hn Hnd]. rewrite filter_cons. case_decide; [|by apply IH]. rewrite fmap_cons. apply NoDup_cons.
  split; [|by apply IH]. rewrite list_elem_of_fmap in Hn |- *. intros (x & Hx & Hin). apply Hn. exists x. split; [done|]. by apply list_elem_of_filter in Hin as [_ Hin].
Qed.

(** Replacing the entry of a model in one setting *)
Definition put_entry (e : option jsval) (name : jsstr) (v : jsval) : outcome jsval :=
  v ← delete_member name v; match e with Some x => write_member name x v | None => Returns v end.

(** A statement on the maps that acts on each of them for itself *)
Definition pointwise (F : Maps → outcome Maps) (G : Setting → jsval → outcome jsval) : Prop :=
  ∀ m, match F m with Returns m' => ∀ k, G k (m k) = Returns (m' k) | Throws => ∃ k, G k (m k) = Throws end.

Lemma pointwise_ext F G G' : pointwise F G → (∀ k v, G k v = G' k v) → pointwise F G'.
Proof.
  intros H HG m. specialize (H m). destruct (F m) as [|m'].
  - destruct H as [k Hk]. exists k. by rewrite <- HG.
  - intros k. by rewrite <- HG.
Qed.

Lemma pointwise_ret : pointwise Returns (fun _ => Returns).
Proof. by intros m k. Qed.

Lemma pointwise_bind F1 F2 G1 G2 : pointwise F1 G1 → pointwise F2 G2 →
  pointwise (fun m => m1 ← F1 m; F2 m1) (fun k v => v1 ← G1 k v; G2 k v1).
Proof.
  intros H1 H2 m. specialize (H1 m). destruct (F1 m) as [|m1]; cbn [mbind outcome_bind].
  - destruct H1 as [k Hk]. exists k. by rewrite Hk.
  - specialize (H2 m1). destruct (F2 m1) as [|m2].
    + destruct H2 as [k Hk]. exists k. rewrite H1. exact Hk.
    + intros k. rewrite H1. exact (H2 k).
Qed.

Lemma pointwise_update k g : pointwise (update_map k g) (fun j v => if decide (j = k) then g v else Returns v).
Proof.
  intros m. unfold update_map. destruct (g (m k)) as [|v] eqn:E; cbn [mbind outcome_bind].
  - exists k. by rewrite decide_True.
  - intros j. by destruct (decide (j = k)) as [->|].
Qed.

Lemma pointwise_each {A} (f : A → Maps → outcome Maps) G l : (∀ x, pointwise (f x) (G x)) →
  pointwise (each f l) (fun k => each (fun x => G x k) l).
Proof. intros H. induction l as [|x l IH]; [apply pointwise_ret|]. by apply (pointwise_bind (f x) (each f l) (G x)). Qed.

Lemma bind_returns {A} (x : outcome A) : (y ← x; Returns y) = x.
Proof. by destruct x. Qed.

(** Of the statements for all maps, one concerns a given map. *)
Lemma each_setting (g : jsval → outcome jsval) k v :
  each (fun j v => if decide (k = j) then g v else Returns v) setting_order v = g v.
Proof. destruct k as [[]| |]; vm_compute; by destruct (g v). Qed.

Lemma each_field (h : Field → jsval → outcome jsval) fs k v : fs ∈ [[FPrice]; token_fields; all_fields] →
  each (fun f v => if decide (k = SNum f) then h f v else Returns v) fs v
  = match k with SNum f => if bool_decide (f ∈ fs) then h f v else Returns v | _ => Returns v end.
Proof.
  rewrite !elem_of_cons, elem_of_nil. intros [->|[->|[->|[]]]]; destruct k as [[]| |]; vm_compute; try done; by destruct (h _ v).
Qed.

Lemma drop_name_pointwise name : pointwise (drop_name name) (fun _ => delete_member name).
Proof. eapply pointwise_ext; [apply pointwise_each; intros k; apply pointwise_update|]. intros k v. apply each_setting. Qed.

(** The fields of the list are written. *)
Lemma set_fields_pointwise fs name vs : fs ∈ [[FPrice]; token_fields; all_fields] →
  pointwise (set_fields fs name vs)
    (fun k v => match k with
                | SNum f => if bool_decide (f ∈ fs) then setIfPresent name (vs f) v else Returns v
                | _ => Returns v
                end).
Proof.
  intros Hfs. eapply pointwise_ext; [apply pointwise_each; intros f; apply pointwise_update|].
  intros k v. by apply (each_field (fun f => setIfPresent name (vs f))).
Qed.

(** Saving a draft replaces the entry of the model in every setting. *)
Lemma persist_one_pointwise d name : pointwise (persist_one d name) (fun k => put_entry (entry d k) name).
Proof.
  unfold persist_one, put_entry. apply (pointwise_bind (drop_name name) _ (fun _ => delete_member name)); [apply drop_name_pointwise|].
  destruct (d_mode d) eqn:Em.
  3: { set (combined := combineBillingExpr _ _).
    eapply pointwise_ext.
    - apply pointwise_bind; [|apply set_fields_pointwise; by repeat constructor].
      instantiate (1 := fun k v => match k with SNum _ => Returns v | k => match entry d k with Some x => write_member name x v | None => Returns v end end).
      unfold entry. rewrite Em. fold combined. destruct (str_true combined).
      + eapply pointwise_ext; [apply pointwise_bind; apply pointwise_update|]. intros [f| |] v; do 2 (case_decide; try done); by rewrite ?bind_returns.
      + eapply pointwise_ext; [apply pointwise_ret|]. by intros [f| |] v.
    - intros [f| |] v; cbn [mbind outcome_bind]; [|by rewrite bind_returns..].
      unfold entry, stored. rewrite Em, bool_decide_true, setIfPresent_spec by (destruct f; decided). done. }
  all: unfold entry, stored; rewrite Em; destruct (str_true (d_values d FPrice)).
  all: eapply pointwise_ext; [apply set_fields_pointwise; by repeat constructor|].
  all: by intros [[]| |] v; cbn; rewrite ?setIfPresent_spec.
Qed.

Lemma persist_pointwise d targets : pointwise (each (persist_one d) targets) (fun k => each (put_entry (entry d k)) targets).
Proof. apply (pointwise_each (persist_one d) (fun name k => put_entry (entry d k) name)). intros name. apply persist_one_pointwise. Qed.

(** What saving makes of one setting, by what the setting holds *)

Lemma put_object e targets fs : Forall units targets → (∀ x, e = Some x → JsonPrint.plain x) → plain_fields fs →
  ∃ fs', each (put_entry e) targets (JObj fs) = Returns (JObj fs') ∧ plain_fields fs'
         ∧ ∀ n, mget n fs' = if decide (n ∈ targets) then e else mget n fs.
Proof.
  intros Ht He. revert fs. induction Ht as [|name targets Hn _ IH]; intros fs Hp.
  { exists fs. split_and!; [done..|]. intros n. by rewrite decide_False by (apply not_elem_of_nil). }
  set (fs1 := match e with Some x => mset name x (mdel name fs) | None => mdel name fs end).
  assert (put_entry e name (JObj fs) = Returns (JObj fs1)) as E1 by (unfold fs1; by destruct e).
  assert (plain_fields fs1) as Hp1.
  { unfold fs1. destruct e as [x|]; [apply plain_fields_mset; [done|by apply He|]|]; by apply plain_fields_mdel. }
  destruct (IH fs1 Hp1) as (fs' & E & Hp' & Hg). exists fs'. cbn [each]. rewrite E1. split_and!; [done..|].
  intros n. rewrite Hg. destruct (decide (n ∈ targets)) as [Hin|Hin]; [by rewrite decide_True by (by constructor)|].
  destruct (decide (n = name)) as [->|Hne].
  - rewrite decide_True by constructor. unfold fs1. destruct e; [by rewrite mget_mset_eq|]. rewrite mget_mdel. by case_decide.
  - rewrite decide_False by (by intros [?|?]%elem_of_cons). unfold fs1.
    assert (mget n (mdel name fs) = mget n fs) as Hd by (rewrite mget_mdel; by case_decide).
    destruct e; [by rewrite mget_mset_ne|done].
Qed.

(** Names that are no members of arrays or strings *)
Definition ordinary (name : jsstr) : Prop := name ≠ js "length" ∧ array_index name = None.

Lemma put_array e targets l : Forall ordinary targets → each (put_entry e) targets (JArr l) = Returns (JArr l).
Proof.
  induction 1 as [|name targets [Hl Hi] _ IH]; [done|]. cbn [each].
  assert (put_entry e name (JArr l) = Returns (JArr l)) as ->; [|done].
  unfold put_entry, delete_member. rewrite Hi. destruct (decide (name = js "length")); [done|].
  destruct e; [|done]. cbn [mbind outcome_bind write_member]. by rewrite Hi.
Qed.

Lemma put_null e targets : targets ≠ [] → each (put_entry e) targets JNull = Throws.
Proof. by destruct targets. Qed.

Lemma put_scalar e targets v : targets ≠ [] → is_Some e → is_object v = false → each (put_entry e) targets v = Throws.
Proof.
  intros Ht [x ->] Hv. destruct targets as [|name targets]; [done|]. cbn [each].
  assert (put_entry (Some x) name v = Throws) as ->; [|done]. unfold put_entry, delete_member.
  destruct v; try done. by repeat case_match.
Qed.

(** ** Reading the settings back *)

Definition units_settings (s : Settings) : Prop := ∀ k, units (s k).
(** The members of a setting that holds an object *)
Definition members (text : jsstr) : list (jsstr * jsval) := match parsed text with JObj fs => fs | _ => [] end.

Definition is_record (text : jsstr) : Prop := match parsed text with JObj _ => True | _ => False end.

Lemma parsed_members text : is_record text → parsed text = JObj (members text).
Proof. unfold is_record, members. by destruct (parsed text). Qed.

Lemma parsed_plain text : units text → JsonPrint.plain (parsed text).
Proof.
  intros Hu. unfold parsed, safeJsonParse. destruct (_ && _); [|by apply plain_obj; split; constructor].
  destruct (JSON_parse (trim text)) as [v|] eqn:E; [|by apply plain_obj; split; constructor].
  apply JSON_parse_plain in E; [done|by apply trim_units].
Qed.

Lemma members_plain text : units text → plain_fields (members text).
Proof.
  intros Hu%parsed_plain. unfold members. destruct (parsed text); try (split; constructor). by apply plain_obj in Hu.
Qed.

(** A printed setting is an object with the same members. *)
Lemma printed_map_read fs : plain_fields fs → let text := json_text 2 0 (JObj fs) in
  is_record text ∧ (∀ n, mget n (members text) = enumerated <$> mget n fs) ∧ Permutation (mkeys (members text)) (mkeys fs).
Proof.
  intros Hp text. apply plain_obj in Hp. destruct (JSON_object_roundtrip 2 fs Hp) as (gs & Hj & Hg & Hk). fold text in Hj.
  assert (parsed text = JObj gs) as Hs.
  { unfold parsed, safeJsonParse. assert (trim text = text) as -> by (unfold text; destruct (object_text_wrapped 2 0 fs) as [s ->]; by apply trim_wrapped).
    assert (str_true text = true) as -> by (unfold text; by destruct (object_text_wrapped 2 0 fs) as [s ->]). cbn [andb]. by rewrite Hj. }
  unfold is_record, members. by rewrite Hs.
Qed.

Lemma float_canonical s q : float_unsigned s = Fin q → is_canonical (Fin q).
Proof.
  unfold float_unsigned. destruct (starts_with _ _); [done|]. destruct (take_digits s) as [int s1].
  destruct (match s1 with 46%N :: r => take_digits r | _ => ([], s1) end) as [frac s2]. destruct (int ++ frac); [done|]. intros [= <-]. apply decimal_canonical.
Qed.

Lemma parseFloat_canonical s q : parseFloat s = Fin q → is_canonical (Fin q).
Proof.
  intros H.
  assert (∃ r, float_unsigned r = Fin q ∨ ∃ q', float_unsigned r = Fin q' ∧ q = (- q')%Q) as (r & [Hr|(q' & Hr & ->)]).
  { unfold parseFloat in H. destruct (trim_start s) as [|c t]; [by exists []; left|]. destruct (decide (c = 45%N)) as [->|H1].
    - exists t. right. destruct (float_unsigned t) as [| |q']; try done. exists q'. by injection H as <-.
    - destruct (decide (c = 43%N)) as [->|H2]; [by exists t; left|]. exists (c :: t). left. repeat (case_match; try done); congruence. }
  - by eapply float_canonical.
  - by apply canonical_opp, (float_canonical r).
Qed.

Lemma written_plain v x : written v = Some x → JsonPrint.plain x ∧ enumerated x = x.
Proof. unfold written. destruct (str_true v); [|done]. destruct (parseFloat v) eqn:E; try done. intros [= <-]. split; [by eapply parseFloat_canonical|done]. Qed.

Definition units_data (d : ModelRatioData) : Prop := units (d_expr d) ∧ units (d_rules d).

Lemma combine_units d : units_data d → units (combineBillingExpr (d_expr d) (d_rules d)).
Proof.
  intros [H1 H2]. unfold combineBillingExpr. destruct (str_true (trim (d_expr d))); [|constructor].
  destruct (str_true (trim (d_rules d))); [|by apply trim_units]. constructor; [done|]. apply Forall_app. split; [by apply trim_units|]. apply Forall_app. split; [|by apply trim_units].
  decided.
Qed.

Lemma entry_plain d k x : units_data d → entry d k = Some x → JsonPrint.plain x ∧ enumerated x = x.
Proof.
  intros Hd. unfold entry. destruct k as [f| |].
  - destruct (stored d f); [apply written_plain|done].
  - destruct (_ && _); [|done]. intros [= <-]. split; [|done]. change (units (js "tiered_expr")). unfold units. decided.
  - destruct (_ && _); [|done]. intros [= <-]. split; [|done]. by apply combine_units.
Qed.

(** Records stay records. *)
Lemma persist_records d targets s : units_data d → Forall units targets → units_settings s → (∀ k, is_record (s k)) →
  ∃ s', persistPricingData d targets s = Returns s'
  ∧ ∀ k, is_record (s' k) ∧ ∀ n, mget n (members (s' k)) = if decide (n ∈ targets) then entry d k else enumerated <$> mget n (members (s k)).
Proof.
  intros Hd Ht Hs Hr.
  assert (∀ k, ∃ fs', each (put_entry (entry d k)) targets (parsed (s k)) = Returns (JObj fs') ∧ plain_fields fs'
    ∧ ∀ n, mget n fs' = if decide (n ∈ targets) then entry d k else mget n (members (s k))) as Hput.
  { intros k. rewrite parsed_members by done. apply put_object; [done| |by apply members_plain]. intros x Hx. by apply (entry_plain d k). }
  unfold persistPricingData. pose proof (persist_pointwise d targets (fun k => parsed (s k))) as H.
  destruct (each (persist_one d) targets _) as [|m].
  { destruct H as [k Hk]. destruct (Hput k) as (fs' & E & _). congruence. }
  eexists. split; [done|]. intros k. destruct (Hput k) as (fs' & E & Hp & Hg). rewrite H in E. injection E as E.
  unfold printed. rewrite E. destruct (printed_map_read fs' Hp) as (H1 & H2 & _). split; [done|].
  intros n. rewrite H2, Hg. case_decide; [|done]. destruct (entry d k) as [x|] eqn:Ex; [|done]. cbn. f_equal. by apply (entry_plain d k).
Qed.

Lemma persist_throws d targets s k : each (put_entry (entry d k)) targets (parsed (s k)) = Throws → persistPricingData d targets s = Throws.
Proof.
  intros Hk. unfold persistPricingData. pose proof (persist_pointwise d targets (fun k => parsed (s k))) as H.
  destruct (each (persist_one d) targets _) as [|m]; [done|]. specialize (H k). cbn beta in H. congruence.
Qed.

(** C24. What saving a draft writes. When the ten settings hold objects (or are blank
    or malformed, which counts as the empty object), the texts written are objects
    again; for the target models each of them holds exactly what the draft says - in
    the mode for expressions the expression with its mode and all prices, otherwise
    the fixed price alone when there is one, whatever the mode, and else the ratios -
    and nothing changes for any other model. Settings that hold something else are
    not repaired: a setting that holds null, or one that holds a number, a boolean or
    a string and for which the draft has an entry, makes saving throw with nothing
    stored; a setting that holds an array is printed back as it was, and the entries
    are lost, for models whose names are neither array indices nor the length. *)
Theorem persist_spec d targets s : units_data d → Forall units targets → units_settings s →
  ((∀ k, is_record (s k)) →
   ∃ s', persistPricingData d targets s = Returns s'
   ∧ ∀ k, is_record (s' k) ∧ ∀ n, mget n (members (s' k)) = if decide (n ∈ targets) then entry d k else enumerated <$> mget n (members (s k)))
  ∧ (∀ k, targets ≠ [] → parsed (s k) = JNull ∨ is_object (parsed (s k)) = false ∧ is_Some (entry d k) → persistPricingData d targets s = Throws)
  ∧ (∀ k l s', Forall ordinary targets → parsed (s k) = JArr l → persistPricingData d targets s = Returns s' → s' k = json_text 2 0 (JArr l)).
Proof.
  intros Hd Ht Hs. split_and!; [by apply persist_records| |].
  - intros k Hne [Hk|[Hk He]]; apply (persist_throws d targets s k); [rewrite Hk; by apply put_null|by apply put_scalar].
  - intros k l s' Ho Hk Hr. unfold persistPricingData in Hr. pose proof (persist_pointwise d targets (fun k => parsed (s k))) as H.
    destruct (each (persist_one d) targets _) as [|m]; [done|]. injection Hr as <-. specialize (H k). cbn beta in H.
    rewrite Hk, put_array in H by done. injection H as H. unfold printed. by rewrite <- H.
Qed.

(** Deleting a model *)
Lemma delete_read name s : units_settings s → (∀ k, is_record (s k)) →
  ∃ s', handleDelete name s = Returns s'
  ∧ ∀ k n, mget n (members (s' k)) = if decide (n = name) then None else enumerated <$> mget n (members (s k)).
Proof.
  intros Hs Hr. unfold handleDelete. pose proof (drop_name_pointwise name (fun k => parsed (s k))) as H.
  destruct (drop_name name _) as [|m].
  { destruct H as [k Hk]. cbn beta in Hk. by rewrite parsed_members in Hk by done. }
  eexists. split; [done|]. intros k n. specialize (H k). cbn beta in H. rewrite parsed_members in H by done. injection H as H.
  unfold printed. rewrite <- H. destruct (printed_map_read _ (plain_fields_mdel name _ (members_plain _ (Hs k)))) as (_ & Hn & _).
  rewrite Hn, mget_mdel. by case_decide.
Qed.

(** ** The table after saving *)

(** Texts of numbers, as the panel and the settings produce them *)
Definition numeral (v : jsstr) : Prop := v = [] ∨ ∃ q, is_canonical (Fin q) ∧ v = num_str (Fin q).

Lemma float_of_decimal s q : parse_decimal s = Some q → starts_with (js "Infinity") s = false → float_unsigned s = Fin q.
Proof.
  unfold parse_decimal, float_unsigned. intros H ->. destruct (take_digits s) as [int s1].
  destruct (match s1 with 46%N :: r => take_digits r | _ => ([], s1) end) as [frac s2]. destruct (int ++ frac); [done|].
  destruct (parse_exponent s2) as [[e [|]]|]; try done. by injection H as <-.
Qed.

Lemma digit_not_infinity c t : is_digit c = true → starts_with (js "Infinity") (c :: t) = false.
Proof. intros Hc. apply not_true_iff_false. intros [r E]%starts_with_spec. injection E as E _. rewrite E in Hc. by vm_compute in Hc. Qed.

Lemma parseFloat_num_str q : is_canonical (Fin q) → parseFloat (num_str (Fin q)) = Fin q.
Proof.
  intros [Hr Hd]. unfold num_str. destruct (Z.eqb_spec (Qnum q) 0) as [H0|H0].
  - assert (q = 0%Q) as -> by (rewrite <- Hr; apply (Qred_complete q 0); unfold Qeq; simpl; lia). by vm_compute.
  - assert (0 < Qabs q)%Q as Hpos by (destruct q as [a d]; unfold Qabs, Qlt; simpl in *; lia).
    assert (Qred (Qabs q) = Qabs q ∧ is_decimal (Qabs q)) as [Hra Hda].
    { destruct q as [[|a|a] d]; [done|done|]. change (Qabs (Zneg a # d)) with (- (Zneg a # d))%Q.
      split; [by rewrite Qred_opp, Hr|]. destruct Hd as [k Hk]. exists k. by rewrite Qred_opp. }
    pose proof (positive_text _ Hpos Hda) as H. destruct (decimal_of (Qabs q)) as [ds n]. destruct H as (_ & (c & t & E & Hc) & Hp). rewrite Hra in Hp.
    pose proof (float_of_decimal _ _ Hp) as Hf. rewrite E in Hf |- *. specialize (Hf (digit_not_infinity c t Hc)).
    unfold parseFloat. destruct (Z.ltb_spec (Qnum q) 0) as [Hneg|Hneg]; cbn [app].
    + rewrite trim_start_id by (by intros ?? [= <- _]). rewrite Hf. f_equal. by destruct q as [[|a|a] d].
    + rewrite trim_start_id by (intros ?? [= <- _]; by apply digit_not_ws).
      assert (c = 48 ∨ c = 49 ∨ c = 50 ∨ c = 51 ∨ c = 52 ∨ c = 53 ∨ c = 54 ∨ c = 55 ∨ c = 56 ∨ c = 57)%N as H by (unfold is_digit in Hc; lia).
      assert (Qabs q = q) as Hq by (by destruct q as [[|a|a] d]). rewrite Hq in Hf. destruct_or! H; subst c; exact Hf.
Qed.

Lemma written_numeral v : numeral v → value_text (default JUndef (written v)) = v.
Proof.
  intros [->|(q & Hq & ->)]; [done|]. unfold written. pose proof (num_str_nonempty q Hq) as Hn. apply str_true_spec in Hn. rewrite Hn, parseFloat_num_str by done. done.
Qed.

Lemma value_text_enumerated v : value_text (default JUndef (enumerated <$> v)) = value_text (default JUndef v).
Proof. destruct v as [v|]; [|done]. cbn. pose proof (js_String_enumerated v) as H. destruct v; done. Qed.

(** Snapshots that agree in every field *)
Definition same_snapshot (a b : ModelPricingSnapshot) : Prop :=
  s_name a = s_name b ∧ (∀ f, s_values a f = s_values b f) ∧ s_mode a = s_mode b ∧ s_expr a = s_expr b ∧ s_rules a = s_rules b ∧ hasConflict a = hasConflict b.

Definition same_outcome (x y : outcome ModelPricingSnapshot) : Prop :=
  match x, y with Returns a, Returns b => same_snapshot a b | Throws, Throws => True | _, _ => False end.

Lemma snapshot_ext n vs vs' mode expr : (∀ f, vs f = vs' f) → same_outcome (snapshot_of n vs mode expr) (snapshot_of n vs' mode expr).
Proof.
  intros H. unfold snapshot_of. destruct (is_str _ _).
  - destruct (match expr with JStr e => _ | _ => _ end) as [|e]; [done|]. cbn [mbind outcome_bind].
    destruct (splitBillingExprAndRequestRules _) as [|x]; [done|]. cbn [mbind outcome_bind same_outcome]. unfold same_snapshot. cbn. split_and!; done.
  - cbn [same_outcome]. unfold same_snapshot. cbn. rewrite !H. split_and!; done.
Qed.

Lemma snapshot_enumerated n vs mode expr :
  snapshot_of n vs (default JUndef (enumerated <$> mode)) (default JUndef (enumerated <$> expr)) = snapshot_of n vs (default JUndef mode) (default JUndef expr).
Proof.
  unfold snapshot_of.
  assert (is_str (js "tiered_expr") (default JUndef (enumerated <$> mode)) = is_str (js "tiered_expr") (default JUndef mode)) as -> by (by destruct mode as [[]|]).
  by destruct expr as [[]|].
Qed.

(** The prices that a draft stores *)
Definition stored_values (d : ModelRatioData) : Values := fun f => if stored d f then d_values d f else [].

Lemma entry_text d f : numeral (d_values d f) → value_text (default JUndef (entry d (SNum f))) = stored_values d f.
Proof. intros H. unfold entry, stored_values. destruct (stored d f); [by apply written_numeral|done]. Qed.

Lemma read_members text n : is_record text → read_member n (parsed text) = default JUndef (mget n (members text)).
Proof. intros H. by rewrite parsed_members. Qed.

(** The table shows what was saved: after a draft is saved, the snapshot of a
    target model has the prices that the draft stores, and its expression and rules
    are those found in the saved expression when the mode is for expressions; all
    other models look as before. *)
Theorem saved_snapshot d targets s n : units_data d → Forall units targets → units_settings s → (∀ k, is_record (s k)) → (∀ f, numeral (d_values d f)) →
  ∃ s', persistPricingData d targets s = Returns s'
  ∧ (n ∈ targets → same_outcome (snapshot s' n) (snapshot_of n (stored_values d) (default JUndef (entry d SMode)) (default JUndef (entry d SExpr))))
  ∧ (n ∉ targets → same_outcome (snapshot s' n) (snapshot s n)).
Proof.
  intros Hd Ht Hs Hr Hv. destruct (persist_records d targets s Hd Ht Hs Hr) as (s' & E & Hget). exists s'. split; [done|].
  assert (∀ k, read_member n (parsed (s' k)) = default JUndef (if decide (n ∈ targets) then entry d k else enumerated <$> mget n (members (s k)))) as Hrd.
  { intros k. destruct (Hget k) as [Hk Hm]. by rewrite read_members, Hm. }
  unfold snapshot. rewrite !Hrd. split; intros Hn; [rewrite !decide_True by done|rewrite !decide_False by done; rewrite snapshot_enumerated, <- !read_members by done];
    apply snapshot_ext; intros f; rewrite Hrd.
  - rewrite decide_True by done. by apply entry_text.
  - rewrite decide_False by done. by rewrite value_text_enumerated, read_members.
Qed.

(** In every mode but that for expressions a fixed price that is left in the
    form wins: saving stores it and drops every ratio of the model, also when the
    panel is in the mode for tokens and shows token prices. *)
Theorem fixed_price_wins p s v : units_settings s → (∀ k, is_record (s k)) → units (form_name p) → commitDraft p = Some (buildSubmitData p) → pricingMode p ≠ TieredExpr →
  written (form_values p FPrice) = Some v →
  let name := trim (form_name p) in
  ∃ s', commitOpenEditor p s = Some (Returns s')
  ∧ mget name (members (s' (SNum FPrice))) = Some v
  ∧ (∀ f, f ≠ FPrice → mget name (members (s' (SNum f))) = None) ∧ mget name (members (s' SMode)) = None.
Proof.
  intros Hs Hr Hu Hc Hm Hv name. unfold commitOpenEditor. rewrite Hc. cbn [mbind option_bind].
  assert (units_data (buildSubmitData p)) as Hd by (unfold units_data, buildSubmitData; cbn; rewrite !decide_False by done; split; constructor).
  assert (Forall units [d_name (buildSubmitData p)]) as Ht by (constructor; [by apply trim_units|done]).
  destruct (persist_records _ _ s Hd Ht Hs Hr) as (s' & -> & Hget'). exists s'. split; [done|].
  assert (∀ k, mget name (members (s' k)) = entry (buildSubmitData p) k) as Hget.
  { intros k. destruct (Hget' k) as [_ ->]. by rewrite decide_True by constructor. }
  assert (str_true (form_values p FPrice) = true) as Hp by (unfold written in Hv; by destruct (str_true _)).
  assert (∀ f, stored (buildSubmitData p) f = bool_decide (f = FPrice)) as Hst.
  { intros f. unfold stored, buildSubmitData. cbn. rewrite Hp. by destruct (pricingMode p). }
  rewrite !Hget. split_and!.
  - unfold entry. by rewrite Hst, bool_decide_true.
  - intros f Hf. rewrite Hget. unfold entry. by rewrite Hst, bool_decide_false.
  - unfold entry. cbn [d_mode buildSubmitData]. by rewrite bool_decide_false.
Qed.

(** ** Rows *)

Definition snapshot_units (s : ModelPricingSnapshot) : Prop :=
  (∀ f, units (s_values s f)) ∧ units (s_mode s) ∧ units (s_expr s) ∧ units (s_rules s).

(** What the signature compares *)
Definition same_content (a b : option ModelPricingSnapshot) : Prop :=
  match a, b with
  | None, None => True
  | Some a, Some b => (∀ f, s_values a f = s_values b f) ∧ str_or (s_mode a) (js "per-token") = str_or (s_mode b) (js "per-token") ∧ s_expr a = s_expr b ∧ s_rules a = s_rules b
  | _, _ => False
  end.

Definition signature_fields (s : ModelPricingSnapshot) : list (jsstr * jsval) := [
  (js "price", JStr (s_values s FPrice)); (js "ratio", JStr (s_values s FRatio)); (js "cacheRatio", JStr (s_values s FCache));
  (js "createCacheRatio", JStr (s_values s FCreateCache)); (js "completionRatio", JStr (s_values s FCompletion));
  (js "imageRatio", JStr (s_values s FImage)); (js "audioRatio", JStr (s_values s FAudio));
  (js "audioCompletionRatio", JStr (s_values s FAudioCompletion)); (js "billingMode", JStr (str_or (s_mode s) (js "per-token")));
  (js "billingExpr", JStr (s_expr s)); (js "requestRuleExpr", JStr (s_rules s))].

Lemma signature_keys s : mkeys (signature_fields s) = [js "price"; js "ratio"; js "cacheRatio"; js "createCacheRatio"; js "completionRatio"; js "imageRatio";
  js "audioRatio"; js "audioCompletionRatio"; js "billingMode"; js "billingExpr"; js "requestRuleExpr"].
Proof. done. Qed.

Lemma signature_NoDup s : NoDup (mkeys (signature_fields s)).
Proof. rewrite signature_keys. decided. Qed.

Lemma signature_plain s : snapshot_units s → JsonPrint.plain (JObj (signature_fields s)).
Proof.
  intros (Hv & Hm & He & Hr). apply plain_obj. split; [apply signature_NoDup|].
  assert (units (str_or (s_mode s) (js "per-token"))) as Hm' by (unfold str_or; destruct (str_true _); [done|unfold units; decided]).
  repeat constructor; cbn [fst snd]; try done; try apply Hv; unfold units; decided.
Qed.

Lemma signature_enumerated s : enumerated (JObj (signature_fields s)) = JObj (signature_fields s).
Proof.
  cbn [enumerated]. change ((fun e => (e.1, enumerated e.2)) <$> signature_fields s) with (signature_fields s).
  rewrite own_fields_names; [done|]. rewrite signature_keys. decided.
Qed.

Lemma signature_eq a b : snapshot_units a → snapshot_units b →
  getSnapshotSignature (Some a) = getSnapshotSignature (Some b) ↔ same_content (Some a) (Some b).
Proof.
  intros Ha Hb. change (getSnapshotSignature (Some a)) with (json_text 0 0 (JObj (signature_fields a))).
  change (getSnapshotSignature (Some b)) with (json_text 0 0 (JObj (signature_fields b))). split.
  - intros E. apply (JSON_stringify_inj 0 _ _ (signature_plain a Ha) (signature_plain b Hb)) in E. rewrite !signature_enumerated in E.
    unfold signature_fields in E. injection E as E1 E2 E3 E4 E5 E6 E7 E8 E9 E10 E11. cbn. split_and!; [by intros []|done..].
  - intros (Hv & Hm & He & Hr). do 2 f_equal. unfold signature_fields. by rewrite !Hv, Hm, He, Hr.
Qed.

Lemma signature_content a b : (∀ x, a = Some x → snapshot_units x) → (∀ x, b = Some x → snapshot_units x) →
  getSnapshotSignature a = getSnapshotSignature b ↔ same_content a b.
Proof.
  intros Ha Hb. destruct a as [a|], b as [b|]; [by apply signature_eq; auto| | |done].
  - split; [|done]. intros E. change (getSnapshotSignature (Some a)) with (json_text 0 0 (JObj (signature_fields a))) in E.
    destruct (object_text_wrapped 0 0 (signature_fields a)) as [s Hs]. by rewrite Hs in E.
  - split; [|done]. intros E. change (getSnapshotSignature (Some b)) with (json_text 0 0 (JObj (signature_fields b))) in E.
    destruct (object_text_wrapped 0 0 (signature_fields b)) as [s Hs]. by rewrite Hs in E.
Qed.

Lemma mget_by_name rows n : NoDup (s_name <$> rows) → mget n (by_name rows) = snd <$> list_find (fun r => s_name r = n) rows.
Proof.
  intros Hnd. unfold by_name.
  assert (∀ acc, mget n (foldl (fun m r => mset (s_name r) r m) acc rows) = match list_find (fun r => s_name r = n) rows with Some (_, r) => Some r | None => mget n acc end) as H.
  { induction rows as [|r rows IH]; intros acc; [done|]. rewrite fmap_cons in Hnd. apply NoDup_cons in Hnd as [Hn Hnd]. cbn [foldl list_find]. rewrite IH by done.
    case_decide as E.
    - subst n. destruct (list_find _ rows) as [[i r']|] eqn:Ef; [|by rewrite mget_mset_eq]. apply list_find_Some in Ef as (Hi & Hk & _).
      destruct Hn. rewrite <- Hk. apply list_elem_of_fmap_2. by eapply list_elem_of_lookup_2.
    - destruct (list_find _ rows) as [[i r']|]; cbn; [done|]. by rewrite mget_mset_ne. }
  rewrite H. by destruct (list_find _ rows) as [[]|].
Qed.

Lemma by_name_Some rows n r : mget n (by_name rows) = Some r → s_name r = n ∧ r ∈ rows.
Proof.
  unfold by_name. assert (∀ acc, (∀ k x, mget k acc = Some x → s_name x = k ∧ x ∈ rows) → ∀ l, l ⊆ rows → ∀ k x, mget k (foldl (fun m r => mset (s_name r) r m) acc l) = Some x → s_name x = k ∧ x ∈ rows) as H.
  { intros acc Hacc l. revert acc Hacc. induction l as [|y l IH]; intros acc Hacc Hl; [done|]. cbn [foldl]. apply IH; [|set_solver].
    intros k x. rewrite mget_mset. case_decide as E; [intros [= <-]; split; [done|]; set_solver|apply Hacc]. }
  apply H; done.
Qed.

Definition find_row (n : jsstr) (rows : list ModelPricingSnapshot) : option ModelPricingSnapshot := snd <$> list_find (fun r => s_name r = n) rows.

Lemma row_name saved draft n : s_name (displayed (model_row (by_name saved) (by_name draft) n)) = n.
Proof.
  cbn. destruct (mget n (by_name saved)) as [x|] eqn:E1; [by apply by_name_Some in E1 as [? _]|].
  destruct (mget n (by_name draft)) as [x|] eqn:E2; [by apply by_name_Some in E2 as [? _]|done].
Qed.

Lemma find_row_Some n rows x : find_row n rows = Some x → x ∈ rows ∧ s_name x = n.
Proof. unfold find_row. intros ([i y] & Hf & ->)%fmap_Some. apply list_find_Some in Hf as (Hi & Hn & _). split; [by eapply list_elem_of_lookup_2|done]. Qed.

Lemma find_row_is_Some n rows : is_Some (find_row n rows) ↔ n ∈ (s_name <$> rows).
Proof.
  unfold find_row. rewrite fmap_is_Some, list_elem_of_fmap. split.
  - intros [[i y] Hf]. apply list_find_Some in Hf as (Hi & Hn & _). exists y. split; [done|]. by eapply list_elem_of_lookup_2.
  - intros (y & -> & Hy). by apply (list_find_elem_of (fun r => s_name r = s_name y) rows y).
Qed.

Lemma elem_of_mkeys_by_name rows n : NoDup (s_name <$> rows) → n ∈ mkeys (by_name rows) ↔ n ∈ (s_name <$> rows).
Proof.
  intros Hnd. rewrite <- find_row_is_Some. unfold find_row. rewrite <- mget_by_name by done. rewrite <- not_eq_None_Some, mget_None.
  split; [intros H H'; by apply H'|]. intros H. destruct (decide (n ∈ mkeys (by_name rows))); [done|]. by destruct H.
Qed.

Section RowSpec.

Context (savedRows draftRows : list ModelPricingSnapshot) (mode : FilterMode) (candidates : list jsstr).
Context (Hsaved : NoDup (s_name <$> savedRows)) (Hdraft : NoDup (s_name <$> draftRows)).

Let row_of : jsstr → ModelRow := model_row (by_name savedRows) (by_name draftRows).
Let names : list jsstr :=
  match mode with FilterUnset => uniq candidates | FilterAll => uniq (mkeys (by_name savedRows) ++ mkeys (by_name draftRows)) end.

Lemma row_saved n : saved (row_of n) = find_row n savedRows.
Proof. unfold row_of, find_row. by rewrite <- mget_by_name. Qed.

Lemma row_draft n : draft (row_of n) = find_row n draftRows.
Proof. unfold row_of, find_row. by rewrite <- mget_by_name. Qed.

Lemma row_deleted n : isDraftDeleted (row_of n) = false ↔ (n ∈ (s_name <$> savedRows) → n ∈ (s_name <$> draftRows)).
Proof.
  rewrite <- !find_row_is_Some, <- row_saved, <- row_draft. cbn.
  destruct (mget n (by_name savedRows)), (mget n (by_name draftRows)); split; try done; intros H; by destruct (H ltac:(by eexists)).
Qed.

Lemma row_new n : isDraftNew (row_of n) = true ↔ n ∉ (s_name <$> savedRows) ∧ n ∈ (s_name <$> draftRows).
Proof.
  rewrite <- !find_row_is_Some, <- row_saved, <- row_draft. cbn.
  destruct (mget n (by_name savedRows)), (mget n (by_name draftRows)); cbn; split; intros H; naive_solver.
Qed.

Lemma row_changed n : Forall snapshot_units (savedRows ++ draftRows) →
  isDraftChanged (row_of n) = false ↔ same_content (saved (row_of n)) (draft (row_of n)).
Proof.
  rewrite Forall_app, !Forall_forall. intros [Hs Hd]. unfold row_of at 1. cbn [isDraftChanged model_row].
  rewrite negb_false_iff, bool_decide_eq_true. apply signature_content; intros x.
  - rewrite row_saved. intros [Hx _]%find_row_Some. by apply Hs.
  - rewrite row_draft. intros [Hx _]%find_row_Some. by apply Hd.
Qed.

Lemma elem_of_models lc r : r ∈ models lc savedRows draftRows mode candidates ↔
  ∃ n, r = row_of n ∧ n ∈ names ∧ isDraftDeleted r = false ∧ (mode = FilterUnset → isBasePricingUnset (saved r) = true).
Proof.
  unfold models. rewrite elem_of_sort_by, !list_elem_of_filter. fold row_of names. rewrite list_elem_of_fmap. destruct mode; naive_solver.
Qed.

Lemma models_names_NoDup lc : NoDup ((fun r => s_name (displayed r)) <$> models lc savedRows draftRows mode candidates).
Proof.
  assert (∃ l, Permutation (models lc savedRows draftRows mode candidates) l ∧ sublist l (row_of <$> names)) as (l & -> & Hl).
  { unfold models. eexists. split; [apply sort_by_perm|]. etrans; [apply sublist_filter|apply sublist_filter]. }
  eapply sublist_NoDup; [|by apply fmap_sublist]. rewrite <- list_fmap_compose.
  rewrite (list_fmap_ext _ id names); [|intros i n _; apply row_name]. rewrite list_fmap_id. unfold names. destruct mode; apply uniq_NoDup.
Qed.

Lemma elem_of_names n : n ∈ uniq (mkeys (by_name savedRows) ++ mkeys (by_name draftRows)) ↔ n ∈ (s_name <$> savedRows) ∨ n ∈ (s_name <$> draftRows).
Proof. by rewrite elem_of_uniq, elem_of_app, !elem_of_mkeys_by_name. Qed.

End RowSpec.

(** The rows of the table: one for each model of the draft, or, when models
    without a price are asked for, for each candidate that has none and was not
    deleted; each row pairs the saved prices of its model with the draft, is marked
    as new when only the draft has them, and as changed exactly when the two differ
    in some price, mode, expression or rule. *)
Theorem models_spec lc savedRows draftRows mode candidates :
  NoDup (s_name <$> savedRows) → NoDup (s_name <$> draftRows) → Forall snapshot_units (savedRows ++ draftRows) →
  let rows := models lc savedRows draftRows mode candidates in
  NoDup ((fun r => s_name (displayed r)) <$> rows)
  ∧ (∀ n, n ∈ ((fun r => s_name (displayed r)) <$> rows) ↔
       match mode with
       | FilterAll => n ∈ (s_name <$> draftRows)
       | FilterUnset => n ∈ candidates ∧ (n ∈ (s_name <$> savedRows) → n ∈ (s_name <$> draftRows)) ∧ isBasePricingUnset (find_row n savedRows) = true
       end)
  ∧ (∀ r, r ∈ rows → let n := s_name (displayed r) in
       saved r = find_row n savedRows ∧ draft r = find_row n draftRows
       ∧ (isDraftNew r = true ↔ n ∉ (s_name <$> savedRows) ∧ n ∈ (s_name <$> draftRows))
       ∧ (isDraftChanged r = false ↔ same_content (saved r) (draft r))).
Proof.
  intros Hs Hd Hu rows. split_and!; [apply models_names_NoDup| |].
  - intros n. rewrite list_elem_of_fmap. unfold rows; setoid_rewrite elem_of_models. split.
    + intros (r & -> & m & -> & Hn & Hdel & Hun). rewrite row_name. rewrite row_deleted in Hdel by done. rewrite row_saved in Hun by done.
      destruct mode; [rewrite elem_of_names in Hn by done; naive_solver|]. rewrite elem_of_uniq in Hn. auto.
    + intros Hn. eexists. split; [symmetry; apply row_name|]. exists n. split; [done|]. rewrite row_deleted, row_saved by done.
      destruct mode; [split_and!; [rewrite elem_of_names by done; auto|auto|done]|]. rewrite elem_of_uniq. naive_solver.
  - intros r (n & -> & _)%elem_of_models. cbv zeta. rewrite row_name.
    split_and!; [by apply row_saved|by apply row_draft|by apply row_new|by apply row_changed].
Qed.

(** ** Instances *)

(** A model with an input ratio of 1.25 and a completion ratio of 4 *)
Definition sample_data : ModelRatioData :=
  mkData (js "m") (fun f => match f with FRatio => js "1.25" | FCompletion => js "4" | _ => [] end) PerToken [] [].

Lemma sample_exact : exact_data sample_data.
Proof.
  cbn. exists (5 # 4)%Q. split_and!.
  - split; [by vm_compute|]. split; [by exists 125000000%Z|by vm_compute].
  - split; [by exists 250000000%Z|by vm_compute].
  - by vm_compute.
  - intros k _ Hk. destruct k; cbn in Hk |- *; try done. exists (4 # 1)%Q. split; [split; [by vm_compute|]|]; split; try (by vm_compute).
    + by exists 400000000%Z.
    + by exists 1000000000%Z.
  - done.
Qed.

Lemma panel_in_step_witness :
  let s := handleLanePriceChange LCompletion (js "20") (handlePromptPriceChange (js "5") (openPanel (Some sample_data))) in
  in_step s ∧ form_values s FRatio = js "2.5" ∧ form_values s FCompletion = js "4".
Proof.
  intros s. split_and!.
  - apply (panel_in_step (Some sample_data) s sample_exact). eapply steps_snoc; [|apply ps_lane; by vm_compute].
    eapply steps_snoc; [apply steps_refl|apply ps_prompt].
  - by vm_compute.
  - by vm_compute.
Defined.

(** Settings of two models, one with a fixed price *)
Definition sample_settings : Settings :=
  fun k => match k with
           | SNum FPrice => dq "{'m': 0.5}"
           | SNum FRatio => dq "{'n': 2}"
           | _ => js "{}"
           end.

Lemma sample_units : units_settings sample_settings.
Proof. intros k. unfold units. destruct k as [[]| |]; decided. Qed.

Lemma sample_records : ∀ k, is_record (sample_settings k).
Proof. intros k. by destruct k as [[]| |]; vm_compute. Qed.

(** The settings with one that holds an array *)
Definition array_settings : Settings := fun k => match k with SNum FRatio => js "[ ]" | k => sample_settings k end.

(** A setting of an outcome *)
Definition setting_of (r : outcome Settings) (k : Setting) : option jsstr := match r with Returns s => Some (s k) | Throws => None end.

Lemma persist_witness :
  (∃ s', persistPricingData sample_data [js "m"; js "o"] sample_settings = Returns s'
   ∧ (∀ k, is_record (s' k) ∧ ∀ n, mget n (members (s' k)) = if decide (n ∈ [js "m"; js "o"]) then entry sample_data k else enumerated <$> mget n (members (sample_settings k)))
   ∧ s' (SNum FRatio) = json_text 2 0 (JObj [(js "n", JNum (Fin 2%Q)); (js "m", JNum (Fin (5 # 4)%Q)); (js "o", JNum (Fin (5 # 4)%Q))]))
  ∧ ∃ s', persistPricingData sample_data [js "m"] array_settings = Returns s' ∧ s' (SNum FRatio) = js "[]".
Proof.
  split.
  - destruct (persist_spec sample_data [js "m"; js "o"] sample_settings) as (H & _);
      [split; constructor|repeat constructor; unfold units; decided|apply sample_units|].
    destruct (H sample_records) as (s' & E & Hs). exists s'. split_and!; [done..|]. apply (inj Some).
    change (setting_of (Returns s') (SNum FRatio) = Some (json_text 2 0 (JObj [(js "n", JNum (Fin 2%Q)); (js "m", JNum (Fin (5 # 4)%Q)); (js "o", JNum (Fin (5 # 4)%Q))]))).
    rewrite <- E. by vm_compute.
  - destruct (persist_spec sample_data [js "m"] array_settings) as (_ & _ & H);
      [split; constructor|repeat constructor; unfold units; decided|intros k; unfold units; destruct k as [[]| |]; decided|].
    assert (is_Some (setting_of (persistPricingData sample_data [js "m"] array_settings) SMode)) as Hr by (eexists; by vm_compute).
    destruct (persistPricingData sample_data [js "m"] array_settings) as [|s'] eqn:E; [by destruct Hr|]. exists s'. split; [done|].
    rewrite (H (SNum FRatio) [] s'); [by vm_compute|repeat constructor; by vm_compute|by vm_compute|done].
Defined.

Lemma saved_snapshot_witness :
  ∃ s', persistPricingData sample_data [js "m"] sample_settings = Returns s'
  ∧ same_outcome (snapshot s' (js "m")) (snapshot_of (js "m") (stored_values sample_data) JUndef JUndef).
Proof.
  assert (∀ f, numeral (d_values sample_data f)) as Hn.
  { intros f. destruct f; try (by left).
    - right. exists (5 # 4)%Q. split; [split; [done|exists 2; by exists 25%Z]|by vm_compute].
    - right. exists (4 # 1)%Q. split; [split; [done|exists 0; by exists 1%Z]|by vm_compute]. }
  destruct (saved_snapshot sample_data [js "m"] sample_settings (js "m")) as (s' & E & H & _);
    [split; constructor|repeat constructor; unfold units; decided|apply sample_units|apply sample_records|done|].
  exists s'. split; [done|]. apply H. constructor.
Defined.

(** A model with a fixed price is opened, the mode is switched to tokens and a price
    for input tokens is typed: the fixed price is saved, the ratio is not. *)
Definition fixed_data : ModelRatioData := mkData (js "m") (fun f => match f with FPrice => js "0.5" | _ => [] end) PerRequest [] [].

Lemma fixed_price_wins_witness :
  let p := handlePromptPriceChange (js "5") (handleModeChange PerToken (openPanel (Some fixed_data))) in
  form_values p FRatio = js "2.5"
  ∧ ∃ s', commitOpenEditor p sample_settings = Some (Returns s') ∧ mget (js "m") (members (s' (SNum FPrice))) = Some (JNum (Fin (1 # 2)%Q))
  ∧ mget (js "m") (members (s' (SNum FRatio))) = None.
Proof.
  intros p. split; [by vm_compute|].
  destruct (fixed_price_wins p sample_settings (JNum (Fin (1 # 2)%Q))) as (s' & E & H1 & H2 & _);
    [apply sample_units|apply sample_records|unfold units; decided|done|done|by vm_compute|].
  exists s'. split_and!; [done|exact H1|by apply (H2 FRatio)].
Defined.

Lemma models_spec_witness :
  let saved := [mkSnapshot (js "m") (d_values fixed_data) (js "per-request") [] [] false] in
  let draft := [mkSnapshot (js "m") (d_values sample_data) (js "per-token") [] [] false; mkSnapshot (js "n") (d_values sample_data) (js "per-token") [] [] false] in
  let rows := models (fun _ _ => 0%Z) saved draft FilterAll [] in
  (s_name ∘ displayed <$> rows) = [js "m"; js "n"] ∧ (∀ n, n ∈ (s_name ∘ displayed <$> rows) ↔ n ∈ (s_name <$> draft)) ∧ isDraftChanged <$> rows = [true; true].
Proof.
  intros saved draft rows. split_and!; [by vm_compute| |by vm_compute].
  apply (models_spec (fun _ _ => 0%Z) saved draft FilterAll []); [decided..|].
  repeat constructor; cbn; try (intros []); unfold units; decided.
Defined.

End ModelPricing.
