(* ===== verification/ParamOverride.v ===== *)
(** * Parameter overrides
    (src/web/src/features/channels/components/dialogs/param-override-editor-dialog.tsx,
    the functions above the components)

    A channel may override parameters of the requests it relays.  The overrides are a
    JSON text with a list of operations, or an object of the older format.  This file
    models how the text is read into operations, checked and printed again, with the
    drafts that the editor keeps inside the value of two kinds of operation. *)

From Stdlib Require Import QArith ZifyBool ZifyN.
From S2P Require Import Prelude JsString JsValue JsJson JsNumber JsonPrint BillingRules.
Import BillingRules.
Local Close Scope Q_scope.

Module ParamOverride.

(** ** Identifiers

    Every condition and operation gets an identifier of its own from a counter of the
    module.  Reading a property of null throws. *)

Definition fresh (A : Type) : Type := nat → outcome (A * nat).

#[global] Instance fresh_ret : MRet fresh := fun A a n => Returns (a, n).
#[global] Instance fresh_bind : MBind fresh := fun A B f m n =>
  match m n with Returns (a, n') => f a n' | Throws => Throws end.

Lemma bind_run {A B} (f : A → fresh B) (m : fresh A) n : (m ≫= f) n = match m n with Returns (a, n') => f a n' | Throws => Throws end.
Proof. done. Qed.

Section Fresh.
(** [Date.now()] when the identifier with this number is made *)
Context (now : nat → N).

Definition id_of (n : nat) : jsstr := js "po_" ++ str_of_N (now n) ++ [95%N] ++ str_of_N (N.of_nat n).

Definition nextLocalId : fresh jsstr := fun n => Returns (id_of n, S n).

(** [f(v)] for a function that reads properties of an object *)
Definition on_object {A} (v : jsval) (f : jsval → fresh A) : fresh A :=
  match v with JNull => fun _ => Throws | JUndef => f (JObj []) | v => f v end.

(** ** Data *)

Record ParamOverrideCondition := mkCondition {
  c_id : jsstr;
  c_path : jsstr;
  c_mode : jsstr;
  c_value_text : jsstr;
  c_invert : bool;
  c_pass_missing_key : bool
}.

Record ParamOverrideOperation := mkOperation {
  o_id : jsstr;
  description : jsstr;
  o_path : jsstr;
  o_mode : jsstr;
  o_from : jsstr;
  o_to : jsstr;
  o_value_text : jsstr;
  keep_origin : bool;
  logic : jsstr;
  conditions : list ParamOverrideCondition
}.

Definition OPERATION_MODE_VALUES : list jsstr := js <$> [
  "set"; "delete"; "append"; "prepend"; "copy"; "move"; "replace"; "regex_replace"; "trim_prefix"; "trim_suffix"; "ensure_prefix";
  "ensure_suffix"; "trim_space"; "to_lower"; "to_upper"; "return_error"; "prune_objects"; "pass_headers"; "sync_fields"; "set_header";
  "delete_header"; "copy_header"; "move_header"]%string.

Definition CONDITION_MODE_VALUES : list jsstr := js <$> ["full"; "prefix"; "suffix"; "contains"; "gt"; "gte"; "lt"; "lte"]%string.

(** What an operation of a mode has; [to] may be absent, true or false. *)
Record Meta := mkMeta { m_path : bool; pathOptional : bool; m_value : bool; m_from : bool; m_to : option bool; keepOrigin : bool; pathAlias : bool }.

Definition MODE_META : list (jsstr * Meta) := [
  (js "delete", mkMeta true false false false None false false);
  (js "set", mkMeta true false true false None true false);
  (js "append", mkMeta true false true false None true false);
  (js "prepend", mkMeta true false true false None true false);
  (js "copy", mkMeta false false false true (Some true) false false);
  (js "move", mkMeta false false false true (Some true) false false);
  (js "replace", mkMeta true false false true (Some false) false false);
  (js "regex_replace", mkMeta true false false true (Some false) false false);
  (js "trim_prefix", mkMeta true false true false None false false);
  (js "trim_suffix", mkMeta true false true false None false false);
  (js "ensure_prefix", mkMeta true false true false None false false);
  (js "ensure_suffix", mkMeta true false true false None false false);
  (js "trim_space", mkMeta true false false false None false false);
  (js "to_lower", mkMeta true false false false None false false);
  (js "to_upper", mkMeta true false false false None false false);
  (js "return_error", mkMeta false false true false None false false);
  (js "prune_objects", mkMeta false true true false None false false);
  (js "pass_headers", mkMeta false false true false None true false);
  (js "sync_fields", mkMeta false false false true (Some true) false false);
  (js "set_header", mkMeta true false true false None true false);
  (js "delete_header", mkMeta true false false false None false false);
  (js "copy_header", mkMeta false false false true (Some true) true true);
  (js "move_header", mkMeta false false false true (Some true) true true)].

(** [MODE_META[mode] || MODE_META.set] *)
Definition meta_of (mode : jsstr) : Meta := default (mkMeta true false true false None true false) (mget mode MODE_META).

Definition VALUE_REQUIRED_MODES : list jsstr := js <$> [
  "trim_prefix"; "trim_suffix"; "ensure_prefix"; "ensure_suffix"; "set_header"; "return_error"; "prune_objects"; "pass_headers"]%string.
Definition FROM_REQUIRED_MODES : list jsstr := js <$> ["copy"; "move"; "replace"; "regex_replace"; "copy_header"; "move_header"; "sync_fields"]%string.
Definition TO_REQUIRED_MODES : list jsstr := js <$> ["copy"; "move"; "copy_header"; "move_header"; "sync_fields"]%string.

Definition has (x : jsstr) (s : list jsstr) : bool := bool_decide (x ∈ s).

(** ** Values *)

(** Upper and lower case of the letters a to z.  The results are compared with words
    of such letters, to which no other letter is mapped. *)
Definition upper (s : jsstr) : jsstr := (fun c => if ((97 <=? c) && (c <=? 122))%N then (c - 32)%N else c) <$> s.
Definition lower (s : jsstr) : jsstr := (fun c => if ((65 <=? c) && (c <=? 90))%N then (c + 32)%N else c) <$> s.

Definition or_else (v d : jsval) : jsval := if truthy v then v else d.

Definition toValueText (value : jsval) : jsstr :=
  match value with JUndef => [] | JStr s => s | v => json_text 0 0 v end.

Definition parseLooseValue (valueText : jsstr) : jsval :=
  let raw := trim valueText in
  match raw with [] => JStr [] | _ => default (JStr raw) (JSON_parse raw) end.

Definition verifyJSON (text : jsstr) : bool := bool_decide (is_Some (JSON_parse text)).

(** [typeof v.k === 'string' ? v.k : ''] *)
Definition text_of (k : string) (v : jsval) : jsstr := str_field k v.

(** [MODES.has(v.mode) ? v.mode : d] *)
Definition mode_or (modes : list jsstr) (d : jsstr) (v : jsval) : jsstr :=
  match prop "mode" v with JStr m => if has m modes then m else d | _ => d end.

Definition normalizeCondition (condition : jsval) : fresh ParamOverrideCondition :=
  on_object condition (fun condition =>
    id ← nextLocalId;
    mret (mkCondition id (text_of "path" condition) (mode_or CONDITION_MODE_VALUES (js "full") condition) (toValueText (prop "value" condition))
      (is_true (prop "invert" condition)) (is_true (prop "pass_missing_key" condition)))).

Definition createDefaultCondition : fresh ParamOverrideCondition := normalizeCondition (JObj []).

(** [String(v || d).toUpperCase() === word] *)
Definition is_word (word d : jsstr) (v : jsval) : bool := bool_decide (upper (js_String (or_else v (JStr d))) = word).

Definition normalizeOperation (operation : jsval) : fresh ParamOverrideOperation :=
  on_object operation (fun operation =>
    id ← nextLocalId;
    conditions ← match prop "conditions" operation with JArr l => mapM normalizeCondition l | _ => mret [] end;
    mret (mkOperation id (text_of "description" operation) (text_of "path" operation) (mode_or OPERATION_MODE_VALUES (js "set") operation)
      (text_of "from" operation) (text_of "to" operation) (toValueText (prop "value" operation)) (is_true (prop "keep_origin" operation))
      (if is_word (js "AND") (js "OR") (prop "logic" operation) then js "AND" else js "OR") conditions)).

Definition createDefaultOperation : fresh ParamOverrideOperation := normalizeOperation (JObj [(js "mode", JStr (js "set"))]).

Inductive Position := Before | After.

#[global] Instance Position_dec : EqDecision Position.
Proof. solve_decision. Defined.

Definition find_op (id : jsstr) (ops : list ParamOverrideOperation) : option nat := fst <$> list_find (fun o => o_id o = id) ops.

Definition reorderOperations (ops : list ParamOverrideOperation) (sourceId targetId : jsstr) (position : Position) : list ParamOverrideOperation :=
  if negb (str_true sourceId) || negb (str_true targetId) || bool_decide (sourceId = targetId) then ops
  else
    match find_op sourceId ops with
    | None => ops
    | Some srcIdx =>
        match ops !! srcIdx with
        | None => ops
        | Some moved =>
            let next := take srcIdx ops ++ drop (S srcIdx) ops in
            match find_op targetId next with
            | None => ops
            | Some insertIdx =>
                let insertIdx := match position with After => insertIdx + 1 | Before => insertIdx end in
                take insertIdx next ++ moved :: drop insertIdx next
            end
        end
    end.

Definition blank (s : jsstr) : bool := negb (str_true (trim s)).

Definition isOperationBlank (o : ParamOverrideOperation) : bool :=
  let hasCondition := existsb (fun c => negb (blank (c_path c)) || negb (blank (c_value_text c)) || negb (bool_decide (c_mode c = js "full"))
                                        || c_invert c || c_pass_missing_key c) (conditions o) in
  bool_decide (o_mode o = js "set") && blank (o_path o) && blank (o_from o) && blank (o_to o) && blank (o_value_text o)
  && negb (keep_origin o) && negb hasCondition.

(** ** Targets of [sync_fields] *)

Record SyncTarget := mkTarget { t_type : jsstr; t_key : jsstr }.

Definition parseSyncTargetSpec (spec : jsstr) : SyncTarget :=
  let raw := trim spec in
  if str_true raw then
    match index_of [58%N] raw with
    | None => mkTarget (js "json") raw
    | Some idx =>
        let prefix := lower (trim (take idx raw)) in
        let key := trim (drop (idx + 1) raw) in
        if bool_decide (prefix = js "header") then mkTarget (js "header") key else mkTarget (js "json") key
    end
  else mkTarget (js "json") [].

Definition buildSyncTargetSpec (type key : jsstr) : jsstr :=
  let normalizedType := if bool_decide (type = js "header") then js "header" else js "json" in
  let normalizedKey := trim key in
  if str_true normalizedKey then normalizedType ++ [58%N] ++ normalizedKey else [].

(** ** The draft of [return_error] *)

(** [Number(s)] also reads hexadecimal, octal and binary numerals. *)
Definition radix_digits (base : N) (ds : jsstr) : option Z :=
  match ds with
  | [] => None
  | _ => foldl (fun acc c => acc ← acc; d ← hex_digit c; if (d <? base)%N then Some (acc * Z.of_N base + Z.of_N d)%Z else None) (Some 0%Z) ds
  end.

Definition Number_text (s : jsstr) : num :=
  match trim s with
  | 48%N :: c :: ds =>
      let read base := match radix_digits base ds with Some z => num_of_Z z | None => NaN end in
      if ((c =? 120) || (c =? 88))%N then read 16%N
      else if ((c =? 111) || (c =? 79))%N then read 8%N
      else if ((c =? 98) || (c =? 66))%N then read 2%N
      else Number_str s
  | _ => Number_str s
  end.

(** [Number(v)] *)
Definition Number_of (v : jsval) : num :=
  match v with
  | JUndef | JObj _ => NaN
  | JNull => num_of_Z 0
  | JBool b => num_of_Z (if b then 1 else 0)
  | JNum x => x
  | JStr s => Number_text s
  | JArr _ => Number_text (js_String v)
  end.

Record ReturnErrorDraft := mkReturnError {
  message : jsstr;
  statusCode : num;
  code : jsstr;
  type : jsstr;
  skipRetry : bool;
  simpleMode : bool
}.

Definition status_or (x : num) : num :=
  if num_isInteger x && num_leb (num_of_Z 100) x && num_leb x (num_of_Z 599) then x else num_of_Z 400.

Definition parseReturnErrorDraft (valueText : jsstr) : ReturnErrorDraft :=
  let raw := trim valueText in
  let plain_text m := mkReturnError m (num_of_Z 400) [] [] true true in
  match raw with
  | [] => plain_text []
  | _ =>
      match JSON_parse raw with
      | Some (JObj fs) =>
          let parsed := JObj fs in
          let statusRaw := match prop "status_code" parsed with JUndef => prop "status" parsed | v => v end in
          mkReturnError (trim (js_String (or_else (prop "message" parsed) (or_else (prop "msg" parsed) (JStr []))))) (status_or (Number_of statusRaw))
            (trim (js_String (or_else (prop "code" parsed) (JStr [])))) (trim (js_String (or_else (prop "type" parsed) (JStr []))))
            (match prop "skip_retry" parsed with JBool false => false | _ => true end) false
      | _ => plain_text raw
      end
  end.

(** [if (b) payload[k] = v] *)
Definition put (b : bool) (k : string) (v : jsval) (payload : list (jsstr * jsval)) : list (jsstr * jsval) :=
  if b then mset (js k) v payload else payload.

Definition buildReturnErrorValueText (draft : ReturnErrorDraft) : jsstr :=
  let message := trim (message draft) in
  if simpleMode draft then message
  else
    let payload := [(js "message", JStr message); (js "status_code", JNum (status_or (statusCode draft)))] in
    let code := trim (code draft) in
    let type := trim (type draft) in
    let payload := put (str_true code) "code" (JStr code) payload in
    let payload := put (str_true type) "type" (JStr type) payload in
    let payload := put (negb (skipRetry draft)) "skip_retry" (JBool false) payload in
    json_text 0 0 (JObj payload).

(** ** The draft of [prune_objects] *)

Record PruneRule := mkRule { r_id : jsstr; r_path : jsstr; r_mode : jsstr; r_value_text : jsstr; r_invert : bool; r_pass_missing_key : bool }.

Record PruneObjectsDraft := mkPrune { p_simpleMode : bool; typeText : jsstr; p_logic : jsstr; recursive : bool; rules : list PruneRule }.

Definition normalizePruneRule (rule : jsval) : fresh PruneRule :=
  on_object rule (fun rule =>
    id ← nextLocalId;
    mret (mkRule id (text_of "path" rule) (mode_or CONDITION_MODE_VALUES (js "full") rule) (toValueText (prop "value" rule))
      (is_true (prop "invert" rule)) (is_true (prop "pass_missing_key" rule)))).

(** [normalizePruneRule({ path, mode: 'full', value })] for the entries of an object *)
Definition rules_of_entries (fs : list (jsstr * jsval)) : fresh (list PruneRule) :=
  mapM (fun e => normalizePruneRule (JObj [(js "path", JStr e.1); (js "mode", JStr (js "full")); (js "value", e.2)])) (own_fields fs).

(** [String(v)] of an object throws when the object has its own [toString] or
    [valueOf]; such values are outside the model. *)
Definition parsePruneObjectsDraft (valueText : jsstr) : fresh PruneObjectsDraft :=
  let raw := trim valueText in
  let simple text := mret (mkPrune true text (js "AND") true []) in
  match raw with
  | [] => simple []
  | _ =>
      match JSON_parse raw with
      | None => simple raw
      | Some (JStr s) => simple (trim s)
      | Some (JObj fs) =>
          let parsed := JObj fs in
          where_rules ← match prop "where" parsed with JObj es => rules_of_entries es | _ => mret [] end;
          condition_rules ← match prop "conditions" parsed with
                            | JArr items => mapM normalizePruneRule (filter (fun i => truthy i && is_object i = true) items)
                            | JObj es => rules_of_entries es
                            | _ => mret []
                            end;
          mret (mkPrune
            (is_undef (prop "logic" parsed) && is_undef (prop "recursive" parsed) && is_undef (prop "where" parsed) && is_undef (prop "conditions" parsed))
            (match prop "type" parsed with JUndef => [] | v => trim (js_String v) end)
            (if is_word (js "OR") (js "AND") (prop "logic" parsed) then js "OR" else js "AND")
            (match prop "recursive" parsed with JBool false => false | _ => true end)
            (where_rules ++ condition_rules))
      | Some JNull => simple []
      | Some v => simple (trim (js_String v))
      end
  end.

Definition rule_payload (rule : PruneRule) : jsval :=
  let payload := [(js "path", JStr (trim (r_path rule))); (js "mode", JStr (if has (r_mode rule) CONDITION_MODE_VALUES then r_mode rule else js "full"))] in
  let valueRaw := trim (r_value_text rule) in
  let payload := put (str_true valueRaw) "value" (parseLooseValue valueRaw) payload in
  let payload := put (r_invert rule) "invert" (JBool true) payload in
  JObj (put (r_pass_missing_key rule) "pass_missing_key" (JBool true) payload).

Definition buildPruneObjectsValueText (draft : PruneObjectsDraft) : jsstr :=
  let typeText := trim (typeText draft) in
  if p_simpleMode draft then typeText
  else
    let payload := put (str_true typeText) "type" (JStr typeText) [] in
    let payload := put (bool_decide (upper (str_or (p_logic draft) (js "AND")) = js "OR")) "logic" (JStr (js "OR")) payload in
    let payload := put (negb (recursive draft)) "recursive" (JBool false) payload in
    let conditions := rule_payload <$> filter (fun r => blank (r_path r) = false) (rules draft) in
    let payload := put (negb (Nat.eqb (length conditions) 0)) "conditions" (JArr conditions) payload in
    if negb (str_true typeText) && Nat.eqb (length conditions) 0 then json_text 0 0 (JObj [(js "logic", JStr (js "AND"))])
    else json_text 0 0 (JObj payload).

(** ** Header names of [pass_headers] *)

Definition header_names (l : list jsval) : list jsstr :=
  filter (fun s => str_true s = true) ((fun i => trim (match i with JUndef | JNull => [] | v => js_String v end)) <$> l).

Definition parsePassHeaderNames (rawValue : jsval) : list jsstr :=
  match rawValue with
  | JArr l => header_names l
  | JObj fs =>
      match prop "headers" (JObj fs) with
      | JArr l => header_names l
      | _ =>
          match prop "header" (JObj fs) with
          | JUndef => []
          | v => header_names [v]
          end
      end
  | JStr s => filter (fun s => str_true s = true) (trim <$> split_on 44 s)
  | _ => []
  end.

(** ** Checking and printing *)

Definition buildConditionPayload (c : ParamOverrideCondition) : option jsval :=
  let path := trim (c_path c) in
  if str_true path then
    let payload := [(js "path", JStr path); (js "mode", JStr (str_or (c_mode c) (js "full"))); (js "value", parseLooseValue (c_value_text c))] in
    let payload := put (c_invert c) "invert" (JBool true) payload in
    Some (JObj (put (c_pass_missing_key c) "pass_missing_key" (JBool true) payload))
  else None.

Section Messages.
(** [t(key, { line })] *)
Context (t : jsstr → option nat → jsstr).

(** A JSON object without a message; plain text is allowed. *)
Definition no_message (raw : jsstr) : bool :=
  match JSON_parse raw with
  | Some (JObj fs) => negb (str_true (trim (js_String (or_else (prop "message" (JObj fs)) (JStr [])))))
  | _ => false
  end.

(** The checks of one operation in the order of the code: the message that is
    returned, or none *)
Definition check_operation (line : nat) (op : ParamOverrideOperation) : option jsstr :=
  let mode := str_or (o_mode op) (js "set") in
  let meta := meta_of mode in
  let pathValue := trim (o_path op) in
  let fromValue := trim (o_from op) in
  let toValue := trim (o_to op) in
  let raw := trim (o_value_text op) in
  let aliased := pathAlias meta && str_true pathValue in
  if m_path meta && negb (str_true pathValue) then Some (t (js "Rule {{line}} is missing target path") (Some line))
  else if has mode FROM_REQUIRED_MODES && negb (str_true fromValue) && negb aliased then Some (t (js "Rule {{line}} is missing source field") (Some line))
  else if has mode TO_REQUIRED_MODES && negb (str_true toValue) && negb aliased then Some (t (js "Rule {{line}} is missing target field") (Some line))
  else if has mode VALUE_REQUIRED_MODES && negb (str_true raw) then Some (t (js "Rule {{line}} is missing value") (Some line))
  else if bool_decide (mode = js "return_error") && negb (str_true raw) then Some (t (js "Rule {{line}} is missing value") (Some line))
  else if bool_decide (mode = js "return_error") && no_message raw then Some (t (js "Rule {{line}} return_error requires a message field") (Some line))
  else if bool_decide (mode = js "prune_objects") && negb (str_true raw) then Some (t (js "Rule {{line}} prune_objects is missing conditions") (Some line))
  else if bool_decide (mode = js "pass_headers") && negb (str_true raw) then Some (t (js "Rule {{line}} pass_headers is missing header names") (Some line))
  else if bool_decide (mode = js "pass_headers") && Nat.eqb (length (parsePassHeaderNames (parseLooseValue raw))) 0
  then Some (t (js "Rule {{line}} pass_headers format is invalid") (Some line))
  else None.

Fixpoint check_from (line : nat) (ops : list ParamOverrideOperation) : jsstr :=
  match ops with
  | [] => []
  | op :: ops => match check_operation line op with Some m => m | None => check_from (S line) ops end
  end.

Definition validateOperations (ops : list ParamOverrideOperation) : jsstr := check_from 1 ops.

Definition set_alias (k : string) (pathValue : jsstr) (payload : list (jsstr * jsval)) : list (jsstr * jsval) :=
  put (negb (truthy (prop k (JObj payload))) && str_true pathValue) k (JStr pathValue) payload.

Definition operation_payload (o : ParamOverrideOperation) : list (jsstr * jsval) :=
  let mode := str_or (o_mode o) (js "set") in
  let meta := meta_of mode in
  let descriptionValue := trim (description o) in
  let pathValue := trim (o_path o) in
  let fromValue := trim (o_from o) in
  let toValue := trim (o_to o) in
  let meta_to := bool_decide (m_to meta = Some true) in
  let payload := [(js "mode", JStr mode)] in
  let payload := put (str_true descriptionValue) "description" (JStr descriptionValue) payload in
  let payload := put (m_path meta) "path" (JStr pathValue) payload in
  let payload := put (pathOptional meta && str_true pathValue) "path" (JStr pathValue) payload in
  let payload := put (m_value meta) "value" (parseLooseValue (o_value_text o)) payload in
  let payload := put (keepOrigin meta && keep_origin o) "keep_origin" (JBool true) payload in
  let payload := put (m_from meta) "from" (JStr fromValue) payload in
  let payload := put (negb meta_to && str_true toValue) "to" (JStr toValue) payload in
  let payload := put meta_to "to" (JStr toValue) payload in
  let payload := if pathAlias meta then set_alias "to" pathValue (set_alias "from" pathValue payload) else payload in
  let conditions := omap buildConditionPayload (conditions o) in
  let some := negb (Nat.eqb (length conditions) 0) in
  let payload := put some "conditions" (JArr conditions) payload in
  put some "logic" (JStr (if bool_decide (logic o = js "AND") then js "AND" else js "OR")) payload.

(** A text, or an error with its message *)
Inductive result := Text (s : jsstr) | Failed (message : jsstr).

Definition operations_value (ops : list ParamOverrideOperation) : jsval := JObj [(js "operations", JArr ((fun o => JObj (operation_payload o)) <$> ops))].

Definition buildOperationsJson (sourceOperations : list ParamOverrideOperation) (validate : bool) : result :=
  let filteredOps := filter (fun o => isOperationBlank o = false) sourceOperations in
  match filteredOps with
  | [] => Text []
  | _ =>
      let message := if validate then validateOperations filteredOps else [] in
      if str_true message then Failed message else Text (json_text 2 0 (operations_value filteredOps))
  end.
End Messages.

(** ** Reading *)

Inductive EditMode := VisualEdit | JsonEdit.
Inductive VisualMode := Operations | Legacy.

#[global] Instance EditMode_dec : EqDecision EditMode.
Proof. solve_decision. Defined.
#[global] Instance VisualMode_dec : EqDecision VisualMode.
Proof. solve_decision. Defined.

Record EditorState := mkState {
  s_editMode : EditMode;
  s_visualMode : VisualMode;
  s_legacyValue : jsstr;
  s_operations : list ParamOverrideOperation;
  s_jsonText : jsstr;
  s_jsonError : jsstr
}.

(** The operations of a parsed text, or a default one *)
Definition read_operations (l : list jsval) : fresh (list ParamOverrideOperation) :=
  match l with
  | [] => o ← createDefaultOperation; mret [o]
  | _ => mapM normalizeOperation l
  end.

Definition parseInitialState (text : jsstr) : fresh EditorState :=
  let trimmed := trim text in
  match trimmed with
  | [] => o ← createDefaultOperation; mret (mkState VisualEdit Operations [] [o] [] [])
  | _ =>
      match JSON_parse trimmed with
      | None => o ← createDefaultOperation; mret (mkState JsonEdit Operations [] [o] text (js "Invalid JSON format"))
      | Some parsed =>
          let pretty := json_text 2 0 parsed in
          match parsed with
          | JObj _ =>
              match prop "operations" parsed with
              | JArr l => ops ← read_operations l; mret (mkState VisualEdit Operations [] ops pretty [])
              | _ => o ← createDefaultOperation; mret (mkState VisualEdit Legacy pretty [o] pretty [])
              end
          | _ => o ← createDefaultOperation; mret (mkState JsonEdit Operations [] [o] pretty [])
          end
      end
  end.

(** ** Identifiers are distinct *)

Lemma id_of_inj m n : id_of m = id_of n → m = n.
Proof.
  unfold id_of. intros E. apply app_inv_head in E. cbn [app] in E.
  assert (∀ k, 95%N ∉ str_of_N k) as Hd by (intros k; apply digits_no_char; [apply str_of_N_digits|done]).
  assert (split_on 95 (str_of_N (now m) ++ 95%N :: str_of_N (N.of_nat m)) = split_on 95 (str_of_N (now n) ++ 95%N :: str_of_N (N.of_nat n))) as E' by (by rewrite E).
  rewrite !split_on_app, !split_on_word in E' by done. injection E' as _ E'. apply (f_equal parse_digits) in E'. rewrite !parse_str_of_N in E'.
  injection E' as E'. lia.
Qed.

Lemma id_of_nonempty n : str_true (id_of n) = true.
Proof. done. Qed.

(** The identifiers that a computation has drawn *)
Definition drawn (n n' : nat) : list jsstr := id_of <$> seq n (n' - n).

Lemma drawn_app n m k : n ≤ m → m ≤ k → drawn n k = drawn n m ++ drawn m k.
Proof. intros H1 H2. unfold drawn. rewrite <- fmap_app. f_equal. replace (k - n) with ((m - n) + (k - m)) by lia. rewrite seq_app. do 2 f_equal. lia. Qed.

Lemma elem_of_drawn i n n' : i ∈ drawn n n' ↔ ∃ k, i = id_of k ∧ n ≤ k ∧ k < n'.
Proof. unfold drawn. rewrite list_elem_of_fmap. setoid_rewrite elem_of_seq. split; intros (k & H1 & H2); exists k; split; auto; lia. Qed.

Lemma drawn_NoDup n n' : NoDup (drawn n n').
Proof. unfold drawn. apply NoDup_fmap_2; [intros ?? H; by apply id_of_inj|apply NoDup_seq]. Qed.

Definition op_ids (o : ParamOverrideOperation) : list jsstr := o_id o :: (c_id <$> conditions o).

(** What a computation answers, and the identifiers it draws for the answer *)
Definition yields {A} (ids : A → list jsstr) (m : fresh A) (Q : A → Prop) : Prop :=
  ∀ n, ∃ a n', m n = Returns (a, n') ∧ n ≤ n' ∧ ids a = drawn n n' ∧ Q a.

Lemma yields_mono {A} (ids : A → list jsstr) m (P Q : A → Prop) : yields ids m P → (∀ a, P a → Q a) → yields ids m Q.
Proof. intros H HPQ n. destruct (H n) as (a & n' & H1 & H2 & H3 & H4). exists a, n'. auto. Qed.

Lemma yields_mapM {A B} (ids : B → list jsstr) (f : A → fresh B) (R : A → B → Prop) l :
  Forall (fun a => yields ids (f a) (R a)) l → yields (fun bs => bs ≫= ids) (mapM f l) (Forall2 R l).
Proof.
  induction 1 as [|a l Ha _ IH]; intros n.
  - exists [], n. split_and!; [done|lia|unfold drawn; by rewrite Nat.sub_diag|constructor].
  - destruct (Ha n) as (b & n1 & E1 & L1 & I1 & R1). destruct (IH n1) as (bs & n2 & E2 & L2 & I2 & R2). exists (b :: bs), n2.
    cbn [mapM]. rewrite bind_run, E1, bind_run, E2. split_and!; [done|lia| |by constructor].
    cbn [mbind list_bind]. change (ids b ++ (bs ≫= ids) = drawn n n2). rewrite I1, I2. symmetry. by apply drawn_app.
Qed.

(** ** What normalising gives *)

Definition erase_c (c : ParamOverrideCondition) : ParamOverrideCondition :=
  mkCondition [] (c_path c) (c_mode c) (c_value_text c) (c_invert c) (c_pass_missing_key c).
Definition erase (o : ParamOverrideOperation) : ParamOverrideOperation :=
  mkOperation [] (description o) (o_path o) (o_mode o) (o_from o) (o_to o) (o_value_text o) (keep_origin o) (logic o) (erase_c <$> conditions o).

Definition condition_of (v : jsval) : ParamOverrideCondition :=
  mkCondition [] (text_of "path" v) (mode_or CONDITION_MODE_VALUES (js "full") v) (toValueText (prop "value" v))
    (is_true (prop "invert" v)) (is_true (prop "pass_missing_key" v)).

Definition operation_of (v : jsval) : ParamOverrideOperation :=
  mkOperation [] (text_of "description" v) (text_of "path" v) (mode_or OPERATION_MODE_VALUES (js "set") v) (text_of "from" v) (text_of "to" v)
    (toValueText (prop "value" v)) (is_true (prop "keep_origin" v)) (if is_word (js "AND") (js "OR") (prop "logic" v) then js "AND" else js "OR")
    (match prop "conditions" v with JArr l => condition_of <$> l | _ => [] end).

(** Values that can be read as a condition or as an operation *)
Definition readable (v : jsval) : Prop := v ≠ JNull.
Definition operation_readable (v : jsval) : Prop := v ≠ JNull ∧ match prop "conditions" v with JArr l => Forall readable l | _ => True end.

Lemma normalizeCondition_yields v : readable v → yields (fun c => [c_id c]) (normalizeCondition v) (fun c => erase_c c = condition_of v).
Proof.
  intros Hv n. unfold readable in Hv. unfold normalizeCondition, on_object. assert (drawn n (S n) = [id_of n]) as Hd.
  { unfold drawn. by replace (S n - n) with 1 by lia. }
  destruct v; try done; (eexists _, (S n); split; [reflexivity|]; split_and!; [lia|by rewrite Hd|done]).
Qed.

Lemma normalizeOperation_yields v : operation_readable v → yields op_ids (normalizeOperation v) (fun o => erase o = operation_of v).
Proof.
  intros [Hv Hc] n. unfold normalizeOperation, on_object.
  assert (∀ w, (w = v ∨ v = JUndef ∧ w = JObj []) → ∃ (a : ParamOverrideOperation) (n' : nat),
    (id ← nextLocalId; conditions ← match prop "conditions" w with JArr l => mapM normalizeCondition l | _ => mret [] end;
     mret (mkOperation id (text_of "description" w) (text_of "path" w) (mode_or OPERATION_MODE_VALUES (js "set") w)
      (text_of "from" w) (text_of "to" w) (toValueText (prop "value" w)) (is_true (prop "keep_origin" w))
      (if is_word (js "AND") (js "OR") (prop "logic" w) then js "AND" else js "OR") conditions)) n = Returns (a, n')
    ∧ n ≤ n' ∧ op_ids a = drawn n n' ∧ erase a = operation_of v) as H.
  { intros w Hw. assert (operation_of w = operation_of v ∧ prop "conditions" w = prop "conditions" v) as [Eo Ec] by (destruct Hw as [->|[-> ->]]; done). rewrite <- Eo. clear Hw Eo.
    assert (yields (fun cs => cs ≫= (fun c => [c_id c])) (match prop "conditions" w with JArr l => mapM normalizeCondition l | _ => mret [] end)
             (fun cs => erase_c <$> cs = match prop "conditions" w with JArr l => condition_of <$> l | _ => [] end)) as Hy.
    { rewrite Ec. destruct (prop "conditions" v) as [| | | | |l|]; try (intros k; exists [], k; split_and!; [done|lia|unfold drawn; by rewrite Nat.sub_diag|done]).
      eapply yields_mono; [apply (yields_mapM _ _ (fun v c => erase_c c = condition_of v)); eapply Forall_impl; [exact Hc|]; apply normalizeCondition_yields|].
      cbn beta. clear. intros cs H2. induction H2 as [|? ? ? ? E _ IH]; [done|]. rewrite !fmap_cons. by rewrite E, IH. }
    destruct (Hy (S n)) as (cs & n' & E & L & I & R). eexists _, n'. rewrite bind_run. cbn [nextLocalId]. rewrite bind_run, E.
    split_and!; [reflexivity|lia| |].
    - unfold op_ids. cbn [o_id conditions]. rewrite (drawn_app n (S n) n') by lia. assert (drawn n (S n) = [id_of n]) as -> by (unfold drawn; by replace (S n - n) with 1 by lia).
      cbn [app]. f_equal. rewrite <- I. clear. induction cs as [|c cs IH]; [done|]. rewrite fmap_cons. cbn. by rewrite IH.
    - unfold erase, operation_of. cbn. by rewrite R. }
  destruct v; try done; apply H; auto.
Qed.

(** ** Members of what is printed *)

Lemma mget_put_eq k b v p : mget (js k) (put b k v p) = if b then Some v else mget (js k) p.
Proof. unfold put. destruct b; [apply mget_mset_eq|done]. Qed.

Lemma mget_put_ne k k' b v p : js k ≠ k' → mget k' (put b k v p) = mget k' p.
Proof. unfold put. intros H. destruct b; [by apply mget_mset_ne|done]. Qed.

Lemma mget_head (k : jsstr) (v : jsval) p : mget k ((k, v) :: p) = Some v.
Proof. cbn. by rewrite decide_True. Qed.

Lemma mget_next (k k' : jsstr) (v : jsval) p : k' ≠ k → mget k ((k', v) :: p) = mget k p.
Proof. intros H. cbn. by rewrite decide_False. Qed.

Lemma prop_mget k fs : prop k (JObj fs) = default JUndef (mget (js k) fs).
Proof. done. Qed.

Ltac look :=
  repeat first [rewrite mget_put_eq | rewrite mget_put_ne by decided | rewrite mget_head | rewrite mget_next by decided
               | match goal with |- context [mget ?k (@nil (list N * jsval))] => change (mget k (@nil (list N * jsval))) with (@None jsval) end].

(** Units of a literal *)
Ltac lit := unfold units; decided.

Lemma prop_enumerated k fs : NoDup (mkeys fs) → prop k (enumerated (JObj fs)) = default JUndef (enumerated <$> mget (js k) fs).
Proof.
  intros Hnd. cbn [enumerated]. rewrite prop_mget, own_fields_fmap, mget_fmap. do 2 f_equal. apply mget_perm; [|apply own_fields_perm].
  unfold mkeys in *. by rewrite own_fields_perm.
Qed.

Lemma plain_put b k v p : units (js k) → JsonPrint.plain v → plain_fields p → plain_fields (put b k v p).
Proof. intros Hk Hv Hp. unfold put. destruct b; [by apply plain_fields_mset|done]. Qed.

Lemma loose_plain s : units s → JsonPrint.plain (parseLooseValue s).
Proof.
  intros Hs. apply trim_units in Hs. unfold parseLooseValue. destruct (trim s) as [|c r] eqn:E; [constructor|].
  destruct (JSON_parse (c :: r)) as [v|] eqn:Ej; [|done]. cbn. by eapply JSON_parse_plain.
Qed.

(** Texts of the editor hold code units; modes are those of the menus. *)
Definition condition_ok (c : ParamOverrideCondition) : Prop := c_mode c ∈ CONDITION_MODE_VALUES ∧ units (c_path c) ∧ units (c_value_text c).
Definition operation_ok (o : ParamOverrideOperation) : Prop :=
  o_mode o ∈ OPERATION_MODE_VALUES ∧ units (description o) ∧ units (o_path o) ∧ units (o_from o) ∧ units (o_to o) ∧ units (o_value_text o)
  ∧ Forall condition_ok (conditions o).

(** A value as the editor shows it again *)
Definition shown_value (text : jsstr) : jsstr := toValueText (enumerated (parseLooseValue text)).

(** A condition and an operation as they are shown after saving and reopening *)
Definition shown_condition (c : ParamOverrideCondition) : option ParamOverrideCondition :=
  if str_true (trim (c_path c))
  then Some (mkCondition [] (trim (c_path c)) (c_mode c) (shown_value (c_value_text c)) (c_invert c) (c_pass_missing_key c))
  else None.

Definition shown (o : ParamOverrideOperation) : ParamOverrideOperation :=
  let meta := meta_of (o_mode o) in
  let path := trim (o_path o) in
  let alias s := if pathAlias meta && negb (str_true s) then path else s in
  let cs := omap shown_condition (conditions o) in
  mkOperation [] (trim (description o)) (if m_path meta || pathOptional meta then path else []) (o_mode o)
    (alias (if m_from meta then trim (o_from o) else [])) (alias (trim (o_to o)))
    (if m_value meta then shown_value (o_value_text o) else []) (keepOrigin meta && keep_origin o)
    (if bool_decide (cs ≠ []) && bool_decide (logic o = js "AND") then js "AND" else js "OR") cs.

Lemma units_mode m : m ∈ OPERATION_MODE_VALUES ∨ m ∈ CONDITION_MODE_VALUES → units m ∧ m ≠ [].
Proof.
  assert (Forall (fun m => Forall (fun c => c < 65536)%N m ∧ m ≠ []) (OPERATION_MODE_VALUES ++ CONDITION_MODE_VALUES)) as H by decided.
  rewrite Forall_forall in H. intros Hm. apply H, elem_of_app. done.
Qed.

(** ** Conditions *)

Definition condition_fields (c : ParamOverrideCondition) : list (jsstr * jsval) :=
  put (c_pass_missing_key c) "pass_missing_key" (JBool true)
    (put (c_invert c) "invert" (JBool true)
      [(js "path", JStr (trim (c_path c))); (js "mode", JStr (str_or (c_mode c) (js "full"))); (js "value", parseLooseValue (c_value_text c))]).

Lemma buildConditionPayload_eq c : buildConditionPayload c = if str_true (trim (c_path c)) then Some (JObj (condition_fields c)) else None.
Proof. done. Qed.

Lemma condition_fields_plain c : condition_ok c → plain_fields (condition_fields c).
Proof.
  intros (Hm & Hp & Hv). destruct (units_mode _ (or_intror Hm)) as [Hu Hne]. unfold condition_fields.
  do 2 (apply plain_put; [lit|done|]). rewrite str_or_id by done. split; [change (NoDup [js "path"; js "mode"; js "value"]); decided|].
  repeat apply Forall_cons_2; cbn [fst snd]; [split; [lit|by apply trim_units]|split; [lit|done]|split; [lit|by apply loose_plain]|constructor].
Qed.

Lemma plain_fields_NoDup fs : plain_fields fs → NoDup (mkeys fs).
Proof. by intros [H _]. Qed.

Lemma condition_of_payload c : condition_ok c → str_true (trim (c_path c)) = true →
  shown_condition c = Some (condition_of (enumerated (JObj (condition_fields c)))).
Proof.
  intros Hc Hp. unfold shown_condition. rewrite Hp. f_equal. pose proof (plain_fields_NoDup _ (condition_fields_plain c Hc)) as Hnd. destruct Hc as (Hm & _ & _).
  destruct (units_mode _ (or_intror Hm)) as [_ Hne]. unfold condition_of, text_of, str_field, mode_or. rewrite !prop_enumerated by done. unfold condition_fields. look.
  rewrite str_or_id by done. cbn [fmap option_fmap option_map default from_option id enumerated]. unfold has. rewrite bool_decide_true by done.
  f_equal; [by destruct (c_invert c)|by destruct (c_pass_missing_key c)].
Qed.

(** ** Operations *)

Lemma meta_fact (P : Meta → Prop) : P (meta_of (js "set")) → Forall P (snd <$> MODE_META) → ∀ m, P (meta_of m).
Proof.
  intros Hs Hf m. unfold meta_of. destruct (mget m MODE_META) as [x|] eqn:E; [|exact Hs]. rewrite Forall_fmap, Forall_forall in Hf.
  apply mget_Some_elem in E. apply (Hf _ E).
Qed.

#[local] Instance Meta_dec : EqDecision Meta.
Proof. solve_decision. Defined.

Lemma meta_alias m : pathAlias (meta_of m) = true → m_from (meta_of m) = true ∧ m_to (meta_of m) = Some true ∧ pathOptional (meta_of m) = false.
Proof.
  apply (meta_fact (fun x => pathAlias x = true → m_from x = true ∧ m_to x = Some true ∧ pathOptional x = false)); [done|].
  unfold MODE_META. cbn. repeat constructor; done.
Qed.

Section Payload.
Context (o : ParamOverrideOperation) (Ho : operation_ok o).

Let meta := meta_of (o_mode o).
Let cs := omap buildConditionPayload (conditions o).
Let some := negb (Nat.eqb (length cs) 0).

(** The payload before aliases and conditions *)
Definition direct_fields : list (jsstr * jsval) :=
  let meta := meta_of (o_mode o) in
  let meta_to := bool_decide (m_to meta = Some true) in
  put meta_to "to" (JStr (trim (o_to o)))
   (put (negb meta_to && str_true (trim (o_to o))) "to" (JStr (trim (o_to o)))
    (put (m_from meta) "from" (JStr (trim (o_from o)))
     (put (keepOrigin meta && keep_origin o) "keep_origin" (JBool true)
      (put (m_value meta) "value" (parseLooseValue (o_value_text o))
       (put (pathOptional meta && str_true (trim (o_path o))) "path" (JStr (trim (o_path o)))
        (put (m_path meta) "path" (JStr (trim (o_path o)))
         (put (str_true (trim (description o))) "description" (JStr (trim (description o))) [(js "mode", JStr (o_mode o))]))))))).

Lemma operation_payload_eq : operation_payload o =
  put some "logic" (JStr (if bool_decide (logic o = js "AND") then js "AND" else js "OR"))
   (put some "conditions" (JArr cs)
     (if pathAlias meta then set_alias "to" (trim (o_path o)) (set_alias "from" (trim (o_path o)) direct_fields) else direct_fields)).
Proof. unfold operation_payload. destruct Ho as (Hm & _). destruct (units_mode _ (or_introl Hm)) as [_ Hne]. by rewrite str_or_id. Qed.

Lemma conditions_plain : Forall JsonPrint.plain cs.
Proof.
  destruct Ho as (_ & _ & _ & _ & _ & _ & Hc). unfold cs. clear cs some. induction Hc as [|c l Hc _ IH]; [constructor|]. cbn [omap list_omap].
  rewrite buildConditionPayload_eq. destruct (str_true _); [|exact IH]. constructor; [|exact IH]. apply plain_obj. by apply condition_fields_plain.
Qed.

Lemma direct_fields_plain : plain_fields direct_fields.
Proof.
  destruct Ho as (Hm & Hd & Hp & Hf & Ht & Hv & _). destruct (units_mode _ (or_introl Hm)) as [Hu _]. unfold direct_fields. cbv zeta.
  repeat (apply plain_put; [lit|first [done|by apply trim_units|by apply loose_plain]|]).
  split; [apply NoDup_singleton|]. apply Forall_singleton. split; [lit|done].
Qed.

Lemma operation_payload_plain : plain_fields (operation_payload o).
Proof.
  rewrite operation_payload_eq. apply plain_put; [lit|case_bool_decide; lit|]. apply plain_put; [lit|apply plain_arr, conditions_plain|].
  assert (units (trim (o_path o))) as Hp by (by apply trim_units; destruct Ho as (_ & _ & ? & _)).
  destruct (pathAlias meta); [|apply direct_fields_plain]. unfold set_alias at 1. apply plain_put; [lit|done|]. apply plain_put; [lit|done|]. apply direct_fields_plain.
Qed.

Lemma shown_conditions : condition_of ∘ enumerated <$> cs = omap shown_condition (conditions o).
Proof.
  destruct Ho as (_ & _ & _ & _ & _ & _ & Hc). unfold cs. clear cs some. induction Hc as [|c l Hc _ IH]; [done|]. cbn [omap list_omap].
  rewrite buildConditionPayload_eq. destruct (str_true (trim (c_path c))) eqn:E.
  - rewrite (condition_of_payload c Hc E). rewrite fmap_cons, IH. done.
  - assert (shown_condition c = None) as -> by (unfold shown_condition; by rewrite E). exact IH.
Qed.

Lemma some_shown : some = bool_decide (omap shown_condition (conditions o) ≠ []).
Proof. rewrite <- shown_conditions. unfold some. by destruct cs. Qed.

(** Aliases, conditions and the logic touch their own members only. *)
Lemma payload_direct k : js "from" ≠ k → js "to" ≠ k → js "conditions" ≠ k → js "logic" ≠ k → mget k (operation_payload o) = mget k direct_fields.
Proof.
  intros H1 H2 H3 H4. rewrite operation_payload_eq, !mget_put_ne by done. destruct (pathAlias meta); [|done]. unfold set_alias at 1.
  rewrite mget_put_ne by done. unfold set_alias. by rewrite mget_put_ne.
Qed.

Definition aliased (s : jsstr) : jsstr := if pathAlias meta && negb (str_true s) then trim (o_path o) else s.

Lemma payload_from : str_field "from" (enumerated (JObj (operation_payload o))) = aliased (if m_from meta then trim (o_from o) else []).
Proof.
  unfold str_field. rewrite prop_enumerated by apply plain_fields_NoDup, operation_payload_plain. rewrite operation_payload_eq. look. unfold aliased.
  pose proof (meta_alias (o_mode o)) as Ha. fold meta in Ha. destruct (pathAlias meta).
  - destruct (Ha eq_refl) as (Hf & _ & _). rewrite Hf. unfold set_alias at 1. look. unfold set_alias. look. rewrite prop_mget. unfold direct_fields. look. fold meta. rewrite Hf.
    cbn. destruct (trim (o_from o)), (trim (o_path o)); done.
  - unfold direct_fields. look. fold meta. by destruct (m_from meta).
Qed.

Lemma payload_to : str_field "to" (enumerated (JObj (operation_payload o))) = aliased (trim (o_to o)).
Proof.
  unfold str_field. rewrite prop_enumerated by apply plain_fields_NoDup, operation_payload_plain. rewrite operation_payload_eq. look. unfold aliased.
  pose proof (meta_alias (o_mode o)) as Ha. fold meta in Ha. destruct (pathAlias meta).
  - destruct (Ha eq_refl) as (_ & Ht & _). unfold set_alias at 1. look. unfold set_alias. rewrite prop_mget. look. unfold direct_fields. look. fold meta. rewrite Ht.
    cbn. destruct (trim (o_to o)), (trim (o_path o)); done.
  - unfold direct_fields. look. fold meta. destruct (bool_decide _); [done|]. cbn. by destruct (trim (o_to o)).
Qed.

Lemma payload_logic : is_word (js "AND") (js "OR") (prop "logic" (enumerated (JObj (operation_payload o)))) = some && bool_decide (logic o = js "AND").
Proof.
  rewrite prop_enumerated by apply plain_fields_NoDup, operation_payload_plain. rewrite operation_payload_eq. look. destruct some.
  - case_bool_decide; by vm_compute.
  - destruct (pathAlias meta); [unfold set_alias at 1; look; unfold set_alias; look|]; unfold direct_fields; look; by vm_compute.
Qed.

Lemma payload_conditions : prop "conditions" (enumerated (JObj (operation_payload o))) = if some then JArr (enumerated <$> cs) else JUndef.
Proof.
  rewrite prop_enumerated by apply plain_fields_NoDup, operation_payload_plain. rewrite operation_payload_eq. look. destruct some; [done|].
  destruct (pathAlias meta); [unfold set_alias at 1; look; unfold set_alias; look|]; unfold direct_fields; by look.
Qed.

(** Reading what is printed gives what is shown. *)
Lemma operation_of_payload : operation_of (enumerated (JObj (operation_payload o))) = shown o.
Proof.
  unfold operation_of, text_of. rewrite payload_from, payload_to, payload_logic, payload_conditions.
  unfold str_field, mode_or. rewrite !prop_enumerated by apply plain_fields_NoDup, operation_payload_plain. rewrite !payload_direct by decided.
  unfold direct_fields. look. fold meta. unfold shown, aliased. fold meta. destruct Ho as (Hm & _). rewrite <- some_shown.
  cbn [fmap option_fmap option_map default from_option id enumerated]. unfold has. rewrite bool_decide_true by done. f_equal.
  - by destruct (trim (description o)).
  - destruct (m_path meta), (pathOptional meta), (trim (o_path o)); done.
  - by destruct (m_value meta).
  - by destruct (keepOrigin meta), (keep_origin o).
  - rewrite <- shown_conditions. destruct some eqn:E; [by rewrite list_fmap_compose|]. unfold some in E. by destruct cs.
Qed.

Lemma payload_readable : operation_readable (enumerated (JObj (operation_payload o))).
Proof.
  split; [done|]. rewrite payload_conditions. destruct some; [|done]. apply Forall_fmap. pose proof conditions_plain as Hp. fold cs in Hp.
  apply Forall_forall. intros v Hv. unfold cs in Hv. apply list_elem_of_omap in Hv as (c & _ & Hc). rewrite buildConditionPayload_eq in Hc.
  destruct (str_true _); [|done]. by injection Hc as <-.
Qed.
End Payload.

(** ** Saving and reopening *)

Definition saved_ops (ops : list ParamOverrideOperation) : list ParamOverrideOperation := filter (fun o => isOperationBlank o = false) ops.

Lemma saved_ops_ok ops : Forall operation_ok ops → Forall operation_ok (saved_ops ops).
Proof. rewrite !Forall_forall. intros H o [_ Ho]%list_elem_of_filter. by apply H. Qed.

Lemma operations_value_plain ops : Forall operation_ok ops → JsonPrint.plain (operations_value ops).
Proof.
  intros H. apply plain_obj. split; [apply NoDup_singleton|]. apply Forall_singleton. split; [lit|]. apply plain_arr, Forall_fmap.
  eapply Forall_impl; [exact H|]. intros o Ho. apply plain_obj. by apply operation_payload_plain.
Qed.

Definition is_object_with_operations (v : jsval) (l : list jsval) : Prop := ∃ fs, v = JObj fs ∧ prop "operations" v = JArr l.

Lemma operations_value_read ops : is_object_with_operations (enumerated (operations_value ops)) ((fun o => enumerated (JObj (operation_payload o))) <$> ops).
Proof.
  eexists. split; [reflexivity|]. unfold operations_value. rewrite prop_enumerated by apply NoDup_singleton. look. cbn [fmap option_fmap option_map default from_option id enumerated].
  f_equal. by rewrite <- list_fmap_compose.
Qed.

(** Opening a text with operations *)
Lemma open_operations text v l : JSON_parse (trim text) = Some v → is_object_with_operations v l → l ≠ [] → Forall operation_readable l →
  yields (fun st => s_operations st ≫= op_ids) (parseInitialState text)
    (fun st => s_editMode st = VisualEdit ∧ s_visualMode st = Operations ∧ s_legacyValue st = [] ∧ s_jsonText st = json_text 2 0 v ∧ s_jsonError st = []
               ∧ erase <$> s_operations st = operation_of <$> l).
Proof.
  intros Hj (fs & -> & Hp) Hl Hr n. unfold parseInitialState. cbv zeta. assert (trim text ≠ []) as Hne by (intros E; rewrite E in Hj; by vm_compute in Hj).
  destruct (trim text) as [|c r]; [done|]. rewrite Hj, Hp. rewrite bind_run. unfold read_operations.
  assert (yields (fun os => os ≫= op_ids) (mapM normalizeOperation l) (Forall2 (fun v o => erase o = operation_of v) l)) as Hy.
  { apply yields_mapM. eapply Forall_impl; [exact Hr|]. apply normalizeOperation_yields. }
  destruct l as [|x l]; [done|]. destruct (Hy n) as (os & n' & E & L & I & R). rewrite E. eexists _, n'. split; [reflexivity|]. split_and!; try done.
  cbn [s_operations]. clear -R. induction R as [|? ? ? ? E _ IH]; [done|]. by rewrite !fmap_cons, E, IH.
Qed.

Section Save.
Context (t : jsstr → option nat → jsstr).

Lemma build_text ops validate text : buildOperationsJson t ops validate = Text text →
  text = match saved_ops ops with [] => [] | _ => json_text 2 0 (operations_value (saved_ops ops)) end
  ∧ (validate = true → validateOperations t (saved_ops ops) = []).
Proof.
  unfold buildOperationsJson. cbv zeta. fold (saved_ops ops). destruct (saved_ops ops) as [|o os]; [by intros [= <-]|].
  destruct (str_true _) eqn:E; [done|]. intros [= <-]. split; [done|]. intros ->. by apply str_true_false in E.
Qed.

Lemma reopened ops : Forall operation_ok ops → saved_ops ops ≠ [] →
  let text := json_text 2 0 (operations_value (saved_ops ops)) in
  yields (fun st => s_operations st ≫= op_ids) (parseInitialState text)
    (fun st => s_editMode st = VisualEdit ∧ s_visualMode st = Operations ∧ s_jsonText st = text ∧ s_jsonError st = []
               ∧ erase <$> s_operations st = shown <$> saved_ops ops).
Proof.
  intros Hok Hne text. apply saved_ops_ok in Hok. pose proof (operations_value_plain _ Hok) as Hp.
  assert (Forall operation_readable ((fun o => enumerated (JObj (operation_payload o))) <$> saved_ops ops)) as Hr.
  { apply Forall_fmap. eapply Forall_impl; [exact Hok|]. intros o' Ho'. by apply payload_readable. }
  eapply yields_mono; [apply (open_operations text (enumerated (operations_value (saved_ops ops))) _
    ltac:(by unfold text; rewrite json_text_trim, JSON_parse_text) (operations_value_read _) ltac:(by intros H; apply fmap_nil_inv in H) Hr)|].
  intros st (H1 & H2 & _ & H4 & H5 & H6). split_and!; try done; [by rewrite H4, json_text_enumerated|]. rewrite H6, <- list_fmap_compose. apply list_fmap_ext. intros i o' Ho'.
  apply list_elem_of_lookup_2 in Ho'. rewrite Forall_forall in Hok. by apply operation_of_payload, Hok.
Qed.

(** C26. Saving and reopening: nothing is saved exactly when every operation is blank;
    otherwise the text opens in the visual editor with one operation for each that is
    not blank, in the same order and with the same mode, its texts trimmed, without
    what its mode does not use, its path standing in for a missing source or target of
    a header, its value as it reads after parsing, and its conditions that have a
    path; the text itself is unchanged. *)
Theorem save_reopen ops validate text n : Forall operation_ok ops → buildOperationsJson t ops validate = Text text →
  (text = [] ↔ saved_ops ops = [])
  ∧ (text ≠ [] → ∃ st n', parseInitialState text n = Returns (st, n')
       ∧ s_editMode st = VisualEdit ∧ s_visualMode st = Operations ∧ s_jsonText st = text ∧ s_jsonError st = []
       ∧ erase <$> s_operations st = shown <$> saved_ops ops).
Proof.
  intros Hok Hb. apply build_text in Hb as [-> _]. pose proof (reopened ops Hok) as Hr. pose proof (operations_value_plain _ (saved_ops_ok _ Hok)) as Hp.
  destruct (saved_ops ops) as [|o os] eqn:Es; [done|]. rewrite <- Es in *. split; [split; [intros E; by destruct (json_text_nonempty 2 _ Hp)|by rewrite Es]|].
  intros _. destruct (Hr ltac:(by rewrite Es) n) as (st & n' & E & _ & _ & H). by exists st, n'.
Qed.

(** ** What the checks demand *)

Definition complete (o : ParamOverrideOperation) : Prop :=
  let meta := meta_of (o_mode o) in
  let aliased := pathAlias meta = true ∧ trim (o_path o) ≠ [] in
  (m_path meta = true → trim (o_path o) ≠ [])
  ∧ (o_mode o ∈ FROM_REQUIRED_MODES → trim (o_from o) ≠ [] ∨ aliased)
  ∧ (o_mode o ∈ TO_REQUIRED_MODES → trim (o_to o) ≠ [] ∨ aliased)
  ∧ (o_mode o ∈ VALUE_REQUIRED_MODES → trim (o_value_text o) ≠ [])
  ∧ (o_mode o = js "return_error" → no_message (trim (o_value_text o)) = false)
  ∧ (o_mode o = js "pass_headers" → parsePassHeaderNames (parseLooseValue (trim (o_value_text o))) ≠ []).

(** Translations are not empty. *)
Context (Ht : ∀ key line, key ≠ [] → t key line ≠ []).

Lemma guard (b : bool) (x : jsstr) (y : option jsstr) : (if b then Some x else y) = None ↔ b = false ∧ y = None.
Proof. destruct b; naive_solver. Qed.

Lemma message_nonempty line o m : check_operation t line o = Some m → m ≠ [].
Proof. unfold check_operation. cbv zeta. repeat case_match; try done; intros [= <-]; apply Ht; decided. Qed.

Lemma check_complete line o : o_mode o ∈ OPERATION_MODE_VALUES → check_operation t line o = None ↔ complete o.
Proof.
  intros Hm. destruct (units_mode _ (or_introl Hm)) as [_ Hne]. unfold check_operation, complete, has. rewrite str_or_id by done. cbv zeta.
  assert (∀ s, str_true s = bool_decide (s ≠ [])) as Hs by (by intros []). rewrite !Hs.
  assert (∀ l : list jsstr, Nat.eqb (length l) 0 = bool_decide (l = [])) as Hl by (by intros []). rewrite Hl.
  assert (js "return_error" ∈ VALUE_REQUIRED_MODES ∧ js "prune_objects" ∈ VALUE_REQUIRED_MODES ∧ js "pass_headers" ∈ VALUE_REQUIRED_MODES) as (V1 & V2 & V3) by decided.
  rewrite !guard. generalize (parsePassHeaderNames (parseLooseValue (trim (o_value_text o)))), (no_message (trim (o_value_text o))). intros names nm.
  rewrite !andb_false_iff, !negb_false_iff, !andb_true_iff, !bool_decide_eq_true, !bool_decide_eq_false.
  generalize dependent (trim (o_path o)). generalize (trim (o_from o)), (trim (o_to o)), (trim (o_value_text o)), (meta_of (o_mode o)). intros from to value meta path.
  generalize (pathAlias meta = true ∧ path ≠ []). intros alias. split.
  - intros (H1 & H2 & H3 & H4 & _ & H6 & _ & _ & H9 & _). split_and!; intros E.
    + destruct H1; [congruence|done].
    + destruct H2 as [[?|?]|?]; auto.
    + destruct H3 as [[?|?]|?]; auto.
    + by destruct H4.
    + by destruct H6.
    + by destruct H9.
  - intros (H1 & H2 & H3 & H4 & H5 & H6). split_and!; try done.
    + destruct (m_path meta); auto.
    + destruct (decide (o_mode o ∈ FROM_REQUIRED_MODES)) as [E|E]; [destruct (H2 E)|]; auto.
    + destruct (decide (o_mode o ∈ TO_REQUIRED_MODES)) as [E|E]; [destruct (H3 E)|]; auto.
    + destruct (decide (o_mode o ∈ VALUE_REQUIRED_MODES)); auto.
    + destruct (decide (o_mode o = js "return_error")) as [E|E]; [|auto]. rewrite E in H4. auto.
    + destruct (decide (o_mode o = js "return_error")); auto.
    + destruct (decide (o_mode o = js "prune_objects")) as [E|E]; [|auto]. rewrite E in H4. auto.
    + destruct (decide (o_mode o = js "pass_headers")) as [E|E]; [|auto]. rewrite E in H4. auto.
    + destruct (decide (o_mode o = js "pass_headers")); auto.
Qed.

(** The first operation that is not complete, with its line *)
Definition first_incomplete (line : nat) (ops : list ParamOverrideOperation) (m : jsstr) : Prop :=
  ∃ i o, ops !! i = Some o ∧ Forall complete (take i ops) ∧ ¬ complete o ∧ check_operation t (line + i) o = Some m.

Lemma check_from_spec line ops : Forall (fun o => o_mode o ∈ OPERATION_MODE_VALUES) ops →
  (check_from t line ops = [] → Forall complete ops) ∧ (check_from t line ops ≠ [] → first_incomplete line ops (check_from t line ops)).
Proof using Ht.
  clear now.
  intros Hm. revert line. induction Hm as [|o ops Ho _ IH]; intros line; [by split; [constructor|]|]. cbn [check_from].
  pose proof (check_complete line o Ho) as Hc. destruct (check_operation t line o) as [m|] eqn:E.
  - split; [intros ->; by apply message_nonempty in E|]. intros _. exists 0, o. split_and!; [done|constructor|by intros H; apply Hc in H|]. by rewrite Nat.add_0_r.
  - assert (complete o) as Hco by (by apply Hc). destruct (IH (S line)) as [H1 H2]. split; [intros Hn; constructor; auto|].
    intros Hn. destruct (H2 Hn) as (i & o' & Hi & Hf & Hno & Em). exists (S i), o'. split_and!; [done|by constructor|done|]. rewrite <- Em. f_equal. lia.
Qed.

(** What the server can rely on in a saved operation *)
Definition well_formed (v : jsval) : Prop :=
  let mode := str_field "mode" v in
  mode ∈ OPERATION_MODE_VALUES
  ∧ (m_path (meta_of mode) = true → str_field "path" v ≠ [])
  ∧ (mode ∈ FROM_REQUIRED_MODES → str_field "from" v ≠ [])
  ∧ (mode ∈ TO_REQUIRED_MODES → str_field "to" v ≠ [])
  ∧ (m_value (meta_of mode) = true → prop "value" v ≠ JUndef).

Lemma from_modes m : m ∈ FROM_REQUIRED_MODES → m_from (meta_of m) = true.
Proof. intros Hm. assert (Forall (fun m => m_from (meta_of m) = true) FROM_REQUIRED_MODES) as H by decided. rewrite Forall_forall in H. by apply H. Qed.

Lemma enumerated_undef v : enumerated v = JUndef → v = JUndef.
Proof. by destruct v. Qed.

Lemma payload_well_formed o : operation_ok o → complete o → well_formed (enumerated (JObj (operation_payload o))).
Proof.
  intros Ho (H1 & H2 & H3 & _). pose proof (plain_fields_NoDup _ (operation_payload_plain o Ho)) as Hnd. unfold well_formed.
  assert (str_field "mode" (enumerated (JObj (operation_payload o))) = o_mode o) as ->.
  { unfold str_field. rewrite prop_enumerated by done. rewrite payload_direct by (done || decided). unfold direct_fields. by look. }
  rewrite payload_from, payload_to by done. unfold aliased. split_and!.
  - by destruct Ho.
  - intros Hp. unfold str_field. rewrite prop_enumerated by done. rewrite payload_direct by (done || decided). unfold direct_fields. look. rewrite Hp.
    destruct (pathOptional _ && _); cbn; auto.
  - intros Hf. rewrite (from_modes _ Hf). destruct (H2 Hf) as [E|[-> E]]; [by destruct (trim (o_from o)); rewrite ?andb_false_r|by destruct (trim (o_from o))].
  - intros Hf. destruct (H3 Hf) as [E|[-> E]]; [by destruct (trim (o_to o)); rewrite ?andb_false_r|by destruct (trim (o_to o))].
  - intros Hv. rewrite prop_enumerated by done. rewrite payload_direct by (done || decided). unfold direct_fields. look. rewrite Hv. cbn.
    intros E. apply enumerated_undef in E. destruct Ho as (_ & _ & _ & _ & _ & Hu & _). apply loose_plain in Hu. by rewrite E in Hu.
Qed.

(** C27. The checks before saving: they fail exactly when some operation lacks what its
    mode needs, with the message and the line of the first such operation; and the
    operations of a text that is saved all have a known mode, a path where the mode
    has one, a source and a target where it needs them, and a value where it has one. *)
Theorem validated_spec ops : Forall operation_ok ops →
  match buildOperationsJson t ops true with
  | Failed m => first_incomplete 1 (saved_ops ops) m
  | Text text => Forall complete (saved_ops ops)
      ∧ (text ≠ [] → ∃ v l, JSON_parse text = Some v ∧ is_object_with_operations v l ∧ length l = length (saved_ops ops) ∧ Forall well_formed l)
  end.
Proof.
  intros Hok. apply saved_ops_ok in Hok. assert (Forall (fun o => o_mode o ∈ OPERATION_MODE_VALUES) (saved_ops ops)) as Hm by (eapply Forall_impl; [exact Hok|]; by intros o [? _]).
  destruct (check_from_spec 1 _ Hm) as [H1 H2]. unfold buildOperationsJson. cbv zeta. fold (saved_ops ops). unfold validateOperations.
  destruct (saved_ops ops) as [|o os] eqn:Es; [by split; [constructor|]|]. rewrite <- Es in *.
  destruct (str_true (check_from t 1 (saved_ops ops))) eqn:E; [apply str_true_spec in E; auto|]. apply str_true_false in E. split; [auto|]. intros _.
  eexists _, _. split; [by apply JSON_parse_text, operations_value_plain|]. split; [apply operations_value_read|]. split; [by rewrite length_fmap|].
  apply Forall_fmap. pose proof (H1 E) as Hc. rewrite Forall_forall in *. intros x Hx. apply payload_well_formed; auto.
Qed.

(** ** Saving again *)

(** A text that is a quoted string shows its contents, which must not read as
    something else. *)
Definition faithful_text (x : jsstr) : Prop :=
  match JSON_parse (trim x) with Some (JStr s) => s ≠ [] ∧ trim s = s ∧ JSON_parse s = None | _ => True end.

Definition faithful (o : ParamOverrideOperation) : Prop :=
  (m_value (meta_of (o_mode o)) = true → faithful_text (o_value_text o)) ∧ Forall (fun c => faithful_text (c_value_text c)) (conditions o).

Lemma loose_some raw v : raw ≠ [] → trim raw = raw → JSON_parse raw = Some v → parseLooseValue raw = v.
Proof. intros Hne Ht' Hj. unfold parseLooseValue. rewrite Ht'. destruct raw; [done|]. by rewrite Hj. Qed.

Lemma loose_none raw : raw ≠ [] → trim raw = raw → JSON_parse raw = None → parseLooseValue raw = JStr raw.
Proof. intros Hne Ht' Hj. unfold parseLooseValue. rewrite Ht'. destruct raw; [done|]. by rewrite Hj. Qed.

Lemma shown_text v : JsonPrint.plain v → is_string v = false → toValueText (enumerated v) = json_text 0 0 v.
Proof. intros Hp Hs. rewrite <- json_text_enumerated by done. by destruct v. Qed.

Lemma loose_shown x : units x → faithful_text x → parseLooseValue (shown_value x) = enumerated (parseLooseValue x).
Proof.
  intros Hu Hf. unfold shown_value. assert (parseLooseValue x = parseLooseValue (trim x)) as -> by (unfold parseLooseValue; by rewrite trim_idemp).
  unfold faithful_text in Hf. pose proof (trim_idemp x) as Hi. apply trim_units in Hu. generalize dependent (trim x). intros raw Hu Hf Hi.
  destruct (decide (raw = [])) as [->|Hne]; [done|]. destruct (JSON_parse raw) as [v|] eqn:Ej.
  - rewrite (loose_some raw v) by done. apply JSON_parse_plain in Ej; [|done]. destruct (is_string v) eqn:Es.
    + destruct v as [| | | |s| |]; try done. destruct Hf as (H1 & H2 & H3). by apply loose_none.
    + rewrite shown_text by done. apply loose_some; [by apply json_text_nonempty|by apply json_text_trim|by apply JSON_parse_text].
  - rewrite (loose_none raw) by done. by apply loose_none.
Qed.

(** Only the contents matter for printing and checking. *)
Lemma payload_erase o : operation_payload (erase o) = operation_payload o.
Proof.
  assert (omap buildConditionPayload (erase_c <$> conditions o) = omap buildConditionPayload (conditions o)) as E.
  { induction (conditions o) as [|c l IH]; [done|]. rewrite fmap_cons. cbn [omap list_omap]. change (buildConditionPayload (erase_c c)) with (buildConditionPayload c).
    by rewrite IH. }
  unfold operation_payload. cbn [erase conditions description o_path o_mode o_from o_to o_value_text keep_origin logic]. by rewrite E.
Qed.

(** Members with the keys of their values in the order of enumeration *)
Definition emap (p : list (jsstr * jsval)) : list (jsstr * jsval) := (fun e => (e.1, enumerated e.2)) <$> p.

Lemma emap_put b k v p : emap (put b k v p) = put b k (enumerated v) (emap p).
Proof.
  unfold put, emap. destruct b; [|done]. induction p as [|[k' w] p IH]; [done|]. cbn. case_decide; [done|]. by rewrite fmap_cons, IH.
Qed.

Lemma put_put b1 b2 k v p : put b2 k v (put b1 k v p) = put (b1 || b2) k v p.
Proof. unfold put. destruct b1, b2; try done. apply mset_mset. Qed.

(** A payload from the texts that are printed *)
Definition form (mode desc path from to : jsstr) (value : jsval) (keep : bool) (cs : list jsval) (lg : jsstr) : list (jsstr * jsval) :=
  let meta := meta_of mode in
  let some := negb (Nat.eqb (length cs) 0) in
  put some "logic" (JStr lg)
   (put some "conditions" (JArr cs)
    (put (str_true to || bool_decide (m_to meta = Some true)) "to" (JStr to)
     (put (m_from meta) "from" (JStr from)
      (put (keepOrigin meta && keep) "keep_origin" (JBool true)
       (put (m_value meta) "value" value
        (put (m_path meta || pathOptional meta && str_true path) "path" (JStr path)
         (put (str_true desc) "description" (JStr desc) [(js "mode", JStr mode)]))))))).

Lemma alias_from p f t0 path : js "from" ≠ js "to" →
  set_alias "to" path (set_alias "from" path (mset (js "to") (JStr t0) (mset (js "from") (JStr f) p)))
  = mset (js "to") (JStr (if negb (str_true t0) then path else t0)) (mset (js "from") (JStr (if negb (str_true f) then path else f)) p).
Proof.
  intros Hne. unfold set_alias at 2. rewrite prop_mget, mget_mset_ne, mget_mset_eq by done. cbn [default from_option id truthy].
  assert (put (negb (str_true f) && str_true path) "from" (JStr path) (mset (js "to") (JStr t0) (mset (js "from") (JStr f) p))
          = mset (js "to") (JStr t0) (mset (js "from") (JStr (if negb (str_true f) then path else f)) p)) as ->.
  { unfold put. destruct f, path; try done. cbn [str_true negb andb]. rewrite mset_comm, mset_mset; [done|done|]. rewrite mkeys_mset. case_decide; set_solver. }
  unfold set_alias. rewrite prop_mget, mget_mset_eq. cbn [default from_option id truthy]. unfold put. destruct t0, path; try done. cbn [str_true negb andb]. by rewrite mset_mset.
Qed.

Lemma payload_form o : operation_ok o → operation_payload o =
  form (o_mode o) (trim (description o)) (trim (o_path o)) (aliased o (if m_from (meta_of (o_mode o)) then trim (o_from o) else [])) (aliased o (trim (o_to o)))
    (parseLooseValue (o_value_text o)) (keep_origin o) (omap buildConditionPayload (conditions o)) (if bool_decide (logic o = js "AND") then js "AND" else js "OR").
Proof.
  intros Ho. rewrite operation_payload_eq by done. unfold form. do 2 f_equal. unfold direct_fields, aliased. rewrite !put_put.
  pose proof (meta_alias (o_mode o)) as Ha. destruct (meta_of (o_mode o)) as [mp mo mv mf mt mk ma]. cbn [pathAlias m_from m_to pathOptional m_path m_value keepOrigin] in *.
  destruct ma; cbn [andb].
  - destruct (Ha eq_refl) as (-> & -> & ->). rewrite (bool_decide_true (Some true = Some true)) by done. cbn [negb andb orb]. rewrite !orb_true_r, !orb_false_r.
    unfold put at 1 2 6 7. apply alias_from. decided.
  - destruct (bool_decide (mt = Some true)); cbn [negb andb orb]; rewrite ?orb_true_r, ?orb_false_r; destruct mf; done.
Qed.

(** *** What is shown is in order *)

Lemma value_text_units v : JsonPrint.plain v → units (toValueText v).
Proof. intros Hp. destruct v; try done; by apply json_text_units. Qed.

Lemma shown_value_units x : units x → units (shown_value x).
Proof. intros Hx. apply value_text_units, enumerated_plain, loose_plain, Hx. Qed.

Lemma shown_ok o : operation_ok o → operation_ok (shown o).
Proof.
  intros (Hm & Hd & Hp & Hf & Hto & Hv & Hc). unfold operation_ok, shown. cbn.
  assert (∀ s, units s → units (if pathAlias (meta_of (o_mode o)) && negb (str_true s) then trim (o_path o) else s)) as Ha by (intros s Hs; destruct (_ && _); [by apply trim_units|done]).
  split_and!; [done|by apply trim_units| | | | |].
  - destruct (_ || _); [by apply trim_units|constructor].
  - apply Ha. destruct (m_from _); [by apply trim_units|constructor].
  - by apply Ha, trim_units.
  - destruct (m_value _); [by apply shown_value_units|constructor].
  - rewrite Forall_forall in *. intros c (c0 & Hc0 & E)%list_elem_of_omap. unfold shown_condition in E. destruct (str_true _); [|done]. injection E as <-.
    destruct (Hc c0 Hc0) as (H1 & H2 & H3). split_and!; [done|by apply trim_units|by apply shown_value_units].
Qed.

Lemma condition_shown_payload c c' : condition_ok c → faithful_text (c_value_text c) → shown_condition c = Some c' →
  buildConditionPayload c' = Some (JObj (condition_fields c')) ∧ emap (condition_fields c') = emap (condition_fields c).
Proof.
  intros (Hm & _ & Hv) Hf E. unfold shown_condition in E. destruct (str_true (trim (c_path c))) eqn:Ep; [|done]. injection E as <-.
  rewrite buildConditionPayload_eq. cbn [c_path]. rewrite trim_idemp, Ep. split; [done|]. unfold condition_fields. cbn [c_path c_mode c_value_text c_invert c_pass_missing_key].
  rewrite !emap_put, trim_idemp. do 2 f_equal. unfold emap. rewrite !fmap_cons. cbn [fst snd]. by rewrite (loose_shown _ Hv Hf), enumerated_idem.
Qed.

Lemma enumerated_obj p : enumerated (JObj p) = JObj (own_fields (emap p)).
Proof. done. Qed.

Lemma conditions_shown_payload cs : Forall condition_ok cs → Forall (fun c => faithful_text (c_value_text c)) cs →
  enumerated <$> omap buildConditionPayload (omap shown_condition cs) = enumerated <$> omap buildConditionPayload cs.
Proof.
  intros Hok Hf. induction Hok as [|c cs Hc _ IH]; [done|]. apply Forall_cons in Hf as [Hfc Hf]. cbn [omap list_omap]. rewrite (buildConditionPayload_eq c).
  destruct (shown_condition c) as [c'|] eqn:E.
  - destruct (condition_shown_payload c c' Hc Hfc E) as [E1 E2]. unfold shown_condition in E. destruct (str_true (trim (c_path c))); [|done]. cbn [omap list_omap]. rewrite E1.
    rewrite !fmap_cons, (IH Hf). f_equal. by rewrite !enumerated_obj, E2.
  - unfold shown_condition in E. destruct (str_true (trim (c_path c))); [done|]. by apply IH.
Qed.

Lemma put_ext b b' k v v' p p' : b = b' → (b = true → v = v') → p = p' → put b k v p = put b' k v' p'.
Proof. intros <- Hv <-. unfold put. destruct b; [by rewrite Hv|done]. Qed.

Lemma trim_aliased o s : trim s = s → trim (aliased o s) = aliased o s.
Proof. intros Hs. unfold aliased. destruct (_ && _); [apply trim_idemp|done]. Qed.

Lemma aliased_shown o s : trim s = s → aliased (shown o) (trim (aliased o s)) = aliased o s.
Proof.
  intros Hs. rewrite trim_aliased by done. unfold aliased at 1. cbn [shown o_mode o_path]. destruct (pathAlias (meta_of (o_mode o)) && negb (str_true (aliased o s))) eqn:E; [|done].
  apply andb_true_iff in E as [Ea E]. apply negb_true_iff, str_true_false in E. rewrite E. unfold aliased in E. rewrite Ea in E.
  destruct (_ || _); [|done]. rewrite trim_idemp. by destruct s.
Qed.

Lemma shown_payload o : operation_ok o → faithful o → emap (operation_payload (shown o)) = emap (operation_payload o).
Proof.
  intros Ho [Hfv Hfc]. rewrite (payload_form o Ho), (payload_form _ (shown_ok o Ho)). pose proof Ho as (_ & _ & _ & _ & _ & Huv & Hc).
  pose proof (conditions_shown_payload _ Hc Hfc) as Ecs.
  assert (length (omap buildConditionPayload (omap shown_condition (conditions o))) = length (omap buildConditionPayload (conditions o))) as El.
  { apply (f_equal length) in Ecs. by rewrite !length_fmap in Ecs. }
  assert (aliased (shown o) (trim (o_to (shown o))) = aliased o (trim (o_to o))) as Eto by (apply aliased_shown, trim_idemp).
  assert (m_from (meta_of (o_mode o)) = true → aliased (shown o) (trim (o_from (shown o))) = aliased o (trim (o_from o))) as Efrom.
  { intros Hf. cbn [shown o_from]. rewrite Hf. apply aliased_shown, trim_idemp. }
  unfold form. change (o_mode (shown o)) with (o_mode o). set (M := meta_of (o_mode o)) in *. change (conditions (shown o)) with (omap shown_condition (conditions o)).
  rewrite El, Eto, !emap_put. cbn [enumerated]. rewrite Ecs. apply put_ext; [done| |apply put_ext; [done|done|]].
  - intros Hs. rewrite some_shown in Hs by done. do 2 f_equal. cbn [shown logic]. rewrite Hs. cbn [andb]. by destruct (bool_decide (logic o = js "AND")).
  - apply put_ext; [done|done|]. apply put_ext; [done| |apply put_ext; [|done|apply put_ext; [done| |apply put_ext]]].
    + intros Hf. rewrite Hf. by rewrite Efrom.
    + cbn [shown keep_origin]. fold M. by destruct (keepOrigin M).
    + intros Hv. cbn [shown o_value_text]. fold M. rewrite Hv. rewrite (loose_shown _ Huv (Hfv Hv)). apply enumerated_idem.
    + cbn [shown o_path]. fold M. destruct (m_path M), (pathOptional M); cbn [orb andb]; rewrite ?trim_idemp; done.
    + cbn [shown o_path]. fold M. destruct (m_path M), (pathOptional M); cbn [orb andb]; rewrite ?trim_idemp; done.
    + cbn [shown description]. by rewrite trim_idemp.
Qed.

(** *** What is shown passes the checks *)

Lemma shown_str s : toValueText (enumerated (JStr s)) = s.
Proof. done. Qed.

Lemma shown_nonblank x : units x → faithful_text x → trim x ≠ [] → trim (shown_value x) ≠ [].
Proof.
  intros Hu Hf Hne. unfold shown_value. assert (parseLooseValue x = parseLooseValue (trim x)) as -> by (unfold parseLooseValue; by rewrite trim_idemp).
  unfold faithful_text in Hf. pose proof (trim_idemp x) as Hi. apply trim_units in Hu. generalize dependent (trim x). intros raw Hu Hf Hne Hi.
  destruct (JSON_parse raw) as [v|] eqn:Ej; [|by rewrite (loose_none raw), shown_str, Hi].
  rewrite (loose_some raw v) by done. apply JSON_parse_plain in Ej; [|done]. destruct (is_string v) eqn:Es.
  - destruct v as [| | | |s| |]; try done. destruct Hf as (H1 & H2 & H3). by rewrite shown_str, H2.
  - rewrite shown_text by done. rewrite json_text_trim by done. by apply json_text_nonempty.
Qed.

Lemma or_else_String v d : js_String (or_else (enumerated v) (JStr d)) = js_String (or_else v (JStr d)).
Proof. unfold or_else. assert (truthy (enumerated v) = truthy v) as -> by (by destruct v). destruct (truthy v); [apply js_String_enumerated|done]. Qed.

Lemma prop_enumerated_obj k fs : JsonPrint.plain (JObj fs) → prop k (enumerated (JObj fs)) = enumerated (prop k (JObj fs)).
Proof. intros [Hnd _]%plain_obj. rewrite prop_enumerated by done. rewrite prop_mget. by destruct (mget (js k) fs). Qed.

Lemma shown_message x : units x → faithful_text x → no_message (trim (shown_value x)) = no_message (trim x).
Proof.
  intros Hu Hf. unfold shown_value. assert (parseLooseValue x = parseLooseValue (trim x)) as -> by (unfold parseLooseValue; by rewrite trim_idemp).
  unfold faithful_text in Hf. pose proof (trim_idemp x) as Hi. apply trim_units in Hu. generalize dependent (trim x). intros raw Hu Hf Hi.
  destruct (decide (raw = [])) as [->|Hne]; [done|]. destruct (JSON_parse raw) as [v|] eqn:Ej.
  - rewrite (loose_some raw v) by done. pose proof Ej as Hp. apply JSON_parse_plain in Hp; [|done]. unfold no_message. rewrite Ej. destruct (is_string v) eqn:Es.
    + destruct v as [| | | |s| |]; try done. destruct Hf as (_ & H2 & H3). by rewrite shown_str, H2, H3.
    + rewrite shown_text, json_text_trim, JSON_parse_text by done. destruct v as [| | | | | |fs]; try done. pose proof (prop_enumerated_obj "message" fs Hp) as E.
      cbn [enumerated] in E |- *. by rewrite E, or_else_String.
  - rewrite (loose_none raw) by done. by rewrite shown_str, Hi.
Qed.

Lemma header_names_enumerated l : header_names (enumerated <$> l) = header_names l.
Proof.
  unfold header_names. f_equal. rewrite <- list_fmap_compose. apply list_fmap_ext. intros i v _. cbn. pose proof (js_String_enumerated v) as E. destruct v; try done.
  by rewrite E.
Qed.

Lemma names_enumerated v : JsonPrint.plain v → parsePassHeaderNames (enumerated v) = parsePassHeaderNames v.
Proof.
  intros Hp. destruct v as [| | | | |l|fs]; try done; [apply header_names_enumerated|]. pose proof (prop_enumerated_obj "headers" fs Hp) as E1.
  pose proof (prop_enumerated_obj "header" fs Hp) as E2. cbn [enumerated] in E1, E2 |- *. cbn [parsePassHeaderNames]. rewrite E1, E2.
  destruct (prop "headers" (JObj fs)); cbn [enumerated]; try apply header_names_enumerated;
    (destruct (prop "header" (JObj fs)) as [| | | | |l|gs]; try done; apply (header_names_enumerated [JArr l])).
Qed.

Lemma aliased_full o s : s ≠ [] ∨ pathAlias (meta_of (o_mode o)) = true ∧ trim (o_path o) ≠ [] → aliased o s ≠ [].
Proof. unfold aliased. intros [H|[Ha H]]; [|rewrite Ha]; destruct s; try done; by rewrite andb_false_r. Qed.

Lemma value_modes m : m ∈ VALUE_REQUIRED_MODES → m_value (meta_of m) = true.
Proof. intros Hm. assert (Forall (fun m => m_value (meta_of m) = true) VALUE_REQUIRED_MODES) as H by decided. rewrite Forall_forall in H. by apply H. Qed.

Lemma shown_complete o : operation_ok o → faithful o → complete o → complete (shown o).
Proof.
  intros Ho [Hfv _] (H1 & H2 & H3 & H4 & H5 & H6). pose proof Ho as (_ & _ & _ & _ & _ & Hu & _).
  assert (o_mode o ∈ VALUE_REQUIRED_MODES → o_value_text (shown o) = shown_value (o_value_text o) ∧ faithful_text (o_value_text o)) as Hv.
  { intros Hm. apply value_modes in Hm. cbn [shown o_value_text]. rewrite Hm. auto. }
  assert (js "return_error" ∈ VALUE_REQUIRED_MODES ∧ js "pass_headers" ∈ VALUE_REQUIRED_MODES) as (V1 & V3) by decided.
  unfold complete. change (o_mode (shown o)) with (o_mode o). split_and!.
  - intros Hp. cbn [shown o_path]. rewrite Hp. cbn [orb]. rewrite trim_idemp. auto.
  - intros Hm. left. change (o_from (shown o)) with (aliased o (if m_from (meta_of (o_mode o)) then trim (o_from o) else [])). rewrite (from_modes _ Hm).
    rewrite (trim_aliased o _ (trim_idemp _)). by apply aliased_full, H2.
  - intros Hm. left. change (o_to (shown o)) with (aliased o (trim (o_to o))). rewrite (trim_aliased o _ (trim_idemp _)). by apply aliased_full, H3.
  - intros Hm. destruct (Hv Hm) as [-> Hf]. apply shown_nonblank; auto.
  - intros Hm. destruct (Hv ltac:(by rewrite Hm)) as [-> Hf]. rewrite shown_message by done. auto.
  - intros Hm. destruct (Hv ltac:(by rewrite Hm)) as [-> Hf]. assert (∀ y, parseLooseValue (trim y) = parseLooseValue y) as Ey by (intros y; unfold parseLooseValue; by rewrite trim_idemp).
    rewrite Ey, loose_shown, names_enumerated by (done || by apply loose_plain). rewrite Ey in H6. auto.
Qed.

Lemma operation_ok_erase o : operation_ok (erase o) → operation_ok o.
Proof. intros (H1 & H2 & H3 & H4 & H5 & H6 & H7). split_and!; try done. cbn [erase conditions] in H7. rewrite Forall_fmap in H7. exact H7. Qed.

Lemma blank_erase o : isOperationBlank (erase o) = isOperationBlank o.
Proof.
  unfold isOperationBlank. cbn [erase o_mode o_path o_from o_to o_value_text keep_origin conditions]. do 2 f_equal.
  induction (conditions o) as [|c l IH]; [done|]. rewrite fmap_cons. cbn [existsb]. by rewrite IH.
Qed.

Lemma shown_not_blank o : complete o → isOperationBlank (shown o) = false.
Proof.
  intros (H1 & _). unfold isOperationBlank. cbn [shown o_mode o_path]. destruct (decide (o_mode o = js "set")) as [E|E]; [|by rewrite bool_decide_false].
  rewrite E in *. unfold blank. change (m_path (meta_of (js "set"))) with true in *. cbn [orb]. rewrite trim_idemp. specialize (H1 eq_refl). apply str_true_spec in H1.
  rewrite H1. cbn [negb]. by rewrite andb_false_r.
Qed.

Lemma same_text ops ops' : Forall operation_ok ops → Forall operation_ok ops' →
  (fun o => emap (operation_payload o)) <$> ops' = (fun o => emap (operation_payload o)) <$> ops →
  json_text 2 0 (operations_value ops') = json_text 2 0 (operations_value ops).
Proof.
  intros H H' E. rewrite <- (json_text_enumerated 2 0 (operations_value ops)), <- (json_text_enumerated 2 0 (operations_value ops')) by (by apply operations_value_plain).
  f_equal. unfold operations_value. rewrite !enumerated_obj. unfold emap at 1 2. rewrite !fmap_cons. cbn [fst snd enumerated]. do 4 f_equal. f_equal.
  rewrite <- !list_fmap_compose. apply (f_equal (fmap (fun p => JObj (own_fields p)))) in E. rewrite <- !list_fmap_compose in E. exact E.
Qed.

(** Saving what was reopened gives the same text again, unless some value is a
    quoted string whose contents are blank, have blanks around them or read as another
    JSON value. *)
Theorem resave_same ops text n st n' : Forall operation_ok ops → Forall faithful (saved_ops ops) →
  buildOperationsJson t ops true = Text text → parseInitialState text n = Returns (st, n') →
  buildOperationsJson t (s_operations st) true = Text text.
Proof.
  intros Hok Hf Hb Hp. apply build_text in Hb as [Htext Hval]. specialize (Hval eq_refl). pose proof (reopened ops Hok) as Hr. apply saved_ops_ok in Hok.
  assert (Forall complete (saved_ops ops)) as Hc.
  { assert (Forall (fun o => o_mode o ∈ OPERATION_MODE_VALUES) (saved_ops ops)) as Hm by (eapply Forall_impl; [exact Hok|]; by intros o [? _]). by apply (check_from_spec 1 _ Hm). }
  destruct (saved_ops ops) as [|o0 os0] eqn:Es; [subst text; by injection Hp as <- _|]. rewrite <- Es in *.
  destruct (Hr ltac:(by rewrite Es) n) as (st' & n1 & E & _ & _ & _ & _ & _ & _ & Her). rewrite Es, <- Es in Htext. rewrite <- Htext, Hp in E. injection E as <- <-. clear Hr.
  assert (∀ o', o' ∈ s_operations st → ∃ o, erase o' = shown o ∧ o ∈ saved_ops ops) as Hin.
  { intros o' Ho'. apply (list_elem_of_fmap_2 erase) in Ho'. rewrite Her in Ho'. apply list_elem_of_fmap in Ho' as (o & Eo & Hin). by exists o. }
  rewrite Forall_forall in Hok, Hf, Hc.
  assert (saved_ops (s_operations st) = s_operations st) as Eall.
  { apply filter_all, Forall_forall. intros o' Ho'. destruct (Hin o' Ho') as (o & Eo & Hio). rewrite <- blank_erase, Eo. by apply shown_not_blank, Hc. }
  assert (Forall operation_ok (s_operations st)) as Hok'.
  { apply Forall_forall. intros o' Ho'. destruct (Hin o' Ho') as (o & Eo & Hio). apply operation_ok_erase. rewrite Eo. by apply shown_ok, Hok. }
  assert (Forall complete (s_operations st)) as Hc'.
  { apply Forall_forall. intros o' Ho'. destruct (Hin o' Ho') as (o & Eo & Hio). change (complete (erase o')). rewrite Eo. apply shown_complete; auto. }
  unfold buildOperationsJson. cbv zeta. fold (saved_ops (s_operations st)). rewrite Eall. destruct (s_operations st) as [|o1 os1] eqn:E1; [by rewrite Es in Her|]. rewrite <- E1 in *.
  destruct (str_true (validateOperations t (s_operations st))) eqn:Ev.
  - apply str_true_spec in Ev. assert (Forall (fun o => o_mode o ∈ OPERATION_MODE_VALUES) (s_operations st)) as Hm by (eapply Forall_impl; [exact Hok'|]; by intros o [? _]).
    destruct (proj2 (check_from_spec 1 _ Hm) Ev) as (i & o & Hi & _ & Hno & _). destruct Hno. rewrite Forall_forall in Hc'. apply Hc'. by eapply list_elem_of_lookup_2.
  - f_equal. rewrite Htext. apply same_text; [by apply Forall_forall|done|].
    assert (∀ l : list ParamOverrideOperation, (fun o => emap (operation_payload o)) <$> l = (fun o => emap (operation_payload o)) <$> (erase <$> l)) as Hl.
    { intros l. rewrite <- list_fmap_compose. apply list_fmap_ext. intros i o _. cbn. by rewrite payload_erase. }
    rewrite (Hl (s_operations st)), Her, <- list_fmap_compose. apply list_fmap_ext. intros i o Hi. apply list_elem_of_lookup_2 in Hi. cbn. apply shown_payload; auto.
Qed.
End Save.

End Fresh.

(** ** Instances *)

Definition sample_cap : ParamOverrideOperation :=
  mkOperation (js "po_0_1") (js "cap") (js " max_tokens ") (js "set") [] [] (js "100") true (js "AND")
    [mkCondition (js "po_0_2") (js "model") (js "prefix") (js "gpt-") false true; mkCondition (js "po_0_3") [] (js "full") [] false false].
Definition sample_header : ParamOverrideOperation := mkOperation (js "po_0_5") [] (js "X-Trace") (js "copy_header") [] (js "X-Id") [] false (js "OR") [].
Definition sample_ops : list ParamOverrideOperation := [
  sample_cap; mkOperation (js "po_0_4") [] [] (js "set") [] [] [] false (js "OR") []; sample_header].

Definition sample_text (t : jsstr → option nat → jsstr) : jsstr := match buildOperationsJson t sample_ops true with Text s => s | Failed s => s end.

Lemma sample_ok : Forall operation_ok sample_ops.
Proof. repeat apply Forall_cons_2; try constructor; try done; repeat split; repeat apply Forall_cons_2; try constructor; repeat split; unfold units; decided. Qed.

Lemma save_reopen_witness :
  let t := fun (k : jsstr) (_ : option nat) => k in
  ∃ st n', parseInitialState (fun _ => 0%N) (sample_text t) 6 = Returns (st, n') ∧ s_visualMode st = Operations
    ∧ o_path <$> s_operations st = [js "max_tokens"; []] ∧ o_from <$> s_operations st = [[]; js "X-Trace"] ∧ (length ∘ conditions <$> s_operations st) = [1; 0].
Proof.
  intros t. assert (buildOperationsJson t sample_ops true = Text (sample_text t)) as Hb by (by vm_compute).
  destruct (save_reopen (fun _ => 0%N) t sample_ops true (sample_text t) 6 sample_ok Hb) as [_ H].
  destruct (H ltac:(by vm_compute)) as (st & n' & E & _ & Hv & _ & _ & Her). exists st, n'. split; [exact E|]. split; [exact Hv|].
  assert (∀ B (f : ParamOverrideOperation → B), (∀ o, f (erase o) = f o) → f <$> s_operations st = f <$> (shown <$> saved_ops sample_ops)) as Hf.
  { intros B f Hf. rewrite <- Her, <- list_fmap_compose. apply list_fmap_ext. intros i o _. by rewrite <- Hf. }
  split_and!; [rewrite Hf by done; by vm_compute|rewrite Hf by done; by vm_compute|]. rewrite Hf by (intros o; cbn; by rewrite length_fmap). by vm_compute.
Defined.

Definition sample_incomplete : list ParamOverrideOperation := [mkOperation (js "po_0_1") [] [] (js "delete") [] [] [] false (js "OR") []].

Lemma validated_spec_witness :
  let t := fun (k : jsstr) (_ : option nat) => k in
  first_incomplete t 1 (saved_ops sample_incomplete) (js "Rule {{line}} is missing target path").
Proof.
  intros t. assert (Forall operation_ok sample_incomplete) as Hok.
  { repeat apply Forall_cons_2; try constructor; try done; repeat split; repeat apply Forall_cons_2; try constructor; unfold units; decided. }
  pose proof (validated_spec t (fun k _ H => H) sample_incomplete Hok) as H.
  assert (buildOperationsJson t sample_incomplete true = Failed (js "Rule {{line}} is missing target path")) as E by (by vm_compute).
  rewrite E in H. exact H.
Defined.

Lemma resave_same_witness :
  let t := fun (k : jsstr) (_ : option nat) => k in
  ∃ st n', parseInitialState (fun _ => 0%N) (sample_text t) 6 = Returns (st, n') ∧ buildOperationsJson t (s_operations st) true = Text (sample_text t).
Proof.
  intros t. assert (∃ st n', parseInitialState (fun _ => 0%N) (sample_text t) 6 = Returns (st, n')) as (st & n' & E) by (eexists _, _; by vm_compute).
  exists st, n'. split; [exact E|]. apply (resave_same (fun _ => 0%N) t (fun k _ H => H) sample_ops (sample_text t) 6 st n' sample_ok); [|by vm_compute|exact E].
  assert (saved_ops sample_ops = [sample_cap; sample_header]) as -> by (by vm_compute).
  apply Forall_cons_2; [|apply Forall_cons_2; [|constructor]].
  - split; [intros _; by vm_compute|]. apply Forall_cons_2; [by vm_compute|]. apply Forall_cons_2; [by vm_compute|constructor].
  - split; [intros H; by vm_compute in H|constructor].
Defined.

(** A value that is the string 5 in the stored text is saved as the number 5. *)
Example string_value_retyped :
  let t := fun (k : jsstr) (_ : option nat) => k in
  let text v := dq "{'operations':[{'mode':'set','path':'seed','value':" ++ v ++ dq "}]}" in
  ∃ st n' s, parseInitialState (fun _ => 0%N) (text (dq "'5'")) 0 = Returns (st, n') ∧ buildOperationsJson t (s_operations st) true = Text s ∧ JSON_parse s = JSON_parse (text (js "5")).
Proof. eexists _, _, _. split; [by vm_compute|]. split; [by vm_compute|]. by vm_compute. Qed.

(** An operation that is null makes the editor throw. *)
Example null_operation_throws : parseInitialState (fun _ => 0%N) (dq "{'operations':[null]}") 0 = Throws.
Proof. by vm_compute. Qed.

End ParamOverride.
