(* ===== verification/ParamEditor.v ===== *)
(** * The editor of parameter overrides
    (src/web/src/features/channels/components/dialogs/param-override-editor-dialog.tsx,
    the dialog and the editors inside it)

    The dialog keeps a list of operations, or the text of the older format, or the
    JSON text of either, and lets the user switch between them.  Each handler of the
    component is a function on its state; identifiers come from the counter of
    [ParamOverride].  A handler that throws leaves the state as it was. *)

From Stdlib Require Import QArith ZifyBool ZifyN.
From S2P Require Import Prelude JsString JsValue JsJson JsNumber JsonPrint BillingRules ParamOverride.
Import BillingRules ParamOverride.
Local Close Scope Q_scope.

Module ParamEditor.

(** Units of a literal *)
Ltac lit := unfold units; decided.

(** ** Templates *)

Definition obj (l : list (string * jsval)) : jsval := JObj ((fun e => (js e.1, e.2)) <$> l).
Definition str (s : string) : jsval := JStr (js s).
Definition num10 (m e : Z) : jsval := JNum (q10 m e).

Definition LEGACY_TEMPLATE : jsval := obj [("temperature", num10 0 0); ("max_tokens", num10 1000 0)]%string.

Definition condition_value (path mode value : string) : jsval := obj [("path", str path); ("mode", str mode); ("value", str value)]%string.

Definition OPERATION_TEMPLATE : jsval := obj [("operations", JArr [
  obj [("description", str "Set default temperature for openai/* models."); ("path", str "temperature"); ("mode", str "set"); ("value", num10 7 (-1));
       ("conditions", JArr [condition_value "model" "prefix" "openai/"]); ("logic", str "AND")]])]%string.

Definition HEADER_PASSTHROUGH_TEMPLATE : jsval := obj [("operations", JArr [
  obj [("description", str "Pass through X-Request-Id header to upstream."); ("mode", str "pass_headers"); ("value", JArr [str "X-Request-Id"]);
       ("keep_origin", JBool true)]])]%string.

Definition GEMINI_IMAGE_4K_TEMPLATE : jsval := obj [("operations", JArr [
  obj [("description", str "Set imageSize to 4K when model contains gemini/image and ends with 4k."); ("mode", str "set");
       ("path", str "generationConfig.imageConfig.imageSize"); ("value", str "4K");
       ("conditions", JArr [condition_value "original_model" "contains" "gemini"; condition_value "original_model" "contains" "image";
                            condition_value "original_model" "suffix" "4k"]); ("logic", str "AND")]])]%string.

Definition CODEX_CLI_HEADER_PASSTHROUGH_HEADERS : list string := [
  "Originator"; "Session_id"; "Thread_id"; "Session-Id"; "Thread-Id"; "X-Client-Request-Id"; "User-Agent"; "X-Codex-Beta-Features";
  "X-Codex-Turn-State"; "X-Codex-Turn-Metadata"; "X-Codex-Window-Id"; "X-Codex-Parent-Thread-Id"; "X-OpenAI-Subagent";
  "X-OpenAI-Memgen-Request"; "X-ResponsesAPI-Include-Timing-Metrics"; "X-OpenAI-Internal-Codex-Responses-Lite"]%string.

Definition CLAUDE_CLI_HEADER_PASSTHROUGH_HEADERS : list string := [
  "X-Stainless-Arch"; "X-Stainless-Lang"; "X-Stainless-Os"; "X-Stainless-Package-Version"; "X-Stainless-Retry-Count"; "X-Stainless-Runtime";
  "X-Stainless-Runtime-Version"; "X-Stainless-Timeout"; "User-Agent"; "X-App"; "Anthropic-Beta"; "Anthropic-Dangerous-Direct-Browser-Access";
  "Anthropic-Version"]%string.

Definition buildPassHeadersTemplate (headers : list string) : jsval :=
  obj [("operations", JArr [obj [("mode", str "pass_headers"); ("value", JArr (str <$> headers)); ("keep_origin", JBool true)]])]%string.

Definition CODEX_CLI_HEADER_PASSTHROUGH_TEMPLATE : jsval := obj [("operations", JArr [
  obj [("mode", str "pass_headers"); ("value", JArr (str <$> CODEX_CLI_HEADER_PASSTHROUGH_HEADERS)); ("keep_origin", JBool true)]])]%string.
Definition CLAUDE_CLI_HEADER_PASSTHROUGH_TEMPLATE : jsval := buildPassHeadersTemplate CLAUDE_CLI_HEADER_PASSTHROUGH_HEADERS.

Definition AWS_BEDROCK_ANTHROPIC_COMPAT_TEMPLATE : jsval := obj [("operations", JArr [
  obj [("description", str "Normalize anthropic-beta header tokens for Bedrock compatibility."); ("mode", str "set_header"); ("path", str "anthropic-beta");
       ("value", obj [
          ("advanced-tool-use-2025-11-20", str "tool-search-tool-2025-10-19"); ("bash_20241022", JNull); ("bash_20250124", JNull);
          ("code-execution-2025-08-25", JNull); ("compact-2026-01-12", str "compact-2026-01-12"); ("computer-use-2025-01-24", str "computer-use-2025-01-24");
          ("computer-use-2025-11-24", str "computer-use-2025-11-24"); ("context-1m-2025-08-07", str "context-1m-2025-08-07");
          ("context-management-2025-06-27", str "context-management-2025-06-27"); ("effort-2025-11-24", JNull); ("fast-mode-2026-02-01", JNull);
          ("files-api-2025-04-14", JNull); ("fine-grained-tool-streaming-2025-05-14", JNull);
          ("interleaved-thinking-2025-05-14", str "interleaved-thinking-2025-05-14"); ("mcp-client-2025-11-20", JNull); ("mcp-client-2025-04-04", JNull);
          ("mcp-servers-2025-12-04", JNull); ("output-128k-2025-02-19", JNull); ("structured-output-2024-03-01", JNull);
          ("prompt-caching-scope-2026-01-05", JNull); ("skills-2025-10-02", JNull); ("structured-outputs-2025-11-13", JNull);
          ("text_editor_20241022", JNull); ("text_editor_20250124", JNull); ("token-efficient-tools-2025-02-19", JNull);
          ("tool-search-tool-2025-10-19", str "tool-search-tool-2025-10-19"); ("web-fetch-2025-09-10", JNull); ("web-search-2025-03-05", JNull);
          ("oauth-2025-04-20", JNull)])];
  obj [("description", str "Remove all tools[*].custom.input_examples before upstream relay."); ("mode", str "delete");
       ("path", str "tools.*.custom.input_examples")]])]%string.

Record TemplatePresetConfig := mkPreset { kind : VisualMode; payload : jsval }.

Definition TEMPLATE_PRESET_CONFIG : list (jsstr * TemplatePresetConfig) := [
  (js "operations_default", mkPreset Operations OPERATION_TEMPLATE);
  (js "legacy_default", mkPreset Legacy LEGACY_TEMPLATE);
  (js "pass_headers_auth", mkPreset Operations HEADER_PASSTHROUGH_TEMPLATE);
  (js "gemini_image_4k", mkPreset Operations GEMINI_IMAGE_4K_TEMPLATE);
  (js "claude_cli_headers_passthrough", mkPreset Operations CLAUDE_CLI_HEADER_PASSTHROUGH_TEMPLATE);
  (js "codex_cli_headers_passthrough", mkPreset Operations CODEX_CLI_HEADER_PASSTHROUGH_TEMPLATE);
  (js "aws_bedrock_anthropic_beta_override", mkPreset Operations AWS_BEDROCK_ANTHROPIC_COMPAT_TEMPLATE)].

(** [TEMPLATE_PRESET_CONFIG[key] || TEMPLATE_PRESET_CONFIG.operations_default] *)
Definition preset_of (key : jsstr) : TemplatePresetConfig := default (mkPreset Operations OPERATION_TEMPLATE) (mget key TEMPLATE_PRESET_CONFIG).

(** ** State *)

(** What the dialog tells the outside *)
Inductive Effect := ToastError (m : jsstr) | OnSave (text : jsstr) | OnClose.

Record Dialog := mkDialog {
  editMode : EditMode;
  visualMode : VisualMode;
  legacyValue : jsstr;
  operations : list ParamOverrideOperation;
  jsonText : jsstr;
  jsonError : jsstr;
  selectedOperationId : jsstr;
  expandedConditions : list (jsstr * bool);
  draggedOperationId : jsstr;
  dragOverOperationId : jsstr;
  dragOverPosition : Position;
  templatePresetKey : jsstr;
  effects : list Effect
}.

(** The setters of the state hooks *)
Definition setEditMode (x : EditMode) (d : Dialog) : Dialog :=
  mkDialog x (visualMode d) (legacyValue d) (operations d) (jsonText d) (jsonError d) (selectedOperationId d) (expandedConditions d)
    (draggedOperationId d) (dragOverOperationId d) (dragOverPosition d) (templatePresetKey d) (effects d).
Definition setVisualMode (x : VisualMode) (d : Dialog) : Dialog :=
  mkDialog (editMode d) x (legacyValue d) (operations d) (jsonText d) (jsonError d) (selectedOperationId d) (expandedConditions d)
    (draggedOperationId d) (dragOverOperationId d) (dragOverPosition d) (templatePresetKey d) (effects d).
Definition setLegacyValue (x : jsstr) (d : Dialog) : Dialog :=
  mkDialog (editMode d) (visualMode d) x (operations d) (jsonText d) (jsonError d) (selectedOperationId d) (expandedConditions d)
    (draggedOperationId d) (dragOverOperationId d) (dragOverPosition d) (templatePresetKey d) (effects d).
Definition setOperations (x : list ParamOverrideOperation) (d : Dialog) : Dialog :=
  mkDialog (editMode d) (visualMode d) (legacyValue d) x (jsonText d) (jsonError d) (selectedOperationId d) (expandedConditions d)
    (draggedOperationId d) (dragOverOperationId d) (dragOverPosition d) (templatePresetKey d) (effects d).
Definition setJsonText (x : jsstr) (d : Dialog) : Dialog :=
  mkDialog (editMode d) (visualMode d) (legacyValue d) (operations d) x (jsonError d) (selectedOperationId d) (expandedConditions d)
    (draggedOperationId d) (dragOverOperationId d) (dragOverPosition d) (templatePresetKey d) (effects d).
Definition setJsonError (x : jsstr) (d : Dialog) : Dialog :=
  mkDialog (editMode d) (visualMode d) (legacyValue d) (operations d) (jsonText d) x (selectedOperationId d) (expandedConditions d)
    (draggedOperationId d) (dragOverOperationId d) (dragOverPosition d) (templatePresetKey d) (effects d).
Definition setSelectedOperationId (x : jsstr) (d : Dialog) : Dialog :=
  mkDialog (editMode d) (visualMode d) (legacyValue d) (operations d) (jsonText d) (jsonError d) x (expandedConditions d)
    (draggedOperationId d) (dragOverOperationId d) (dragOverPosition d) (templatePresetKey d) (effects d).
Definition setExpandedConditions (x : list (jsstr * bool)) (d : Dialog) : Dialog :=
  mkDialog (editMode d) (visualMode d) (legacyValue d) (operations d) (jsonText d) (jsonError d) (selectedOperationId d) x
    (draggedOperationId d) (dragOverOperationId d) (dragOverPosition d) (templatePresetKey d) (effects d).
Definition setDrag (x y : jsstr) (p : Position) (d : Dialog) : Dialog :=
  mkDialog (editMode d) (visualMode d) (legacyValue d) (operations d) (jsonText d) (jsonError d) (selectedOperationId d) (expandedConditions d)
    x y p (templatePresetKey d) (effects d).
Definition setTemplatePresetKey (x : jsstr) (d : Dialog) : Dialog :=
  mkDialog (editMode d) (visualMode d) (legacyValue d) (operations d) (jsonText d) (jsonError d) (selectedOperationId d) (expandedConditions d)
    (draggedOperationId d) (dragOverOperationId d) (dragOverPosition d) x (effects d).
Definition tell (e : Effect) (d : Dialog) : Dialog :=
  mkDialog (editMode d) (visualMode d) (legacyValue d) (operations d) (jsonText d) (jsonError d) (selectedOperationId d) (expandedConditions d)
    (draggedOperationId d) (dragOverOperationId d) (dragOverPosition d) (templatePresetKey d) (effects d ++ [e]).

(** The effect that keeps the selection valid *)
Definition keepSelected (d : Dialog) : Dialog :=
  match operations d with
  | [] => setSelectedOperationId [] d
  | o :: _ => if existsb (fun x => bool_decide (o_id x = selectedOperationId d)) (operations d) then d else setSelectedOperationId (o_id o) d
  end.

Section Handlers.
Context (now : nat → N) (t : jsstr → option nat → jsstr).

Notation default_operation := (createDefaultOperation now).
Notation normalize := (normalizeOperation now).

(** [ops[0]?.id || ''] *)
Definition first_id (ops : list ParamOverrideOperation) : jsstr := match ops with [] => [] | o :: _ => o_id o end.

(** The effect that runs when the dialog opens *)
Definition openDialog (value : jsstr) (d : Dialog) : fresh Dialog :=
  st ← parseInitialState now value;
  mret (mkDialog (s_editMode st) (s_visualMode st) (s_legacyValue st) (s_operations st) (s_jsonText st) (s_jsonError st) (first_id (s_operations st)) []
    [] [] Before (match s_visualMode st with Legacy => js "legacy_default" | Operations => js "operations_default" end) (effects d)).

(** ** Operations *)

(** The patches of the rule editor *)
Inductive OperationPatch :=
| PDescription (s : jsstr)
| PPath (s : jsstr)
| PMode (m : jsstr)
| PFrom (s : jsstr)
| PTo (s : jsstr)
| PFromTo (s s' : jsstr)
| PValueText (s : jsstr)
| PKeepOrigin (b : bool)
| PLogic (l : jsstr).

Definition apply_patch (p : OperationPatch) (o : ParamOverrideOperation) : ParamOverrideOperation :=
  match p with
  | PDescription s => mkOperation (o_id o) s (o_path o) (o_mode o) (o_from o) (o_to o) (o_value_text o) (keep_origin o) (logic o) (conditions o)
  | PPath s => mkOperation (o_id o) (description o) s (o_mode o) (o_from o) (o_to o) (o_value_text o) (keep_origin o) (logic o) (conditions o)
  | PMode m => mkOperation (o_id o) (description o) (o_path o) m (o_from o) (o_to o) (o_value_text o) (keep_origin o) (logic o) (conditions o)
  | PFrom s => mkOperation (o_id o) (description o) (o_path o) (o_mode o) s (o_to o) (o_value_text o) (keep_origin o) (logic o) (conditions o)
  | PTo s => mkOperation (o_id o) (description o) (o_path o) (o_mode o) (o_from o) s (o_value_text o) (keep_origin o) (logic o) (conditions o)
  | PFromTo s s' => mkOperation (o_id o) (description o) (o_path o) (o_mode o) s s' (o_value_text o) (keep_origin o) (logic o) (conditions o)
  | PValueText s => mkOperation (o_id o) (description o) (o_path o) (o_mode o) (o_from o) (o_to o) s (keep_origin o) (logic o) (conditions o)
  | PKeepOrigin b => mkOperation (o_id o) (description o) (o_path o) (o_mode o) (o_from o) (o_to o) (o_value_text o) b (logic o) (conditions o)
  | PLogic l => mkOperation (o_id o) (description o) (o_path o) (o_mode o) (o_from o) (o_to o) (o_value_text o) (keep_origin o) l (conditions o)
  end.

Definition with_conditions (cs : list ParamOverrideCondition) (o : ParamOverrideOperation) : ParamOverrideOperation :=
  mkOperation (o_id o) (description o) (o_path o) (o_mode o) (o_from o) (o_to o) (o_value_text o) (keep_origin o) (logic o) cs.

(** [prev.map((o) => o.id === id ? f(o) : o)] *)
Definition map_op (id : jsstr) (f : ParamOverrideOperation → ParamOverrideOperation) (ops : list ParamOverrideOperation) : list ParamOverrideOperation :=
  (fun o => if decide (o_id o = id) then f o else o) <$> ops.

Definition updateOperation (id : jsstr) (patch : OperationPatch) (d : Dialog) : Dialog := setOperations (map_op id (apply_patch patch) (operations d)) d.

Definition addOperation (d : Dialog) : fresh Dialog :=
  created ← default_operation;
  mret (setSelectedOperationId (o_id created) (setOperations (operations d ++ [created]) d)).

(** The value that a copy is made from *)
Definition clone_value (o : ParamOverrideOperation) : jsval :=
  JObj [(js "description", JStr (description o)); (js "path", JStr (o_path o)); (js "mode", JStr (o_mode o)); (js "value", parseLooseValue (o_value_text o));
        (js "keep_origin", JBool (keep_origin o)); (js "from", JStr (o_from o)); (js "to", JStr (o_to o)); (js "logic", JStr (logic o));
        (js "conditions", JArr ((fun c => JObj [(js "path", JStr (c_path c)); (js "mode", JStr (c_mode c)); (js "value", parseLooseValue (c_value_text c));
                                                (js "invert", JBool (c_invert c)); (js "pass_missing_key", JBool (c_pass_missing_key c))]) <$> conditions o))].

(** [eager]: React runs the updater at once, so that the new identifier is known when
    it is tested; otherwise the copy is not selected. *)
Definition duplicateOperation (id : jsstr) (eager : bool) (d : Dialog) : fresh Dialog :=
  match find_op id (operations d) with
  | None => mret d
  | Some idx =>
      match operations d !! idx with
      | None => mret d
      | Some source =>
          cloned ← normalize (clone_value source);
          let d := setOperations (take (idx + 1) (operations d) ++ cloned :: drop (idx + 1) (operations d)) d in
          mret (if eager then setSelectedOperationId (o_id cloned) d else d)
      end
  end.

Definition removeOperation (id : jsstr) (d : Dialog) : fresh Dialog :=
  if length (operations d) <=? 1 then o ← default_operation; mret (setOperations [o] d)
  else mret (setOperations (filter (fun o => o_id o ≠ id) (operations d)) d).

(** ** Conditions *)

Inductive ConditionPatch :=
| CPath (s : jsstr)
| CMode (m : jsstr)
| CValueText (s : jsstr)
| CInvert (b : bool)
| CPassMissingKey (b : bool).

Definition apply_cpatch (p : ConditionPatch) (c : ParamOverrideCondition) : ParamOverrideCondition :=
  match p with
  | CPath s => mkCondition (c_id c) s (c_mode c) (c_value_text c) (c_invert c) (c_pass_missing_key c)
  | CMode m => mkCondition (c_id c) (c_path c) m (c_value_text c) (c_invert c) (c_pass_missing_key c)
  | CValueText s => mkCondition (c_id c) (c_path c) (c_mode c) s (c_invert c) (c_pass_missing_key c)
  | CInvert b => mkCondition (c_id c) (c_path c) (c_mode c) (c_value_text c) b (c_pass_missing_key c)
  | CPassMissingKey b => mkCondition (c_id c) (c_path c) (c_mode c) (c_value_text c) (c_invert c) b
  end.

Definition addCondition (id : jsstr) (d : Dialog) : fresh Dialog :=
  created ← createDefaultCondition now;
  let d := setOperations (map_op id (fun o => with_conditions (conditions o ++ [created]) o) (operations d)) d in
  mret (setExpandedConditions (mset (c_id created) true (expandedConditions d)) d).

Definition updateCondition (id cid : jsstr) (patch : ConditionPatch) (d : Dialog) : Dialog :=
  setOperations (map_op id (fun o => with_conditions ((fun c => if decide (c_id c = cid) then apply_cpatch patch c else c) <$> conditions o) o) (operations d)) d.

Definition removeCondition (id cid : jsstr) (d : Dialog) : Dialog :=
  setOperations (map_op id (fun o => with_conditions (filter (fun c => c_id c ≠ cid) (conditions o)) o) (operations d)) d.

Definition selectedOperation (d : Dialog) : option ParamOverrideOperation := snd <$> list_find (fun o => o_id o = selectedOperationId d) (operations d).

(** [expandAllConditions] and [collapseAllConditions] *)
Definition expandConditions (b : bool) (d : Dialog) : Dialog :=
  match selectedOperation d with
  | Some o => setExpandedConditions (foldl (fun m c => mset (c_id c) b m) (expandedConditions d) (conditions o)) d
  | None => d
  end.

(** ** Drafts inside a value *)

Definition updateReturnErrorDraft (id : jsstr) (patch : ReturnErrorDraft → ReturnErrorDraft) (d : Dialog) : Dialog :=
  setOperations (map_op id (fun o => apply_patch (PValueText (buildReturnErrorValueText (patch (parseReturnErrorDraft (o_value_text o))))) o) (operations d)) d.

(** The updater of [updatePruneObjectsDraft] on the value of one operation *)
Definition prune_value (updater : PruneObjectsDraft → fresh PruneObjectsDraft) (value_text : jsstr) : fresh jsstr :=
  draft ← parsePruneObjectsDraft now value_text;
  next ← updater draft;
  mret (buildPruneObjectsValueText next).

Definition updatePruneObjectsDraft (id : jsstr) (updater : PruneObjectsDraft → fresh PruneObjectsDraft) (d : Dialog) : fresh Dialog :=
  ops ← mapM (fun o => if decide (o_id o = id) then v ← prune_value updater (o_value_text o); mret (apply_patch (PValueText v) o) else mret o) (operations d);
  mret (setOperations ops d).

Definition with_rules (simple : bool) (rs : list PruneRule) (d : PruneObjectsDraft) : PruneObjectsDraft := mkPrune simple (typeText d) (p_logic d) (recursive d) rs.

(** The updaters of the rule buttons *)
Definition add_rule (draft : PruneObjectsDraft) : fresh PruneObjectsDraft :=
  r ← normalizePruneRule now (JObj []); mret (with_rules false (rules draft ++ [r]) draft).
Definition update_rule (ruleId : jsstr) (patch : PruneRule → PruneRule) (draft : PruneObjectsDraft) : fresh PruneObjectsDraft :=
  mret (with_rules (p_simpleMode draft) ((fun r => if decide (r_id r = ruleId) then patch r else r) <$> rules draft) draft).
Definition remove_rule (ruleId : jsstr) (draft : PruneObjectsDraft) : fresh PruneObjectsDraft :=
  mret (with_rules (p_simpleMode draft) (filter (fun r => r_id r ≠ ruleId) (rules draft)) draft).

Definition addPruneRule (id : jsstr) (d : Dialog) : fresh Dialog := updatePruneObjectsDraft id add_rule d.
Definition updatePruneRule (id ruleId : jsstr) (patch : PruneRule → PruneRule) (d : Dialog) : fresh Dialog := updatePruneObjectsDraft id (update_rule ruleId patch) d.
Definition removePruneRule (id ruleId : jsstr) (d : Dialog) : fresh Dialog := updatePruneObjectsDraft id (remove_rule ruleId) d.

(** [pruneObjectsDraft]: what the editor shows of the selected operation *)
Definition pruneObjectsDraft (d : Dialog) : fresh (option PruneObjectsDraft) :=
  match selectedOperation d with
  | Some o => if decide (o_mode o = js "prune_objects") then x ← parsePruneObjectsDraft now (o_value_text o); mret (Some x) else mret None
  | None => mret None
  end.

(** ** Dragging *)

Definition resetDragState (d : Dialog) : Dialog := setDrag [] [] Before d.

Definition handleDragStart (id : jsstr) (d : Dialog) : Dialog := setSelectedOperationId id (setDrag id (dragOverOperationId d) (dragOverPosition d) d).

(** [position]: the half of the row that the pointer is over *)
Definition handleDragOver (id : jsstr) (position : Position) (d : Dialog) : Dialog :=
  if negb (str_true (draggedOperationId d)) || bool_decide (draggedOperationId d = id) then d else setDrag (draggedOperationId d) id position d.

(** [data]: the text that the drag carries *)
Definition handleDrop (id data : jsstr) (d : Dialog) : Dialog :=
  let sourceId := str_or (draggedOperationId d) data in
  let position := if bool_decide (dragOverOperationId d = id) then dragOverPosition d else Before in
  let d :=
    if str_true sourceId && str_true id && negb (bool_decide (sourceId = id))
    then setSelectedOperationId sourceId (setOperations (reorderOperations (operations d) sourceId id position) d) else d in
  resetDragState d.

(** ** Modes and templates *)

Definition buildVisualJson (d : Dialog) : result :=
  match visualMode d with
  | Legacy =>
      let trimmed := trim (legacyValue d) in
      match trimmed with
      | [] => Text []
      | _ =>
          match JSON_parse trimmed with
          | None => Failed (t (js "Parameter override must be valid JSON format") None)
          | Some (JObj fs) => Text (json_text 2 0 (JObj fs))
          | Some _ => Failed (t (js "Legacy format must be a JSON object") None)
          end
      end
  | Operations => buildOperationsJson t (operations d) true
  end.

(** The text without the checks; they are all that can fail. *)
Definition unchecked_text (d : Dialog) : jsstr :=
  match visualMode d with
  | Legacy => legacyValue d
  | Operations => match buildOperationsJson t (operations d) false with Text s => s | Failed s => s end
  end.

Definition switchToJsonMode (d : Dialog) : Dialog :=
  match editMode d with
  | JsonEdit => d
  | VisualEdit =>
      setEditMode JsonEdit
        (match buildVisualJson d with
         | Text s => setJsonError [] (setJsonText s d)
         | Failed m => setJsonError (str_or m (t (js "Parameter configuration error") None)) (setJsonText (unchecked_text d) (tell (ToastError m) d))
         end)
  end.

(** The setters that show operations, or the older format *)
Definition show_operations (ops : list ParamOverrideOperation) (d : Dialog) : Dialog :=
  setEditMode VisualEdit (setJsonError [] (setLegacyValue [] (setSelectedOperationId (first_id ops) (setOperations ops (setVisualMode Operations d))))).
Definition show_legacy (text : jsstr) (o : ParamOverrideOperation) (d : Dialog) : Dialog :=
  setEditMode VisualEdit (setJsonError [] (setSelectedOperationId (o_id o) (setOperations [o] (setLegacyValue text (setVisualMode Legacy d))))).

Definition switchToVisualMode (d : Dialog) : fresh Dialog :=
  match editMode d with
  | VisualEdit => mret d
  | JsonEdit =>
      let trimmed := trim (jsonText d) in
      match trimmed with
      | [] => o ← default_operation; mret (show_operations [o] d)
      | _ =>
          match JSON_parse trimmed with
          | None => mret (tell (ToastError (t (js "Parameter override must be valid JSON format") None)) d)
          | Some parsed =>
              match parsed with
              | JObj _ =>
                  match prop "operations" parsed with
                  | JArr l => ops ← read_operations now l; mret (setTemplatePresetKey (js "operations_default") (show_operations ops d))
                  | _ => o ← default_operation; mret (setTemplatePresetKey (js "legacy_default") (show_legacy (json_text 2 0 parsed) o d))
                  end
              | _ => mret (tell (ToastError (t (js "Parameter override must be a valid JSON object") None)) d)
              end
          end
      end
  end.

(** The members that spreading a parsed value gives *)
Definition spread (v : jsval) : list (jsstr * jsval) :=
  match v with
  | JObj fs => own_fields fs
  | JArr l => imap (fun i x => (str_of_N (N.of_nat i), x)) l
  | JStr s => imap (fun i c => (str_of_N (N.of_nat i), JStr [c])) s
  | _ => []
  end.

Inductive FillMode := Fill | Append.

(** The setters of a template of the older format *)
Definition fill_legacy (text : jsstr) (o : ParamOverrideOperation) (d : Dialog) : Dialog :=
  setEditMode VisualEdit (setJsonError [] (setJsonText text (setOperations [o] (setLegacyValue text (setVisualMode Legacy d))))).

Definition fillTemplate (mode : FillMode) (d : Dialog) : fresh Dialog :=
  let preset := preset_of (templatePresetKey d) in
  match kind preset with
  | Legacy =>
      match mode, visualMode d with
      | Append, Legacy =>
          let trimmed := trim (legacyValue d) in
          match (match trimmed with [] => Some (JObj []) | _ => JSON_parse trimmed end) with
          | None => mret (tell (ToastError (t (js "Current legacy JSON is invalid, cannot append") None)) d)
          | Some parsedCurrent =>
              let merged := foldl (fun m e => mset e.1 e.2 m) (spread (payload preset)) (spread parsedCurrent) in
              o ← default_operation; mret (fill_legacy (json_text 2 0 (JObj merged)) o d)
          end
      | _, _ => o ← default_operation; mret (fill_legacy (json_text 2 0 (payload preset)) o d)
      end
  | Operations =>
      let operationsPayload := match prop "operations" (payload preset) with JArr l => l | _ => [] end in
      match mode with
      | Append =>
          appended ← mapM normalize operationsPayload;
          let existing := match visualMode d with Operations => filter (fun o => isOperationBlank o = false) (operations d) | Legacy => [] end in
          let nextOps := existing ++ appended in
          mret (setJsonText [] (show_operations nextOps d))
      | Fill =>
          nextOps ← mapM normalize operationsPayload;
          finalOps ← match nextOps with [] => o ← default_operation; mret [o] | _ => mret nextOps end;
          mret (setEditMode VisualEdit (setJsonError [] (setJsonText (json_text 2 0 (JObj [(js "operations", JArr operationsPayload)]))
            (setSelectedOperationId (first_id finalOps) (setOperations finalOps (setVisualMode Operations d))))))
      end
  end.

Definition resetEditorState (d : Dialog) : fresh Dialog :=
  o ← default_operation;
  mret (setTemplatePresetKey (js "operations_default") (setJsonText [] (show_operations [o] d))).

Definition handleJsonChange (nextValue : jsstr) (d : Dialog) : Dialog :=
  let d := setJsonText nextValue d in
  let trimmed := trim nextValue in
  setJsonError (if str_true trimmed && negb (verifyJSON trimmed) then t (js "JSON format error") None else []) d.

(** The text that is saved, or the error *)
Definition save_result (d : Dialog) : result :=
  match editMode d with
  | JsonEdit =>
      let trimmed := trim (jsonText d) in
      match trimmed with
      | [] => Text []
      | _ =>
          match JSON_parse trimmed with
          | None => Failed (t (js "Parameter override must be valid JSON format") None)
          | Some v => Text (json_text 2 0 v)
          end
      end
  | VisualEdit => buildVisualJson d
  end.

Definition handleSave (d : Dialog) : Dialog :=
  match save_result d with
  | Text s => tell OnClose (tell (OnSave s) d)
  | Failed m => tell (ToastError m) d
  end.

(** What the screen shows beside the editor *)
Definition operationCount (d : Dialog) : nat := length (filter (fun o => isOperationBlank o = false) (operations d)).

Definition visualValidationError (d : Dialog) : jsstr :=
  match editMode d with
  | JsonEdit => []
  | VisualEdit => match buildVisualJson d with Text _ => [] | Failed m => str_or m (t (js "Parameter configuration error") None) end
  end.

(** The state before the dialog is opened *)
Definition initialDialog : fresh Dialog :=
  o ← default_operation;
  mret (mkDialog VisualEdit Operations [] [o] [] [] [] [] [] [] Before (js "operations_default") []).

(** ** Events *)

Inductive Event :=
| EOpen (value : jsstr)
| ESelect (id : jsstr)
| EUpdate (id : jsstr) (patch : OperationPatch)
| EAdd
| EDuplicate (id : jsstr) (eager : bool)
| ERemove (id : jsstr)
| EAddCondition (id : jsstr)
| EUpdateCondition (id cid : jsstr) (patch : ConditionPatch)
| ERemoveCondition (id cid : jsstr)
| EExpand (b : bool)
| EReturnError (id : jsstr) (patch : ReturnErrorDraft → ReturnErrorDraft)
| EPrune (id : jsstr) (patch : PruneObjectsDraft → PruneObjectsDraft)
| EAddRule (id : jsstr)
| EUpdateRule (id ruleId : jsstr) (patch : PruneRule → PruneRule)
| ERemoveRule (id ruleId : jsstr)
| EDragStart (id : jsstr)
| EDragOver (id : jsstr) (position : Position)
| EDrop (id data : jsstr)
| EDragEnd
| ELegacy (text : jsstr)
| EJson (text : jsstr)
| EToJson
| EToVisual
| ETemplateKey (key : jsstr)
| EFill (mode : FillMode)
| EReset
| ESave.

Definition handle (e : Event) (d : Dialog) : fresh Dialog :=
  match e with
  | EOpen value => openDialog value d
  | ESelect id => mret (setSelectedOperationId id d)
  | EUpdate id patch => mret (updateOperation id patch d)
  | EAdd => addOperation d
  | EDuplicate id eager => duplicateOperation id eager d
  | ERemove id => removeOperation id d
  | EAddCondition id => addCondition id d
  | EUpdateCondition id cid patch => mret (updateCondition id cid patch d)
  | ERemoveCondition id cid => mret (removeCondition id cid d)
  | EExpand b => mret (expandConditions b d)
  | EReturnError id patch => mret (updateReturnErrorDraft id patch d)
  | EPrune id patch => updatePruneObjectsDraft id (fun x => mret (patch x)) d
  | EAddRule id => addPruneRule id d
  | EUpdateRule id ruleId patch => updatePruneRule id ruleId patch d
  | ERemoveRule id ruleId => removePruneRule id ruleId d
  | EDragStart id => mret (handleDragStart id d)
  | EDragOver id position => mret (handleDragOver id position d)
  | EDrop id data => mret (handleDrop id data d)
  | EDragEnd => mret (resetDragState d)
  | ELegacy text => mret (setLegacyValue text d)
  | EJson text => mret (handleJsonChange text d)
  | EToJson => mret (switchToJsonMode d)
  | EToVisual => switchToVisualMode d
  | ETemplateKey key => mret (setTemplatePresetKey (str_or key (js "operations_default")) d)
  | EFill mode => fillTemplate mode d
  | EReset => resetEditorState d
  | ESave => mret (handleSave d)
  end.

(** ** Drafts *)

(** A number in lowest terms *)
Definition reduced (x : num) : Prop := match x with Fin q => Qred q = q | _ => True end.

Definition draft_units (d : ReturnErrorDraft) : Prop := units (message d) ∧ units (code d) ∧ units (type d) ∧ reduced (statusCode d).
Definition rule_ok (r : PruneRule) : Prop := units (r_path r) ∧ r_mode r ∈ CONDITION_MODE_VALUES ∧ units (r_value_text r).
Definition prune_ok (d : PruneObjectsDraft) : Prop := units (typeText d) ∧ Forall rule_ok (rules d).

(** What the inputs and menus of the editor can send *)
Definition event_ok (e : Event) : Prop :=
  match e with
  | EOpen s | ELegacy s | EJson s => units s
  | EUpdate _ p =>
      match p with
      | PDescription s | PPath s | PFrom s | PTo s | PValueText s => units s
      | PFromTo s s' => units s ∧ units s'
      | PMode m => m ∈ OPERATION_MODE_VALUES
      | PKeepOrigin _ | PLogic _ => True
      end
  | EUpdateCondition _ _ p => match p with CPath s | CValueText s => units s | CMode m => m ∈ CONDITION_MODE_VALUES | _ => True end
  | EReturnError _ f => ∀ d, draft_units d → draft_units (f d)
  | EPrune _ f => ∀ d, prune_ok d → prune_ok (f d)
  | EUpdateRule _ _ f => ∀ r, rule_ok r → rule_ok (f r)
  | _ => True
  end.

(** A world: the dialog and the counter of identifiers.  The selection is put right
    after every event; an exception leaves the dialog alone; drawing the screen makes a
    default operation and rules that nobody keeps, which takes identifiers. *)
Inductive dialog_step : Dialog * nat → Dialog * nat → Prop :=
| step_event d n e d' n' : event_ok e → handle e d n = Returns (d', n') → dialog_step (d, n) (keepSelected d', n')
| step_throws d n e n' : event_ok e → handle e d n = Throws → n ≤ n' → dialog_step (d, n) (d, n')
| step_render d n n' : n ≤ n' → dialog_step (d, n) (d, n').

(** ** The invariant *)

Definition ids_of (ops : list ParamOverrideOperation) : list jsstr := ops ≫= op_ids.

Record ops_ok (n : nat) (ops : list ParamOverrideOperation) : Prop := {
  ops_some : ops ≠ [];
  ops_ids : NoDup (ids_of ops);
  ops_drawn : ∀ i, i ∈ ids_of ops → i ∈ drawn now 0 n;
  ops_texts : Forall operation_ok ops
}.

Record dialog_ok (d : Dialog) (n : nat) : Prop := {
  d_ops : ops_ok n (operations d);
  d_selected : selectedOperationId d ∈ (o_id <$> operations d);
  d_legacy : units (legacyValue d);
  d_json : units (jsonText d)
}.

Lemma drawn_mono i n m : i ∈ drawn now 0 n → n ≤ m → i ∈ drawn now 0 m.
Proof. rewrite !elem_of_drawn. intros (k & -> & H1 & H2) H. exists k. split; [done|]. lia. Qed.

Lemma ops_ok_mono n m ops : ops_ok n ops → n ≤ m → ops_ok m ops.
Proof. intros [H1 H2 H3 H4] Hn. split; try done. intros i Hi. eapply drawn_mono; eauto. Qed.

Lemma ids_of_app a b : ids_of (a ++ b) = ids_of a ++ ids_of b.
Proof. apply bind_app. Qed.

Lemma ids_of_sublist l k : sublist l k → sublist (ids_of l) (ids_of k).
Proof.
  induction 1 as [|o l k _ IH|o l k _ IH]; [constructor| |].
  - change (sublist (op_ids o ++ ids_of l) (op_ids o ++ ids_of k)). by apply sublist_app.
  - change (sublist (ids_of l) (op_ids o ++ ids_of k)). by apply sublist_inserts_l.
Qed.

(** Fewer identifiers, other contents *)
Lemma ops_ok_sub n ops ops' : ops_ok n ops → ops' ≠ [] → sublist (ids_of ops') (ids_of ops) → Forall operation_ok ops' → ops_ok n ops'.
Proof.
  intros [H1 H2 H3 H4] Hne Hs Hok. split; try done; [by eapply sublist_NoDup|]. intros i Hi. apply H3. by eapply elem_of_sublist.
Qed.

Lemma map_op_ids id f ops : (∀ o, sublist (op_ids (f o)) (op_ids o)) → sublist (ids_of (map_op id f ops)) (ids_of ops).
Proof.
  intros Hf. induction ops as [|o ops IH]; [constructor|]. unfold map_op. rewrite fmap_cons. fold (map_op id f ops).
  change (sublist (op_ids (if decide (o_id o = id) then f o else o) ++ ids_of (map_op id f ops)) (op_ids o ++ ids_of ops)). apply sublist_app; [|done].
  case_decide; [apply Hf|done].
Qed.

Lemma map_op_ok id f ops : Forall operation_ok ops → (∀ o, operation_ok o → operation_ok (f o)) → Forall operation_ok (map_op id f ops).
Proof. intros H Hf. apply Forall_fmap. eapply Forall_impl; [exact H|]. intros o Ho. cbn. case_decide; auto. Qed.

Lemma map_op_nonempty id f ops : ops ≠ [] → map_op id f ops ≠ [].
Proof. by destruct ops. Qed.

Lemma ops_ok_map n id f ops : ops_ok n ops → (∀ o, sublist (op_ids (f o)) (op_ids o)) → (∀ o, operation_ok o → operation_ok (f o)) → ops_ok n (map_op id f ops).
Proof. intros H Hs Hf. pose proof H as [H1 H2 H3 H4]. eapply ops_ok_sub; [done|by apply map_op_nonempty|by apply map_op_ids|by apply map_op_ok]. Qed.

Lemma patch_ids p o : op_ids (apply_patch p o) = op_ids o.
Proof. by destruct p. Qed.

Lemma patch_ok id p o : event_ok (EUpdate id p) → operation_ok o → operation_ok (apply_patch p o).
Proof. intros Hp (H1 & H2 & H3 & H4 & H5 & H6 & H7). destruct p; cbn in Hp; split_and!; try done; apply Hp. Qed.

Lemma value_ok s o : units s → operation_ok o → operation_ok (apply_patch (PValueText s) o).
Proof. intros Hs. by apply (patch_ok [] (PValueText s)). Qed.

Lemma with_conditions_ok cs o : operation_ok o → Forall condition_ok cs → operation_ok (with_conditions cs o).
Proof. intros (H1 & H2 & H3 & H4 & H5 & H6 & H7) Hc. split_and!; done. Qed.

Lemma cpatch_ok id cid p c : event_ok (EUpdateCondition id cid p) → condition_ok c → condition_ok (apply_cpatch p c).
Proof. intros Hp (H1 & H2 & H3). destruct p; split_and!; done. Qed.

(** ** What reading can return *)

Definition returns {A} (ids : A → list jsstr) (m : fresh A) (Q : A → Prop) : Prop :=
  ∀ n a n', m n = Returns (a, n') → n ≤ n' ∧ ids a = drawn now n n' ∧ Q a.

Lemma yields_returns {A} (ids : A → list jsstr) m Q : yields now ids m Q → returns ids m Q.
Proof. intros H n a n' E. destruct (H n) as (a' & m' & E' & H1 & H2 & H3). rewrite E in E'. by injection E' as -> ->. Qed.

Lemma drawn_nil n : drawn now n n = [].
Proof. unfold drawn. by rewrite Nat.sub_diag. Qed.

Lemma returns_mapM {A B} (ids : B → list jsstr) (f : A → fresh B) (R : A → B → Prop) l :
  Forall (fun a => returns ids (f a) (R a)) l → returns (fun bs => bs ≫= ids) (mapM f l) (Forall2 R l).
Proof.
  induction 1 as [|a l Ha _ IH]; intros n bs n' E.
  - injection E as <- <-. split_and!; [lia|by rewrite drawn_nil|constructor].
  - cbn [mapM] in E. rewrite bind_run in E. destruct (f a n) as [|[b n1]] eqn:E1; [done|]. rewrite bind_run in E.
    destruct (mapM f l n1) as [|[bs' n2]] eqn:E2; [done|]. injection E as <- <-. destruct (Ha _ _ _ E1) as (L1 & I1 & R1). destruct (IH _ _ _ E2) as (L2 & I2 & R2).
    split_and!; [lia| |by constructor]. change (ids b ++ (bs' ≫= ids) = drawn now n n2). rewrite I1, I2. symmetry. by apply drawn_app.
Qed.

Lemma condition_returns v : returns (fun c => [c_id c]) (normalizeCondition now v) (fun c => erase_c c = condition_of v).
Proof. destruct v; try (apply yields_returns, normalizeCondition_yields; done). intros n a n' E. done. Qed.

Lemma conditions_readable l n cs n' : mapM (normalizeCondition now) l n = Returns (cs, n') → Forall readable l.
Proof.
  revert n cs n'. induction l as [|v l IH]; intros n cs n' E; [constructor|]. cbn [mapM] in E. rewrite bind_run in E.
  destruct (normalizeCondition now v n) as [|[c n1]] eqn:E1; [done|]. rewrite bind_run in E. destruct (mapM (normalizeCondition now) l n1) as [|[cs' n2]] eqn:E2; [done|].
  constructor; [|by eapply IH]. intros ->. done.
Qed.

Lemma operation_returns v : returns op_ids (normalize v) (fun o => erase o = operation_of v).
Proof.
  intros n a n' E. assert (operation_readable v) as Hr; [|by eapply (yields_returns _ _ _ (normalizeOperation_yields now v Hr))].
  assert (v ≠ JNull) as Hn by (by intros ->). split; [done|]. destruct (prop "conditions" v) as [| | | | |l|] eqn:Ec; try done.
  destruct v as [| | | | | |fs]; try done. unfold normalizeOperation, on_object in E. rewrite bind_run in E. cbn [nextLocalId] in E. rewrite Ec, bind_run in E.
  destruct (mapM (normalizeCondition now) l (S n)) as [|[cs n1]] eqn:E1; [done|]. by eapply conditions_readable.
Qed.

Lemma plain_prop k v : JsonPrint.plain v → prop k v = JUndef ∨ JsonPrint.plain (prop k v).
Proof.
  intros Hp. destruct v as [| | | | | |fs]; try (by left). rewrite prop_mget. apply plain_obj in Hp as [_ Hp].
  destruct (mget (js k) fs) as [w|] eqn:E; [right|by left]. apply mget_Some_elem in E. rewrite Forall_forall in Hp. by apply (Hp _ E).
Qed.

Lemma text_units k v : JsonPrint.plain v → units (text_of k v).
Proof. intros Hp. unfold text_of, str_field. destruct (plain_prop k v Hp) as [->|H]; [constructor|]. destruct (prop k v); try constructor. done. Qed.

Lemma value_units v : JsonPrint.plain v → units (toValueText (prop "value" v)).
Proof. intros Hp. destruct (plain_prop "value" v Hp) as [->|H]; [constructor|]. by apply value_text_units. Qed.

Lemma mode_or_in modes d v : d ∈ modes → mode_or modes d v ∈ modes.
Proof. intros Hd. unfold mode_or. destruct (prop "mode" v); try done. unfold has. by case_bool_decide. Qed.

Lemma condition_of_ok v : JsonPrint.plain v → condition_ok (condition_of v).
Proof. intros Hp. split_and!; [apply mode_or_in; decided|by apply text_units|by apply value_units]. Qed.

Lemma operation_of_ok v : JsonPrint.plain v → operation_ok (operation_of v).
Proof.
  intros Hp. split_and!; [apply mode_or_in; decided|by apply text_units..|by apply value_units|]. cbn [operation_of conditions].
  destruct (plain_prop "conditions" v Hp) as [->|H]; [constructor|]. destruct (prop "conditions" v) as [| | | | |l|]; try constructor.
  apply plain_arr in H. apply Forall_fmap. eapply Forall_impl; [exact H|]. apply condition_of_ok.
Qed.

(** A list of new operations *)
Definition new_ops (n n' : nat) (ops : list ParamOverrideOperation) : Prop := n ≤ n' ∧ ids_of ops = drawn now n n' ∧ Forall operation_ok ops.

Lemma read_new l n ops n' : Forall JsonPrint.plain l → mapM normalize l n = Returns (ops, n') → new_ops n n' ops ∧ length ops = length l.
Proof.
  intros Hp E. destruct (returns_mapM op_ids normalize (fun v o => erase o = operation_of v) l ltac:(apply Forall_forall; intros; apply operation_returns) _ _ _ E) as (L & I & R).
  split; [|symmetry; by eapply Forall2_length]. split_and!; [done|done|]. clear -R Hp. induction R as [|v o l ops Ho _ IH]; [constructor|].
  apply Forall_cons in Hp as [Hv Hp]. constructor; [|auto]. apply operation_ok_erase. rewrite Ho. by apply operation_of_ok.
Qed.

Lemma default_new n o n' : default_operation n = Returns (o, n') → new_ops n n' [o].
Proof.
  intros E. destruct (operation_returns _ _ _ _ E) as (L & I & R). split_and!; [done| |].
  - unfold ids_of. cbn. by rewrite app_nil_r.
  - apply Forall_singleton, operation_ok_erase. rewrite R. apply operation_of_ok. apply plain_obj. split; [apply NoDup_singleton|]. apply Forall_singleton. split; lit.
Qed.

Lemma default_total n : ∃ o n', default_operation n = Returns (o, n').
Proof. by eexists _, _. Qed.

Lemma new_ops_ok n n' ops : new_ops n n' ops → ops ≠ [] → ops_ok n' ops.
Proof.
  intros (L & I & H) Hne. split; [done|rewrite I; apply drawn_NoDup| |done]. intros i. rewrite I, !elem_of_drawn. intros (k & -> & H1 & H2). exists k. split; [done|]. lia.
Qed.

(** Old operations and new ones *)
Lemma ops_ok_join n n' ops new a b : ops_ok n ops → new_ops n n' new → a ++ b ≠ [] ∨ new ≠ [] → sublist (ids_of (a ++ b)) (ids_of ops) → Forall operation_ok (a ++ b) →
  ops_ok n' (a ++ new ++ b).
Proof.
  intros [H1 H2 H3 H4] (L & I & H) Hne Hs Hok. assert (Permutation (ids_of (a ++ new ++ b)) (ids_of (a ++ b) ++ drawn now n n')) as Hp.
  { rewrite !ids_of_app, I, <- app_assoc. f_equiv. apply Permutation_app_comm. }
  split.
  - destruct a, new, b; naive_solver.
  - rewrite Hp. apply NoDup_app. split_and!; [by eapply sublist_NoDup| |apply drawn_NoDup]. intros i Hi Hd. eapply elem_of_sublist in Hi; [|done]. apply H3 in Hi.
    rewrite elem_of_drawn in Hi, Hd. destruct Hi as (k & -> & _ & Hk), Hd as (k' & E & Hk' & _). apply id_of_inj in E. lia.
  - intros i. rewrite Hp, elem_of_app. intros [Hi|Hi].
    + eapply elem_of_sublist in Hi; [|done]. eapply drawn_mono; eauto.
    + rewrite elem_of_drawn in Hi |- *. destruct Hi as (k & -> & Hk1 & Hk2). exists k. split; [done|]. lia.
  - rewrite !Forall_app in *. naive_solver.
Qed.

(** ** Drafts stay in order *)

Lemma js_String_units v : JsonPrint.plain v → units (js_String v).
Proof.
  induction v as [| |b|x|s|l IH|fs IH] using jsval_nested_ind; intros Hp.
  - done.
  - change (units (js "null")). lit.
  - destruct b; [change (units (js "true"))|change (units (js "false"))]; lit.
  - by apply num_str_units.
  - done.
  - apply plain_arr in Hp. apply str_join_units; [lit|]. apply Forall_fmap. rewrite Forall_forall in *. intros v Hv. pose proof (IH v Hv (Hp v Hv)) as Hu.
    destruct v; try done; constructor.
  - change (units (js "[object Object]")). lit.
Qed.

Lemma or_else_units v d : (v = JUndef ∨ JsonPrint.plain v) → units (js_String d) → units (js_String (or_else v d)).
Proof. unfold or_else. intros [->|Hv] Hd; [done|]. destruct (truthy v); [by apply js_String_units|done]. Qed.

Lemma parse_decimal_reduced s q : parse_decimal s = Some q → Qred q = q.
Proof.
  unfold parse_decimal. destruct (take_digits s) as [int s1]. destruct (match s1 with 46%N :: r => _ | _ => _ end) as [frac s2].
  destruct (int ++ frac); [done|]. destruct (parse_exponent s2) as [[e [|]]|]; try done. intros [= <-]. apply Qred_involutive.
Qed.

Lemma num_of_Z_reduced z : reduced (num_of_Z z).
Proof. apply Qred_inject. Qed.

Lemma Number_str_reduced s : reduced (Number_str s).
Proof.
  unfold Number_str. repeat case_match; try done; try apply num_of_Z_reduced;
    match goal with H : parse_decimal _ = Some _ |- _ => apply parse_decimal_reduced in H; cbn; by rewrite ?Qred_opp, H end.
Qed.

Lemma Number_text_reduced s : reduced (Number_text s).
Proof. unfold Number_text. repeat case_match; first [done|apply num_of_Z_reduced|apply Number_str_reduced]. Qed.

Lemma Number_of_reduced v : (v = JUndef ∨ JsonPrint.plain v) → reduced (Number_of v).
Proof.
  intros [->|Hp]; [done|]. destruct v as [| |b|x|s|l|fs]; try done; try apply num_of_Z_reduced; try apply Number_text_reduced. destruct x; try done. by destruct Hp.
Qed.

Lemma status_canonical x : reduced x → is_canonical (status_or x).
Proof.
  intros Hr. unfold status_or. destruct (_ && _) eqn:E; [|split; [done|exists 0; by exists 1%Z]]. apply andb_true_iff in E as [E _]. apply andb_true_iff in E as [E _].
  destruct x as [| |q]; try done. cbn in E. apply Z.eqb_eq in E. cbn in Hr. split; [done|].
  assert (q == inject_Z (Qnum q / Zpos (Qden q)))%Q as Hq by (unfold Qeq, inject_Z; cbn; pose proof (Z.div_mod (Qnum q) (Zpos (Qden q))); lia).
  apply Qred_complete in Hq. rewrite Qred_inject in Hq. exists 0. rewrite Hq. by exists 1%Z.
Qed.

Lemma canonical_reduced x : is_canonical x → reduced x.
Proof. destruct x; [done..|]. by intros [? _]. Qed.

Lemma parse_return_units s : units s → draft_units (parseReturnErrorDraft s).
Proof.
  intros Hs. apply trim_units in Hs. unfold parseReturnErrorDraft. cbv zeta. destruct (trim s) as [|c r]; [split_and!; [constructor..|apply num_of_Z_reduced]|].
  destruct (JSON_parse (c :: r)) as [v|] eqn:E; [apply JSON_parse_plain in E; [|done]; destruct v as [| | | | | |fs]|];
    try (split_and!; [done|constructor|constructor|apply num_of_Z_reduced]).
  assert (∀ k, prop k (JObj fs) = JUndef ∨ JsonPrint.plain (prop k (JObj fs))) as Hp by (intros k; by apply plain_prop).
  split_and!; [apply trim_units, or_else_units; [apply Hp|]; apply or_else_units; [apply Hp|constructor]|apply trim_units, or_else_units; [apply Hp|constructor]..|].
  apply canonical_reduced, status_canonical, Number_of_reduced. destruct (prop "status_code" (JObj fs)) eqn:E1; [apply Hp| | | | | |]; rewrite <- E1; apply Hp.
Qed.

Lemma return_payload_plain d : draft_units d → simpleMode d = false → ∃ p, buildReturnErrorValueText d = json_text 0 0 (JObj p) ∧ plain_fields p.
Proof.
  intros (Hm & Hc & Ht & Hs) Hsm. unfold buildReturnErrorValueText. rewrite Hsm. cbv zeta. eexists. split; [reflexivity|].
  repeat (apply plain_put; [lit|first [done|by apply trim_units]|]). split; [change (NoDup [js "message"; js "status_code"]); decided|].
  repeat apply Forall_cons_2; cbn [fst snd]; [split; [lit|by apply trim_units]|split; [lit|by apply status_canonical]|constructor].
Qed.

Lemma build_return_units d : draft_units d → units (buildReturnErrorValueText d).
Proof.
  intros Hd. destruct (simpleMode d) eqn:E; [unfold buildReturnErrorValueText; rewrite E; apply trim_units, Hd|].
  destruct (return_payload_plain d Hd E) as (p & -> & Hp). by apply json_text_units, plain_obj.
Qed.

(** ** Drafts of [prune_objects] *)

Definition rule_of (v : jsval) : PruneRule :=
  mkRule [] (text_of "path" v) (mode_or CONDITION_MODE_VALUES (js "full") v) (toValueText (prop "value" v)) (is_true (prop "invert" v)) (is_true (prop "pass_missing_key" v)).
Definition erase_r (r : PruneRule) : PruneRule := mkRule [] (r_path r) (r_mode r) (r_value_text r) (r_invert r) (r_pass_missing_key r).

Lemma drawn_one n : drawn now n (S n) = [id_of now n].
Proof. unfold drawn. by replace (S n - n) with 1 by lia. Qed.

Lemma rule_yields v : v ≠ JNull → yields now (fun r => [r_id r]) (normalizePruneRule now v) (fun r => erase_r r = rule_of v).
Proof.
  intros Hv n. unfold normalizePruneRule, on_object. destruct v; try done; (eexists _, (S n); split; [reflexivity|]; split_and!; [lia|by rewrite drawn_one|done]).
Qed.

Lemma rule_of_ok v : JsonPrint.plain v → rule_ok (rule_of v).
Proof. intros Hp. split_and!; [by apply text_units|apply mode_or_in; decided|by apply value_units]. Qed.

Lemma rules_yield l : Forall (fun v => v ≠ JNull) l → yields now (fun rs => r_id <$> rs) (mapM (normalizePruneRule now) l) (fun rs => erase_r <$> rs = rule_of <$> l).
Proof.
  intros Hl n. destruct (yields_mapM now (fun r => [r_id r]) (normalizePruneRule now) (fun v r => erase_r r = rule_of v) l ltac:(eapply Forall_impl; [exact Hl|]; apply rule_yields) n)
    as (rs & n' & E & L & I & R). exists rs, n'. split_and!; [done|done| |].
  - rewrite <- I. clear. induction rs as [|r rs IH]; [done|]. rewrite fmap_cons. cbn. by rewrite IH.
  - clear -R. induction R as [|? ? ? ? E _ IH]; [done|]. by rewrite !fmap_cons, E, IH.
Qed.

(** The value that an entry of an object stands for *)
Definition entry_value (e : jsstr * jsval) : jsval := JObj [(js "path", JStr e.1); (js "mode", JStr (js "full")); (js "value", e.2)].

Lemma mapM_fmap {A B C} (f : B → fresh C) (g : A → B) l n : mapM f (g <$> l) n = mapM (fun x => f (g x)) l n.
Proof.
  revert n. induction l as [|x l IH]; intros n; [done|]. rewrite fmap_cons. cbn [mapM]. rewrite !bind_run. destruct (f (g x) n) as [|[c n1]]; [done|].
  rewrite !bind_run, IH. done.
Qed.

Lemma entries_yield fs : yields now (fun rs => r_id <$> rs) (rules_of_entries now fs) (fun rs => erase_r <$> rs = (fun e => rule_of (entry_value e)) <$> own_fields fs).
Proof.
  intros n. unfold rules_of_entries. destruct (rules_yield (entry_value <$> own_fields fs) ltac:(apply Forall_fmap, Forall_forall; by intros e _) n) as (rs & n' & E & L & I & R).
  exists rs, n'. rewrite mapM_fmap in E. split_and!; [done|done|done|]. by rewrite R, <- list_fmap_compose.
Qed.

Definition erase_p (d : PruneObjectsDraft) : PruneObjectsDraft := mkPrune (p_simpleMode d) (typeText d) (p_logic d) (recursive d) (erase_r <$> rules d).

(** The draft of a parsed object *)
Definition draft_of_object (parsed : jsval) : PruneObjectsDraft :=
  mkPrune
    (is_undef (prop "logic" parsed) && is_undef (prop "recursive" parsed) && is_undef (prop "where" parsed) && is_undef (prop "conditions" parsed))
    (match prop "type" parsed with JUndef => [] | v => trim (js_String v) end)
    (if is_word (js "OR") (js "AND") (prop "logic" parsed) then js "OR" else js "AND")
    (match prop "recursive" parsed with JBool false => false | _ => true end)
    (match prop "where" parsed with JObj es => (fun e => rule_of (entry_value e)) <$> own_fields es | _ => [] end
     ++ match prop "conditions" parsed with
        | JArr items => rule_of <$> filter (fun i => truthy i && is_object i = true) items
        | JObj es => (fun e => rule_of (entry_value e)) <$> own_fields es
        | _ => []
        end).

(** What the editor shows of a value *)
Definition draft_of (s : jsstr) : PruneObjectsDraft :=
  let simple text := mkPrune true text (js "AND") true [] in
  match trim s with
  | [] => simple []
  | raw =>
      match JSON_parse raw with
      | None => simple raw
      | Some (JStr s) => simple (trim s)
      | Some (JObj fs) => draft_of_object (JObj fs)
      | Some JNull => simple []
      | Some v => simple (trim (js_String v))
      end
  end.

Lemma simple_yields text : yields now (fun d => r_id <$> rules d) (mret (mkPrune true text (js "AND") true [])) (fun d => erase_p d = mkPrune true text (js "AND") true []).
Proof. intros n. eexists _, n. split_and!; [done|lia|by rewrite drawn_nil|done]. Qed.

Lemma nothing_yields : yields now (fun rs => r_id <$> rs) (mret []) (fun rs => erase_r <$> rs = []).
Proof. intros n. eexists _, n. split_and!; [done|lia|by rewrite drawn_nil|done]. Qed.

Lemma parse_prune_yields s : yields now (fun d => r_id <$> rules d) (parsePruneObjectsDraft now s) (fun d => erase_p d = draft_of s).
Proof.
  unfold parsePruneObjectsDraft, draft_of. cbv zeta. destruct (trim s) as [|c r]; [apply simple_yields|].
  destruct (JSON_parse (c :: r)) as [v|]; [|apply simple_yields]. destruct v as [| | | | | |fs]; try apply simple_yields.
  intros n. rewrite bind_run.
  assert (yields now (fun rs => r_id <$> rs) (match prop "where" (JObj fs) with JObj es => rules_of_entries now es | _ => mret [] end)
            (fun rs => erase_r <$> rs = match prop "where" (JObj fs) with JObj es => (fun e => rule_of (entry_value e)) <$> own_fields es | _ => [] end)) as Hw
    by (destruct (prop "where" (JObj fs)); [apply nothing_yields..|apply entries_yield]).
  destruct (Hw n) as (ws & n1 & -> & L1 & I1 & R1). rewrite bind_run.
  assert (yields now (fun rs => r_id <$> rs)
            (match prop "conditions" (JObj fs) with
             | JArr items => mapM (normalizePruneRule now) (filter (fun i => truthy i && is_object i = true) items)
             | JObj es => rules_of_entries now es
             | _ => mret []
             end)
            (fun rs => erase_r <$> rs = match prop "conditions" (JObj fs) with
              | JArr items => rule_of <$> filter (fun i => truthy i && is_object i = true) items
              | JObj es => (fun e => rule_of (entry_value e)) <$> own_fields es
              | _ => []
              end)) as Hc.
  { destruct (prop "conditions" (JObj fs)) as [| | | | |items|es]; [apply nothing_yields..| |apply entries_yield]. apply rules_yield.
    eapply Forall_impl; [apply filter_Forall|]. intros v Hv ->. done. }
  destruct (Hc n1) as (cs & n2 & -> & L2 & I2 & R2). eexists _, n2. split; [reflexivity|]. split_and!; [lia| |].
  - cbn [rules]. rewrite fmap_app, I1, I2. symmetry. by apply drawn_app.
  - unfold erase_p, draft_of_object. cbn [p_simpleMode typeText p_logic recursive rules]. by rewrite fmap_app, R1, R2.
Qed.

Lemma entry_value_plain e : units e.1 → JsonPrint.plain e.2 → JsonPrint.plain (entry_value e).
Proof.
  intros H1 H2. apply plain_obj. split; [change (NoDup [js "path"; js "mode"; js "value"]); decided|].
  repeat apply Forall_cons_2; cbn [fst snd]; [split; [lit|done]|split; [lit|change (units (js "full")); lit]|split; [lit|done]|constructor].
Qed.

Lemma draft_of_ok s : units s → prune_ok (draft_of s).
Proof.
  intros Hs. apply trim_units in Hs. unfold draft_of. destruct (trim s) as [|c r]; [split; constructor|].
  destruct (JSON_parse (c :: r)) as [v|] eqn:E; [|by split; [|constructor]]. apply JSON_parse_plain in E; [|done].
  assert (units (js_String v)) as Hv by (by apply js_String_units).
  destruct v as [| | | |s'| |fs]; try (split; [first [by apply trim_units|done|constructor]|constructor]).
  assert (∀ es, JsonPrint.plain (JObj es) → Forall rule_ok ((fun e => rule_of (entry_value e)) <$> own_fields es)) as He.
  { intros es [_ He]%plain_obj. apply Forall_fmap. rewrite own_fields_perm. eapply Forall_impl; [exact He|]. intros e [H1 H2]. by apply rule_of_ok, entry_value_plain. }
  unfold draft_of_object. split; cbn [typeText rules].
  - destruct (plain_prop "type" (JObj fs) E) as [->|H]; [constructor|]. apply js_String_units in H. destruct (prop "type" _); first [by apply trim_units|constructor].
  - apply Forall_app. split.
    + destruct (plain_prop "where" (JObj fs) E) as [->|H]; [constructor|]. destruct (prop "where" _); try constructor. by apply He.
    + destruct (plain_prop "conditions" (JObj fs) E) as [->|H]; [constructor|]. destruct (prop "conditions" _) as [| | | | |items|es]; try constructor; [|by apply He].
      apply plain_arr in H. apply Forall_fmap. rewrite Forall_forall in *. intros v [_ Hv']%list_elem_of_filter. by apply rule_of_ok, H.
Qed.

Lemma erase_prune_ok d : prune_ok (erase_p d) → prune_ok d.
Proof. intros [H1 H2]. split; [done|]. cbn [erase_p rules] in H2. rewrite Forall_fmap in H2. exact H2. Qed.

(** ** Printing a draft *)

Lemma rule_payload_plain r : rule_ok r → JsonPrint.plain (rule_payload r).
Proof.
  intros (Hp & Hm & Hv). destruct (units_mode _ (or_intror Hm)) as [Hu _]. apply plain_obj. cbv zeta.
  do 2 (apply plain_put; [lit|done|]). apply plain_put; [lit|by apply loose_plain, trim_units|].
  unfold has. rewrite bool_decide_true by done. split; [change (NoDup [js "path"; js "mode"]); decided|].
  repeat apply Forall_cons_2; cbn [fst snd]; [split; [lit|by apply trim_units]|split; [lit|done]|constructor].
Qed.

(** The payload of a draft that is not simple *)
Definition prune_fields (d : PruneObjectsDraft) : list (jsstr * jsval) :=
  let conditions := rule_payload <$> filter (fun r => blank (r_path r) = false) (rules d) in
  put (negb (Nat.eqb (length conditions) 0)) "conditions" (JArr conditions)
   (put (negb (recursive d)) "recursive" (JBool false)
    (put (bool_decide (upper (str_or (p_logic d) (js "AND")) = js "OR")) "logic" (JStr (js "OR"))
     (put (str_true (trim (typeText d))) "type" (JStr (trim (typeText d))) []))).

Definition kept_rules (d : PruneObjectsDraft) : list PruneRule := filter (fun r => blank (r_path r) = false) (rules d).

Lemma build_prune_eq d : p_simpleMode d = false → buildPruneObjectsValueText d =
  json_text 0 0 (JObj (if negb (str_true (trim (typeText d))) && Nat.eqb (length (kept_rules d)) 0 then [(js "logic", JStr (js "AND"))] else prune_fields d)).
Proof. intros Hs. unfold buildPruneObjectsValueText, kept_rules, prune_fields. rewrite Hs. cbv zeta. rewrite !length_fmap. by destruct (negb (str_true (trim (typeText d))) && _). Qed.

Lemma prune_fields_plain d : prune_ok d → plain_fields (prune_fields d).
Proof.
  intros [Ht Hr]. unfold prune_fields. cbv zeta. apply plain_put; [lit| |].
  - apply plain_arr, Forall_fmap. rewrite Forall_forall in *. intros r [_ H]%list_elem_of_filter. by apply rule_payload_plain, Hr.
  - apply plain_put; [lit|done|]. apply plain_put; [lit|change (units (js "OR")); lit|]. apply plain_put; [lit|by apply trim_units|]. split; constructor.
Qed.

Lemma logic_plain : JsonPrint.plain (JObj [(js "logic", JStr (js "AND"))]).
Proof. apply plain_obj. split; [apply NoDup_singleton|]. apply Forall_singleton. split; [lit|change (units (js "AND")); lit]. Qed.

Lemma build_prune_units d : prune_ok d → units (buildPruneObjectsValueText d).
Proof.
  intros Hd. destruct (p_simpleMode d) eqn:E; [unfold buildPruneObjectsValueText; rewrite E; apply trim_units, Hd|]. rewrite build_prune_eq by done.
  apply json_text_units. destruct (_ && _); [apply logic_plain|]. by apply plain_obj, prune_fields_plain.
Qed.

(** ** A printed draft read back *)

Definition shown_rule (r : PruneRule) : PruneRule :=
  mkRule [] (trim (r_path r)) (r_mode r) (if str_true (trim (r_value_text r)) then shown_value (r_value_text r) else []) (r_invert r) (r_pass_missing_key r).

Definition is_or (d : PruneObjectsDraft) : bool := bool_decide (upper (str_or (p_logic d) (js "AND")) = js "OR").

(** A draft that is not simple, as it is shown after printing *)
Definition shown_draft (d : PruneObjectsDraft) : PruneObjectsDraft :=
  if negb (str_true (trim (typeText d))) && Nat.eqb (length (kept_rules d)) 0 then mkPrune false [] (js "AND") true []
  else mkPrune (negb (is_or d) && recursive d && Nat.eqb (length (kept_rules d)) 0) (trim (typeText d)) (if is_or d then js "OR" else js "AND") (recursive d)
         (shown_rule <$> kept_rules d).

(** Members of what is printed *)
Ltac look :=
  repeat first [rewrite mget_put_eq | rewrite mget_put_ne by decided | rewrite mget_head | rewrite mget_next by decided
               | match goal with |- context [mget ?k (@nil (list N * jsval))] => change (mget k (@nil (list N * jsval))) with (@None jsval) end].

Lemma loose_trim s : parseLooseValue (trim s) = parseLooseValue s.
Proof. unfold parseLooseValue. by rewrite trim_idemp. Qed.

Lemma rule_of_payload r : rule_ok r → rule_of (enumerated (rule_payload r)) = shown_rule r.
Proof.
  intros Hr. pose proof (rule_payload_plain r Hr) as Hp. destruct Hr as (_ & Hm & _). apply plain_obj in Hp as [Hnd _]. unfold rule_of, text_of, str_field, mode_or, rule_payload.
  assert (has (r_mode r) CONDITION_MODE_VALUES = true) as Hh by (by apply bool_decide_eq_true). rewrite !prop_enumerated by done. rewrite !Hh. look.
  cbn [fmap option_fmap option_map default from_option id enumerated]. rewrite Hh. unfold shown_rule. f_equal; [|by destruct (r_invert r)|by destruct (r_pass_missing_key r)]. destruct (str_true (trim (r_value_text r))); [|done]. cbn. unfold shown_value. by rewrite loose_trim.
Qed.

Lemma draft_of_text s v : JsonPrint.plain v → s = json_text 0 0 v → (∃ fs, enumerated v = JObj fs) → draft_of s = draft_of_object (enumerated v).
Proof.
  intros Hp -> [fs E]. unfold draft_of. rewrite json_text_trim by done. pose proof (json_text_nonempty 0 v Hp) as Hne. pose proof (JSON_parse_text 0 v Hp) as Hj.
  destruct (json_text 0 0 v); [done|]. by rewrite Hj, E.
Qed.

Lemma rule_payload_kept (l : list PruneRule) :
  filter (fun i => truthy i && is_object i = true) (enumerated <$> (rule_payload <$> l)) = enumerated <$> (rule_payload <$> l).
Proof. apply filter_all. apply Forall_fmap, Forall_fmap, Forall_forall. by intros r _. Qed.

Lemma prune_back d : prune_ok d → p_simpleMode d = false → draft_of (buildPruneObjectsValueText d) = shown_draft d.
Proof.
  intros Hd Hs. pose proof (build_prune_eq d Hs) as E0. set (fs := if negb (str_true (trim (typeText d))) && Nat.eqb (length (kept_rules d)) 0 then [(js "logic", JStr (js "AND"))] else prune_fields d) in E0.
  assert (JsonPrint.plain (JObj fs)) as Hp by (unfold fs; destruct (_ && _); [apply logic_plain|by apply plain_obj, prune_fields_plain]).
  rewrite (draft_of_text _ _ Hp E0 ltac:(by eexists)). clear E0 Hp. unfold fs. clear fs.
  unfold shown_draft. destruct (negb (str_true (trim (typeText d))) && _) eqn:E.
  - unfold draft_of_object. rewrite !prop_enumerated by apply NoDup_singleton. look. by vm_compute.
  - pose proof (prune_fields_plain d Hd) as [Hnd _]. destruct Hd as [_ Hr]. unfold draft_of_object. rewrite !prop_enumerated by done. unfold prune_fields. fold (kept_rules d) (is_or d). cbv zeta.
    look. rewrite !length_fmap. cbn [fmap option_fmap option_map default from_option id].
    set (T := trim (typeText d)) in *.
    assert (Forall rule_ok (kept_rules d)) as Hk by (rewrite Forall_forall in *; intros r [_ H]%list_elem_of_filter; by apply Hr).
    f_equal.
    + destruct (is_or d), (recursive d), (kept_rules d); done.
    + destruct (str_true T) eqn:ET; [|apply str_true_false in ET; by rewrite ET]. cbn. apply trim_idemp.
    + destruct (is_or d); by vm_compute.
    + by destruct (recursive d).
    + cbn [app]. destruct (Nat.eqb (length (kept_rules d)) 0) eqn:El; cbn [negb].
      * apply Nat.eqb_eq, nil_length_inv in El. by rewrite El.
      * cbn [default from_option id fmap option_fmap option_map enumerated]. rewrite rule_payload_kept, <- !list_fmap_compose. apply list_fmap_ext. intros i r Hi. cbn.
        apply list_elem_of_lookup_2 in Hi. rewrite Forall_forall in Hk. by apply rule_of_payload, Hk.
Qed.

(** ** Buttons that do nothing *)

Lemma build_erase d : buildPruneObjectsValueText (erase_p d) = buildPruneObjectsValueText d.
Proof.
  assert (rule_payload <$> filter (fun r => blank (r_path r) = false) (erase_r <$> rules d) = rule_payload <$> filter (fun r => blank (r_path r) = false) (rules d)) as E.
  { induction (rules d) as [|r rs IH]; [done|]. rewrite fmap_cons, !filter_cons. cbn [erase_r r_path]. case_decide; [|exact IH]. rewrite !fmap_cons, IH. done. }
  unfold buildPruneObjectsValueText. cbn [erase_p typeText p_simpleMode p_logic recursive rules]. by rewrite E.
Qed.

(** The value printed again as it is, and with the advanced mode switched on *)
Definition reprinted (s : jsstr) : jsstr := buildPruneObjectsValueText (draft_of s).
Definition advanced (s : jsstr) : jsstr := buildPruneObjectsValueText (with_rules false (rules (draft_of s)) (draft_of s)).

(** A dialog in which the value of an operation is replaced *)
Definition with_value (id : jsstr) (F : jsstr → jsstr) (d : Dialog) : Dialog :=
  setOperations (map_op id (fun o => apply_patch (PValueText (F (o_value_text o))) o) (operations d)) d.

Lemma update_prune_value id U F n d : (∀ s m, n ≤ m → ∃ m', m ≤ m' ∧ prune_value U s m = Returns (F s, m')) →
  ∃ n', n ≤ n' ∧ updatePruneObjectsDraft id U d n = Returns (with_value id F d, n').
Proof.
  intros HU. unfold updatePruneObjectsDraft. rewrite bind_run. set (f := fun o : ParamOverrideOperation => _).
  assert (∀ ops m, n ≤ m → ∃ m', m ≤ m' ∧ mapM f ops m = Returns (map_op id (fun o => apply_patch (PValueText (F (o_value_text o))) o) ops, m')) as H.
  { induction ops as [|o ops IH]; intros m Hm; [by exists m|]. cbn [mapM]. rewrite bind_run.
    assert (∃ m1, m ≤ m1 ∧ f o m = Returns (if decide (o_id o = id) then apply_patch (PValueText (F (o_value_text o))) o else o, m1)) as (m1 & L1 & ->).
    { unfold f. case_decide; [|by exists m]. destruct (HU (o_value_text o) m Hm) as (m1 & L1 & E1). exists m1. split; [done|]. by rewrite bind_run, E1. }
    rewrite bind_run. destruct (IH m1) as (m2 & L2 & ->); [lia|]. exists m2. split; [lia|done]. }
  destruct (H (operations d) n) as (n' & L & ->); [done|]. by exists n'.
Qed.

Lemma prune_value_run U F s m : (∀ dr, erase_p dr = draft_of s → (∀ r, r ∈ rules dr → ∃ k, r_id r = id_of now k ∧ m ≤ k) → ∀ m1, m ≤ m1 →
    ∃ next m', m1 ≤ m' ∧ U dr m1 = Returns (next, m') ∧ buildPruneObjectsValueText next = F) →
  ∃ m', m ≤ m' ∧ prune_value U s m = Returns (F, m').
Proof.
  intros HU. destruct (parse_prune_yields s m) as (dr & m1 & E & L & I & R). unfold prune_value. rewrite bind_run, E.
  destruct (HU dr R) with (m1 := m1) as (next & m' & L' & E' & <-); [|done|].
  - intros r Hr. apply (list_elem_of_fmap_2 r_id) in Hr. rewrite I, elem_of_drawn in Hr. destruct Hr as (k & Hk & H1 & _). by exists k.
  - exists m'. split; [lia|]. by rewrite bind_run, E'.
Qed.

Lemma other_rule ruleId n m r : ruleId ∈ drawn now 0 n → n ≤ m → (∃ k, r_id r = id_of now k ∧ m ≤ k) → r_id r ≠ ruleId.
Proof. rewrite elem_of_drawn. intros (j & -> & _ & Hj) Hm (k & -> & Hk) E. apply id_of_inj in E. lia. Qed.

Lemma with_rules_id d : with_rules (p_simpleMode d) (rules d) d = d.
Proof. by destruct d. Qed.

Lemma update_rule_idle ruleId patch n s m : ruleId ∈ drawn now 0 n → n ≤ m → ∃ m', m ≤ m' ∧ prune_value (update_rule ruleId patch) s m = Returns (reprinted s, m').
Proof.
  intros Hid Hm. apply prune_value_run. intros dr Hdr Hr m1 _. exists dr, m1. split_and!; [done| |unfold reprinted; by rewrite <- Hdr, build_erase].
  unfold update_rule. rewrite (list_fmap_ext _ id (rules dr)), list_fmap_id, with_rules_id; [done|]. intros i r Hi. apply list_elem_of_lookup_2 in Hi.
  rewrite decide_False; [done|]. eapply other_rule; eauto.
Qed.

Lemma remove_rule_idle ruleId n s m : ruleId ∈ drawn now 0 n → n ≤ m → ∃ m', m ≤ m' ∧ prune_value (remove_rule ruleId) s m = Returns (reprinted s, m').
Proof.
  intros Hid Hm. apply prune_value_run. intros dr Hdr Hr m1 _. exists dr, m1. split_and!; [done| |unfold reprinted; by rewrite <- Hdr, build_erase].
  unfold remove_rule. rewrite filter_all, with_rules_id; [done|]. apply Forall_forall. intros r Hin. eapply other_rule; eauto.
Qed.

Lemma build_blank rs r d : blank (r_path r) = true → buildPruneObjectsValueText (with_rules false (rs ++ [r]) d) = buildPruneObjectsValueText (with_rules false rs d).
Proof.
  intros Hr. assert (filter (fun r => blank (r_path r) = false) (rs ++ [r]) = filter (fun r => blank (r_path r) = false) rs) as E.
  { rewrite filter_app, (filter_no _ [r]), app_nil_r; [done|]. apply Forall_singleton. by rewrite Hr. }
  unfold buildPruneObjectsValueText. cbn [with_rules rules typeText p_logic recursive p_simpleMode]. by rewrite E.
Qed.

Lemma add_rule_idle s m : ∃ m', m ≤ m' ∧ prune_value add_rule s m = Returns (advanced s, m').
Proof.
  apply prune_value_run. intros dr Hdr _ m1 _. eexists _, (S m1). split; [lia|]. split; [reflexivity|]. rewrite build_blank by done. unfold advanced. rewrite <- Hdr.
  change (with_rules false (rules (erase_p dr)) (erase_p dr)) with (erase_p (with_rules false (rules dr) dr)). by rewrite build_erase.
Qed.

(** The rules shown do not depend on how they were printed. *)
Lemma shown_rules d : rules (shown_draft d) = shown_rule <$> kept_rules d.
Proof. unfold shown_draft. destruct (negb _ && _) eqn:E; [|done]. apply andb_true_iff in E as [_ E]. apply Nat.eqb_eq, nil_length_inv in E. by rewrite E. Qed.

Lemma draft_of_simple s : p_simpleMode (draft_of s) = true → is_or (draft_of s) = false ∧ recursive (draft_of s) = true ∧ rules (draft_of s) = [].
Proof.
  unfold draft_of. destruct (trim s) as [|c r]; [done|]. destruct (JSON_parse (c :: r)) as [v|]; [|done]. destruct v as [| | | | | |fs]; try done.
  unfold draft_of_object, is_or. cbn [p_simpleMode recursive rules p_logic]. rewrite !andb_true_iff. intros [[[H1 H2] H3] H4].
  destruct (prop "logic" (JObj fs)); try done. destruct (prop "recursive" (JObj fs)); try done. destruct (prop "where" (JObj fs)); try done.
  by destruct (prop "conditions" (JObj fs)).
Qed.

(** C30. The buttons for rules of [prune_objects] do nothing: the identifiers of the
    rules on the screen are never those of the rules that a handler reads again, so
    editing and removing a rule only print the value again, and adding one only
    switches to the advanced mode. In the advanced mode either way of printing
    keeps, of the rules that were shown, exactly those with a path, whichever rule
    was meant: rules that only have a mode or a value are dropped. In the simple mode
    with a type even the switch to the advanced mode is lost. *)
Theorem prune_edits_lost id d n :
  (∀ ruleId patch, ruleId ∈ drawn now 0 n →
     (∃ n', updatePruneRule id ruleId patch d n = Returns (with_value id reprinted d, n'))
     ∧ (∃ n', removePruneRule id ruleId d n = Returns (with_value id reprinted d, n')))
  ∧ (∃ n', addPruneRule id d n = Returns (with_value id advanced d, n'))
  ∧ (∀ s, units s → p_simpleMode (draft_of s) = false →
       rules (draft_of (reprinted s)) = shown_rule <$> kept_rules (draft_of s) ∧ rules (draft_of (advanced s)) = shown_rule <$> kept_rules (draft_of s))
  ∧ (∀ s, units s → p_simpleMode (draft_of s) = true → trim (typeText (draft_of s)) ≠ [] → p_simpleMode (draft_of (advanced s)) = true).
Proof.
  split_and!.
  - intros ruleId patch Hid. split.
    + destruct (update_prune_value id (update_rule ruleId patch) reprinted n d) as (n' & _ & E); [intros s m Hm; by eapply update_rule_idle|by exists n'].
    + destruct (update_prune_value id (remove_rule ruleId) reprinted n d) as (n' & _ & E); [intros s m Hm; by eapply remove_rule_idle|by exists n'].
  - destruct (update_prune_value id add_rule advanced n d) as (n' & _ & E); [intros s m _; apply add_rule_idle|by exists n'].
  - intros s Hs Hsm. pose proof (draft_of_ok s Hs) as Hok. unfold reprinted, advanced.
    assert (with_rules false (rules (draft_of s)) (draft_of s) = draft_of s) as -> by (rewrite <- Hsm; apply with_rules_id). rewrite prune_back by done. by rewrite shown_rules.
  - intros s Hs Hsm Ht. pose proof (draft_of_ok s Hs) as Hok. destruct (draft_of_simple s Hsm) as (Ho & Hr & Hn). unfold advanced. rewrite prune_back by done.
    unfold shown_draft, kept_rules. cbn [with_rules typeText rules recursive]. apply str_true_spec in Ht. rewrite Ht, Hn, Hr. cbn.
    change (is_or (with_rules false [] (draft_of s))) with (is_or (draft_of s)). by rewrite Ho.
Qed.

(** ** Every event keeps the dialog in order *)

Definition core_ok (d : Dialog) (n : nat) : Prop := ops_ok n (operations d) ∧ units (legacyValue d) ∧ units (jsonText d).

Lemma ids_of_perm ops ops' : Permutation ops ops' → Permutation (ids_of ops) (ids_of ops').
Proof. apply bind_Permutation. Qed.

Lemma ops_ok_perm n ops ops' : ops_ok n ops → Permutation ops' ops → ops_ok n ops'.
Proof.
  intros [H1 H2 H3 H4] Hp. pose proof (ids_of_perm _ _ Hp) as Hi. split.
  - intros ->. by apply Permutation_nil_l in Hp.
  - by rewrite Hi.
  - intros i. rewrite Hi. apply H3.
  - by rewrite Hp.
Qed.

Lemma find_op_Some id ops i : find_op id ops = Some i → ∃ o, ops !! i = Some o ∧ o_id o = id.
Proof. unfold find_op. intros ([j o] & Hf & ->)%fmap_Some. apply list_find_Some in Hf as (Hi & Hn & _). by exists o. Qed.

Lemma reorder_perm ops s tg p : Permutation (reorderOperations ops s tg p) ops.
Proof.
  unfold reorderOperations. destruct (_ || _); [done|]. destruct (find_op s ops) as [i|]; [|done]. destruct (ops !! i) as [o|] eqn:Ei; [|done].
  destruct (find_op tg _) as [j|]; [|done]. cbv zeta. generalize (match p with Before => j | After => j + 1 end). intros k.
  rewrite <- Permutation_middle, take_drop, Permutation_middle. by rewrite take_drop_middle.
Qed.

Lemma op_ids_sublist ops : sublist (o_id <$> ops) (ids_of ops).
Proof.
  induction ops as [|o ops IH]; [constructor|]. rewrite fmap_cons. change (sublist (o_id o :: (o_id <$> ops)) (o_id o :: ((c_id <$> conditions o) ++ ids_of ops))).
  constructor. by apply sublist_inserts_l.
Qed.

Lemma map_op_none id f ops : id ∉ (o_id <$> ops) → map_op id f ops = ops.
Proof.
  induction ops as [|o ops IH]; [done|]. rewrite fmap_cons, not_elem_of_cons. intros [H1 H2]. unfold map_op. rewrite fmap_cons, decide_False by done. f_equal. by apply IH.
Qed.

Lemma add_condition_ids id c ops : NoDup (o_id <$> ops) →
  Permutation (ids_of (map_op id (fun o => with_conditions (conditions o ++ [c]) o) ops)) (if decide (id ∈ (o_id <$> ops)) then c_id c :: ids_of ops else ids_of ops).
Proof.
  induction ops as [|o ops IH]; [done|]. rewrite fmap_cons. intros [Hn Hnd]%NoDup_cons. unfold map_op. rewrite fmap_cons. fold (map_op id (fun o => with_conditions (conditions o ++ [c]) o) ops).
  change (ids_of (?a :: ?b)) with (op_ids a ++ ids_of b). destruct (decide (o_id o = id)) as [<-|Hne].
  - rewrite map_op_none by done. rewrite decide_True by constructor. change (ids_of (o :: ops)) with (op_ids o ++ ids_of ops). unfold op_ids. cbn [with_conditions o_id conditions].
    rewrite fmap_app. cbn [fmap list_fmap]. cbn [app]. rewrite <- app_assoc. cbn [app]. rewrite <- Permutation_middle. apply Permutation_swap.
  - change (ids_of (o :: ops)) with (op_ids o ++ ids_of ops). rewrite IH by done. destruct (decide (id ∈ (o_id <$> ops))) as [H|H].
    + rewrite decide_True by (by constructor). by rewrite <- Permutation_middle.
    + rewrite decide_False; [done|]. rewrite elem_of_cons. naive_solver.
Qed.

Lemma add_condition_ok id d n d' n' : core_ok d n → addCondition id d n = Returns (d', n') → n ≤ n' ∧ core_ok d' n'.
Proof.
  intros (Hops & Hl & Hj) E. unfold addCondition in E. rewrite bind_run in E. destruct (createDefaultCondition now n) as [|[c n1]] eqn:Ec; [done|]. injection E as <- <-.
  destruct (condition_returns _ _ _ _ Ec) as (L & I & R). split; [done|]. split; [|done]. cbn [operations setExpandedConditions setOperations].
  pose proof Hops as [H1 H2 H3 H4]. assert (NoDup (o_id <$> operations d)) as Hnd by (eapply sublist_NoDup; [exact H2|apply op_ids_sublist]).
  pose proof (add_condition_ids id c (operations d) Hnd) as Hp. assert (c_id c ∈ drawn now n n1) as Hc by (rewrite <- I; constructor).
  assert (c_id c ∉ ids_of (operations d)) as Hnew.
  { intros Hin. apply H3 in Hin. rewrite elem_of_drawn in Hin, Hc. destruct Hin as (k & Ek & _ & Hk), Hc as (k' & Ek' & Hk' & _). rewrite Ek in Ek'. apply id_of_inj in Ek'. lia. }
  split.
  - by apply map_op_nonempty.
  - rewrite Hp. case_decide; [by apply NoDup_cons|done].
  - intros i. rewrite Hp. assert (i ∈ ids_of (operations d) → i ∈ drawn now 0 n1) as Hold by (intros Hi; eapply drawn_mono; [by apply H3|done]).
    case_decide; [|done]. rewrite elem_of_cons. intros [->|Hi]; [|auto]. rewrite elem_of_drawn in Hc |- *. destruct Hc as (k & -> & Hk1 & Hk2). exists k. split; [done|]. lia.
  - apply map_op_ok; [done|]. intros o Ho. apply with_conditions_ok; [done|]. apply Forall_app. split; [by destruct Ho as (_ & _ & _ & _ & _ & _ & ?)|].
    apply Forall_singleton. assert (condition_ok (erase_c c)) as Hok; [|exact Hok]. rewrite R. apply condition_of_ok. apply plain_obj. split; constructor.
Qed.

Lemma update_prune_ok id U d n d' n' : (∀ dr m next m', prune_ok dr → U dr m = Returns (next, m') → m ≤ m' ∧ prune_ok next) →
  core_ok d n → updatePruneObjectsDraft id U d n = Returns (d', n') → n ≤ n' ∧ core_ok d' n'.
Proof.
  intros HU (Hops & Hl & Hj) E. unfold updatePruneObjectsDraft in E. rewrite bind_run in E. set (f := fun o : ParamOverrideOperation => _) in E.
  destruct (mapM f (operations d) n) as [|[ops n1]] eqn:Em; [done|]. injection E as <- <-.
  assert (∀ l m l' m', Forall operation_ok l → mapM f l m = Returns (l', m') → m ≤ m' ∧ ids_of l' = ids_of l ∧ Forall operation_ok l' ∧ length l' = length l) as H.
  { induction l as [|o l IH]; intros m l' m' Hok E; [by injection E as <- <-|]. apply Forall_cons in Hok as [Ho Hok]. cbn [mapM] in E. rewrite bind_run in E.
    destruct (f o m) as [|[o' m1]] eqn:Eo; [done|]. rewrite bind_run in E. destruct (mapM f l m1) as [|[l1 m2]] eqn:El; [done|]. injection E as <- <-.
    destruct (IH _ _ _ Hok El) as (L2 & I2 & K2 & N2). assert (m ≤ m1 ∧ op_ids o' = op_ids o ∧ operation_ok o') as (L1 & I1 & K1).
    { unfold f in Eo. case_decide; [|injection Eo as <- <-; done]. rewrite bind_run in Eo. unfold prune_value in Eo. rewrite bind_run in Eo.
      destruct (parse_prune_yields (o_value_text o) m) as (dr & k1 & Ep & L & _ & R). rewrite Ep in Eo. rewrite bind_run in Eo.
      destruct (U dr k1) as [|[next k2]] eqn:EU; [done|]. injection Eo as <- <-.
      assert (prune_ok dr) as Hdr. { apply erase_prune_ok. rewrite R. apply draft_of_ok. by destruct Ho as (_ & _ & _ & _ & _ & ? & _). }
      destruct (HU _ _ _ _ Hdr EU) as [L' Hn]. split; [lia|]. split; [done|]. apply value_ok; [by apply build_prune_units|done]. }
    split; [lia|]. split_and!; [change (op_ids o' ++ ids_of l1 = op_ids o ++ ids_of l); by rewrite I1, I2|by constructor|cbn; lia]. }
  destruct (H _ _ _ _ (ops_texts _ _ Hops) Em) as (L & I & K & N). split; [done|]. split; [|done]. cbn [operations setOperations].
  eapply ops_ok_mono; [|exact L]. eapply ops_ok_sub; [exact Hops| |by rewrite I|done]. intros ->. by apply (ops_some _ _ Hops), nil_length_inv.
Qed.

Lemma read_operations_ok l n ops n' : Forall JsonPrint.plain l → read_operations now l n = Returns (ops, n') → n ≤ n' ∧ ops_ok n' ops.
Proof.
  intros Hl E. unfold read_operations in E. destruct l as [|v l].
  - rewrite bind_run in E. destruct (default_operation n) as [|[o n1]] eqn:Eo; [done|]. injection E as <- <-. apply default_new in Eo. split; [by destruct Eo|]. by eapply new_ops_ok.
  - destruct (read_new _ _ _ _ Hl E) as [Hn Hlen]. split; [by destruct Hn|]. eapply new_ops_ok; [done|]. by intros ->.
Qed.

Lemma default_ok n o n' : default_operation n = Returns (o, n') → n ≤ n' ∧ ops_ok n' [o].
Proof. intros E. apply default_new in E. split; [by destruct E|]. by eapply new_ops_ok. Qed.

Lemma operations_plain v l : JsonPrint.plain v → prop "operations" v = JArr l → Forall JsonPrint.plain l.
Proof. intros Hp E. destruct (plain_prop "operations" v Hp) as [H|H]; rewrite E in H; [done|]. by apply plain_arr. Qed.

(** One default operation *)
Ltac with_default E :=
  rewrite bind_run in E; let o := fresh "o" in let n1 := fresh "n1" in let Eo := fresh "Eo" in
  match type of E with context [createDefaultOperation now ?n] => destruct (createDefaultOperation now n) as [|[o n1]] eqn:Eo end;
  [done|]; injection E as <- <-; destruct (default_ok _ _ _ Eo) as [? ?].

Lemma open_ok s n st n' : units s → parseInitialState now s n = Returns (st, n') →
  n ≤ n' ∧ ops_ok n' (s_operations st) ∧ units (s_legacyValue st) ∧ units (s_jsonText st).
Proof.
  intros Hs E. pose proof (trim_units _ Hs) as Ht. unfold parseInitialState in E. cbv zeta in E. destruct (trim s) as [|c r]; [with_default E; split_and!; [done..|constructor|constructor]|].
  destruct (JSON_parse (c :: r)) as [v|] eqn:Ej; [|with_default E; split_and!; [done..|constructor|done]]. apply JSON_parse_plain in Ej; [|done].
  pose proof (json_text_units 2 0 v Ej) as Hj. destruct v as [| | | | | |fs]; try (with_default E; split_and!; [done..|constructor|done]).
  destruct (prop "operations" (JObj fs)) as [| | | | |l|] eqn:Ep; try (with_default E; split_and!; done).
  rewrite bind_run in E. destruct (read_operations now l n) as [|[ops n1]] eqn:Er; [done|]. injection E as <- <-.
  destruct (read_operations_ok _ _ _ _ (operations_plain _ _ Ej Ep) Er). split_and!; [done..|constructor|done].
Qed.

Lemma to_visual_ok d n d' n' : core_ok d n → switchToVisualMode d n = Returns (d', n') → n ≤ n' ∧ core_ok d' n'.
Proof.
  intros (Hops & Hl & Hj) E. unfold switchToVisualMode in E. destruct (editMode d); [by injection E as <- <-|]. pose proof (trim_units _ Hj) as Ht. cbv zeta in E.
  destruct (trim (jsonText d)) as [|c r]; [with_default E; split; [done|]; split_and!; [done|constructor|done]|].
  destruct (JSON_parse (c :: r)) as [v|] eqn:Ej; [|by injection E as <- <-]. apply JSON_parse_plain in Ej; [|done].
  destruct v as [| | | | | |fs]; try (by injection E as <- <-).
  destruct (prop "operations" (JObj fs)) as [| | | | |l|] eqn:Ep;
    try (with_default E; split; [done|]; split_and!; [done|exact (json_text_units 2 0 _ Ej)|done]).
  rewrite bind_run in E. destruct (read_operations now l n) as [|[ops n1]] eqn:Er; [done|]. injection E as <- <-.
  destruct (read_operations_ok _ _ _ _ (operations_plain _ _ Ej Ep) Er). split; [done|]. split_and!; [done|constructor|done].
Qed.

Lemma build_units ops v s : Forall operation_ok ops → buildOperationsJson t ops v = Text s → units s.
Proof.
  intros Hok E. apply build_text in E as [-> _]. apply saved_ops_ok in Hok. destruct (saved_ops ops) eqn:Es; [constructor|]. rewrite <- Es in *. by apply json_text_units, operations_value_plain.
Qed.

Lemma unchecked_units d n : core_ok d n → units (unchecked_text d).
Proof.
  intros (Hops & Hl & Hj). unfold unchecked_text. destruct (visualMode d); [|done]. destruct (buildOperationsJson t (operations d) false) as [s|m] eqn:E.
  - by eapply build_units; [apply Hops|].
  - unfold buildOperationsJson in E. cbv zeta in E. by destruct (filter _ _).
Qed.

Lemma visual_units d n s : core_ok d n → buildVisualJson d = Text s → units s.
Proof.
  intros (Hops & Hl & Hj) E. unfold buildVisualJson in E. destruct (visualMode d); [by eapply build_units; [apply Hops|]|]. pose proof (trim_units _ Hl) as Ht. cbv zeta in E.
  destruct (trim (legacyValue d)) as [|c r]; [injection E as <-; constructor|]. destruct (JSON_parse (c :: r)) as [v|] eqn:Ej; [|done]. apply JSON_parse_plain in Ej; [|done].
  destruct v as [| | | | | |fs]; try done. injection E as <-. exact (json_text_units 2 0 _ Ej).
Qed.

Lemma to_json_ok d n : core_ok d n → core_ok (switchToJsonMode d) n.
Proof.
  intros H. pose proof H as (Hops & Hl & Hj). unfold switchToJsonMode. destruct (editMode d); [|done]. destruct (buildVisualJson d) as [s|m] eqn:E.
  - split_and!; [done|done|]. by eapply visual_units.
  - split_and!; [done|done|]. by eapply unchecked_units.
Qed.

Lemma add_ok d n d' n' : core_ok d n → addOperation d n = Returns (d', n') → n ≤ n' ∧ core_ok d' n'.
Proof.
  intros (Hops & Hl & Hj) E. unfold addOperation in E. rewrite bind_run in E. destruct (default_operation n) as [|[o n1]] eqn:Eo; [done|]. injection E as <- <-. apply default_new in Eo.
  split; [by destruct Eo|]. split_and!; [|done|done]. cbn [operations setSelectedOperationId setOperations]. rewrite <- (app_nil_r [o]).
  eapply (ops_ok_join n n1 (operations d)); [done|done|by right|by rewrite app_nil_r|rewrite app_nil_r; apply Hops].
Qed.

Lemma remove_operation_ok id d n d' n' : core_ok d n → removeOperation id d n = Returns (d', n') → n ≤ n' ∧ core_ok d' n'.
Proof.
  intros (Hops & Hl & Hj) E. unfold removeOperation in E. destruct (Nat.leb_spec (length (operations d)) 1) as [Hle|Hgt]; [with_default E; done|].
  injection E as <- <-. split; [done|]. split_and!; [|done|done]. cbn [operations setOperations]. pose proof Hops as [H1 H2 H3 H4]. eapply ops_ok_sub; [done| | |].
  - assert (NoDup (o_id <$> operations d)) as Hnd by (eapply sublist_NoDup; [exact H2|apply op_ids_sublist]). destruct (operations d) as [|a [|b l]]; [cbn in Hgt; lia..|].
    rewrite !fmap_cons in Hnd. apply NoDup_cons in Hnd as [Hn _]. rewrite !filter_cons. destruct (decide (o_id a ≠ id)) as [|Ha]; [done|]. rewrite decide_True; [done|].
    intros E. apply Hn. apply dec_stable in Ha. rewrite Ha, E. constructor.
  - apply ids_of_sublist, sublist_filter.
  - rewrite Forall_forall in *. intros o [_ Ho]%list_elem_of_filter. by apply H4.
Qed.

Lemma clone_ok o : operation_ok o → operation_ok (operation_of (clone_value o)).
Proof.
  intros (Hm & Hd & Hp & Hf & Hto & Hv & Hc).
  assert (text_of "description" (clone_value o) = description o ∧ text_of "path" (clone_value o) = o_path o ∧ text_of "from" (clone_value o) = o_from o
          ∧ text_of "to" (clone_value o) = o_to o ∧ prop "mode" (clone_value o) = JStr (o_mode o)) as (E1 & E2 & E3 & E4 & E5) by (split_and!; by vm_compute).
  assert (prop "value" (clone_value o) = parseLooseValue (o_value_text o)) as E6 by (unfold clone_value; rewrite prop_mget; by look).
  unfold operation_ok, operation_of, mode_or. rewrite E1, E2, E3, E4, E5, E6. cbn [description o_path o_mode o_from o_to o_value_text conditions].
  unfold has. rewrite bool_decide_true by done. split_and!; try done; [by apply value_text_units, loose_plain|]. unfold clone_value. rewrite prop_mget. look. cbn [default from_option id].
  apply Forall_fmap, Forall_fmap. eapply Forall_impl; [exact Hc|]. intros c (H1 & H2 & H3). cbn [compose].
  unfold condition_ok, condition_of, text_of, str_field, mode_or. rewrite !prop_mget. look. cbn [default from_option id c_mode c_path c_value_text]. unfold has. rewrite bool_decide_true by done.
  split_and!; try done. by apply value_text_units, loose_plain.
Qed.

Lemma duplicate_ok id eager d n d' n' : core_ok d n → duplicateOperation id eager d n = Returns (d', n') → n ≤ n' ∧ core_ok d' n'.
Proof.
  intros (Hops & Hl & Hj) E. unfold duplicateOperation in E. destruct (find_op id (operations d)) as [i|]; [|by injection E as <- <-].
  destruct (operations d !! i) as [src|] eqn:Ei; [|by injection E as <- <-]. rewrite bind_run in E. destruct (normalize (clone_value src) n) as [|[c n1]] eqn:Ec; [done|]. injection E as <- <-.
  destruct (operation_returns _ _ _ _ Ec) as (L & I & R). pose proof Hops as [_ _ _ H4]. pose proof (Forall_lookup_1 _ _ _ _ H4 Ei) as Hsrc.
  assert (new_ops n n1 [c]) as Hnew.
  { split_and!; [done|unfold ids_of; cbn; by rewrite app_nil_r|]. apply Forall_singleton, operation_ok_erase. rewrite R. by apply clone_ok. }
  assert (ops_ok n1 (take (i + 1) (operations d) ++ [c] ++ drop (i + 1) (operations d))) as Hok.
  { eapply (ops_ok_join n n1 (operations d)); [done|done|by right|by rewrite take_drop|by rewrite take_drop]. }
  split; [done|]. destruct eager; split_and!; done.
Qed.

(** *** Templates *)

Lemma parsed_back_plain v : JSON_parse (json_text 0 0 v) = Some v → units (json_text 0 0 v) → JsonPrint.plain v.
Proof. intros Hj Hu. by eapply JSON_parse_plain. Qed.

Lemma templates_plain : Forall (fun e => JsonPrint.plain (payload e.2)) TEMPLATE_PRESET_CONFIG.
Proof. do 7 (apply Forall_cons_2; [cbn [snd payload]; apply parsed_back_plain; [by vm_compute|lit]|]). constructor. Qed.

Lemma preset_plain key : JsonPrint.plain (payload (preset_of key)).
Proof.
  pose proof templates_plain as H. unfold preset_of. destruct (mget key TEMPLATE_PRESET_CONFIG) as [p|] eqn:E.
  - apply mget_Some_elem in E. rewrite Forall_forall in H. by apply (H _ E).
  - by apply Forall_cons in H as [H _].
Qed.

(** Every template of operations has some. *)
Lemma preset_operations key : kind (preset_of key) = Operations → ∃ v l, prop "operations" (payload (preset_of key)) = JArr (v :: l).
Proof.
  assert (Forall (fun e => kind e.2 = Operations → ∃ v l, prop "operations" (payload e.2) = JArr (v :: l)) TEMPLATE_PRESET_CONFIG) as H.
  { do 7 (apply Forall_cons_2; [cbn [snd kind]; intros ?; first [done|eexists _, _; reflexivity]|]). constructor. }
  unfold preset_of. destruct (mget key TEMPLATE_PRESET_CONFIG) as [p|] eqn:E.
  - apply mget_Some_elem in E. rewrite Forall_forall in H. by apply (H _ E).
  - intros _. eexists _, _. reflexivity.
Qed.

Lemma own_fields_plain fs : JsonPrint.plain (JObj fs) → plain_fields (own_fields fs).
Proof. intros [Hnd Hp]%plain_obj. split; [unfold mkeys in *; by rewrite own_fields_perm|by rewrite own_fields_perm]. Qed.

Lemma str_of_N_units n : units (str_of_N n).
Proof. eapply Forall_impl; [apply str_of_N_digits|]. intros c. unfold is_digit. cbn. lia. Qed.

Lemma spread_units v : JsonPrint.plain v → Forall (fun e => units e.1 ∧ JsonPrint.plain e.2) (spread v).
Proof.
  intros Hp. destruct v as [| | | |s|l|fs]; try constructor; cbn [spread].
  - apply Forall_lookup. intros i e. rewrite list_lookup_imap. intros (c & Hc & ->)%fmap_Some. split; [apply str_of_N_units|]. apply Forall_singleton. by eapply Forall_lookup_1 in Hp.
  - apply plain_arr in Hp. apply Forall_lookup. intros i e. rewrite list_lookup_imap. intros (w & Hw & ->)%fmap_Some. split; [apply str_of_N_units|]. by eapply Forall_lookup_1 in Hp.
  - by destruct (own_fields_plain fs Hp).
Qed.

Lemma merge_plain es acc : Forall (fun e => units e.1 ∧ JsonPrint.plain e.2) es → plain_fields acc → plain_fields (foldl (fun m e => mset e.1 e.2 m) acc es).
Proof. intros H. revert acc. induction H as [|e es [H1 H2] _ IH]; intros acc Hacc; [done|]. cbn [foldl]. by apply IH, plain_fields_mset. Qed.

Lemma merged_plain p v : JsonPrint.plain p → JsonPrint.plain v → (∃ fs, p = JObj fs) → JsonPrint.plain (JObj (foldl (fun m e => mset e.1 e.2 m) (spread p) (spread v))).
Proof. intros Hp Hv [fs ->]. apply plain_obj, merge_plain; [by apply spread_units|]. by apply own_fields_plain. Qed.

Lemma preset_object key : ∃ fs, payload (preset_of key) = JObj fs.
Proof.
  assert (Forall (fun e => ∃ fs, payload e.2 = JObj fs) TEMPLATE_PRESET_CONFIG) as H by (do 7 (apply Forall_cons_2; [by eexists|]); constructor).
  unfold preset_of. destruct (mget key TEMPLATE_PRESET_CONFIG) as [p|] eqn:E; [|by eexists]. apply mget_Some_elem in E. rewrite Forall_forall in H. by apply (H _ E).
Qed.

Lemma fill_legacy_ok text d n n' o : core_ok d n → units text → default_operation n = Returns (o, n') → n ≤ n' ∧ core_ok (fill_legacy text o d) n'.
Proof. intros (Hops & Hl & Hj) Ht Eo. destruct (default_ok _ _ _ Eo) as [L H]. split; [done|]. split_and!; done. Qed.

Lemma fill_ok mode d n d' n' : core_ok d n → fillTemplate mode d n = Returns (d', n') → n ≤ n' ∧ core_ok d' n'.
Proof.
  intros Hd E. pose proof Hd as (Hops & Hl & Hj). unfold fillTemplate in E. cbv zeta in E. pose proof (preset_plain (templatePresetKey d)) as Hp.
  pose proof (preset_object (templatePresetKey d)) as Ho. destruct (kind (preset_of (templatePresetKey d))) eqn:Ek.
  - destruct (preset_operations _ Ek) as (v & l & El). rewrite El in E. pose proof (operations_plain _ _ Hp El) as Hpl. destruct mode; rewrite bind_run in E.
    all: destruct (mapM normalize (v :: l) n) as [|[ops n1]] eqn:Em; [done|]; destruct (read_new _ _ _ _ Hpl Em) as [Hnew Hlen].
    + destruct ops as [|o ops]; [done|]. injection E as <- <-. split; [by destruct Hnew|]. split_and!; [by eapply new_ops_ok|done|].
      assert (JsonPrint.plain (JObj [(js "operations", JArr (v :: l))])) as H by (apply plain_obj; split; [apply NoDup_singleton|]; apply Forall_singleton; split; [lit|by apply plain_arr]).
      exact (json_text_units 2 0 _ H).
    + injection E as <- <-. split; [by destruct Hnew|]. split_and!; [|constructor|constructor]. cbn [operations setJsonText show_operations setEditMode setJsonError setLegacyValue setSelectedOperationId setOperations].
      destruct (visualMode d).
      * pose proof Hops as [_ _ _ H4]. rewrite <- (app_nil_r ops). apply (ops_ok_join n n1 (operations d)); [done|done|right; by destruct ops| |]; rewrite app_nil_r.
        -- apply ids_of_sublist, sublist_filter.
        -- rewrite Forall_forall in *. intros o [_ H]%list_elem_of_filter. by apply H4.
      * eapply new_ops_ok; [exact Hnew|]. by destruct ops.
  - pose proof (trim_units _ Hl) as Ht. destruct mode, (visualMode d);
      try (rewrite bind_run in E; destruct (default_operation n) as [|[o n1]] eqn:Eo; [done|]; injection E as <- <-; apply (fill_legacy_ok _ d n n1 o Hd (json_text_units 2 0 _ Hp) Eo)).
    set (cur := match trim (legacyValue d) with [] => _ | _ => _ end) in E. destruct cur as [v|] eqn:Ec; [|by injection E as <- <-].
    assert (JsonPrint.plain v) as Hv.
    { unfold cur in Ec. destruct (trim (legacyValue d)) as [|c r]; [injection Ec as <-; apply plain_obj; split; constructor|]. by eapply JSON_parse_plain. }
    rewrite bind_run in E. destruct (default_operation n) as [|[o n1]] eqn:Eo; [done|]. injection E as <- <-.
    apply (fill_legacy_ok _ d n n1 o Hd (json_text_units 2 0 _ (merged_plain _ _ Hp Hv Ho)) Eo).
Qed.

Lemma reset_ok d n d' n' : core_ok d n → resetEditorState d n = Returns (d', n') → n ≤ n' ∧ core_ok d' n'.
Proof. intros (Hops & Hl & Hj) E. unfold resetEditorState in E. with_default E. split; [done|]. split_and!; [done|constructor|constructor]. Qed.

Lemma map_core_ok id f d n : core_ok d n → (∀ o, sublist (op_ids (f o)) (op_ids o)) → (∀ o, operation_ok o → operation_ok (f o)) →
  core_ok (setOperations (map_op id f (operations d)) d) n.
Proof. intros (Hops & Hl & Hj) Hs Hf. split; [|done]. by apply ops_ok_map. Qed.

Lemma update_condition_ok id cid p d n : event_ok (EUpdateCondition id cid p) → core_ok d n → core_ok (updateCondition id cid p d) n.
Proof.
  intros Hp Hd. apply map_core_ok; [done| |].
  - intros o. unfold op_ids. cbn [with_conditions o_id conditions]. rewrite <- list_fmap_compose. constructor.
    rewrite (list_fmap_ext _ c_id (conditions o)); [done|]. intros i c _. cbn. case_decide; [by destruct p|done].
  - intros o Ho. apply with_conditions_ok; [done|]. destruct Ho as (_ & _ & _ & _ & _ & _ & Hc). apply Forall_fmap. eapply Forall_impl; [exact Hc|].
    intros c H. cbn. case_decide; [by eapply cpatch_ok|done].
Qed.

Lemma remove_condition_ok id cid d n : core_ok d n → core_ok (removeCondition id cid d) n.
Proof.
  intros Hd. apply map_core_ok; [done| |].
  - intros o. constructor. apply fmap_sublist, sublist_filter.
  - intros o Ho. apply with_conditions_ok; [done|]. destruct Ho as (_ & _ & _ & _ & _ & _ & Hc). rewrite Forall_forall in *. intros c [_ H]%list_elem_of_filter. by apply Hc.
Qed.

Lemma return_error_ok id f d n : (∀ x, draft_units x → draft_units (f x)) → core_ok d n → core_ok (updateReturnErrorDraft id f d) n.
Proof.
  intros Hf Hd. apply map_core_ok; [done|intros o; by rewrite patch_ids|]. intros o Ho. apply value_ok; [|done].
  apply build_return_units, Hf, parse_return_units. by destruct Ho as (_ & _ & _ & _ & _ & ? & _).
Qed.

Lemma drop_ok id data d n : core_ok d n → core_ok (handleDrop id data d) n.
Proof. intros (Hops & Hl & Hj). unfold handleDrop. cbv zeta. destruct (_ && _); split_and!; try done. eapply ops_ok_perm; [done|apply reorder_perm]. Qed.

Lemma add_rule_ok dr m next m' : prune_ok dr → add_rule dr m = Returns (next, m') → m ≤ m' ∧ prune_ok next.
Proof.
  intros [Ht Hr] E. unfold add_rule in E. rewrite bind_run in E. destruct (rule_yields (JObj []) ltac:(done) m) as (r & m1 & Er & L & _ & R). rewrite Er in E. injection E as <- <-.
  split; [done|]. split; [done|]. cbn [with_rules rules]. apply Forall_app. split; [done|]. apply Forall_singleton.
  assert (rule_ok (erase_r r)) as H; [|exact H]. rewrite R. apply rule_of_ok, plain_obj. split; constructor.
Qed.

Lemma update_rule_ok ruleId f dr : (∀ r, rule_ok r → rule_ok (f r)) → prune_ok dr →
  prune_ok (with_rules (p_simpleMode dr) ((fun r => if decide (r_id r = ruleId) then f r else r) <$> rules dr) dr).
Proof. intros Hf [Ht Hr]. split; [done|]. apply Forall_fmap. eapply Forall_impl; [exact Hr|]. intros r H. cbn. case_decide; auto. Qed.

Lemma remove_rule_ok ruleId dr : prune_ok dr → prune_ok (with_rules (p_simpleMode dr) (filter (fun r => r_id r ≠ ruleId) (rules dr)) dr).
Proof. intros [Ht Hr]. split; [done|]. cbn [with_rules rules]. rewrite Forall_forall in *. intros r [_ H]%list_elem_of_filter. by apply Hr. Qed.

Lemma open_dialog_ok s d n d' n' : units s → openDialog s d n = Returns (d', n') → n ≤ n' ∧ core_ok d' n'.
Proof.
  intros Hs E. unfold openDialog in E. rewrite bind_run in E. destruct (parseInitialState now s n) as [|[st n1]] eqn:Ep; [done|]. injection E as <- <-.
  destruct (open_ok _ _ _ _ Hs Ep) as (L & H1 & H2 & H3). split; [done|]. split_and!; done.
Qed.

Lemma handle_ok e d n d' n' : event_ok e → core_ok d n → handle e d n = Returns (d', n') → n ≤ n' ∧ core_ok d' n'.
Proof.
  intros He Hd E. destruct e; cbn [handle] in E; try (injection E as <- <-; split; [done|]; try done).
  - by eapply open_dialog_ok.
  - apply map_core_ok; [done|intros o; by rewrite patch_ids|intros o; by eapply patch_ok].
  - by eapply add_ok.
  - by eapply duplicate_ok.
  - by eapply remove_operation_ok.
  - by eapply add_condition_ok.
  - by apply update_condition_ok.
  - by apply remove_condition_ok.
  - unfold expandConditions. by destruct (selectedOperation d).
  - by apply return_error_ok.
  - eapply update_prune_ok; [|done|done]. intros dr m next m' Hdr [= <- <-]. split; [done|]. by apply He.
  - eapply update_prune_ok; [|done|done]. apply add_rule_ok.
  - eapply update_prune_ok; [|done|done]. intros dr m next m' Hdr [= <- <-]. split; [done|]. by apply update_rule_ok.
  - eapply update_prune_ok; [|done|done]. intros dr m next m' Hdr [= <- <-]. split; [done|]. by apply remove_rule_ok.
  - unfold handleDragOver. by destruct (_ || _).
  - by apply drop_ok.
  - by destruct Hd as (? & ? & ?).
  - by destruct Hd as (? & ? & ?).
  - by apply to_json_ok.
  - by eapply to_visual_ok.
  - by eapply fill_ok.
  - by eapply reset_ok.
  - unfold handleSave. by destruct (save_result d).
Qed.

Lemma keep_ok d n : core_ok d n → dialog_ok (keepSelected d) n.
Proof.
  intros (Hops & Hl & Hj). unfold keepSelected. destruct (operations d) as [|o l] eqn:E; [by destruct (ops_some _ _ Hops)|]. rewrite <- E in Hops |- *.
  destruct (existsb _ (operations d)) eqn:Ex; split; try done; cbn [operations selectedOperationId setSelectedOperationId].
  - apply existsb_exists in Ex as (x & Hx & Hb). apply bool_decide_eq_true in Hb as <-. apply list_elem_of_fmap_2. by apply list_elem_of_In.
  - rewrite E. constructor.
Qed.

Lemma initial_ok d n : initialDialog 0 = Returns (d, n) → core_ok d n.
Proof. intros E. unfold initialDialog in E. with_default E. split_and!; [done|constructor|constructor]. Qed.

Lemma dialog_core d n : dialog_ok d n → core_ok d n.
Proof. intros [? ? ? ?]. split_and!; done. Qed.

Lemma dialog_ok_mono d n n' : dialog_ok d n → n ≤ n' → dialog_ok d n'.
Proof. intros [? ? ? ?] L. split; try done. by eapply ops_ok_mono. Qed.

Lemma step_ok w w' : dialog_step w w' → dialog_ok w.1 w.2 → dialog_ok w'.1 w'.2.
Proof.
  destruct 1 as [d n e d' n' He E|d n e n' He E L|d n n' L]; intros H; [|by eapply dialog_ok_mono..].
  apply keep_ok. by eapply handle_ok; [|apply dialog_core|].
Qed.

(** C28. Whatever the user does (opening values, editing, copying, moving and removing
    operations, conditions, error drafts and rules, switching modes, templates, typing
    JSON, resets, saves, in any order, exceptions and redraws in between), the editor
    has an operation, no two operations or conditions share an identifier, none is one
    that will be drawn later, every operation is one that can be printed and read back,
    and the selected operation is one of the list. *)
Theorem dialog_invariant d0 n0 d n : initialDialog 0 = Returns (d0, n0) → rtc dialog_step (keepSelected d0, n0) (d, n) → dialog_ok d n.
Proof.
  intros E H. assert (∀ w w', rtc dialog_step w w' → dialog_ok w.1 w.2 → dialog_ok w'.1 w'.2) as Hr.
  { clear. induction 1 as [|w w1 w2 Hs _ IH]; [done|]. intros Hw. by eapply IH, step_ok. }
  apply (Hr _ _ H). by apply keep_ok, initial_ok.
Qed.

(** ** Saving *)

Lemma visual_text d n s : core_ok d n → buildVisualJson d = Text s → s = [] ∨ ∃ fs, s = json_text 2 0 (JObj fs) ∧ JsonPrint.plain (JObj fs).
Proof.
  intros (Hops & Hl & _) E. unfold buildVisualJson in E. destruct (visualMode d).
  - apply build_text in E as [-> _]. destruct (saved_ops (operations d)) eqn:Es; [by left|right]. rewrite <- Es. eexists. split; [reflexivity|].
    apply operations_value_plain, saved_ops_ok, Hops.
  - pose proof (trim_units _ Hl) as Ht. cbv zeta in E. destruct (trim (legacyValue d)) as [|c r]; [left; by injection E as <-|].
    destruct (JSON_parse (c :: r)) as [v|] eqn:Ej; [|done]. apply JSON_parse_plain in Ej; [|done]. destruct v as [| | | | | |fs]; try done. injection E as <-. right. by exists fs.
Qed.

Lemma saved_again d fs : JsonPrint.plain (JObj fs) → editMode d = JsonEdit → jsonText d = json_text 2 0 (JObj fs) → save_result d = Text (json_text 2 0 (JObj fs)).
Proof.
  intros Hp He Ej. unfold save_result. rewrite He, Ej. rewrite json_text_trim by done. pose proof (json_text_nonempty 2 _ Hp) as Hne. pose proof (JSON_parse_text 2 _ Hp) as Hj.
  pose proof (json_text_enumerated 2 0 _ Hp) as Ht. cbv zeta. destruct (json_text 2 0 (JObj fs)) eqn:E; [done|]. rewrite <- E in *. rewrite Hj. f_equal. exact Ht.
Qed.

(** What the JSON editor stores after a switch that reported an error *)
Definition stored_unchecked (m : jsstr) (d : Dialog) : list Effect :=
  match visualMode d with
  | Operations => [OnSave (unchecked_text d); OnClose]
  | Legacy => match JSON_parse (trim (legacyValue d)) with Some v => [OnSave (json_text 2 0 v); OnClose] | None => [ToastError m] end
  end.

Lemma failed_text d n m : core_ok d n → visualMode d = Operations → buildVisualJson d = Failed m →
  ∃ fs, unchecked_text d = json_text 2 0 (JObj fs) ∧ JsonPrint.plain (JObj fs).
Proof.
  intros (Hops & _) Hv E. unfold buildVisualJson in E. unfold unchecked_text. rewrite Hv in *.
  assert (saved_ops (operations d) ≠ []) as Hne by (intros H; unfold buildOperationsJson in E; cbv zeta in E; fold (saved_ops (operations d)) in E; by rewrite H in E).
  destruct (buildOperationsJson t (operations d) false) as [s|s] eqn:Eu; [|unfold buildOperationsJson in Eu; cbv zeta in Eu; by destruct (filter _ _)].
  apply build_text in Eu as [-> _]. destruct (saved_ops (operations d)) eqn:Es; [done|]. rewrite <- Es.
  eexists. split; [reflexivity|]. apply operations_value_plain, saved_ops_ok, Hops.
Qed.

Lemma save_after_failed d n m : core_ok d n → editMode d = VisualEdit → buildVisualJson d = Failed m →
  effects (handleSave (switchToJsonMode d)) = effects d ++ ToastError m :: stored_unchecked m d.
Proof.
  intros Hd He E. unfold switchToJsonMode. rewrite He, E. set (d' := setEditMode JsonEdit _).
  assert (effects d' = effects d ++ [ToastError m]) as Ee by done.
  assert (jsonText d' = unchecked_text d) as Ej by done. assert (editMode d' = JsonEdit) as Em by done. clearbody d'.
  unfold stored_unchecked. destruct (visualMode d) eqn:Ev.
  - destruct (failed_text d n m Hd Ev E) as (fs & Hu & Hp). rewrite Hu in Ej. unfold handleSave. rewrite (saved_again d' fs Hp Em Ej), Hu.
    cbn [tell effects]. rewrite Ee, <- !app_assoc. done.
  - unfold handleSave, save_result. rewrite Em, Ej. unfold unchecked_text, buildVisualJson in *. rewrite Ev in *. cbv zeta in *.
    destruct (trim (legacyValue d)) as [|c r]; [done|]. destruct (JSON_parse (c :: r)) as [v|]; cbn [tell effects]; rewrite Ee, <- ?app_assoc; [done|].
    by injection E as <-.
Qed.

(** C29. Saving from the visual editor, in any state that is in order ([dialog_ok], an
    invariant of the dialog). When what it shows is complete, what is saved
    is nothing or the text of a JSON object, the dialog closes, the error beside the
    editor is empty, and switching to the JSON editor first saves the very same text.
    When something is incomplete, saving there stores nothing and gives the message
    that is shown beside the editor; switching gives the message too, keeps the text
    of what there is and shows the JSON editor with the error. Saving then is only
    checked for JSON: the incomplete operations are stored as they are, and a value
    of the older format is stored whatever JSON it is and refused, with the same
    message, only if it is no JSON. *)
Theorem switch_save_same d n : dialog_ok d n → editMode d = VisualEdit →
  match buildVisualJson d with
  | Text s =>
      effects (handleSave d) = effects d ++ [OnSave s; OnClose]
      ∧ effects (handleSave (switchToJsonMode d)) = effects d ++ [OnSave s; OnClose]
      ∧ visualValidationError d = [] ∧ jsonError (switchToJsonMode d) = []
      ∧ (s = [] ∨ ∃ fs, JSON_parse s = Some (JObj fs))
      ∧ (visualMode d = Operations → s = [] ↔ operationCount d = 0)
  | Failed m =>
      handleSave d = tell (ToastError m) d
      ∧ effects (switchToJsonMode d) = effects d ++ [ToastError m]
      ∧ visualValidationError d = jsonError (switchToJsonMode d) ∧ jsonText (switchToJsonMode d) = unchecked_text d
      ∧ effects (handleSave (switchToJsonMode d)) = effects d ++ ToastError m :: stored_unchecked m d
  end ∧ editMode (switchToJsonMode d) = JsonEdit.
Proof.
  intros Hd He. apply dialog_core in Hd. split; [|unfold switchToJsonMode; by rewrite He].
  assert (save_result d = buildVisualJson d) as Hs by (unfold save_result; by rewrite He). unfold visualValidationError. rewrite He.
  destruct (buildVisualJson d) as [s|m] eqn:E.
  2: { split_and!; [..|by eapply save_after_failed]; unfold handleSave, switchToJsonMode; by rewrite ?Hs, ?He, ?E. }
  assert (switchToJsonMode d = setEditMode JsonEdit (setJsonError [] (setJsonText s d))) as Esw by (unfold switchToJsonMode; by rewrite He, E). rewrite Esw.
  assert (save_result (setEditMode JsonEdit (setJsonError [] (setJsonText s d))) = Text s ∧ (s = [] ∨ ∃ fs, JSON_parse s = Some (JObj fs))) as [H1 H2].
  { destruct (visual_text _ _ _ Hd E) as [->|(fs & -> & Hp)]; [by split; [|left]|]. split; [by apply saved_again|]. right. eexists. exact (JSON_parse_text 2 _ Hp). }
  unfold handleSave. rewrite Hs, H1. split_and!; try done; try (cbn [tell effects setEditMode setJsonError setJsonText]; by rewrite <- app_assoc).
  intros Hv. unfold buildVisualJson in E. rewrite Hv in E. apply build_text in E as [-> _]. unfold operationCount. fold (saved_ops (operations d)).
  destruct Hd as (Hops & _). pose proof (operations_value_plain _ (saved_ops_ok _ (ops_texts _ _ Hops))) as Hp.
  destruct (saved_ops (operations d)) eqn:Es; [done|]. rewrite <- Es in *. split; [|by rewrite Es]. intros H. by apply (json_text_nonempty 2) in Hp.
Qed.

(** ** Dropping *)

Lemma find_op_at id a o b : id ∉ (o_id <$> a) → o_id o = id → find_op id (a ++ o :: b) = Some (length a).
Proof.
  intros Ha Ho. unfold find_op. rewrite (proj2 (list_find_Some _ _ (length a) o)); [done|]. split_and!; [by rewrite list_lookup_middle|done|].
  intros j y Hj Hlt <-. apply Ha. rewrite lookup_app_l in Hj by done. apply list_elem_of_fmap_2. by eapply list_elem_of_lookup_2.
Qed.

(** Dropping an operation on another puts it right before or right after that one,
    as the pointer said, leaves the order of all the others, selects it, and ends the
    drag. *)
Theorem drop_spec d n data o tgt : dialog_ok d n → o ∈ operations d → tgt ∈ operations d → o_id o ≠ o_id tgt → draggedOperationId d = o_id o →
  let position := if bool_decide (dragOverOperationId d = o_id tgt) then dragOverPosition d else Before in
  let d' := handleDrop (o_id tgt) data d in
  (∃ l1 l2, filter (fun x => o_id x ≠ o_id o) (operations d) = l1 ++ tgt :: l2
     ∧ operations d' = match position with Before => l1 ++ o :: tgt :: l2 | After => l1 ++ tgt :: o :: l2 end)
  ∧ selectedOperationId d' = o_id o ∧ draggedOperationId d' = [] ∧ dragOverOperationId d' = [].
Proof.
  intros Hd Ho Ht Hne Hdr position d'. pose proof (d_ops _ _ Hd) as [_ Hids Hdrawn _].
  assert (NoDup (o_id <$> operations d)) as Hnd by (eapply sublist_NoDup; [exact Hids|apply op_ids_sublist]).
  assert (∀ x, x ∈ operations d → str_true (o_id x) = true) as Hid.
  { intros x Hx. apply (list_elem_of_fmap_2 o_id) in Hx. eapply elem_of_sublist in Hx; [|apply op_ids_sublist]. apply Hdrawn, elem_of_drawn in Hx as (k & -> & _). by vm_compute. }
  unfold d', handleDrop. cbv zeta. rewrite Hdr. unfold str_or. rewrite !Hid by done. rewrite bool_decide_false by done. cbn [negb andb].
  split; [|done]. fold position. cbn [operations resetDragState setDrag setSelectedOperationId setOperations].
  unfold reorderOperations. rewrite !Hid by done. rewrite bool_decide_false by done. cbn [negb orb].
  apply list_elem_of_split in Ho as (a & b & E). rewrite E in *. rewrite fmap_app, fmap_cons in Hnd. apply NoDup_app in Hnd as (Ha & Hab & Hb). apply NoDup_cons in Hb as [Hob Hb].
  assert (o_id o ∉ (o_id <$> a)) as Hoa by (intros H; apply (Hab _ H); constructor).
  rewrite find_op_at, list_lookup_middle by done. rewrite take_app_length, drop_app, drop_ge, Nat.sub_succ_l, Nat.sub_diag by lia. cbn [drop app].
  assert (filter (fun x => o_id x ≠ o_id o) (a ++ o :: b) = a ++ b) as ->.
  { rewrite filter_app, filter_cons, decide_False by naive_solver. f_equal; apply filter_all, Forall_forall; intros x Hx Ex; apply (list_elem_of_fmap_2 o_id) in Hx; rewrite Ex in Hx; done. }
  assert (tgt ∈ a ++ b) as (l1 & l2 & El)%list_elem_of_split.
  { rewrite elem_of_app, elem_of_cons in Ht. rewrite elem_of_app. destruct Ht as [?|[->|?]]; [by left|done|by right]. }
  rewrite drop_0, El. exists l1, l2. split; [done|]. rewrite find_op_at; [|  |done].
  - destruct position.
    + by rewrite take_app_length, drop_app_length.
    + rewrite take_app, drop_app, take_ge, drop_ge by lia. replace (length l1 + 1 - length l1) with 1 by lia. cbn. by rewrite <- app_assoc.
  - assert (NoDup (o_id <$> a ++ b)) as H.
    { rewrite fmap_app. apply NoDup_app. split_and!; [done| |done]. intros x Hx Hx'. apply (Hab _ Hx). by constructor. }
    rewrite El, fmap_app, fmap_cons in H. apply NoDup_app in H as (_ & H & _). intros Hin. apply (H _ Hin). constructor.
Qed.

End Handlers.

(** ** Instances *)

Definition no_time (_ : nat) : N := 0%N.
Definition english (k : jsstr) (_ : option nat) : jsstr := k.

Definition sample_drag : Dialog :=
  mkDialog VisualEdit Operations [] sample_ops [] [] (js "po_0_1") [] (js "po_0_1") (js "po_0_5") After (js "operations_default") [].

Lemma sample_drag_ok : dialog_ok no_time sample_drag 6.
Proof.
  split; [split|..].
  - done.
  - decided.
  - apply Forall_forall. decided.
  - apply sample_ok.
  - decided.
  - constructor.
  - constructor.
Qed.

Lemma drop_spec_witness : o_id <$> operations (handleDrop (js "po_0_5") [] sample_drag) = [js "po_0_4"; js "po_0_5"; js "po_0_1"].
Proof.
  destruct (drop_spec no_time english sample_drag 6 [] sample_cap sample_header sample_drag_ok) as [(l1 & l2 & E & H) _]; [constructor|by right; right; left|decided|by vm_compute|].
  change (o_id sample_header) with (js "po_0_5") in H. rewrite H. clear H.
  assert (l1 = [mkOperation (js "po_0_4") [] [] (js "set") [] [] [] false (js "OR") []] ∧ l2 = []) as [-> ->]; [|by vm_compute].
  assert (filter (fun x => o_id x ≠ o_id sample_cap) (operations sample_drag) = [mkOperation (js "po_0_4") [] [] (js "set") [] [] [] false (js "OR") []; sample_header]) as E'
    by (by vm_compute).
  rewrite E' in E. destruct l1 as [|x [|y l1]]; [by vm_compute in E|by injection E as -> ->|]. injection E as _ _ E. by destruct l1.
Defined.

Lemma switch_save_same_witness :
  let d := sample_drag in
  buildVisualJson english d = Text (sample_text english) ∧ effects (handleSave english (switchToJsonMode english d)) = [OnSave (sample_text english); OnClose].
Proof.
  intros d. assert (buildVisualJson english d = Text (sample_text english)) as E by (by vm_compute). split; [exact E|].
  pose proof (switch_save_same no_time english d 6 sample_drag_ok eq_refl) as [H _]. rewrite E in H. exact (proj1 (proj2 H)).
Defined.

(** A run: a second operation is added and the first is removed. *)
Lemma dialog_invariant_witness : ∃ d n, length (operations d) = 1 ∧ dialog_ok no_time d n.
Proof.
  assert (∃ d0 n0, initialDialog no_time 0 = Returns (d0, n0)) as (d0 & n0 & E) by (eexists _, _; by vm_compute).
  assert (∃ d1 n1, addOperation no_time (keepSelected d0) n0 = Returns (d1, n1)) as (d1 & n1 & E1) by (eexists _, _; reflexivity).
  assert (∃ d2, removeOperation no_time (js "po_0_0") (keepSelected d1) n1 = Returns (d2, n1) ∧ length (operations (keepSelected d2)) = 1) as (d2 & E2 & L).
  { injection E as <- <-. injection E1 as <- <-. eexists. split; by vm_compute. }
  exists (keepSelected d2), n1. split; [exact L|]. apply (dialog_invariant no_time english d0 n0 (keepSelected d2) n1 E).
  apply (rtc_l _ _ (keepSelected d1, n1)); [by apply (step_event no_time english _ _ EAdd)|].
  apply (rtc_l _ _ (keepSelected d2, n1)); [by apply (step_event no_time english _ _ (ERemove (js "po_0_0")))|]. apply rtc_refl.
Defined.

Definition prune_op (text : jsstr) : Dialog :=
  mkDialog VisualEdit Operations [] [mkOperation (js "po_0_0") [] (js "tools") (js "prune_objects") [] [] text false (js "OR") []] [] [] (js "po_0_0") [] [] [] Before
    (js "operations_default") [].

(** A draft with one rule, shown with the identifier [po_0_1]: it can not be removed. *)
Lemma prune_edits_lost_witness :
  let s := dq "{'conditions':[{'path':'name','mode':'full'}]}" in
  (∃ n', removePruneRule no_time (js "po_0_0") (js "po_0_1") (prune_op s) 2 = Returns (with_value (js "po_0_0") reprinted (prune_op s), n'))
  ∧ r_path <$> rules (draft_of (reprinted s)) = [js "name"].
Proof.
  intros s. destruct (prune_edits_lost no_time english (js "po_0_0") (prune_op s) 2) as (H1 & _ & H2 & _). split.
  - exact (proj2 (H1 (js "po_0_1") (fun r => r) ltac:(decided))).
  - destruct (H2 s) as [H _]; [unfold units; decided|by vm_compute|]. rewrite H. by vm_compute.
Defined.

End ParamEditor.
