(* ===== verification/NavSettings.v ===== *)
(** * Settings of the navigation
    (src/web/src/features/system-settings/maintenance/config.ts,
    header-navigation-section.tsx and sidebar-modules-section.tsx)

    The pages on which an administrator switches parts of the navigation on and off.  A
    setting is a JSON text; it is read with defaults, shown as switches, and written
    again.  [Navigation] holds the code that obeys these settings. *)

From S2P Require Import Prelude JsString JsValue JsJson JsNumber JsonPrint ParamOverride ParamEditor.
Import ParamOverride.

Module NavSettings.

(** [v[k]] for a name that is computed *)
Definition member (k : jsstr) (v : jsval) : jsval := match v with JObj fs => default JUndef (mget k fs) | _ => JUndef end.

(** The members that [Object.entries] lists, and that spreading copies *)
Definition entries (v : jsval) : list (jsstr * jsval) := ParamEditor.spread v.

Definition nullish (v : jsval) : bool := match v with JUndef | JNull => true | _ => false end.
Definition is_false (v : jsval) : bool := match v with JBool false => true | _ => false end.

(** [v === 1] and [v === 0] *)
Definition is_one (v : num) : bool := num_eqb v (num_of_Z 1).
Definition is_zero (v : num) : bool := num_eqb v (num_of_Z 0).

(** ** Header *)

(** A part of the header: on or off, or with a rule for visitors *)
Inductive NavModule := Flag (b : bool) | Access (enabled requireAuth : bool).

#[export] Instance NavModule_eq_dec : EqDecision NavModule.
Proof. solve_decision. Defined.

Definition HeaderNavModules : Type := list (jsstr * NavModule).

Definition HEADER_NAV_DEFAULT : HeaderNavModules :=
  [(js "home", Flag true); (js "console", Flag true); (js "pricing", Access true false); (js "rankings", Access true false); (js "docs", Flag true); (js "about", Flag true)].

Definition toBoolean (value : jsval) (fallback : bool) : bool :=
  match value with
  | JBool b => b
  | JNum x => is_one x
  | JStr s =>
      let normalized := lower (trim s) in
      if bool_decide (normalized = js "true") || bool_decide (normalized = js "1") then true
      else if bool_decide (normalized = js "false") || bool_decide (normalized = js "0") then false
      else fallback
  | _ => fallback
  end.

Definition access_enabled (m : option NavModule) : bool := match m with Some (Access e _) => e | _ => true end.
Definition access_requires (m : option NavModule) : bool := match m with Some (Access _ r) => r | _ => false end.

Definition parseAccessModule (raw : jsval) (fallback : option NavModule) : NavModule :=
  let enabled := access_enabled fallback in
  let requireAuth := access_requires fallback in
  match raw with
  | JBool _ | JStr _ | JNum _ => Access (toBoolean raw enabled) requireAuth
  | JObj _ | JArr _ => Access (toBoolean (prop "enabled" raw) enabled) (toBoolean (prop "requireAuth" raw) requireAuth)
  | _ => Access enabled requireAuth
  end.

(** [Boolean(base[key])] *)
Definition known_on (m : option NavModule) : bool := match m with Some (Flag b) => b | Some (Access _ _) => true | None => false end.

Definition header_entry (result : HeaderNavModules) (e : jsstr * jsval) : HeaderNavModules :=
  let '(key, raw) := e in
  if bool_decide (key = js "pricing") || bool_decide (key = js "rankings") then mset key (parseAccessModule raw (mget key HEADER_NAV_DEFAULT)) result
  else match raw with
       | JBool b => mset key (Flag b) result
       | JStr _ | JNum _ => mset key (Flag (toBoolean raw (known_on (mget key HEADER_NAV_DEFAULT)))) result
       | _ => result
       end.

(** [Object.entries] throws on null. *)
Definition parseHeaderNavModules (value : option jsstr) : HeaderNavModules :=
  match value with
  | Some s =>
      if str_true s then
        match JSON_parse s with
        | Some parsed => if nullish parsed then HEADER_NAV_DEFAULT else foldl header_entry HEADER_NAV_DEFAULT (entries parsed)
        | None => HEADER_NAV_DEFAULT
        end
      else HEADER_NAV_DEFAULT
  | None => HEADER_NAV_DEFAULT
  end.

Definition module_value (m : NavModule) : jsval :=
  match m with Flag b => JBool b | Access e r => JObj [(js "enabled", JBool e); (js "requireAuth", JBool r)] end.

Definition header_value (c : HeaderNavModules) : jsval := JObj ((fun e => (e.1, module_value e.2)) <$> c).

Definition serializeHeaderNavModules (c : HeaderNavModules) : jsstr := json_text 0 0 (header_value c).

Record HeaderNavFormValues := mkHeaderForm {
  v_home : bool; v_console : bool; pricingEnabled : bool; pricingRequireAuth : bool; rankingsEnabled : bool; rankingsRequireAuth : bool; v_docs : bool; v_about : bool }.

Definition flag_of (k : string) (c : HeaderNavModules) : bool := match mget (js k) c with Some m => known_on (Some m) | None => true end.

Definition toFormValues (config : HeaderNavModules) : HeaderNavFormValues :=
  mkHeaderForm (flag_of "home" config) (flag_of "console" config) (access_enabled (mget (js "pricing") config)) (access_requires (mget (js "pricing") config))
    (access_enabled (mget (js "rankings") config)) (access_requires (mget (js "rankings") config)) (flag_of "docs" config) (flag_of "about" config).

(** What submitting the header page sends: nothing when the text is the one it read *)
Definition header_payload (config : HeaderNavModules) (values : HeaderNavFormValues) : HeaderNavModules :=
  mset (js "rankings") (Access (rankingsEnabled values) (rankingsRequireAuth values))
    (mset (js "pricing") (Access (pricingEnabled values) (pricingRequireAuth values))
      (mset (js "about") (Flag (v_about values)) (mset (js "docs") (Flag (v_docs values)) (mset (js "console") (Flag (v_console values)) (mset (js "home") (Flag (v_home values)) config))))).

Definition header_submit (config : HeaderNavModules) (initialSerialized : jsstr) (values : HeaderNavFormValues) : option jsstr :=
  let serialized := serializeHeaderNavModules (header_payload config values) in
  if bool_decide (serialized = initialSerialized) then None else Some serialized.

(** ** Sidebar *)

Definition SidebarSectionConfig : Type := list (jsstr * bool).
Definition SidebarModulesAdminConfig : Type := list (jsstr * SidebarSectionConfig).

Definition section (ms : list string) : SidebarSectionConfig := (fun m => (js m, true)) <$> ("enabled" :: ms)%string.

Definition SIDEBAR_MODULES_DEFAULT : SidebarModulesAdminConfig :=
  [(js "chat", section ["playground"; "chat"]%string); (js "console", section ["detail"; "token"; "log"; "midjourney"; "task"]%string);
   (js "personal", section ["topup"; "personal"]%string); (js "admin", section ["channel"; "models"; "redemption"; "user"; "setting"; "subscription"]%string)].

(** A section as it was stored *)
Definition section_entry (defaultSection : SidebarSectionConfig) (acc : SidebarSectionConfig) (e : jsstr * jsval) : SidebarSectionConfig :=
  if bool_decide (e.1 = js "enabled") then acc else mset e.1 (toBoolean e.2 (default true (mget e.1 defaultSection))) acc.

Definition read_section (sectionKey : jsstr) (raw : jsval) : SidebarSectionConfig :=
  let defaultSection := default (section []) (mget sectionKey SIDEBAR_MODULES_DEFAULT) in
  foldl (section_entry defaultSection) [(js "enabled", toBoolean (prop "enabled" raw) (default true (mget (js "enabled") defaultSection)))] (entries raw).

Definition sidebar_entry (result : SidebarModulesAdminConfig) (e : jsstr * jsval) : SidebarModulesAdminConfig :=
  match e.2 with JObj _ | JArr _ => mset e.1 (read_section e.1 e.2) result | _ => result end.

Definition add_module (sec : SidebarSectionConfig) (e : jsstr * bool) : SidebarSectionConfig := match mget e.1 sec with Some _ => sec | None => mset e.1 e.2 sec end.

Definition add_section (result : SidebarModulesAdminConfig) (e : jsstr * SidebarSectionConfig) : SidebarModulesAdminConfig :=
  match mget e.1 result with
  | None => mset e.1 e.2 result
  | Some sec => mset e.1 (foldl add_module sec e.2) result
  end.

Definition parseSidebarModulesAdmin (value : option jsstr) : SidebarModulesAdminConfig :=
  match value with
  | Some s =>
      if str_true (trim s) then
        match JSON_parse s with
        | Some parsed => if nullish parsed then SIDEBAR_MODULES_DEFAULT else foldl add_section (foldl sidebar_entry [] (entries parsed)) SIDEBAR_MODULES_DEFAULT
        | None => SIDEBAR_MODULES_DEFAULT
        end
      else SIDEBAR_MODULES_DEFAULT
  | None => SIDEBAR_MODULES_DEFAULT
  end.

Definition section_value (sec : SidebarSectionConfig) : jsval := JObj ((fun m => (m.1, JBool m.2)) <$> sec).
Definition sidebar_value (c : SidebarModulesAdminConfig) : jsval := JObj ((fun e => (e.1, section_value e.2)) <$> c).
Definition serializeSidebarModulesAdmin (c : SidebarModulesAdminConfig) : jsstr := json_text 0 0 (sidebar_value c).

Definition sidebar_submit (values : SidebarModulesAdminConfig) (initialSerialized : jsstr) : option jsstr :=
  let serialized := serializeSidebarModulesAdmin values in
  if bool_decide (serialized = initialSerialized) then None else Some serialized.

(** ** Folding over the members of an object *)

Lemma mget_foldl {V W} (step : list (jsstr * W) → jsstr * V → list (jsstr * W)) (f : jsstr → V → option W → option W) :
  (∀ r k v k', mget k' (step r (k, v)) = if bool_decide (k = k') then f k v (mget k r) else mget k' r) →
  ∀ es r k, NoDup (mkeys es) → mget k (foldl step r es) = match mget k es with Some v => f k v (mget k r) | None => mget k r end.
Proof.
  intros Hs es. induction es as [|[k1 v1] es IH]; intros r k; [done|]. unfold mkeys. rewrite fmap_cons. intros [Hn Hnd]%NoDup_cons. cbn [foldl mget fst] in *.
  rewrite IH by done. rewrite !Hs. destruct (decide (k1 = k)) as [->|Hne].
  - rewrite bool_decide_true, decide_True by done. by rewrite (proj2 (mget_None k es)).
  - rewrite bool_decide_false by done. by rewrite decide_False by congruence.
Qed.

Lemma mget_mset_bool {W} (k k' : jsstr) (w : W) r : mget k' (mset k w r) = if bool_decide (k = k') then Some w else mget k' r.
Proof. rewrite mget_mset. by case_bool_decide; case_decide. Qed.

(** Members of a value that was printed and read *)
Lemma entries_parsed p : NoDup (mkeys p) → NoDup (mkeys (entries (enumerated (JObj p)))) ∧ ∀ k, mget k (entries (enumerated (JObj p))) = enumerated <$> mget k p.
Proof.
  intros Hnd. rewrite enumerated_obj. unfold entries, ParamEditor.spread. rewrite own_fields_idem. assert (NoDup (mkeys (own_fields (emap p)))) as Hn.
  { unfold mkeys, emap. rewrite own_fields_perm, <- list_fmap_compose. exact Hnd. }
  split; [done|]. intros k. rewrite (mget_perm _ (emap p)) by (first [done|apply own_fields_perm]). unfold emap. apply mget_fmap.
Qed.

Lemma member_parsed k p : NoDup (mkeys p) → member k (enumerated (JObj p)) = default JUndef (enumerated <$> mget k p).
Proof. intros Hnd. destruct (entries_parsed p Hnd) as [_ H]. rewrite enumerated_obj in *. unfold entries, ParamEditor.spread in H. rewrite own_fields_idem in H. cbn [member]. by rewrite H. Qed.

(** ** The sidebar settings *)

Record config_ok (c : SidebarModulesAdminConfig) : Prop := {
  ok_sections : NoDup (mkeys c);
  ok_names : Forall (fun e => units e.1 ∧ NoDup (mkeys e.2) ∧ Forall (fun m => units m.1) e.2) c
}.

Lemma section_plain sec : NoDup (mkeys sec) → Forall (fun m : jsstr * bool => units m.1) sec → plain (section_value sec).
Proof.
  intros Hn Hu. unfold section_value. apply plain_obj. split; [unfold mkeys; by rewrite <- list_fmap_compose|]. rewrite Forall_fmap. eapply Forall_impl; [exact Hu|]. intros m Hm. by split.
Qed.

Lemma sidebar_plain c : config_ok c → plain (sidebar_value c).
Proof.
  intros [Hn Hu]. apply plain_obj. split; [unfold mkeys; by rewrite <- list_fmap_compose|]. rewrite Forall_fmap. eapply Forall_impl; [exact Hu|].
  intros [k sec] (Hk & Hs & Hm). split; [done|]. by apply section_plain.
Qed.

(** The sections and switches that the printed text reads as *)
Lemma sidebar_parsed c : config_ok c → str_true (trim (serializeSidebarModulesAdmin c)) = true ∧ JSON_parse (serializeSidebarModulesAdmin c) = Some (enumerated (sidebar_value c)).
Proof.
  intros Hc. pose proof (sidebar_plain c Hc) as Hp. unfold serializeSidebarModulesAdmin. rewrite json_text_trim by done. split; [|exact (JSON_parse_text 0 _ Hp)].
  apply str_true_spec. by apply (json_text_nonempty 0).
Qed.

Lemma sections_parsed c : config_ok c → NoDup (mkeys (entries (enumerated (sidebar_value c))))
  ∧ ∀ s, mget s (entries (enumerated (sidebar_value c))) = enumerated ∘ section_value <$> mget s c.
Proof.
  intros Hc. unfold sidebar_value. edestruct entries_parsed as [H1 H2]; [|split; [exact H1|]]; [unfold mkeys; rewrite <- list_fmap_compose; apply Hc|].
  intros s. rewrite H2, (mget_fmap section_value). by destruct (mget s c).
Qed.

Lemma switches_parsed c s sec : config_ok c → mget s c = Some sec → NoDup (mkeys (entries (enumerated (section_value sec))))
  ∧ ∀ m, mget m (entries (enumerated (section_value sec))) = JBool <$> mget m sec.
Proof.
  intros [_ Hc] Hs. apply mget_Some_elem in Hs. rewrite Forall_forall in Hc. destruct (Hc _ Hs) as (_ & Hn & _). unfold section_value.
  edestruct entries_parsed as [H1 H2]; [|split; [exact H1|]]; [unfold mkeys; rewrite <- list_fmap_compose; exact Hn|]. intros m. rewrite H2, (mget_fmap JBool). by destruct (mget m sec).
Qed.

(** Whether a switch is on; one that is missing is. *)
Definition on (c : SidebarModulesAdminConfig) (s m : jsstr) : bool := match mget s c with Some sec => default true (mget m sec) | None => true end.

(** What each step does to the member of its name *)
Definition section_effect (d : SidebarSectionConfig) (k : jsstr) (v : jsval) (old : option bool) : option bool :=
  if bool_decide (k = js "enabled") then old else Some (toBoolean v (default true (mget k d))).
Definition module_effect (k : jsstr) (v : bool) (old : option bool) : option bool := Some (default v old).
Definition add_effect (k : jsstr) (v : SidebarSectionConfig) (old : option SidebarSectionConfig) : option SidebarSectionConfig :=
  Some (match old with Some sec => foldl add_module sec v | None => v end).
Definition read_effect (k : jsstr) (v : jsval) (old : option SidebarSectionConfig) : option SidebarSectionConfig :=
  match v with JObj _ | JArr _ => Some (read_section k v) | _ => old end.

Lemma section_entry_mget d r k v k' : mget k' (section_entry d r (k, v)) = if bool_decide (k = k') then section_effect d k v (mget k r) else mget k' r.
Proof.
  unfold section_entry, section_effect. cbn [fst snd]. destruct (bool_decide (k = js "enabled")); [|apply mget_mset_bool]. case_bool_decide; [by subst|done].
Qed.

Lemma read_section_mget c s sec m : config_ok c → mget s c = Some sec → default true (mget m (read_section s (enumerated (section_value sec)))) = default true (mget m sec).
Proof.
  intros Hc Hs. destruct (switches_parsed c s sec Hc Hs) as [Hn Hm]. unfold read_section. cbv zeta.
  rewrite (mget_foldl _ _ (section_entry_mget _)) by done. rewrite Hm. cbn [mget]. assert (prop "enabled" (enumerated (section_value sec)) = default JUndef (JBool <$> mget (js "enabled") sec)) as ->.
  { pose proof Hs as He. apply mget_Some_elem in He. pose proof (ok_names _ Hc) as Ho. rewrite Forall_forall in Ho. destruct (Ho _ He) as (_ & Hnd & _). unfold section_value.
    rewrite prop_enumerated by (unfold mkeys; rewrite <- list_fmap_compose; exact Hnd). rewrite (mget_fmap JBool). by destruct (mget _ sec). }
  assert (∀ d, toBoolean (default JUndef (JBool <$> mget (js "enabled") sec)) d = default d (mget (js "enabled") sec)) as Ht by (intros d; by destruct (mget _ sec)).
  rewrite Ht. set (d := default true (mget (js "enabled") _)). assert (d = true) as ->.
  { unfold d. destruct (mget s SIDEBAR_MODULES_DEFAULT) as [x|] eqn:E; [|done]. apply mget_Some_elem in E.
    assert (Forall (fun e => default true (mget (js "enabled") e.2) = true) SIDEBAR_MODULES_DEFAULT) as Hd by decided. rewrite Forall_forall in Hd. exact (Hd _ E). }
  unfold section_effect. destruct (mget m sec) as [b|] eqn:E; cbn [fmap option_fmap option_map].
  - case_bool_decide as Hk; [subst m|done]. rewrite decide_True by done. by rewrite E.
  - case_decide as Hk; [subst m|done]. by rewrite E.
Qed.

Lemma add_module_mget r k v k' : mget k' (add_module r (k, v)) = if bool_decide (k = k') then module_effect k v (mget k r) else mget k' r.
Proof. unfold add_module, module_effect. cbn [fst snd]. destruct (mget k r) eqn:E; [case_bool_decide; by subst|apply mget_mset_bool]. Qed.

Lemma add_section_mget r k v k' : mget k' (add_section r (k, v)) = if bool_decide (k = k') then add_effect k v (mget k r) else mget k' r.
Proof. unfold add_section, add_effect. cbn [fst snd]. destruct (mget k r); apply mget_mset_bool. Qed.

Lemma sidebar_entry_mget r k v k' : mget k' (sidebar_entry r (k, v)) = if bool_decide (k = k') then read_effect k v (mget k r) else mget k' r.
Proof. unfold sidebar_entry, read_effect. cbn [fst snd]. destruct v; try apply mget_mset_bool; case_bool_decide; by subst. Qed.

Lemma read_effect_section k sec o : read_effect k (enumerated (section_value sec)) o = Some (read_section k (enumerated (section_value sec))).
Proof. done. Qed.

Lemma defaults_on : Forall (fun e => NoDup (mkeys e.2) ∧ Forall (fun m => m.2 = true) e.2) SIDEBAR_MODULES_DEFAULT ∧ NoDup (mkeys SIDEBAR_MODULES_DEFAULT).
Proof. decided. Qed.

Lemma default_switch s d m : mget s SIDEBAR_MODULES_DEFAULT = Some d → NoDup (mkeys d) ∧ ∀ b, mget m d = Some b → b = true.
Proof.
  intros Hd%mget_Some_elem. pose proof (proj1 defaults_on) as H. rewrite Forall_forall in H. destruct (H _ Hd) as [Hn Hf]. split; [done|]. intros b Hb%mget_Some_elem.
  rewrite Forall_forall in Hf. exact (Hf _ Hb).
Qed.

(** Opening the page on what it saved shows the same switches. *)
Lemma sidebar_reopens c s m : config_ok c → on (parseSidebarModulesAdmin (Some (serializeSidebarModulesAdmin c))) s m = on c s m.
Proof.
  intros Hc. destruct (sidebar_parsed c Hc) as [Ht Hp]. destruct (sections_parsed c Hc) as [Hn Hs]. unfold parseSidebarModulesAdmin. rewrite Ht, Hp.
  change (nullish (enumerated (sidebar_value c))) with false. cbv iota. unfold on.
  rewrite (mget_foldl _ _ add_section_mget) by apply defaults_on. rewrite (mget_foldl _ _ sidebar_entry_mget) by done. rewrite Hs. cbn [mget]. unfold compose.
  destruct (mget s SIDEBAR_MODULES_DEFAULT) as [d|] eqn:Ed.
  - destruct (default_switch s d m Ed) as [Hd Hm]. destruct (mget s c) as [sec|] eqn:E; cbn [fmap option_fmap option_map].
    + rewrite read_effect_section. unfold add_effect.
      rewrite (mget_foldl _ _ add_module_mget) by done. rewrite <- (read_section_mget c s sec m Hc E). unfold module_effect.
      destruct (mget m d) as [b|] eqn:Em; [|done]. by rewrite (Hm b eq_refl).
    + cbn [add_effect]. destruct (mget m d) as [b|] eqn:Em; [|done]. exact (Hm b eq_refl).
  - destruct (mget s c) as [sec|] eqn:E; [|done]. cbn [fmap option_fmap option_map]. rewrite read_effect_section.
    by apply (read_section_mget c).
Qed.

(** ** The header settings *)

(** Only the two pages with a rule for visitors hold one. *)
Definition HEADER_ACCESS : list jsstr := [js "pricing"; js "rankings"].
Definition module_ok (e : jsstr * NavModule) : Prop := units e.1 ∧ match e.2 with Access _ _ => e.1 ∈ HEADER_ACCESS | Flag _ => e.1 ∉ HEADER_ACCESS end.
Definition header_ok (c : HeaderNavModules) : Prop := NoDup (mkeys c) ∧ Forall module_ok c.

Lemma header_ok_mset k m c : module_ok (k, m) → header_ok c → header_ok (mset k m c).
Proof.
  intros Hm [Hn Hf]. split; [by apply mkeys_mset_NoDup|]. clear Hn. induction Hf as [|[k' m'] c Hx Hf IH]; cbn; [by constructor|]. case_decide; subst; by constructor.
Qed.

Lemma header_payload_ok c v : header_ok c → header_ok (header_payload c v).
Proof. intros Hc. unfold header_payload. repeat (apply header_ok_mset; [split; [unfold units; decided|cbn [fst snd]; decided]|]). done. Qed.

Lemma module_enumerated m : enumerated (module_value m) = module_value m.
Proof. destruct m as [b|e r]; [done|]. destruct e, r; by vm_compute. Qed.

Lemma header_plain c : header_ok c → plain (header_value c).
Proof.
  intros [Hn Hf]. apply plain_obj. split; [unfold mkeys; by rewrite <- list_fmap_compose|]. rewrite Forall_fmap. eapply Forall_impl; [exact Hf|]. intros [k m] [Hk _]. split; [done|].
  cbn [fst snd compose]. destruct m; [done|]. apply plain_obj. split; [decided|]. repeat constructor; unfold units; decided.
Qed.

Lemma header_parsed c : header_ok c → trim (serializeHeaderNavModules c) = serializeHeaderNavModules c ∧ str_true (serializeHeaderNavModules c) = true
  ∧ JSON_parse (serializeHeaderNavModules c) = Some (enumerated (header_value c)).
Proof.
  intros Hc. pose proof (header_plain c Hc) as Hp. split_and!; [by apply json_text_trim|apply str_true_spec; by apply (json_text_nonempty 0)|exact (JSON_parse_text 0 _ Hp)].
Qed.

Lemma modules_parsed c : header_ok c → NoDup (mkeys (entries (enumerated (header_value c)))) ∧ ∀ k, mget k (entries (enumerated (header_value c))) = module_value <$> mget k c.
Proof.
  intros [Hn _]. unfold header_value. edestruct entries_parsed as [H1 H2]; [|split; [exact H1|]]; [unfold mkeys; rewrite <- list_fmap_compose; exact Hn|].
  intros k. rewrite H2, (mget_fmap module_value). destruct (mget k c); [|done]. cbn. by rewrite module_enumerated.
Qed.

(** What reading does to a member *)
Definition header_effect (k : jsstr) (raw : jsval) (old : option NavModule) : option NavModule :=
  if bool_decide (k ∈ HEADER_ACCESS) then Some (parseAccessModule raw (mget k HEADER_NAV_DEFAULT))
  else match raw with JBool b => Some (Flag b) | JStr _ | JNum _ => Some (Flag (toBoolean raw (known_on (mget k HEADER_NAV_DEFAULT)))) | _ => old end.

Lemma access_key k : bool_decide (k = js "pricing") || bool_decide (k = js "rankings") = bool_decide (k ∈ HEADER_ACCESS).
Proof. unfold HEADER_ACCESS. repeat case_bool_decide; set_solver. Qed.

Lemma header_entry_mget r k v k' : mget k' (header_entry r (k, v)) = if bool_decide (k = k') then header_effect k v (mget k r) else mget k' r.
Proof.
  unfold header_entry, header_effect. rewrite access_key. destruct (bool_decide (k ∈ HEADER_ACCESS)); [apply mget_mset_bool|].
  destruct v; try apply mget_mset_bool; case_bool_decide; by subst.
Qed.

(** Reading what was printed gives the modules again. *)
Lemma header_reopens c k m : header_ok c → mget k c = Some m → mget k (parseHeaderNavModules (Some (serializeHeaderNavModules c))) = Some m.
Proof.
  intros Hc Hk. destruct (header_parsed c Hc) as (_ & Ht & Hp). destruct (modules_parsed c Hc) as [Hn Hm]. unfold parseHeaderNavModules. rewrite Ht, Hp.
  change (nullish (enumerated (header_value c))) with false. cbv iota. rewrite (mget_foldl _ _ header_entry_mget) by done. rewrite Hm, Hk. cbn [fmap option_fmap option_map].
  destruct Hc as [_ Hf]. rewrite Forall_forall in Hf. destruct (Hf _ (mget_Some_elem _ _ _ Hk)) as [_ Ho]. unfold header_effect. destruct m as [b|e r]; cbn [fst snd] in Ho.
  - by rewrite bool_decide_false.
  - rewrite bool_decide_true by done. destruct e, r; cbn; vm_compute; reflexivity.
Qed.

(** The switches of the payload *)
Lemma payload_members c v : mget (js "home") (header_payload c v) = Some (Flag (v_home v)) ∧ mget (js "console") (header_payload c v) = Some (Flag (v_console v))
  ∧ mget (js "pricing") (header_payload c v) = Some (Access (pricingEnabled v) (pricingRequireAuth v))
  ∧ mget (js "rankings") (header_payload c v) = Some (Access (rankingsEnabled v) (rankingsRequireAuth v))
  ∧ mget (js "docs") (header_payload c v) = Some (Flag (v_docs v)) ∧ mget (js "about") (header_payload c v) = Some (Flag (v_about v))
  ∧ ∀ k, k ∉ mkeys HEADER_NAV_DEFAULT → mget k (header_payload c v) = mget k c.
Proof.
  unfold header_payload. split_and!; try (rewrite !mget_mset_bool; repeat match goal with |- context [bool_decide (js ?a = js ?b)] =>
    first [constr_eq a b; rewrite (bool_decide_true (js a = js b)) by reflexivity | rewrite (bool_decide_false (js a = js b)) by decided] end; done).
  intros k Hk. rewrite !mget_mset_bool. unfold mkeys, HEADER_NAV_DEFAULT in Hk. rewrite !fmap_cons, fmap_nil in Hk. cbn [fst] in Hk. rewrite !bool_decide_false by set_solver. done.
Qed.

End NavSettings.
