(* ===== verification/Permissions.v ===== *)
(** * Rights of administrators (src/web/src/lib/admin-permissions.ts)

    A right is an action on a resource.  The server sends with a user the rights that
    were granted, and a catalog of all rights with what each role has by default; the
    editor of rights fills in what a matrix leaves open. *)

From S2P Require Import Prelude JsString JsValue JsNumber AuthStore NavSettings.
Import NavSettings.

Module Permissions.

Definition AdminPermissionMatrix : Type := list (jsstr * list (jsstr * bool)).

Definition CHANNEL : jsstr := js "channel".
Definition READ : jsstr := js "read".
Definition OPERATE : jsstr := js "operate".
Definition WRITE : jsstr := js "write".
Definition SENSITIVE_WRITE : jsstr := js "sensitive_write".
Definition SECRET_VIEW : jsstr := js "secret_view".

Definition ADMIN_ROLE_KEY : jsstr := js "admin".
Definition SUPER_ADMIN : num := num_of_Z 100.

Record PermissionActionDef := mkAction { a_action : jsstr; a_label_key : jsstr; a_description_key : jsstr }.
Record PermissionResourceDef := mkResource { r_resource : jsstr; r_label_key : jsstr; r_actions : list PermissionActionDef }.
Record PermissionRoleDef := mkRole { p_key : jsstr; p_name : jsstr; built_in : bool; superuser : bool; grants : AdminPermissionMatrix }.
Record PermissionCatalog := mkCatalog { resources : list PermissionResourceDef; roles : list PermissionRoleDef }.

Definition EMPTY_PERMISSION_CATALOG : PermissionCatalog := mkCatalog [] [].

(** [None] is no user. *)
Definition hasPermission (user : option AuthStore.AuthUser) (resource action : jsstr) : bool :=
  match user with
  | None => false
  | Some u =>
      if num_eqb (AuthStore.u_role u) SUPER_ADMIN then true
      else is_true (member action (member resource (prop "admin_permissions" (prop "permissions" (AuthStore.u_object u)))))
  end.

Definition roleGrants (catalog : PermissionCatalog) (roleKey : jsstr) : AdminPermissionMatrix :=
  match list_find (fun r => p_key r = roleKey) (roles catalog) with Some (_, r) => grants r | None => [] end.

(** [m?.[resource]?.[action]] *)
Definition granted (m : AdminPermissionMatrix) (resource action : jsstr) : option bool := mget resource m ≫= mget action.

Definition filled (value : option AdminPermissionMatrix) (baseline : AdminPermissionMatrix) (resource action : jsstr) : bool :=
  match granted (default [] value) resource action with
  | Some b => b
  | None => default false (granted baseline resource action)
  end.

Definition normalize_actions (value : option AdminPermissionMatrix) (baseline : AdminPermissionMatrix) (r : PermissionResourceDef) : list (jsstr * bool) :=
  foldl (fun actions a => mset (a_action a) (filled value baseline (r_resource r) (a_action a)) actions) [] (r_actions r).

Definition normalizeAdminPermissions (value : option AdminPermissionMatrix) (catalog : PermissionCatalog) : AdminPermissionMatrix :=
  let baseline := roleGrants catalog ADMIN_ROLE_KEY in
  foldl (fun normalized r => mset (r_resource r) (normalize_actions value baseline r) normalized) [] (resources catalog).

(** ** Normalised matrices *)

(** A catalog names each resource, and each action of a resource, once. *)
Definition catalog_ok (c : PermissionCatalog) : Prop :=
  NoDup (r_resource <$> resources c) ∧ Forall (fun r => NoDup (a_action <$> r_actions r)) (resources c).

(** Writing one entry for each element of a list *)
Lemma mget_writes {A W} (name : A → jsstr) (val : A → W) l acc k : NoDup (name <$> l) →
  mget k (foldl (fun m x => mset (name x) (val x) m) acc l) = match mget k ((fun x => (name x, val x)) <$> l) with Some w => Some w | None => mget k acc end.
Proof.
  revert acc. induction l as [|x l IH]; intros acc; [done|]. rewrite fmap_cons. intros [Hx Hn]%NoDup_cons. cbn [foldl]. rewrite IH by done. rewrite fmap_cons. cbn [mget]. rewrite mget_mset_bool.
  destruct (decide (name x = k)) as [<-|Hne].
  - rewrite bool_decide_true, decide_True by done. destruct (mget (name x) _) eqn:E; [|done]. exfalso. apply mget_Some_elem, list_elem_of_fmap in E as (y & [= E _] & Hy). apply Hx. rewrite E.
    by apply list_elem_of_fmap_2.
  - rewrite bool_decide_false by done. by rewrite decide_False by congruence.
Qed.

Lemma mget_named {A W} (name : A → jsstr) (val : A → W) l x : NoDup (name <$> l) → x ∈ l → mget (name x) ((fun x => (name x, val x)) <$> l) = Some (val x).
Proof.
  intros Hn Hx. apply elem_mget; [unfold mkeys; by rewrite <- list_fmap_compose|]. apply list_elem_of_fmap. by exists x.
Qed.

(** The matrix has the right of every action of the catalog: the one that was given, or
    else that of the role. *)
Lemma normalized_granted value c r a : catalog_ok c → r ∈ resources c → a ∈ r_actions r →
  granted (normalizeAdminPermissions value c) (r_resource r) (a_action a) = Some (filled value (roleGrants c ADMIN_ROLE_KEY) (r_resource r) (a_action a)).
Proof.
  intros [Hn Ha] Hr Hin. unfold granted, normalizeAdminPermissions. cbv zeta. rewrite mget_writes by done. rewrite (mget_named r_resource _ _ r) by done. cbn [mbind option_bind].
  unfold normalize_actions. rewrite Forall_forall in Ha. rewrite mget_writes by (by apply Ha). rewrite (mget_named a_action _ _ a) by (first [by apply Ha|done]). done.
Qed.

Lemma normalized_outside value c resource : catalog_ok c → resource ∉ r_resource <$> resources c → mget resource (normalizeAdminPermissions value c) = None.
Proof.
  intros [Hn _] Ho. unfold normalizeAdminPermissions. cbv zeta. rewrite mget_writes by done. destruct (mget resource _) eqn:E; [|done]. exfalso. apply mget_Some_elem, list_elem_of_fmap in E as (r & [= -> _] & Hr).
  apply Ho. by apply list_elem_of_fmap_2.
Qed.

Lemma foldl_ext_in {A B} (f g : B → A → B) l b : (∀ b x, x ∈ l → f b x = g b x) → foldl f b l = foldl g b l.
Proof. revert b. induction l as [|x l IH]; intros b H; [done|]. cbn. rewrite H by (by left). apply IH. intros b' y Hy. apply H. by right. Qed.

(** Normalising again changes nothing. *)
Lemma normalized_again value c : catalog_ok c → normalizeAdminPermissions (Some (normalizeAdminPermissions value c)) c = normalizeAdminPermissions value c.
Proof.
  intros Hc. unfold normalizeAdminPermissions at 1. cbv zeta. apply foldl_ext_in. intros m r Hr. f_equal. unfold normalize_actions. apply foldl_ext_in. intros acts a Ha. f_equal.
  unfold filled at 1. cbn [default from_option id]. by rewrite normalized_granted.
Qed.

End Permissions.
