(* ===== verification/ChannelForm.v ===== *)
(** * The form of a channel
    (src/web/src/features/channels/lib/channel-form.ts, channel-form-errors.ts,
    src/web/src/features/channels/hooks/use-channel-mutate-form.ts and the JSON of
    src/web/src/features/channels/lib/advanced-custom.ts)

    A channel is stored with two JSON texts besides its plain columns: [setting], which
    the form writes as a whole, and [settings], of which the form owns some members and
    keeps the others.  Opening a channel reads both into the form, saving writes them
    again.  Values that come out of JSON have any type until the form is validated, so
    these fields of the form are [jsval]; a function that throws returns [None]. *)

From Stdlib Require Import QArith ZifyBool ZifyN.
From S2P Require Import Prelude JsString JsValue JsJson JsNumber JsonPrint BillingRules ParamOverride AdvancedCustom AuthStore Permissions.
Import ParamOverride.
Local Close Scope Q_scope.

Module ChannelForm.

(** ** Constants *)

Definition HTTP_PROTOCOL_AUTO : jsstr := js "auto".
Definition HTTP_PROTOCOL_HTTP1 : jsstr := js "http1".
Definition MAX_HTTP2_CONNECTION_SHARDS : Z := 8.
Definition CHANNEL_TYPE_NEW_API : Z := 60.
Definition CHANNEL_TYPE_ADVANCED_CUSTOM : Z := 58.
Definition MODEL_FETCHABLE_TYPES : list Z := [1; 4; 14; 17; 20; 23; 24; 25; 26; 27; 31; 34; 35; 40; 42; 43; 47; 48; 57; 58; 59; 60; 61]%Z.
Definition CHANNEL_STATUS_ENABLED : Z := 1.

(** ** Values *)

(** The options of [normalizeHttpProtocol] *)
Definition normalizeHttpProtocol (value : jsval) : jsstr :=
  if bool_decide (lower (trim (js_String (or_else value (JStr [])))) = HTTP_PROTOCOL_HTTP1) then HTTP_PROTOCOL_HTTP1 else HTTP_PROTOCOL_AUTO.

Definition is_nullish (v : jsval) : bool := match v with JUndef | JNull => true | _ => false end.

(** [v === n] for a number *)
Definition is_num (x : num) (v : jsval) : bool := match v with JNum y => num_eqb y x | _ => false end.

Definition normalizeHttp2ConnectionShards (value : jsval) : jsval :=
  if is_nullish value || (match value with JNum NaN => true | _ => false end) || is_num (num_of_Z 0) value then JNum (num_of_Z 1)
  else if num_ltb (Number_of value) (num_of_Z 1) then JNum (num_of_Z 1)
  else if num_ltb (num_of_Z MAX_HTTP2_CONNECTION_SHARDS) (Number_of value) then JNum (num_of_Z MAX_HTTP2_CONNECTION_SHARDS)
  else value.

(** [JSON.parse] of a text that may be missing: [None] is an exception, [Some JUndef]
    no value *)
Definition parseOptionalJson (value : option jsstr) : option jsval :=
  match value with
  | Some s => if str_true (trim s) then JSON_parse s else Some JUndef
  | None => Some JUndef
  end.

Definition isJsonObjectValue (v : jsval) : bool := match v with JObj _ => true | _ => false end.

(** The checks of the schema; an exception counts as a refusal *)
Definition isOptionalJsonObject (value : option jsstr) : bool :=
  match parseOptionalJson value with Some parsed => is_undef parsed || isJsonObjectValue parsed | None => false end.

Definition isOptionalModelMapping (value : option jsstr) : bool :=
  match parseOptionalJson value with
  | Some JUndef => true
  | Some (JObj fs) => forallb is_string (Object_values fs)
  | _ => false
  end.

Definition is_status (x : num) : bool := num_isInteger x && num_leb (num_of_Z 100) x && num_leb x (num_of_Z 599).

Definition isOptionalStatusCodeMapping (value : option jsstr) : bool :=
  match parseOptionalJson value with
  | Some JUndef => true
  | Some (JObj fs) => forallb (fun e => is_status (Number_text e.1) && is_status (Number_of e.2)) (own_fields fs)
  | _ => false
  end.

Definition filled_string (v : jsval) : bool := match v with JStr s => str_true (trim s) | _ => false end.

Definition isCodexCredential (value : option jsstr) : bool :=
  match parseOptionalJson value with
  | Some JUndef => true
  | Some parsed => isJsonObjectValue parsed && filled_string (prop "access_token" parsed) && filled_string (prop "account_id" parsed)
  | None => false
  end.

Definition isVertexJsonKey (value : option jsstr) : bool :=
  match parseOptionalJson value with
  | Some JUndef => true
  | Some (JArr l) => forallb isJsonObjectValue l
  | Some parsed => isJsonObjectValue parsed
  | None => false
  end.

(** What the checks read of a parsed address *)
Record URL := mkURL { protocol : jsstr; hostname : jsstr; port : jsstr }.

Definition SUPPORTED_PROXY_PROTOCOLS : list jsstr := js <$> ["http:"; "https:"; "socks5:"; "socks5h:"]%string.

(** [s.search(/[/?#]/)] *)
Definition is_suffix_mark (c : N) : bool := bool_decide (c ∈ js "/?#").

Definition isOptionalProxyURL (new_URL : jsstr → option URL) (value : option jsstr) : bool :=
  let trimmedValue := trim (ostr value) in
  if str_true trimmedValue then
    match index_of (js "://") trimmedValue with
    | None | Some 0 => false
    | Some i =>
        let authorityAndSuffix := drop (i + 3) trimmedValue in
        match list_find (fun c => is_suffix_mark c = true) authorityAndSuffix with
        | Some (suffixIndex, _) => bool_decide (drop suffixIndex authorityAndSuffix = [47%N])
        | None => true
        end
        && match new_URL trimmedValue with
           | Some u => bool_decide (protocol u ∈ SUPPORTED_PROXY_PROTOCOLS) && str_true (hostname u) && negb (bool_decide (port u = js "0"))
           | None => false
           end
    end
  else true.

(** ** Lists in texts *)

Definition comma_list (s : jsstr) : list jsstr := filter (fun m => str_true m = true) (trim <$> split_on 44%N s).

Definition parseModels (models : jsstr) : list jsstr := if str_true models then comma_list models else [].
Definition parseGroups (groups : jsstr) : list jsstr := if str_true groups then comma_list groups else [].
Definition formatModels (models : list jsstr) : jsstr := str_join [44%N] models.
Definition formatGroups (groups : list jsstr) : jsstr := str_join [44%N] groups.

Definition validateJSON (value : jsstr) : bool := if negb (str_true value) || negb (str_true (trim value)) then true else bool_decide (is_Some (JSON_parse value)).
Definition validateModelMapping (value : jsstr) : bool := if negb (str_true value) || negb (str_true (trim value)) then true else validateJSON value.

(** ** The form *)

Record ChannelModelGroupModeInput := mkGroupMode { gm_model : jsstr; gm_mode : jsstr; gm_groups : list jsstr }.

(** The fields that are kept in [setting] *)
Record ExtraSettings := mkExtra {
  force_format : jsval;
  thinking_to_content : jsval;
  proxy : jsval;
  http_protocol : jsval;
  http2_connection_shards : jsval;
  pass_through_body_enabled : jsval;
  system_prompt : jsval;
  system_prompt_override : jsval
}.

(** The fields that are kept in [settings] *)
Record SpecificSettings := mkSpecific {
  is_enterprise_account : option bool;
  vertex_key_type : jsval;
  aws_key_type : jsval;
  azure_responses_version : jsval;
  allow_service_tier : option bool;
  disable_store : option bool;
  allow_safety_identifier : option bool;
  allow_include_obfuscation : option bool;
  allow_inference_geo : option bool;
  allow_speed : option bool;
  claude_beta_query : option bool;
  disable_task_polling_sleep : option bool;
  upstream_model_update_check_enabled : option bool;
  upstream_model_update_auto_sync_enabled : option bool;
  upstream_model_update_ignored_models : option jsstr;
  advanced_custom : option jsstr
}.

Record ChannelFormValues := mkForm {
  f_name : jsstr;
  f_type : num;
  f_base_url : option jsstr;
  f_key : jsstr;
  f_openai_organization : option jsstr;
  f_models : jsstr;
  f_group : list jsstr;
  f_model_group_modes : option (list ChannelModelGroupModeInput);
  f_model_fixed_endpoints : option (list (jsstr * jsstr));
  f_model_mapping : option jsstr;
  f_priority : option num;
  f_weight : option num;
  f_test_model : option jsstr;
  f_auto_ban : option num;
  f_status : num;
  f_status_code_mapping : option jsstr;
  f_tag : option jsstr;
  f_remark : option jsstr;
  f_setting : option jsstr;
  f_param_override : option jsstr;
  f_header_override : option jsstr;
  f_settings : option jsstr;
  f_other : option jsstr;
  f_multi_key_mode : option jsstr;
  f_multi_key_type : option jsstr;
  f_batch_prefix : option bool;
  f_key_mode : option jsstr;
  extra : ExtraSettings;
  specific : SpecificSettings
}.

Definition default_extra : ExtraSettings :=
  mkExtra (JBool false) (JBool false) (JStr []) (JStr HTTP_PROTOCOL_AUTO) (JNum (num_of_Z 1)) (JBool false) (JStr []) (JBool false).

Definition default_specific : SpecificSettings :=
  mkSpecific (Some false) (JStr (js "json")) (JStr (js "ak_sk")) (JStr []) (Some false) (Some false) (Some false) (Some false) (Some false) (Some false) (Some false) (Some false)
    (Some false) (Some false) (Some []) (Some []).

Definition CHANNEL_FORM_DEFAULT_VALUES : ChannelFormValues :=
  mkForm [] (num_of_Z 1) (Some []) [] (Some []) [] [js "default"] (Some []) (Some []) (Some []) (Some (num_of_Z 0)) (Some (num_of_Z 0)) (Some []) (Some (num_of_Z 1))
    (num_of_Z CHANNEL_STATUS_ENABLED) (Some []) (Some []) (Some []) (Some []) (Some []) (Some []) (Some (js "{}")) (Some []) (Some (js "single")) (Some (js "random"))
    (Some false) (Some (js "append")) default_extra default_specific.

(** ** Opening a channel *)

(** What the server sends; a missing or null text is [None] *)
Record Channel := mkChannel {
  ch_id : num;
  ch_name : jsstr;
  ch_type : num;
  ch_base_url : option jsstr;
  ch_openai_organization : option jsstr;
  ch_models : jsstr;
  ch_group : jsstr;
  ch_model_group_modes : option (list ChannelModelGroupModeInput);
  ch_model_fixed_endpoints : option (list (jsstr * jsstr));
  ch_model_mapping : option jsstr;
  ch_priority : option num;
  ch_weight : option num;
  ch_test_model : option jsstr;
  ch_auto_ban : option num;
  ch_status : num;
  ch_status_code_mapping : option jsstr;
  ch_tag : option jsstr;
  ch_remark : jsstr;
  ch_setting : option jsstr;
  ch_param_override : option jsstr;
  ch_header_override : option jsstr;
  ch_settings : jsstr;
  ch_other : jsstr;
  ch_multi_key_mode : jsstr
}.

(** [x || 0] *)
Definition num_or_0 (x : option num) : num := match x with Some n => if num_true n then n else num_of_Z 0 | None => num_of_Z 0 end.

(** [parsed.k], which throws on null *)
Definition reads_members (parsed : jsval) : bool := negb (is_nullish parsed).

Definition extra_of (parsed : jsval) : ExtraSettings :=
  let protocol := normalizeHttpProtocol (prop "http_protocol" parsed) in
  let shards := normalizeHttp2ConnectionShards (prop "http2_connection_shards" parsed) in
  mkExtra (or_else (prop "force_format" parsed) (JBool false)) (or_else (prop "thinking_to_content" parsed) (JBool false)) (or_else (prop "proxy" parsed) (JStr []))
    (JStr protocol) (if bool_decide (protocol = HTTP_PROTOCOL_HTTP1) then JNum (num_of_Z 1) else shards)
    (or_else (prop "pass_through_body_enabled" parsed) (JBool false)) (or_else (prop "system_prompt" parsed) (JStr [])) (or_else (prop "system_prompt_override" parsed) (JBool false)).

Definition open_extra (setting : jsstr) : ExtraSettings :=
  if str_true setting then
    match JSON_parse setting with
    | Some parsed => if reads_members parsed then extra_of parsed else default_extra
    | None => default_extra
    end
  else default_extra.

(** ** The JSON of advanced routes

    The functions of [AdvancedCustom] speak of routes with the types they declare; what
    is read from a text may have any type.  [v.trim()] throws on what is no string. *)

Definition value_trim (v : jsval) : option jsstr := match v with JStr s => Some (trim s) | _ => None end.

Definition normalize_models_value (models : jsval) : option (list jsstr) :=
  match models with JArr l => filter (fun m => str_true m = true) <$> mapM value_trim l | _ => Some [] end.

Definition normalize_auth_value (auth : jsval) : jsval :=
  JObj (put (negb (is_undef (prop "type" auth))) "type" (prop "type" auth) []
        ++ [(js "name", or_else (prop "name" auth) (JStr [])); (js "value", or_else (prop "value" auth) (JStr []))]).

Definition normalize_route_value (route : jsval) : option jsval :=
  if is_nullish route then None
  else
    upstream ← value_trim (or_else (prop "upstream_path" route) (JStr []));
    models ← normalize_models_value (prop "models" route);
    let auth := prop "auth" route in
    Some (JObj ([(js "incoming_path", or_else (prop "incoming_path" route) (JStr [])); (js "upstream_path", JStr upstream);
                 (js "converter", or_else (prop "converter" route) (JStr (js "none")))]
                ++ (match models with [] => [] | _ => [(js "models", JArr (JStr <$> models))] end)
                ++ (if truthy auth then [(js "auth", normalize_auth_value auth)] else []))).

Definition normalize_config_value (config : jsval) : option jsval :=
  routes ← match prop "advanced_routes" config with JArr l => mapM normalize_route_value l | _ => Some [] end;
  Some (JObj [(js "advanced_routes", JArr routes)]).

(** [None] is null *)
Definition parseAdvancedCustomConfig (value : option jsstr) : option jsval :=
  match value with
  | Some s =>
      if str_true (trim s) then
        match JSON_parse s with
        | Some (JObj fs) => normalize_config_value (JObj fs)
        | _ => None
        end
      else None
  | None => None
  end.

(** [None] is an exception *)
Definition stringifyAdvancedCustomConfig (config : jsval) : option jsstr := json_text 2 0 <$> normalize_config_value config.

(** ** Opening, continued *)

Definition specific_of (parsed : jsval) : SpecificSettings :=
  let flag k := Some (is_true (prop k parsed)) in
  mkSpecific (flag "openrouter_enterprise"%string) (or_else (prop "vertex_key_type" parsed) (JStr (js "json"))) (or_else (prop "aws_key_type" parsed) (JStr (js "ak_sk")))
    (or_else (prop "azure_responses_version" parsed) (JStr [])) (flag "allow_service_tier"%string) (flag "disable_store"%string) (flag "allow_safety_identifier"%string)
    (flag "allow_include_obfuscation"%string) (flag "allow_inference_geo"%string) (flag "allow_speed"%string) (flag "claude_beta_query"%string)
    (flag "disable_task_polling_sleep"%string) (flag "upstream_model_update_check_enabled"%string) (flag "upstream_model_update_auto_sync_enabled"%string)
    (Some (match prop "upstream_model_update_ignored_models" parsed with JArr l => js_String (JArr l) | _ => [] end))
    (Some (if truthy (prop "advanced_custom" parsed) then ostr (stringifyAdvancedCustomConfig (prop "advanced_custom" parsed)) else [])).

Definition open_specific (settings : jsstr) : SpecificSettings :=
  if str_true settings then
    match JSON_parse settings with
    | Some parsed => if reads_members parsed then specific_of parsed else default_specific
    | None => default_specific
    end
  else default_specific.

Definition transformChannelToFormDefaults (c : Channel) : ChannelFormValues :=
  mkForm (ch_name c) (ch_type c) (Some (ostr (ch_base_url c))) [] (Some (ostr (ch_openai_organization c))) (ch_models c) (parseGroups (str_or (ch_group c) (js "default")))
    (Some (default [] (ch_model_group_modes c))) (Some (default [] (ch_model_fixed_endpoints c))) (Some (ostr (ch_model_mapping c))) (Some (num_or_0 (ch_priority c)))
    (Some (num_or_0 (ch_weight c))) (Some (ostr (ch_test_model c))) (Some (default (num_of_Z 1) (ch_auto_ban c))) (ch_status c) (Some (ostr (ch_status_code_mapping c)))
    (Some (ostr (ch_tag c))) (Some (ch_remark c)) (Some (ostr (ch_setting c))) (Some (ostr (ch_param_override c))) (Some (ostr (ch_header_override c)))
    (Some (str_or (ch_settings c) (js "{}"))) (Some (ch_other c)) (Some (js "single")) (Some (str_or (ch_multi_key_mode c) (js "random"))) (Some false) (Some (js "append"))
    (open_extra (ostr (ch_setting c))) (open_specific (ch_settings c)).

(** ** Saving *)

Notation obj := (list (jsstr * jsval)).

(** [v?.trim() || ''] *)
Definition optional_trim (v : jsval) : option jsstr := if is_nullish v then Some [] else value_trim v.

(** [v > n] *)
Definition gt_num (v : jsval) (n : Z) : bool := num_ltb (num_of_Z n) (Number_of v).

Definition buildSettingJSON (form : ChannelFormValues) : option jsstr :=
  let e := extra form in
  p ← optional_trim (proxy e);
  let settingObj : obj :=
    [(js "force_format", or_else (force_format e) (JBool false)); (js "thinking_to_content", or_else (thinking_to_content e) (JBool false)); (js "proxy", JStr p);
     (js "pass_through_body_enabled", or_else (pass_through_body_enabled e) (JBool false)); (js "system_prompt", or_else (system_prompt e) (JStr []));
     (js "system_prompt_override", or_else (system_prompt_override e) (JBool false))] in
  let http1 := bool_decide (normalizeHttpProtocol (http_protocol e) = HTTP_PROTOCOL_HTTP1) in
  let shards := if http1 then JNum (num_of_Z 1) else normalizeHttp2ConnectionShards (http2_connection_shards e) in
  let settingObj :=
    if http1 then mset (js "http_protocol") (JStr HTTP_PROTOCOL_HTTP1) settingObj
    else if gt_num shards 1 then mset (js "http2_connection_shards") shards settingObj else settingObj in
  Some (json_text 0 0 (JObj settingObj)).

Definition type_is (form : ChannelFormValues) (ts : list Z) : bool := existsb (fun t => num_eqb (f_type form) (num_of_Z t)) ts.

Definition flag (b : option bool) : jsval := JBool (bool_decide (b = Some true)).

(** Set a member, or delete it when it is there *)
Definition own (b : bool) (k : string) (v : jsval) (o : obj) : obj := if b then mset (js k) v o else mdel (js k) o.

Definition write_keys (form : ChannelFormValues) (o : obj) : obj :=
  let s := specific form in
  let o := own (type_is form [41%Z]) "vertex_key_type" (or_else (vertex_key_type s) (JStr (js "json"))) o in
  let o := own (type_is form [3%Z] && truthy (azure_responses_version s)) "azure_responses_version" (azure_responses_version s) o in
  let o := own (type_is form [20%Z]) "openrouter_enterprise" (flag (is_enterprise_account s)) o in
  own (type_is form [33%Z]) "aws_key_type" (or_else (aws_key_type s) (JStr (js "ak_sk"))) o.

Definition write_passthrough (form : ChannelFormValues) (o : obj) : obj :=
  let s := specific form in
  let o := own (type_is form [1; 14; 57]%Z) "allow_service_tier" (flag (allow_service_tier s)) o in
  let o :=
    if type_is form [1; 57]%Z then
      let o := mset (js "disable_store") (flag (disable_store s)) o in
      let o := mset (js "allow_safety_identifier") (flag (allow_safety_identifier s)) o in
      let o := mset (js "allow_include_obfuscation") (flag (allow_include_obfuscation s)) o in
      mset (js "allow_inference_geo") (flag (allow_inference_geo s)) o
    else
      let o := mdel (js "disable_store") o in
      let o := mdel (js "allow_safety_identifier") o in
      let o := mdel (js "allow_include_obfuscation") o in
      if type_is form [14%Z] then o else mdel (js "allow_inference_geo") o in
  let o :=
    if type_is form [14%Z] then
      let o := mset (js "allow_inference_geo") (flag (allow_inference_geo s)) o in
      let o := mset (js "allow_speed") (flag (allow_speed s)) o in
      mset (js "claude_beta_query") (flag (claude_beta_query s)) o
    else
      let o := mdel (js "allow_speed") o in
      mdel (js "claude_beta_query") o in
  mset (js "disable_task_polling_sleep") (flag (disable_task_polling_sleep s)) o.

Definition write_upstream (form : ChannelFormValues) (o : obj) : obj :=
  let s := specific form in
  if type_is form MODEL_FETCHABLE_TYPES then
    let check := bool_decide (upstream_model_update_check_enabled s = Some true) in
    let o := mset (js "upstream_model_update_check_enabled") (JBool check) o in
    let o := mset (js "upstream_model_update_auto_sync_enabled") (JBool (check && bool_decide (upstream_model_update_auto_sync_enabled s = Some true))) o in
    let o := mset (js "upstream_model_update_ignored_models") (JArr (JStr <$> uniq (comma_list (ostr (upstream_model_update_ignored_models s))))) o in
    let o :=
      if negb (is_array (prop "upstream_model_update_last_detected_models" (JObj o))) || negb check
      then mset (js "upstream_model_update_last_detected_models") (JArr []) o else o in
    if negb (is_number (prop "upstream_model_update_last_check_time" (JObj o))) then mset (js "upstream_model_update_last_check_time") (JNum (num_of_Z 0)) o else o
  else o.

Definition write_advanced (form : ChannelFormValues) (o : obj) : obj :=
  if type_is form [CHANNEL_TYPE_ADVANCED_CUSTOM] then
    match parseAdvancedCustomConfig (advanced_custom (specific form)) with
    | Some config => mset (js "advanced_custom") config o
    | None => o
    end
  else mdel (js "advanced_custom") o.

Definition write_settings (form : ChannelFormValues) (o : obj) : obj := write_advanced form (write_upstream form (write_passthrough form (write_keys form o))).

(** Members of an array are not printed; members of other values that are no object
    can not be set. *)
Definition buildSettingsJSON (form : ChannelFormValues) : option jsstr :=
  let text := ostr (f_settings form) in
  let settingsObj := if str_true text && negb (bool_decide (text = js "{}")) then default (JObj []) (JSON_parse text) else JObj [] in
  match settingsObj with
  | JObj o => Some (json_text 0 0 (JObj (write_settings form o)))
  | JArr l => Some (json_text 0 0 (JArr l))
  | _ => None
  end.

(** ** Payloads *)

(** [s.replace(/\/+$/, '')] *)
Fixpoint drop_slashes (s : jsstr) : jsstr := match s with 47%N :: s => drop_slashes s | _ => s end.

Definition normalizeBaseUrl (value : option jsstr) : jsstr := reverse (drop_slashes (reverse (trim (ostr value)))).

Definition pruneChannelModelGroupModes (modes : list ChannelModelGroupModeInput) (models : list jsstr) : list ChannelModelGroupModeInput :=
  filter (fun m => gm_model m ∈ models) modes.

Definition pruneChannelModelFixedEndpoints (endpoints : list (jsstr * jsstr)) (models : list jsstr) : list (jsstr * jsstr) :=
  filter (fun e => e.1 ∈ models ∧ trim e.2 ≠ []) (own_fields endpoints).

Definition endpoints_value (es : list (jsstr * jsstr)) : jsval := JObj ((fun e => (e.1, JStr e.2)) <$> es).
Definition modes_value (ms : list ChannelModelGroupModeInput) : jsval :=
  JArr ((fun m => JObj [(js "model", JStr (gm_model m)); (js "mode", JStr (gm_mode m)); (js "groups", JArr (JStr <$> gm_groups m))]) <$> ms).

(** [s || null] and [n || null] *)
Definition str_or_null (s : jsstr) : jsval := if str_true s then JStr s else JNull.
Definition num_or_null (x : option num) : jsval := match x with Some n => if num_true n then JNum n else JNull | None => JNull end.

(** Empty texts become null. *)
Definition clean (v : jsval) : jsval := match v with JStr [] => JNull | v => v end.
Definition empty_to_null (p : obj) : obj := (fun e => (e.1, clean e.2)) <$> p.

Definition defined (k : string) (v : option jsval) : obj := match v with Some v => [(js k, v)] | None => [] end.

Definition fixed_endpoints (form : ChannelFormValues) : jsval :=
  endpoints_value (pruneChannelModelFixedEndpoints (default [] (f_model_fixed_endpoints form)) (parseModels (f_models form))).

Definition transformFormDataToCreatePayload (form : ChannelFormValues) : option obj :=
  setting ← buildSettingJSON form;
  settings ← buildSettingsJSON form;
  let mode := str_or (ostr (f_multi_key_mode form)) (js "single") in
  let channel : obj :=
    [(js "name", JStr (f_name form)); (js "type", JNum (f_type form)); (js "base_url", str_or_null (normalizeBaseUrl (f_base_url form))); (js "key", JStr (f_key form));
     (js "openai_organization", str_or_null (ostr (f_openai_organization form))); (js "models", JStr (f_models form)); (js "group", JStr (formatGroups (f_group form)));
     (js "model_fixed_endpoints", fixed_endpoints form); (js "model_mapping", str_or_null (ostr (f_model_mapping form))); (js "priority", num_or_null (f_priority form));
     (js "weight", num_or_null (f_weight form)); (js "test_model", str_or_null (ostr (f_test_model form))); (js "auto_ban", JNum (default (num_of_Z 1) (f_auto_ban form)));
     (js "status", JNum (f_status form)); (js "status_code_mapping", str_or_null (ostr (f_status_code_mapping form))); (js "tag", str_or_null (ostr (f_tag form)));
     (js "remark", JStr (ostr (f_remark form))); (js "setting", JStr setting); (js "param_override", str_or_null (ostr (f_param_override form)));
     (js "header_override", str_or_null (ostr (f_header_override form))); (js "settings", JStr settings); (js "other", JStr (ostr (f_other form)))] in
  Some ([(js "mode", JStr mode)]
        ++ defined "multi_key_mode" (if bool_decide (mode = js "multi_to_single") then JStr <$> f_multi_key_type form else None)
        ++ defined "batch_add_set_key_prefix_2_name" (if bool_decide (mode = js "batch") then JBool <$> f_batch_prefix form else None)
        ++ [(js "channel", JObj (empty_to_null channel))]).

Definition transformFormDataToUpdatePayload (form : ChannelFormValues) (channelId : num) : option obj :=
  setting ← buildSettingJSON form;
  settings ← buildSettingsJSON form;
  let payload : obj :=
    [(js "id", JNum channelId); (js "name", JStr (f_name form)); (js "type", JNum (f_type form)); (js "base_url", str_or_null (normalizeBaseUrl (f_base_url form)));
     (js "openai_organization", str_or_null (ostr (f_openai_organization form))); (js "models", JStr (f_models form)); (js "group", JStr (formatGroups (f_group form)));
     (js "model_group_modes", modes_value (pruneChannelModelGroupModes (default [] (f_model_group_modes form)) (parseModels (f_models form))));
     (js "model_fixed_endpoints", fixed_endpoints form); (js "model_mapping", str_or_null (ostr (f_model_mapping form)));
     (js "priority", JNum (default (num_of_Z 0) (f_priority form))); (js "weight", JNum (default (num_of_Z 0) (f_weight form)));
     (js "test_model", str_or_null (ostr (f_test_model form))); (js "auto_ban", JNum (default (num_of_Z 1) (f_auto_ban form)));
     (js "status_code_mapping", str_or_null (ostr (f_status_code_mapping form))); (js "tag", str_or_null (ostr (f_tag form))); (js "remark", JStr (ostr (f_remark form)));
     (js "setting", JStr setting); (js "param_override", str_or_null (ostr (f_param_override form))); (js "header_override", str_or_null (ostr (f_header_override form)));
     (js "settings", JStr settings); (js "other", JStr (ostr (f_other form)))] in
  let payload := if str_true (f_key form) && str_true (trim (f_key form)) then mset (js "key") (JStr (f_key form)) payload else payload in
  let payload := empty_to_null payload in
  let payload := mset (js "base_url") (JStr (normalizeBaseUrl (f_base_url form))) payload in
  let payload := mset (js "openai_organization") (JStr (ostr (f_openai_organization form))) payload in
  let payload := mset (js "test_model") (JStr (ostr (f_test_model form))) payload in
  let payload := mset (js "tag") (JStr (ostr (f_tag form))) payload in
  let payload := mset (js "remark") (JStr (ostr (f_remark form))) payload in
  let payload := mset (js "model_mapping") (JStr (ostr (f_model_mapping form))) payload in
  let payload := mset (js "status_code_mapping") (JStr (ostr (f_status_code_mapping form))) payload in
  let payload := mset (js "param_override") (JStr (ostr (f_param_override form))) payload in
  Some (mset (js "header_override") (JStr (ostr (f_header_override form))) payload).

(** ** Validation *)

(** Values of the declared types, as the functions of [AdvancedCustom] take them;
    [None] when a member has another type *)
Definition typed_str (v : jsval) : option (option jsstr) := match v with JUndef => Some None | JStr s => Some (Some s) | _ => None end.

Definition typed_auth (v : jsval) : option AdvancedCustom.AdvancedCustomRouteAuth :=
  type ← typed_str (prop "type" v);
  name ← typed_str (prop "name" v);
  value ← typed_str (prop "value" v);
  Some (AdvancedCustom.mkAuth type name value).

Definition str_value (v : jsval) : option jsstr := match v with JStr s => Some s | _ => None end.

Definition typed_route (v : jsval) : option AdvancedCustom.AdvancedCustomRoute :=
  incoming ← typed_str (prop "incoming_path" v);
  upstream ← typed_str (prop "upstream_path" v);
  converter ← typed_str (prop "converter" v);
  models ← match prop "models" v with JUndef => Some None | JArr l => Some <$> mapM str_value l | _ => None end;
  auth ← match prop "auth" v with JUndef => Some None | JObj fs => Some <$> typed_auth (JObj fs) | _ => None end;
  match v with JObj _ => Some (AdvancedCustom.mkRoute incoming upstream converter models auth) | _ => None end.

Definition typed_config (v : jsval) : option AdvancedCustom.AdvancedCustomConfig :=
  match prop "advanced_routes" v with
  | JArr l => AdvancedCustom.mkConfig ∘ Some <$> mapM typed_route l
  | JUndef => Some (AdvancedCustom.mkConfig None)
  | _ => None
  end.

Record Issue := mkIssue { i_path : jsstr; i_message : jsstr }.

Definition blank_text (s : option jsstr) : bool := negb (str_true (trim (ostr s))).
Definition issue (b : bool) (path message : string) : list Issue := if b then [mkIssue (js path) (js message)] else [].

(** Batch creation was chosen *)
Definition batch_mode (data : ChannelFormValues) : bool := str_true (ostr (f_multi_key_mode data)) && negb (bool_decide (f_multi_key_mode data = Some (js "single"))).

Section Validation.
Context (new_URL : jsstr → option URL).

(** Of a parsed address, the protocol and the host with its port *)
Context (URL_host : jsstr → option (jsstr * jsstr)).

Definition advanced_issues (data : ChannelFormValues) (config : option AdvancedCustom.AdvancedCustomConfig) : list Issue :=
  match AdvancedCustom.validateAdvancedCustomConfig URL_host config with
  | Some e => [mkIssue (js "advanced_custom") (AdvancedCustom.message e)]
  | None => []
  end
  ++ issue (AdvancedCustom.advancedCustomConfigUsesRelativeUpstreamPath config && blank_text (f_base_url data)) "base_url"
       "Base URL is required when an advanced route uses an upstream path"
  ++ issue (bool_decide (upstream_model_update_check_enabled (specific data) = Some true) && negb (AdvancedCustom.hasValidAdvancedCustomModelListRoute URL_host config))
       "upstream_model_update_check_enabled" "OpenAI Models route is required to enable upstream model checks".

(** The configuration of the type of advanced routes: null, one of the declared type,
    or another value, on which the checks are not described *)
Definition config_of (data : ChannelFormValues) : option (option AdvancedCustom.AdvancedCustomConfig) :=
  match parseAdvancedCustomConfig (advanced_custom (specific data)) with
  | None => Some None
  | Some v => Some <$> typed_config v
  end.

Definition superRefine (data : ChannelFormValues) : option (list Issue) :=
  advanced ← (if type_is data [CHANNEL_TYPE_ADVANCED_CUSTOM] then advanced_issues data <$> config_of data else Some []);
  let key := Some (f_key data) in
  let vertex := vertex_key_type (specific data) in
  let http1 := bool_decide (normalizeHttpProtocol (http_protocol (extra data)) = HTTP_PROTOCOL_HTTP1) in
  let shards := if is_nullish (http2_connection_shards (extra data)) then JNum (num_of_Z 1) else http2_connection_shards (extra data) in
  Some (issue (type_is data [3; 8; 36; 45; CHANNEL_TYPE_NEW_API]%Z && blank_text (f_base_url data)) "base_url" "Base URL is required for this channel type"
    ++ advanced
    ++ issue (type_is data [3; 18; 21; 39; 41; 49]%Z && blank_text (f_other data)) "other" "This channel type requires additional configuration"
    ++ issue (type_is data [57%Z] && batch_mode data) "multi_key_mode" "Codex channels do not support batch creation"
    ++ issue (type_is data [57%Z] && negb (blank_text key) && negb (isCodexCredential key)) "key"
         "Codex credential must be a JSON object with access_token and account_id"
    ++ issue (type_is data [41%Z] && is_str (js "json") vertex && negb (blank_text key) && negb (isVertexJsonKey key)) "key"
         "Vertex AI service account key must be valid JSON"
    ++ issue (type_is data [41%Z] && is_str (js "api_key") vertex && batch_mode data) "multi_key_mode" "Vertex AI API Key mode does not support batch creation"
    ++ issue (num_ltb (Number_of shards) (num_of_Z 1) || gt_num shards MAX_HTTP2_CONNECTION_SHARDS) "http2_connection_shards"
         "HTTP/2 connection shards must be between 1 and 8"
    ++ issue (http1 && gt_num shards 1) "http2_connection_shards" "HTTP/2 connection shards must be 1 when HTTP/1.1 is selected").

(** [/^https?:\/\/[^/]+/i.test(s)] *)
Definition is_http_url (s : jsstr) : bool :=
  let l := lower s in
  let rest_ok n := match drop n l with c :: _ => negb (c =? 47)%N | [] => false end in
  (starts_with (js "http://") l && rest_ok 7) || (starts_with (js "https://") l && rest_ok 8).

Definition endpoint_ok (endpoint : jsstr) : bool :=
  let s := trim endpoint in
  negb (str_true s) || (starts_with (js "/") s && negb (starts_with (js "//") s) && negb (includes (js "?") endpoint)) || is_http_url s.

(** The refinements of single fields *)
Definition refinements (data : ChannelFormValues) : bool :=
  forallb (fun e => endpoint_ok e.2) (own_fields (default [] (f_model_fixed_endpoints data)))
  && isOptionalModelMapping (f_model_mapping data) && isOptionalStatusCodeMapping (f_status_code_mapping data)
  && isOptionalJsonObject (f_setting data) && isOptionalJsonObject (f_param_override data) && isOptionalJsonObject (f_header_override data)
  && isOptionalJsonObject (f_settings data) && isOptionalProxyURL new_URL (str_value (proxy (extra data))).

(** What the schema library checks of single fields *)
Definition optional_bool (v : jsval) : bool := match v with JUndef | JBool _ => true | _ => false end.
Definition optional_text (v : jsval) : bool := match v with JUndef | JStr _ => true | _ => false end.
Definition optional_enum (es : list string) (v : jsval) : bool := match v with JUndef => true | JStr s => bool_decide (s ∈ js <$> es) | _ => false end.
Definition optional_int (v : jsval) : bool := match v with JUndef => true | JNum x => num_isInteger x | _ => false end.
Definition optional_finite (x : option num) : bool := match x with Some x => num_isFinite x | None => true end.
Definition enum_text (es : list string) (s : option jsstr) : bool := match s with Some s => bool_decide (s ∈ js <$> es) | None => true end.

Definition shapes (data : ChannelFormValues) : bool :=
  let e := extra data in
  let s := specific data in
  str_true (f_name data) && num_isFinite (f_type data) && num_leb (num_of_Z 0) (f_type data) && str_true (f_models data) && negb (bool_decide (f_group data = []))
  && forallb (fun m => str_true (gm_model m) && enum_text ["inherit"; "custom"; "disabled"]%string (Some (gm_mode m))) (default [] (f_model_group_modes data))
  && optional_finite (f_priority data) && optional_finite (f_weight data) && optional_finite (f_auto_ban data) && num_isFinite (f_status data)
  && (length (ostr (f_remark data)) <=? 255)
  && enum_text ["single"; "batch"; "multi_to_single"]%string (f_multi_key_mode data) && enum_text ["random"; "polling"]%string (f_multi_key_type data)
  && enum_text ["append"; "replace"]%string (f_key_mode data)
  && optional_bool (force_format e) && optional_bool (thinking_to_content e) && optional_text (proxy e) && optional_enum ["auto"; "http1"]%string (http_protocol e)
  && optional_int (http2_connection_shards e) && optional_bool (pass_through_body_enabled e) && optional_text (system_prompt e) && optional_bool (system_prompt_override e)
  && optional_enum ["json"; "api_key"]%string (vertex_key_type s) && optional_enum ["ak_sk"; "api_key"]%string (aws_key_type s) && optional_text (azure_responses_version s).

(** The form passes *)
Definition channelFormSchema (data : ChannelFormValues) : bool :=
  shapes data && refinements data && match superRefine data with Some [] => true | _ => false end.
End Validation.

(** ** Fields of the advanced section *)

Definition ADVANCED_SETTINGS_FIELDS : list jsstr := js <$> [
  "priority"; "weight"; "test_model"; "auto_ban"; "tag"; "remark"; "param_override"; "header_override"; "status_code_mapping"; "advanced_custom"; "force_format";
  "thinking_to_content"; "pass_through_body_enabled"; "proxy"; "http_protocol"; "http2_connection_shards"; "system_prompt"; "system_prompt_override"; "allow_service_tier";
  "disable_store"; "allow_safety_identifier"; "allow_include_obfuscation"; "allow_inference_geo"; "allow_speed"; "claude_beta_query"; "disable_task_polling_sleep";
  "upstream_model_update_check_enabled"; "upstream_model_update_auto_sync_enabled"; "upstream_model_update_ignored_models"]%string.

Definition isAdvancedSettingsField (fieldName : jsstr) : bool := bool_decide (fieldName ∈ ADVANCED_SETTINGS_FIELDS).
Definition hasAdvancedSettingsErrors (errors : list Issue) : bool := existsb (fun e => isAdvancedSettingsField (i_path e)) errors.

(** ** Submitting *)

Definition SENSITIVE_UPDATE_FIELDS : list jsstr := js <$> ["type"; "key"; "base_url"; "openai_organization"; "param_override"; "header_override"; "setting"; "settings"; "other"]%string.

Inductive Submission := UpdateChannel (id : num) (payload : obj) | CreateChannel (payload : obj).

(** The request that submitting sends; [None] is an exception *)
Definition mutation_request (currentRow : option Channel) (isEditing isMultiKeyChannel canEditSensitive : bool) (data : ChannelFormValues) : option Submission :=
  match isEditing, currentRow with
  | true, Some row =>
      payload ← transformFormDataToUpdatePayload data (ch_id row);
      let payload := if str_true (trim (f_key data)) then payload else mdel (js "key") payload in
      let payload := if canEditSensitive then payload else foldl (fun p k => mdel k p) payload SENSITIVE_UPDATE_FIELDS in
      let payload :=
        if canEditSensitive && isMultiKeyChannel && str_true (trim (f_key data)) && str_true (ostr (f_key_mode data))
        then mset (js "key_mode") (JStr (ostr (f_key_mode data))) payload else payload in
      Some (UpdateChannel (ch_id row) payload)
  | _, _ => CreateChannel <$> transformFormDataToCreatePayload data
  end.

(** The hook asks for the right of the user when it runs. *)
Definition useChannelMutateForm (user : option AuthStore.AuthUser) (currentRow : option Channel) (isEditing isMultiKeyChannel : bool) (data : ChannelFormValues) : option Submission :=
  mutation_request currentRow isEditing isMultiKeyChannel (Permissions.hasPermission user Permissions.CHANNEL Permissions.SENSITIVE_WRITE) data.

(** What the user is told of the answer *)
Inductive Told := Success (m : jsstr) | Failure (m : jsstr).

Definition mutation_outcome (t : jsstr → jsstr) (editing success : bool) (message : option jsstr) : Told :=
  if success then Success (t (if editing then js "Channel updated successfully" else js "Channel created successfully"))
  else Failure (str_or (str_or (ostr message) (t (if editing then js "Failed to update channel" else js "Failed to create channel"))) (t (js "Failed to create channel"))).

(** ** Forms of the declared types *)

Definition maybe_bool (v : jsval) : Prop := v = JUndef ∨ ∃ b, v = JBool b.
Definition maybe_str (P : jsstr → Prop) (v : jsval) : Prop := v = JUndef ∨ ∃ s, v = JStr s ∧ P s.

Record extra_typed (e : ExtraSettings) : Prop := {
  t_force : maybe_bool (force_format e);
  t_thinking : maybe_bool (thinking_to_content e);
  t_proxy : maybe_str units (proxy e);
  t_protocol : maybe_str (fun s => s = HTTP_PROTOCOL_AUTO ∨ s = HTTP_PROTOCOL_HTTP1) (http_protocol e);
  t_shards : http2_connection_shards e = JUndef ∨ ∃ z, http2_connection_shards e = JNum (num_of_Z z);
  t_body : maybe_bool (pass_through_body_enabled e);
  t_prompt : maybe_str units (system_prompt e);
  t_override : maybe_bool (system_prompt_override e)
}.

(** ** The text of [setting] *)

Definition bool_of (v : jsval) : bool := match v with JBool b => b | _ => false end.
Definition str_of (v : jsval) : jsstr := match v with JStr s => s | _ => [] end.
Definition is_http1 (e : ExtraSettings) : bool := is_str HTTP_PROTOCOL_HTTP1 (http_protocol e).

(** The number of shards that is kept *)
Definition kept_shards (e : ExtraSettings) : Z :=
  if is_http1 e then 1%Z else match http2_connection_shards e with JNum (Fin q) => Z.max 1 (Z.min MAX_HTTP2_CONNECTION_SHARDS (Qnum q)) | _ => 1%Z end.

(** What the form shows of a setting that was saved *)
Definition shown_extra (e : ExtraSettings) : ExtraSettings :=
  mkExtra (JBool (bool_of (force_format e))) (JBool (bool_of (thinking_to_content e))) (JStr (trim (str_of (proxy e))))
    (JStr (if is_http1 e then HTTP_PROTOCOL_HTTP1 else HTTP_PROTOCOL_AUTO)) (JNum (num_of_Z (kept_shards e)))
    (JBool (bool_of (pass_through_body_enabled e))) (JStr (str_of (system_prompt e))) (JBool (bool_of (system_prompt_override e))).

Lemma or_else_bool v : maybe_bool v → or_else v (JBool false) = JBool (bool_of v).
Proof. intros [->|[[] ->]]; done. Qed.

Lemma or_else_str P v : maybe_str P v → or_else v (JStr []) = JStr (str_of v).
Proof. intros [->|([|c s] & -> & _)]; done. Qed.

Lemma trim_typed P v : maybe_str P v → optional_trim v = Some (trim (str_of v)).
Proof. intros [->|(s & -> & _)]; done. Qed.

Lemma protocol_typed e : extra_typed e → normalizeHttpProtocol (http_protocol e) = if is_http1 e then HTTP_PROTOCOL_HTTP1 else HTTP_PROTOCOL_AUTO.
Proof. intros He. unfold is_http1. destruct (t_protocol e He) as [->|(s & -> & [->| ->])]; by vm_compute. Qed.

Lemma int_canonical z : is_canonical (num_of_Z z).
Proof. split; [apply Qred_inject|]. exists 0. rewrite Qred_inject. by exists 1%Z. Qed.

Lemma num_eqb_Z a b : num_eqb (num_of_Z a) (num_of_Z b) = (a =? b)%Z.
Proof. unfold num_eqb, num_of_Z, inject_Z. cbn. by rewrite !Z.mul_1_r. Qed.

Lemma shards_int z : normalizeHttp2ConnectionShards (JNum (num_of_Z z)) = JNum (num_of_Z (Z.max 1 (Z.min MAX_HTTP2_CONNECTION_SHARDS z))).
Proof.
  unfold normalizeHttp2ConnectionShards, MAX_HTTP2_CONNECTION_SHARDS. cbn [is_nullish is_num Number_of orb]. rewrite num_eqb_Z, !num_ltb_Z.
  destruct (Z.eqb_spec z 0); [subst; done|]. destruct (Z.ltb_spec z 1); [do 2 f_equal; lia|]. destruct (Z.ltb_spec 8 z); do 2 f_equal; lia.
Qed.

Lemma shards_typed e : extra_typed e →
  (if is_http1 e then JNum (num_of_Z 1) else normalizeHttp2ConnectionShards (http2_connection_shards e)) = JNum (num_of_Z (kept_shards e)).
Proof.
  intros He. unfold kept_shards. destruct (is_http1 e); [done|]. destruct (t_shards e He) as [->|[z ->]]; [done|]. rewrite shards_int. done.
Qed.

Lemma kept_shards_range e : (1 <= kept_shards e <= MAX_HTTP2_CONNECTION_SHARDS)%Z.
Proof. unfold kept_shards, MAX_HTTP2_CONNECTION_SHARDS. repeat case_match; lia. Qed.

(** The object that is printed *)
Definition setting_fields (e : ExtraSettings) : obj :=
  put (negb (is_http1 e) && (1 <? kept_shards e)%Z) "http2_connection_shards" (JNum (num_of_Z (kept_shards e)))
   (put (is_http1 e) "http_protocol" (JStr HTTP_PROTOCOL_HTTP1)
     [(js "force_format", JBool (bool_of (force_format e))); (js "thinking_to_content", JBool (bool_of (thinking_to_content e))); (js "proxy", JStr (trim (str_of (proxy e))));
      (js "pass_through_body_enabled", JBool (bool_of (pass_through_body_enabled e))); (js "system_prompt", JStr (str_of (system_prompt e)));
      (js "system_prompt_override", JBool (bool_of (system_prompt_override e)))]).

Lemma setting_text form : extra_typed (extra form) → buildSettingJSON form = Some (json_text 0 0 (JObj (setting_fields (extra form)))).
Proof.
  intros He. unfold buildSettingJSON. cbv zeta. rewrite (trim_typed _ _ (t_proxy _ He)). cbn [mbind option_bind]. rewrite (protocol_typed _ He).
  rewrite !(or_else_bool (force_format _)), !(or_else_bool (thinking_to_content _)), !(or_else_bool (pass_through_body_enabled _)), !(or_else_bool (system_prompt_override _)),
    (or_else_str _ _ (t_prompt _ He)) by apply He.
  pose proof (shards_typed _ He) as Hs. unfold setting_fields. destruct (is_http1 (extra form)) eqn:E.
  - by rewrite bool_decide_true by done.
  - rewrite bool_decide_false by done. rewrite Hs. unfold gt_num. cbn [Number_of negb andb]. rewrite num_ltb_Z. by destruct (1 <? kept_shards (extra form))%Z.
Qed.

(** Units of a literal *)
Ltac lit := unfold units; decided.

Lemma str_of_units v : maybe_str units v → units (str_of v).
Proof. intros [->|(s & -> & H)]; [constructor|done]. Qed.

Lemma setting_plain e : extra_typed e → plain_fields (setting_fields e).
Proof.
  intros He. unfold setting_fields. apply plain_put; [lit|apply int_canonical|]. apply plain_put; [lit|change (units HTTP_PROTOCOL_HTTP1); lit|]. split; [decided|].
  do 2 (apply Forall_cons_2; [split; [lit|done]|]). apply Forall_cons_2; [split; [lit|by apply trim_units, str_of_units, He]|].
  apply Forall_cons_2; [split; [lit|done]|]. apply Forall_cons_2; [split; [lit|by apply str_of_units, He]|]. apply Forall_cons_2; [split; [lit|done]|constructor].
Qed.

(** Members of an object of literals *)
Lemma mget_nil {V} (k : jsstr) : mget k ([] : list (jsstr * V)) = None.
Proof. done. Qed.

Lemma mget_member {V} (k k' : jsstr) (v : V) (p : list (jsstr * V)) : mget k ((k', v) :: p) = if bool_decide (k' = k) then Some v else mget k p.
Proof. cbn. case_bool_decide as H; [by rewrite decide_True|by rewrite decide_False]. Qed.

Lemma mget_put k k' b v p : mget k' (put b k v p) = if bool_decide (js k = k') then (if b then Some v else mget k' p) else mget k' p.
Proof. case_bool_decide as H; [rewrite <- H; apply mget_put_eq|by apply mget_put_ne]. Qed.

Lemma mget_set (k k' : jsstr) (v : jsval) (o : obj) : mget k' (mset k v o) = if bool_decide (k = k') then Some v else mget k' o.
Proof. rewrite mget_mset. by case_bool_decide; case_decide. Qed.

(** Equality of literals *)
Ltac literals :=
  repeat match goal with
  | |- context [bool_decide (js ?a = js ?b)] =>
      first [constr_eq a b; rewrite (bool_decide_true (js a = js b)) by reflexivity | rewrite (bool_decide_false (js a = js b)) by decided]; cbv iota
  end.

Ltac look := repeat first [rewrite mget_put; literals | rewrite mget_member; literals | rewrite mget_nil].

Lemma shown_protocol e : normalizeHttpProtocol (default JUndef (enumerated <$> (if is_http1 e then Some (JStr HTTP_PROTOCOL_HTTP1) else None))) =
  if is_http1 e then HTTP_PROTOCOL_HTTP1 else HTTP_PROTOCOL_AUTO.
Proof. destruct (is_http1 e); by vm_compute. Qed.

Lemma open_setting e : extra_typed e → open_extra (json_text 0 0 (JObj (setting_fields e))) = shown_extra e.
Proof.
  intros He. pose proof (setting_plain e He) as Hp. pose proof Hp as [Hnd _]. apply plain_obj in Hp. unfold open_extra.
  pose proof (json_text_nonempty 0 _ Hp) as Hne. apply str_true_spec in Hne. rewrite Hne, (JSON_parse_text 0 _ Hp). change (reads_members (enumerated (JObj (setting_fields e)))) with true. cbv iota.
  unfold extra_of. cbv zeta. rewrite !prop_enumerated by done. unfold setting_fields. look.
  assert (∀ b, or_else (JBool b) (JBool false) = JBool b) as Hb by (by intros []).
  assert (∀ s, or_else (JStr s) (JStr []) = JStr s) as Hstr by (by intros []).
  rewrite shown_protocol. cbn [fmap option_fmap option_map default from_option id enumerated]. rewrite !Hb, !Hstr. unfold shown_extra. f_equal.
  pose proof (kept_shards_range e) as Hk. destruct (is_http1 e) eqn:E.
  - rewrite bool_decide_true by done. unfold kept_shards. by rewrite E.
  - rewrite bool_decide_false by done. cbn [negb andb]. destruct (Z.ltb_spec 1 (kept_shards e)); cbn [fmap option_fmap option_map default from_option id enumerated].
    + rewrite shards_int. do 2 f_equal. lia.
    + change (normalizeHttp2ConnectionShards JUndef) with (JNum (num_of_Z 1)). do 2 f_equal. lia.
Qed.

(** ** Advanced routes that are already normal *)

Lemma enumerated_truthy v : truthy (enumerated v) = truthy v.
Proof. by destruct v. Qed.

Lemma enumerated_or_else v s : or_else (enumerated v) (JStr s) = enumerated (or_else v (JStr s)).
Proof. unfold or_else. rewrite enumerated_truthy. by destruct (truthy v). Qed.

Lemma enumerated_prop k v : plain v → prop k (enumerated v) = enumerated (prop k v).
Proof. intros Hp. destruct v; try done. by apply prop_enumerated_obj. Qed.

Lemma enumerated_trim v : value_trim (enumerated v) = value_trim v.
Proof. by destruct v. Qed.

Lemma trim_values_enumerated l : mapM value_trim (enumerated <$> l) = mapM value_trim l.
Proof. induction l as [|v l IH]; [done|]. rewrite fmap_cons. cbn [mapM]. by rewrite enumerated_trim, IH. Qed.

Lemma trim_values l ms : mapM value_trim l = Some ms → Forall (fun m => trim m = m) ms.
Proof.
  intros H. apply mapM_Some in H. induction H as [|v m l ms Hv _ IH]; constructor; [|done]. destruct v; try done. injection Hv as <-. apply trim_idemp.
Qed.

Lemma value_trim_strs ms : Forall (fun m => trim m = m) ms → mapM value_trim (JStr <$> ms) = Some ms.
Proof. induction 1 as [|m ms Hm _ IH]; [done|]. rewrite fmap_cons. cbn [mapM value_trim]. rewrite Hm. cbn [mbind option_bind]. by rewrite IH. Qed.

Lemma models_value_normal v ms : normalize_models_value v = Some ms → Forall (fun m => trim m = m ∧ str_true m = true) ms.
Proof.
  unfold normalize_models_value. destruct v as [| | | | |l|]; try (intros [= <-]; constructor). intros (l' & Hl & ->)%fmap_Some. apply trim_values in Hl.
  rewrite Forall_forall in *. intros m [Hm Hin]%list_elem_of_filter. auto.
Qed.

Lemma models_value_idem ms : Forall (fun m => trim m = m ∧ str_true m = true) ms → normalize_models_value (JArr (JStr <$> ms)) = Some ms.
Proof.
  intros H. cbn [normalize_models_value]. rewrite value_trim_strs by (eapply Forall_impl; [exact H|]; by intros m [? _]). cbn. rewrite filter_all; [done|].
  eapply Forall_impl; [exact H|]. by intros m [_ ?].
Qed.

Lemma or_else_twice v s : or_else (or_else v (JStr s)) (JStr s) = or_else v (JStr s).
Proof. unfold or_else at 1. by destruct (truthy (or_else v (JStr s))) eqn:E; [|unfold or_else in *; destruct (truthy v) eqn:E'; [congruence|]]. Qed.

Lemma or_else_trim s : or_else (JStr s) (JStr []) = JStr s.
Proof. by destruct s. Qed.

Lemma auth_value_idem a : normalize_auth_value (normalize_auth_value a) = normalize_auth_value a.
Proof.
  unfold normalize_auth_value at 1. unfold normalize_auth_value at 1 2 3 4. unfold put. destruct (is_undef (prop "type" a)) eqn:E; cbn [negb].
  - rewrite !prop_mget. cbn [app]. look. cbn [default from_option id is_undef negb]. rewrite !or_else_twice. unfold normalize_auth_value, put. by rewrite E.
  - rewrite !prop_mget. cbn [app mset]. look. cbn [default from_option id]. rewrite E, !or_else_twice. unfold normalize_auth_value, put. by rewrite E.
Qed.

(** The normal route of its parts *)
Definition route_value (incoming : jsval) (upstream : jsstr) (converter : jsval) (models : list jsstr) (auth : option jsval) : jsval :=
  JObj ([(js "incoming_path", incoming); (js "upstream_path", JStr upstream); (js "converter", converter)]
        ++ (match models with [] => [] | _ => [(js "models", JArr (JStr <$> models))] end) ++ (match auth with Some a => [(js "auth", a)] | None => [] end)).

Lemma route_value_eq r : is_nullish r = false → normalize_route_value r =
  (u ← value_trim (or_else (prop "upstream_path" r) (JStr [])); ms ← normalize_models_value (prop "models" r);
   Some (route_value (or_else (prop "incoming_path" r) (JStr [])) u (or_else (prop "converter" r) (JStr (js "none"))) ms
           (if truthy (prop "auth" r) then Some (normalize_auth_value (prop "auth" r)) else None))).
Proof.
  intros H. unfold normalize_route_value. rewrite H. destruct (value_trim _) as [u|]; [|done]. cbn [mbind option_bind]. destruct (normalize_models_value _) as [ms|]; [|done].
  cbn. by destruct (truthy _).
Qed.

Lemma route_value_props i u c ms a : Forall (fun m => trim m = m ∧ str_true m = true) ms →
  prop "incoming_path" (route_value i u c ms a) = i ∧ prop "upstream_path" (route_value i u c ms a) = JStr u ∧ prop "converter" (route_value i u c ms a) = c
  ∧ normalize_models_value (prop "models" (route_value i u c ms a)) = Some ms ∧ prop "auth" (route_value i u c ms a) = default JUndef a.
Proof.
  intros Hms. unfold route_value. rewrite !prop_mget. destruct ms as [|m ms], a as [a|]; cbn [app]; look; cbn [default from_option id]; split_and!; try done; by apply models_value_idem.
Qed.

Lemma route_idem r v : normalize_route_value r = Some v → normalize_route_value v = Some v.
Proof.
  destruct (is_nullish r) eqn:E; [unfold normalize_route_value; by rewrite E|]. rewrite route_value_eq by done. destruct (value_trim _) as [u|] eqn:Eu; [|done]. cbn [mbind option_bind].
  destruct (normalize_models_value _) as [ms|] eqn:Em; [|done]. cbn [mbind option_bind]. intros [= <-]. apply models_value_normal in Em.
  set (a := if truthy (prop "auth" r) then _ else _). destruct (route_value_props (or_else (prop "incoming_path" r) (JStr [])) u (or_else (prop "converter" r) (JStr (js "none"))) ms a Em)
    as (P1 & P2 & P3 & P4 & P5). rewrite route_value_eq by done. rewrite P1, P2, P3, P4, P5, !or_else_twice, or_else_trim. cbn [value_trim mbind option_bind].
  assert (trim u = u) as -> by (destruct (or_else (prop "upstream_path" r) (JStr [])); try done; injection Eu as <-; apply trim_idemp).
  unfold a. destruct (truthy (prop "auth" r)); cbn [default from_option id]; [|done]. change (truthy (normalize_auth_value (prop "auth" r))) with true. cbv iota. by rewrite auth_value_idem.
Qed.

Lemma config_idem w v : normalize_config_value w = Some v → normalize_config_value v = Some v.
Proof.
  unfold normalize_config_value at 1. destruct (match prop "advanced_routes" w with JArr l => _ | _ => _ end) as [rs|] eqn:E; [|done]. cbn [mbind option_bind]. intros [= <-].
  unfold normalize_config_value. rewrite prop_mget. look. cbn [default from_option id]. assert (mapM normalize_route_value rs = Some rs) as ->; [|done].
  destruct (prop "advanced_routes" w) as [| | | | |l|]; try (by injection E as <-). apply mapM_Some in E. apply mapM_Some. clear -E.
  induction E as [|r v l rs Hr _ IH]; constructor; [by eapply route_idem|done].
Qed.

(** An object whose names are no indices is in order. *)
Lemma enumerated_names (fs : obj) : Forall (fun k => array_index k = None) (mkeys fs) → enumerated (JObj fs) = JObj (emap fs).
Proof. intros H. rewrite enumerated_obj. f_equal. apply own_fields_names. unfold mkeys, emap in *. rewrite <- list_fmap_compose. exact H. Qed.

Lemma plain_or_else k s v : plain v → units s → plain (or_else (prop k v) (JStr s)).
Proof.
  intros Hp Hs. unfold or_else. destruct (truthy (prop k v)) eqn:E; [|done]. destruct v as [| | | | | |fs]; try done. rewrite prop_mget in *. apply plain_obj in Hp as [_ Hp].
  destruct (mget (js k) fs) as [w|] eqn:Ew; [|done]. apply mget_Some_elem in Ew. rewrite Forall_forall in Hp. by apply (Hp _ Ew).
Qed.

Lemma prop_plain k v : plain v → prop k v = JUndef ∨ plain (prop k v).
Proof.
  intros Hp. destruct v as [| | | | | |fs]; try (by left). rewrite prop_mget. apply plain_obj in Hp as [_ Hp]. destruct (mget (js k) fs) as [w|] eqn:Ew; [right|by left].
  apply mget_Some_elem in Ew. rewrite Forall_forall in Hp. by apply (Hp _ Ew).
Qed.

Lemma auth_enumerated a : plain a → normalize_auth_value (enumerated a) = enumerated (normalize_auth_value a).
Proof.
  intros Hp. unfold normalize_auth_value, put. rewrite !enumerated_prop, !enumerated_or_else by done.
  assert (is_undef (enumerated (prop "type" a)) = is_undef (prop "type" a)) as -> by (by destruct (prop "type" a)).
  destruct (is_undef (prop "type" a)); cbn [negb app mset]; (rewrite enumerated_names; [done|decided]).
Qed.

Lemma auth_plain a : plain a → plain (normalize_auth_value a).
Proof.
  intros Hp. unfold normalize_auth_value, put. apply plain_obj. assert (units (js "name") ∧ units (js "value") ∧ units (js "type")) as (U1 & U2 & U3) by (split_and!; lit).
  assert (Forall (fun e => units e.1 ∧ plain e.2) [(js "name", or_else (prop "name" a) (JStr [])); (js "value", or_else (prop "value" a) (JStr []))]) as H.
  { apply Forall_cons_2; [split; [done|apply plain_or_else; [done|constructor]]|]. apply Forall_cons_2; [split; [done|apply plain_or_else; [done|constructor]]|constructor]. }
  destruct (prop_plain "type" a Hp) as [->|Ht]; cbn [is_undef negb app]; [split; [decided|done]|].
  destruct (is_undef (prop "type" a)); cbn [negb app mset]; (split; [decided|]); [done|]. by apply Forall_cons_2.
Qed.

Lemma strs_enumerated (ms : list jsstr) : enumerated <$> (JStr <$> ms) = JStr <$> ms.
Proof. rewrite <- list_fmap_compose. by apply list_fmap_ext. Qed.

Lemma route_value_enumerated i u c ms a : enumerated (route_value i u c ms a) = route_value (enumerated i) u (enumerated c) ms (enumerated <$> a).
Proof.
  unfold route_value. rewrite enumerated_names by (destruct ms, a; decided). unfold emap. destruct ms as [|m ms], a as [a|]; cbn [app fmap list_fmap enumerated fst snd option_fmap option_map]; try done;
    by rewrite strs_enumerated.
Qed.

Lemma route_enumerated r : plain r → normalize_route_value (enumerated r) = enumerated <$> normalize_route_value r.
Proof.
  intros Hp. assert (is_nullish (enumerated r) = is_nullish r) as En by (by destruct r). destruct (is_nullish r) eqn:E; [unfold normalize_route_value; by rewrite En, E|].
  rewrite !route_value_eq, !enumerated_prop, !enumerated_or_else, enumerated_trim, enumerated_truthy by done. destruct (value_trim _) as [u|]; [|done]. cbn [mbind option_bind].
  assert (normalize_models_value (enumerated (prop "models" r)) = normalize_models_value (prop "models" r)) as ->.
  { destruct (prop "models" r); try done. cbn [enumerated normalize_models_value]. by rewrite trim_values_enumerated. }
  destruct (normalize_models_value _) as [ms|]; [|done]. cbn [mbind option_bind fmap option_fmap option_map]. f_equal. rewrite route_value_enumerated. f_equal.
  destruct (truthy (prop "auth" r)) eqn:Et; [|done]. cbn. f_equal. apply auth_enumerated. destruct (prop_plain "auth" r Hp) as [H|H]; [by rewrite H in Et|done].
Qed.

Lemma trim_values_units l ms : Forall plain l → mapM value_trim l = Some ms → Forall units ms.
Proof.
  intros Hl H. apply mapM_Some in H. induction H as [|v m l ms Hv _ IH]; [constructor|]. apply Forall_cons in Hl as [Hp Hl]. constructor; [|auto].
  destruct v; try done. injection Hv as <-. by apply trim_units.
Qed.

Lemma models_value_units v ms : v = JUndef ∨ plain v → normalize_models_value v = Some ms → Forall units ms.
Proof.
  intros Hv. unfold normalize_models_value. destruct v as [| | | | |l|]; try (intros [= <-]; constructor). destruct Hv as [?|Hv]; [done|]. apply plain_arr in Hv.
  intros (l' & Hl & ->)%fmap_Some. apply trim_values_units in Hl; [|done]. rewrite Forall_forall in *. intros m [_ Hin]%list_elem_of_filter. auto.
Qed.

Lemma strs_plain ms : Forall units ms → plain (JArr (JStr <$> ms)).
Proof. intros H. apply plain_arr, Forall_fmap. done. Qed.

Lemma route_plain r v : plain r → normalize_route_value r = Some v → plain v.
Proof.
  intros Hp. destruct (is_nullish r) eqn:E; [unfold normalize_route_value; by rewrite E|]. rewrite route_value_eq by done.
  pose proof (plain_or_else "upstream_path" [] r Hp ltac:(constructor)) as Hu. destruct (value_trim _) as [u|] eqn:Eu; [|done]. cbn [mbind option_bind].
  assert (units u) as Huu by (destruct (or_else (prop "upstream_path" r) (JStr [])); try done; injection Eu as <-; by apply trim_units).
  destruct (normalize_models_value _) as [ms|] eqn:Em; [|done]. cbn [mbind option_bind]. intros [= <-]. apply models_value_units in Em; [|by apply prop_plain]. apply strs_plain in Em.
  assert (Forall (fun e => units e.1 ∧ plain e.2) (match ms with [] => [] | _ => [(js "models", JArr (JStr <$> ms))] end)) as Fm.
  { destruct ms; [constructor|]. apply Forall_singleton. split; [lit|done]. }
  assert (Forall (fun e => units e.1 ∧ plain e.2) (match (if truthy (prop "auth" r) then Some (normalize_auth_value (prop "auth" r)) else None) with Some a => [(js "auth", a)] | None => [] end)) as Fa.
  { destruct (truthy (prop "auth" r)) eqn:Et; [|constructor]. apply Forall_singleton. split; [lit|]. apply auth_plain. destruct (prop_plain "auth" r Hp) as [H|H]; [by rewrite H in Et|done]. }
  unfold route_value. apply plain_obj. split; [destruct ms, (truthy (prop "auth" r)); decided|]. apply Forall_app. split; [|by apply Forall_app].
  apply Forall_cons_2; [split; [lit|apply plain_or_else; [done|constructor]]|]. apply Forall_cons_2; [split; [lit|done]|].
  apply Forall_cons_2; [split; [lit|apply plain_or_else; [done|lit]]|constructor].
Qed.

Lemma config_enumerated w : plain w → normalize_config_value (enumerated w) = enumerated <$> normalize_config_value w.
Proof.
  intros Hp. unfold normalize_config_value. rewrite enumerated_prop by done.
  assert (match enumerated (prop "advanced_routes" w) with JArr l => mapM normalize_route_value l | _ => Some [] end =
          fmap enumerated <$> match prop "advanced_routes" w with JArr l => mapM normalize_route_value l | _ => Some [] end) as ->.
  { destruct (prop_plain "advanced_routes" w Hp) as [->|Hr]; [done|]. destruct (prop "advanced_routes" w) as [| | | | |l|]; try done. cbn [enumerated]. apply plain_arr in Hr.
    induction Hr as [|r l Hr _ IH]; [done|]. rewrite fmap_cons. cbn [mapM]. rewrite route_enumerated by done. destruct (normalize_route_value r) as [v|]; [|done].
    cbn [mbind option_bind fmap option_fmap option_map]. rewrite IH. by destruct (mapM normalize_route_value l). }
  destruct (match prop "advanced_routes" w with JArr l => _ | _ => _ end); done.
Qed.

Lemma config_plain w v : plain w → normalize_config_value w = Some v → plain v.
Proof.
  intros Hp. unfold normalize_config_value. destruct (match prop "advanced_routes" w with JArr l => _ | _ => _ end) as [rs|] eqn:E; [|done]. intros [= <-].
  apply plain_obj. split; [apply NoDup_singleton|]. apply Forall_singleton. split; [lit|]. apply plain_arr. destruct (prop_plain "advanced_routes" w Hp) as [H|Hr]; [rewrite H in E; by injection E as <-|].
  destruct (prop "advanced_routes" w) as [| | | | |l|]; try (injection E as <-; constructor). apply plain_arr in Hr. apply mapM_Some in E.
  induction E as [|r v l rs Hv _ IH]; [constructor|]. apply Forall_cons in Hr as [H1 H2]. constructor; [by eapply route_plain|auto].
Qed.

(** A configuration that was parsed is normal and can be printed. *)
Lemma parsed_config s v : units s → parseAdvancedCustomConfig (Some s) = Some v → plain v ∧ truthy v = true ∧ normalize_config_value v = Some v.
Proof.
  intros Hs. unfold parseAdvancedCustomConfig. destruct (str_true (trim s)); [|done]. destruct (JSON_parse s) as [w|] eqn:E; [|done]. apply JSON_parse_plain in E; [|done].
  destruct w as [| | | | | |fs]; try done. intros H. split; [by eapply config_plain|]. split; [|by eapply config_idem]. unfold normalize_config_value in H.
  destruct (match prop "advanced_routes" (JObj fs) with JArr l => _ | _ => _ end); [|done]. by injection H as <-.
Qed.

(** ** What saving does to the members of [settings] *)

Inductive Change := Put (v : jsval) | Drop | Leave.

Definition change (o : obj) (e : jsstr * Change) : obj := match e.2 with Put v => mset e.1 v o | Drop => mdel e.1 o | Leave => o end.
Definition apply_changes (es : list (jsstr * Change)) (o : obj) : obj := foldl change o es.

Definition put_or (b : bool) (v : jsval) (d : Change) : Change := if b then Put v else d.

(** The members that the form owns, with what becomes of each *)
Definition key_changes (form : ChannelFormValues) : list (jsstr * Change) :=
  let s := specific form in
  [(js "vertex_key_type", put_or (type_is form [41%Z]) (or_else (vertex_key_type s) (JStr (js "json"))) Drop);
   (js "azure_responses_version", put_or (type_is form [3%Z] && truthy (azure_responses_version s)) (azure_responses_version s) Drop);
   (js "openrouter_enterprise", put_or (type_is form [20%Z]) (flag (is_enterprise_account s)) Drop);
   (js "aws_key_type", put_or (type_is form [33%Z]) (or_else (aws_key_type s) (JStr (js "ak_sk"))) Drop)].

Definition passthrough_changes (form : ChannelFormValues) : list (jsstr * Change) :=
  let s := specific form in
  let openai := type_is form [1; 57]%Z in
  let anthropic := type_is form [14%Z] in
  [(js "allow_service_tier", put_or (type_is form [1; 14; 57]%Z) (flag (allow_service_tier s)) Drop);
   (js "disable_store", put_or openai (flag (disable_store s)) Drop);
   (js "allow_safety_identifier", put_or openai (flag (allow_safety_identifier s)) Drop);
   (js "allow_include_obfuscation", put_or openai (flag (allow_include_obfuscation s)) Drop);
   (js "allow_inference_geo", put_or (openai || anthropic) (flag (allow_inference_geo s)) Drop);
   (js "allow_speed", put_or anthropic (flag (allow_speed s)) Drop);
   (js "claude_beta_query", put_or anthropic (flag (claude_beta_query s)) Drop);
   (js "disable_task_polling_sleep", Put (flag (disable_task_polling_sleep s)))].

Definition checks_upstream (s : SpecificSettings) : bool := bool_decide (upstream_model_update_check_enabled s = Some true).
Definition syncs_upstream (s : SpecificSettings) : bool := bool_decide (upstream_model_update_auto_sync_enabled s = Some true).
Definition ignored_models (s : SpecificSettings) : list jsstr := uniq (comma_list (ostr (upstream_model_update_ignored_models s))).

Definition upstream_changes (form : ChannelFormValues) (o : obj) : list (jsstr * Change) :=
  let s := specific form in
  let fetchable := type_is form MODEL_FETCHABLE_TYPES in
  [(js "upstream_model_update_check_enabled", put_or fetchable (JBool (checks_upstream s)) Leave);
   (js "upstream_model_update_auto_sync_enabled", put_or fetchable (JBool (checks_upstream s && syncs_upstream s)) Leave);
   (js "upstream_model_update_ignored_models", put_or fetchable (JArr (JStr <$> ignored_models s)) Leave);
   (js "upstream_model_update_last_detected_models",
    put_or (fetchable && (negb (is_array (prop "upstream_model_update_last_detected_models" (JObj o))) || negb (checks_upstream s))) (JArr []) Leave);
   (js "upstream_model_update_last_check_time",
    put_or (fetchable && negb (is_number (prop "upstream_model_update_last_check_time" (JObj o)))) (JNum (num_of_Z 0)) Leave)].

Definition advanced_changes (form : ChannelFormValues) : list (jsstr * Change) :=
  [(js "advanced_custom",
    if type_is form [CHANNEL_TYPE_ADVANCED_CUSTOM]
    then match parseAdvancedCustomConfig (advanced_custom (specific form)) with Some c => Put c | None => Leave end else Drop)].

Definition changes (form : ChannelFormValues) (o : obj) : list (jsstr * Change) :=
  key_changes form ++ passthrough_changes form ++ upstream_changes form o ++ advanced_changes form.

Lemma apply_changes_app a b o : apply_changes (a ++ b) o = apply_changes b (apply_changes a o).
Proof. apply foldl_app. Qed.

Lemma write_keys_changes form o : write_keys form o = apply_changes (key_changes form) o.
Proof.
  unfold write_keys, key_changes, own, put_or. cbv zeta. cbn [apply_changes foldl].
  destruct (type_is form [41%Z]), (type_is form [3%Z] && _), (type_is form [20%Z]), (type_is form [33%Z]); reflexivity.
Qed.

Lemma write_passthrough_changes form o : write_passthrough form o = apply_changes (passthrough_changes form) o.
Proof.
  unfold write_passthrough, passthrough_changes, own, put_or. cbv zeta. cbn [apply_changes foldl].
  destruct (type_is form [1; 14; 57]%Z), (type_is form [1; 57]%Z) eqn:E1, (type_is form [14%Z]) eqn:E2; try reflexivity; exfalso.
  all: unfold type_is in E1, E2; cbn [existsb] in E1, E2; rewrite ?orb_false_r in E1, E2; rewrite orb_true_iff in E1.
  all: unfold num_eqb, num_of_Z, inject_Z in E1, E2; destruct (f_type form) as [| |q]; try done; cbn [Qnum Qden] in E1, E2; destruct E1; lia.
Qed.

Lemma mget_change_ne k e o : k ≠ e.1 → mget k (change o e) = mget k o.
Proof. intros H. unfold change. destruct e.2; [by apply mget_mset_ne|by rewrite mget_mdel, decide_False|done]. Qed.

Lemma mget_changes_ne k es o : k ∉ mkeys es → mget k (apply_changes es o) = mget k o.
Proof.
  revert o. induction es as [|e es IH]; intros o; [done|]. unfold mkeys. rewrite fmap_cons, not_elem_of_cons. intros [H1 H2]. cbn [apply_changes foldl].
  fold (apply_changes es (change o e)). rewrite IH by done. by apply mget_change_ne.
Qed.

Lemma write_upstream_changes form o : write_upstream form o = apply_changes (upstream_changes form o) o.
Proof.
  unfold write_upstream, upstream_changes, put_or. cbv zeta. cbn [apply_changes foldl]. fold (checks_upstream (specific form)) (syncs_upstream (specific form)) (ignored_models (specific form)).
  destruct (type_is form MODEL_FETCHABLE_TYPES); [|done]. cbn [andb change fst snd]. rewrite !prop_mget.
  rewrite !mget_set; literals. destruct (negb (is_array _) || _); cbn [change fst snd]; rewrite !mget_set; literals; by destruct (negb (is_number _)).
Qed.

Lemma write_advanced_changes form o : write_advanced form o = apply_changes (advanced_changes form) o.
Proof. unfold write_advanced, advanced_changes. cbn [apply_changes foldl change fst snd]. destruct (type_is _ _); [|done]. by destruct (parseAdvancedCustomConfig _). Qed.

Lemma write_settings_changes form o : write_settings form o = apply_changes (changes form o) o.
Proof.
  unfold write_settings, changes. rewrite !apply_changes_app, write_advanced_changes, write_upstream_changes, write_passthrough_changes, write_keys_changes. do 2 f_equal.
  unfold upstream_changes. rewrite !prop_mget. rewrite !mget_changes_ne by decided. done.
Qed.

(** The members that the form owns *)
Definition OWNED : list jsstr := js <$> [
  "vertex_key_type"; "azure_responses_version"; "openrouter_enterprise"; "aws_key_type"; "allow_service_tier"; "disable_store"; "allow_safety_identifier";
  "allow_include_obfuscation"; "allow_inference_geo"; "allow_speed"; "claude_beta_query"; "disable_task_polling_sleep"; "upstream_model_update_check_enabled";
  "upstream_model_update_auto_sync_enabled"; "upstream_model_update_ignored_models"; "upstream_model_update_last_detected_models";
  "upstream_model_update_last_check_time"; "advanced_custom"]%string.

Lemma changes_keys form o : mkeys (changes form o) = OWNED.
Proof. reflexivity. Qed.

Lemma owned_NoDup : NoDup OWNED.
Proof. decided. Qed.

Definition changed (c : option Change) (v : option jsval) : option jsval := match c with Some (Put w) => Some w | Some Drop => None | _ => v end.

Lemma mget_changes k es o : NoDup (mkeys es) → mget k (apply_changes es o) = changed (mget k es) (mget k o).
Proof.
  revert o. induction es as [|[k' c] es IH]; intros o; [done|]. unfold mkeys. rewrite fmap_cons. intros [Hn Hnd]%NoDup_cons. cbn [apply_changes foldl fst snd].
  fold (apply_changes es (change o (k', c))). cbn [mget]. destruct (decide (k = k')) as [->|Hne].
  - rewrite mget_changes_ne by done. unfold change. cbn [fst snd]. destruct c; [apply mget_mset_eq|by rewrite mget_mdel, decide_True|done].
  - rewrite IH by done. by rewrite mget_change_ne.
Qed.

Record specific_typed (s : SpecificSettings) : Prop := {
  t_vertex : maybe_str (fun x => x ≠ [] ∧ units x) (vertex_key_type s);
  t_aws : maybe_str (fun x => x ≠ [] ∧ units x) (aws_key_type s);
  t_azure : maybe_str units (azure_responses_version s);
  t_ignored : units (ostr (upstream_model_update_ignored_models s));
  t_advanced : units (ostr (advanced_custom s))
}.

(** The object that is written to *)
Definition settings_base (form : ChannelFormValues) : obj :=
  match JSON_parse (ostr (f_settings form)) with Some (JObj o) => o | _ => [] end.

Definition settings_text (form : ChannelFormValues) : jsstr := json_text 0 0 (JObj (write_settings form (settings_base form))).

(** White space is no JSON. *)
Lemma JSON_parse_blank s : trim s = [] → JSON_parse s = None.
Proof.
  intros H. apply trim_nil_ws in H. unfold JSON_parse. cbn [parse_value]. assert (Forall (fun c => is_ws c = true) (skip_ws s)) as Hw.
  { induction H as [|c s Hc Hs IH]; [constructor|]. cbn. destruct (is_json_ws c); [done|by constructor]. }
  destruct (skip_ws s) as [|c r]; [done|]. apply Forall_cons in Hw as [Hc _].
  assert ((c =? 123) = false ∧ (c =? 91) = false ∧ (c =? 34) = false ∧ (c =? 116) = false ∧ (c =? 102) = false ∧ (c =? 110) = false ∧ c ≠ 45 ∧ is_digit c = false)%N
    as (-> & -> & -> & -> & -> & -> & Hm & Hd) by (unfold is_ws in Hc; unfold is_digit; lia).
  assert (parse_number (c :: r) = None) as ->; [|done]. assert (parse_unsigned (c :: r) = None) as Hu by (unfold parse_unsigned; cbn [take_digits]; by rewrite Hd).
  unfold parse_number. rewrite Hu. by repeat case_match.
Qed.

Lemma build_settings form : units (ostr (f_settings form)) → isOptionalJsonObject (f_settings form) = true → buildSettingsJSON form = Some (settings_text form).
Proof.
  unfold isOptionalJsonObject, parseOptionalJson, buildSettingsJSON, settings_text, settings_base. intros Hu H. cbv zeta.
  destruct (f_settings form) as [s|]; cbn [ostr default from_option id] in *; [|done]. destruct s as [|c s]; [done|]. cbn [str_true andb] in *.
  destruct (bool_decide (c :: s = js "{}")) eqn:E; [apply bool_decide_eq_true in E; rewrite E; assert (JSON_parse (js "{}") = Some (JObj [])) as -> by (by vm_compute); done|]. cbn [negb].
  destruct (JSON_parse (c :: s)) as [v|] eqn:Ej; [|done]. cbn [default from_option id]. destruct (str_true (trim (c :: s))) eqn:Et; [apply JSON_parse_plain in Ej; [by destruct v|done]|].
  apply str_true_false in Et. exfalso. apply JSON_parse_blank in Et. by rewrite Et in Ej.
Qed.

Lemma settings_base_plain form : units (ostr (f_settings form)) → plain_fields (settings_base form).
Proof.
  intros Hu. unfold settings_base. destruct (JSON_parse _) as [v|] eqn:E; [|split; constructor]. apply JSON_parse_plain in E; [|done].
  destruct v as [| | | | | |o]; try (split; constructor). by apply plain_obj in E.
Qed.

Lemma plain_mdel k (o : obj) : plain_fields o → plain_fields (mdel k o).
Proof. intros [H1 H2]. split; [by apply mkeys_mdel_NoDup|]. rewrite Forall_forall in *. intros e [_ He]%list_elem_of_filter. auto. Qed.

Definition plain_change (c : Change) : Prop := match c with Put v => plain v | _ => True end.

Lemma plain_changes es o : Forall (fun e => units e.1 ∧ plain_change e.2) es → plain_fields o → plain_fields (apply_changes es o).
Proof.
  intros H. revert o. induction H as [|[k c] es [Hk Hc] _ IH]; intros o Ho; [done|]. cbn [apply_changes foldl]. apply IH. unfold change. cbn [fst snd] in *.
  destruct c; [by apply plain_fields_mset|by apply plain_mdel|done].
Qed.

Lemma split_units sep s : units s → Forall units (split_on sep s).
Proof.
  induction 1 as [|c s Hc Hs IH]; cbn [split_on]; [apply Forall_singleton; constructor|]. case_decide; [constructor; [constructor|done]|].
  destruct (split_on sep s) as [|w ws]; [apply Forall_singleton; constructor; [done|constructor]|].
  apply Forall_cons in IH as [Hw Hws]. constructor; [by constructor|done].
Qed.

Lemma comma_list_units s : units s → Forall units (comma_list s).
Proof.
  intros Hs. pose proof (split_units 44%N s Hs) as H. unfold comma_list. rewrite Forall_forall in *. intros m [_ Hm]%list_elem_of_filter.
  apply list_elem_of_fmap in Hm as (x & -> & Hx). by apply trim_units, H.
Qed.

Lemma or_else_full v s : maybe_str (fun x => x ≠ [] ∧ units x) v → or_else v (JStr s) = JStr (match v with JStr x => x | _ => s end).
Proof. intros [->|([|c x] & -> & [? _])]; done. Qed.

Lemma changes_plain form o : specific_typed (specific form) → Forall (fun e => units e.1 ∧ plain_change e.2) (changes form o).
Proof.
  intros Hs. assert (∀ b v d, plain v → plain_change d → plain_change (put_or b v d)) as Hp by (by intros []).
  assert (∀ v s, maybe_str (fun x => x ≠ [] ∧ units x) v → units s → plain (or_else v (JStr s))) as Ho.
  { intros v s0 Hv Hs0. rewrite or_else_full by done. destruct Hv as [->|(x & -> & [_ ?])]; done. }
  assert (∀ b v d, v = JUndef ∨ plain v → plain_change d → plain_change (put_or (b && truthy v) v d)) as Ha by (intros [] v d [->|Hv]; cbn; try done; by destruct (truthy v)).
  assert (Forall (fun e => plain_change e.2) (changes form o)) as H.
  { repeat apply Forall_app_2; repeat apply Forall_cons_2; cbn [snd]; try apply Forall_nil_2; try (first [apply Ha|apply Hp]; try done).
    all: try exact I; try (by apply int_canonical); try (apply Ho; [apply Hs|lit]).
    - destruct (t_azure _ Hs) as [->|(x & -> & Hx)]; [by left|by right].
    - apply strs_plain. unfold ignored_models. rewrite Forall_forall. intros m Hm. rewrite elem_of_uniq in Hm. pose proof (comma_list_units _ (t_ignored _ Hs)) as Hu.
      rewrite Forall_forall in Hu. by apply Hu.
    - destruct (type_is _ _); [|done]. pose proof (t_advanced _ Hs) as Hadv. destruct (advanced_custom (specific form)) as [s|]; [|done].
      destruct (parseAdvancedCustomConfig (Some s)) eqn:E; [|done]. by apply parsed_config in E as [? _]. }
  assert (Forall units (mkeys (changes form o))) as Hk by (rewrite changes_keys; unfold units; decided).
  unfold mkeys in Hk. rewrite Forall_fmap in Hk. rewrite Forall_forall in *. intros e He. split; [by apply Hk|by apply H].
Qed.

Definition said (b : option bool) : bool := bool_decide (b = Some true).

(** What opening reads from an object *)
Definition opened_ignored (v : jsval) : jsstr := match v with JArr l => js_String (JArr l) | _ => [] end.
Definition opened_advanced (v : jsval) : jsstr := if truthy v then ostr (stringifyAdvancedCustomConfig v) else [].

(** What the form shows of settings that were saved over the object [o] *)
Definition shown_specific (form : ChannelFormValues) (o : obj) : SpecificSettings :=
  let s := specific form in
  let ofType := type_is form in
  let fetchable := ofType MODEL_FETCHABLE_TYPES in
  let old k := prop k (JObj o) in
  mkSpecific (Some (ofType [20%Z] && said (is_enterprise_account s)))
    (JStr (if ofType [41%Z] then match vertex_key_type s with JStr x => x | _ => js "json" end else js "json"))
    (JStr (if ofType [33%Z] then match aws_key_type s with JStr x => x | _ => js "ak_sk" end else js "ak_sk"))
    (JStr (if ofType [3%Z] then str_of (azure_responses_version s) else []))
    (Some (ofType [1; 14; 57]%Z && said (allow_service_tier s))) (Some (ofType [1; 57]%Z && said (disable_store s))) (Some (ofType [1; 57]%Z && said (allow_safety_identifier s)))
    (Some (ofType [1; 57]%Z && said (allow_include_obfuscation s))) (Some ((ofType [1; 57]%Z || ofType [14%Z]) && said (allow_inference_geo s))) (Some (ofType [14%Z] && said (allow_speed s)))
    (Some (ofType [14%Z] && said (claude_beta_query s))) (Some (said (disable_task_polling_sleep s)))
    (Some (if fetchable then said (upstream_model_update_check_enabled s) else is_true (old "upstream_model_update_check_enabled"%string)))
    (Some (if fetchable then said (upstream_model_update_check_enabled s) && said (upstream_model_update_auto_sync_enabled s)
           else is_true (old "upstream_model_update_auto_sync_enabled"%string)))
    (Some (if fetchable then str_join [44%N] (ignored_models s) else opened_ignored (old "upstream_model_update_ignored_models"%string)))
    (Some (if ofType [CHANNEL_TYPE_ADVANCED_CUSTOM]
           then match parseAdvancedCustomConfig (advanced_custom s) with Some c => json_text 2 0 c | None => opened_advanced (old "advanced_custom"%string) end else [])).

Lemma join_strs (ms : list jsstr) : js_String (JArr (JStr <$> ms)) = str_join [44%N] ms.
Proof. cbn [js_String]. f_equal. rewrite <- list_fmap_compose. apply list_fmap_id. Qed.

Lemma is_true_put b c v : is_true (default JUndef (enumerated <$> changed (Some (put_or b (flag c) Drop)) v)) = b && said c.
Proof. by destruct b. Qed.

Lemma is_true_leave b c v : is_true (default JUndef (enumerated <$> changed (Some (put_or b (JBool c) Leave)) v)) = if b then c else is_true (default JUndef v).
Proof. destruct b; [by destruct c|]. cbn. by destruct v as [[]|]. Qed.

Lemma str_put b v s old : maybe_str (fun x => x ≠ [] ∧ units x) v → s ≠ [] →
  or_else (default JUndef (enumerated <$> changed (Some (put_or b (or_else v (JStr s)) Drop)) old)) (JStr s) = JStr (if b then match v with JStr x => x | _ => s end else s).
Proof.
  intros Hv Hs. destruct b; [|done]. cbn [put_or changed fmap option_fmap option_map default from_option id]. rewrite (or_else_full v s Hv).
  destruct Hv as [->|([|c x] & -> & [Hx _])]; [by destruct s|done|done].
Qed.

Lemma azure_put b v old : maybe_str units v →
  or_else (default JUndef (enumerated <$> changed (Some (put_or (b && truthy v) v Drop)) old)) (JStr []) = JStr (if b then str_of v else []).
Proof. intros [->|([|c x] & -> & _)]; by destruct b. Qed.

Lemma ignored_put b ms old : opened_ignored (default JUndef (enumerated <$> changed (Some (put_or b (JArr (JStr <$> ms)) Leave)) old)) =
  if b then str_join [44%N] ms else opened_ignored (default JUndef old).
Proof.
  destruct b; cbn [put_or changed fmap option_fmap option_map default from_option id].
  - cbn [enumerated opened_ignored]. rewrite strs_enumerated. apply join_strs.
  - destruct old as [v|]; [|done]. cbn. destruct v; try done. cbn [opened_ignored enumerated]. exact (js_String_enumerated (JArr _)).
Qed.

Lemma stringify_enumerated v : plain v → stringifyAdvancedCustomConfig (enumerated v) = stringifyAdvancedCustomConfig v.
Proof.
  intros Hp. unfold stringifyAdvancedCustomConfig. rewrite config_enumerated by done. destruct (normalize_config_value v) as [w|] eqn:E; [|done]. cbn. f_equal.
  apply json_text_enumerated. by eapply config_plain.
Qed.

Lemma opened_advanced_enumerated v : v = JUndef ∨ plain v → opened_advanced (enumerated v) = opened_advanced v.
Proof. intros [->|Hv]; [done|]. unfold opened_advanced. rewrite enumerated_truthy. destruct (truthy v); [|done]. by rewrite stringify_enumerated. Qed.

Lemma advanced_put form o : specific_typed (specific form) → plain_fields o → let old := mget (js "advanced_custom") o in
  opened_advanced (default JUndef (enumerated <$> changed (Some (if type_is form [CHANNEL_TYPE_ADVANCED_CUSTOM]
    then match parseAdvancedCustomConfig (advanced_custom (specific form)) with Some c => Put c | None => Leave end else Drop)) old)) =
  if type_is form [CHANNEL_TYPE_ADVANCED_CUSTOM]
  then match parseAdvancedCustomConfig (advanced_custom (specific form)) with Some c => json_text 2 0 c | None => opened_advanced (default JUndef old) end else [].
Proof.
  intros Hs [_ Ho] old. destruct (type_is _ _); [|done]. pose proof (t_advanced _ Hs) as Ha. destruct (parseAdvancedCustomConfig _) as [c|] eqn:E.
  - destruct (advanced_custom (specific form)) as [s|]; [|done]. destruct (parsed_config s c Ha E) as (Hp & Ht & Hn). cbn [changed fmap option_fmap option_map default from_option id].
    rewrite opened_advanced_enumerated by (by right). unfold opened_advanced, stringifyAdvancedCustomConfig. by rewrite Ht, Hn.
  - cbn [changed]. destruct old as [v|] eqn:Eo; [|done]. cbn [fmap option_fmap option_map default from_option id]. apply opened_advanced_enumerated. right. apply mget_Some_elem in Eo.
    rewrite Forall_forall in Ho. by apply (Ho _ Eo).
Qed.

Lemma entry_change form o i k c : changes form o !! i = Some (k, c) → mget k (changes form o) = Some c.
Proof. intros H. apply elem_mget; [rewrite changes_keys; apply owned_NoDup|]. by eapply list_elem_of_lookup_2. Qed.

Lemma open_settings form o : specific_typed (specific form) → plain_fields o → open_specific (json_text 0 0 (JObj (write_settings form o))) = shown_specific form o.
Proof.
  intros Hs Ho. rewrite write_settings_changes. pose proof (plain_changes _ _ (changes_plain form o Hs) Ho) as Hp. pose proof Hp as [Hnd _]. apply plain_obj in Hp.
  unfold open_specific. pose proof (json_text_nonempty 0 _ Hp) as Hne. apply str_true_spec in Hne. rewrite Hne, (JSON_parse_text 0 _ Hp).
  change (reads_members (enumerated (JObj (apply_changes (changes form o) o)))) with true. cbv iota. unfold specific_of. cbv zeta.
  rewrite !prop_enumerated by done. rewrite !mget_changes by (rewrite changes_keys; apply owned_NoDup).
  fold (opened_ignored (default JUndef (enumerated <$> changed (mget (js "upstream_model_update_ignored_models") (changes form o)) (mget (js "upstream_model_update_ignored_models") o)))).
  fold (opened_advanced (default JUndef (enumerated <$> changed (mget (js "advanced_custom") (changes form o)) (mget (js "advanced_custom") o)))).
  pose proof (entry_change form o) as He.
  rewrite (He 0 _ _ eq_refl), (He 1 _ _ eq_refl), (He 2 _ _ eq_refl), (He 3 _ _ eq_refl), (He 4 _ _ eq_refl), (He 5 _ _ eq_refl), (He 6 _ _ eq_refl), (He 7 _ _ eq_refl),
    (He 8 _ _ eq_refl), (He 9 _ _ eq_refl), (He 10 _ _ eq_refl), (He 11 _ _ eq_refl), (He 12 _ _ eq_refl), (He 13 _ _ eq_refl), (He 14 _ _ eq_refl), (He 17 _ _ eq_refl).
  change (Put (flag (disable_task_polling_sleep (specific form)))) with (put_or true (flag (disable_task_polling_sleep (specific form))) Drop).
  rewrite !is_true_put, !is_true_leave, !(str_put _ _ (js _)), azure_put, ignored_put by (first [apply Hs|decided]). rewrite advanced_put by done. reflexivity.
Qed.

End ChannelForm.
