(* ===== verification/ChannelSave.v ===== *)
(** * Saving channels
    (src/web/src/features/channels/lib/channel-form.ts and
    src/web/src/features/channels/hooks/use-channel-mutate-form.ts)

    The properties of the form of [ChannelForm]: what saving sends, what opening the
    saved channel shows, that saving it again changes nothing, and what the request of a
    user without the right to edit sensitive fields holds. *)

From Stdlib Require Import QArith ZifyBool ZifyN.
From S2P Require Import Prelude JsString JsValue JsJson JsNumber JsonPrint BillingRules ParamOverride AdvancedCustom AuthStore Permissions ChannelForm.
Import ParamOverride ChannelForm.
Local Close Scope Q_scope.

Module ChannelSave.

(** ** Saving and opening again *)

(** A form of the declared types *)
Record form_typed (form : ChannelFormValues) : Prop := {
  t_extra : extra_typed (extra form);
  t_specific : specific_typed (specific form);
  t_settings : units (ostr (f_settings form))
}.

Lemma mget_clean k p : mget k (empty_to_null p) = clean <$> mget k p.
Proof. exact (mget_fmap clean p k). Qed.

Lemma refined_settings new_URL form : refinements new_URL form = true → isOptionalJsonObject (f_settings form) = true.
Proof. unfold refinements. rewrite !andb_true_iff. tauto. Qed.

(** Texts of code units and numbers in lowest terms, as every value of the language is *)
Record form_values (form : ChannelFormValues) : Prop := {
  u_proxy : units (str_of (proxy (extra form)));
  u_prompt : units (str_of (system_prompt (extra form)));
  u_shards : match http2_connection_shards (extra form) with JNum (Fin q) => Qred q = q | _ => True end;
  u_azure : units (str_of (azure_responses_version (specific form)));
  u_ignored : units (ostr (upstream_model_update_ignored_models (specific form)));
  u_advanced : units (ostr (advanced_custom (specific form)));
  u_settings : units (ostr (f_settings form))
}.

Lemma optional_bool_spec v : optional_bool v = true → maybe_bool v.
Proof. destruct v; try done; [by left|]. right. by eexists. Qed.

Lemma optional_text_spec v : optional_text v = true → units (str_of v) → maybe_str units v.
Proof. destruct v as [| | | |s| |]; try done; [by left|]. right. by exists s. Qed.

Lemma optional_enum_spec es (P : jsstr → Prop) v : Forall P (js <$> es) → optional_enum es v = true → maybe_str P v.
Proof. destruct v as [| | | |s| |]; try done; [by left|]. intros HP H%bool_decide_eq_true. right. exists s. rewrite Forall_forall in HP. auto. Qed.

Lemma integer_num q : Qred q = q → num_isInteger (Fin q) = true → ∃ z, Fin q = num_of_Z z.
Proof.
  intros Hq H%Z.eqb_eq. exists (Qnum q / Zpos (Qden q))%Z. unfold num_of_Z. f_equal. rewrite <- Hq at 1. rewrite <- (Qred_inject (Qnum q / Zpos (Qden q))). apply Qred_complete.
  unfold Qeq, inject_Z. cbn [Qnum Qden]. rewrite Z.mul_1_r. pose proof (Z.div_mod (Qnum q) (Zpos (Qden q)) ltac:(done)). lia.
Qed.

(** What the schema accepts has the declared types. *)
Lemma accepted_typed new_URL URL_host form : channelFormSchema new_URL URL_host form = true → form_values form →
  form_typed form ∧ refinements new_URL form = true ∧ superRefine URL_host form = Some [].
Proof.
  unfold channelFormSchema, shapes. rewrite !andb_true_iff. intros H Hu. destruct_and! H. split_and!; [|done|by repeat case_match].
  split; [split|split|apply Hu]; try (by apply optional_bool_spec); try (apply optional_text_spec; [done|apply Hu]); try apply Hu.
  - eapply optional_enum_spec; [|done]. apply Forall_cons_2; [by left|]. apply Forall_cons_2; [by right|constructor].
  - pose proof (u_shards _ Hu) as Hq. destruct (http2_connection_shards (extra form)) as [| | |x| | |]; try done; [by left|]. destruct x as [| |q]; try done. right.
    destruct (integer_num q) as [z Hz]; [done..|]. exists z. by rewrite Hz.
  - eapply optional_enum_spec; [|done]. do 2 (apply Forall_cons_2; [split; [decided|lit]|]). constructor.
  - eapply optional_enum_spec; [|done]. do 2 (apply Forall_cons_2; [split; [decided|lit]|]). constructor.
Qed.

(** A member of the payload of an update *)
Ltac member :=
  repeat (rewrite mget_set; literals); try (rewrite mget_clean);
  match goal with |- context [if ?b then mset _ _ _ else _] => destruct b | _ => idtac end;
  repeat first [rewrite mget_set; literals | rewrite mget_member; literals | rewrite mget_nil].

Definition update_payload (form : ChannelFormValues) (channelId : num) : obj := default [] (transformFormDataToUpdatePayload form channelId).

Lemma update_total new_URL form id : form_typed form → refinements new_URL form = true → transformFormDataToUpdatePayload form id = Some (update_payload form id).
Proof.
  intros Hf Hr. apply refined_settings in Hr. unfold update_payload, transformFormDataToUpdatePayload. rewrite setting_text by apply Hf. rewrite build_settings by (first [apply Hf|done]). done.
Qed.

(** The members of the payload *)
Definition update_members (form : ChannelFormValues) (id : num) : list (jsstr * jsval) :=
  [(js "id", JNum id); (js "name", clean (JStr (f_name form))); (js "type", JNum (f_type form)); (js "base_url", JStr (normalizeBaseUrl (f_base_url form)));
   (js "openai_organization", JStr (ostr (f_openai_organization form))); (js "models", clean (JStr (f_models form))); (js "group", clean (JStr (formatGroups (f_group form))));
   (js "model_group_modes", modes_value (pruneChannelModelGroupModes (default [] (f_model_group_modes form)) (parseModels (f_models form))));
   (js "model_fixed_endpoints", fixed_endpoints form); (js "model_mapping", JStr (ostr (f_model_mapping form)));
   (js "priority", JNum (default (num_of_Z 0) (f_priority form))); (js "weight", JNum (default (num_of_Z 0) (f_weight form))); (js "test_model", JStr (ostr (f_test_model form)));
   (js "auto_ban", JNum (default (num_of_Z 1) (f_auto_ban form))); (js "status_code_mapping", JStr (ostr (f_status_code_mapping form))); (js "tag", JStr (ostr (f_tag form)));
   (js "remark", JStr (ostr (f_remark form))); (js "setting", JStr (json_text 0 0 (JObj (setting_fields (extra form))))); (js "param_override", JStr (ostr (f_param_override form)));
   (js "header_override", JStr (ostr (f_header_override form))); (js "settings", JStr (settings_text form)); (js "other", clean (JStr (ostr (f_other form))))].

Lemma json_text_clean v : plain v → clean (JStr (json_text 0 0 v)) = JStr (json_text 0 0 v).
Proof. intros Hv. pose proof (json_text_nonempty 0 v Hv). by destruct (json_text 0 0 v). Qed.

Lemma settings_plain form : form_typed form → plain (JObj (write_settings form (settings_base form))).
Proof. intros Hf. apply plain_obj. rewrite write_settings_changes. apply plain_changes; [by apply changes_plain, Hf|by apply settings_base_plain, Hf]. Qed.

Lemma update_payload_members new_URL form cid : form_typed form → refinements new_URL form = true →
  Forall (fun e => mget e.1 (update_payload form cid) = Some e.2) (update_members form cid).
Proof.
  intros Hf Hr. apply refined_settings in Hr. unfold update_payload, transformFormDataToUpdatePayload, update_members. rewrite setting_text by apply Hf.
  rewrite build_settings by (first [apply Hf|done]). cbn [mbind option_bind default from_option id]. cbv zeta.
  pose proof (setting_plain _ (t_extra _ Hf)) as H1. apply plain_obj, json_text_clean in H1. pose proof (settings_plain form Hf) as H2. apply json_text_clean in H2. fold (settings_text form) in H2.
  do 22 (apply Forall_cons_2; [cbn [fst snd]; member; cbn [fmap option_fmap option_map]; rewrite ?H1, ?H2; try reflexivity|]). constructor.
Qed.



(** What the form shows of the row [c] that an update from [form] leaves.  Groups and
    the field for the rest that were emptied are those the row had. *)
Definition reopened (form : ChannelFormValues) (c : Channel) : ChannelFormValues :=
  mkForm (f_name form) (f_type form) (Some (normalizeBaseUrl (f_base_url form))) [] (Some (ostr (f_openai_organization form))) (f_models form)
    (parseGroups (str_or (str_or (formatGroups (f_group form)) (ch_group c)) (js "default"))) (Some (default [] (ch_model_group_modes c)))
    (Some (default [] (ch_model_fixed_endpoints c))) (Some (ostr (f_model_mapping form))) (Some (num_or_0 (f_priority form)))
    (Some (num_or_0 (f_weight form))) (Some (ostr (f_test_model form))) (Some (default (num_of_Z 1) (f_auto_ban form))) (ch_status c) (Some (ostr (f_status_code_mapping form)))
    (Some (ostr (f_tag form))) (Some (ostr (f_remark form))) (Some (json_text 0 0 (JObj (setting_fields (extra form))))) (Some (ostr (f_param_override form)))
    (Some (ostr (f_header_override form))) (Some (settings_text form)) (Some (str_or (ostr (f_other form)) (ch_other c))) (Some (js "single"))
    (Some (str_or (ch_multi_key_mode c) (js "random"))) (Some false) (Some (js "append")) (shown_extra (extra form)) (shown_specific form (settings_base form)).

Lemma clean_idem v : clean (clean v) = clean v.
Proof. by destruct v as [| | | |[]| |]. Qed.





Lemma setting_shown form : form_typed form → open_extra (json_text 0 0 (JObj (setting_fields (extra form)))) = shown_extra (extra form).
Proof. intros Hf. apply open_setting, Hf. Qed.

Lemma settings_shown form : form_typed form → open_specific (settings_text form) = shown_specific form (settings_base form).
Proof. intros Hf. apply open_settings; [apply Hf|by apply settings_base_plain, Hf]. Qed.

Lemma settings_text_nonempty form : form_typed form → settings_text form ≠ [].
Proof. intros Hf. apply (json_text_nonempty 0), settings_plain, Hf. Qed.

Lemma default_Some {A} (d : A) x : Some (default d x) = x ∨ x = None.
Proof. destruct x; auto. Qed.



(** ** Members of others *)

(** The members that belong to some channel types only *)
Definition TYPE_MEMBERS : list (jsstr * list Z) :=
  [(js "vertex_key_type", [41]); (js "azure_responses_version", [3]); (js "openrouter_enterprise", [20]); (js "aws_key_type", [33]); (js "allow_service_tier", [1; 14; 57]);
   (js "disable_store", [1; 57]); (js "allow_safety_identifier", [1; 57]); (js "allow_include_obfuscation", [1; 57]); (js "allow_inference_geo", [1; 57; 14]);
   (js "allow_speed", [14]); (js "claude_beta_query", [14]); (js "advanced_custom", [58])]%Z.

(** The members on models found upstream, which types without a list of models do not
    have *)
Definition UPSTREAM_MEMBERS : list jsstr := js <$> [
  "upstream_model_update_check_enabled"; "upstream_model_update_auto_sync_enabled"; "upstream_model_update_ignored_models";
  "upstream_model_update_last_detected_models"; "upstream_model_update_last_check_time"]%string.

(** The object that the saved text reads as *)
Definition saved_object (form : ChannelFormValues) : obj := own_fields (emap (write_settings form (settings_base form))).

Lemma saved_object_parsed form : form_typed form → JSON_parse (settings_text form) = Some (JObj (saved_object form)).
Proof. intros Hf. unfold settings_text. rewrite (JSON_parse_text 0 _ (settings_plain form Hf)). by rewrite enumerated_obj. Qed.

Lemma mget_saved form k : form_typed form →
  mget k (saved_object form) = enumerated <$> changed (mget k (changes form (settings_base form))) (mget k (settings_base form)).
Proof.
  intros Hf. pose proof (settings_plain form Hf) as Hp. apply plain_obj in Hp as [Hnd _]. unfold saved_object. transitivity (mget k (emap (write_settings form (settings_base form)))).
  - apply mget_perm; [|apply own_fields_perm]. unfold mkeys, emap. rewrite own_fields_perm, <- list_fmap_compose. exact Hnd.
  - unfold emap. rewrite mget_fmap. f_equal. rewrite write_settings_changes. apply mget_changes. rewrite changes_keys. apply owned_NoDup.
Qed.

Lemma stale_dropped form o : Forall (fun e => type_is form e.2 = false → changed (mget e.1 (changes form o)) (mget e.1 o) = None) TYPE_MEMBERS.
Proof.
  pose proof (entry_change form o) as He.
  assert (∀ i k b v ts, (changes form o !! i = Some (k, put_or b v Drop)) → (type_is form ts = false → b = false) →
    type_is form ts = false → changed (mget k (changes form o)) (mget k o) = None) as Hd by (intros i k b v ts Hi Hb H; rewrite (He i _ _ Hi), (Hb H); done).
  repeat (apply Forall_cons_2; [cbn [fst snd]|]); [..|constructor].
  - by apply (Hd 0 _ _ _ _ eq_refl).
  - apply (Hd 1 _ _ _ _ eq_refl). by intros ->.
  - by apply (Hd 2 _ _ _ _ eq_refl).
  - by apply (Hd 3 _ _ _ _ eq_refl).
  - by apply (Hd 4 _ _ _ _ eq_refl).
  - by apply (Hd 5 _ _ _ _ eq_refl).
  - by apply (Hd 6 _ _ _ _ eq_refl).
  - by apply (Hd 7 _ _ _ _ eq_refl).
  - apply (Hd 8 _ _ _ _ eq_refl). unfold type_is. cbn [existsb]. rewrite !orb_false_r, !orb_false_iff. tauto.
  - by apply (Hd 9 _ _ _ _ eq_refl).
  - by apply (Hd 10 _ _ _ _ eq_refl).
  - intros H. rewrite (He 17 _ _ eq_refl). unfold CHANNEL_TYPE_ADVANCED_CUSTOM. by rewrite H.
Qed.

Lemma upstream_left form o : type_is form MODEL_FETCHABLE_TYPES = false →
  Forall (fun k => changed (mget k (changes form o)) (mget k o) = mget k o) UPSTREAM_MEMBERS.
Proof.
  intros Hfe. repeat (apply Forall_cons_2; [|]); [..|constructor].
  - rewrite (entry_change form o 12 _ _ eq_refl). by rewrite Hfe.
  - rewrite (entry_change form o 13 _ _ eq_refl). by rewrite Hfe.
  - rewrite (entry_change form o 14 _ _ eq_refl). by rewrite Hfe.
  - rewrite (entry_change form o 15 _ _ eq_refl). by rewrite Hfe.
  - rewrite (entry_change form o 16 _ _ eq_refl). by rewrite Hfe.
Qed.

(** C32. The settings that saving writes: an object that keeps every member the form does
    not own and drops the members of other channel types ([TYPE_MEMBERS]).  The members
    on upstream models are the exception: for a type with a list of models the check is
    the one entered, and when it is off the synchronisation is off and the detected
    models are forgotten; for every other type all five members stay as they were, also
    a check that is on. *)
Theorem settings_kept new_URL URL_host form : form_values form → channelFormSchema new_URL URL_host form = true →
  ∃ text o, buildSettingsJSON form = Some text ∧ JSON_parse text = Some (JObj o)
    ∧ (∀ k, k ∉ OWNED → mget k o = enumerated <$> mget k (settings_base form))
    ∧ (∀ k ts, (k, ts) ∈ TYPE_MEMBERS → type_is form ts = false → mget k o = None)
    ∧ (if type_is form MODEL_FETCHABLE_TYPES then
         mget (js "upstream_model_update_check_enabled") o = Some (JBool (said (upstream_model_update_check_enabled (specific form))))
         ∧ (upstream_model_update_check_enabled (specific form) ≠ Some true →
            mget (js "upstream_model_update_last_detected_models") o = Some (JArr []) ∧ mget (js "upstream_model_update_auto_sync_enabled") o = Some (JBool false))
       else ∀ k, k ∈ UPSTREAM_MEMBERS → mget k o = enumerated <$> mget k (settings_base form)).
Proof.
  intros Hu Hv. destruct (accepted_typed _ _ _ Hv Hu) as (Hf & Hr & _). apply refined_settings in Hr. exists (settings_text form), (saved_object form). split; [by apply build_settings; [apply Hf|]|]. split; [by apply saved_object_parsed|].
  split_and!.
  - intros k Hk. rewrite mget_saved by done. rewrite (proj2 (mget_None k (changes form _))); [done|]. by rewrite changes_keys.
  - intros k ts Hin Ht. rewrite mget_saved by done. pose proof (stale_dropped form (settings_base form)) as H. rewrite Forall_forall in H. specialize (H (k, ts) Hin Ht). cbn [fst] in H. by rewrite H.
  - destruct (type_is form MODEL_FETCHABLE_TYPES) eqn:Hfe.
    + rewrite !mget_saved by done. rewrite (entry_change form _ 12 _ _ eq_refl), (entry_change form _ 15 _ _ eq_refl), (entry_change form _ 13 _ _ eq_refl). unfold put_or. rewrite Hfe.
      split; [done|]. intros Hc. cbn [andb]. unfold checks_upstream. rewrite bool_decide_false by done. cbn [negb]. rewrite orb_true_r. done.
    + intros k Hk. rewrite mget_saved by done. pose proof (upstream_left form (settings_base form) Hfe) as H. rewrite Forall_forall in H. by rewrite (H k Hk).
Qed.

(** ** Saving again *)

Lemma shown_http1 e : is_http1 (shown_extra e) = is_http1 e.
Proof. unfold is_http1 at 1. cbn [shown_extra http_protocol]. by destruct (is_http1 e). Qed.

Lemma shown_shards e : kept_shards (shown_extra e) = kept_shards e.
Proof. unfold kept_shards at 1. rewrite shown_http1. pose proof (kept_shards_range e) as Hk. destruct (is_http1 e) eqn:E; [unfold kept_shards; by rewrite E|].
  cbn [shown_extra http2_connection_shards]. unfold num_of_Z, inject_Z. cbn [Qnum]. unfold MAX_HTTP2_CONNECTION_SHARDS in *. lia. Qed.

Lemma shown_fields e : setting_fields (shown_extra e) = setting_fields e.
Proof. unfold setting_fields. rewrite shown_http1, shown_shards. unfold shown_extra. cbn [bool_of str_of force_format thinking_to_content proxy pass_through_body_enabled system_prompt system_prompt_override].
  by rewrite trim_idemp. Qed.

Lemma shown_extra_typed e : extra_typed e → extra_typed (shown_extra e).
Proof.
  intros He. split; cbn; try (right; by eexists).
  - right. eexists. split; [done|]. apply trim_units, str_of_units, He.
  - right. eexists. split; [done|]. destruct (is_http1 e); auto.
  - right. eexists. split; [done|]. apply str_of_units, He.
Qed.

Definition fulfils (o : obj) (e : jsstr * Change) : Prop := match e.2 with Put v => mget e.1 o = Some v | Drop => mget e.1 o = None | Leave => True end.

Lemma mset_same (k : jsstr) (v : jsval) o : mget k o = Some v → mset k v o = o.
Proof. induction o as [|[k' w] o IH]; [done|]. cbn. case_decide; [intros [= ->]; by subst|]. intros Hm. by rewrite IH. Qed.

Lemma mdel_same (k : jsstr) (o : obj) : mget k o = None → mdel k o = o.
Proof. intros H. apply filter_all, Forall_forall. intros e He Hk. apply mget_None in H. apply H. rewrite <- Hk. by apply (list_elem_of_fmap_2 fst). Qed.

(** Changes that have been made change nothing. *)
Lemma changes_idle es o : Forall (fulfils o) es → apply_changes es o = o.
Proof.
  induction 1 as [|[k c] es He _ IH]; [done|]. cbn [apply_changes foldl]. fold (apply_changes es (change o (k, c))). assert (change o (k, c) = o) as ->; [|done].
  unfold change, fulfils in *. cbn [fst snd] in *. destruct c; [by apply mset_same|by apply mdel_same|done].
Qed.

Lemma comma_list_elem s m : m ∈ comma_list s → trim m = m ∧ m ≠ [] ∧ 44%N ∉ m.
Proof.
  intros [Hm Hin]%list_elem_of_filter. apply list_elem_of_fmap in Hin as (x & -> & Hx). split; [apply trim_idemp|]. split; [by apply str_true_spec|].
  intros Hc. apply trim_elem in Hc. by apply split_on_no_sep in Hx.
Qed.

Lemma comma_list_join l : Forall (fun m => trim m = m ∧ m ≠ [] ∧ 44%N ∉ m) l → comma_list (str_join [44%N] l) = l.
Proof.
  intros H. unfold comma_list. destruct l as [|a l]; [done|]. rewrite split_on_join; [|done|eapply Forall_impl; [exact H|]; naive_solver].
  rewrite (list_fmap_ext _ id), list_fmap_id.
  - apply filter_all. eapply Forall_impl; [exact H|]. intros m (_ & Hm & _). by apply str_true_spec.
  - intros i m Hm. rewrite Forall_lookup in H. by destruct (H _ _ Hm) as [-> _].
Qed.

Lemma ignored_join s : ignored_models s = uniq (comma_list (str_join [44%N] (ignored_models s))).
Proof.
  rewrite comma_list_join; [symmetry; apply uniq_id, uniq_NoDup|]. apply Forall_forall. intros m Hm. unfold ignored_models in Hm. rewrite elem_of_uniq in Hm. by eapply comma_list_elem.
Qed.

Lemma config_again c : plain c → truthy c = true → normalize_config_value c = Some c → (∃ fs, c = JObj fs) → parseAdvancedCustomConfig (Some (json_text 2 0 c)) = Some (enumerated c).
Proof.
  intros Hp Ht Hn [fs ->]. unfold parseAdvancedCustomConfig. rewrite json_text_trim by done. pose proof (json_text_nonempty 2 _ Hp) as Hne. apply str_true_spec in Hne.
  rewrite Hne, (JSON_parse_text 2 _ Hp). change (enumerated (JObj fs)) with (JObj (own_fields (emap fs))). cbv iota. rewrite <- enumerated_obj.
  rewrite config_enumerated by done. rewrite Hn. by rewrite enumerated_obj.
Qed.

(** What a second save asks for, against what the first one did *)
Definition again (c' c : Change) : Prop := match c' with Put v => ∃ w, c = Put w ∧ enumerated w = v | Drop => c = Drop | Leave => True end.

Lemma fulfils_entry form i k c c' : form_typed form → changes form (settings_base form) !! i = Some (k, c) → again c' c → fulfils (saved_object form) (k, c').
Proof.
  intros Hf Hi Ha. unfold fulfils. cbn [fst snd]. rewrite mget_saved by done. rewrite (entry_change form _ i _ _ Hi).
  destruct c'; [|by rewrite Ha|done]. destruct Ha as (w & -> & <-). done.
Qed.

Lemma said_Some b : said (Some b) = b.
Proof. by destruct b. Qed.

Lemma again_put b w w' d : again d d → (b = true → enumerated w = w') → again (put_or b w' d) (put_or b w d).
Proof. intros Hd H. destruct b; [|done]. exists w. auto. Qed.

Lemma again_flag b x c d : again d d → (b = true → x = said c) → again (put_or b (flag (Some x)) d) (put_or b (flag c) d).
Proof. intros Hd H. apply again_put; [done|]. intros Hb. rewrite (H Hb). unfold flag. fold (said c) (said (Some (said c))). by rewrite said_Some. Qed.

Lemma config_required URL_host data : superRefine URL_host data = Some [] → type_is data [CHANNEL_TYPE_ADVANCED_CUSTOM] = true →
  is_Some (parseAdvancedCustomConfig (advanced_custom (specific data))).
Proof.
  unfold superRefine. intros H Ht. rewrite Ht in H. unfold config_of in H. destruct (parseAdvancedCustomConfig _) as [v|]; [by eexists|]. exfalso.
  cbn [fmap option_fmap option_map mbind option_bind] in H. injection H as H. apply app_nil in H as [_ H]. discriminate H.
Qed.

Section Again.
Context (form : ChannelFormValues) (row : Channel).
Hypothesis Hf : form_typed form.
Hypothesis Hconfig : type_is form [CHANNEL_TYPE_ADVANCED_CUSTOM] = true → is_Some (parseAdvancedCustomConfig (advanced_custom (specific form))).
Notation form' := (reopened form row).
Notation saved := (saved_object form).

Lemma same_type ts : type_is form' ts = type_is form ts.
Proof. done. Qed.

Lemma keys_fulfilled : Forall (fulfils saved) (key_changes form').
Proof.
  pose proof (fulfils_entry form) as H.
  apply Forall_cons_2; [apply (H 0 _ _ _ Hf eq_refl), again_put; [done|]; rewrite ?same_type; intros Ht|].
  { cbn [form' specific reopened shown_specific vertex_key_type]. rewrite Ht, (or_else_full _ _ (t_vertex _ (t_specific _ Hf))). cbn.
    destruct (t_vertex _ (t_specific _ Hf)) as [->|([|c x] & -> & [? _])]; done. }
  apply Forall_cons_2; [apply (H 1 _ _ _ Hf eq_refl)|].
  { cbn [specific reopened shown_specific azure_responses_version]. rewrite ?same_type. destruct (type_is form [3%Z]); [|done]. cbn [andb].
    destruct (t_azure _ (t_specific _ Hf)) as [->|([|c x] & -> & _)]; cbn; eauto. }
  apply Forall_cons_2; [apply (H 2 _ _ _ Hf eq_refl), again_flag; [done|]; rewrite ?same_type; by intros ->|].
  apply Forall_cons_2; [apply (H 3 _ _ _ Hf eq_refl), again_put; [done|]; rewrite ?same_type; intros Ht|constructor].
  cbn [specific reopened shown_specific aws_key_type]. rewrite Ht, (or_else_full _ _ (t_aws _ (t_specific _ Hf))). cbn.
  destruct (t_aws _ (t_specific _ Hf)) as [->|([|c x] & -> & [? _])]; done.
Qed.

Lemma passthrough_fulfilled : Forall (fulfils saved) (passthrough_changes form').
Proof.
  pose proof (fulfils_entry form) as H.
  apply Forall_cons_2; [apply (H 4 _ _ _ Hf eq_refl), again_flag; [done|]; rewrite ?same_type; by intros ->|].
  apply Forall_cons_2; [apply (H 5 _ _ _ Hf eq_refl), again_flag; [done|]; rewrite ?same_type; by intros ->|].
  apply Forall_cons_2; [apply (H 6 _ _ _ Hf eq_refl), again_flag; [done|]; rewrite ?same_type; by intros ->|].
  apply Forall_cons_2; [apply (H 7 _ _ _ Hf eq_refl), again_flag; [done|]; rewrite ?same_type; by intros ->|].
  apply Forall_cons_2; [apply (H 8 _ _ _ Hf eq_refl), again_flag; [done|]; rewrite ?same_type; by intros ->|].
  apply Forall_cons_2; [apply (H 9 _ _ _ Hf eq_refl), again_flag; [done|]; rewrite ?same_type; by intros ->|].
  apply Forall_cons_2; [apply (H 10 _ _ _ Hf eq_refl), again_flag; [done|]; rewrite ?same_type; by intros ->|].
  apply Forall_cons_2; [|constructor]. apply (H 11 _ _ _ Hf eq_refl), (again_flag true _ _ Drop); done.
Qed.

Lemma checks_again : type_is form MODEL_FETCHABLE_TYPES = true → checks_upstream (specific form') = checks_upstream (specific form).
Proof. intros Ht. unfold checks_upstream at 1. cbn [specific reopened shown_specific upstream_model_update_check_enabled]. rewrite Ht. apply said_Some. Qed.

Lemma syncs_again : type_is form MODEL_FETCHABLE_TYPES = true → syncs_upstream (specific form') = checks_upstream (specific form) && syncs_upstream (specific form).
Proof. intros Ht. unfold syncs_upstream at 1. cbn [specific reopened shown_specific upstream_model_update_auto_sync_enabled]. rewrite Ht. apply said_Some. Qed.

Lemma ignored_again : type_is form MODEL_FETCHABLE_TYPES = true → ignored_models (specific form') = ignored_models (specific form).
Proof. intros Ht. unfold ignored_models at 1. cbn [specific reopened shown_specific upstream_model_update_ignored_models]. rewrite Ht. symmetry. apply ignored_join. Qed.

(** A member that is filled in when it has no value of the right kind *)
Lemma filled_again (P : jsval → bool) i (k : string) b x y v : (∀ w, P (enumerated w) = P w) → enumerated v = v →
  changes form (settings_base form) !! i = Some (js k, put_or (b && (negb (P (prop k (JObj (settings_base form)))) || x)) v Leave) →
  (b = true → y = x) → fulfils saved (js k, put_or (b && (negb (P (prop k (JObj saved))) || y)) v Leave).
Proof.
  intros HP Hv Hi Hxy. pose proof (mget_saved form (js k) Hf) as Hm. rewrite (entry_change form _ i _ _ Hi) in Hm. unfold fulfils. cbn [fst snd].
  rewrite prop_mget in Hm |- *. destruct b; [|done]. rewrite (Hxy eq_refl) in *. cbn [andb] in *. rewrite Hm. clear Hi Hm.
  destruct x; [rewrite !orb_true_r in *; cbn; by rewrite Hv|]. rewrite !orb_false_r in *.
  destruct (mget (js k) (settings_base form)) as [w|]; cbn.
  - destruct (P w) eqn:E; cbn; [by rewrite HP, E|]. rewrite Hv. by destruct (P v).
  - destruct (P JUndef) eqn:E; cbn; [by rewrite E|]. rewrite Hv. by destruct (P v).
Qed.

Lemma upstream_fulfilled : Forall (fulfils saved) (upstream_changes form' saved).
Proof.
  pose proof (fulfils_entry form) as H.
  apply Forall_cons_2; [apply (H 12 _ _ _ Hf eq_refl), again_put; [done|]; rewrite ?same_type; intros Ht; by rewrite checks_again|].
  apply Forall_cons_2; [apply (H 13 _ _ _ Hf eq_refl), again_put; [done|]; rewrite ?same_type; intros Ht; rewrite checks_again, syncs_again by done|].
  { by destruct (checks_upstream (specific form)). }
  apply Forall_cons_2; [apply (H 14 _ _ _ Hf eq_refl), again_put; [done|]; rewrite ?same_type; intros Ht; rewrite ignored_again by done|].
  { cbn [enumerated]. by rewrite strs_enumerated. }
  apply Forall_cons_2.
  { apply (filled_again is_array 15 _ _ (negb (checks_upstream (specific form)))); [by intros []|done|done|]. rewrite ?same_type. intros Ht. by rewrite checks_again. }
  apply Forall_cons_2; [|constructor]. rewrite <- (orb_false_r (negb (is_number _))).
  apply (filled_again is_number 16 _ _ false); [by intros []|done| |done]. cbn [lookup]. rewrite orb_false_r. done.
Qed.

Lemma advanced_fulfilled : Forall (fulfils saved) (advanced_changes form').
Proof.
  apply Forall_cons_2; [|constructor]. apply (fulfils_entry form 17 _ _ _ Hf eq_refl). rewrite ?same_type. cbn [specific reopened shown_specific advanced_custom].
  destruct (type_is form [CHANNEL_TYPE_ADVANCED_CUSTOM]) eqn:Ht; [|done]. destruct (Hconfig eq_refl) as [c Ec]. pose proof (t_advanced _ (t_specific _ Hf)) as Ha. rewrite Ec.
  destruct (advanced_custom (specific form)) as [s|]; [|done]. destruct (parsed_config s c Ha Ec) as (Hp & Htr & Hn). rewrite config_again; [|done..|].
  - by exists c.
  - unfold normalize_config_value in Hn. destruct (match prop _ c with JArr l => _ | _ => _ end); [|done]. injection Hn as <-. by eexists.
Qed.

Lemma settings_again : buildSettingsJSON form' = Some (settings_text form).
Proof.
  pose proof (settings_plain form Hf) as Hp. pose proof (saved_object_parsed form Hf) as Hs. assert (settings_base form' = saved) as Hb by (unfold settings_base; cbn [f_settings reopened ostr default from_option id]; by rewrite Hs).
  rewrite build_settings.
  - unfold settings_text at 1. rewrite Hb, write_settings_changes, changes_idle.
    + unfold saved_object. rewrite <- enumerated_obj. f_equal. exact (json_text_enumerated 0 0 _ Hp).
    + unfold changes. repeat apply Forall_app_2; [apply keys_fulfilled|apply passthrough_fulfilled|apply upstream_fulfilled|apply advanced_fulfilled].
  - exact (json_text_units 0 0 _ Hp).
  - unfold isOptionalJsonObject, parseOptionalJson. cbn [f_settings reopened]. rewrite Hs. by destruct (str_true _).
Qed.

Lemma setting_again : buildSettingJSON form' = buildSettingJSON form.
Proof.
  rewrite !setting_text; [|apply Hf|apply shown_extra_typed, Hf]. cbn [extra reopened]. by rewrite shown_fields.
Qed.
End Again.

(** The two texts depend on the type and their own fields only. *)
Lemma settings_ext f g : f_type f = f_type g → f_settings f = f_settings g → specific f = specific g → buildSettingsJSON f = buildSettingsJSON g.
Proof. destruct f, g. cbn. by intros -> -> ->. Qed.

Lemma setting_ext f g : extra f = extra g → buildSettingJSON f = buildSettingJSON g.
Proof. destruct f, g. cbn. by intros ->. Qed.

(** C33. Saving twice is saving once: when a valid form was saved, opening any row that
    has its type and holds the two JSON texts that were sent, and saving that form again
    without a change, sends the same two texts. *)
Theorem channel_resave new_URL URL_host form : form_values form → channelFormSchema new_URL URL_host form = true →
  ∃ setting settings, buildSettingJSON form = Some setting ∧ buildSettingsJSON form = Some settings
    ∧ ∀ c, ch_type c = f_type form → ch_setting c = Some setting → ch_settings c = settings →
        buildSettingJSON (transformChannelToFormDefaults c) = Some setting ∧ buildSettingsJSON (transformChannelToFormDefaults c) = Some settings.
Proof.
  intros Hu Hs. destruct (accepted_typed _ _ _ Hs Hu) as (Hf & Hr & Hv). pose proof (setting_text form (t_extra _ Hf)) as E1.
  assert (buildSettingsJSON form = Some (settings_text form)) as E2 by (apply build_settings; [apply Hf|by eapply refined_settings]).
  eexists _, _. split_and!; [exact E1|exact E2|]. intros c Ht Hc1 Hc2. split.
  - rewrite (setting_ext _ (reopened form c)); [by rewrite setting_again|]. cbn. rewrite Hc1. by apply setting_shown.
  - rewrite (settings_ext _ (reopened form c)); [apply settings_again; [done|by eapply config_required]|done|..]; cbn; rewrite Hc2.
    + by rewrite str_or_id by (by apply settings_text_nonempty).
    + by apply settings_shown.
Qed.

(** ** Creating *)

(** The columns that both payloads hold *)
Definition COMMON_COLUMNS : list jsstr := js <$> [
  "name"; "type"; "base_url"; "openai_organization"; "models"; "group"; "model_fixed_endpoints"; "model_mapping"; "test_model"; "auto_ban"; "status_code_mapping"; "tag"; "remark";
  "setting"; "param_override"; "header_override"; "settings"; "other"]%string.

Definition create_columns (form : ChannelFormValues) : obj :=
  match mget (js "channel") (default [] (transformFormDataToCreatePayload form)) with Some (JObj ch) => ch | _ => [] end.

Lemma mget_defined k k' v (p : obj) : js k' ≠ k → mget k (defined k' v ++ p) = mget k p.
Proof. intros H. destruct v; [|done]. cbn [defined app]. rewrite mget_member. by rewrite bool_decide_false. Qed.

Lemma create_total new_URL form : form_typed form → refinements new_URL form = true →
  ∃ p, transformFormDataToCreatePayload form = Some p ∧ mget (js "channel") p = Some (JObj (create_columns form)).
Proof.
  intros Hf Hr. apply refined_settings in Hr. unfold create_columns, transformFormDataToCreatePayload. rewrite setting_text by apply Hf. rewrite build_settings by (first [apply Hf|done]).
  cbn [mbind option_bind default from_option id]. cbv zeta. eexists. split; [reflexivity|]. cbn [app]. rewrite !mget_member; literals. rewrite !mget_defined by decided.
  rewrite !mget_member; literals. done.
Qed.

Lemma str_or_null_clean s : clean (str_or_null s) = clean (JStr s).
Proof. by destruct s. Qed.

Lemma empty_to_null_idem p : empty_to_null (empty_to_null p) = empty_to_null p.
Proof. unfold empty_to_null. rewrite <- list_fmap_compose. apply list_fmap_ext. intros i [k v] _. cbn. by rewrite clean_idem. Qed.

Lemma create_columns_members new_URL form : form_typed form → refinements new_URL form = true →
  create_columns form = empty_to_null (create_columns form)
  ∧ mget (js "model_group_modes") (create_columns form) = None
  ∧ Forall (fun k => mget k (create_columns form) = clean <$> mget k (update_payload form (num_of_Z 0))) COMMON_COLUMNS.
Proof.
  intros Hf Hr. pose proof (update_payload_members new_URL form (num_of_Z 0) Hf Hr) as Hm. unfold update_members in Hm. rewrite !Forall_cons in Hm. cbn [fst snd] in Hm.
  destruct Hm as (_ & M1 & M2 & M3 & M4 & M5 & M6 & _ & M8 & M9 & _ & _ & M12 & M13 & M14 & M15 & M16 & M17 & M18 & M19 & M20 & M21 & _).
  apply refined_settings in Hr. unfold create_columns, transformFormDataToCreatePayload. rewrite setting_text by apply Hf. rewrite build_settings by (first [apply Hf|done]).
  cbn [mbind option_bind default from_option id]. cbv zeta. cbn [app]. rewrite !mget_member; literals. rewrite !mget_defined by decided. rewrite !mget_member; literals. cbv iota.
  split_and!; [by rewrite empty_to_null_idem|by rewrite mget_clean; look|]. unfold COMMON_COLUMNS. rewrite !fmap_cons, fmap_nil.
  do 18 (apply Forall_cons_2; [rewrite mget_clean; look;
    first [rewrite M1|rewrite M2|rewrite M3|rewrite M4|rewrite M5|rewrite M6|rewrite M8|rewrite M9|rewrite M12|rewrite M13|rewrite M14|rewrite M15|rewrite M16|rewrite M17|rewrite M18|rewrite M19|rewrite M20|rewrite M21];
    cbn [fmap option_fmap option_map]; rewrite ?str_or_null_clean, ?clean_idem; reflexivity|]). constructor.
Qed.

(** The request that creates a channel: it holds the columns that saving the same
    form later would send, with null for empty texts, and never the policies that the
    form holds for the groups of models. *)
Theorem create_request new_URL URL_host row form multi can : form_values form → channelFormSchema new_URL URL_host form = true →
  ∃ p columns, mutation_request row false multi can form = Some (CreateChannel p) ∧ mget (js "channel") p = Some (JObj columns)
    ∧ Forall (fun e => e.2 ≠ JStr []) columns
    ∧ (∀ k, k ∈ COMMON_COLUMNS → ∃ update, transformFormDataToUpdatePayload form (num_of_Z 0) = Some update ∧ mget k columns = clean <$> mget k update)
    ∧ mget (js "model_group_modes") columns = None.
Proof.
  intros Hu Hv. destruct (accepted_typed _ _ _ Hv Hu) as (Hf & Hr & _). destruct (create_total new_URL form Hf Hr) as (p & Hp & Hc). destruct (create_columns_members new_URL form Hf Hr) as (H1 & H2 & H3).
  exists p, (create_columns form). unfold mutation_request. rewrite Hp. split_and!; [done|done| | |done].
  - rewrite H1. unfold empty_to_null. rewrite Forall_fmap. apply Forall_true. intros [k []]; cbn; try done. by destruct s.
  - intros k Hk. exists (update_payload form (num_of_Z 0)). split; [by eapply update_total|]. rewrite Forall_forall in H3. by apply H3.
Qed.

(** ** Updating *)

Lemma mget_mdels ks k (p : obj) : mget k (foldl (fun p k => mdel k p) p ks) = if bool_decide (k ∈ ks) then None else mget k p.
Proof.
  revert p. induction ks as [|k' ks IH]; intros p; [done|]. cbn [foldl]. rewrite IH, mget_mdel. destruct (decide (k = k')) as [->|Hne].
  - rewrite (bool_decide_true (k' ∈ k' :: ks)) by (by left). by case_bool_decide.
  - assert (bool_decide (k ∈ k' :: ks) = bool_decide (k ∈ ks)) as ->; [|done]. apply bool_decide_ext. rewrite elem_of_cons. naive_solver.
Qed.

Lemma update_key form id p : transformFormDataToUpdatePayload form id = Some p →
  mget (js "key") p = (if str_true (trim (f_key form)) then Some (JStr (f_key form)) else None) ∧ mget (js "key_mode") p = None.
Proof.
  unfold transformFormDataToUpdatePayload. destruct (buildSettingJSON form) as [a|]; [|done]. destruct (buildSettingsJSON form) as [b|]; [|done]. cbn [mbind option_bind]. cbv zeta. intros H%(inj Some). subst p.
  split; repeat (rewrite mget_set; literals); rewrite mget_clean.
  - assert (str_true (f_key form) && str_true (trim (f_key form)) = str_true (trim (f_key form))) as ->.
    { destruct (f_key form); [done|]. done. }
    destruct (str_true (trim (f_key form))) eqn:E; [rewrite mget_set; literals|look; done]. cbn. by destruct (f_key form).
  - destruct (_ && _); [rewrite mget_set; literals|]; look; done.
Qed.

(** The request of an update, for a user with or without the right to edit sensitive
    fields *)
Lemma request_members row multi can form p0 : transformFormDataToUpdatePayload form (ch_id row) = Some p0 →
  ∃ p, mutation_request (Some row) true multi can form = Some (UpdateChannel (ch_id row) p)
    ∧ (can = false → ∀ k, k ∈ SENSITIVE_UPDATE_FIELDS → mget k p = None)
    ∧ mget (js "key") p = (if can && str_true (trim (f_key form)) then Some (JStr (f_key form)) else None)
    ∧ mget (js "key_mode") p = (if can && multi && str_true (trim (f_key form)) && str_true (ostr (f_key_mode form)) then Some (JStr (ostr (f_key_mode form))) else None)
    ∧ (∀ k, k ≠ js "key" → k ≠ js "key_mode" → (k ∉ SENSITIVE_UPDATE_FIELDS ∨ can = true) → mget k p = mget k p0).
Proof.
  intros Hp. destruct (update_key form _ _ Hp) as [Hk Hkm]. unfold mutation_request. rewrite Hp. cbn [mbind option_bind]. cbv zeta. eexists. split; [reflexivity|].
  set (p1 := if str_true (trim (f_key form)) then p0 else mdel (js "key") p0). assert (∀ k, mget k p1 = mget k p0) as H1.
  { intros k. unfold p1. destruct (str_true (trim (f_key form))); [done|]. rewrite mget_mdel. case_decide; [by subst|done]. }
  destruct can; cbn [andb].
  - split_and!; [done| | |].
    + destruct (multi && _ && _); [rewrite mget_set; literals|]; by rewrite H1.
    + destruct (multi && _ && _); [rewrite mget_set; literals; done|by rewrite H1].
    + intros k Hne1 Hne2 _. destruct (multi && _ && _); [rewrite mget_set, bool_decide_false by done|]; apply H1.
  - split_and!.
    + intros _ k Hin. by rewrite mget_mdels, bool_decide_true.
    + by rewrite mget_mdels, bool_decide_true by decided.
    + rewrite mget_mdels, bool_decide_false by decided. by rewrite H1.
    + intros k _ _ [Hin|]; [|done]. by rewrite mget_mdels, bool_decide_false, H1.
Qed.

(** The right to edit sensitive fields, as it is granted: to the first role, or in the
    matrix of the user *)
Definition may_edit (user : option AuthStore.AuthUser) : Prop :=
  ∃ u, user = Some u ∧ (num_eqb (AuthStore.u_role u) (num_of_Z 100) = true
    ∨ prop "sensitive_write" (prop "channel" (prop "admin_permissions" (prop "permissions" (AuthStore.u_object u)))) = JBool true).

Lemma may_edit_spec user : Permissions.hasPermission user Permissions.CHANNEL Permissions.SENSITIVE_WRITE = true ↔ may_edit user.
Proof.
  unfold Permissions.hasPermission, may_edit, Permissions.SUPER_ADMIN. destruct user as [u|]; [|naive_solver]. destruct (num_eqb _ _) eqn:E; [naive_solver|].
  change (NavSettings.NavSettings.member ?k (NavSettings.NavSettings.member ?r ?m)) with (prop "sensitive_write" (prop "channel" m)).
  assert (∀ v, is_true v = true ↔ v = JBool true) as Hv by (intros [| |[]| | | |]; split; done).
  rewrite Hv. split; [intros H; exists u; auto|]. intros (u' & [= <-] & [H|H]); [by rewrite E in H|done].
Qed.

(** C34. The request of an update from a form that passes the checks.  It sends a key only
    when one was entered and the user may edit sensitive fields, and how to add it only
    for a channel with several keys; without that right no field of the client's list
    [SENSITIVE_UPDATE_FIELDS] is sent; and each of the other columns, or all of them with
    the right, is sent with the value that [update_members] gives for the form: texts and
    numbers as they were entered or their defaults, the address without trailing slashes,
    the policies and endpoints of the published models, and the two JSON texts. *)
Theorem update_request new_URL URL_host user row multi form : form_values form → channelFormSchema new_URL URL_host form = true →
  ∃ p, useChannelMutateForm user (Some row) true multi form = Some (UpdateChannel (ch_id row) p)
    ∧ (∀ k, k ∈ SENSITIVE_UPDATE_FIELDS → is_Some (mget k p) → may_edit user)
    ∧ (mget (js "key") p = Some (JStr (f_key form)) ∧ may_edit user ∧ trim (f_key form) ≠ [] ∨ mget (js "key") p = None ∧ (¬ may_edit user ∨ trim (f_key form) = []))
    ∧ (is_Some (mget (js "key_mode") p) → multi = true ∧ is_Some (mget (js "key") p) ∧ JStr <$> f_key_mode form = mget (js "key_mode") p)
    ∧ Forall (fun e => e.1 ∉ SENSITIVE_UPDATE_FIELDS ∨ may_edit user → mget e.1 p = Some e.2) (update_members form (ch_id row)).
Proof.
  intros Hfv Hsc. destruct (accepted_typed _ _ _ Hsc Hfv) as (Hft & Hr & _). pose proof (update_total new_URL form (ch_id row) Hft Hr) as Hp.
  pose proof (update_payload_members new_URL form (ch_id row) Hft Hr) as Hmem. unfold useChannelMutateForm. pose proof (may_edit_spec user) as Hm.
  set (can := Permissions.hasPermission user _ _) in *. destruct (request_members row multi can form _ Hp) as (p & H1 & H2 & H3 & H4 & H5). exists p.
  split; [done|]. clearbody can. assert (can = true ∨ can = false ∧ ¬ may_edit user) as Hc by (destruct can; [by left|right; split; [done|by intros H%Hm]]).
  split_and!.
  - intros k Hk Hs. destruct Hc as [Hc|[Hc _]]; [by apply Hm|]. rewrite (H2 Hc k Hk) in Hs. by destruct Hs.
  - rewrite H3. destruct Hc as [Hc|[Hc Hno]]; rewrite Hc in *; cbn [andb]; [|by auto].
    destruct (str_true (trim (f_key form))) eqn:E; [left; split_and!; [done|by apply Hm|by apply str_true_spec]|right]. split; [done|right]. by apply str_true_false.
  - rewrite H4, H3. destruct can, multi, (str_true (trim (f_key form))); cbn [andb]; try (by intros []). destruct (f_key_mode form) as [m|]; cbn [ostr default from_option id]; [|by intros []].
    destruct (str_true m); [|by intros []]. by eauto.
  - assert (Forall (fun e => e.1 ≠ js "key" ∧ e.1 ≠ js "key_mode") (update_members form (ch_id row))) as Hne
      by (apply (Forall_fmap fst (fun k => k ≠ js "key" ∧ k ≠ js "key_mode")); unfold update_members; decided).
    rewrite Forall_forall in *. intros e He Hk. destruct (Hne e He) as [N1 N2]. rewrite (H5 _ N1 N2); [by apply Hmem|]. rewrite Hm. tauto.
Qed.

(** ** The server's rule on policies

    The server keeps a field that was not sent and refuses one that differs from the row
    when the user may not edit sensitive fields. *)

Definition same_policy (x y : ChannelModelGroupModeInput) : bool :=
  bool_decide (gm_model x = gm_model y) && bool_decide (gm_mode x = gm_mode y) && bool_decide (gm_groups x = gm_groups y).

Fixpoint same_policies (a b : list ChannelModelGroupModeInput) : bool :=
  match a, b with
  | [], [] => true
  | x :: a, y :: b => same_policy x y && same_policies a b
  | _, _ => false
  end.

Definition channelModelGroupModesEqual (a b : option (list ChannelModelGroupModeInput)) : bool :=
  match a, b with
  | None, None => true
  | Some a, Some b => same_policies a b
  | _, _ => false
  end.

(** C35. An update by a user without the right to edit sensitive fields is refused for
    every channel without policies, whatever was changed: the request always holds
    policies, which the server compares with a row that has none. *)
Theorem plain_admin_refused new_URL URL_host user row form multi : ¬ may_edit user → form_values form → channelFormSchema new_URL URL_host form = true → ch_model_group_modes row = None →
  ∃ p policies, useChannelMutateForm user (Some row) true multi form = Some (UpdateChannel (ch_id row) p)
    ∧ mget (js "model_group_modes") p = Some (modes_value policies) ∧ channelModelGroupModesEqual (Some policies) (ch_model_group_modes row) = false.
Proof.
  intros Hno Hu Hv Hn. destruct (accepted_typed _ _ _ Hv Hu) as (Hf & Hr & _). pose proof (update_total new_URL form (ch_id row) Hf Hr) as Hp. unfold useChannelMutateForm.
  destruct (Permissions.hasPermission user _ _) eqn:Ec; [by apply may_edit_spec in Ec|]. unfold mutation_request. rewrite Hp. cbn [mbind option_bind andb]. cbv zeta.
  eexists _, _. split; [reflexivity|]. rewrite Hn. split; [|reflexivity]. rewrite mget_mdels, bool_decide_false by decided.
  pose proof (update_payload_members new_URL form (ch_id row) Hf Hr) as Hm. unfold update_members in Hm. rewrite !Forall_cons in Hm. cbn [fst snd] in Hm.
  destruct Hm as (_ & _ & _ & _ & _ & _ & _ & M7 & _). destruct (str_true (trim (f_key form))); [exact M7|]. rewrite mget_mdel, decide_False by decided. exact M7.
Qed.

(** ** Examples *)

Definition sample_config : jsstr := BillingRules.dq "{'advanced_routes':[{'incoming_path':'/v1/chat/completions','upstream_path':' /chat '}]}".

(** A channel of advanced routes whose stored settings hold a member of another type and
    one that the form does not know *)
Definition sample_form : ChannelFormValues :=
  mkForm (js "relay") (num_of_Z 58) (Some (js "https://relay.example/")) (js "sk-1") (Some []) (js "gpt-4, o3") [js "default"; js "vip"]
    (Some [mkGroupMode (js "o3") (js "custom") [js "vip"]; mkGroupMode (js "gone") (js "disabled") []]) (Some [(js "o3", js "/v1/responses")]) (Some []) (Some (num_of_Z 3))
    None (Some []) None (num_of_Z 1) (Some []) (Some (js "t")) (Some []) (Some []) (Some []) (Some []) (Some (BillingRules.dq "{'allow_speed':true,'region':'eu','2':0}")) (Some [])
    (Some (js "single")) (Some (js "random")) (Some false) (Some (js "append"))
    (mkExtra (JBool true) JUndef (JStr []) (JStr HTTP_PROTOCOL_AUTO) (JNum (num_of_Z 3)) JUndef (JStr (js "Be brief.")) JUndef)
    (mkSpecific None (JStr (js "json")) JUndef JUndef None None None None None (Some true) None None None (Some true) (Some (js "a, b,a")) (Some sample_config)).

Lemma sample_form_values : form_values sample_form.
Proof. split; first [exact I|reflexivity|lit]. Qed.

Lemma sample_form_accepted : channelFormSchema (fun _ => None) (fun _ => None) sample_form = true.
Proof. vm_compute. reflexivity. Qed.

Example sample_settings : buildSettingsJSON sample_form = Some (BillingRules.dq "{'2':0,'region':'eu','disable_task_polling_sleep':false,'upstream_model_update_check_enabled':false,'upstream_model_update_auto_sync_enabled':false,'upstream_model_update_ignored_models':['a','b'],'upstream_model_update_last_detected_models':[],'upstream_model_update_last_check_time':0,'advanced_custom':{'advanced_routes':[{'incoming_path':'/v1/chat/completions','upstream_path':'/chat','converter':'none'}]}}").
Proof. vm_compute. reflexivity. Qed.

(** The base address is required, but one that is only a slash passes and is saved as
    the empty text. *)
Definition slash_form : ChannelFormValues :=
  mkForm (js "relay") (num_of_Z 8) (Some (js "/")) [] None (js "m") [js "default"] None None None None None None None (num_of_Z 1) None None None None None None None None None None None None
    default_extra default_specific.

Example slash_is_no_address : superRefine (fun _ => None) slash_form = Some [] ∧ normalizeBaseUrl (f_base_url slash_form) = [].
Proof. split; vm_compute; reflexivity. Qed.

(** The row that the server keeps of [sample_form] *)
Definition sample_row : Channel :=
  mkChannel (num_of_Z 7) (js "relay") (num_of_Z 58) (Some (js "https://relay.example")) None (js "gpt-4, o3") (js "default,vip")
    (Some [mkGroupMode (js "o3") (js "custom") [js "vip"]]) (Some [(js "o3", js "/v1/responses")]) None (Some (num_of_Z 3)) (Some (num_of_Z 0)) None (Some (num_of_Z 1)) (num_of_Z 1) None
    (Some (js "t")) [] (Some (json_text 0 0 (JObj (setting_fields (extra sample_form))))) None None (settings_text sample_form) [] (js "random").



Lemma settings_kept_witness : ∃ text o, buildSettingsJSON sample_form = Some text ∧ JSON_parse text = Some (JObj o)
  ∧ mget (js "region") o = Some (JStr (js "eu")) ∧ mget (js "allow_speed") o = None.
Proof.
  destruct (settings_kept (fun _ => None) (fun _ => None) sample_form sample_form_values sample_form_accepted) as (text & o & H1 & H2 & H3 & H4 & _). exists text, o. split; [exact H1|]. split; [exact H2|]. split.
  - rewrite H3 by decided. vm_compute. reflexivity.
  - apply (H4 _ [14%Z]); [unfold TYPE_MEMBERS; do 9 right; left|reflexivity].
Defined.

Lemma channel_resave_witness : buildSettingsJSON (transformChannelToFormDefaults sample_row) = buildSettingsJSON sample_form.
Proof.
  destruct (channel_resave (fun _ => None) (fun _ => None) sample_form sample_form_values sample_form_accepted) as (a & b & E1 & E2 & H).
  rewrite E2. apply (H sample_row); [reflexivity| |].
  - rewrite <- E1. vm_compute. reflexivity.
  - apply (inj Some). rewrite <- E2. vm_compute. reflexivity.
Defined.

Lemma create_request_witness : ∃ p columns, mutation_request None false false true sample_form = Some (CreateChannel p) ∧ mget (js "channel") p = Some (JObj columns)
  ∧ mget (js "model_group_modes") columns = None.
Proof.
  destruct (create_request (fun _ => None) (fun _ => None) None sample_form false true sample_form_values sample_form_accepted) as (p & columns & H1 & H2 & _ & _ & H3). exists p, columns. auto.
Defined.

Lemma nobody_edits : ¬ may_edit None.
Proof. by intros (u & ? & _). Qed.

Lemma update_request_witness : ∃ p, useChannelMutateForm None (Some sample_row) true false sample_form = Some (UpdateChannel (num_of_Z 7) p)
  ∧ mget (js "settings") p = None ∧ mget (js "key") p = None.
Proof.
  destruct (update_request (fun _ => None) (fun _ => None) None sample_row false sample_form sample_form_values sample_form_accepted) as (p & H1 & H2 & _). exists p. split; [exact H1|].
  assert (∀ k, k ∈ SENSITIVE_UPDATE_FIELDS → mget k p = None) as H by (intros k Hk; destruct (mget k p) eqn:E; [|reflexivity]; exfalso; apply nobody_edits, (H2 k Hk); eauto).
  split; apply H; decided.
Defined.

(** A row without policies *)
Definition bare_row : Channel := mkChannel (num_of_Z 7) [] (num_of_Z 1) None None [] [] None None None None None None None (num_of_Z 1) None None [] None None None [] [] [].

Lemma plain_admin_refused_witness : ∃ p policies, useChannelMutateForm None (Some bare_row) true false sample_form = Some (UpdateChannel (num_of_Z 7) p)
  ∧ mget (js "model_group_modes") p = Some (modes_value policies) ∧ channelModelGroupModesEqual (Some policies) None = false.
Proof. exact (plain_admin_refused (fun _ => None) (fun _ => None) None bare_row sample_form false nobody_edits sample_form_values sample_form_accepted eq_refl). Defined.

End ChannelSave.
