(* ===== verification/Navigation.v ===== *)
(** * Navigation
    (src/web/src/lib/nav-modules.ts, src/web/src/hooks/use-sidebar-config.ts,
    src/web/src/hooks/use-top-nav-links.ts)

    The code that obeys the settings of [NavSettings]: the links of the header, the
    guards of pages, and the sidebar, where the settings of the administrator and those
    of the user are combined.  The settings arrive in the status that the server sends,
    of which a copy is kept in the browser. *)

From S2P Require Import Prelude JsString JsValue JsJson JsNumber JsonPrint BillingRules ParamOverride ParamEditor NavSettings.
Import ParamOverride NavSettings.

Module Navigation.

(** ** Header *)

Definition DEFAULT_HEADER_NAV_MODULES : HeaderNavModules :=
  [(js "home", Flag true); (js "console", Flag true); (js "pricing", Access true false); (js "rankings", Access true false); (js "docs", Flag true); (js "about", Flag true)].

Definition parseHeaderNavBoolean (raw : jsval) (fallback : bool) : bool :=
  match raw with
  | JBool b => b
  | JNum x => if is_one x then true else if is_zero x then false else fallback
  | JStr s =>
      let normalized := lower (trim s) in
      if bool_decide (normalized = js "true") || bool_decide (normalized = js "1") then true
      else if bool_decide (normalized = js "false") || bool_decide (normalized = js "0") then false
      else fallback
  | _ => fallback
  end.

Definition parseAccess (raw : jsval) (fallback : option NavModule) : NavModule :=
  let enabled := access_enabled fallback in
  let requireAuth := access_requires fallback in
  match raw with
  | JBool _ | JNum _ | JStr _ => Access (parseHeaderNavBoolean raw enabled) requireAuth
  | JObj _ | JArr _ => Access (parseHeaderNavBoolean (prop "enabled" raw) enabled) (parseHeaderNavBoolean (prop "requireAuth" raw) requireAuth)
  | _ => Access enabled requireAuth
  end.

Definition parseHeaderNavRecord (raw : jsval) : option jsval :=
  if negb (truthy raw) || negb (str_true (trim (js_String raw))) then None
  else match raw with
       | JObj _ | JArr _ => Some raw
       | _ => JSON_parse (js_String raw)
       end.

Definition is_scalar (v : jsval) : bool := match v with JBool _ | JNum _ | JStr _ => true | _ => false end.

Definition nav_entry (result : HeaderNavModules) (e : jsstr * jsval) : HeaderNavModules :=
  let '(key, value) := e in
  if bool_decide (key = js "pricing") || bool_decide (key = js "rankings") then mset key (parseAccess value (mget key result)) result
  else match mget key result with
       | Some (Flag fallback) => mset key (Flag (parseHeaderNavBoolean value fallback)) result
       | _ => if is_scalar value then mset key (Flag (parseHeaderNavBoolean value true)) result else result
       end.

Definition parseHeaderNavModules (raw : jsval) : HeaderNavModules :=
  match parseHeaderNavRecord raw with
  | Some parsed => if truthy parsed then foldl nav_entry DEFAULT_HEADER_NAV_MODULES (entries parsed) else DEFAULT_HEADER_NAV_MODULES
  | None => DEFAULT_HEADER_NAV_MODULES
  end.

Definition parseHeaderNavModulesFromStatus (status : jsval) : HeaderNavModules := parseHeaderNavModules (prop "HeaderNavModules" status).

Inductive HeaderNavModule := Rankings | Pricing.
Definition nav_name (m : HeaderNavModule) : jsstr := match m with Rankings => js "rankings" | Pricing => js "pricing" end.

Definition getModuleAccessFromStatus (status : jsval) (module : HeaderNavModule) : NavModule :=
  default (default (Flag true) (mget (nav_name module) DEFAULT_HEADER_NAV_MODULES)) (mget (nav_name module) (parseHeaderNavModulesFromStatus status)).

(** The copy of the status in the browser; [None] when the entry is missing *)
Definition getCachedStatus (stored : option jsstr) : jsval :=
  match stored with Some raw => if str_true raw then default JNull (JSON_parse raw) else JNull | None => JNull end.

Definition cacheStatus (stored : option jsstr) (status : jsval) : option jsstr := if truthy status then Some (json_text 0 0 status) else stored.

Definition getModuleAccess (stored : option jsstr) (module : HeaderNavModule) : NavModule := getModuleAccessFromStatus (getCachedStatus stored) module.

(** [None] is a failed request *)
Definition getFreshModuleAccess (stored : option jsstr) (answer : option jsval) (module : HeaderNavModule) : option jsstr * NavModule :=
  match answer with
  | Some status => (cacheStatus stored status, getModuleAccessFromStatus status module)
  | None => (stored, Access false true)
  end.

(** The guard of a page; reading a member of null throws, and lets the page open. *)
Definition isSidebarModuleEnabled (stored : option jsstr) (sectionKey module : jsstr) : bool :=
  let status := getCachedStatus stored in
  if negb (truthy status) then true
  else
    let raw := prop "SidebarModulesAdmin" status in
    if negb (truthy raw) || negb (str_true (trim (js_String raw))) then true
    else match JSON_parse (js_String raw) with
         | Some parsed =>
             let sectionConfig := member sectionKey parsed in
             if negb (truthy sectionConfig) then true
             else if is_false (prop "enabled" sectionConfig) then false
             else negb (is_false (member module sectionConfig))
         | None => true
         end.

(** Links of the header *)
Record TopNavLink := mkLink { title : jsstr; href : jsstr; requiresAuth : option bool; external : bool }.

Definition link_if (b : bool) (l : TopNavLink) : list TopNavLink := if b then [l] else [].

(** [modules.k !== false] *)
Definition not_off (k : string) (modules : HeaderNavModules) : bool := negb (bool_decide (mget (js k) modules = Some (Flag false))).

Definition access_link (modules : HeaderNavModules) (k : string) (isAuthed : bool) (ti hr : jsstr) : list TopNavLink :=
  match mget (js k) modules with
  | Some (Access enabled requireAuth) => link_if enabled (mkLink ti hr (Some (requireAuth && negb isAuthed)) false)
  | _ => []
  end.

Definition topNavLinks (t : jsstr → jsstr) (status : jsval) (isAuthed : bool) : list TopNavLink :=
  let modules := parseHeaderNavModulesFromStatus status in
  let docsLink := prop "docs_link" status in
  link_if (not_off "home" modules) (mkLink (t (js "Home")) (js "/") None false)
  ++ link_if (not_off "console" modules) (mkLink (t (js "Console")) (js "/dashboard") None false)
  ++ access_link modules "pricing" isAuthed (t (js "Model Square")) (js "/pricing")
  ++ access_link modules "rankings" isAuthed (t (js "Rankings")) (js "/rankings")
  ++ link_if (not_off "docs" modules)
       (if truthy docsLink then mkLink (t (js "Docs")) (js_String docsLink) None true else mkLink (t (js "Docs")) (js "/docs") None false)
  ++ link_if (not_off "about" modules) (mkLink (t (js "About")) (js "/about") None false).

(** ** Sidebar *)

Definition DEFAULT_SIDEBAR_MODULES : SidebarModulesAdminConfig :=
  [(js "chat", section ["playground"; "chat"]%string); (js "console", section ["detail"; "token"; "log"; "midjourney"; "task"]%string);
   (js "personal", section ["topup"; "personal"]%string); (js "admin", section ["channel"; "models"; "redemption"; "user"; "setting"; "subscription"]%string)].

(** [{ ...a, ...b }] *)
Definition spread_over (a b : list (jsstr * jsval)) : list (jsstr * jsval) := foldl (fun o e => mset e.1 e.2 o) a b.

(** Members that are undefined take their default. *)
Definition fill_module (sec : list (jsstr * jsval)) (e : jsstr * bool) : list (jsstr * jsval) :=
  if is_undef (default JUndef (mget e.1 sec)) then mset e.1 (JBool e.2) sec else sec.

Definition bools (sec : SidebarSectionConfig) : list (jsstr * jsval) := (fun m => (m.1, JBool m.2)) <$> sec.

Definition merge_section (merged : list (jsstr * jsval)) (e : jsstr * SidebarSectionConfig) : list (jsstr * jsval) :=
  let existingSection := default JUndef (mget e.1 merged) in
  if truthy existingSection then mset e.1 (JObj (foldl fill_module (spread_over (bools e.2) (entries existingSection)) e.2)) merged
  else mset e.1 (JObj (bools e.2)) merged.

Definition mergeWithDefaultSidebarModules (config : jsval) : jsval := JObj (foldl merge_section (entries config) DEFAULT_SIDEBAR_MODULES).

Definition sidebar_defaults : jsval := sidebar_value DEFAULT_SIDEBAR_MODULES.

Definition parseSidebarConfig (value : option jsstr) : jsval :=
  match value with
  | Some s => if str_true (trim s) then match JSON_parse s with Some parsed => mergeWithDefaultSidebarModules parsed | None => sidebar_defaults end else sidebar_defaults
  | None => sidebar_defaults
  end.

(** [None] is null: nothing is narrowed. *)
Definition parseUserSidebarConfig (value : option jsstr) : option jsval :=
  match value with
  | Some s => if str_true (trim s) then match JSON_parse s with Some (JObj fs) => Some (JObj fs) | Some (JArr l) => Some (JArr l) | _ => None end else None
  | None => None
  end.

Definition route (u s m : string) : jsstr * (jsstr * jsstr) := (js u, (js s, js m)).

Definition URL_TO_CONFIG_MAP : list (jsstr * (jsstr * jsstr)) :=
  [route "/playground" "chat" "playground"; route "/dashboard" "console" "detail"; route "/dashboard/overview" "console" "detail"; route "/dashboard/models" "console" "detail";
   route "/dashboard/users" "console" "detail"; route "/keys" "console" "token"; route "/usage-logs" "console" "log"; route "/usage-logs/common" "console" "log";
   route "/usage-analysis" "console" "log"; route "/llm-review-logs" "console" "log"; route "/usage-logs/drawing" "console" "midjourney"; route "/usage-logs/task" "console" "task";
   route "/wallet" "personal" "topup"; route "/profile" "personal" "personal"; route "/channels" "admin" "channel"; route "/models" "admin" "models";
   route "/models/metadata" "admin" "models"; route "/models/deployments" "admin" "models"; route "/users" "admin" "user"; route "/redemption-codes" "admin" "redemption";
   route "/subscriptions" "admin" "subscription"; route "/system-settings" "admin" "setting"; route "/system-settings/site" "admin" "setting"]%string.

Definition admin_allows (adminConfig : jsval) (sectionKey module : jsstr) : bool :=
  let adminSection := member sectionKey adminConfig in
  truthy adminSection && truthy (prop "enabled" adminSection) && is_true (member module adminSection).

Definition user_allows (userConfig : option jsval) (sectionKey module : jsstr) : bool :=
  match userConfig with
  | None => true
  | Some user =>
      let userSection := member sectionKey user in
      if negb (truthy userSection) then true
      else if is_false (prop "enabled" userSection) then false
      else negb (is_false (member module userSection))
  end.

Definition isModuleEnabled (url : jsstr) (adminConfig : jsval) (userConfig : option jsval) : bool :=
  match mget url URL_TO_CONFIG_MAP with
  | None => true
  | Some (sectionKey, module) => if negb (admin_allows adminConfig sectionKey module) then false else user_allows userConfig sectionKey module
  end.

(** Items of the sidebar, with the role that they demand *)
Inductive NavKind :=
| NavLink (url : jsstr) (configUrls : option (list jsstr))
| NavCollapsible (items : list (jsstr * jsstr))
| NavChatPresets.

Record NavItem := mkItem { i_title : jsstr; requiredRole : option Z; i_kind : NavKind }.

Record NavGroup := mkGroup { g_id : jsstr; g_title : jsstr; g_items : list NavItem }.

Definition isNavItemVisible (item : NavItem) (adminConfig : jsval) (userConfig : option jsval) : bool :=
  match i_kind item with
  | NavChatPresets => if negb (admin_allows adminConfig (js "chat") (js "chat")) then false else user_allows userConfig (js "chat") (js "chat")
  | NavLink url configUrls => if str_true url then existsb (fun u => isModuleEnabled u adminConfig userConfig) (default [url] configUrls) else true
  | NavCollapsible items => existsb (fun i => isModuleEnabled i.2 adminConfig userConfig) items
  end.

Definition narrow_item (adminConfig : jsval) (userConfig : option jsval) (item : NavItem) : NavItem :=
  match i_kind item with
  | NavCollapsible items => mkItem (i_title item) (requiredRole item) (NavCollapsible (filter (fun i => isModuleEnabled i.2 adminConfig userConfig = true) items))
  | _ => item
  end.

Definition filterNavItems (items : list NavItem) (adminConfig : jsval) (userConfig : option jsval) : list NavItem :=
  filter (fun i => isNavItemVisible i adminConfig userConfig = true) (narrow_item adminConfig userConfig <$> items).

(** What the hooks read of the user *)
Record SidebarUser := mkSidebarUser { sidebar_modules : option jsstr; sidebar_settings : option bool }.

Definition user_config (user : option SidebarUser) : option jsval :=
  match user with
  | Some u => if bool_decide (sidebar_settings u = Some false) then None else parseUserSidebarConfig (sidebar_modules u)
  | None => None
  end.

Definition admin_config (status : jsval) : jsval := parseSidebarConfig (match prop "SidebarModulesAdmin" status with JStr s => Some s | _ => None end).

Definition useSidebarConfig (navGroups : list NavGroup) (status : jsval) (user : option SidebarUser) : list NavGroup :=
  filter (fun g => g_items g ≠ []) ((fun g => mkGroup (g_id g) (g_title g) (filterNavItems (g_items g) (admin_config status) (user_config user))) <$> navGroups).

Definition useIsSidebarModuleVisible (url : jsstr) (status : jsval) (user : option SidebarUser) : bool := isModuleEnabled url (admin_config status) (user_config user).

(** ** The root of the sidebar *)

Definition ROLE_GUEST : Z := 0.
Definition ROLE_ADMIN : Z := 10.
Definition ROLE_SUPER_ADMIN : Z := 100.

Definition link (t : jsstr) (url : string) : NavItem := mkItem t None (NavLink (js url) None).

Definition useSidebarData (t : jsstr → jsstr) : list NavGroup :=
  [mkGroup (js "chat") (t (js "Chat")) [link (t (js "Playground")) "/playground"; mkItem (t (js "Chat")) None NavChatPresets];
   mkGroup (js "general") (t (js "General"))
     [link (t (js "Overview")) "/dashboard/overview"; link (t (js "Dashboard")) "/dashboard/models"; link (t (js "API Keys")) "/keys"; link (t (js "Usage Logs")) "/usage-logs/common";
      mkItem (t (js "Usage Analysis")) (Some ROLE_SUPER_ADMIN) (NavLink (js "/usage-analysis") None);
      mkItem (t (js "LLM Review Logs")) (Some ROLE_ADMIN) (NavLink (js "/llm-review-logs") None);
      mkItem (t (js "Task Logs")) None (NavLink (js "/usage-logs/task") (Some [js "/usage-logs/drawing"; js "/usage-logs/task"]))];
   mkGroup (js "personal") (t (js "Personal")) [link (t (js "Wallet")) "/wallet"; link (t (js "Profile")) "/profile"];
   mkGroup (js "admin") (t (js "Admin"))
     [link (t (js "Channels")) "/channels"; link (t (js "Models")) "/models/metadata"; link (t (js "Users")) "/users"; link (t (js "Redemption Codes")) "/redemption-codes";
      link (t (js "Subscriptions")) "/subscriptions"; mkItem (t (js "System Info")) (Some ROLE_SUPER_ADMIN) (NavLink (js "/system-info") None);
      link (t (js "System Settings")) "/system-settings/site"]].

(** The groups for a role; a missing role is that of a guest *)
Definition role_allows (role : Z) (item : NavItem) : bool := match requiredRole item with Some r => (r <=? role)%Z | None => true end.

Definition rootNavGroups (groups : list NavGroup) (status : jsval) (user : option SidebarUser) (userRole : option Z) : list NavGroup :=
  let role := default ROLE_GUEST userRole in
  (fun g => mkGroup (g_id g) (g_title g) (filter (fun i => role_allows role i = true) (g_items g)))
  <$> filter (fun g => g_id g = js "admin" → (ROLE_ADMIN <= role)%Z) (useSidebarConfig groups status user).

(** ** The saved switches, obeyed *)

(** What merging does to a member *)
Definition merge_effect (k : jsstr) (d : SidebarSectionConfig) (old : option jsval) : option jsval :=
  let existing := default JUndef old in
  Some (JObj (if truthy existing then foldl fill_module (spread_over (bools d) (entries existing)) d else bools d)).
Definition fill_effect (k : jsstr) (b : bool) (old : option jsval) : option jsval := if is_undef (default JUndef old) then Some (JBool b) else old.
Definition spread_effect (k : jsstr) (v : jsval) (old : option jsval) : option jsval := Some v.

Lemma merge_section_mget r k d k' : mget k' (merge_section r (k, d)) = if bool_decide (k = k') then merge_effect k d (mget k r) else mget k' r.
Proof. unfold merge_section, merge_effect. cbn [fst snd]. destruct (truthy _); apply mget_mset_bool. Qed.

Lemma fill_module_mget r k b k' : mget k' (fill_module r (k, b)) = if bool_decide (k = k') then fill_effect k b (mget k r) else mget k' r.
Proof. unfold fill_module, fill_effect. cbn [fst snd]. destruct (is_undef _); [apply mget_mset_bool|]. case_bool_decide; by subst. Qed.

Lemma mget_spread a b k : NoDup (mkeys b) → mget k (spread_over a b) = match mget k b with Some v => Some v | None => mget k a end.
Proof. unfold spread_over. apply (mget_foldl _ spread_effect). intros r k1 v k'. apply mget_mset_bool. Qed.

Lemma merge_saved c s d m : config_ok c → mget s DEFAULT_SIDEBAR_MODULES = Some d → is_Some (mget m d) →
  member m (member s (mergeWithDefaultSidebarModules (enumerated (sidebar_value c)))) = JBool (on c s m).
Proof.
  intros Hc Hd [b Hb]. destruct (sections_parsed c Hc) as [Hn Hs]. destruct (default_switch s d m Hd) as [Hnd Ht]. specialize (Ht b Hb). subst b.
  unfold mergeWithDefaultSidebarModules. cbn [member]. rewrite (mget_foldl _ _ merge_section_mget) by apply defaults_on. rewrite Hd, Hs. unfold merge_effect, on, compose.
  destruct (mget s c) as [sec|] eqn:E; cbn [fmap option_fmap option_map default from_option id].
  - destruct (switches_parsed c s sec Hc E) as [Hn' Hm]. change (truthy (enumerated (section_value sec))) with true. cbv iota. cbn [member].
    rewrite (mget_foldl _ _ fill_module_mget) by done. rewrite Hb, mget_spread, Hm by done. unfold bools. rewrite (mget_fmap JBool), Hb. by destruct (mget m sec).
  - change (truthy JUndef) with false. cbv iota. cbn [member]. unfold bools. by rewrite (mget_fmap JBool), Hb.
Qed.

Lemma section_there c s d : mget s DEFAULT_SIDEBAR_MODULES = Some d → truthy (member s (mergeWithDefaultSidebarModules (enumerated (sidebar_value c)))) = true.
Proof. intros Hd. unfold mergeWithDefaultSidebarModules. cbn [member]. rewrite (mget_foldl _ _ merge_section_mget) by apply defaults_on. by rewrite Hd. Qed.

(** The modules of the table have defaults. *)
Lemma routes_known : Forall (fun e => is_Some (mget e.2.1 DEFAULT_SIDEBAR_MODULES ≫= mget e.2.2) ∧ is_Some (mget e.2.1 DEFAULT_SIDEBAR_MODULES ≫= mget (js "enabled"))) (
  ([], (js "chat", js "chat")) :: URL_TO_CONFIG_MAP).
Proof. decided. Qed.

Lemma admin_config_saved c status : config_ok c → prop "SidebarModulesAdmin" status = JStr (serializeSidebarModulesAdmin c) →
  admin_config status = mergeWithDefaultSidebarModules (enumerated (sidebar_value c)).
Proof. intros Hc Hs. destruct (sidebar_parsed c Hc) as [Ht Hp]. unfold admin_config, parseSidebarConfig. by rewrite Hs, Ht, Hp. Qed.

Lemma admin_allows_saved c status u s m : config_ok c → prop "SidebarModulesAdmin" status = JStr (serializeSidebarModulesAdmin c) →
  (u, (s, m)) ∈ ([], (js "chat", js "chat")) :: URL_TO_CONFIG_MAP → admin_allows (admin_config status) s m = on c s (js "enabled") && on c s m.
Proof.
  intros Hc Hs Hin. rewrite (admin_config_saved c) by done. pose proof routes_known as Hr. rewrite Forall_forall in Hr. destruct (Hr _ Hin) as [H1 H2]. cbn [fst snd] in *.
  destruct (mget s DEFAULT_SIDEBAR_MODULES) as [d|] eqn:Ed; [|by destruct H1]. cbn [mbind option_bind] in *. unfold admin_allows.
  rewrite (section_there c s d Ed). change (prop "enabled" ?v) with (member (js "enabled") v). rewrite !(merge_saved c s d) by done. by destruct (on c s (js "enabled")).
Qed.

(** The guard of pages *)
Lemma guard_saved c stored s m : config_ok c → prop "SidebarModulesAdmin" (getCachedStatus stored) = JStr (serializeSidebarModulesAdmin c) →
  isSidebarModuleEnabled stored s m = on c s (js "enabled") && on c s m.
Proof.
  intros Hc Hs. destruct (sidebar_parsed c Hc) as [Ht Hp]. pose proof (ok_sections _ Hc) as Hnd. unfold isSidebarModuleEnabled. cbv zeta. assert (truthy (getCachedStatus stored) = true) as ->.
  { destruct (getCachedStatus stored); try done. }
  rewrite Hs. cbn [js_String negb]. assert (truthy (JStr (serializeSidebarModulesAdmin c)) = true) as -> by (by destruct (serializeSidebarModulesAdmin c)). rewrite Ht, Hp. cbn [negb orb].
  assert (member s (enumerated (sidebar_value c)) = default JUndef (enumerated ∘ section_value <$> mget s c)) as ->.
  { unfold sidebar_value. rewrite member_parsed by (unfold mkeys; by rewrite <- list_fmap_compose). rewrite (mget_fmap section_value). by destruct (mget s c). }
  unfold on. destruct (mget s c) as [sec|] eqn:E; [|done]. cbn [fmap option_fmap option_map default from_option id compose].
  assert (∀ k, member k (enumerated (section_value sec)) = default JUndef (JBool <$> mget k sec)) as Hk.
  { intros k. pose proof (ok_names _ Hc) as Ho. rewrite Forall_forall in Ho. destruct (Ho _ (mget_Some_elem _ _ _ E)) as (_ & Hn & _). unfold section_value.
    rewrite member_parsed by (unfold mkeys; by rewrite <- list_fmap_compose). rewrite (mget_fmap JBool). by destruct (mget k sec). }
  change (truthy (enumerated (section_value sec))) with true. change (prop "enabled" ?v) with (member (js "enabled") v). rewrite !Hk. cbn [negb].
  destruct (mget (js "enabled") sec) as [[]|], (mget m sec) as [[]|]; reflexivity.
Qed.

(** C36. The switches of the sidebar that an administrator saves are obeyed alike by the
    page that shows them again, the guard of pages and the sidebar: a module is on when
    its own switch and that of its section are on or missing. *)
Theorem sidebar_settings_obeyed c stored : config_ok c → prop "SidebarModulesAdmin" (getCachedStatus stored) = JStr (serializeSidebarModulesAdmin c) →
  (∀ s m, on (parseSidebarModulesAdmin (Some (serializeSidebarModulesAdmin c))) s m = on c s m)
  ∧ (∀ s m, isSidebarModuleEnabled stored s m = on c s (js "enabled") && on c s m)
  ∧ (∀ url s m, mget url URL_TO_CONFIG_MAP = Some (s, m) → isModuleEnabled url (admin_config (getCachedStatus stored)) None = on c s (js "enabled") && on c s m).
Proof.
  intros Hc Hs. split_and!.
  - intros s m. by apply sidebar_reopens.
  - intros s m. by apply guard_saved.
  - intros url s m Hu. unfold isModuleEnabled. rewrite Hu. rewrite (admin_allows_saved c _ url) by (first [done|right; by apply mget_Some_elem]). by destruct (_ && _).
Qed.

(** ** What the sidebar shows *)

(** The switches of the administrator and of the user leave a page on. *)
Definition module_on (c : SidebarModulesAdminConfig) (user : option SidebarUser) (s m : jsstr) : Prop :=
  on c s (js "enabled") = true ∧ on c s m = true ∧ user_allows (user_config user) s m = true.

Definition url_on (c : SidebarModulesAdminConfig) (user : option SidebarUser) (url : jsstr) : Prop :=
  ∀ s m, mget url URL_TO_CONFIG_MAP = Some (s, m) → module_on c user s m.

Definition item_on (c : SidebarModulesAdminConfig) (user : option SidebarUser) (item : NavItem) : Prop :=
  match i_kind item with
  | NavLink url configUrls => url = [] ∨ ∃ u, u ∈ default [url] configUrls ∧ url_on c user u
  | NavCollapsible items => ∃ i, i ∈ items ∧ url_on c user i.2
  | NavChatPresets => module_on c user (js "chat") (js "chat")
  end.

Section Shown.
Context (c : SidebarModulesAdminConfig) (status : jsval) (user : option SidebarUser).
Hypothesis Hc : config_ok c.
Hypothesis Hs : prop "SidebarModulesAdmin" status = JStr (serializeSidebarModulesAdmin c).

Lemma gates_spec u s m : (u, (s, m)) ∈ ([], (js "chat", js "chat")) :: URL_TO_CONFIG_MAP →
  (if negb (admin_allows (admin_config status) s m) then false else user_allows (user_config user) s m) = true ↔ module_on c user s m.
Proof.
  intros Hin. rewrite (admin_allows_saved c status u) by done. unfold module_on. destruct (on c s (js "enabled")), (on c s m); cbn; naive_solver.
Qed.

Lemma enabled_spec url : isModuleEnabled url (admin_config status) (user_config user) = true ↔ url_on c user url.
Proof.
  unfold isModuleEnabled, url_on. destruct (mget url URL_TO_CONFIG_MAP) as [[s m]|] eqn:E; [|naive_solver].
  rewrite (gates_spec url) by (right; by apply mget_Some_elem). naive_solver.
Qed.

Lemma existsb_spec {A} (f : A → bool) (P : A → Prop) l : (∀ x, f x = true ↔ P x) → existsb f l = true ↔ ∃ x, x ∈ l ∧ P x.
Proof. intros H. rewrite existsb_exists. setoid_rewrite H. setoid_rewrite <- list_elem_of_In. done. Qed.

Lemma visible_spec item : isNavItemVisible item (admin_config status) (user_config user) = true ↔ item_on c user item.
Proof.
  unfold isNavItemVisible, item_on. destruct (i_kind item) as [url cfg|items|].
  - destruct url as [|x url]; [naive_solver|]. cbn [str_true]. rewrite (existsb_spec _ (url_on c user)) by apply enabled_spec. naive_solver.
  - apply (existsb_spec _ (fun i => url_on c user i.2)). intros i. apply enabled_spec.
  - by apply (gates_spec []); left.
Qed.

Lemma narrowed_visible item : item_on c user (narrow_item (admin_config status) (user_config user) item) ↔ item_on c user item.
Proof.
  unfold narrow_item. destruct item as [ti r [url cfg|items|]]; try done. cbn [item_on i_kind]. setoid_rewrite list_elem_of_filter. setoid_rewrite enabled_spec. naive_solver.
Qed.

Lemma filtered_items items i : i ∈ filterNavItems items (admin_config status) (user_config user) ↔
  ∃ i0, i0 ∈ items ∧ item_on c user i0 ∧ i = narrow_item (admin_config status) (user_config user) i0.
Proof.
  unfold filterNavItems. rewrite list_elem_of_filter, list_elem_of_fmap, visible_spec. split.
  - intros [Hv (i0 & -> & Hi)]. exists i0. by rewrite narrowed_visible in Hv.
  - intros (i0 & Hi & Hv & ->). rewrite narrowed_visible. eauto.
Qed.
End Shown.

Lemma narrow_role a u i : requiredRole (narrow_item a u i) = requiredRole i.
Proof. by destruct i as [? ? []]. Qed.

Lemma narrow_subitems a u i items : i_kind (narrow_item a u i) = NavCollapsible items → Forall (fun x => isModuleEnabled x.2 a u = true) items.
Proof. destruct i as [t r []]; try done. cbn. intros [= <-]. apply Forall_forall. by intros x [Hx _]%list_elem_of_filter. Qed.

(** C37. The sidebar shows exactly the items whose role the user has and of whose pages
    one is left on by the saved switches of the administrator and by those of the user;
    a folder shows only such pages; and the group of the administrator needs its role. *)
Theorem sidebar_items_spec c groups status user userRole gid i : config_ok c → prop "SidebarModulesAdmin" status = JStr (serializeSidebarModulesAdmin c) →
  let role := default ROLE_GUEST userRole in
  (∃ g, g ∈ rootNavGroups groups status user userRole ∧ g_id g = gid ∧ i ∈ g_items g) ↔
  ∃ g0 i0, g0 ∈ groups ∧ g_id g0 = gid ∧ i0 ∈ g_items g0 ∧ i = narrow_item (admin_config status) (user_config user) i0
    ∧ item_on c user i0 ∧ (∀ r, requiredRole i0 = Some r → (r <= role)%Z) ∧ (gid = js "admin" → (ROLE_ADMIN <= role)%Z)
    ∧ (∀ items, i_kind i = NavCollapsible items → Forall (fun x => url_on c user x.2) items).
Proof.
  intros Hc Hs role. unfold rootNavGroups, useSidebarConfig. fold role.
  assert (∀ j, role_allows role j = true ↔ ∀ r, requiredRole j = Some r → (r <= role)%Z) as Hr.
  { intros j. unfold role_allows. destruct (requiredRole j) as [r|]; [rewrite Z.leb_le|]; naive_solver. }
  split.
  - intros (g & Hg & Hid & Hi). apply list_elem_of_fmap in Hg as (g1 & -> & Hg). apply list_elem_of_filter in Hg as [Ha Hg]. apply list_elem_of_filter in Hg as [_ Hg].
    apply list_elem_of_fmap in Hg as (g0 & -> & Hg0). cbn [g_id g_items] in *. apply list_elem_of_filter in Hi as [Hro Hi]. apply (filtered_items c) in Hi as (i0 & Hi0 & Hv & ->); [|done..].
    exists g0, i0. rewrite Hr, narrow_role in Hro. split_and!; try done; [by rewrite <- Hid|]. intros items Hit. apply narrow_subitems in Hit. eapply Forall_impl; [exact Hit|]. intros x. by apply enabled_spec.
  - intros (g0 & i0 & Hg0 & Hid & Hi0 & -> & Hv & Hro & Ha & _). assert (narrow_item (admin_config status) (user_config user) i0 ∈ filterNavItems (g_items g0) (admin_config status) (user_config user)) as Hin.
    { apply (filtered_items c); [done..|]. eauto. }
    exists (mkGroup (g_id g0) (g_title g0) (filter (fun i => role_allows role i = true) (filterNavItems (g_items g0) (admin_config status) (user_config user)))).
    split; [|split; [exact Hid|]].
    + apply list_elem_of_fmap. eexists (mkGroup (g_id g0) (g_title g0) (filterNavItems (g_items g0) _ _)). split; [reflexivity|]. apply list_elem_of_filter. cbn [g_id]. split; [by rewrite Hid|].
      apply list_elem_of_filter. split.
      * cbn [g_items]. intros He. rewrite He in Hin. by apply not_elem_of_nil in Hin.
      * apply list_elem_of_fmap. by exists g0.
    + apply list_elem_of_filter. cbn [g_items]. split; [|done]. apply Hr. by rewrite narrow_role.
Qed.

(** ** The header *)

Definition nav_effect (k : jsstr) (v : jsval) (old : option NavModule) : option NavModule :=
  if bool_decide (k ∈ HEADER_ACCESS) then Some (parseAccess v old)
  else match old with
       | Some (Flag b) => Some (Flag (parseHeaderNavBoolean v b))
       | _ => if is_scalar v then Some (Flag (parseHeaderNavBoolean v true)) else old
       end.

Lemma nav_entry_mget r k v k' : mget k' (nav_entry r (k, v)) = if bool_decide (k = k') then nav_effect k v (mget k r) else mget k' r.
Proof.
  unfold nav_entry, nav_effect. rewrite access_key. destruct (bool_decide (k ∈ HEADER_ACCESS)); [apply mget_mset_bool|].
  destruct (mget k r) as [[b|e a]|] eqn:E; try apply mget_mset_bool; (destruct (is_scalar v); [apply mget_mset_bool|]; case_bool_decide; by subst).
Qed.

(** The header reads the modules that were printed. *)
Lemma nav_reads c k m : header_ok c → mget k c = Some m → mget k (parseHeaderNavModules (JStr (serializeHeaderNavModules c))) = Some m.
Proof.
  intros Hc Hk. destruct (header_parsed c Hc) as (Htr & Ht & Hp). destruct (modules_parsed c Hc) as [Hn Hm]. unfold parseHeaderNavModules, parseHeaderNavRecord. cbn [js_String].
  rewrite Htr, Ht. assert (truthy (JStr (serializeHeaderNavModules c)) = true) as -> by (by destruct (serializeHeaderNavModules c)). cbn [negb orb]. rewrite Hp.
  change (truthy (enumerated (header_value c))) with true. cbv iota. rewrite (mget_foldl _ _ nav_entry_mget) by done. rewrite Hm, Hk. cbn [fmap option_fmap option_map].
  destruct Hc as [_ Hf]. rewrite Forall_forall in Hf. destruct (Hf _ (mget_Some_elem _ _ _ Hk)) as [_ Ho]. unfold nav_effect. destruct m as [b|e r]; cbn [fst snd] in Ho.
  - rewrite bool_decide_false by done. cbn [module_value is_scalar parseHeaderNavBoolean]. by destruct (mget k DEFAULT_HEADER_NAV_MODULES) as [[]|].
  - rewrite bool_decide_true by done. destruct e, r; vm_compute; reflexivity.
Qed.

(** C38. The header settings that an administrator saves are what the page shows when it
    is opened again, what the guards of the two public pages obey, and what the header
    shows: one link for each part that is on, in a fixed order. *)
Theorem header_saved config initial values text t status isAuthed : header_ok config → header_submit config initial values = Some text →
  prop "HeaderNavModules" status = JStr text →
  toFormValues (NavSettings.parseHeaderNavModules (Some text)) = values
  ∧ getModuleAccessFromStatus status Pricing = Access (pricingEnabled values) (pricingRequireAuth values)
  ∧ getModuleAccessFromStatus status Rankings = Access (rankingsEnabled values) (rankingsRequireAuth values)
  ∧ (∀ k m, mget k config = Some m → k ∉ mkeys HEADER_NAV_DEFAULT → mget k (parseHeaderNavModulesFromStatus status) = Some m)
  ∧ href <$> topNavLinks t status isAuthed =
      (if v_home values then [js "/"] else []) ++ (if v_console values then [js "/dashboard"] else []) ++ (if pricingEnabled values then [js "/pricing"] else [])
      ++ (if rankingsEnabled values then [js "/rankings"] else [])
      ++ (if v_docs values then [if truthy (prop "docs_link" status) then js_String (prop "docs_link" status) else js "/docs"] else [])
      ++ (if v_about values then [js "/about"] else []).
Proof.
  intros Hc Ht Hs. unfold header_submit in Ht. case_bool_decide; [done|]. injection Ht as <-. pose proof (header_payload_ok config values Hc) as Hok.
  destruct (payload_members config values) as (H1 & H2 & H3 & H4 & H5 & H6 & H7). pose proof (nav_reads _ (js "home") _ Hok H1) as N1. pose proof (nav_reads _ (js "console") _ Hok H2) as N2.
  pose proof (nav_reads _ (js "pricing") _ Hok H3) as N3. pose proof (nav_reads _ (js "rankings") _ Hok H4) as N4. pose proof (nav_reads _ (js "docs") _ Hok H5) as N5. pose proof (nav_reads _ (js "about") _ Hok H6) as N6.
  split_and!.
  - unfold toFormValues, flag_of. rewrite (header_reopens _ (js "home") _ Hok H1), (header_reopens _ (js "console") _ Hok H2), (header_reopens _ (js "pricing") _ Hok H3),
      (header_reopens _ (js "rankings") _ Hok H4), (header_reopens _ (js "docs") _ Hok H5), (header_reopens _ (js "about") _ Hok H6). by destruct values.
  - unfold getModuleAccessFromStatus, parseHeaderNavModulesFromStatus. rewrite Hs. cbn [nav_name]. by rewrite N3.
  - unfold getModuleAccessFromStatus, parseHeaderNavModulesFromStatus. rewrite Hs. cbn [nav_name]. by rewrite N4.
  - intros k m Hk Hn. unfold parseHeaderNavModulesFromStatus. rewrite Hs. apply nav_reads; [done|]. by rewrite H7.
  - unfold topNavLinks, parseHeaderNavModulesFromStatus, access_link, not_off. rewrite Hs, N1, N2, N3, N4, N5, N6. rewrite !fmap_app.
    repeat f_equal; unfold link_if; first [by destruct (v_home values)|by destruct (v_console values)|by destruct (pricingEnabled values)|by destruct (rankingsEnabled values)
      |by destruct (v_about values)|by destruct (v_docs values), (truthy (prop "docs_link" status))].
Qed.

(** ** Examples *)

Definition sample_config : SidebarModulesAdminConfig := [(js "chat", [(js "enabled", true); (js "playground", false)]); (js "lab", [(js "enabled", false)])].

Definition sample_status : jsval := JObj [(js "SidebarModulesAdmin", JStr (serializeSidebarModulesAdmin sample_config))].
Definition sample_stored : option jsstr := cacheStatus None sample_status.

Lemma sample_config_ok : config_ok sample_config.
Proof. split; [decided|]. repeat constructor; unfold units; decided. Qed.

Lemma sample_cached : prop "SidebarModulesAdmin" (getCachedStatus sample_stored) = JStr (serializeSidebarModulesAdmin sample_config).
Proof. vm_compute. reflexivity. Qed.

Lemma sidebar_settings_obeyed_witness : isSidebarModuleEnabled sample_stored (js "chat") (js "playground") = false
  ∧ isModuleEnabled (js "/playground") (admin_config (getCachedStatus sample_stored)) None = false.
Proof.
  destruct (sidebar_settings_obeyed sample_config sample_stored sample_config_ok sample_cached) as (_ & H1 & H2). split; [exact (H1 _ _)|]. exact (H2 (js "/playground") (js "chat") (js "playground") eq_refl).
Defined.

Lemma sidebar_items_spec_witness :
  ∃ g, g ∈ rootNavGroups (useSidebarData (fun s => s)) (getCachedStatus sample_stored) None (Some ROLE_ADMIN) ∧ g_id g = js "admin" ∧ link (js "Channels") "/channels" ∈ g_items g.
Proof.
  apply (sidebar_items_spec sample_config (useSidebarData (fun s => s)) (getCachedStatus sample_stored) None (Some ROLE_ADMIN) (js "admin") _ sample_config_ok sample_cached).
  eexists _, (link (js "Channels") "/channels"). split; [right; right; right; left|]. split; [reflexivity|]. split; [left|]. split; [reflexivity|].
  split; [|split; [discriminate|split; [intros _; reflexivity|discriminate]]]. right. exists (js "/channels"). split; [left|]. intros s m Hm.
  assert (mget (js "/channels") URL_TO_CONFIG_MAP = Some (js "admin", js "channel")) as E by (vm_compute; reflexivity). rewrite E in Hm. injection Hm as <- <-. repeat split.
Defined.

Definition sample_values : HeaderNavFormValues := mkHeaderForm true false true true false false true false.
Definition sample_text : jsstr := serializeHeaderNavModules (header_payload HEADER_NAV_DEFAULT sample_values).
Definition header_status : jsval := JObj [(js "HeaderNavModules", JStr sample_text)].

Lemma header_saved_witness : getModuleAccessFromStatus header_status Pricing = Access true true ∧ href <$> topNavLinks (fun s => s) header_status false = [js "/"; js "/pricing"; js "/docs"].
Proof.
  assert (header_ok HEADER_NAV_DEFAULT) as Hok by (split; [decided|repeat (apply Forall_cons_2; [split; [unfold units; decided|cbn [fst snd]; decided]|]); constructor]).
  destruct (header_saved HEADER_NAV_DEFAULT [] sample_values sample_text (fun s => s) header_status false Hok) as (_ & H1 & _ & _ & H2);
    [vm_compute; reflexivity|vm_compute; reflexivity|]. split; [exact H1|exact H2].
Defined.

(** A switch that is stored as a number is off on the settings page and in the sidebar,
    and on for the guard of the page. *)
Example number_switch : let text := BillingRules.dq "{'chat':{'enabled':true,'playground':0}}" in
  on (parseSidebarModulesAdmin (Some text)) (js "chat") (js "playground") = false
  ∧ isModuleEnabled (js "/playground") (parseSidebarConfig (Some text)) None = false
  ∧ isSidebarModuleEnabled (Some (json_text 0 0 (JObj [(js "SidebarModulesAdmin", JStr text)]))) (js "chat") (js "playground") = true.
Proof. split_and!; vm_compute; reflexivity. Qed.

(** A switch that is stored as the number one is on for the settings page and the guard,
    and off in the sidebar. *)
Example one_switch : let text := BillingRules.dq "{'chat':{'enabled':true,'playground':1}}" in
  on (parseSidebarModulesAdmin (Some text)) (js "chat") (js "playground") = true ∧ isModuleEnabled (js "/playground") (parseSidebarConfig (Some text)) None = false.
Proof. split; vm_compute; reflexivity. Qed.

(** With the section of the administrator off, an administrator sees its group without
    any item: the one page that has no switch needs a higher role. *)
Example empty_admin_group : let status := JObj [(js "SidebarModulesAdmin", JStr (serializeSidebarModulesAdmin [(js "admin", [(js "enabled", false)])]))] in
  (fun g => (g_id g, length (g_items g))) <$> rootNavGroups (useSidebarData (fun s => s)) status None (Some ROLE_ADMIN)
  = [(js "chat", 2); (js "general", 6); (js "personal", 2); (js "admin", 0)].
Proof. vm_compute. reflexivity. Qed.

End Navigation.
