(* ===== verification/Redirects.v ===== *)
(** * Where the browser is sent
    (src/web/src/features/auth/lib/auth-redirect.ts, src/web/src/lib/legacy-route.ts)

    After a login the browser goes to a target that came with the address, if it is one
    of this site; addresses of the former interface are sent to their new pages.  The
    parser of addresses is that of the browser: it is a parameter, with the few facts of
    the URL standard that the code relies on as hypotheses. *)

From S2P Require Import Prelude JsString JsValue JsJson AuthStore.

Module Redirects.

(** ** Addresses *)

Record URL := mkURL { protocol : jsstr; origin : jsstr; pathname : jsstr; search : jsstr; hash : jsstr; searchParams : list (jsstr * jsstr) }.

Definition allowedRedirectProtocols : list jsstr := [js "http:"; js "https:"].

(** ** The language of a user *)

Definition text_of (v : jsval) : option jsstr := match v with JStr s => Some s | _ => None end.

(** [null] has no members, which the source catches. *)
Definition getSavedLanguage (user : AuthStore.AuthUser) : option jsstr :=
  let u := AuthStore.u_object user in
  match prop "language" u with
  | JStr s => Some s
  | _ =>
      match prop "setting" u with
      | JObj fs => text_of (prop "language" (JObj fs))
      | JStr s => JSON_parse s ≫= fun setting => text_of (prop "language" setting)
      | _ => None
      end
  end.

(** ** Tables of former addresses *)

Definition legacyOrigin : jsstr := js "https://legacy-route.invalid".

Definition pair (a b : string) : jsstr * jsstr := (js a, js b).

Definition legacyConsoleRoutes : list (jsstr * jsstr) :=
  [pair "/console" "/dashboard"; pair "/console/models" "/models"; pair "/console/deployment" "/models/deployments"; pair "/console/subscription" "/subscriptions";
   pair "/console/channel" "/channels"; pair "/console/token" "/keys"; pair "/console/playground" "/playground"; pair "/console/redemption" "/redemption-codes";
   pair "/console/user" "/users"; pair "/console/personal" "/profile"; pair "/console/log" "/usage-logs"; pair "/console/midjourney" "/usage-logs/drawing";
   pair "/console/task" "/usage-logs/task"]%string.

Definition legacySettingsTabs : list (jsstr * jsstr) :=
  [pair "operation" "/system-settings/operations/behavior"; pair "dashboard" "/system-settings/content/dashboard"; pair "chats" "/system-settings/content/chat";
   pair "drawing" "/system-settings/content/drawing"; pair "payment" "/system-settings/billing/payment"; pair "ratio" "/system-settings/billing/model-pricing";
   pair "ratelimit" "/system-settings/security/rate-limit"; pair "models" "/system-settings/models/global"; pair "model-deployment" "/system-settings/models/model-deployment";
   pair "performance" "/system-settings/operations/performance"; pair "system" "/system-settings/site/system-info"; pair "other" "/system-settings/site/system-info"]%string.

(** Members that every object inherits, with the text they print as *)
Definition native (k : string) : jsstr * jsstr := (js k, js "function " ++ js k ++ js "() { [native code] }").
Definition Object_prototype : list (jsstr * jsstr) :=
  [(js "constructor", js "function Object() { [native code] }"); (js "__proto__", js "[object Object]"); native "hasOwnProperty"; native "isPrototypeOf"; native "propertyIsEnumerable";
   native "toLocaleString"; native "toString"; native "valueOf"; native "__defineGetter__"; native "__defineSetter__"; native "__lookupGetter__"; native "__lookupSetter__"].

(** [s.replace(/\/+$/, '')] *)
Fixpoint drop_slashes (s : jsstr) : jsstr := match s with c :: s' => if (c =? 47)%N then drop_slashes s' else s | [] => [] end.

Definition normalizeLegacyPath (path : jsstr) : jsstr := if bool_decide (path = js "/") then path else reverse (drop_slashes (reverse path)).

Section Browser.
(** [new URL(s)] and [new URL(s, base)]; [None] is an exception *)
Context (new_URL : jsstr → option jsstr → option URL).

(** The search part after [searchParams.append] of some pairs, and the hash after
    [url.hash = h] *)
Context (search_with : URL → list (jsstr * jsstr) → jsstr) (hash_with : URL → jsstr → jsstr).

Definition sanitizeAuthRedirect (value : jsval) (site : jsstr) : option jsstr :=
  match value with
  | JStr v =>
      let target := trim v in
      if negb (str_true target) || includes [92%N] target || starts_with (js "//") target then None
      else
        trustedOrigin ← new_URL site None;
        if negb (bool_decide (protocol trustedOrigin ∈ allowedRedirectProtocols)) then None
        else
          redirectURL ← (if starts_with (js "/") target then new_URL target (Some (origin trustedOrigin)) else new_URL target None);
          if negb (bool_decide (protocol redirectURL ∈ allowedRedirectProtocols)) || negb (bool_decide (origin redirectURL = origin trustedOrigin)) then None
          else Some (pathname redirectURL ++ search redirectURL ++ hash redirectURL)
  | _ => None
  end.

(** [None] is an exception, which the callers do not catch. *)
Definition buildTargetHref (targetPath : jsstr) (source : URL) : option jsstr :=
  target ← new_URL targetPath (Some legacyOrigin);
  Some (pathname target ++ search_with target (searchParams source) ++ hash_with target (hash source)).

Definition settings_target (source : URL) : jsstr :=
  let tab := default [] (mget (js "tab") (searchParams source)) in
  match mget tab legacySettingsTabs with
  | Some target => target
  | None => default (js "/system-settings") (mget tab Object_prototype)
  end.

Definition legacy_target (path : jsstr) (source : URL) : option jsstr :=
  if bool_decide (path = js "/login") then Some (js "/sign-in")
  else if bool_decide (path = js "/forbidden") then Some (js "/403")
  else if bool_decide (path = js "/console/topup") then Some (js "/wallet")
  else if bool_decide (path = js "/console/setting") then Some (settings_target source)
  else if bool_decide (path = js "/console/chat") then Some (js "/dashboard")
  else if starts_with (js "/console/chat/") path then
    let chatID := drop (length (js "/console/chat/")) path in
    Some (if str_true chatID then js "/chat/" ++ chatID else js "/dashboard")
  else match mget path legacyConsoleRoutes with
       | Some target => Some target
       | None => if starts_with (js "/console/") path then Some (js "/dashboard") else None
       end.

(** [Ok] of null or an address, or an exception *)
Definition resolveLegacyRoute (rawHref : jsstr) : option (option jsstr) :=
  match new_URL rawHref (Some legacyOrigin) with
  | None => Some None
  | Some source =>
      match legacy_target (normalizeLegacyPath (pathname source)) source with
      | Some target => Some <$> buildTargetHref target source
      | None => Some None
      end
  end.

(** ** The target of a login *)

Definition TAB_BREAKS : list N := [9; 10; 13]%N.

(** The parts of an address of the web, as the standard serialises them *)
Definition http_shape (u : URL) : Prop :=
  (∃ p, pathname u = 47%N :: p ∧ 92%N ∉ p) ∧ (search u = [] ∨ ∃ q, search u = 63%N :: q) ∧ (hash u = [] ∨ ∃ h, hash u = 35%N :: h)
  ∧ Forall (fun c => c ∉ TAB_BREAKS) (pathname u ++ search u ++ hash u).

(** A reference that begins with one slash *)
Definition path_absolute (r : jsstr) : Prop :=
  match r with 47%N :: c :: _ => c ≠ 47%N ∧ c ≠ 92%N | [47%N] => True | _ => False end ∧ Forall (fun c => c ∉ TAB_BREAKS) r.

(** Facts of the URL standard: the shape of a parsed address, and that a reference with
    one slash is resolved at the origin of its base *)
Hypothesis parsed_shape : ∀ s b u, new_URL s b = Some u → protocol u ∈ allowedRedirectProtocols → http_shape u.
Hypothesis path_resolves : ∀ site t r, new_URL site None = Some t → protocol t ∈ allowedRedirectProtocols → path_absolute r →
  ∃ u, new_URL r (Some (origin t)) = Some u ∧ origin u = origin t.

Lemma shape_absolute u : http_shape u → starts_with (js "/") (pathname u ++ search u ++ hash u) = true
  ∧ (starts_with (js "//") (pathname u ++ search u ++ hash u) = false → path_absolute (pathname u ++ search u ++ hash u)).
Proof.
  intros ((p & Hp & Hb) & Hs & Hh & Hc). rewrite Hp in *. split; [by vm_compute|]. intros Hn. split; [|done]. destruct p as [|c p].
  - destruct Hs as [->|[q ->]]; [|done]. by destruct Hh as [->|[h ->]].
  - apply not_elem_of_cons in Hb as [Hb _]. cbn [app]. split; [|done]. intros ->. done.
Qed.

(** C39. The target of a login: whatever the address asks for, the browser is sent
    nowhere or to the path of an address of this site, which is what was asked for; and
    unless that path begins with two slashes, it is resolved at this site again. *)
Theorem auth_redirect_trusted value site r : sanitizeAuthRedirect value site = Some r →
  ∃ t v u, new_URL site None = Some t ∧ protocol t ∈ allowedRedirectProtocols
    ∧ value = JStr v ∧ (new_URL (trim v) None = Some u ∨ new_URL (trim v) (Some (origin t)) = Some u)
    ∧ origin u = origin t ∧ protocol u ∈ allowedRedirectProtocols ∧ r = pathname u ++ search u ++ hash u ∧ starts_with (js "/") r = true
    ∧ (starts_with (js "//") r = false → ∃ w, new_URL r (Some (origin t)) = Some w ∧ origin w = origin t).
Proof.
  unfold sanitizeAuthRedirect. destruct value as [| | | |v| |]; try done. destruct (_ || _); [done|]. destruct (new_URL site None) as [t|] eqn:Et; [|done]. cbn [mbind option_bind].
  destruct (bool_decide (protocol t ∈ _)) eqn:Ep; [|done]. apply bool_decide_eq_true in Ep. cbn [negb]. set (redirect := if starts_with _ _ then _ else _).
  assert (∃ b, redirect = new_URL (trim v) b ∧ (b = None ∨ b = Some (origin t))) as (b & -> & Hb) by (unfold redirect; destruct (starts_with _ _); eauto).
  destruct (new_URL (trim v) b) as [u|] eqn:Eu; [|done]. cbn [mbind option_bind]. destruct (bool_decide (protocol u ∈ _)) eqn:Ea; [|done]. apply bool_decide_eq_true in Ea.
  destruct (bool_decide (origin u = _)) eqn:Eo; [|done]. apply bool_decide_eq_true in Eo. intros [= <-]. destruct (shape_absolute u (parsed_shape _ _ _ Eu Ea)) as [H1 H2].
  exists t, v, u. split_and!; try done; [destruct Hb as [->| ->]; auto|]. intros Hn. by apply (path_resolves site), H2.
Qed.

(** ** Former addresses *)

(** The pages that former addresses lead to *)
Definition TARGETS : list jsstr :=
  [js "/sign-in"; js "/403"; js "/wallet"; js "/dashboard"; js "/system-settings"] ++ legacySettingsTabs.*2 ++ legacyConsoleRoutes.*2.

(** Facts of the URL standard: plain paths are kept as they are, the rest of the path
    of a web address is a path, and an address that was put together from a path with
    one slash in front that parsing keeps, a query and a fragment is parsed into these
    parts *)
Hypothesis plain_paths : ∀ p, p ∈ TARGETS → ∃ u, new_URL p (Some legacyOrigin) = Some u ∧ pathname u = p ∧ searchParams u = [].
Hypothesis chat_paths : ∀ s u id, new_URL s (Some legacyOrigin) = Some u → protocol u ∈ allowedRedirectProtocols → normalizeLegacyPath (pathname u) = js "/console/chat/" ++ id → id ≠ [] →
  ∃ v, new_URL (js "/chat/" ++ id) (Some legacyOrigin) = Some v ∧ pathname v = js "/chat/" ++ id ∧ searchParams v = [].
Hypothesis built_paths : ∀ p u s source, starts_with (js "/") p = true → starts_with (js "//") p = false →
  new_URL p (Some legacyOrigin) = Some u → pathname u = p → searchParams u = [] → new_URL s (Some legacyOrigin) = Some source →
  ∃ w, new_URL (pathname u ++ search_with u (searchParams source) ++ hash_with u (hash source)) (Some legacyOrigin) = Some w ∧ pathname w = pathname u ∧ searchParams w = searchParams source.

(** The beginnings of former addresses *)
Definition former (path : jsstr) : bool := starts_with (js "/login") path || starts_with (js "/forbidden") path || starts_with (js "/console") path.

Lemma starts_with_weaken a b s : starts_with (a ++ b) s = true → starts_with a s = true.
Proof. rewrite !starts_with_spec. intros [r ->]. exists (b ++ r). by rewrite app_assoc. Qed.

Lemma former_target path source : former path = false → legacy_target path source = None.
Proof.
  unfold former. rewrite !orb_false_iff. intros [[H1 H2] H3]. unfold legacy_target.
  assert (∀ k, starts_with (js "/console") k = true → path ≠ k) as Hk by (by intros k Hk ->; rewrite Hk in H3).
  rewrite !bool_decide_false by (first [apply Hk; decided|by intros ->]).
  assert (starts_with (js "/console/chat/") path = false ∧ starts_with (js "/console/") path = false) as [-> ->].
  { split; [destruct (starts_with (js "/console/chat/") path) eqn:E|destruct (starts_with (js "/console/") path) eqn:E]; try done; exfalso.
    - change (js "/console/chat/") with (js "/console" ++ js "/chat/") in E. apply starts_with_weaken in E. congruence.
    - change (js "/console/") with (js "/console" ++ js "/") in E. apply starts_with_weaken in E. congruence. }
  destruct (mget path legacyConsoleRoutes) eqn:E; [|done]. apply mget_Some_elem in E. exfalso. assert (Forall (fun e => starts_with (js "/console") e.1 = true) legacyConsoleRoutes) as Hr by decided.
  rewrite Forall_forall in Hr. specialize (Hr _ E). cbn in Hr. congruence.
Qed.

Lemma drop_slashes_suffix s : ∃ a, s = a ++ drop_slashes s.
Proof.
  induction s as [|c s [a Ha]]; [by exists []|]. cbn. destruct (N.eqb_spec c 47) as [->|Hne]; [|by exists []]. exists (47%N :: a). cbn. by rewrite <- Ha.
Qed.

Lemma normalized_prefix path : ∃ b, path = normalizeLegacyPath path ++ b.
Proof.
  unfold normalizeLegacyPath. case_bool_decide; [exists []; by rewrite app_nil_r|]. destruct (drop_slashes_suffix (reverse path)) as [a Ha]. exists (reverse a).
  rewrite <- reverse_app, <- Ha. by rewrite reverse_involutive.
Qed.

Lemma former_prefix p b : former (p ++ b) = false → former p = false.
Proof.
  unfold former. rewrite !orb_false_iff. assert (∀ k, starts_with k (p ++ b) = false → starts_with k p = false) as H; [|naive_solver].
  intros k Hk. destruct (starts_with k p) eqn:E; [|done]. apply starts_with_spec in E as [r ->]. rewrite <- app_assoc, starts_with_app in Hk. done.
Qed.

(** The tab of the settings page is none that every object has. *)
Definition own_tab (source : URL) : Prop := mget (default [] (mget (js "tab") (searchParams source))) Object_prototype = None.

Lemma settings_target_known source : own_tab source → settings_target source ∈ TARGETS.
Proof.
  unfold own_tab, settings_target. cbv zeta. intros ->. destruct (mget _ legacySettingsTabs) as [t|] eqn:E; [|unfold TARGETS; cbn [app default]; do 4 right; left].
  apply mget_Some_elem, (list_elem_of_fmap_2 snd) in E. unfold TARGETS. rewrite !elem_of_app. auto.
Qed.

(** Where a former address leads: to a page of the list, or to a chat *)
Lemma target_cases s source t : new_URL s (Some legacyOrigin) = Some source → protocol source ∈ allowedRedirectProtocols → own_tab source → legacy_target (normalizeLegacyPath (pathname source)) source = Some t →
  ∃ u, new_URL t (Some legacyOrigin) = Some u ∧ pathname u = t ∧ searchParams u = [] ∧ former t = false
  ∧ starts_with (js "/") t = true ∧ starts_with (js "//") t = false.
Proof.
  intros Hu Hw Ht Hl.
  assert (t ∈ TARGETS ∨ ∃ chat, chat ≠ [] ∧ t = js "/chat/" ++ chat ∧ normalizeLegacyPath (pathname source) = js "/console/chat/" ++ chat) as Hc.
  { revert Hl. generalize (normalizeLegacyPath (pathname source)). intros path. unfold legacy_target.
    repeat (match goal with |- context [bool_decide ?P] => destruct (bool_decide P) end; [intros [= <-]; left; first [by apply settings_target_known|decided]|]).
    destruct (starts_with (js "/console/chat/") path) eqn:E.
    - apply starts_with_spec in E as [chat ->]. cbv zeta. rewrite drop_app_length. destruct chat as [|c chat]; intros [= <-]; [left; decided|]. right. exists (c :: chat). done.
    - destruct (mget path legacyConsoleRoutes) as [r|] eqn:Er; [intros [= <-]; left; apply mget_Some_elem, (list_elem_of_fmap_2 snd) in Er; unfold TARGETS; rewrite !elem_of_app; auto|].
      destruct (starts_with (js "/console/") path); [intros [= <-]; left; decided|done]. }
  destruct Hc as [Hin|(chat & Hne & -> & Hn)].
  - destruct (plain_paths t Hin) as (u & H1 & H2 & H3). exists u. assert (Forall (fun t => former t = false ∧ starts_with (js "/") t = true ∧ starts_with (js "//") t = false) TARGETS) as Hf by decided.
    rewrite Forall_forall in Hf. naive_solver.
  - destruct (chat_paths s source chat Hu Hw Hn Hne) as (v & H1 & H2 & H3). exists v. split_and!; try done.
Qed.

(** C40. A web address of the former interface is replaced at most once: the address it
    is sent to is not a former one, and holds the same query. Excluded are addresses
    whose parameter [tab] is the name of a member that every object inherits, which
    lead to a page that does not exist. *)
Theorem legacy_once rawHref source : new_URL rawHref (Some legacyOrigin) = Some source → protocol source ∈ allowedRedirectProtocols → own_tab source →
  resolveLegacyRoute rawHref = Some None
  ∨ ∃ r w, resolveLegacyRoute rawHref = Some (Some r) ∧ resolveLegacyRoute r = Some None
      ∧ new_URL r (Some legacyOrigin) = Some w ∧ searchParams w = searchParams source.
Proof.
  intros Hs Hw Ht. unfold resolveLegacyRoute at 1 2. rewrite Hs. destruct (legacy_target _ source) as [t|] eqn:El; [|by left]. right.
  destruct (target_cases _ _ _ Hs Hw Ht El) as (u & H1 & H2 & H3 & H4 & H5 & H6). unfold buildTargetHref. rewrite H1. cbn [mbind option_bind fmap option_fmap option_map].
  destruct (built_paths t u rawHref source H5 H6 H1 H2 H3 Hs) as (w & W1 & W2 & W3). eexists _, w. split; [reflexivity|]. split_and!; [|exact W1|exact W3].
  unfold resolveLegacyRoute. rewrite W1, W2, H2. rewrite former_target; [done|]. destruct (normalized_prefix t) as [b Hb]. apply (former_prefix _ b). by rewrite <- Hb.
Qed.
End Browser.

(** ** Examples

    A small parser of addresses that has the facts that the theorem on logins needs *)

Fixpoint cut (stops : list N) (s : jsstr) : jsstr * jsstr :=
  match s with
  | c :: s' => if bool_decide (c ∈ stops) then ([], s) else (c :: (cut stops s').1, (cut stops s').2)
  | [] => ([], [])
  end.

Definition forward (c : N) : N := if bool_decide (c = 92%N) then 47%N else c.

Definition web_tail (site tail : jsstr) : option URL :=
  let '(path, rest) := cut [63; 35]%N tail in
  let '(query, fragment) := cut [35%N] rest in
  if bool_decide (Forall (fun c => c ∉ TAB_BREAKS) tail) && starts_with (js "/") path then Some (mkURL (js "https:") site (forward <$> path) query fragment []) else None.

Definition web_URL (s : jsstr) (base : option jsstr) : option URL :=
  match base with
  | None =>
      let '(host, tail) := cut [47; 63; 35]%N (drop 8 s) in
      if starts_with (js "https://") s && str_true host then web_tail (js "https://" ++ host) (if str_true tail then tail else js "/") else None
  | Some site =>
      if starts_with (js "//") s
      then let '(host, tail) := cut [47; 63; 35]%N (drop 2 s) in if str_true host then web_tail (js "https://" ++ host) (if str_true tail then tail else js "/") else None
      else web_tail site s
  end.

Lemma cut_app stops s : s = (cut stops s).1 ++ (cut stops s).2.
Proof. induction s as [|c s IH]; [done|]. cbn. case_bool_decide; [done|]. cbn. by rewrite <- IH. Qed.

Lemma cut_rest stops s : (cut stops s).2 = [] ∨ ∃ c r, (cut stops s).2 = c :: r ∧ c ∈ stops.
Proof. induction s as [|c s IH]; [by left|]. cbn. case_bool_decide; [right; by exists c, s|done]. Qed.

Lemma cut_head stops c s : c ∉ stops → (cut stops (c :: s)).1 = c :: (cut stops s).1.
Proof. intros H. cbn. by rewrite bool_decide_false. Qed.

Lemma forward_breaks c : c ∉ TAB_BREAKS → forward c ∉ TAB_BREAKS.
Proof. unfold forward. case_bool_decide; [|done]. intros _. decided. Qed.

Lemma web_tail_shape site tail u : web_tail site tail = Some u → http_shape u.
Proof.
  unfold web_tail. destruct (cut [63; 35]%N tail) as [path rest] eqn:E1. destruct (cut [35%N] rest) as [query fragment] eqn:E2. destruct (_ && _) eqn:E; [|done]. intros [= <-].
  apply andb_true_iff in E as [Hb Hp]. apply bool_decide_eq_true in Hb. apply starts_with_spec in Hp as [p Hp]. pose proof (cut_app [63; 35]%N tail) as A1. rewrite E1 in A1. cbn [fst snd] in A1.
  pose proof (cut_app [35%N] rest) as A2. rewrite E2 in A2. cbn [fst snd] in A2. pose proof (cut_rest [63; 35]%N tail) as R1. rewrite E1 in R1. cbn [snd] in R1.
  pose proof (cut_rest [35%N] rest) as R2. rewrite E2 in R2. cbn [snd] in R2. unfold http_shape. cbn [pathname search hash]. split_and!.
  - exists (forward <$> p). split; [by rewrite Hp|]. intros (c & Hc & _)%list_elem_of_fmap. unfold forward in Hc. case_bool_decide; done.
  - destruct query as [|q query]; [by left|right]. exists query. destruct R1 as [->|(c & r & Hr & Hc)]; [done|]. rewrite Hr in A2. injection A2 as -> _.
    apply elem_of_cons in Hc as [->|Hc]; [done|]. apply list_elem_of_singleton in Hc as ->. rewrite Hr in E2. cbn in E2. done.
  - destruct R2 as [->|(c & r & -> & Hc)]; [by left|right]. apply list_elem_of_singleton in Hc as ->. by exists r.
  - rewrite A1, A2, Forall_app in Hb. destruct Hb as [Hb1 Hb2]. apply Forall_app. split; [|done]. rewrite Forall_fmap. eapply Forall_impl; [exact Hb1|]. intros c. apply forward_breaks.
Qed.

Lemma web_tail_absolute site r : path_absolute r → ∃ u, web_tail site r = Some u ∧ origin u = site.
Proof.
  intros [Hr Hb]. assert (∃ r', r = 47%N :: r') as [r' ->] by (destruct r as [|c r']; [done|]; exists r'; f_equal; by repeat case_match).
  unfold web_tail. pose proof (cut_head [63; 35]%N 47%N r' ltac:(decided)) as H. destruct (cut [63; 35]%N (47%N :: r')) as [path rest]. cbn [fst] in H. subst path.
  destruct (cut [35%N] rest). rewrite bool_decide_true by done. eexists. split; [reflexivity|done].
Qed.

Lemma web_shape s b u : web_URL s b = Some u → protocol u ∈ allowedRedirectProtocols → http_shape u.
Proof.
  intros H _. unfold web_URL in H. destruct b as [site|].
  - destruct (starts_with _ s); [|by eapply web_tail_shape]. destruct (cut _ _) as [host tail]. destruct (str_true host); [|done]. by eapply web_tail_shape.
  - destruct (cut _ _) as [host tail]. destruct (_ && _); [|done]. by eapply web_tail_shape.
Qed.

Lemma web_resolves site t r : web_URL site None = Some t → protocol t ∈ allowedRedirectProtocols → path_absolute r →
  ∃ u, web_URL r (Some (origin t)) = Some u ∧ origin u = origin t.
Proof.
  intros _ _ Hr. unfold web_URL. assert (starts_with (js "//") r = false) as ->; [|by apply web_tail_absolute].
  destruct Hr as [Hr _]. destruct (starts_with (js "//") r) eqn:E; [|done]. apply starts_with_spec in E as [x ->]. by destruct Hr.
Qed.

Definition SITE : jsstr := js "https://dashboard.example".

Lemma auth_redirect_trusted_witness : sanitizeAuthRedirect web_URL (JStr (js "https://dashboard.example/keys?tab=1#new")) SITE = Some (js "/keys?tab=1#new")
  ∧ ∃ u, web_URL (js "/keys?tab=1#new") (Some SITE) = Some u ∧ origin u = SITE.
Proof.
  assert (sanitizeAuthRedirect web_URL (JStr (js "https://dashboard.example/keys?tab=1#new")) SITE = Some (js "/keys?tab=1#new")) as H by (vm_compute; reflexivity). split; [exact H|].
  destruct (auth_redirect_trusted web_URL web_shape web_resolves _ _ _ H) as (t & v & u & Ht & _ & _ & _ & _ & _ & _ & _ & Hr). assert (origin t = SITE) as Ho.
  { assert (web_URL SITE None = Some (mkURL (js "https:") SITE (js "/") [] [] [])) as E by (vm_compute; reflexivity). rewrite E in Ht. injection Ht as <-. reflexivity. }
  rewrite Ho in Hr. apply Hr. vm_compute. reflexivity.
Defined.

(** Two slashes after the name of this site pass, and the path that is left is resolved
    at another one. *)
Example double_slash_leaves : sanitizeAuthRedirect web_URL (JStr (js "https://dashboard.example//attacker.example/path")) SITE = Some (js "//attacker.example/path")
  ∧ origin <$> web_URL (js "//attacker.example/path") (Some SITE) = Some (js "https://attacker.example").
Proof. split; vm_compute; reflexivity. Qed.

(** A finite browser for former addresses: some paths, with and without a query and a
    fragment *)
Definition table_paths : list jsstr := TARGETS ++ [js "/chat/42"; js "/console/chat/42"; js "/console/topup"].
Definition table_queries : list (jsstr * list (jsstr * jsstr)) := [([], []); (js "?source=email", [pair "source" "email"]); (js "?tab=constructor", [pair "tab" "constructor"])].
Definition table_hashes : list jsstr := [[]; js "#orders"].

Definition addresses : list (jsstr * URL) :=
  p ← table_paths; q ← table_queries; h ← table_hashes; [(p ++ q.1 ++ h, mkURL (js "https:") legacyOrigin p q.1 h q.2)].

Definition table_URL (s : jsstr) (base : option jsstr) : option URL := mget s addresses.
Definition table_search (u : URL) (ps : list (jsstr * jsstr)) : jsstr := default [] (fst <$> (snd <$> list_find (fun q => q.2 = ps) table_queries)).
Definition table_hash (u : URL) (h : jsstr) : jsstr := h.

Lemma table_entries : Forall (fun e => pathname e.2 ∈ table_paths ∧ searchParams e.2 ∈ table_queries.*2 ∧ hash e.2 ∈ table_hashes) addresses.
Proof. decided. Qed.

Lemma table_parsed s b u : table_URL s b = Some u → pathname u ∈ table_paths ∧ searchParams u ∈ table_queries.*2 ∧ hash u ∈ table_hashes.
Proof. intros H%mget_Some_elem. pose proof table_entries as Ht. rewrite Forall_forall in Ht. exact (Ht _ H). Qed.

(** The table has an address of a path and a query *)
Definition parses_as (s p : jsstr) (ps : list (jsstr * jsstr)) : Prop := match mget s addresses with Some u => pathname u = p ∧ searchParams u = ps | None => False end.

Lemma parses_as_spec s p ps b : parses_as s p ps → ∃ u, table_URL s b = Some u ∧ pathname u = p ∧ searchParams u = ps.
Proof. unfold parses_as, table_URL. destruct (mget s addresses) as [u|]; [|done]. intros [? ?]. eauto. Qed.

#[local] Instance parses_as_dec s p ps : Decision (parses_as s p ps).
Proof. unfold parses_as. destruct (mget s addresses); apply _. Defined.

Lemma table_plain p : p ∈ TARGETS → ∃ u, table_URL p (Some legacyOrigin) = Some u ∧ pathname u = p ∧ searchParams u = [].
Proof. intros Hp. assert (Forall (fun p => parses_as p p []) TARGETS) as H by decided. rewrite Forall_forall in H. by apply parses_as_spec, H. Qed.

Lemma table_chat s u id : table_URL s (Some legacyOrigin) = Some u → protocol u ∈ allowedRedirectProtocols → normalizeLegacyPath (pathname u) = js "/console/chat/" ++ id → id ≠ [] →
  ∃ v, table_URL (js "/chat/" ++ id) (Some legacyOrigin) = Some v ∧ pathname v = js "/chat/" ++ id ∧ searchParams v = [].
Proof.
  intros Hu _ Hn _. destruct (table_parsed _ _ _ Hu) as (Hp & _ & _).
  assert (Forall (fun p => starts_with (js "/console/chat/") (normalizeLegacyPath p) = true → normalizeLegacyPath p = js "/console/chat/42") table_paths) as H by decided.
  rewrite Forall_forall in H. specialize (H _ Hp). rewrite Hn, starts_with_app in H. specialize (H eq_refl). change (js "/console/chat/42") with (js "/console/chat/" ++ js "42") in H.
  apply app_inv_head in H as ->. apply parses_as_spec. decided.
Qed.

Lemma table_built p u s source : starts_with (js "/") p = true → starts_with (js "//") p = false →
  table_URL p (Some legacyOrigin) = Some u → pathname u = p → searchParams u = [] → table_URL s (Some legacyOrigin) = Some source →
  ∃ w, table_URL (pathname u ++ table_search u (searchParams source) ++ table_hash u (hash source)) (Some legacyOrigin) = Some w ∧ pathname w = pathname u ∧ searchParams w = searchParams source.
Proof.
  intros _ _ Hu _ _ Hs. destruct (table_parsed _ _ _ Hu) as (Hp & _ & _). destruct (table_parsed _ _ _ Hs) as (_ & Hq & Hh). apply parses_as_spec.
  assert (Forall (fun p => Forall (fun ps => Forall (fun h => parses_as (p ++ default [] (fst <$> (snd <$> list_find (fun q => q.2 = ps) table_queries)) ++ h) p ps) table_hashes) table_queries.*2) table_paths) as H by decided.
  rewrite Forall_forall in H. specialize (H _ Hp). rewrite Forall_forall in H. specialize (H _ Hq). rewrite Forall_forall in H. exact (H _ Hh).
Qed.

Lemma legacy_once_witness : ∃ r w, resolveLegacyRoute table_URL table_search table_hash (js "/console/topup?source=email#orders") = Some (Some r)
  ∧ resolveLegacyRoute table_URL table_search table_hash r = Some None ∧ table_URL r (Some legacyOrigin) = Some w ∧ searchParams w = [pair "source" "email"].
Proof.
  assert (table_URL (js "/console/topup?source=email#orders") (Some legacyOrigin) =
    Some (mkURL (js "https:") legacyOrigin (js "/console/topup") (js "?source=email") (js "#orders") [pair "source" "email"])) as H by (vm_compute; reflexivity).
  destruct (legacy_once table_URL table_search table_hash table_plain table_chat table_built _ _ H ltac:(decided) eq_refl) as [E|E]; [vm_compute in E; discriminate E|exact E].
Defined.

(** The name of a member that every object inherits leads to a page that does not
    exist. *)
Example settings_tab_constructor : settings_target (mkURL [] [] [] [] [] [pair "tab" "constructor"]) = js "function Object() { [native code] }".
Proof. reflexivity. Qed.

End Redirects.
